(* ===== verification/_CoqProject ===== *)
-Q . S2P
Prelude.v
GoLib.v
GoHttp.v
GoUrl.v
Lines.v
IpBits.v
NetFacts.v
Pattern.v
CidrTrie.v
RangeCidr.v
MatchSet.v
Groups.v
LoadBalance.v
CCCounter.v
CCStats.v
WafCache.v
IPBan.v
CCRule.v
RateLimiter.v
CCEngine.v
CCEngineFacts.v
CCBans.v
PathMatch.v
AccessGate.v
AccessStore.v
AccessFacts.v
AuthReq.v
HostListen.v
Routing.v
AccessConf.v
AccessAccount.v
AccessAcctFacts.v
AccessLogin.v
LoginFacts.v
AccessFlow.v
AccessFlowFacts.v
GateFacts.v
AccessScenario.v
ClientIP.v
Traversal.v
RuleText.v
RuleForm.v
RuleCheck.v
HostLists.v
Referers.v
Outbound.v
Tamper.v
StaticSite.v
ManageAuth.v
ManageFacts.v
SshdLog.v
HostGuard.v
HostGuardFacts.v
Hardening.v
Pipeline.v
Serve.v
