(* ===== verification/Prelude.v ===== *)
(** * SamWaf: a verification development

    SamWaf is a web application firewall in Go: a reverse proxy that runs every request
    of a protected site through a chain of checks before it reaches the backend.  This
    library models the decision-making core of the program - the code under
    [src/wafenginecore], [src/cache], [src/wafipban], [src/webplugin], [src/model],
    [src/utils] and the access-gate services of [src/service/waf_service] - by executable
    definitions that follow the Go functions name by name, and proves what makes them
    correct.

    ** How the program works, and where its parts are

    A request first gets a client address ([ClientIP]) and a site ([HostListen],
    [Routing]).  If the site is protected it goes through the chain of checks
    ([Pipeline], put together in [Serve]): the white lists ([HostLists]), the running bans
    of the request rules and of the custom rules ([CCBans], [RuleCheck]), the black lists
    ([HostLists]), the detections ([Traversal], [CCEngine], [RuleCheck], [Referers] and
    those that are parameters), and the captcha.  Protected or not, it then meets the
    access gate ([AccessFlow]), a sign-in in front of the site.  What is let through is
    sent to a backend chosen by the load balancer ([LoadBalance]); cookies of the answer
    are hardened ([Hardening]).  The parts meet in shared state: the key-value cache
    ([WafCache]), the log record of the request, the published tables.

    - Go's libraries: [GoLib] (strings, bytes, numbers, addresses, base64, machine
      integers by [wrap] and [swrap]), [GoHttp] and [GoUrl] (headers, cookies, URLs, path
      cleaning), [Lines] (lists kept as text), [IpBits] and [NetFacts] (addresses as bits
      and numbers).
    - Addresses, [wafenginecore/ipset]: [Pattern] (pattern.go), [CidrTrie] (cidrtrie.go),
      [RangeCidr] (rangecidr.go), [MatchSet] (matchset.go, listtext.go), [Groups]
      (groups.go).
    - Load balancing, [wafenginecore/loadbalance]: [LoadBalance].
    - Request counting and its rules: [CCCounter] (cccounter), [CCStats] (ccstats),
      [CCRule] (model/anti_cc_*.go, wafenginecore/ccrule), [RateLimiter]
      (webplugin/ipratelimiter.go), [CCEngine] (checkcc.go, checkcc_rules.go,
      anticc_ban.go, cc_emergency.go, check_captcha.go), with [CCEngineFacts], [CCBans].
    - Cache and failure counters: [WafCache] (cache/waf_cache.go, cache_store.go), [IPBan]
      (wafipban).
    - Sites: [HostListen] (utils/hostport.go), [Routing] (routing_table.go, wafworker.go,
      website_diagnostic_route.go, access_redirect.go).
    - The access gate: [PathMatch], [AccessGate] (accessgate), [AccessStore] (session,
      ticket and account services), [AuthReq], [AccessLogin], [AccessFlow] (access_gate.go,
      access_login.go, access_ticket.go, access_redirect.go), [AccessConf],
      [AccessAccount] (the administrator's side); facts in [AccessFacts],
      [AccessAcctFacts], [LoginFacts], [AccessFlowFacts], [GateFacts]; a computed sign-in
      in [AccessScenario].
    - The client address: [ClientIP] (clientip.go, clientip/providers.go,
      utils/manageclientip.go).
    - Detections: [Traversal] (wafhttpcore, check_dir_traversal.go, body_detect_mode.go),
      [RuleText] (utils/rule_action.go) and [RuleCheck] (checkrule.go, rule_ban.go),
      [HostLists] (checkallow*.go, checkdeny*.go, ipindex.go, wafbot/callback_ip.go),
      [Referers] (check_csrf.go, check_antileech.go).
    - Answers: [Hardening] (pathrule.go, cookie_security.go, shouldAutoJumpHTTPS).
    - The chain: [Pipeline] (ServeHTTP of wafengine.go, over a class of checks), [Serve]
      (the same with the modelled checks).
    - Rules made from a form: [RuleForm] (model/rule_grl_safe.go, model/rule_info_json.go).
    - Requests the server makes itself: [Outbound] (utils/outbound.go, utils/common.go).
    - Pages and files: [Tamper] (tamper.go and the service of its rules), [StaticSite]
      (static_server.go, the files of wafcaptcha/service.go).
    - The administration side: [ManageAuth] (middleware, api/waf_login.go,
      api/waf_account.go, waf_token_info.go, waf_account.go), facts in [ManageFacts].
    - Remote logins of the host, [wafhostguard]: [SshdLog] (parser_sshd.go, event.go),
      [HostGuard] (decide.go, action.go, executor.go, ladder.go, whitelist.go, subnet.go and
      waf_host_guard_service.go), facts in [HostGuardFacts].

    ** Conventions

    A Go string is a list of bytes.  An integer is a [Z] in the range of its type; where
    an operation can leave the range the wrap-around is written out.  A time is a [Z] in
    nanoseconds (in seconds where the code uses Unix seconds), passed as an argument: one
    operation sees one clock value.  A map is a [gmap], a struct a [Record], a fallible
    call a [result] or an [option].  Code that shares mutable objects is modelled with a
    heap of addresses ([Groups], [Routing]).  State is threaded by hand in the small
    components and by state monads in the large ones ([CCEngine], [AccessStore]).  Code
    outside the repository is a parameter - a class such as [UnicodeCase], [TokenBucket],
    [RuleEngine], [Regexp], [Outside], [FireWall] - and what the code relies on of it is a hypothesis
    of the theorems that need it; each such theorem has a witness with a concrete
    instance.

    ** What the theorems show

    - The whole chain: no detection is missed, a refusal is justified, a barred visitor
      gets nothing, a white-listed one is stopped by nothing between, checks run in order
      and once ([Pipeline], [Serve]); nothing passes the access gate without a reason, the
      backend sees no forged identity ([GateFacts]), redirections stay on served sites
      ([AccessFlowFacts]).
    - Refinement of a reference: the compiled address set answers like the list of its
      patterns ([MatchSet]), lists with index and groups likewise ([HostLists]), the
      bucket ring like a window of slots ([CCCounter]), the rate limiter like a sliding
      window ([RateLimiter]), the pattern loop like the meaning of a pattern
      ([PathMatch]), two scopes of rules like one set of rules ([RuleCheck]).
    - Invariants over reachable states: sessions and their cached tokens ([AccessFacts]),
      challenge or grace but not both ([CCEngineFacts]), the accounting of counter keys
      ([CCCounter]), copy-on-write publication ([Routing], [Groups]), the published
      configuration of the gate ([AccessConf]), where a stored page came from ([Tamper]),
      the ledger of bans, its mirror and the firewall ([HostGuardFacts]).
    - What an attacker cannot do: choose the client address ([ClientIP]), hide a traversal
      by encoding ([Traversal]), act through a string literal of a rule ([RuleText]), pose
      as a page of the site ([Referers]), use a ticket twice or a revoked session
      ([AccessFacts]), leave a rule's quotes through a form ([RuleForm]), make the server
      call an inner address ([Outbound]), get a file from outside the directory
      ([StaticSite]) or an altered page delivered ([Tamper]), call the administration
      side without a session or key, or twice with one request ([ManageFacts]).
    - Bounds, round trips, errors: the prefixes of a range ([RangeCidr]), the cap of keys
      under races ([CCCounter]), ban keys, signed requests and lines of sshd read back
      ([CCRule], [RuleCheck], [AuthReq], [SshdLog]), a configuration is saved whole or not at all
      ([AccessConf]).

    Examples beside the theorems show where the code does not do what its comments say.

    ** Fuel and bounds

    Loops that are not structural run on fuel that is shown to be enough: [rangeToPrefixes]
    (at most 62 or 254 prefixes), [globMatch] (pattern length times text length),
    [fold_dots] of [Traversal] (each turn shortens the text).  The decoding depth of ten
    in [Traversal] and the 64 hops of [ClientIP] are constants of the code.

    ** Not modelled

    - Input and output: the HTTP server and reverse proxy (proxying, block pages, web
      cache bodies, compression), databases and migrations ([src/wafdb] and the CRUD
      services), log writing and export, certificates and ACME, DNS look-ups of bots, the
      commands of the operating-system firewall and the sources of login events, supervisor, update, notifications, the AI runtime, the
      handlers of [src/api] beyond signing in, accounts and the services named above,
      the encrypted bodies and the call log of [src/middleware], the front end.
    - Third-party engines behind the detections: libinjection (SQL and XSS), Coraza
      (OWASP), grule (rule evaluation, a parameter of [RuleCheck]), the bot data.  In
      [Serve] these checks are arguments.
    - Concurrency: an operation under a lock is one step; lock-free publication is
      modelled as a value behind a pointer; the one race that matters for a bound
      ([reserveKey] of [CCCounter]) is modelled by interleavings. *)
From Stdlib Require Export Ascii.
From Stdlib Require Export Lia.
From stdpp Require Export base gmap strings list numbers sets fin_maps sorting.

(** ** Results of fallible code

    A Go function that returns [(T, error)] is a function into [result E T]:
    [Ok v] is the pair [(v, nil)], [Err e] is [(_, e)] with [e] non-nil. *)
Inductive result (E A : Type) : Type :=
| Ok (v : A)
| Err (e : E).
Arguments Ok {E A} v.
Arguments Err {E A} e.

Declare Scope samwaf_scope.
Delimit Scope samwaf_scope with samwaf.

Notation "'let?' x ':=' c1 'in' c2" :=
  (match c1 with Ok x => c2 | Err err => Err err end)
  (at level 10, x pattern, c1 at level 100, c2 at level 200)
  : samwaf_scope.
Notation "'guard' b 'else' e ';;' c" :=
  (if b then c else Err e)
  (at level 10, b at level 100, e at level 100, c at level 200)
  : samwaf_scope.

Definition is_ok {E A} (r : result E A) : bool :=
  match r with Ok _ => true | Err _ => false end.

Definition ok_opt {E A} (r : result E A) : option A :=
  match r with Ok v => Some v | Err _ => None end.

#[export] Instance result_eq_dec {E A} `{EqDecision E, EqDecision A} :
  EqDecision (result E A).
Proof. solve_decision. Defined.

(** ** Automation *)

Create HintDb samwaf discriminated.

(** Turn the boolean tests of the code into the propositions they decide. *)
Ltac prop_of_bool :=
  repeat match goal with
  | H : andb _ _ = true |- _ => apply andb_true_iff in H as [? ?]
  | H : orb _ _ = false |- _ => apply orb_false_iff in H as [? ?]
  | H : negb _ = true |- _ => apply negb_true_iff in H
  | H : negb _ = false |- _ => apply negb_false_iff in H
  | H : bool_decide _ = true |- _ => apply bool_decide_eq_true in H
  | H : bool_decide _ = false |- _ => apply bool_decide_eq_false in H
  | H : Z.eqb _ _ = true |- _ => apply Z.eqb_eq in H
  | H : Z.eqb _ _ = false |- _ => apply Z.eqb_neq in H
  | H : Z.leb _ _ = true |- _ => apply Z.leb_le in H
  | H : Z.leb _ _ = false |- _ => apply Z.leb_gt in H
  | H : Z.ltb _ _ = true |- _ => apply Z.ltb_lt in H
  | H : Z.ltb _ _ = false |- _ => apply Z.ltb_ge in H
  | H : Nat.eqb _ _ = true |- _ => apply Nat.eqb_eq in H
  | H : Nat.eqb _ _ = false |- _ => apply Nat.eqb_neq in H
  | H : Nat.leb _ _ = true |- _ => apply Nat.leb_le in H
  | H : Nat.leb _ _ = false |- _ => apply Nat.leb_gt in H
  | H : Nat.ltb _ _ = true |- _ => apply Nat.ltb_lt in H
  | H : Nat.ltb _ _ = false |- _ => apply Nat.ltb_ge in H
  | H : Ascii.eqb _ _ = true |- _ => apply Ascii.eqb_eq in H
  | H : Ascii.eqb _ _ = false |- _ => apply Ascii.eqb_neq in H
  end.

(** Case-split on the first test or scrutinee of the goal, as the code does. *)
Ltac step_if :=
  match goal with
  | |- context [if ?b then _ else _] => destruct b eqn:?
  | |- context [match ?x with _ => _ end] => destruct x eqn:?
  end.

Ltac step_if_in H :=
  match type of H with
  | context [if ?b then _ else _] => destruct b eqn:?
  | context [match ?x with _ => _ end] => destruct x eqn:?
  end.

(** ** Lists *)

(** Number of elements of a list that pass a boolean test. *)
Definition count_if {A} (f : A → bool) (l : list A) : nat := length (List.filter f l).

Lemma count_if_app {A} (f : A → bool) (l k : list A) :
  count_if f (l ++ k) = (count_if f l + count_if f k)%nat.
Proof. unfold count_if. by rewrite List.filter_app, length_app. Qed.

Lemma count_if_cons {A} (f : A → bool) (x : A) (l : list A) :
  count_if f (x :: l) = ((if f x then 1 else 0) + count_if f l)%nat.
Proof. unfold count_if. simpl. by destruct (f x). Qed.

Lemma count_if_ext {A} (f g : A → bool) (l : list A) :
  (∀ x, x ∈ l → f x = g x) → count_if f l = count_if g l.
Proof.
  intros H. induction l as [|x l IH]; [done|].
  rewrite !count_if_cons, IH by set_solver. rewrite H by set_solver. done.
Qed.

Lemma count_if_le {A} (f g : A → bool) (l : list A) :
  (∀ x, x ∈ l → f x = true → g x = true) → (count_if f l ≤ count_if g l)%nat.
Proof.
  intros H. induction l as [|x l IH]; [done|].
  rewrite !count_if_cons. specialize (IH ltac:(set_solver)).
  destruct (f x) eqn:Hf; [rewrite (H x) by set_solver|]; destruct (g x); lia.
Qed.

Lemma count_if_false {A} (f : A → bool) (l : list A) :
  (∀ x, x ∈ l → f x = false) → count_if f l = 0%nat.
Proof.
  intros H. induction l as [|x l IH]; [done|].
  rewrite count_if_cons, H by set_solver. apply IH. set_solver.
Qed.

Lemma count_if_filter {A} (f g : A → bool) (l : list A) :
  count_if f (List.filter g l) = count_if (λ x, g x && f x) l.
Proof.
  induction l as [|x l IH]; [done|].
  simpl. rewrite count_if_cons. destruct (g x); simpl; rewrite ?count_if_cons, IH; lia.
Qed.

Lemma count_if_length {A} (f : A → bool) (l : list A) : (count_if f l ≤ length l)%nat.
Proof. unfold count_if. apply List.filter_length_le. Qed.

Lemma count_if_map {A B} (f : B → bool) (g : A → B) (l : list A) :
  count_if f (map g l) = count_if (λ x, f (g x)) l.
Proof. induction l as [|x l IH]; [done|]. simpl. by rewrite !count_if_cons, IH. Qed.

(** [existsb] as a membership statement over stdpp's [∈]. *)
Lemma existsb_elem_of {A} (f : A → bool) (l : list A) :
  existsb f l = true ↔ ∃ x, x ∈ l ∧ f x = true.
Proof. rewrite existsb_exists. by setoid_rewrite list_elem_of_In. Qed.

Lemma existsb_snoc {A} (f : A → bool) (l : list A) (x : A) :
  existsb f (l ++ [x]) = existsb f l || f x.
Proof. rewrite existsb_app. simpl. by rewrite orb_false_r. Qed.

Lemma forallb_elem_of {A} (f : A → bool) (l : list A) :
  forallb f l = true ↔ ∀ x, x ∈ l → f x = true.
Proof. rewrite forallb_forall. by setoid_rewrite list_elem_of_In. Qed.

Lemma forallb_weaken {A} (f g : A → bool) (l : list A) :
  (∀ x, f x = true → g x = true) → forallb f l = true → forallb g l = true.
Proof. intros Hfg. rewrite !forallb_elem_of. eauto. Qed.
Lemma forallb_ext_elem {A} (f g : A → bool) (l : list A) :
  (∀ x, x ∈ l → f x = g x) → forallb f l = forallb g l.
Proof. intros H. induction l as [|x l IH]; [done|]. simpl. rewrite H, IH by set_solver. done. Qed.

(** Integer sum of a list. *)
Definition zsum (l : list Z) : Z := foldr Z.add 0%Z l.

Lemma zsum_app (l k : list Z) : zsum (l ++ k) = (zsum l + zsum k)%Z.
Proof. induction l as [|x l IH]; simpl; [done|]. rewrite IH. lia. Qed.

Lemma zsum_nonneg (l : list Z) : Forall (λ x, 0 ≤ x)%Z l → (0 ≤ zsum l)%Z.
Proof. induction 1; simpl; lia. Qed.

#[export] Hint Resolve zsum_nonneg count_if_length : samwaf.

Lemma count_if_perm {A} (f : A → bool) (l k : list A) : l ≡ₚ k → count_if f l = count_if f k.
Proof.
  induction 1 as [|x l k _ IH|x y l|l k j _ IH1 _ IH2]; [done|..|by rewrite IH1].
  - by rewrite !count_if_cons, IH.
  - rewrite !count_if_cons. lia.
Qed.

Lemma zsum_perm (l k : list Z) : l ≡ₚ k → zsum l = zsum k.
Proof. unfold zsum. induction 1; simpl; lia. Qed.

(** ** Maps *)

(** The entries of a map, split by a test: what a sweep keeps and what it removes. *)
Lemma map_to_list_partition `{Countable K} {A} (P : K * A → Prop) `{∀ x, Decision (P x)} (m : gmap K A) :
  map_to_list m ≡ₚ map_to_list (filter P m) ++ map_to_list (filter (λ x, ¬ P x) m).
Proof.
  apply NoDup_Permutation.
  - apply NoDup_map_to_list.
  - apply NoDup_app. split; [apply NoDup_map_to_list|]. split; [|apply NoDup_map_to_list].
    intros [i x]. rewrite !elem_of_map_to_list, !map_lookup_filter_Some. naive_solver.
  - intros [i x]. rewrite elem_of_app, !elem_of_map_to_list, !map_lookup_filter_Some.
    destruct (decide (P (i, x))); naive_solver.
Qed.

(** ** Machine integers *)

Definition wrap (w x : Z) : Z := (x mod 2 ^ w)%Z.
Definition swrap (w x : Z) : Z :=
  (let y := x mod 2 ^ w in if y <? 2 ^ (w - 1) then y else y - 2 ^ w)%Z.

Lemma swrap_id (w x : Z) :
  (0 < w → - 2 ^ (w - 1) ≤ x < 2 ^ (w - 1) → swrap w x = x)%Z.
Proof.
  intros Hw Hx. unfold swrap.
  assert (H2 : (2 ^ w = 2 * 2 ^ (w - 1))%Z).
  { rewrite <- Z.pow_succ_r by lia. f_equal. lia. }
  destruct (Z.ltb_spec (x mod 2 ^ w) (2 ^ (w - 1)))%Z as [Hlt|Hge].
  - destruct (decide (0 ≤ x)%Z).
    + rewrite Z.mod_small in * by lia. done.
    + rewrite <- (Z.mod_add x 1) in * by lia.
      rewrite Z.mod_small in * by lia. lia.
  - destruct (decide (0 ≤ x)%Z).
    + rewrite Z.mod_small in * by lia. lia.
    + rewrite <- (Z.mod_add x 1) by lia.
      rewrite Z.mod_small by lia. lia.
Qed.
