(* ===== verification/GoLib.v ===== *)
(** * Go's standard library, as far as the modelled code uses it

    A Go string is a byte string: a list of [ascii] (bytes 0..255), so that
    [s[i]], [len(s)] and slices are the code's.  A [[]byte] holding an address is
    a list of [Z] in [0,256).  A [time.Time] is a [Z], in nanoseconds since the
    Unix epoch; a [time.Duration] is a [Z] in nanoseconds.

    Unicode: [strings.TrimSpace] is modelled on every string (the white space
    table below is Go's).  [strings.ToLower] is modelled byte by byte on ASCII
    strings, as Go's fast path does; on other strings it is the operation of the
    class [UnicodeCase]. *)
From S2P Require Import Prelude.
Local Open Scope Z_scope.
Local Open Scope bool_scope.

Abbreviation gostr := (list ascii).
Abbreviation bytes := (list Z).
Notation "$ s" := (String.list_ascii_of_string s%string) (at level 1, s at level 0, format "$ s").

Definition code (c : ascii) : Z := Z.of_N (N_of_ascii c).
Definition chr (z : Z) : ascii := ascii_of_N (Z.to_N z).

Lemma code_range c : 0 ≤ code c < 256.
Proof. unfold code. pose proof (N_ascii_bounded c). lia. Qed.

Lemma chr_code c : chr (code c) = c.
Proof. unfold chr, code. rewrite N2Z.id. apply ascii_N_embedding. Qed.

(** ** Package strings *)

Fixpoint has_prefix (s p : gostr) : bool :=
  match p, s with
  | [], _ => true
  | a :: p', b :: s' => Ascii.eqb a b && has_prefix s' p'
  | _ :: _, [] => false
  end.

Definition has_suffix (s p : gostr) : bool := has_prefix (reverse s) (reverse p).

Fixpoint contains (s sub : gostr) : bool :=
  has_prefix s sub || match s with [] => false | _ :: s' => contains s' sub end.

(** [strings.Index]: position of the first occurrence. *)
Fixpoint index (s sub : gostr) : option nat :=
  if has_prefix s sub then Some 0%nat
  else match s with [] => None | _ :: s' => S <$> index s' sub end.

Fixpoint index_byte (s : gostr) (c : ascii) : option nat :=
  match s with
  | [] => None
  | a :: s' => if Ascii.eqb a c then Some 0%nat else S <$> index_byte s' c
  end.

Fixpoint last_index_byte (s : gostr) (c : ascii) : option nat :=
  match s with
  | [] => None
  | a :: s' =>
      match last_index_byte s' c with
      | Some i => Some (S i)
      | None => if Ascii.eqb a c then Some 0%nat else None
      end
  end.

Definition count_byte (s : gostr) (c : ascii) : nat := count_if (Ascii.eqb c) s.

(** [strings.ContainsAny]. *)
Definition contains_any (s chars : gostr) : bool :=
  existsb (λ c, existsb (Ascii.eqb c) chars) s.

(** [strings.Split(s, c)] for a one-byte separator: never empty. *)
Fixpoint split (s : gostr) (c : ascii) : list gostr :=
  match s with
  | [] => [[]]
  | a :: s' =>
      if Ascii.eqb a c then [] :: split s' c
      else match split s' c with
           | seg :: rest => (a :: seg) :: rest
           | [] => [[a]]
           end
  end.

(** [strings.SplitN(s, c, 2)], as the pair of the parts when [c] occurs. *)
Definition cut_at (s : gostr) (c : ascii) : option (gostr * gostr) :=
  match index_byte s c with
  | Some i => Some (take i s, drop (S i) s)
  | None => None
  end.

(** [strings.Join(l, sep)]. *)
Fixpoint join (l : list gostr) (sep : gostr) : gostr :=
  match l with
  | [] => []
  | [s] => s
  | s :: rest => s ++ sep ++ join rest sep
  end.

Definition trim_left_with (f : ascii → bool) : gostr → gostr :=
  fix go s := match s with
              | [] => []
              | a :: s' => if f a then go s' else s
              end.
Definition trim_right_with (f : ascii → bool) (s : gostr) : gostr :=
  reverse (trim_left_with f (reverse s)).
(** [strings.TrimRight(s, c)] for a one-byte cutset. *)
Definition trim_right (s : gostr) (c : ascii) : gostr := trim_right_with (Ascii.eqb c) s.
Definition trim_suffix (s p : gostr) : gostr :=
  if has_suffix s p then take (length s - length p) s else s.
Definition trim_prefix (s p : gostr) : gostr :=
  if has_prefix s p then drop (length p) s else s.

(** The UTF-8 encodings of the runes [unicode.IsSpace] accepts. *)
Definition space_encodings : list gostr :=
  map (map chr)
    [[9]; [10]; [11]; [12]; [13]; [32]; [194;133]; [194;160]; [225;154;128];
     [226;128;128]; [226;128;129]; [226;128;130]; [226;128;131]; [226;128;132];
     [226;128;133]; [226;128;134]; [226;128;135]; [226;128;136]; [226;128;137];
     [226;128;138]; [226;128;168]; [226;128;169]; [226;128;175]; [226;129;159];
     [227;128;128]].

Definition first_space (encs : list gostr) (s : gostr) : option nat :=
  match List.find (has_prefix s) encs with
  | Some e => Some (length e)
  | None => None
  end.

Fixpoint trim_space_left (encs : list gostr) (fuel : nat) (s : gostr) : gostr :=
  match fuel with
  | O => s
  | S fuel' =>
      match first_space encs s with
      | Some n => trim_space_left encs fuel' (drop n s)
      | None => s
      end
  end.

(** [strings.TrimSpace].  A rune of the table is a valid encoding, so reading it
    backwards from the end is matching its reversed encoding. *)
Definition trim_space (s : gostr) : gostr :=
  let l := trim_space_left space_encodings (length s) s in
  reverse (trim_space_left (map reverse space_encodings) (length l) (reverse l)).

Definition is_ascii_byte (c : ascii) : bool := code c <? 128.
Definition lower_byte (c : ascii) : ascii :=
  if (65 <=? code c) && (code c <=? 90) then chr (code c + 32) else c.

(** The case mapping of strings that are not ASCII ([unicode.ToLower]'s tables). *)
Class UnicodeCase := { unicode_to_lower : gostr → gostr }.

Definition to_lower `{UnicodeCase} (s : gostr) : gostr :=
  if forallb is_ascii_byte s then map lower_byte s else unicode_to_lower s.

(** [strings.NewReplacer(old1, new1, ...).Replace(s)]: at each position the first
    old string that matches is replaced; no old string is empty. *)
Fixpoint replacer (pairs : list (gostr * gostr)) (fuel : nat) (s : gostr) : gostr :=
  match fuel with
  | O => s
  | S fuel' =>
      match s with
      | [] => []
      | a :: s' =>
          match List.find (λ p, has_prefix s p.1) pairs with
          | Some (old, new) => new ++ replacer pairs fuel' (drop (length old) s)
          | None => a :: replacer pairs fuel' s'
          end
      end
  end.
Definition replace_all (pairs : list (gostr * gostr)) (s : gostr) : gostr :=
  replacer pairs (length s) s.

(** [strings.FieldsFunc]: maximal runs of bytes that are not separators. *)
Definition fields_func (sep : ascii → bool) (s : gostr) : list gostr :=
  let fix go (s acc : gostr) : list gostr :=
    match s with
    | [] => match acc with [] => [] | _ => [reverse acc] end
    | a :: s' =>
        if sep a then match acc with [] => go s' [] | _ => reverse acc :: go s' [] end
        else go s' (a :: acc)
    end in
  go s [].

(** ** Package strconv *)

Definition digit_val (c : ascii) : Z :=
  let z := code c in
  if (48 <=? z) && (z <=? 57) then z - 48
  else if (97 <=? z) && (z <=? 122) then z - 97 + 10
  else if (65 <=? z) && (z <=? 90) then z - 65 + 10
  else 255.

Fixpoint digits_val (base : Z) (acc : Z) (s : gostr) : option Z :=
  match s with
  | [] => Some acc
  | c :: s' => if digit_val c <? base then digits_val base (acc * base + digit_val c) s' else None
  end.

(** [strconv.ParseUint(s, base, bits)] for an explicit base. *)
Definition parse_uint (s : gostr) (base bits : Z) : option Z :=
  match s with
  | [] => None
  | _ => match digits_val base 0 s with
         | Some v => if v <? 2 ^ bits then Some v else None
         | None => None
         end
  end.

(** [strconv.ParseInt(s, 10, 64)] and [strconv.Atoi(s)]. *)
Definition parse_int (s : gostr) : option Z :=
  match s with
  | [] => None
  | c :: rest =>
      let body := if Ascii.eqb c "-"%char || Ascii.eqb c "+"%char then rest else s in
      match body with
      | [] => None
      | _ =>
          match digits_val 10 0 body with
          | Some v =>
              if Ascii.eqb c "-"%char then (if v <=? 2 ^ 63 then Some (- v) else None)
              else if v <? 2 ^ 63 then Some v else None
          | None => None
          end
      end
  end.

Definition digit_char (d : Z) : ascii := if d <? 10 then chr (48 + d) else chr (87 + d).
Fixpoint format_digits (base : Z) (fuel : nat) (n : Z) (acc : gostr) : gostr :=
  match fuel with
  | O => acc
  | S fuel' =>
      let acc' := digit_char (n mod base) :: acc in
      if n <? base then acc' else format_digits base fuel' (n / base) acc'
  end.
(** [strconv.FormatUint] of a 64-bit value. *)
Definition format_uint (n base : Z) : gostr := format_digits base 64 n [].
(** [strconv.Itoa]. *)
Definition itoa (n : Z) : gostr :=
  if n <? 0 then "-"%char :: format_uint (- n) 10 else format_uint n 10.

(** ** Package sort *)

(** [sort.Search(n, f)]: the code's bisection; [fuel] bounds the halvings. *)
Fixpoint search_loop (f : nat → bool) (fuel i j : nat) : nat :=
  match fuel with
  | O => i
  | S fuel' =>
      if (i <? j)%nat then
        let h := ((i + j) / 2)%nat in
        if f h then search_loop f fuel' i h else search_loop f fuel' (S h) j
      else i
  end.
Definition sort_search (n : nat) (f : nat → bool) : nat := search_loop f n 0 n.

(** ** Package hash *)

(** FNV-1a. *)
Definition fnv1a (offset prime w : Z) (s : gostr) : Z :=
  foldl (λ h c, wrap w (Z.lxor h (code c) * prime)) offset s.
Definition fnv64a : gostr → Z := fnv1a 14695981039346656037 1099511628211 64.
Definition fnv32a : gostr → Z := fnv1a 2166136261 16777619 32.

(** [crc32.ChecksumIEEE] *)
Definition crc32_bit (r : Z) : Z :=
  if Z.odd r then Z.lxor (Z.shiftr r 1) 3988292384 else Z.shiftr r 1.
Definition crc32_byte (r : Z) (c : ascii) : Z :=
  Nat.iter 8 crc32_bit (Z.lxor r (code c)).
Definition crc32_ieee (s : gostr) : Z :=
  Z.lxor (foldl crc32_byte 4294967295 s) 4294967295.

(** ** Package time *)

Definition second : Z := 1000000000.
Definition minute : Z := 60 * second.
Definition hour : Z := 60 * minute.
(** [t.Unix()] and [t.UnixMilli()] of a time in nanoseconds. *)
Definition unix (t : Z) : Z := t / second.
Definition unix_milli (t : Z) : Z := t / 1000000.

(** ** Package bytes *)

(** [bytes.Compare] *)
Fixpoint bytes_compare (a b : bytes) : comparison :=
  match a, b with
  | [], [] => Eq
  | [], _ :: _ => Lt
  | _ :: _, [] => Gt
  | x :: a', y :: b' =>
      match Z.compare x y with Eq => bytes_compare a' b' | c => c end
  end.
Definition bytes_equal (a b : bytes) : bool := bool_decide (a = b).

(** ** Package net *)

Definition v4_in_v6_prefix : bytes := [0;0;0;0;0;0;0;0;0;0;255;255].

(** [IP.To4] and [IP.To16]; [None] is the nil slice. *)
Definition ip_to4 (ip : bytes) : option bytes :=
  if (length ip =? 4)%nat then Some ip
  else if (length ip =? 16)%nat && bytes_equal (take 12 ip) v4_in_v6_prefix
  then Some (drop 12 ip)
  else None.
Definition ip_to16 (ip : bytes) : option bytes :=
  if (length ip =? 4)%nat then Some (v4_in_v6_prefix ++ ip)
  else if (length ip =? 16)%nat then Some ip
  else None.

(** [netip.parseIPv4Fields]: the state of the loop is the value and the number of
    digits of the current octet, the octets already read (reversed), and whether
    the previous byte was a dot. *)
Fixpoint parse_v4_fields (s : gostr) (val : Z) (diglen : nat) (prevdot first : bool)
    (fields : list Z) : option bytes :=
  match s with
  | [] => if (length fields =? 3)%nat then Some (reverse (val :: fields)) else None
  | c :: s' =>
      if (48 <=? code c) && (code c <=? 57) then
        if (diglen =? 1)%nat && (val =? 0) then None
        else
          let val' := val * 10 + (code c - 48) in
          if 255 <? val' then None
          else parse_v4_fields s' val' (S diglen) false false fields
      else if Ascii.eqb c "."%char then
        if first || (match s' with [] => true | _ => false end) || prevdot then None
        else if (length fields =? 3)%nat then None
        else parse_v4_fields s' 0 0 true false (val :: fields)
      else None
  end.
Definition parse_ipv4 (s : gostr) : option bytes := parse_v4_fields s 0 0 false true [].

Definition is_hex (c : ascii) : bool := digit_val c <? 16.

(** The hex group at the head of [s]: its value and length; [None] when it has more
    than four digits (which also keeps it below 2^16). *)
Fixpoint hex_group (s : gostr) (off : nat) (acc : Z) : option (nat * Z) :=
  match s with
  | c :: s' =>
      if is_hex c then
        if (3 <? off)%nat then None else hex_group s' (S off) (acc * 16 + digit_val c)
      else Some (off, acc)
  | [] => Some (off, acc)
  end.

(** Put the zeros of the ellipsis in place. *)
Definition expand_ellipsis (ip : bytes) (ellipsis : option nat) : option bytes :=
  let i := length ip in
  if (i <? 16)%nat then
    match ellipsis with
    | None => None
    | Some e => Some (take e ip ++ replicate (16 - i) 0 ++ drop e ip)
    end
  else match ellipsis with Some _ => None | None => Some ip end.

(** The loop of [netip.parseIPv6], eight groups at most: [ip] holds the bytes
    already written. *)
Fixpoint parse_v6_loop (fuel : nat) (s : gostr) (ip : bytes) (ellipsis : option nat)
    : option bytes :=
  match fuel with
  | O => match s with [] => expand_ellipsis ip ellipsis | _ => None end
  | S fuel' =>
      match hex_group s 0 0 with
      | None => None
      | Some (O, _) => None
      | Some (off, acc) =>
          let rest := drop off s in
          if has_prefix rest $"." then
            let i := length ip in
            if (match ellipsis with None => negb (i =? 12)%nat | Some _ => false end) then None
            else if (16 <? i + 4)%nat then None
            else match parse_ipv4 s with
                 | None => None
                 | Some f => expand_ellipsis (ip ++ f) ellipsis
                 end
          else
            let ip' := ip ++ [acc / 256; acc mod 256] in
            match rest with
            | [] => expand_ellipsis ip' ellipsis
            | [_] => None
            | c :: d :: rest' =>
                if negb (Ascii.eqb c ":"%char) then None
                else if Ascii.eqb d ":"%char then
                  match ellipsis with
                  | Some _ => None
                  | None =>
                      match rest' with
                      | [] => expand_ellipsis ip' (Some (length ip'))
                      | _ => parse_v6_loop fuel' rest' ip' (Some (length ip'))
                      end
                  end
                else parse_v6_loop fuel' (d :: rest') ip' ellipsis
            end
      end
  end.

Definition parse_ipv6 (s : gostr) : option bytes :=
  if has_prefix s $"::" then
    match drop 2 s with
    | [] => Some (replicate 16 0)
    | s' => parse_v6_loop 8 s' [] (Some 0%nat)
    end
  else parse_v6_loop 8 s [] None.

Inductive addr := AddrV4 (b : bytes) | AddrV6 (b : bytes).

(** [netip.ParseAddr], for addresses without a zone: a '%' makes the callers fail
    (an IPv4 address has no zone, and [net] rejects a zone). *)
Fixpoint parse_addr_kind (s : gostr) : option ascii :=
  match s with
  | [] => None
  | c :: s' =>
      if Ascii.eqb c "."%char || Ascii.eqb c ":"%char then Some c
      else if Ascii.eqb c "%"%char then None else parse_addr_kind s'
  end.
Definition parse_addr (s : gostr) : option addr :=
  match parse_addr_kind s with
  | Some c => if Ascii.eqb c "."%char then AddrV4 <$> parse_ipv4 s else AddrV6 <$> parse_ipv6 s
  | None => None
  end.

Definition addr_as16 (a : addr) : bytes :=
  match a with AddrV4 b => v4_in_v6_prefix ++ b | AddrV6 b => b end.
Definition addr_bits (a : addr) : nat :=
  match a with AddrV4 _ => 32 | AddrV6 _ => 128 end.

(** [net.ParseIP]: 16 bytes, or nil. *)
Definition parse_ip (s : gostr) : option bytes := addr_as16 <$> parse_addr s.

(** [net.CIDRMask(ones, bits)] *)
Definition mask_byte (ones : nat) (i : nat) : Z :=
  let k := Z.of_nat ones - 8 * Z.of_nat i in
  if k <=? 0 then 0 else if 8 <=? k then 255 else 256 - 2 ^ (8 - k).
Definition cidr_mask (ones bits : nat) : bytes := map (mask_byte ones) (seq 0 (bits / 8)).

(** [IP.Mask] between slices of equal length. *)
Definition bytes_and (a m : bytes) : bytes := zip_with Z.land a m.

(** [net.ParseCIDR]: the network (masked address, mask), with the lengths Go gives
    them: 4 and 4 bytes for IPv4, 16 and 16 for IPv6. *)
Definition parse_cidr (s : gostr) : option (bytes * bytes) :=
  match cut_at s "/"%char with
  | None => None
  | Some (addr_s, mask_s) =>
      match parse_addr addr_s with
      | None => None
      | Some a =>
          match parse_uint mask_s 10 24 with
          | None => None
          | Some n =>
              if Z.of_nat (addr_bits a) <? n then None
              else
                let m := cidr_mask (Z.to_nat n) (addr_bits a) in
                let ip := match a with AddrV4 b => b | AddrV6 b => b end in
                Some (bytes_and ip m, m)
          end
      end
  end.

(** [IPMask.Size]: (ones, bits), (0, 0) when the mask is not canonical. *)
Definition byte_ones (b : Z) : option nat :=
  List.find (λ k, mask_byte k 0 =? b) (seq 0 9).
Fixpoint simple_mask_length (m : bytes) (n : nat) : option nat :=
  match m with
  | [] => Some n
  | v :: m' =>
      if v =? 255 then simple_mask_length m' (n + 8)
      else match byte_ones v with
           | Some k => if forallb (Z.eqb 0) m' then Some (n + k)%nat else None
           | None => None
           end
  end.
Definition mask_size (m : bytes) : nat * nat :=
  match simple_mask_length m 0 with
  | Some ones => (ones, 8 * length m)%nat
  | None => (0, 0)%nat
  end.

(** [IPNet.Contains]: both sides shortened to 4 bytes when they are IPv4. *)
Definition ipnet_contains (net : bytes * bytes) (ip : bytes) : bool :=
  let '(nn, m) := match ip_to4 net.1 with
                  | Some n4 => (n4, if (length net.2 =? 16)%nat then drop 12 net.2 else net.2)
                  | None => net
                  end in
  let x := default ip (ip_to4 ip) in
  (length x =? length nn)%nat && bytes_equal (bytes_and nn m) (bytes_and x m).

Example parse_ip_v4 : parse_ip $"10.0.0.1" = Some [0;0;0;0;0;0;0;0;0;0;255;255;10;0;0;1].
Proof. vm_compute. reflexivity. Qed.
Example parse_ip_v6 : parse_ip $"2001:db8::7:8" = Some [32;1;13;184;0;0;0;0;0;0;0;0;0;7;0;8].
Proof. vm_compute. reflexivity. Qed.
Example parse_ip_mapped :
  parse_ip $"::ffff:1.2.3.4" = Some [0;0;0;0;0;0;0;0;0;0;255;255;1;2;3;4].
Proof. vm_compute. reflexivity. Qed.
Example parse_ip_bad : map parse_ip [$"1.2.3"; $"01.2.3.4"; $"1.2.3.256"; $"::1::"; $"fe80::1%eth0"; $""]
  = [None; None; None; None; None; None].
Proof. vm_compute. reflexivity. Qed.
Example parse_cidr_ex : parse_cidr $"10.1.2.3/20" = Some ([10;1;0;0], [255;255;240;0]).
Proof. vm_compute. reflexivity. Qed.
Example crc_ex : crc32_ieee $"123456789" = 3421780262.
Proof. vm_compute. reflexivity. Qed.
Example fnv_ex : (fnv32a $"a", fnv64a $"a") = (3826002220, 12638187200555641996).
Proof. vm_compute. reflexivity. Qed.
Example trim_ex : trim_space $"  ab c	 " = $"ab c".
Proof. vm_compute. reflexivity. Qed.

(** ** [sort.Search] finds the boundary of a monotone test *)

Lemma search_loop_spec f n fuel i j :
  (i ≤ j ≤ n)%nat → (j - i ≤ fuel)%nat →
  (∀ a b, (a ≤ b < n)%nat → f a = true → f b = true) →
  (∀ k, (k < i)%nat → f k = false) → (∀ k, (j ≤ k < n)%nat → f k = true) →
  let r := search_loop f fuel i j in
  (r ≤ n)%nat ∧ (∀ k, (k < r)%nat → f k = false) ∧ (∀ k, (r ≤ k < n)%nat → f k = true).
Proof.
  revert i j. induction fuel as [|fuel IH]; intros i j Hij Hfuel Hmono Hlo Hhi; cbn [search_loop].
  { split; [lia|]. split; [done|]. intros k Hk. apply Hhi. lia. }
  case_match; prop_of_bool; [|split; [lia|split; [done|intros k Hk; apply Hhi; lia]]].
  assert (Hh : (i ≤ (i + j) / 2 < j)%nat).
  { split; [apply Nat.div_le_lower_bound; lia|apply Nat.div_lt_upper_bound; lia]. }
  destruct (f ((i + j) / 2)%nat) eqn:Ef.
  - apply IH; try done; try lia. intros k Hk. apply (Hmono ((i + j) / 2)%nat); [lia|done].
  - apply IH; try done; try lia. intros k Hk. destruct (f k) eqn:Ek; [|done].
    rewrite (Hmono k ((i + j) / 2)%nat) in Ef by (done || lia). done.
Qed.

Lemma sort_search_spec f n :
  (∀ a b, (a ≤ b < n)%nat → f a = true → f b = true) →
  (sort_search n f ≤ n)%nat ∧ (∀ k, (k < sort_search n f)%nat → f k = false) ∧
  (∀ k, (sort_search n f ≤ k < n)%nat → f k = true).
Proof. intros Hmono. apply search_loop_spec; try done; lia. Qed.

(** ** [strings.TrimSpace] is idempotent *)

Definition no_space (encs : list gostr) (s : gostr) : Prop := first_space encs s = None.

Lemma has_prefix_nil_r (p : gostr) : has_prefix [] p = true → p = [].
Proof. by destruct p. Qed.

Lemma trim_space_left_done encs fuel s :
  forallb (λ e, (0 <? length e)%nat) encs = true → (length s ≤ fuel)%nat →
  no_space encs (trim_space_left encs fuel s).
Proof.
  intros Henc. revert s. induction fuel as [|fuel IH]; intros s Hl; cbn [trim_space_left].
  - destruct s; [|cbn in Hl; lia]. unfold no_space, first_space.
    destruct (List.find (has_prefix []) encs) as [e|] eqn:E; [|done].
    apply find_some in E as [Hin Hp]. apply has_prefix_nil_r in Hp. subst.
    rewrite forallb_forall in Henc. by apply Henc in Hin.
  - destruct (first_space encs s) as [n|] eqn:E; [|done]. apply IH. rewrite length_drop.
    unfold first_space in E. destruct (List.find _ encs) as [e|] eqn:Ef; [|done]. injection E as <-.
    apply find_some in Ef as [Hin Hp]. rewrite forallb_forall in Henc. apply Henc in Hin. prop_of_bool.
    destruct s; [apply has_prefix_nil_r in Hp; subst; cbn in *; lia|]. cbn [length] in *. lia.
Qed.

Lemma trim_space_left_id encs fuel s : no_space encs s → trim_space_left encs fuel s = s.
Proof. intros H. destruct fuel; [done|]. cbn. unfold no_space in H. by rewrite H. Qed.

Lemma has_prefix_split s p : has_prefix s p = true ↔ ∃ r, s = p ++ r.
Proof.
  revert s. induction p as [|x p IH]; intros s; [cbn; destruct s; naive_solver|].
  destruct s as [|y s]; cbn; [split; [done|by intros [r ?]]|].
  rewrite andb_true_iff, Ascii.eqb_eq, IH. split.
  - intros [-> [r ->]]. by exists r.
  - intros [r [= -> ->]]. split; [done|by exists r].
Qed.

(** Trimming on the left leaves a suffix. *)
Lemma trim_space_left_suffix encs fuel s : ∃ p, s = p ++ trim_space_left encs fuel s.
Proof.
  revert s. induction fuel as [|fuel IH]; intros s; cbn [trim_space_left]; [by exists []|].
  destruct (first_space encs s) as [n|]; [|by exists []].
  destruct (IH (drop n s)) as [p Hp]. exists (take n s ++ p). rewrite <- app_assoc, <- Hp. by rewrite take_drop.
Qed.

Lemma no_space_prefix encs s r : no_space encs (s ++ r) → no_space encs s.
Proof.
  unfold no_space, first_space. destruct (List.find (has_prefix s) encs) as [e|] eqn:E; [|done].
  apply find_some in E as [Hin Hp]. intros H.
  destruct (List.find (has_prefix (s ++ r)) encs) eqn:E2; [done|].
  apply (find_none _ _ E2) in Hin. apply has_prefix_split in Hp as [q ->].
  rewrite <- app_assoc in Hin. assert (Ht : has_prefix (e ++ q ++ r) e = true) by (apply has_prefix_split; by eexists).
  congruence.
Qed.

Lemma trim_space_idem s : trim_space (trim_space s) = trim_space s.
Proof.
  unfold trim_space. set (l := trim_space_left space_encodings (length s) s).
  assert (Hl : no_space space_encodings l) by (apply trim_space_left_done; [by vm_compute|done]).
  set (t := trim_space_left (map reverse space_encodings) (length l) (reverse l)).
  assert (Ht : no_space (map reverse space_encodings) t).
  { apply trim_space_left_done; [by vm_compute|]. by rewrite length_reverse. }
  destruct (trim_space_left_suffix (map reverse space_encodings) (length l) (reverse l)) as [p Hp]. fold t in Hp.
  assert (Hlt : l = reverse t ++ reverse p) by (rewrite <- reverse_app, <- Hp; by rewrite reverse_involutive).
  rewrite (trim_space_left_id space_encodings) by (rewrite Hlt in Hl; by eapply no_space_prefix).
  rewrite reverse_involutive, trim_space_left_id by done. done.
Qed.

(** Bytes above the space and below 128 are never trimmed. *)
Definition visible (c : ascii) : bool := (32 <? code c) && (code c <? 128).

Lemma first_space_visible encs s :
  forallb (λ e, match e with c :: _ => negb (visible c) | [] => false end) encs = true →
  forallb visible s = true → first_space encs s = None.
Proof.
  intros Henc Hs. unfold first_space. destruct (List.find (has_prefix s) encs) as [e|] eqn:E; [|done].
  apply find_some in E as [Hin Hp]. rewrite forallb_forall in Henc. specialize (Henc e Hin).
  destruct e as [|c e]; [done|]. destruct s as [|d s]; [done|]. cbn in Hp, Hs. prop_of_bool.
  destruct (Ascii.eqb_spec c d); [subst|done]. by destruct (visible d).
Qed.

Lemma trim_space_visible s : forallb visible s = true → trim_space s = s.
Proof.
  intros Hs. unfold trim_space.
  rewrite (trim_space_left_id space_encodings) by (apply first_space_visible; [by vm_compute|done]).
  rewrite (trim_space_left_id (map reverse space_encodings)), reverse_involutive; [done|]. apply first_space_visible; [by vm_compute|].
  rewrite forallb_forall in Hs. apply forallb_forall. intros c Hc.
  apply Hs. apply list_elem_of_In in Hc. apply list_elem_of_In. set_solver.
Qed.

(** ** The first and the last place of a byte *)

Lemma index_byte_first (s r : gostr) c : c ∉ s → index_byte (s ++ c :: r) c = Some (length s).
Proof.
  induction s as [|a s IH]; intros Hc; cbn [app index_byte length].
  - by rewrite Ascii.eqb_refl.
  - destruct (Ascii.eqb_spec a c) as [->|]; [set_solver|]. rewrite IH by set_solver. done.
Qed.

Lemma drop_after (a : gostr) c r : drop (S (length a)) (a ++ c :: r) = r.
Proof. by induction a as [|x a IH]. Qed.

Lemma index_byte_split (s : gostr) c i : index_byte s c = Some i → ∃ a r, s = a ++ c :: r ∧ length a = i ∧ c ∉ a.
Proof.
  revert i. induction s as [|x s IH]; intros i; cbn [index_byte]; [done|].
  destruct (Ascii.eqb_spec x c) as [->|Hx].
  - intros [= <-]. exists [], s. repeat split; set_solver.
  - destruct (index_byte s c) as [j|]; [|done]. intros [= <-]. destruct (IH j eq_refl) as (a & r & -> & <- & Ha).
    exists (x :: a), r. repeat split; set_solver.
Qed.

Lemma index_byte_none (s : gostr) c : index_byte s c = None ↔ c ∉ s.
Proof.
  induction s as [|x s IH]; cbn [index_byte]; [set_solver|]. destruct (Ascii.eqb_spec x c) as [->|]; [set_solver|].
  destruct (index_byte s c); cbn; set_solver.
Qed.


Lemma last_index_byte_app (a b : gostr) c : c ∉ b → last_index_byte (a ++ c :: b) c = Some (length a).
Proof.
  intros Hb. assert (Hn : last_index_byte b c = None).
  { induction b as [|d b IH]; [done|]. cbn. rewrite IH by set_solver. rewrite (proj2 (Ascii.eqb_neq d c)); [done|set_solver]. }
  induction a as [|d a IH]; cbn; [by rewrite Hn, Ascii.eqb_refl|]. by rewrite IH.
Qed.
