(* ===== verification/GoHttp.v ===== *)
(** * Go's net/http and path, as far as the modelled code uses them

    A request is what its accessors give: the parsed header, cookies and query. *)
From S2P Require Import Prelude.
From S2P Require Import GoLib.
Local Open Scope Z_scope.
Local Open Scope bool_scope.

(** ** Header names *)

Definition is_alpha_upper (c : ascii) : bool := (65 <=? code c) && (code c <=? 90).
Definition is_alpha_lower (c : ascii) : bool := (97 <=? code c) && (code c <=? 122).
Definition is_digit (c : ascii) : bool := (48 <=? code c) && (code c <=? 57).
Definition upper_byte (c : ascii) : ascii := if is_alpha_lower c then chr (code c - 32) else c.

(** The bytes of an HTTP token. *)
Definition is_token_byte (c : ascii) : bool :=
  is_alpha_upper c || is_alpha_lower c || is_digit c || existsb (Ascii.eqb c) $"!#$%&'*+-.^_`|~".

Fixpoint canonical_bytes (upper : bool) (s : gostr) : gostr :=
  match s with
  | [] => []
  | c :: s' => (if upper then upper_byte c else lower_byte c) :: canonical_bytes (Ascii.eqb c "-") s'
  end.

(** [textproto.CanonicalMIMEHeaderKey] *)
Definition canonical_key (s : gostr) : gostr :=
  if forallb is_token_byte s then canonical_bytes true s else s.

(** [strings.EqualFold(s, t)] for an ASCII [t]: the only runes outside ASCII that fold
    to ASCII letters are U+017F (long s) and U+212A (the kelvin sign). *)
Fixpoint fold_ascii (s : gostr) : gostr :=
  match s with
  | [] => []
  | c :: s' =>
      match s' with
      | d :: s'' =>
          if (code c =? 197) && (code d =? 191) then "s"%char :: fold_ascii s''
          else match s'' with
               | e :: s3 => if (code c =? 226) && (code d =? 132) && (code e =? 170)
                            then "k"%char :: fold_ascii s3 else lower_byte c :: fold_ascii s'
               | [] => lower_byte c :: fold_ascii s'
               end
      | [] => lower_byte c :: fold_ascii s'
      end
  end.
Definition equal_fold (s t : gostr) : bool := bool_decide (fold_ascii s = fold_ascii t).

(** ** Paths *)

(** [path.Ext]: from the last dot after the last slash. *)
Fixpoint ext_rev (rs acc : gostr) : gostr :=
  match rs with
  | [] => []
  | c :: rs' =>
      if Ascii.eqb c "/" then []
      else if Ascii.eqb c "." then c :: acc
      else ext_rev rs' (c :: acc)
  end.
Definition path_ext (p : gostr) : gostr := ext_rev (reverse p) [].

(** ** Requests *)

Record request := mkRequest {
  r_path : gostr;                             (* URL.Path *)
  r_raw_query : gostr;                        (* URL.RawQuery *)
  r_method : gostr;
  r_host : gostr;
  r_tls : bool;                               (* TLS != nil *)
  r_header : gmap gostr (list gostr);         (* Header, by canonical key *)
  r_cookies : list (gostr * gostr);           (* the parsed Cookie headers, in order *)
  r_query : gmap gostr (list gostr);          (* URL.Query() *)
}.

Definition header_values (r : request) (key : gostr) : list gostr :=
  default [] (r_header r !! canonical_key key).
Definition header_get (r : request) (key : gostr) : gostr := default [] (head (header_values r key)).
Definition query_get (r : request) (key : gostr) : gostr := default [] (r_query r !! key ≫= head).
(** [r.Cookie(name)]: the first cookie of that name; an empty name has none. *)
Definition cookie (r : request) (name : gostr) : option gostr :=
  if bool_decide (name = []) then None
  else snd <$> find (λ nv, bool_decide (nv.1 = name)) (r_cookies r).

Example canonical_ex : canonical_key $"x-samwaf-TOKEN" = $"X-Samwaf-Token". Proof. reflexivity. Qed.
Example ext_ex : path_ext $"/a.b/c.tar.gz" = $".gz". Proof. reflexivity. Qed.
Example fold_ex : equal_fold (chr 226 :: chr 132 :: chr 170 :: $"EY") $"Key" = true. Proof. reflexivity. Qed.
