(* ===== verification/GoUrl.v ===== *)
(** * Parts of Go's net/url, path and net/http (as of Go 1.25) used by the access gate

    [Parse] and [String_] of package url, [path.Clean], the reader of the Cookie headers
    and [http.Redirect]'s Location. *)
From S2P Require Import Prelude.
From S2P Require Import GoLib.
From S2P Require Import GoHttp.
Local Open Scope Z_scope.
Local Open Scope bool_scope.

(** ** Percent encoding *)

Inductive encoding := encodePath | encodeUserPassword | encodeHost | encodeZone | encodeQueryComponent | encodeFragment.
#[global] Instance encoding_eq_dec : EqDecision encoding.
Proof. solve_decision. Defined.

Definition one_of (c : ascii) (s : gostr) : bool := existsb (Ascii.eqb c) s.
Definition is_alnum (c : ascii) : bool := is_alpha_lower c || is_alpha_upper c || is_digit c.
Definition host_mode (mode : encoding) : bool := match mode with encodeHost | encodeZone => true | _ => false end.

Definition shouldEscape (c : ascii) (mode : encoding) : bool :=
  if is_alnum c then false
  else if host_mode mode && (one_of c $"!$&'()*+,;=:[]<>" || Ascii.eqb c (chr 34)) then false
  else if one_of c $"-_.~" then false
  else if one_of c $"$&+,/:;=?@" && negb (host_mode mode) then
    match mode with
    | encodePath => Ascii.eqb c "?"
    | encodeUserPassword => one_of c $"@/?:"
    | encodeFragment => false
    | _ => true
    end
  else if bool_decide (mode = encodeFragment) && one_of c $"!()*" then false
  else true.

Definition hex_upper (d : Z) : ascii := if d <? 10 then chr (48 + d) else chr (55 + d).
Definition percent (c : ascii) : gostr := ["%"%char; hex_upper (code c / 16); hex_upper (code c mod 16)].

Fixpoint escape (s : gostr) (mode : encoding) : gostr :=
  match s with
  | [] => []
  | c :: s' =>
      (if Ascii.eqb c " " && bool_decide (mode = encodeQueryComponent) then ["+"%char]
       else if shouldEscape c mode then percent c else [c]) ++ escape s' mode
  end.

Definition QueryEscape (s : gostr) : gostr := escape s encodeQueryComponent.

(** [None]: an [EscapeError] or an [InvalidHostError]. *)
Fixpoint unescape (s : gostr) (mode : encoding) : option gostr :=
  match s with
  | [] => Some []
  | c :: s' =>
      if Ascii.eqb c "%" then
        match s' with
        | a :: b :: rest =>
            if negb (is_hex a && is_hex b) then None
            else
              let v := 16 * digit_val a + digit_val b in
              if bool_decide (mode = encodeHost) && (digit_val a <? 8) && negb (v =? 37) then None
              else if bool_decide (mode = encodeZone) && negb (v =? 37) && negb (v =? 32) && shouldEscape (chr v) encodeHost then None
              else cons (chr v) <$> unescape rest mode
        | _ => None
        end
      else if Ascii.eqb c "+" && bool_decide (mode = encodeQueryComponent) then cons " "%char <$> unescape s' mode
      else if host_mode mode && is_ascii_byte c && shouldEscape c mode then None
      else cons c <$> unescape s' mode
  end.

Definition validEncoded (s : gostr) (mode : encoding) : bool :=
  forallb (λ c, one_of c $"!$&'()*+,;=:@[]%" || negb (shouldEscape c mode)) s.

(** ** URLs *)

Record URL := mkURL {
  Scheme : gostr; Opaque : gostr; User : option (gostr * option gostr); UHost : gostr;
  UPath : gostr; RawPath : gostr; OmitHost : bool; ForceQuery : bool; RawQuery : gostr; Fragment : gostr; RawFragment : gostr
}.

(** [strings.Cut] at a byte. *)
Definition cut (s : gostr) (c : ascii) : gostr * gostr := default (s, []) (cut_at s c).
Definition is_control (c : ascii) : bool := (code c <? 32) || (code c =? 127).

(** [getScheme]: [None] is the error. *)
Fixpoint scheme_end (s : gostr) (i : nat) : option (option nat) :=
  match s with
  | [] => Some None
  | c :: s' =>
      if is_alpha_lower c || is_alpha_upper c then scheme_end s' (S i)
      else if is_digit c || one_of c $"+-." then if (i =? 0)%nat then Some None else scheme_end s' (S i)
      else if Ascii.eqb c ":" then if (i =? 0)%nat then None else Some (Some i)
      else Some None
  end.
Definition getScheme (rawURL : gostr) : option (gostr * gostr) :=
  match scheme_end rawURL 0 with
  | None => None
  | Some None => Some ([], rawURL)
  | Some (Some i) => Some (take i rawURL, drop (S i) rawURL)
  end.

Definition validOptionalPort (port : gostr) : bool :=
  match port with
  | [] => true
  | c :: rest => Ascii.eqb c ":" && forallb is_digit rest
  end.

(** The literal between the brackets: a scoped IPv6 address, IPv4 excepted. *)
Definition parse_literal (hostname : gostr) : option gostr :=
  match index hostname $"%25" with
  | Some z => h ← unescape (take z hostname) encodeHost; zone ← unescape (drop z hostname) encodeZone; mret (h ++ zone)
  | None => unescape hostname encodeHost
  end.
(** [netip.ParseAddr] with an optional zone, and not [Is4]. *)
Definition is_addr6 (s : gostr) : bool :=
  let (address, has_zone) := match cut_at s "%" with
                             | Some (a, zone) => (a, negb (bool_decide (zone = [])))
                             | None => (s, true)
                             end in
  has_zone && match parse_addr address with Some (AddrV6 _) => true | _ => false end.

Definition parseHost (host : gostr) : option gostr :=
  match last_index_byte host "[" with
  | Some (S _) => None
  | Some O =>
      close ← last_index_byte host "]";
      let colonPort := drop (S close) host in
      if negb (validOptionalPort colonPort) then None
      else
        port ← unescape colonPort encodeHost;
        name ← parse_literal (take (close - 1) (drop 1 host));
        if is_addr6 name then Some ($"[" ++ name ++ $"]" ++ port) else None
  | None =>
      match last_index_byte host ":" with
      | Some i => if validOptionalPort (drop i host) then unescape host encodeHost else None
      | None => unescape host encodeHost
      end
  end.

Definition validUserinfo (s : gostr) : bool := forallb (λ c, is_alnum c || one_of c $"-._:~!$&'()*+,;=%@") s.

Definition parseAuthority (authority : gostr) : option (option (gostr * option gostr) * gostr) :=
  match last_index_byte authority "@" with
  | None => host ← parseHost authority; mret (None, host)
  | Some i =>
      host ← parseHost (drop (S i) authority);
      let userinfo := take i authority in
      if negb (validUserinfo userinfo) then None
      else
        match cut_at userinfo ":" with
        | None => u ← unescape userinfo encodeUserPassword; mret (Some (u, None), host)
        | Some (name, password) =>
            u ← unescape name encodeUserPassword; p ← unescape password encodeUserPassword; mret (Some (u, Some p), host)
        end
  end.

(** [setPath]: the decoded path, and the raw one when it is not the default encoding. *)
Definition setPath (p : gostr) : option (gostr * gostr) :=
  path ← unescape p encodePath;
  mret (path, if bool_decide (p = escape path encodePath) then [] else p).

Definition split_query (rest : gostr) : gostr * bool * gostr :=
  if has_suffix rest $"?" && (count_byte rest "?" =? 1)%nat then (take (length rest - 1) rest, true, [])
  else let (rest, q) := cut rest "?" in (rest, false, q).

(** [parse] of a reference (not of a request line). *)
Definition parse (rawURL : gostr) : option URL :=
  if existsb is_control rawURL then None
  else if bool_decide (rawURL = $"*") then Some (mkURL [] [] None [] $"*" [] false false [] [] [])
  else
    '(sch, rest) ← getScheme rawURL;
    let sch := map lower_byte sch in
    let '(rest, force, query) := split_query rest in
    if negb (has_prefix rest $"/") && negb (bool_decide (sch = [])) then
      Some (mkURL sch rest None [] [] [] false force query [] [])
    else if negb (has_prefix rest $"/") && contains (cut rest "/").1 $":" then None
    else if (negb (bool_decide (sch = [])) || negb (has_prefix rest $"///")) && has_prefix rest $"//" then
      let authority := drop 2 rest in
      let i := default (length authority) (index_byte authority "/") in
      '(user, host) ← parseAuthority (take i authority);
      '(path, raw) ← setPath (drop i authority);
      Some (mkURL sch [] user host path raw false force query [] [])
    else
      '(path, raw) ← setPath rest;
      Some (mkURL sch [] None [] path raw (negb (bool_decide (sch = [])) && has_prefix rest $"/") force query [] []).

Definition with_fragment (u : URL) (f raw : gostr) : URL :=
  mkURL (Scheme u) (Opaque u) (User u) (UHost u) (UPath u) (RawPath u) (OmitHost u) (ForceQuery u) (RawQuery u) f raw.

Definition Parse (rawURL : gostr) : option URL :=
  let (u, frag) := cut rawURL "#" in
  url ← parse u;
  if bool_decide (frag = []) then Some url
  else
    f ← unescape frag encodeFragment;
    Some (with_fragment url f (if bool_decide (frag = escape f encodeFragment) then [] else frag)).

Definition EscapedPath (u : URL) : gostr :=
  if negb (bool_decide (RawPath u = [])) && validEncoded (RawPath u) encodePath
     && bool_decide (unescape (RawPath u) encodePath = Some (UPath u))
  then RawPath u
  else if bool_decide (UPath u = $"*") then $"*" else escape (UPath u) encodePath.

Definition EscapedFragment (u : URL) : gostr :=
  if negb (bool_decide (RawFragment u = [])) && validEncoded (RawFragment u) encodeFragment
     && bool_decide (unescape (RawFragment u) encodeFragment = Some (Fragment u))
  then RawFragment u else escape (Fragment u) encodeFragment.

Definition user_string (user : option (gostr * option gostr)) : gostr :=
  match user with
  | None => []
  | Some (name, None) => escape name encodeUserPassword ++ $"@"
  | Some (name, Some password) => escape name encodeUserPassword ++ $":" ++ escape password encodeUserPassword ++ $"@"
  end.

Definition query_string (u : URL) : gostr :=
  if ForceQuery u || negb (bool_decide (RawQuery u = [])) then $"?" ++ RawQuery u else [].

Definition authority_string (u : URL) : gostr :=
  let no_user := bool_decide (User u = None) in
  if bool_decide (Scheme u = []) && bool_decide (UHost u = []) && no_user then []
  else if OmitHost u && bool_decide (UHost u = []) && no_user then []
  else
    (if negb (bool_decide (UHost u = [])) || negb (bool_decide (UPath u = [])) || negb no_user then $"//" else [])
    ++ user_string (User u) ++ escape (UHost u) encodeHost.

(** URL.String. *)
Definition String_ (u : URL) : gostr :=
  let head := match Scheme u with [] => [] | s => s ++ $":" end in
  let body :=
    match Opaque u with
    | [] =>
        let path := EscapedPath u in
        let auth := authority_string u in
        let slash := if negb (bool_decide (path = [])) && negb (has_prefix path $"/") && negb (bool_decide (UHost u = [])) then $"/" else [] in
        let dot := if bool_decide (head ++ auth ++ slash = []) && contains (cut path "/").1 $":" then $"./" else [] in
        auth ++ slash ++ dot ++ path
    | o => o
    end in
  head ++ body ++ query_string u ++ (if bool_decide (Fragment u = []) then [] else $"#" ++ EscapedFragment u).

(** URL.RequestURI. *)
Definition RequestURI (u : URL) : gostr :=
  match Opaque u with
  | [] => match EscapedPath u with [] => $"/" | p => p end ++ query_string u
  | o => (if has_prefix o $"//" then Scheme u ++ $":" ++ o else o) ++ query_string u
  end.

Example parse_ex : String_ <$> Parse $"HTTPS://OA.x:8443/a%2Fb?q=1#top" = Some $"https://OA.x:8443/a%2Fb?q=1#top". Proof. vm_compute. reflexivity. Qed.
Example parse_user : User <$> Parse $"https://good.com@evil.com/" = Some (Some ($"good.com", None)). Proof. vm_compute. reflexivity. Qed.
Example parse_relative : (λ u, (Scheme u, UHost u)) <$> Parse $"//evil.com/x" = Some ([], $"evil.com"). Proof. vm_compute. reflexivity. Qed.
Example parse_v6 : UHost <$> Parse $"http://[fe80::1%25en0]:80/" = Some $"[fe80::1%en0]:80". Proof. vm_compute. reflexivity. Qed.
Example parse_bad : (Parse $"http://a b/", Parse $"http://a/%zz", Parse $":x", Parse $"http://[1.2.3.4]/") = (None, None, None, None). Proof. vm_compute. reflexivity. Qed.

(** ** path.Clean *)

Definition clean_step (rooted : bool) (acc : list gostr) (elem : gostr) : list gostr :=
  if bool_decide (elem = []) || bool_decide (elem = $".") then acc
  else if bool_decide (elem = $"..") then
    match acc with
    | e :: acc' => if bool_decide (e = $"..") then if rooted then acc else $".." :: acc else acc'
    | [] => if rooted then [] else [$".."]
    end
  else elem :: acc.
(** The elements kept, the last one first. *)
Definition clean_elems (p : gostr) : list gostr := foldl (clean_step (has_prefix p $"/")) [] (split p "/").
Definition path_clean (p : gostr) : gostr :=
  if bool_decide (p = []) then $"."
  else
    let body := join (reverse (clean_elems p)) $"/" in
    if has_prefix p $"/" then $"/" ++ body else match body with [] => $"." | _ => body end.

Example clean_ex : path_clean $"/a/./b//../c/" = $"/a/c" ∧ path_clean $"a/../../b" = $"../b" ∧ path_clean $"/.." = $"/" ∧ path_clean $"a/.." = $".".
Proof. vm_compute. done. Qed.

(** ** Cookie headers (net/http readCookies) *)

(** [textproto.TrimString]: spaces, tabs and line ends. *)
Definition trim_string (s : gostr) : gostr :=
  let sp c := one_of c [" "%char; chr 9; chr 10; chr 13] in trim_right_with sp (trim_left_with sp s).
Definition validCookieValueByte (c : ascii) : bool :=
  (32 <=? code c) && (code c <? 127) && negb (one_of c [chr 34; ";"%char; "\"%char]).
Definition parseCookieValue (raw : gostr) : option gostr :=
  let raw := if (1 <? length raw)%nat && has_prefix raw [chr 34] && has_suffix raw [chr 34]
             then take (length raw - 2) (drop 1 raw) else raw in
  if forallb validCookieValueByte raw then Some raw else None.
Definition is_token (s : gostr) : bool := negb (bool_decide (s = [])) && forallb is_token_byte s.

Definition read_cookie (part : gostr) : list (gostr * gostr) :=
  let part := trim_string part in
  if bool_decide (part = []) then []
  else
    let (name, val) := cut part "=" in
    let name := trim_string name in
    if negb (is_token name) then []
    else match parseCookieValue val with Some v => [(name, v)] | None => [] end.

(** More than 3000 cookies are not read at all (the default limit of the library). *)
Definition readCookies (lines : list gostr) : list (gostr * gostr) :=
  if (3000 <? sum_list (map (λ l, S (count_byte l ";")) lines))%nat then []
  else flat_map (λ line, flat_map read_cookie (split (trim_string line) ";")) lines.

(** [r.Cookie(name)]. *)
Definition Cookie (lines : list gostr) (name : gostr) : option gostr :=
  if bool_decide (name = []) then None
  else snd <$> List.find (λ nv, bool_decide (nv.1 = name)) (readCookies lines).

Example cookies_ex : readCookies [$"a=1; b =2;;c"; $"d=x y"] = [($"a", $"1"); ($"b", $"2"); ($"c", []); ($"d", $"x y")].
Proof. vm_compute. reflexivity. Qed.

(** ** http.Redirect *)

Definition hexEscapeNonASCII (s : gostr) : gostr :=
  flat_map (λ c, if is_ascii_byte c then [c] else ["%"%char; digit_char (code c / 16); digit_char (code c mod 16)]) s.

(** The directory part of [path.Split]. *)
Definition path_dir (p : gostr) : gostr := match last_index_byte p "/" with Some i => take (S i) p | None => [] end.

(** The Location of [http.Redirect]; [oldpath] is the path of the request. *)
Definition Location (oldpath url : gostr) : gostr :=
  let relative := match Parse url with Some u => bool_decide (Scheme u = []) && bool_decide (UHost u = []) | None => false end in
  hexEscapeNonASCII (
    if relative then
      let oldpath := match oldpath with [] => $"/" | _ => oldpath end in
      let url := if has_prefix url $"/" then url else path_dir oldpath ++ url in
      let i := default (length url) (index_byte url "?") in
      let query := drop i url in
      let url := take i url in
      let cleaned := path_clean url in
      cleaned ++ (if has_suffix url $"/" && negb (has_suffix cleaned $"/") then $"/" else []) ++ query
    else url).

Example location_ex : Location $"/a/b" $"/login?rq=x/../y" = $"/login?rq=x/../y" ∧ Location $"/a/b" $"https://x/" = $"https://x/".
Proof. vm_compute. done. Qed.
