(* ===== verification/Lines.v ===== *)
(** * Lists kept as text: lines split at line ends and commas

    Several parts of the program split a text at CR, LF and commas, trim each line and
    drop the empty ones.  This file shows that the result ([items]) does not depend on
    trimming the text first, and that writing the items one per line is read back. *)
From S2P Require Import Prelude.
From S2P Require Import GoLib.
Local Open Scope Z_scope.
Local Open Scope bool_scope.

Definition line_ends : list (gostr * gostr) := [([chr 13; chr 10], [chr 10]); ([chr 13], [chr 10]); ($",", [chr 10])].
Definition trimmed (line : gostr) : option gostr := match trim_space line with [] => None | item => Some item end.
Definition items (s : gostr) : list gostr := omap trimmed (split (replace_all line_ends s) (chr 10)).

(** ** Splitting at any separator *)

Definition is_sep (c : ascii) : bool := Ascii.eqb c (chr 13) || Ascii.eqb c (chr 10) || Ascii.eqb c ",".
Fixpoint split_any (s : gostr) : list gostr :=
  match s with
  | [] => [[]]
  | c :: s' => if is_sep c then [] :: split_any s'
               else match split_any s' with l :: rest => (c :: l) :: rest | [] => [[c]] end
  end.

Lemma split_any_cons s : ∃ l rest, split_any s = l :: rest.
Proof. induction s as [|c s (l & rest & E)]; cbn; [eauto|]. destruct (is_sep c); [eauto|]. rewrite E. eauto. Qed.

Lemma split_cons s c : ∃ l rest, split s c = l :: rest.
Proof. induction s as [|a s (l & rest & E)]; cbn; [eauto|]. destruct (Ascii.eqb a c); [eauto|]. rewrite E. eauto. Qed.

(** ** Splitting and joining at one byte *)

Lemma split_byte_free s c l : l ∈ split s c → c ∉ l.
Proof.
  revert l. induction s as [|d s IH]; cbn; [intros l ->%list_elem_of_singleton; set_solver|].
  destruct (Ascii.eqb_spec d c) as [->|Hd]; [intros l [->|Hl]%elem_of_cons; [set_solver|by apply IH]|]. intros l.
  destruct (split s c) as [|l0 rest]; [intros ->%list_elem_of_singleton; set_solver|].
  intros [->|Hl]%elem_of_cons; [|apply IH; by right].
  intros [->|Hin]%elem_of_cons; [done|]. revert Hin. apply IH. by left.
Qed.

Lemma split_free s c : c ∉ s → split s c = [s].
Proof.
  induction s as [|d s IH]; [done|]. intros [Hd Hs]%not_elem_of_cons. cbn. rewrite (proj2 (Ascii.eqb_neq d c)) by done. by rewrite IH.
Qed.

Lemma split_cons_sep s c r : c ∉ s → split (s ++ c :: r) c = s :: split r c.
Proof.
  induction s as [|d s IH]; cbn; [by rewrite Ascii.eqb_refl|]. intros [Hd Hs]%not_elem_of_cons.
  rewrite (proj2 (Ascii.eqb_neq d c)) by done. by rewrite IH.
Qed.

Lemma split_app_sep s c r : split (s ++ c :: r) c = split s c ++ split r c.
Proof.
  induction s as [|a s IH]; cbn [split app].
  - rewrite (proj2 (Ascii.eqb_eq c c)) by done. done.
  - rewrite IH. destruct (Ascii.eqb a c); [done|]. destruct (split_cons s c) as (l & rest & ->). done.
Qed.

Lemma join_split s c : join (split s c) [c] = s.
Proof.
  induction s as [|a s IH]; [done|]. cbn [split]. destruct (split_cons s c) as (l & rest & E). rewrite E in *. destruct (Ascii.eqb_spec a c) as [->|].
  - change (join ([] :: l :: rest) [c]) with ([] ++ [c] ++ join (l :: rest) [c]). by rewrite IH.
  - destruct rest as [|r rest]; cbn in *; by rewrite IH.
Qed.

(** Same first line, same items in the other lines. *)
Definition same_lines (a b : list gostr) : Prop :=
  head a = head b ∧ omap trimmed (tail a) = omap trimmed (tail b).

Lemma same_lines_items a b : a ≠ [] → b ≠ [] → same_lines a b → omap trimmed a = omap trimmed b.
Proof. destruct a, b; try done. intros _ _ [[= ->] Ht]. cbn in *. by rewrite Ht. Qed.

Lemma same_lines_new a b : a ≠ [] → b ≠ [] → same_lines a b → same_lines ([] :: a) ([] :: b).
Proof. intros Ha Hb Hs. split; [done|]. by apply same_lines_items. Qed.

Lemma has_prefix_byte d (s : gostr) c : has_prefix (d :: s) [c] = Ascii.eqb c d.
Proof. cbn. by destruct s; rewrite andb_true_r. Qed.

Lemma find_line_end c (s : gostr) :
  List.find (λ p, has_prefix (c :: s) p.1) line_ends =
  if Ascii.eqb (chr 13) c then if has_prefix s [chr 10] then Some ([chr 13; chr 10], [chr 10]) else Some ([chr 13], [chr 10])
  else if Ascii.eqb "," c then Some ($",", [chr 10]) else None.
Proof.
  unfold line_ends. cbn [List.find fst]. change ($",") with [","%char]. rewrite !has_prefix_byte.
  change (has_prefix (c :: s) [chr 13; chr 10]) with (Ascii.eqb (chr 13) c && has_prefix s [chr 10]).
  by destruct (Ascii.eqb (chr 13) c), (has_prefix s [chr 10]), (Ascii.eqb "," c).
Qed.

Lemma split_replaced fuel s : (length s ≤ fuel)%nat → same_lines (split (replacer line_ends fuel s) (chr 10)) (split_any s).
Proof.
  revert s. induction fuel as [|fuel IH]; intros s Hl; [destruct s; [done|cbn in Hl; lia]|].
  destruct s as [|c s]; [done|]. cbn [length] in Hl.
  assert (Hne : ∀ s, split (replacer line_ends fuel s) (chr 10) ≠ [] ∧ split_any s ≠ []).
  { intros t. destruct (split_any_cons t) as (? & ? & ->), (split_cons (replacer line_ends fuel t) (chr 10)) as (? & ? & ->). done. }
  destruct (is_sep c) eqn:Es.
  - cbn [split_any]. rewrite Es. cbn [replacer]. rewrite find_line_end.
    destruct (Ascii.eqb_spec (chr 13) c) as [<-|E13]; [|destruct (Ascii.eqb_spec "," c) as [<-|Ec]].
    + destruct (has_prefix s [chr 10]) eqn:E10.
      * apply has_prefix_split in E10 as [r ->]. cbn [app] in *. change (drop (length [chr 13; chr 10]) (chr 13 :: chr 10 :: r)) with r.
        destruct (Hne r) as [H1 H2]. split; [done|].
        change (split_any (chr 10 :: r)) with ([] :: split_any r). cbn [tail]. 
        apply (same_lines_items (split (replacer line_ends fuel r) (chr 10)) (split_any r)); auto with lia. apply IH. cbn [length] in Hl. lia.
      * destruct (Hne s). apply (same_lines_new (split (replacer line_ends fuel s) (chr 10)) (split_any s)); auto with lia.
    + destruct (Hne s). apply (same_lines_new (split (replacer line_ends fuel s) (chr 10)) (split_any s)); auto with lia.
    + assert (c = chr 10) as ->.
      { unfold is_sep in Es. destruct (Ascii.eqb_spec c (chr 13)); [congruence|]. destruct (Ascii.eqb_spec c (chr 10)); [done|].
        destruct (Ascii.eqb_spec c ","); [congruence|done]. }
      destruct (Hne s). apply (same_lines_new (split (replacer line_ends fuel s) (chr 10)) (split_any s)); auto with lia.
  - cbn [split_any]. rewrite Es. unfold is_sep in Es. apply orb_false_iff in Es as [[E13 E10]%orb_false_iff Ecomma].
    cbn [replacer]. rewrite find_line_end, (Ascii.eqb_sym (chr 13)), E13, (Ascii.eqb_sym ","), Ecomma.
    cbn [split]. rewrite E10. destruct (IH s ltac:(lia)) as [Hh Ht].
    destruct (split_any_cons s) as (l & rest & El), (split_cons (replacer line_ends fuel s) (chr 10)) as (l' & rest' & El').
    rewrite El, El' in *. cbn in *. injection Hh as ->. by split.
Qed.

Lemma items_any s : items s = omap trimmed (split_any s).
Proof.
  unfold items, replace_all. apply same_lines_items; [..|by apply split_replaced].
  - by destruct (split_cons (replacer line_ends (length s) s) (chr 10)) as (? & ? & ->).
  - by destruct (split_any_cons s) as (? & ? & ->).
Qed.

(** ** Trimming, one encoded space at a time *)

Section trim.
Context (encs : list gostr).
Hypothesis encs_some : ∀ e, e ∈ encs → e ≠ [].
Hypothesis encs_free : ∀ e e', e ∈ encs → e' ∈ encs → has_prefix e e' = true → e' = e.

Abbreviation tl s := (trim_space_left encs (length s) s).

Lemma first_space_in s n : first_space encs s = Some n → ∃ e r, e ∈ encs ∧ s = e ++ r ∧ n = length e ∧ (0 < n)%nat.
Proof.
  unfold first_space. destruct (List.find _ encs) as [e|] eqn:E; [|done]. intros [= <-]. apply find_some in E as [Hin [r ->]%has_prefix_split].
  apply list_elem_of_In in Hin. exists e, r. split; [done|]. split; [done|]. split; [done|]. specialize (encs_some e Hin). destruct e; [done|cbn; lia].
Qed.

Lemma first_space_enc e r : e ∈ encs → first_space encs (e ++ r) = Some (length e).
Proof.
  intros He. unfold first_space. destruct (List.find (has_prefix (e ++ r)) encs) as [e'|] eqn:E.
  - apply find_some in E as [Hin [r' Hr]%has_prefix_split]. apply list_elem_of_In in Hin. f_equal. f_equal.
    apply app_eq_inv in Hr as [(k & Hk & _)|(k & Hk & _)].
    + apply encs_free; [done..|]. apply has_prefix_split. by exists k.
    + symmetry. apply encs_free; [done..|]. apply has_prefix_split. by exists k.
  - apply list_elem_of_In in He. apply (find_none _ _ E) in He.
    assert (has_prefix (e ++ r) e = true) by (apply has_prefix_split; by exists r). congruence.
Qed.

Lemma trim_fuel fuel s : (length s ≤ fuel)%nat → trim_space_left encs fuel s = tl s.
Proof.
  revert s. induction fuel as [fuel IH] using lt_wf_ind. intros s Hl. destruct fuel as [|fuel]; [destruct s; [done|cbn in Hl; lia]|].
  destruct s as [|c s]; cbn [trim_space_left length]; [destruct (first_space encs []) as [n|] eqn:E; [|done]|].
  { apply first_space_in in E as (e & r & He & Hr & _ & Hn). destruct e; [specialize (encs_some _ He); done|done]. }
  destruct (first_space encs (c :: s)) as [n|] eqn:E; [|done]. apply first_space_in in E as (e & r & _ & Hr & -> & Hn).
  rewrite Hr, drop_app_length. apply (f_equal length) in Hr. rewrite length_app in Hr. cbn in Hr, Hl.
  rewrite (IH fuel) by lia. rewrite (IH (length s)) by lia. done.
Qed.

Lemma trim_step e r : e ∈ encs → tl (e ++ r) = tl r.
Proof.
  intros He. pose proof (encs_some e He). destruct e as [|c e]; [done|]. cbn [app length trim_space_left].
  change (c :: e ++ r) with ((c :: e) ++ r). rewrite first_space_enc, drop_app_length by done.
  apply trim_fuel. rewrite length_app. lia.
Qed.

(** An invariant of the steps is an invariant of the loop. *)
Lemma trim_ind (P : gostr → Prop) s : (∀ e r, e ∈ encs → P (e ++ r) → P r) → P s → P (tl s).
Proof.
  intros Hstep. revert s. assert (Hf : ∀ fuel s, P s → P (trim_space_left encs fuel s)); [|by intros; apply Hf].
  induction fuel as [|fuel IH]; intros s Hs; [done|]. cbn. destruct (first_space encs s) as [n|] eqn:E; [|done].
  apply first_space_in in E as (e & r & He & -> & -> & _). rewrite drop_app_length. apply IH. by eapply Hstep.
Qed.
End trim.

Definition back_encodings : list gostr := map reverse space_encodings.

Definition prefix_free (encs : list gostr) : bool :=
  forallb (λ e, negb (bool_decide (e = [])) && forallb (λ e', negb (has_prefix e e') || bool_decide (e' = e)) encs) encs.

Lemma prefix_free_ok encs : prefix_free encs = true →
  (∀ e, e ∈ encs → e ≠ []) ∧ (∀ e e', e ∈ encs → e' ∈ encs → has_prefix e e' = true → e' = e).
Proof.
  unfold prefix_free. rewrite forallb_elem_of. intros H. split.
  - intros e He. specialize (H e He). apply andb_true_iff in H as [H _]. by destruct e.
  - intros e e' He He' Hp. specialize (H e He). apply andb_true_iff in H as [_ H]. rewrite forallb_elem_of in H. specialize (H e' He').
    rewrite Hp in H. by apply bool_decide_eq_true in H.
Qed.

Lemma encodings_ok : prefix_free space_encodings = true ∧ prefix_free back_encodings = true.
Proof. split; vm_compute; reflexivity. Qed.

Abbreviation front s := (trim_space_left space_encodings (length s) s).
Abbreviation back s := (trim_space_left back_encodings (length s) s).

Lemma trim_space_alt s : trim_space s = reverse (back (reverse (front s))).
Proof. unfold trim_space. fold back_encodings. by rewrite length_reverse. Qed.

Lemma front_step e r : e ∈ space_encodings → front (e ++ r) = front r.
Proof. destruct encodings_ok as [[? ?]%prefix_free_ok _]. by apply trim_step. Qed.
Lemma back_step e r : e ∈ space_encodings → back (reverse e ++ r) = back r.
Proof.
  destruct encodings_ok as [_ [? ?]%prefix_free_ok]. intros He. apply trim_step; [done..|].
  unfold back_encodings. apply list_elem_of_fmap. by exists e.
Qed.

Lemma trimmed_left e l : e ∈ space_encodings → trimmed (e ++ l) = trimmed l.
Proof. intros He. unfold trimmed. by rewrite !trim_space_alt, front_step. Qed.

(** No space starts inside another. *)
Lemma no_straddle e e' c : e ∈ space_encodings → e' ∈ space_encodings → head e = Some c → c ∉ tail e'.
Proof.
  intros He He' Hc Hin.
  assert (H : forallb (λ e, match e with c :: _ => forallb (λ e', negb (existsb (Ascii.eqb c) (tail e'))) space_encodings | [] => true end) space_encodings = true)
    by (vm_compute; reflexivity).
  rewrite forallb_elem_of in H. specialize (H e He). destruct e as [|d e]; [done|]. injection Hc as ->.
  rewrite forallb_elem_of in H. specialize (H e' He'). apply negb_true_iff in H.
  assert (existsb (Ascii.eqb c) (tail e') = true) by (apply existsb_elem_of; exists c; split; [done|apply Ascii.eqb_refl]). congruence.
Qed.

Lemma first_space_snoc l e : e ∈ space_encodings → l ≠ [] → first_space space_encodings (l ++ e) = first_space space_encodings l.
Proof.
  intros He Hl. destruct encodings_ok as [[Hsome Hfree]%prefix_free_ok _].
  destruct (first_space space_encodings l) as [n|] eqn:E.
  - apply (first_space_in _ Hsome) in E as (e' & r & He' & -> & -> & _). rewrite <- app_assoc. by apply first_space_enc.
  - destruct (first_space space_encodings (l ++ e)) as [n|] eqn:E'; [|done]. exfalso.
    apply (first_space_in _ Hsome) in E' as (e' & r & He' & Hr & _ & _). apply app_eq_inv in Hr as [(k & Hk & Hk')|(k & Hk & Hk')].
    + rewrite Hk in E. by rewrite first_space_enc in E.
    + destruct k as [|c k].
      * rewrite app_nil_r in Hk. subst l. rewrite <- (app_nil_r e') in E. by rewrite first_space_enc in E.
      * destruct e as [|d e]; [by apply Hsome in He|]. injection Hk' as -> ->.
        apply (no_straddle (c :: k ++ r) e' c); [done..|]. rewrite Hk. destruct l as [|x l]; [done|]. cbn. apply elem_of_app. right. left.
Qed.

Lemma front_snoc l e : e ∈ space_encodings → front (l ++ e) = match front l with [] => [] | t => t ++ e end.
Proof.
  intros He. destruct encodings_ok as [[Hsome Hfree]%prefix_free_ok _].
  remember (length l) as n eqn:Hn. revert l Hn. induction n as [n IH] using lt_wf_ind. intros l ->.
  destruct l as [|c l].
  - cbn [app]. rewrite <- (app_nil_r e) at 1 2. by rewrite front_step.
  - destruct (first_space space_encodings (c :: l)) as [m|] eqn:E.
    + apply (first_space_in _ Hsome) in E as (e' & r & He' & Hr & _ & _). rewrite Hr, <- app_assoc, (front_step e' (r ++ e)), (front_step e' r) by done.
      apply (IH (length r)); [|done]. apply (f_equal length) in Hr. rewrite length_app in Hr. specialize (Hsome _ He'). destruct e'; [done|cbn in *; lia].
    + assert (Hf : front (c :: l) = c :: l) by (by apply trim_space_left_id). rewrite Hf.
      apply trim_space_left_id. unfold no_space. by rewrite first_space_snoc.
Qed.

Lemma trimmed_right e l : e ∈ space_encodings → trimmed (l ++ e) = trimmed l.
Proof.
  intros He. unfold trimmed. rewrite !trim_space_alt, front_snoc by done. destruct (front l) as [|c t]; [done|].
  by rewrite reverse_app, back_step.
Qed.

(** ** Splitting and spaces *)

Lemma space_sep e : e ∈ space_encodings → (∃ c, e = [c] ∧ is_sep c = true) ∨ forallb (λ c, negb (is_sep c)) e = true.
Proof.
  intros He. assert (H : forallb (λ e, match e with [c] => true | _ => forallb (λ c, negb (is_sep c)) e end) space_encodings = true) by (vm_compute; reflexivity).
  rewrite forallb_elem_of in H. specialize (H e He). destruct e as [|c [|d e]]; [by right| |by right].
  destruct (is_sep c) eqn:Ec; [left; by exists c|right; cbn; by rewrite Ec].
Qed.

Lemma split_any_app_left e r l rest : forallb (λ c, negb (is_sep c)) e = true → split_any r = l :: rest → split_any (e ++ r) = (e ++ l) :: rest.
Proof. intros He Er. induction e as [|c e IH]; [done|]. cbn in *. apply andb_true_iff in He as [Hc He]. destruct (is_sep c); [done|]. by rewrite IH. Qed.

Lemma split_any_app_sep s c r : is_sep c = true → split_any (s ++ c :: r) = split_any s ++ split_any r.
Proof.
  intros Hc. induction s as [|d s IH]; cbn; [by rewrite Hc|]. rewrite IH. destruct (is_sep d); [done|].
  destruct (split_any_cons s) as (l & rest & ->). done.
Qed.

Lemma split_any_app_right s e : forallb (λ c, negb (is_sep c)) e = true → ∃ init last, split_any s = init ++ [last] ∧ split_any (s ++ e) = init ++ [last ++ e].
Proof.
  intros He. induction s as [|d s (init & last & E1 & E2)].
  - exists [], []. split; [done|]. cbn [app]. rewrite <- (app_nil_r e) at 1. by rewrite (split_any_app_left e [] [] []), app_nil_r.
  - cbn. rewrite E1, E2. destruct (is_sep d); [by exists ([] :: init), last|]. destruct init as [|l init]; [by exists [], (d :: last)|by exists ((d :: l) :: init), last].
Qed.

Lemma items_space_left e r : e ∈ space_encodings → items (e ++ r) = items r.
Proof.
  intros He. rewrite !items_any. destruct (space_sep e He) as [(c & -> & Hc)|Hs].
  - cbn. by rewrite Hc.
  - destruct (split_any_cons r) as (l & rest & E). rewrite (split_any_app_left e r l rest), E by done. cbn. by rewrite trimmed_left.
Qed.

Lemma items_space_right e r : e ∈ space_encodings → items (r ++ e) = items r.
Proof.
  intros He. rewrite !items_any. destruct (space_sep e He) as [(c & -> & Hc)|Hs].
  - rewrite split_any_app_sep, omap_app by done. cbn. by rewrite app_nil_r.
  - destruct (split_any_app_right r e Hs) as (init & last & -> & ->). rewrite !omap_app. cbn. by rewrite trimmed_right.
Qed.

(** Trimming the text changes nothing. *)
Lemma items_trim s : items (trim_space s) = items s.
Proof.
  destruct encodings_ok as [[Hs1 _]%prefix_free_ok [Hs2 _]%prefix_free_ok].
  assert (Hback : ∀ t, items (reverse (back t)) = items (reverse t)).
  { intros t. apply (trim_ind back_encodings Hs2 (λ r, items (reverse r) = items (reverse t))); [|done].
    intros e r He <-. unfold back_encodings in He. apply list_elem_of_fmap in He as (e' & -> & He').
    rewrite reverse_app, reverse_involutive. by rewrite items_space_right. }
  rewrite trim_space_alt, Hback, reverse_involutive.
  apply (trim_ind space_encodings Hs1 (λ r, items r = items s)); [|done]. intros e r He <-. by rewrite items_space_left.
Qed.

(** ** Writing items *)

(** A text that is one item. *)
Definition item_ok (s : gostr) : Prop := s ≠ [] ∧ trim_space s = s ∧ forallb (λ c, negb (is_sep c)) s = true.

Lemma split_any_no_sep s : Forall (λ l, forallb (λ c, negb (is_sep c)) l = true) (split_any s).
Proof.
  induction s as [|c s IH]; [by constructor|]. cbn. destruct (is_sep c) eqn:E; [by constructor|].
  destruct (split_any s) as [|l rest]; [constructor; [cbn; by rewrite E|done]|].
  inversion IH; subst. constructor; [cbn; by rewrite E|done].
Qed.

(** Trimming removes a prefix and a suffix. *)
Lemma trim_space_mid s : ∃ p q, s = p ++ trim_space s ++ q.
Proof.
  unfold trim_space.
  destruct (trim_space_left_suffix space_encodings (length s) s) as [p Hp]. set (l := trim_space_left space_encodings (length s) s) in *.
  destruct (trim_space_left_suffix (map reverse space_encodings) (length l) (reverse l)) as [q Hq].
  apply (f_equal reverse) in Hq. rewrite reverse_involutive, reverse_app in Hq.
  exists p, (reverse q). by rewrite <- Hq.
Qed.

Lemma trim_no_sep s : forallb (λ c, negb (is_sep c)) s = true → forallb (λ c, negb (is_sep c)) (trim_space s) = true.
Proof.
  intros Hs. destruct (trim_space_mid s) as (p & q & E). rewrite E, !forallb_app, !andb_true_iff in Hs. tauto.
Qed.

Lemma items_ok s : Forall item_ok (items s).
Proof.
  rewrite items_any. pose proof (split_any_no_sep s) as Hs. induction (split_any s) as [|l rest IH]; [constructor|].
  inversion Hs as [|? ? Hl Hr]; subst. cbn. unfold trimmed at 1. destruct (trim_space l) as [|c t] eqn:E; [by apply IH|].
  constructor; [|by apply IH]. rewrite <- E. split; [by rewrite E|]. split; [apply trim_space_idem|by apply trim_no_sep].
Qed.

Lemma items_join l : Forall item_ok l → items (join l [chr 10]) = l.
Proof.
  rewrite items_any. induction 1 as [|x l (Hne & Ht & Hs) Hl IH]; [done|].
  assert (Hx : trimmed x = Some x) by (unfold trimmed; rewrite Ht; by destruct x).
  destruct l as [|y l].
  - change (join [x] [chr 10]) with x. rewrite <- (app_nil_r x) at 1. rewrite (split_any_app_left x [] [] []), app_nil_r by done. cbn. by rewrite Hx.
  - change (join (x :: y :: l) [chr 10]) with (x ++ chr 10 :: join (y :: l) [chr 10]).
    rewrite split_any_app_sep, omap_app, IH by done. rewrite <- (app_nil_r x) at 1. rewrite (split_any_app_left x [] [] []), app_nil_r by done. cbn. by rewrite Hx.
Qed.

Lemma items_blank s : trim_space s = [] → items s = [].
Proof. intros E. by rewrite <- items_trim, E. Qed.

Lemma items_single x : item_ok x → items x = [x].
Proof. intros Hx. apply (items_join [x]). by constructor. Qed.
