(* ===== verification/IpBits.v ===== *)
(** * Addresses as bit strings and as numbers

    The package works on addresses as byte slices; the trie reads them bit by bit
    and the range decomposition adds powers of two to them.  This file relates the
    three views: [bits_of] (most significant bit first) and [val] (big endian). *)
From S2P Require Import Prelude GoLib.
Local Open Scope Z_scope.

Definition wf_bytes (b : bytes) : Prop := Forall (λ x, 0 ≤ x < 256) b.

Lemma wf_bytes_cons x b : wf_bytes (x :: b) ↔ (0 ≤ x < 256) ∧ wf_bytes b.
Proof. unfold wf_bytes. by rewrite Forall_cons. Qed.

Lemma wf_bytes_app a b : wf_bytes (a ++ b) ↔ wf_bytes a ∧ wf_bytes b.
Proof. apply Forall_app. Qed.

Lemma wf_bytes_drop n a : wf_bytes a → wf_bytes (drop n a).
Proof. apply Forall_drop. Qed.

Lemma wf_bytes_reverse a : wf_bytes a → wf_bytes (reverse a).
Proof. apply Forall_reverse. Qed.

(** ** Big-endian numbers over bits *)

Definition bval (l : list bool) : Z := foldl (λ acc b, 2 * acc + Z.b2z b) 0 l.

Lemma bval_foldl l acc :
  foldl (λ acc b, 2 * acc + Z.b2z b) acc l = acc * 2 ^ Z.of_nat (length l) + bval l.
Proof.
  unfold bval. revert acc. induction l as [|b l IH]; intros acc; cbn [foldl length]; [cbn; lia|].
  rewrite (IH (2 * acc + Z.b2z b)), (IH (2 * 0 + Z.b2z b)).
  replace (Z.of_nat (S (length l))) with (Z.succ (Z.of_nat (length l))) by lia.
  rewrite Z.pow_succ_r by lia. ring.
Qed.

Lemma bval_app l k : bval (l ++ k) = bval l * 2 ^ Z.of_nat (length k) + bval k.
Proof. unfold bval at 1. rewrite foldl_app. apply bval_foldl. Qed.

Lemma bval_cons b l : bval (b :: l) = Z.b2z b * 2 ^ Z.of_nat (length l) + bval l.
Proof. change (b :: l) with ([b] ++ l). rewrite bval_app. f_equal. Qed.

Lemma bval_bound l : 0 ≤ bval l < 2 ^ Z.of_nat (length l).
Proof.
  induction l as [|b l IH]; [done|].
  rewrite bval_cons. cbn [length].
  replace (Z.of_nat (S (length l))) with (Z.succ (Z.of_nat (length l))) by lia.
  rewrite Z.pow_succ_r by lia. destruct b; cbn [Z.b2z]; lia.
Qed.

Lemma bval_inj l k : length l = length k → bval l = bval k → l = k.
Proof.
  revert k. induction l as [|b l IH]; intros [|c k] Hlen Hval; try done.
  rewrite !bval_cons in Hval. injection Hlen as Hlen. rewrite <- Hlen in Hval.
  pose proof (bval_bound l). pose proof (bval_bound k) as Hk. rewrite <- Hlen in Hk.
  destruct b, c; cbn [Z.b2z] in Hval; first [f_equal; apply IH; [done|lia] | exfalso; lia].
Qed.

Lemma bval_take l n :
  (n ≤ length l)%nat → bval (take n l) = bval l / 2 ^ Z.of_nat (length l - n).
Proof.
  intros Hn. rewrite <- (take_drop n l) at 2. rewrite bval_app, length_drop.
  pose proof (bval_bound (drop n l)) as Hb. rewrite length_drop in Hb.
  rewrite Z.div_add_l by lia. rewrite (Z.div_small (bval (drop n l))) by lia. lia.
Qed.

(** ** Bytes *)

Definition bits_of_byte (b : Z) : list bool := map (Z.testbit b) [7;6;5;4;3;2;1;0].
Definition bits_of (b : bytes) : list bool := concat (map bits_of_byte b).

Lemma bits_of_cons x b : bits_of (x :: b) = bits_of_byte x ++ bits_of b.
Proof. done. Qed.

Lemma length_bits_of b : length (bits_of b) = (8 * length b)%nat.
Proof. induction b as [|x b IH]; [done|]. rewrite bits_of_cons, length_app, IH. cbn [length bits_of_byte map]. lia. Qed.

Lemma byte_testbit_high x i : 0 ≤ x < 256 → 8 ≤ i → Z.testbit x i = false.
Proof.
  intros Hx Hi. destruct (decide (x = 0)) as [->|]; [apply Z.bits_0|].
  apply Z.bits_above_log2; [lia|].
  apply Z.lt_le_trans with 8; [|lia]. apply Z.log2_lt_pow2; lia.
Qed.

Lemma bits_of_byte_inj x y :
  0 ≤ x < 256 → 0 ≤ y < 256 → bits_of_byte x = bits_of_byte y → x = y.
Proof.
  intros Hx Hy H. apply Z.bits_inj'. intros i Hi.
  destruct (decide (8 ≤ i)); [by rewrite !byte_testbit_high|].
  unfold bits_of_byte in H. simpl in H. injection H as H7 H6 H5 H4 H3 H2 H1 H0.
  assert (i = 0 ∨ i = 1 ∨ i = 2 ∨ i = 3 ∨ i = 4 ∨ i = 5 ∨ i = 6 ∨ i = 7) as Hc by lia.
  destruct_or! Hc; by subst i.
Qed.

Lemma bits_of_byte_land x m :
  bits_of_byte (Z.land x m) = zip_with andb (bits_of_byte x) (bits_of_byte m).
Proof. unfold bits_of_byte. cbn [map zip_with]. by rewrite !Z.land_spec. Qed.

Lemma zip_with_app_len {A B C} (f : A → B → C) l1 l2 k1 k2 :
  length l1 = length k1 →
  zip_with f (l1 ++ l2) (k1 ++ k2) = zip_with f l1 k1 ++ zip_with f l2 k2.
Proof. apply zip_with_app. Qed.

Lemma bits_of_and a m :
  length a = length m → bits_of (bytes_and a m) = zip_with andb (bits_of a) (bits_of m).
Proof.
  revert m. induction a as [|x a IH]; intros [|y m] Hlen; try done.
  change (bits_of (bytes_and (x :: a) (y :: m)))
    with (bits_of_byte (Z.land x y) ++ bits_of (bytes_and a m)).
  injection Hlen as Hlen. rewrite bits_of_byte_land, (IH m Hlen), !bits_of_cons.
  by rewrite zip_with_app_len.
Qed.

Lemma bits_of_inj a b :
  wf_bytes a → wf_bytes b → length a = length b → bits_of a = bits_of b → a = b.
Proof.
  revert b. induction a as [|x a IH]; intros [|y b] Ha Hb Hlen Heq; try done.
  rewrite !bits_of_cons in Heq. apply app_inj_1 in Heq as [H1 H2]; [|done].
  apply wf_bytes_cons in Ha as [? ?], Hb as [? ?].
  f_equal; [by apply bits_of_byte_inj|]. apply IH; auto.
Qed.

(** ** Numbers *)

Definition val (b : bytes) : Z := bval (bits_of b).

Lemma bval_byte x : 0 ≤ x < 256 → bval (bits_of_byte x) = x.
Proof.
  intros Hx.
  assert (Hall : forallb (λ n, bval (bits_of_byte (Z.of_nat n)) =? Z.of_nat n) (seq 0 256) = true)
    by (vm_compute; reflexivity).
  rewrite forallb_elem_of in Hall. specialize (Hall (Z.to_nat x)).
  rewrite Z2Nat.id in Hall by lia. apply Z.eqb_eq, Hall, elem_of_seq. lia.
Qed.

Lemma val_cons x b :
  0 ≤ x < 256 → val (x :: b) = x * 2 ^ (8 * Z.of_nat (length b)) + val b.
Proof.
  intros Hx. unfold val. rewrite bits_of_cons, bval_app, bval_byte by done.
  rewrite length_bits_of. do 3 f_equal. lia.
Qed.

Lemma val_app a b :
  val (a ++ b) = val a * 2 ^ (8 * Z.of_nat (length b)) + val b.
Proof.
  unfold val, bits_of. rewrite map_app, concat_app, bval_app.
  fold (bits_of b). rewrite length_bits_of. do 3 f_equal. lia.
Qed.

Lemma val_bound b : 0 ≤ val b < 2 ^ (8 * Z.of_nat (length b)).
Proof.
  unfold val. pose proof (bval_bound (bits_of b)) as H. rewrite length_bits_of in H.
  replace (Z.of_nat (8 * length b)) with (8 * Z.of_nat (length b)) in H by lia. done.
Qed.

Lemma val_inj a b :
  wf_bytes a → wf_bytes b → length a = length b → val a = val b → a = b.
Proof.
  intros Ha Hb Hlen Heq. apply bits_of_inj; try done.
  apply bval_inj; [|done]. rewrite !length_bits_of. lia.
Qed.

(** [bytes.Compare] on slices of one length is the comparison of the numbers. *)
Lemma bytes_compare_val a b :
  wf_bytes a → wf_bytes b → length a = length b →
  bytes_compare a b = Z.compare (val a) (val b).
Proof.
  revert b. induction a as [|x a IH]; intros [|y b] Ha Hb Hlen; try done.
  apply wf_bytes_cons in Ha as [? ?], Hb as [? ?].
  injection Hlen as Hlen. cbn [bytes_compare].
  rewrite !val_cons, <- Hlen by done.
  pose proof (val_bound a) as Hva. pose proof (val_bound b) as Hvb. rewrite <- Hlen in Hvb.
  set (N := 2 ^ (8 * Z.of_nat (length a))) in *.
  destruct (Z.compare_spec x y) as [->|Hlt|Hgt].
  - rewrite IH by done. by rewrite Z.add_compare_mono_l.
  - symmetry. apply Z.compare_lt_iff. nia.
  - symmetry. apply Z.compare_gt_iff. nia.
Qed.

(** Two addresses agree on their first [n] bits. *)
Definition agree (n : nat) (a b : bytes) : bool :=
  bool_decide (take n (bits_of a) = take n (bits_of b)).

(** ** Reading one bit, as the trie does *)

(** [(ipBytes[i/8] >> (7 - uint(i%8))) & 1] *)
Definition ip_bit (ip : bytes) (i : nat) : bool :=
  Z.land (Z.shiftr (nth (i / 8) ip 0) (7 - Z.of_nat (i mod 8))) 1 =? 1.

Definition ip_bits (ip : bytes) (n : nat) : list bool :=
  map (ip_bit ip) (seq 0 (Nat.min n (8 * length ip))).

Lemma land_1_testbit x i : 0 ≤ i → (Z.land (Z.shiftr x i) 1 =? 1) = Z.testbit x i.
Proof.
  intros Hi. rewrite Z.land_ones with (n := 1) by lia. change (2 ^ 1) with 2.
  rewrite <- Z.bit0_mod. rewrite Z.shiftr_spec by lia.
  rewrite Z.add_0_l. by destruct (Z.testbit x i).
Qed.

Lemma ip_bit_lookup ip i b :
  bits_of ip !! i = Some b → ip_bit ip i = b.
Proof.
  revert i. induction ip as [|x ip IH]; intros i H; [done|].
  rewrite bits_of_cons in H. unfold ip_bit.
  rewrite land_1_testbit by (pose proof (Nat.mod_upper_bound i 8 ltac:(lia)); lia).
  destruct (decide (i < 8)%nat) as [Hi|Hi].
  - rewrite Nat.div_small, Nat.mod_small by lia. cbn [nth].
    rewrite lookup_app_l in H by (cbn; lia).
    unfold bits_of_byte in H. rewrite list_lookup_fmap in H.
    assert (i = 0 ∨ i = 1 ∨ i = 2 ∨ i = 3 ∨ i = 4 ∨ i = 5 ∨ i = 6 ∨ i = 7)%nat as Hc by lia.
    destruct_or! Hc; subst i; simpl in H; by injection H.
  - rewrite lookup_app_r in H by (cbn; lia). cbn [length bits_of_byte map] in H.
    specialize (IH _ H). unfold ip_bit in IH.
    rewrite land_1_testbit in IH by (pose proof (Nat.mod_upper_bound (i - 8) 8 ltac:(lia)); lia).
    replace (i / 8)%nat with (S ((i - 8) / 8)).
    + cbn [nth]. rewrite <- IH. do 3 f_equal.
      replace i with (i - 8 + 1 * 8)%nat at 1 by lia. by rewrite Nat.Div0.mod_add.
    + replace i with (i - 8 + 1 * 8)%nat at 2 by lia. rewrite Nat.div_add by lia. lia.
Qed.

Lemma ip_bits_take ip n : ip_bits ip n = take n (bits_of ip).
Proof.
  apply list_eq. intros i. unfold ip_bits. rewrite list_lookup_fmap.
  destruct (decide (i < Nat.min n (8 * length ip))%nat) as [Hi|Hi].
  - rewrite lookup_seq_lt by lia. cbn [fmap option_fmap option_map].
    rewrite lookup_take_lt by lia.
    destruct (lookup_lt_is_Some_2 (bits_of ip) i) as [b Hb]; [rewrite length_bits_of; lia|].
    rewrite Hb. f_equal. simpl. by apply ip_bit_lookup.
  - rewrite lookup_seq_ge by lia. symmetry. apply lookup_ge_None.
    rewrite length_take, length_bits_of. lia.
Qed.

#[export] Hint Resolve bval_bound val_bound : samwaf.
