(* ===== verification/NetFacts.v ===== *)
(** * The address parsers return well-formed addresses

    Facts about the models of [net.ParseIP], [net.ParseCIDR] and masks: lengths,
    byte ranges and the shape of canonical masks. *)
From S2P Require Import Prelude GoLib IpBits.
Local Open Scope Z_scope.

Lemma digit_val_range c : 0 ≤ digit_val c < 256.
Proof. unfold digit_val. pose proof (code_range c). repeat case_match; prop_of_bool; lia. Qed.

Lemma digits_val_nonneg base acc s v :
  0 ≤ base → 0 ≤ acc → digits_val base acc s = Some v → 0 ≤ v.
Proof.
  intros Hb. revert acc. induction s as [|c s IH]; intros acc Hacc H; cbn in H; simplify_eq; [done|].
  case_match; [|done]. pose proof (digit_val_range c). eapply IH; [|done]. nia.
Qed.

Lemma parse_uint_range s base bits v :
  0 ≤ base → parse_uint s base bits = Some v → 0 ≤ v < 2 ^ bits.
Proof.
  intros Hb H. unfold parse_uint in H. destruct s; [done|].
  destruct (digits_val base 0 _) eqn:E; [|done].
  pose proof (digits_val_nonneg base 0 _ _ Hb (Z.le_refl 0) E).
  case_match; [|done]. prop_of_bool. simplify_eq. lia.
Qed.

(** ** Addresses *)

Definition wf_ip (ip : bytes) : Prop := wf_bytes ip ∧ (length ip = 4%nat ∨ length ip = 16%nat).

Lemma wf_replicate n x : 0 ≤ x < 256 → wf_bytes (replicate n x).
Proof. intros Hx. by apply Forall_replicate. Qed.

Lemma parse_v4_fields_wf s v dl pd fs fields r :
  0 ≤ v < 256 → wf_bytes fields →
  parse_v4_fields s v dl pd fs fields = Some r → wf_bytes r ∧ length r = 4%nat.
Proof.
  revert v dl pd fs fields. induction s as [|c s IH]; intros v dl pd fs fields Hv Hf H;
    cbn [parse_v4_fields] in H.
  - case_match; [|done]. prop_of_bool. simplify_eq. rewrite length_reverse. cbn [length].
    split; [|lia]. apply wf_bytes_reverse, wf_bytes_cons. done.
  - repeat (case_match; try done); prop_of_bool; eapply IH in H; try done; try lia.
    by apply wf_bytes_cons.
Qed.

Lemma parse_ipv4_wf s r : parse_ipv4 s = Some r → wf_bytes r ∧ length r = 4%nat.
Proof. apply parse_v4_fields_wf; [lia|constructor]. Qed.

Lemma hex_group_bound s off acc n v :
  (off ≤ 4)%nat → 0 ≤ acc < 16 ^ Z.of_nat off →
  hex_group s off acc = Some (n, v) → (n ≤ 4)%nat ∧ 0 ≤ v < 65536.
Proof.
  revert off acc. induction s as [|c s IH]; intros off acc Hoff Hacc H; cbn [hex_group] in H.
  - simplify_eq. split; [done|].
    assert (16 ^ Z.of_nat n ≤ 65536) by (change 65536 with (16 ^ 4); apply Z.pow_le_mono_r; lia). lia.
  - destruct (is_hex c) eqn:Hc.
    + case_match; [done|]. unfold is_hex in Hc. prop_of_bool.
      pose proof (digit_val_range c). apply IH in H; [done|lia|].
      replace (Z.of_nat (S off)) with (Z.succ (Z.of_nat off)) by lia.
      rewrite Z.pow_succ_r by lia. lia.
    + simplify_eq. split; [done|].
      assert (16 ^ Z.of_nat n ≤ 65536) by (change 65536 with (16 ^ 4); apply Z.pow_le_mono_r; lia). lia.
Qed.

Definition ellipsis_ok (e : option nat) (ip : bytes) : Prop :=
  match e with Some k => (k ≤ length ip)%nat | None => True end.

Lemma expand_ellipsis_wf ip e r :
  wf_bytes ip → (length ip ≤ 16)%nat → ellipsis_ok e ip →
  expand_ellipsis ip e = Some r → wf_bytes r ∧ length r = 16%nat.
Proof.
  intros Hip Hlen He H. unfold expand_ellipsis in H.
  case_match; prop_of_bool; case_match; simplify_eq; [|split; [done|lia]].
  cbn in He. split.
  - rewrite !wf_bytes_app. split; [|split].
    + by apply Forall_take.
    + by apply wf_replicate.
    + by apply Forall_drop.
  - rewrite !length_app, length_replicate, length_take, length_drop. lia.
Qed.

Lemma v6_group_wf ip acc :
  wf_bytes ip → 0 ≤ acc < 65536 → wf_bytes (ip ++ [acc / 256; acc mod 256]).
Proof.
  intros Hip Hacc. apply wf_bytes_app. split; [done|].
  rewrite !wf_bytes_cons. pose proof (Z.mod_pos_bound acc 256 ltac:(lia)).
  assert (0 ≤ acc / 256 < 256) by (split; [apply Z.div_pos|apply Z.div_lt_upper_bound]; lia).
  split; [lia|split; [lia|constructor]].
Qed.

Lemma parse_v6_loop_wf fuel s ip e r :
  wf_bytes ip → (length ip + 2 * fuel ≤ 16)%nat → ellipsis_ok e ip →
  parse_v6_loop fuel s ip e = Some r → wf_bytes r ∧ length r = 16%nat.
Proof.
  revert s ip e. induction fuel as [|fuel IH]; intros s ip e Hip Hlen He H; cbn [parse_v6_loop] in H.
  { destruct s; [|done]. eapply expand_ellipsis_wf; [done|lia|done|done]. }
  destruct (hex_group s 0 0) as [[[|off] acc]|] eqn:Hg; [done| |done].
  apply hex_group_bound in Hg as [_ Hacc]; [|lia|lia].
  pose proof (v6_group_wf _ _ Hip Hacc) as Hip'.
  set (ip' := ip ++ [acc / 256; acc mod 256]) in *.
  assert (Hlen' : length ip' = (length ip + 2)%nat) by (unfold ip'; by rewrite length_app).
  assert (He' : ellipsis_ok e ip') by (destruct e; cbn in *; lia).
  assert (Hend : ∀ e', ellipsis_ok e' ip' → expand_ellipsis ip' e' = Some r →
                       wf_bytes r ∧ length r = 16%nat).
  { intros e' ??. apply (expand_ellipsis_wf ip' e'); [done|lia|done|done]. }
  assert (Hgo : ∀ s' e', ellipsis_ok e' ip' → parse_v6_loop fuel s' ip' e' = Some r →
                       wf_bytes r ∧ length r = 16%nat).
  { intros s' e' ??. apply (IH s' ip' e'); [done|lia|done|done]. }
  assert (Hself : ellipsis_ok (Some (length ip')) ip') by (cbn; lia).
  assert (Hdot : parse_ipv4 s = None ∨ (∃ f, parse_ipv4 s = Some f ∧ wf_bytes f ∧ length f = 4%nat)).
  { destruct (parse_ipv4 s) eqn:E; [right|by left]. eexists. split; [done|].
    by apply (parse_ipv4_wf s). }
  clearbody ip'.
  repeat (case_match; try done); simplify_eq; eauto.
  all: destruct Hdot as [?|(f & [= <-] & Hf & Hf4)]; [done|]; prop_of_bool.
  all: eapply expand_ellipsis_wf; [| | |done]; [by apply wf_bytes_app|rewrite length_app; lia|].
  all: cbn in *; rewrite ?length_app; lia.
Qed.

Lemma parse_ipv6_wf s r : parse_ipv6 s = Some r → wf_bytes r ∧ length r = 16%nat.
Proof.
  unfold parse_ipv6. repeat case_match; intros H'; simplify_eq.
  - split; [by apply wf_replicate|done].
  - eapply parse_v6_loop_wf; [..|done]; [constructor|cbn; lia|cbn; lia].
  - eapply parse_v6_loop_wf; [..|done]; [constructor|cbn; lia|done].
Qed.

Definition addr_wf (a : addr) : Prop :=
  match a with
  | AddrV4 b => wf_bytes b ∧ length b = 4%nat
  | AddrV6 b => wf_bytes b ∧ length b = 16%nat
  end.

Lemma parse_addr_wf s a : parse_addr s = Some a → addr_wf a.
Proof.
  unfold parse_addr. destruct (parse_addr_kind s); [|done].
  case_match; intros (b & Hb & ->)%fmap_Some; cbn.
  - eauto using parse_ipv4_wf.
  - eauto using parse_ipv6_wf.
Qed.

Lemma wf_v4_prefix : wf_bytes v4_in_v6_prefix.
Proof. repeat (constructor; [lia|]). constructor. Qed.

Lemma parse_ip_wf s ip : parse_ip s = Some ip → wf_bytes ip ∧ length ip = 16%nat.
Proof.
  unfold parse_ip. intros (a & Ha & ->)%fmap_Some. apply parse_addr_wf in Ha.
  destruct a as [b|b]; [|done]. destruct Ha as [Hb Hl].
  change (addr_as16 (AddrV4 b)) with (v4_in_v6_prefix ++ b).
  split; [|by rewrite length_app, Hl].
  apply wf_bytes_app. auto using wf_v4_prefix.
Qed.

Lemma ip_to4_wf ip v4 : wf_bytes ip → ip_to4 ip = Some v4 → wf_bytes v4 ∧ length v4 = 4%nat.
Proof.
  unfold ip_to4. intros Hip H. repeat (case_match; try done); prop_of_bool; simplify_eq; [done|].
  split; [by apply wf_bytes_drop|]. rewrite length_drop. lia.
Qed.

Lemma ip_to16_wf ip v6 : wf_bytes ip → ip_to16 ip = Some v6 → wf_bytes v6 ∧ length v6 = 16%nat.
Proof.
  unfold ip_to16. intros Hip H. repeat (case_match; try done); prop_of_bool; simplify_eq; [|done].
  split; [|rewrite length_app; cbn; lia].
  apply wf_bytes_app. auto using wf_v4_prefix.
Qed.

(** ** Masks *)

(** The bits of a canonical mask. *)
Definition mask_shape (ones total : nat) : list bool :=
  replicate ones true ++ replicate (total - ones) false.

Lemma length_mask_shape n t : (n ≤ t)%nat → length (mask_shape n t) = t.
Proof. unfold mask_shape. rewrite length_app, !length_replicate. lia. Qed.

Definition cidr_mask_ok (bits n : nat) : bool :=
  bool_decide (bits_of (cidr_mask n bits) = mask_shape n bits)
  && bool_decide (mask_size (cidr_mask n bits) = (n, bits))
  && bool_decide (length (cidr_mask n bits) = bits / 8)%nat
  && forallb (λ x, (0 <=? x) && (x <? 256))%bool (cidr_mask n bits).

Lemma cidr_mask_all :
  forallb (cidr_mask_ok 32) (seq 0 33) && forallb (cidr_mask_ok 128) (seq 0 129) = true.
Proof. vm_compute. reflexivity. Qed.

Lemma cidr_mask_spec bits n :
  (bits = 32 ∨ bits = 128)%nat → (n ≤ bits)%nat →
  bits_of (cidr_mask n bits) = mask_shape n bits ∧
  mask_size (cidr_mask n bits) = (n, bits) ∧
  length (cidr_mask n bits) = (bits / 8)%nat ∧
  wf_bytes (cidr_mask n bits).
Proof.
  intros Hb Hn. pose proof cidr_mask_all as H. apply andb_true_iff in H as [H4 H6].
  assert (Hok : cidr_mask_ok bits n = true).
  { destruct Hb as [-> | ->]; [eapply forallb_elem_of in H4; [exact H4|]|
                               eapply forallb_elem_of in H6; [exact H6|]]; apply elem_of_seq; lia. }
  unfold cidr_mask_ok in Hok. clear H4 H6.
  apply andb_true_iff in Hok as [[[H1 H2]%andb_true_iff H3]%andb_true_iff H4].
  apply bool_decide_eq_true in H1, H2, H3.
  repeat split; try done. apply Forall_forall. intros x Hx.
  rewrite forallb_elem_of in H4. specialize (H4 x Hx). prop_of_bool. lia.
Qed.

Lemma wf_bytes_and a m : wf_bytes a → wf_bytes m → wf_bytes (bytes_and a m).
Proof.
  intros Ha. revert m. induction Ha as [|x a Hx Ha IH]; intros [|y m] Hm; try constructor.
  - apply wf_bytes_cons in Hm as [Hy _]. split; [apply Z.land_nonneg; lia|].
    assert (Hl : Z.land x y = Z.land x y mod 2 ^ 8).
    { rewrite <- Z.land_ones by lia. rewrite <- Z.land_assoc. f_equal.
      rewrite Z.land_ones, Z.mod_small by lia. done. }
    rewrite Hl. apply (Z.mod_pos_bound _ (2 ^ 8)). lia.
  - apply wf_bytes_cons in Hm as [_ Hm]. by apply IH.
Qed.

Lemma bytes_and_length a m : length a = length m → length (bytes_and a m) = length a.
Proof. intros H. unfold bytes_and. rewrite length_zip_with. lia. Qed.

Lemma bytes_and_idemp a m : length a = length m → bytes_and (bytes_and a m) m = bytes_and a m.
Proof.
  revert m. induction a as [|x a IH]; intros [|y m] Hl; try done.
  unfold bytes_and in *. cbn. rewrite IH by (cbn in Hl; lia). f_equal.
  by rewrite <- Z.land_assoc, Z.land_diag.
Qed.

(** A successful [net.ParseCIDR]: the network is masked, the mask canonical. *)
Lemma parse_cidr_spec s net m :
  parse_cidr s = Some (net, m) →
  ∃ n bits, (bits = 32 ∨ bits = 128)%nat ∧ (n ≤ bits)%nat ∧ m = cidr_mask n bits ∧
    wf_bytes net ∧ length net = (bits / 8)%nat ∧ bytes_and net m = net.
Proof.
  unfold parse_cidr. intros H.
  destruct (cut_at s "/") as [[as_ ms]|]; [|done].
  destruct (parse_addr as_) as [a|] eqn:Ha; [|done].
  destruct (parse_uint ms 10 24) as [n|] eqn:Hn; [|done].
  case_match; [done|]. prop_of_bool. simplify_eq.
  apply parse_addr_wf in Ha. apply parse_uint_range in Hn; [|lia].
  set (bits := addr_bits a) in *.
  assert (Hb : (bits = 32 ∨ bits = 128)%nat) by (unfold bits; destruct a; cbn; lia).
  destruct (cidr_mask_spec bits (Z.to_nat n) Hb ltac:(lia)) as (_ & _ & Hl & Hwf).
  exists (Z.to_nat n), bits. destruct a as [b|b], Ha as [Hwb Hlb];
    (repeat split; [lia|lia|by apply wf_bytes_and| |]);
    [rewrite bytes_and_length|rewrite bytes_and_idemp|rewrite bytes_and_length|rewrite bytes_and_idemp];
    rewrite ?Hl, ?Hlb; done.
Qed.

(** ** Masks of whole bytes *)

Lemma land_255 v : 0 ≤ v < 256 → Z.land v 255 = v.
Proof. intros Hv. change 255 with (Z.ones 8). rewrite Z.land_ones, Z.mod_small by lia. done. Qed.

Lemma bytes_and_zeros m n : length m = n → bytes_and (replicate n 0) m = replicate n 0.
Proof.
  revert m. induction n as [|n IH]; intros [|y m] Hl; try done.
  cbn in Hl. change (Z.land 0 y :: bytes_and (replicate n 0) m = 0 :: replicate n 0).
  by rewrite IH by lia.
Qed.

Lemma bytes_and_zeros_r m n : length m = n → bytes_and m (replicate n 0) = replicate n 0.
Proof.
  revert m. induction n as [|n IH]; intros [|y m] Hl; try done.
  cbn in Hl. change (Z.land y 0 :: bytes_and m (replicate n 0) = 0 :: replicate n 0).
  by rewrite IH, Z.land_0_r by lia.
Qed.

Lemma bytes_and_ones m n : wf_bytes m → length m = n → bytes_and (replicate n 255) m = m.
Proof.
  revert m. induction n as [|n IH]; intros [|y m] Hm Hl; try done.
  apply wf_bytes_cons in Hm as [Hy Hm]. cbn in Hl.
  change (Z.land 255 y :: bytes_and (replicate n 255) m = y :: m).
  rewrite IH by (done || lia). by rewrite Z.land_comm, land_255.
Qed.

Lemma bytes_and_ones_r a n : wf_bytes a → length a = n → bytes_and a (replicate n 255) = a.
Proof.
  intros Ha <-. unfold bytes_and. induction Ha as [|x a Hx Ha IH]; [done|]. cbn [length replicate zip_with]. by rewrite land_255, IH.
Qed.
