(* ===== verification/Pattern.v ===== *)
(** * IP patterns: src/wafenginecore/ipset/pattern.go

    The single parser of the addresses, networks, wildcards and ranges an
    administrator may write, and the test of an address against a parsed pattern.
    [Match] is the test every other structure of the package has to agree with. *)
From S2P Require Import Prelude GoLib IpBits NetFacts.
Local Open Scope Z_scope.
Local Open Scope bool_scope.
Local Open Scope samwaf_scope.

Inductive PatternKind := KindInvalid | KindSingle | KindCIDR | KindWildcard | KindRange.

#[export] Instance PatternKind_eq_dec : EqDecision PatternKind.
Proof. solve_decision. Defined.

Record Pattern := mkPattern {
  Kind : PatternKind;
  Width : nat;
  Value : bytes;
  Mask : bytes;
  End : bytes;
  Prefix : Z;
  Raw : gostr;
}.

(** One constructor per error the parser returns. *)
Inductive pattern_error :=
| ErrEmpty | ErrNotIP | ErrNotCIDR | ErrCIDRMask
| ErrRangeEnds | ErrRangeFormat | ErrRangeFamily | ErrRangeReversed
| ErrWildSlash | ErrWild4Segments | ErrWildPartial | ErrWild4Zero | ErrWild4Number
| ErrWild6Compressed | ErrWild6Segments | ErrWild6Embedded | ErrWild6Number.

#[export] Instance pattern_error_eq_dec : EqDecision pattern_error.
Proof. solve_decision. Defined.

Module Parse.

Definition normalizeIP (ip : bytes) : bytes * nat :=
  match ip_to4 ip with
  | Some v4 => (v4, 4%nat)
  | None => (default [] (ip_to16 ip), 16%nat)
  end.

(** The bits of a mask, most significant first, byte by byte. *)
Definition byte_bits (b : Z) : list bool :=
  map (λ i, Z.land (Z.shiftr b (Z.of_nat i)) 1 =? 1) [7;6;5;4;3;2;1;0]%nat.

Fixpoint prefix_len_loop (bits : list bool) (prefix : Z) (seenZero : bool) : Z :=
  match bits with
  | [] => prefix
  | true :: bits' => if seenZero then -1 else prefix_len_loop bits' (prefix + 1) seenZero
  | false :: bits' => prefix_len_loop bits' prefix true
  end.
Definition maskPrefixLen (mask : bytes) : Z :=
  prefix_len_loop (concat (map byte_bits mask)) 0 false.

Definition parseSingle (s : gostr) : result pattern_error Pattern :=
  match parse_ip s with
  | None => Err ErrNotIP
  | Some ip =>
      let '(value, width) := normalizeIP ip in
      Ok (mkPattern KindSingle width value (replicate width 255) []
            (Z.of_nat width * 8) s)
  end.

Definition parseCIDR (s : gostr) : result pattern_error Pattern :=
  match parse_cidr s with
  | None => Err ErrNotCIDR
  | Some (netip, netmask) =>
      let '(ones, bits) := mask_size netmask in
      if (bits =? 0)%nat then Err ErrCIDRMask
      else
        let width := (bits / 8)%nat in
        if (width =? 4)%nat then
          match ip_to4 netip with
          | None => Err ErrNotCIDR
          | Some v4 => Ok (mkPattern KindCIDR width v4 netmask [] (Z.of_nat ones) s)
          end
        else Ok (mkPattern KindCIDR width (default [] (ip_to16 netip)) netmask []
                   (Z.of_nat ones) s)
  end.

Definition parseRange (s : gostr) : result pattern_error Pattern :=
  match cut_at s "-"%char with
  | None => Err ErrRangeFormat   (* unreachable: the caller saw a '-' *)
  | Some (p0, p1) =>
      let left := trim_space p0 in
      let right := trim_space p1 in
      if contains_any left $"*/" || contains_any right $"*/" then Err ErrRangeEnds
      else
        match parse_ip left, parse_ip right with
        | Some ipA, Some ipB =>
            let '(startVal, startWidth) := normalizeIP ipA in
            let '(endVal, endWidth) := normalizeIP ipB in
            if negb (startWidth =? endWidth)%nat then Err ErrRangeFamily
            else
              match bytes_compare startVal endVal with
              | Gt => Err ErrRangeReversed
              | Eq => Ok (mkPattern KindSingle startWidth startVal (replicate startWidth 255) []
                            (Z.of_nat startWidth * 8) s)
              | Lt => Ok (mkPattern KindRange startWidth startVal [] endVal (-1) s)
              end
        | _, _ => Err ErrRangeFormat
        end
  end.

(** One segment of an IPv4 wildcard: its value and mask byte. *)
Definition wild4_segment (seg : gostr) : result pattern_error (Z * Z) :=
  if bool_decide (seg = $"*") then Ok (0, 0)
  else if contains seg $"*" then Err ErrWildPartial
  else if (1 <? length seg)%nat && has_prefix seg $"0" then Err ErrWild4Zero
  else match parse_uint seg 10 8 with
       | None => Err ErrWild4Number
       | Some v => Ok (v, 255)
       end.

Fixpoint wild4_segments (segs : list gostr) : result pattern_error (bytes * bytes) :=
  match segs with
  | [] => Ok ([], [])
  | seg :: segs' =>
      let? (v, m) := wild4_segment seg in
      let? (vs, ms) := wild4_segments segs' in
      Ok (v :: vs, m :: ms)
  end.

Definition parseWildcardV4 (s : gostr) : result pattern_error Pattern :=
  let segs := split s "."%char in
  if negb (length segs =? 4)%nat then Err ErrWild4Segments
  else
    let? (value, mask) := wild4_segments segs in
    Ok (mkPattern KindWildcard 4 value mask [] (maskPrefixLen mask) s).

(** One segment of an IPv6 wildcard: two value bytes and two mask bytes. *)
Definition wild6_segment (seg : gostr) : result pattern_error (bytes * bytes) :=
  if bool_decide (seg = $"*") then Ok ([0; 0], [0; 0])
  else if contains seg $"*" then Err ErrWildPartial
  else if contains seg $"." then Err ErrWild6Embedded
  else if (length seg =? 0)%nat || (4 <? length seg)%nat then Err ErrWild6Number
  else match parse_uint seg 16 16 with
       | None => Err ErrWild6Number
       | Some v => Ok ([Z.shiftr v 8; v mod 256], [255; 255])
       end.

Fixpoint wild6_segments (segs : list gostr) : result pattern_error (bytes * bytes) :=
  match segs with
  | [] => Ok ([], [])
  | seg :: segs' =>
      let? (v, m) := wild6_segment seg in
      let? (vs, ms) := wild6_segments segs' in
      Ok (v ++ vs, m ++ ms)
  end.

Definition parseWildcardV6 (s : gostr) : result pattern_error Pattern :=
  if contains s $"::" then Err ErrWild6Compressed
  else
    let segs := split s ":"%char in
    if negb (length segs =? 8)%nat then Err ErrWild6Segments
    else
      let? (value, mask) := wild6_segments segs in
      Ok (mkPattern KindWildcard 16 value mask [] (maskPrefixLen mask) s).

Definition parseWildcard (s : gostr) : result pattern_error Pattern :=
  if contains s $"/" then Err ErrWildSlash
  else if contains s $":" then parseWildcardV6 s
  else parseWildcardV4 s.

Definition ParsePattern (raw : gostr) : result pattern_error Pattern :=
  let s := trim_space raw in
  match s with
  | [] => Err ErrEmpty
  | _ =>
      if contains s $"-" then parseRange s
      else if contains s $"*" then parseWildcard s
      else if contains s $"/" then parseCIDR s
      else parseSingle s
  end.

Definition ParsePatternLenient (raw : gostr) : result pattern_error Pattern :=
  match ParsePattern raw with
  | Err ErrRangeReversed =>
      match cut_at (trim_space raw) "-"%char with
      | Some (p0, p1) => ParsePattern (trim_space p1 ++ $"-" ++ trim_space p0)
      | None => Err ErrRangeReversed
      end
  | r => r
  end.

Definition IsValidPattern (raw : gostr) : bool := is_ok (ParsePattern raw).

End Parse.
Import Parse.

Definition patternCoversWholeSpace (p : Pattern) : bool :=
  match Kind p with
  | KindWildcard => Prefix p =? 0
  | KindRange => forallb (Z.eqb 0) (Value p) && forallb (Z.eqb 255) (End p)
  | _ => false
  end.

Definition IsCatchAllWildcard (raw : gostr) : bool :=
  match ParsePattern raw with
  | Err _ => false
  | Ok p => patternCoversWholeSpace p
  end.

Definition IsBlockAllPattern (raw : gostr) : bool :=
  match ParsePattern raw with
  | Err _ => false
  | Ok p =>
      if bool_decide (Kind p = KindCIDR) && (Prefix p =? 0) then true
      else patternCoversWholeSpace p
  end.

(** The loop over the bytes shared by CIDR and wildcard patterns. *)
Fixpoint masked_eq (n : nat) (b mask value : bytes) : bool :=
  match n with
  | O => true
  | S n' =>
      match b, mask, value with
      | x :: b', m :: mask', v :: value' => (Z.land x m =? v) && masked_eq n' b' mask' value'
      | _, _, _ => false
      end
  end.

(** [Match] on the bytes of the address's own family. *)
Definition match_bytes (p : Pattern) (b : bytes) : bool :=
  match Kind p with
  | KindSingle => bytes_equal b (Value p)
  | KindCIDR | KindWildcard => masked_eq (Width p) b (Mask p) (Value p)
  | KindRange =>
      negb (bool_decide (bytes_compare b (Value p) = Lt))
      && negb (bool_decide (bytes_compare b (End p) = Gt))
  | KindInvalid => false
  end.

Definition Match (p : Pattern) (ip : bytes) : bool :=
  if bool_decide (Kind p = KindInvalid) then false
  else match ip_to4 ip with
       | Some v4 => if negb (Width p =? 4)%nat then false else match_bytes p v4
       | None =>
           match ip_to16 ip with
           | None => false
           | Some v6 => if negb (Width p =? 16)%nat then false else match_bytes p v6
           end
       end.

(** ** Masks as bit strings *)

Lemma byte_bits_spec b : byte_bits b = bits_of_byte b.
Proof.
  unfold byte_bits, bits_of_byte. cbn [map]. by rewrite !land_1_testbit by lia.
Qed.

Lemma prefix_len_loop_seen l p r : prefix_len_loop l p true = r →
  (r = -1 ∧ true ∈ l) ∨ (r = p ∧ l = replicate (length l) false).
Proof.
  induction l as [|[] l IH]; cbn; intros H; [by right|left; split; [done|set_solver]|].
  destruct (IH H) as [[? ?]|[? Hl]]; [left; split; [done|set_solver]|right]. by rewrite <- Hl.
Qed.

Lemma prefix_len_loop_spec l p r : prefix_len_loop l p false = r →
  (r = -1 ∧ true ∈ l) ∨ ∃ n, (n ≤ length l)%nat ∧ r = p + Z.of_nat n ∧ l = mask_shape n (length l).
Proof.
  revert p. induction l as [|[] l IH]; cbn; intros p H.
  - right. exists 0%nat. split; [lia|split; [lia|done]].
  - destruct (IH _ H) as [[? ?]|(n & Hn & Hr & Hl)]; [left; split; [done|set_solver]|right].
    exists (S n). split; [lia|split; [lia|]]. unfold mask_shape in *. cbn. by rewrite <- Hl.
  - apply prefix_len_loop_seen in H as [[? ?]|[? Hl]]; [left; split; [done|set_solver]|right].
    exists 0%nat. split; [lia|split; [lia|]]. unfold mask_shape. cbn. by rewrite <- Hl.
Qed.

(** What a non-negative [Prefix] says: the mask is that many ones, then zeros. *)
Lemma maskPrefixLen_spec mask r :
  maskPrefixLen mask = r →
  (r = -1 ∧ true ∈ bits_of mask) ∨ ∃ n, (n ≤ 8 * length mask)%nat ∧ r = Z.of_nat n ∧
                bits_of mask = mask_shape n (8 * length mask).
Proof.
  unfold maskPrefixLen. intros H.
  assert (Hm : map byte_bits mask = map bits_of_byte mask).
  { apply map_ext. apply byte_bits_spec. }
  rewrite Hm in H. fold (bits_of mask) in H.
  apply prefix_len_loop_spec in H. rewrite length_bits_of in H.
  destruct H as [?|(n & ? & ? & ?)]; [by left|right]. exists n. auto.
Qed.

Lemma masked_eq_and n b m v :
  length b = n → length m = n → length v = n →
  masked_eq n b m v = bool_decide (bytes_and b m = v).
Proof.
  revert b m v. induction n as [|n IH]; intros [|x b] [|y m] [|z v] Hb Hm Hv; try done.
  cbn [masked_eq]. rewrite IH by (cbn in *; lia).
  change (bytes_and (x :: b) (y :: m)) with (Z.land x y :: bytes_and b m).
  apply eq_bool_prop_intro. rewrite Is_true_true, andb_true_iff, Z.eqb_eq, bool_decide_eq_true, bool_decide_spec.
  split; [by intros [-> ->]|by intros [= -> ->]].
Qed.

Lemma zip_andb_shape l n :
  (n ≤ length l)%nat →
  zip_with andb l (mask_shape n (length l)) = take n l ++ replicate (length l - n) false.
Proof.
  unfold mask_shape. revert n. induction l as [|b l IH]; intros n Hn.
  - cbn in Hn. by replace n with 0%nat by lia.
  - destruct n as [|n]; cbn.
    + specialize (IH 0%nat ltac:(lia)). rewrite Nat.sub_0_r in IH. cbn in IH.
      by rewrite andb_false_r, IH.
    + rewrite andb_true_r. f_equal. apply IH. cbn in Hn. lia.
Qed.

(** A canonical mask compares exactly the leading bits. *)
Lemma masked_eq_agree b m v n :
  wf_bytes b → wf_bytes m → wf_bytes v →
  length m = length b → length v = length b →
  (n ≤ 8 * length b)%nat → bits_of m = mask_shape n (8 * length b) →
  bytes_and v m = v →
  masked_eq (length b) b m v = agree n v b.
Proof.
  intros Hb Hm Hv Hlm Hlv Hn Hshape Hmask.
  rewrite masked_eq_and by done. unfold agree. apply bool_decide_ext.
  assert (Hz : ∀ x, length x = length b →
    bits_of (bytes_and x m) = take n (bits_of x) ++ replicate (8 * length b - n) false).
  { intros x Hx. rewrite bits_of_and, Hshape by lia.
    replace (8 * length b)%nat with (length (bits_of x)) by (rewrite length_bits_of; lia).
    apply zip_andb_shape. rewrite length_bits_of. lia. }
  assert (Hlt : ∀ x, length x = length b → length (take n (bits_of x)) = n).
  { intros x Hx. rewrite length_take, length_bits_of. lia. }
  split.
  - intros <-. rewrite Hz by done. by rewrite take_app_length' by (by rewrite Hlt).
  - intros Heq. rewrite <- Hmask. apply bits_of_inj; auto using wf_bytes_and.
    + rewrite !bytes_and_length by lia. done.
    + rewrite !Hz by lia. by rewrite Heq.
Qed.

(** ** What the parser guarantees *)

Definition mask_ok (p : Pattern) (n : nat) : Prop :=
  Prefix p = Z.of_nat n ∧ (n ≤ 8 * Width p)%nat ∧ bits_of (Mask p) = mask_shape n (8 * Width p).

Record wf_pattern (p : Pattern) : Prop := {
  wf_width : Width p = 4%nat ∨ Width p = 16%nat;
  wf_value : wf_bytes (Value p) ∧ length (Value p) = Width p;
  wf_kind : match Kind p with
            | KindInvalid => False
            | KindSingle => True
            | KindCIDR | KindWildcard =>
                wf_bytes (Mask p) ∧ length (Mask p) = Width p ∧
                bytes_and (Value p) (Mask p) = Value p ∧
                ((Kind p = KindWildcard ∧ Prefix p = -1 ∧ true ∈ bits_of (Mask p)) ∨ ∃ n, mask_ok p n)
            | KindRange => wf_bytes (End p) ∧ length (End p) = Width p ∧ val (Value p) < val (End p)
            end;
}.

Lemma normalizeIP_wf ip v w :
  wf_bytes ip → length ip = 16%nat → normalizeIP ip = (v, w) →
  wf_bytes v ∧ length v = w ∧ (w = 4%nat ∨ w = 16%nat).
Proof.
  unfold normalizeIP. intros Hip Hl H. destruct (ip_to4 ip) as [v4|] eqn:E; simplify_eq.
  - apply ip_to4_wf in E as [? ?]; auto.
  - unfold ip_to16. rewrite Hl. cbn. auto.
Qed.

Lemma parseSingle_wf s p : parseSingle s = Ok p → wf_pattern p.
Proof.
  unfold parseSingle. intros H. destruct (parse_ip s) as [ip|] eqn:E; [|done].
  apply parse_ip_wf in E as [Hip Hl]. destruct (normalizeIP ip) as [v w] eqn:En.
  apply normalizeIP_wf in En as (? & ? & ?); [|done..]. simplify_eq. by split.
Qed.

Lemma parseRange_wf s p : parseRange s = Ok p → wf_pattern p.
Proof.
  unfold parseRange. intros H. destruct (cut_at s _) as [[p0 p1]|]; [|done]. cbn zeta in H.
  case_match; [done|].
  destruct (parse_ip (trim_space p0)) as [a|] eqn:Ea; [|done].
  destruct (parse_ip (trim_space p1)) as [b|] eqn:Eb; [|done].
  apply parse_ip_wf in Ea as [Ha Hla]. apply parse_ip_wf in Eb as [Hb Hlb].
  destruct (normalizeIP a) as [va wa] eqn:Na. destruct (normalizeIP b) as [vb wb] eqn:Nb.
  apply normalizeIP_wf in Na as (? & ? & ?); [|done..].
  apply normalizeIP_wf in Nb as (? & ? & ?); [|done..].
  case_match; [done|]. prop_of_bool. subst wb.
  rewrite bytes_compare_val in H by (done || lia).
  destruct (Z.compare_spec (val va) (val vb)); simplify_eq; split; cbn; auto.
Qed.

Lemma parseCIDR_wf s p : parseCIDR s = Ok p → wf_pattern p.
Proof.
  unfold parseCIDR. intros H. destruct (parse_cidr s) as [[net m]|] eqn:E; [|done].
  apply parse_cidr_spec in E as (n & bits & Hbits & Hn & -> & Hwf & Hl & Hand).
  destruct (cidr_mask_spec bits n Hbits Hn) as (Hshape & Hsize & Hlm & Hwm).
  rewrite Hsize in H.
  assert (Hgo : ∀ v, v = net →
    wf_pattern (mkPattern KindCIDR (bits / 8) v (cidr_mask n bits) [] (Z.of_nat n) s)).
  { intros v ->. split; cbn [Kind Width Value Mask End Prefix Raw]; [|done|].
    - destruct Hbits as [-> | ->]; cbn; auto.
    - split; [done|]. split; [done|]. split; [done|]. right. exists n.
      unfold mask_ok. cbn [Width Prefix Mask].
      replace (8 * (bits / 8))%nat with bits by (destruct Hbits as [-> | ->]; done). auto. }
  destruct Hbits as [-> | ->]; cbn in H, Hl.
  - unfold ip_to4 in H. rewrite Hl in H. cbn in H. simplify_eq. by apply Hgo.
  - unfold ip_to16 in H. rewrite Hl in H. cbn in H. simplify_eq. by apply Hgo.
Qed.

Lemma wild4_segment_wf seg v m : wild4_segment seg = Ok (v, m) →
  (0 ≤ v < 256) ∧ ((v, m) = (0, 0) ∨ m = 255).
Proof.
  unfold wild4_segment. intros H. repeat (case_match; try done); simplify_eq.
  - split; [lia|by left].
  - apply parse_uint_range in H3; [|lia]. split; [lia|by right].
Qed.

Lemma wild4_segments_wf segs v m : wild4_segments segs = Ok (v, m) →
  wf_bytes v ∧ wf_bytes m ∧ length v = length segs ∧ length m = length segs ∧ bytes_and v m = v.
Proof.
  revert v m. induction segs as [|seg segs IH]; intros v m H; cbn in H; simplify_eq.
  - repeat split; constructor.
  - destruct (wild4_segment seg) as [[v0 m0]|] eqn:E; [|done].
    destruct (wild4_segments segs) as [[vs ms]|] eqn:Es; [|done]. simplify_eq.
    destruct (IH _ _ eq_refl) as (? & ? & ? & ? & Hand).
    apply wild4_segment_wf in E as [Hv Hm].
    assert (0 ≤ m0 < 256) by (destruct Hm as [[= -> ->]| ->]; lia).
    rewrite !wf_bytes_cons. cbn [length]. repeat split; try done; try lia.
    change (Z.land v0 m0 :: bytes_and vs ms = v0 :: vs). rewrite Hand. f_equal.
    destruct Hm as [[= -> ->]| ->]; [done|by apply land_255].
Qed.

Lemma wild6_segment_wf seg v m : wild6_segment seg = Ok (v, m) →
  wf_bytes v ∧ wf_bytes m ∧ length v = 2%nat ∧ length m = 2%nat ∧ bytes_and v m = v.
Proof.
  unfold wild6_segment. intros H. repeat (case_match; try done); simplify_eq.
  - rewrite !wf_bytes_cons. repeat split; try lia; constructor.
  - apply parse_uint_range in H4; [|lia].
    pose proof (Z.mod_pos_bound z 256 ltac:(lia)).
    assert (0 ≤ Z.shiftr z 8 < 256).
    { rewrite Z.shiftr_div_pow2 by lia. change (2 ^ 8) with 256. change (2 ^ 16) with 65536 in *.
      split; [apply Z.div_pos; lia|apply Z.div_lt_upper_bound; lia]. }
    rewrite !wf_bytes_cons. repeat split; try lia; try constructor.
    change ([Z.land (Z.shiftr z 8) 255; Z.land (z mod 256) 255] = [Z.shiftr z 8; z mod 256]).
    by rewrite !land_255.
Qed.

Lemma wild6_segments_wf segs v m : wild6_segments segs = Ok (v, m) →
  wf_bytes v ∧ wf_bytes m ∧ length v = (2 * length segs)%nat ∧ length m = (2 * length segs)%nat ∧
  bytes_and v m = v.
Proof.
  revert v m. induction segs as [|seg segs IH]; intros v m H; cbn in H; simplify_eq.
  - repeat split; constructor.
  - destruct (wild6_segment seg) as [[v0 m0]|] eqn:E; [|done].
    destruct (wild6_segments segs) as [[vs ms]|] eqn:Es; [|done]. simplify_eq.
    destruct (IH _ _ eq_refl) as (? & ? & ? & ? & Hand).
    apply wild6_segment_wf in E as (? & ? & ? & ? & Hand0).
    rewrite !wf_bytes_app, !length_app. cbn [length]. repeat split; try done; try lia.
    unfold bytes_and in *. rewrite zip_with_app by lia. by rewrite Hand0, Hand.
Qed.

Lemma wildcard_wf (w : nat) v m s :
  (w = 4 ∨ w = 16)%nat → wf_bytes v → wf_bytes m → length v = w → length m = w →
  bytes_and v m = v →
  wf_pattern (mkPattern KindWildcard w v m [] (maskPrefixLen m) s).
Proof.
  intros Hw Hv Hm Hlv Hlm Hand. split; cbn; [done|done|].
  repeat split; try done.
  destruct (maskPrefixLen_spec m _ eq_refl) as [[??]|(n & ? & ? & ?)]; [by left|right].
  exists n. unfold mask_ok. cbn [Prefix Width Mask]. by rewrite <- Hlm.
Qed.

Lemma parseWildcard_wf s p : parseWildcard s = Ok p → wf_pattern p.
Proof.
  unfold parseWildcard, parseWildcardV4, parseWildcardV6. intros H.
  repeat case_match; prop_of_bool; simplify_eq.
  - match goal with E : wild6_segments _ = _ |- _ => apply wild6_segments_wf in E as (?&?&?&?&?) end.
    apply wildcard_wf; try done; lia.
  - match goal with E : wild4_segments _ = _ |- _ => apply wild4_segments_wf in E as (?&?&?&?&?) end.
    apply wildcard_wf; try done; lia.
Qed.

Lemma ParsePattern_wf raw p : ParsePattern raw = Ok p → wf_pattern p.
Proof.
  unfold ParsePattern. repeat case_match; try done;
    eauto using parseRange_wf, parseWildcard_wf, parseCIDR_wf, parseSingle_wf.
Qed.

Lemma ParsePatternLenient_wf raw p : ParsePatternLenient raw = Ok p → wf_pattern p.
Proof.
  unfold ParsePatternLenient. intros H.
  destruct (ParsePattern raw) as [q|[]] eqn:E; simplify_eq; eauto using ParsePattern_wf.
  case_match; [|done]. case_match; eauto using ParsePattern_wf.
Qed.

#[export] Hint Resolve ParsePattern_wf ParsePatternLenient_wf : samwaf.

(** ** Patterns that cover a whole address family *)

Lemma bits_of_zeros n : bits_of (replicate n 0) = replicate (8 * n) false.
Proof.
  induction n as [|n IH]; [done|]. cbn [replicate]. rewrite bits_of_cons, IH.
  by replace (8 * S n)%nat with (8 + 8 * n)%nat by lia.
Qed.

Lemma bits_of_ones n : bits_of (replicate n 255) = replicate (8 * n) true.
Proof.
  induction n as [|n IH]; [done|]. cbn [replicate]. rewrite bits_of_cons, IH.
  by replace (8 * S n)%nat with (8 + 8 * n)%nat by lia.
Qed.

Lemma val_zeros n : val (replicate n 0) = 0.
Proof.
  unfold val. rewrite bits_of_zeros. induction (8 * n)%nat as [|k IH]; [done|].
  cbn [replicate]. rewrite bval_cons, IH. done.
Qed.

Lemma val_ones n : val (replicate n 255) = 2 ^ (8 * Z.of_nat n) - 1.
Proof.
  unfold val. rewrite bits_of_ones. replace (8 * Z.of_nat n) with (Z.of_nat (8 * n)) by lia.
  induction (8 * n)%nat as [|k IH]; [done|].
  cbn [replicate]. rewrite bval_cons, IH, length_replicate.
  rewrite Nat2Z.inj_succ, Z.pow_succ_r by lia. cbn [Z.b2z]. lia.
Qed.

Lemma wf_bytes_replicate n x : 0 ≤ x < 256 → wf_bytes (replicate n x).
Proof. intros Hx. by apply Forall_replicate. Qed.

Lemma forallb_replicate (x : Z) b : forallb (Z.eqb x) b = true ↔ b = replicate (length b) x.
Proof.
  induction b as [|y b IH]; cbn; [done|]. rewrite andb_true_iff, IH, Z.eqb_eq.
  split; [by intros [-> <-]|]. intros [= -> Hb]. by split.
Qed.

(** A masked pattern accepts every address of its family exactly when its mask is
    all zeros. *)
Lemma masked_eq_whole n m v :
  wf_bytes m → length m = n → length v = n → bytes_and v m = v →
  (∀ b, wf_bytes b → length b = n → masked_eq n b m v = true) ↔ m = replicate n 0.
Proof.
  intros Hm Hlm Hlv Hand. split.
  - intros Hall.
    pose proof (Hall (replicate n 0) (wf_bytes_replicate n 0 ltac:(lia)) ltac:(by rewrite length_replicate)) as H0.
    pose proof (Hall (replicate n 255) (wf_bytes_replicate n 255 ltac:(lia)) ltac:(by rewrite length_replicate)) as H1.
    rewrite masked_eq_and in H0, H1 by (rewrite ?length_replicate; done).
    apply bool_decide_eq_true in H0, H1.
    rewrite bytes_and_zeros in H0 by done. rewrite bytes_and_ones in H1 by done. by rewrite H1.
  - intros -> b Hb Hl. rewrite masked_eq_and by (rewrite ?length_replicate; done).
    rewrite bytes_and_zeros_r in Hand |- * by done. by apply bool_decide_eq_true.
Qed.

Definition covers_family (p : Pattern) : Prop :=
  ∀ b, wf_bytes b → length b = Width p → match_bytes p b = true.

Lemma covers_masked p :
  wf_pattern p → Kind p = KindCIDR ∨ Kind p = KindWildcard → covers_family p ↔ Prefix p = 0.
Proof.
  intros Hp Hk. destruct (wf_value _ Hp) as [Hv Hlv]. pose proof (wf_kind _ Hp) as Hw.
  pose proof (wf_width _ Hp) as Hwd.
  assert (Hw' : wf_bytes (Mask p) ∧ length (Mask p) = Width p ∧ bytes_and (Value p) (Mask p) = Value p ∧
    ((Kind p = KindWildcard ∧ Prefix p = -1 ∧ true ∈ bits_of (Mask p)) ∨ ∃ n, mask_ok p n))
    by (destruct Hk as [Hk|Hk]; rewrite Hk in Hw |- *; done).
  destruct Hw' as (Hm & Hlm & Hand & Hpre). unfold covers_family, match_bytes.
  trans (Mask p = replicate (Width p) 0).
  { rewrite <- (masked_eq_whole (Width p) (Mask p) (Value p)) by done. destruct Hk as [Hk|Hk]; by rewrite Hk. }
  destruct Hpre as [(_ & HP & Htrue)|(n & HP & Hn & Hshape)]; rewrite HP.
  - split; [|done]. intros H. rewrite H, bits_of_zeros in Htrue.
    by apply elem_of_replicate in Htrue as [Htrue _].
  - split.
    + intros H. rewrite H, bits_of_zeros in Hshape. destruct n as [|n]; [done|].
      destruct Hwd as [Hwd|Hwd]; rewrite Hwd in Hshape; done.
    + intros H. apply bits_of_inj; [done|by apply wf_bytes_replicate|by rewrite length_replicate|].
      rewrite bits_of_zeros, Hshape. replace n with 0%nat by lia. unfold mask_shape.
      by rewrite Nat.sub_0_r.
Qed.

Lemma covers_range p :
  wf_pattern p → Kind p = KindRange → covers_family p ↔ patternCoversWholeSpace p = true.
Proof.
  intros Hp Hk. destruct (wf_value _ Hp) as [Hv Hlv]. pose proof (wf_kind _ Hp) as Hw.
  rewrite Hk in Hw. destruct Hw as (He & Hle & _).
  unfold covers_family, match_bytes, patternCoversWholeSpace. rewrite Hk.
  rewrite andb_true_iff, !forallb_replicate, Hlv, Hle.
  assert (Hin : ∀ b, wf_bytes b → length b = Width p →
    negb (bool_decide (bytes_compare b (Value p) = Lt)) && negb (bool_decide (bytes_compare b (End p) = Gt))
    = true ↔ val (Value p) ≤ val b ≤ val (End p)).
  { intros b Hb Hl. rewrite !bytes_compare_val by (done || lia).
    by rewrite andb_true_iff, !negb_true_iff, !bool_decide_eq_false, Z.compare_ge_iff, Z.compare_le_iff. }
  split.
  - intros Hall.
    pose proof (Hall (replicate (Width p) 0) (wf_bytes_replicate _ 0 ltac:(lia)) ltac:(by rewrite length_replicate)) as H0.
    pose proof (Hall (replicate (Width p) 255) (wf_bytes_replicate _ 255 ltac:(lia)) ltac:(by rewrite length_replicate)) as H1.
    apply Hin in H0; [|by apply wf_bytes_replicate|by rewrite length_replicate].
    apply Hin in H1; [|by apply wf_bytes_replicate|by rewrite length_replicate].
    rewrite val_zeros in H0. rewrite val_ones in H1.
    pose proof (val_bound (Value p)). pose proof (val_bound (End p)) as Hb. rewrite Hle in Hb.
    split; apply val_inj; try done; try (by apply wf_bytes_replicate); rewrite ?length_replicate; try done;
      rewrite ?val_zeros, ?val_ones; lia.
  - intros [Hz Ho] b Hb Hl. apply Hin; [done..|]. rewrite Hz, Ho, val_zeros, val_ones.
    pose proof (val_bound b) as Hb'. rewrite Hl in Hb'. lia.
Qed.

Lemma covers_single p : wf_pattern p → Kind p = KindSingle → ¬ covers_family p.
Proof.
  intros Hp Hk Hall. unfold covers_family, match_bytes in Hall. rewrite Hk in Hall.
  assert (H : ∀ x, 0 ≤ x < 256 → replicate (Width p) x = Value p).
  { intros x Hx. specialize (Hall (replicate (Width p) x)).
    unfold bytes_equal in Hall. rewrite bool_decide_eq_true in Hall.
    apply Hall; [by apply wf_bytes_replicate|by rewrite length_replicate]. }
  pose proof (H 0 ltac:(lia)) as H0. pose proof (H 1 ltac:(lia)) as H1. rewrite <- H0 in H1.
  destruct (wf_width _ Hp) as [Hw|Hw]; rewrite Hw in H1; done.
Qed.

(** the guard of the ban lists.  [IsBlockAllPattern] rejects exactly the
    accepted texts whose pattern matches every address of its family, however the
    text spells it (CIDR, wildcard or range); [IsCatchAllWildcard] the same, explicit
    CIDR excepted. *)
Theorem IsBlockAllPattern_covers raw p :
  ParsePattern raw = Ok p →
  (IsBlockAllPattern raw = true ↔ covers_family p) ∧
  (IsCatchAllWildcard raw = true ↔ covers_family p ∧ Kind p ≠ KindCIDR).
Proof.
  intros E. unfold IsBlockAllPattern, IsCatchAllWildcard. rewrite E.
  apply ParsePattern_wf in E. pose proof (wf_kind _ E) as Hw.
  destruct (Kind p) eqn:Hk; [done|..]; cbn [bool_decide].
  - pose proof (covers_single p E Hk). unfold patternCoversWholeSpace. rewrite Hk. intuition (done || congruence).
  - rewrite (covers_masked p) by auto. unfold patternCoversWholeSpace. rewrite Hk. cbn.
    destruct (Z.eqb_spec (Prefix p) 0); intuition (done || congruence).
  - rewrite (covers_masked p) by auto. unfold patternCoversWholeSpace. rewrite Hk. cbn.
    rewrite (bool_decide_eq_false_2 (KindWildcard = KindCIDR)) by done. cbn. rewrite Z.eqb_eq. intuition (done || congruence).
  - rewrite (covers_range p) by auto. cbn. intuition (done || congruence).
Qed.

Lemma IsBlockAllPattern_covers_witness :
  ∃ p, ParsePattern $" ::-ffff:ffff:ffff:ffff:ffff:ffff:ffff:ffff " = Ok p ∧ covers_family p.
Proof.
  eexists. split; [vm_compute; reflexivity|].
  apply (IsBlockAllPattern_covers $" ::-ffff:ffff:ffff:ffff:ffff:ffff:ffff:ffff ");
    vm_compute; reflexivity.
Defined.

(** ** The parse cache of the rule engine *)

Definition patternCacheMax : Z := 4096.

(** [patternCache] and [patternCacheN]. *)
Record cache := mkCache { patternCache : gmap gostr Pattern; patternCacheN : Z }.

Definition lookupPattern (c : cache) (raw : gostr) : cache * Pattern :=
  match patternCache c !! raw with
  | Some v => (c, v)
  | None =>
      let p := match ParsePatternLenient raw with
               | Ok p => p
               | Err _ => mkPattern KindInvalid 0 [] [] [] 0 raw
               end in
      if patternCacheN c <? patternCacheMax
      then match patternCache c !! raw with
           | None => (mkCache (<[raw := p]> (patternCache c)) (patternCacheN c + 1), p)
           | Some _ => (c, p)
           end
      else (c, p)
  end.

Definition MatchPatternCached (c : cache) (ip : bytes) (raw : gostr) : cache * bool :=
  let (c', p) := lookupPattern c (trim_space raw) in (c', Match p ip).

Definition MatchPatternStrCached (c : cache) (ipStr raw : gostr) : cache * bool :=
  match parse_ip (trim_space ipStr) with
  | None => (c, false)
  | Some ip => let (c', p) := lookupPattern c (trim_space raw) in (c', Match p ip)
  end.

(** What a text matches without a cache. *)
Definition match_uncached (ip : bytes) (raw : gostr) : bool :=
  match ParsePatternLenient (trim_space raw) with Ok p => Match p ip | Err _ => false end.

Inductive cache_step : cache → cache → Prop :=
| step_cached c ip raw : cache_step c (MatchPatternCached c ip raw).1
| step_str_cached c ip raw : cache_step c (MatchPatternStrCached c ip raw).1.

Definition cache_reachable (c : cache) : Prop := rtc cache_step (mkCache ∅ 0) c.

Record cache_ok (c : cache) : Prop := {
  cache_faithful : ∀ raw p, patternCache c !! raw = Some p →
    match ParsePatternLenient raw with Ok q => p = q | Err _ => Kind p = KindInvalid end;
  cache_count : patternCacheN c = Z.of_nat (size (patternCache c));
  cache_bound : patternCacheN c ≤ patternCacheMax;
}.

Lemma lookupPattern_ok c raw :
  cache_ok c →
  cache_ok (lookupPattern c raw).1 ∧
  match ParsePatternLenient raw with
  | Ok q => (lookupPattern c raw).2 = q
  | Err _ => Kind (lookupPattern c raw).2 = KindInvalid
  end.
Proof.
  intros [Hf Hc Hb]. unfold lookupPattern.
  destruct (patternCache c !! raw) as [p|] eqn:E; cbn.
  { split; [by split|]. apply Hf in E. by destruct (ParsePatternLenient raw). }
  case_match eqn:Hlt; cbn; prop_of_bool; split; try (by split); try (by destruct (ParsePatternLenient raw)).
  split; cbn.
  - intros raw' p'. destruct (decide (raw = raw')) as [<-|Hne].
    + rewrite lookup_insert_eq. intros [= <-]. by destruct (ParsePatternLenient raw).
    + rewrite lookup_insert_ne by done. apply Hf.
  - rewrite map_size_insert_None by done. lia.
  - lia.
Qed.

Lemma cache_reachable_ok c : cache_reachable c → cache_ok c.
Proof.
  intros Hr. assert (H0 : cache_ok (mkCache ∅ 0)) by (split; cbn; [done|by rewrite map_size_empty|done]).
  revert H0. induction Hr as [|c c' c'' Hs _ IH]; [done|]. intros Hc. apply IH. clear IH.
  inv Hs; unfold MatchPatternCached, MatchPatternStrCached;
    try (destruct (parse_ip _); [|done]);
    pose proof (lookupPattern_ok c (trim_space raw) Hc) as [H _];
    by destruct (lookupPattern c (trim_space raw)).
Qed.

(** the cache is transparent and bounded.  After any sequence of cached matches,
    a cached match answers what parsing the text afresh would, and the cache holds at
    most 4096 texts. *)
Theorem MatchPatternCached_transparent c ip raw :
  cache_reachable c →
  (MatchPatternCached c ip raw).2 = match_uncached ip raw ∧
  (size (patternCache (MatchPatternCached c ip raw).1) ≤ 4096)%nat.
Proof.
  intros Hc%cache_reachable_ok. unfold MatchPatternCached, match_uncached.
  pose proof (lookupPattern_ok c (trim_space raw) Hc) as [Hok Hp].
  destruct (lookupPattern c (trim_space raw)) as [c' p]. cbn in *. split.
  - destruct (ParsePatternLenient (trim_space raw)); [by subst|].
    unfold Match. by rewrite Hp.
  - pose proof (cache_count _ Hok). pose proof (cache_bound _ Hok).
    unfold patternCacheMax in *. lia.
Qed.

Lemma MatchPatternCached_transparent_witness :
  (MatchPatternCached (MatchPatternCached (mkCache ∅ 0) [10;1;2;3] $"10.*.2.*").1 [10;1;2;3] $" 10.*.2.* ").2 = true.
Proof.
  rewrite (proj1 (MatchPatternCached_transparent _ _ _ (rtc_once _ _ (step_cached (mkCache ∅ 0) [10;1;2;3] $"10.*.2.*")))).
  vm_compute. reflexivity.
Defined.
