(* ===== verification/CidrTrie.v ===== *)
(** * The CIDR prefix tree: src/wafenginecore/ipset/cidrtrie.go

    [Nil] is the nil pointer, [Node c0 c1 t] a node with its two children and its
    terminal flag.  [bit_insert] and [bit_contains] are the loops of [insert] and
    [contains], one step per bit read. *)
From S2P Require Import Prelude GoLib IpBits.

Inductive cidrNode :=
| Nil
| Node (c0 c1 : cidrNode) (terminal : bool).

#[export] Instance cidrNode_eq_dec : EqDecision cidrNode.
Proof. solve_decision. Defined.

Definition newNode : cidrNode := Node Nil Nil false.
Definition newCIDRTrie : cidrNode := newNode.

(** The descent: stop at a terminal node (a shorter prefix covers this one),
    create the missing children, mark the last node and drop its children. *)
Fixpoint bit_insert (node : cidrNode) (bits : list bool) : cidrNode :=
  match bits with
  | [] => Node Nil Nil true
  | bit :: bits' =>
      match node with
      | Nil =>
          let child := bit_insert newNode bits' in
          if bit then Node Nil child false else Node child Nil false
      | Node c0 c1 true => node
      | Node c0 c1 false =>
          if bit
          then Node c0 (bit_insert (if decide (c1 = Nil) then newNode else c1) bits') false
          else Node (bit_insert (if decide (c0 = Nil) then newNode else c0) bits') c1 false
      end
  end.

Definition insert (t : cidrNode) (ipBytes : bytes) (prefixLen : Z) : cidrNode :=
  if (prefixLen <=? 0)%Z then Node Nil Nil true
  else bit_insert t (ip_bits ipBytes (Z.to_nat prefixLen)).

Fixpoint bit_contains (node : cidrNode) (bits : list bool) : bool :=
  match node with
  | Nil => false
  | Node c0 c1 terminal =>
      if terminal then true
      else match bits with
           | [] => false
           | bit :: bits' => bit_contains (if bit then c1 else c0) bits'
           end
  end.

Definition contains (t : cidrNode) (ipBytes : bytes) (bitLen : nat) : bool :=
  bit_contains t (ip_bits ipBytes bitLen).

(** ** Well-formedness: a terminal node has no children *)

Fixpoint compact (node : cidrNode) : Prop :=
  match node with
  | Nil => True
  | Node c0 c1 terminal =>
      (terminal = true → c0 = Nil ∧ c1 = Nil) ∧ compact c0 ∧ compact c1
  end.

Lemma bit_insert_compact bits t : compact t → compact (bit_insert t bits).
Proof.
  revert t. induction bits as [|bit bits IH]; intros t Ht; [done|].
  destruct t as [|c0 c1 []]; cbn.
  - assert (compact (bit_insert newNode bits)) by (apply IH; done).
    by destruct bit.
  - done.
  - destruct Ht as (_ & H0 & H1).
    destruct bit; (split; [done|split]); try done; apply IH;
      match goal with |- compact (if decide (?c = Nil) then _ else _) => by destruct (decide (c = Nil)) end.
Qed.

(** ** Membership *)

Fixpoint prefixb (p l : list bool) : bool :=
  match p, l with
  | [], _ => true
  | x :: p', y :: l' => Bool.eqb x y && prefixb p' l'
  | _ :: _, [] => false
  end.

Lemma prefixb_take p l : prefixb p l = true ↔ take (length p) l = p.
Proof.
  revert l. induction p as [|x p IH]; intros [|y l]; cbn; try done.
  rewrite andb_true_iff, eqb_true_iff, IH.
  split; [by intros [-> ->]|by intros [= -> ->]].
Qed.

Lemma prefixb_take_eq n a b :
  n ≤ length a → n ≤ length b →
  prefixb (take n a) b = bool_decide (take n a = take n b).
Proof.
  intros Ha Hb. apply eq_bool_prop_intro.
  rewrite bool_decide_spec, Is_true_true, prefixb_take, length_take, Nat.min_l by done.
  naive_solver.
Qed.

Lemma bit_contains_terminal bits t c0 c1 :
  t = Node c0 c1 true → bit_contains t bits = true.
Proof. intros ->. by destruct bits. Qed.

(** The key fact: inserting adds exactly the addresses that start with the prefix. *)
Lemma bit_contains_insert bits t a :
  t ≠ Nil → bit_contains (bit_insert t bits) a = bit_contains t a || prefixb bits a.
Proof.
  revert t a. induction bits as [|bit bits IH]; intros t a Ht.
  - destruct t; [done|]. cbn. destruct a; by rewrite orb_true_r.
  - destruct t as [|c0 c1 []]; [done|by destruct a|].
    destruct a as [|x a]; [by destruct bit|].
    cbn [bit_insert prefixb].
    assert (Hc : ∀ c l, bit_contains (if decide (c = Nil) then newNode else c) l = bit_contains c l).
    { intros c l. destruct (decide (c = Nil)) as [->|]; [by destruct l as [|[] l]|done]. }
    destruct bit, x; cbn [bit_contains Bool.eqb andb]; rewrite ?orb_false_r; try done;
      (rewrite IH by (by case_decide)); by rewrite Hc.
Qed.

Lemma insert_not_nil t ip n : t ≠ Nil → insert t ip n ≠ Nil.
Proof.
  intros Ht. unfold insert. case_match; [done|].
  destruct (ip_bits ip _) as [|bit bits]; [done|].
  destruct t as [|c0 c1 []]; [done|done|]. cbn. by destruct bit.
Qed.

Lemma contains_insert t net n a bl :
  t ≠ Nil → length a = length net → (n ≤ Z.of_nat (8 * length net))%Z →
  bl = 8 * length a →
  contains (insert t net n) a bl = contains t a bl || agree (Z.to_nat n) net a.
Proof.
  intros Ht Hlen Hn ->. unfold contains, insert.
  rewrite !ip_bits_take. case_match; prop_of_bool.
  - replace (Z.to_nat n) with 0 by lia. cbn.
    destruct (take _ (bits_of a)); by rewrite orb_true_r.
  - rewrite bit_contains_insert by done. f_equal.
    rewrite (take_ge (bits_of a)) by (rewrite length_bits_of; lia).
    unfold agree. rewrite prefixb_take_eq; [done|rewrite length_bits_of; lia..].
Qed.

Lemma contains_new a bl : contains newCIDRTrie a bl = false.
Proof. unfold contains. by destruct (ip_bits a bl) as [|[] ?]. Qed.
