(* ===== verification/RangeCidr.v ===== *)
(** * Ranges as CIDR prefixes: src/wafenginecore/ipset/rangecidr.go

    [rangeToPrefixes] cuts a closed interval of addresses into aligned blocks.  The
    byte routines of the file work from the last byte to the first; their loops are
    modelled on the reversed slice ([_rev]). *)
From S2P Require Import Prelude GoLib IpBits.
Local Open Scope Z_scope.

Record prefixEntry := mkEntry { Net : bytes; Bits : nat }.

(** The inner loop of [trailingZeroBits] on a non-zero byte. *)
Fixpoint byte_trailing_zeros (fuel : nat) (v : Z) : nat :=
  match fuel with
  | O => 0
  | S fuel' => if Z.land v 1 =? 0 then S (byte_trailing_zeros fuel' (Z.shiftr v 1)) else 0
  end.
Fixpoint trailing_zero_rev (rb : bytes) : nat :=
  match rb with
  | [] => 0
  | x :: rb' => if x =? 0 then 8 + trailing_zero_rev rb' else byte_trailing_zeros 8 x
  end.
Definition trailingZeroBits (b : bytes) : nat := trailing_zero_rev (reverse b).

Fixpoint or_low_rev (rb : bytes) (n : nat) : bytes :=
  match rb with
  | [] => []
  | x :: rb' =>
      if (n =? 0)%nat then rb
      else if (8 <=? n)%nat then 255 :: or_low_rev rb' (n - 8)
      else Z.lor x (2 ^ Z.of_nat n - 1) :: rb'
  end.
Definition orLowBits (b : bytes) (n : nat) : bytes := reverse (or_low_rev (reverse b) n).

Fixpoint add_carry_rev (rb : bytes) (carry : Z) : bytes * bool :=
  match rb with
  | [] => ([], false)
  | x :: rb' =>
      let sum := x + carry in
      if sum <=? 255 then (sum mod 256 :: rb', true)
      else let '(r, ok) := add_carry_rev rb' 1 in (sum mod 256 :: r, ok)
  end.
Definition addPow2 (b : bytes) (n : nat) : bytes * bool :=
  if (length b * 8 <=? n)%nat then (b, false)
  else
    let rb := reverse b in
    let k := (n / 8)%nat in
    let '(r, ok) := add_carry_rev (drop k rb) (2 ^ Z.of_nat (n mod 8)) in
    (reverse (take k rb ++ r), ok).

(** [for n > 0 && bytes.Compare(orLowBits(cur, n), end) > 0 { n-- }] *)
Fixpoint shrink (cur end_ : bytes) (n : nat) : nat :=
  match n with
  | O => O
  | S n' =>
      if bool_decide (bytes_compare (orLowBits cur n) end_ = Gt) then shrink cur end_ n' else n
  end.

Fixpoint range_loop (fuel : nat) (bits : nat) (cur end_ : bytes) : list prefixEntry :=
  match fuel with
  | O => []
  | S fuel' =>
      if bool_decide (bytes_compare cur end_ = Gt) then []
      else
        let n := shrink cur end_ (Nat.min (trailingZeroBits cur) bits) in
        let e := mkEntry cur (bits - n) in
        let '(cur', ok) := addPow2 cur n in
        if ok then e :: range_loop fuel' bits cur' end_ else [e]
  end.

(** [2 * bits] rounds are enough: [rangeToPrefixes_exact]. *)
Definition rangeToPrefixes (start end_ : bytes) : list prefixEntry :=
  if (length start =? 0)%nat || negb (length start =? length end_)%nat
     || bool_decide (bytes_compare start end_ = Gt)
  then []
  else
    let bits := (length start * 8)%nat in
    range_loop (2 * bits) bits start end_.

(** ** The byte routines are the arithmetic they stand for *)

(** Little-endian value, for the reversed loops. *)
Fixpoint lval (rb : bytes) : Z :=
  match rb with [] => 0 | x :: rb' => x + 256 * lval rb' end.

Lemma val_reverse rb : wf_bytes rb → val (reverse rb) = lval rb.
Proof.
  induction rb as [|x rb IH]; intros Hwf; [done|].
  apply wf_bytes_cons in Hwf as [Hx Hwf].
  rewrite reverse_cons, val_app, IH by done. cbn [lval length].
  rewrite val_cons by done. cbn. lia.
Qed.

Lemma val_lval b : wf_bytes b → val b = lval (reverse b).
Proof. intros Hb. rewrite <- val_reverse by by apply wf_bytes_reverse. by rewrite reverse_involutive. Qed.

Lemma lval_bound rb : wf_bytes rb → 0 ≤ lval rb < 2 ^ (8 * Z.of_nat (length rb)).
Proof.
  intros H. rewrite <- val_reverse by done. pose proof (val_bound (reverse rb)) as Hb.
  by rewrite length_reverse in Hb.
Qed.

Lemma lval_app a b : lval (a ++ b) = lval a + 2 ^ (8 * Z.of_nat (length a)) * lval b.
Proof.
  induction a as [|x a IH]; cbn [app lval length]; [change (2 ^ (8 * Z.of_nat 0)) with 1; lia|].
  rewrite IH. replace (8 * Z.of_nat (S (length a))) with (8 * Z.of_nat (length a) + 8) by lia.
  rewrite Z.pow_add_r by lia. change (2 ^ 8) with 256. ring.
Qed.

Lemma byte_tz_check :
  forallb (λ i, let k := byte_trailing_zeros 8 (Z.of_nat i) in
     (Z.of_nat i mod 2 ^ Z.of_nat k =? 0) && negb (Z.of_nat i mod 2 ^ (Z.of_nat k + 1) =? 0)
     && (k <? 8)%nat)%bool (seq 1 255) = true.
Proof. vm_compute. reflexivity. Qed.

Lemma byte_trailing_zeros_spec x : 0 < x < 256 →
  let k := byte_trailing_zeros 8 x in
  (2 ^ Z.of_nat k | x) ∧ ¬ (2 ^ (Z.of_nat k + 1) | x) ∧ (k < 8)%nat.
Proof.
  intros Hx. pose proof byte_tz_check as H. rewrite forallb_elem_of in H.
  specialize (H (Z.to_nat x)). rewrite Z2Nat.id in H by lia. cbn zeta in *.
  specialize (H ltac:(apply elem_of_seq; lia)). prop_of_bool.
  split; [by apply Z.mod_divide; [lia|]|split; [|done]].
  rewrite <- Z.mod_divide by lia. done.
Qed.

(** [2^n] divides the address, and [n] is the largest such exponent below the width. *)
Lemma trailing_zero_rev_spec rb : wf_bytes rb →
  let t := trailing_zero_rev rb in
  (2 ^ Z.of_nat t | lval rb) ∧ (t ≤ 8 * length rb)%nat ∧
  ((t < 8 * length rb)%nat → ¬ (2 ^ (Z.of_nat t + 1) | lval rb)).
Proof.
  induction rb as [|x rb IH]; intros Hwf; cbn [trailing_zero_rev lval length].
  - split; [apply Z.divide_0_r|]. split; [lia|]. lia.
  - apply wf_bytes_cons in Hwf as [Hx Hwf]. specialize (IH Hwf). cbn zeta in *.
    destruct IH as (Hd & Hle & Hn).
    destruct (Z.eqb_spec x 0) as [->|Hne].
    + set (t := trailing_zero_rev rb) in *.
      assert (Hpow : ∀ k, 0 ≤ k → 2 ^ (8 + k) = 256 * 2 ^ k) by (intros; by rewrite Z.pow_add_r by lia).
      replace (Z.of_nat (8 + t)) with (8 + Z.of_nat t) by lia.
      split; [|split; [lia|]].
      * rewrite Hpow by lia. rewrite Z.add_0_l. by apply Z.mul_divide_mono_l.
      * intros Hlt. replace (8 + Z.of_nat t + 1) with (8 + (Z.of_nat t + 1)) by lia.
        rewrite Hpow by lia. rewrite Z.add_0_l. rewrite Z.mul_divide_cancel_l by lia. apply Hn. lia.
    + destruct (byte_trailing_zeros_spec x ltac:(lia)) as (Hk & Hnk & Hk8). cbn zeta in *.
      set (k := byte_trailing_zeros 8 x) in *.
      assert (H256 : ∀ j, 0 ≤ j ≤ 8 → (2 ^ j | 256 * lval rb)).
      { intros j Hj. apply Z.divide_mul_l. exists (2 ^ (8 - j)). rewrite <- Z.pow_add_r by lia.
        by replace (8 - j + j) with 8 by lia. }
      split; [apply Z.divide_add_r; [done|apply H256; lia]|split; [lia|]].
      intros _ Hdiv. apply Hnk. apply Z.divide_add_cancel_r with (256 * lval rb).
      * apply H256. lia.
      * by replace (256 * lval rb + x) with (x + 256 * lval rb) by lia.
Qed.

Lemma lor_low_check :
  forallb (λ n, forallb (λ i, if Z.of_nat i mod 2 ^ Z.of_nat n =? 0
     then Z.lor (Z.of_nat i) (2 ^ Z.of_nat n - 1) =? Z.of_nat i + (2 ^ Z.of_nat n - 1)
     else true) (seq 0 256)) (seq 0 8) = true.
Proof. vm_compute. reflexivity. Qed.

Lemma lor_low x n : (n < 8)%nat → 0 ≤ x < 256 → (2 ^ Z.of_nat n | x) →
  Z.lor x (2 ^ Z.of_nat n - 1) = x + (2 ^ Z.of_nat n - 1).
Proof.
  intros Hn Hx Hd. pose proof lor_low_check as H. rewrite forallb_elem_of in H.
  specialize (H n ltac:(apply elem_of_seq; lia)). rewrite forallb_elem_of in H.
  specialize (H (Z.to_nat x) ltac:(apply elem_of_seq; lia)).
  rewrite Z2Nat.id in H by lia. apply Z.mod_divide in Hd; [|lia].
  rewrite Hd in H. cbn in H. by apply Z.eqb_eq in H.
Qed.

Lemma byte_below_pow x n y : (n < 8)%nat → 0 ≤ x < 256 → (2 ^ Z.of_nat n | x) →
  y = x + (2 ^ Z.of_nat n - 1) → 0 ≤ y < 256.
Proof.
  intros Hn Hx [q ->] ->. set (P := 2 ^ Z.of_nat n) in *.
  assert (HP : P * 2 ^ (8 - Z.of_nat n) = 256).
  { unfold P. rewrite <- Z.pow_add_r by lia. replace (Z.of_nat n + (8 - Z.of_nat n)) with 8 by lia. done. }
  assert (0 < P) by (apply Z.pow_pos_nonneg; lia).
  assert (0 < 2 ^ (8 - Z.of_nat n)) by (apply Z.pow_pos_nonneg; lia).
  set (k := 2 ^ (8 - Z.of_nat n)) in *. assert (q + 1 ≤ k) by nia. nia.
Qed.

Lemma or_low_rev_spec rb n :
  wf_bytes rb → (n ≤ 8 * length rb)%nat → (2 ^ Z.of_nat n | lval rb) →
  lval (or_low_rev rb n) = lval rb + (2 ^ Z.of_nat n - 1) ∧
  wf_bytes (or_low_rev rb n) ∧ length (or_low_rev rb n) = length rb.
Proof.
  revert n. induction rb as [|x rb IH]; intros n Hwf Hn Hd; cbn [or_low_rev lval length] in *.
  - replace n with 0%nat by lia. done.
  - apply wf_bytes_cons in Hwf as [Hx Hwf].
    destruct (Nat.eqb_spec n 0) as [->|Hn0].
    { cbn [lval length]. rewrite wf_bytes_cons. split; [change (2 ^ Z.of_nat 0) with 1; lia|done]. }
    destruct (Nat.leb_spec 8 n) as [H8|H8].
    + assert (Hp : 2 ^ Z.of_nat n = 256 * 2 ^ Z.of_nat (n - 8)).
      { replace (Z.of_nat n) with (8 + Z.of_nat (n - 8)) by lia. by rewrite Z.pow_add_r by lia. }
      assert (Hx0 : x = 0).
      { destruct Hd as [q Hq]. rewrite Hp in Hq.
        assert ((256 | x)) as [z Hz].
        { exists (q * 2 ^ Z.of_nat (n - 8) - lval rb). nia. }
        lia. }
      subst x. rewrite Z.add_0_l in *.
      rewrite Hp in Hd. apply Z.mul_divide_cancel_l in Hd; [|lia].
      destruct (IH (n - 8)%nat Hwf ltac:(lia) Hd) as (Hl & Hw & Hlen).
      cbn [lval length]. rewrite Hl, wf_bytes_cons, Hlen. split; [lia|split; [split; [lia|done]|done]].
    + assert (Hdx : (2 ^ Z.of_nat n | x)).
      { apply Z.divide_add_cancel_r with (256 * lval rb);
          [|by replace (256 * lval rb + x) with (x + 256 * lval rb) by lia].
        apply Z.divide_mul_l. exists (2 ^ (8 - Z.of_nat n)). rewrite <- Z.pow_add_r by lia.
        by replace (8 - Z.of_nat n + Z.of_nat n) with 8 by lia. }
      cbn [lval length]. rewrite lor_low by done. rewrite wf_bytes_cons.
      split; [lia|split; [split; [by eapply byte_below_pow|done]|done]].
Qed.

Lemma orLowBits_spec b n :
  wf_bytes b → (n ≤ 8 * length b)%nat → (2 ^ Z.of_nat n | val b) →
  val (orLowBits b n) = val b + (2 ^ Z.of_nat n - 1) ∧
  wf_bytes (orLowBits b n) ∧ length (orLowBits b n) = length b.
Proof.
  intros Hwf Hn Hd. unfold orLowBits. rewrite val_lval in Hd by done.
  pose proof (wf_bytes_reverse _ Hwf) as Hr.
  destruct (or_low_rev_spec (reverse b) n Hr ltac:(rewrite length_reverse; lia) Hd) as (Hv & Hw & Hl).
  rewrite val_reverse, Hv, <- val_lval by done. rewrite length_reverse in *.
  auto using wf_bytes_reverse.
Qed.

Lemma add_carry_rev_spec rb carry r ok :
  wf_bytes rb → 0 ≤ carry ≤ 255 → add_carry_rev rb carry = (r, ok) →
  wf_bytes r ∧ length r = length rb ∧
  lval rb + carry = lval r + (if ok then 0 else 2 ^ (8 * Z.of_nat (length rb)) * (if decide (rb = []) then carry else 1)).
Proof.
  revert carry r ok. induction rb as [|x rb IH]; intros carry r ok Hwf Hc H; cbn [add_carry_rev] in H.
  - simplify_eq. rewrite decide_True by done. cbn. split; [done|split; [done|]].
    rewrite Z.pow_0_r. lia.
  - apply wf_bytes_cons in Hwf as [Hx Hwf]. cbn [lval length].
    pose proof (Z.mod_pos_bound (x + carry) 256 ltac:(lia)).
    destruct (Z.leb_spec (x + carry) 255).
    + simplify_eq. rewrite wf_bytes_cons. cbn [lval length].
      rewrite Z.mod_small by lia. split; [split; [lia|done]|split; [done|lia]].
    + destruct (add_carry_rev rb 1) as [r' ok'] eqn:E. simplify_eq.
      destruct (IH 1 _ _ Hwf ltac:(lia) E) as (Hw & Hl & Hv).
      rewrite wf_bytes_cons. cbn [lval length]. rewrite Hl.
      assert (Hm : (x + carry) mod 256 = x + carry - 256).
      { rewrite <- (Z.mod_add _ (-1)) by lia. rewrite Z.mod_small by lia. lia. }
      split; [split; [lia|done]|split; [done|]]. rewrite Hm.
      replace (8 * Z.of_nat (S (length rb))) with (8 + 8 * Z.of_nat (length rb)) by lia.
      rewrite Z.pow_add_r by lia. change (2 ^ 8) with 256.
      destruct ok; [lia|]. replace (if decide (rb = []) then 1 else 1) with 1 in Hv by by case_decide.
      rewrite decide_False by done. lia.
Qed.

Lemma addPow2_spec b n b' ok :
  wf_bytes b → (n ≤ 8 * length b)%nat → addPow2 b n = (b', ok) →
  (ok = true → wf_bytes b' ∧ length b' = length b ∧ val b' = val b + 2 ^ Z.of_nat n) ∧
  (ok = false → 2 ^ (8 * Z.of_nat (length b)) ≤ val b + 2 ^ Z.of_nat n).
Proof.
  intros Hwf Hn H. unfold addPow2 in H.
  pose proof (val_bound b) as Hvb.
  destruct (Nat.leb_spec (length b * 8) n) as [Hge|Hlt].
  { simplify_eq. split; [done|]. intros _.
    replace (Z.of_nat n) with (8 * Z.of_nat (length b')) by lia. lia. }
  set (k := (n / 8)%nat) in *.
  assert (Hk : (8 * k + n mod 8 = n)%nat) by (unfold k; pose proof (Nat.div_mod_eq n 8); lia).
  pose proof (Nat.mod_upper_bound n 8 ltac:(lia)).
  assert (Hmod : 0 ≤ 2 ^ Z.of_nat (n mod 8) ≤ 255).
  { assert (2 ^ Z.of_nat (n mod 8) ≤ 2 ^ 7) by (apply Z.pow_le_mono_r; lia). lia. }
  set (rb := reverse b) in *.
  assert (Hrb : wf_bytes rb) by by apply wf_bytes_reverse.
  assert (Hlrb : length rb = length b) by apply length_reverse.
  destruct (add_carry_rev (drop k rb) (2 ^ Z.of_nat (n mod 8))) as [r ok'] eqn:E. simplify_eq.
  destruct (add_carry_rev_spec _ _ _ _ (wf_bytes_drop k _ Hrb) Hmod E) as (Hw & Hl & Hv).
  assert (Hltk : length (take k rb) = k) by (rewrite length_take; lia).
  assert (Hwt : wf_bytes (take k rb ++ r)).
  { apply wf_bytes_app. split; [by apply Forall_take|done]. }
  assert (Hvb' : val b = lval (take k rb) + 2 ^ (8 * Z.of_nat k) * lval (drop k rb)).
  { rewrite val_lval by done. fold rb. rewrite <- (take_drop k rb) at 1. by rewrite lval_app, Hltk. }
  assert (Hpow : 2 ^ Z.of_nat n = 2 ^ (8 * Z.of_nat k) * 2 ^ Z.of_nat (n mod 8)).
  { rewrite <- Z.pow_add_r by lia. f_equal. lia. }
  pose proof (lval_bound (take k rb) ltac:(by apply Forall_take)) as Htb.
  pose proof (lval_bound r Hw) as Hrbd.
  split; intros ->.
  - rewrite val_reverse by done. rewrite length_reverse, length_app, Hl, length_drop, Hltk.
    split; [by apply wf_bytes_reverse|]. split; [lia|].
    rewrite lval_app, Hltk, Hvb', Hpow. nia.
  - rewrite decide_False in Hv.
    2:{ intros Hnil. apply (f_equal length) in Hnil. rewrite length_drop, length_nil in Hnil. lia. }
    rewrite length_drop in Hv.
    assert (Hall : 2 ^ (8 * Z.of_nat (length b)) =
                   2 ^ (8 * Z.of_nat k) * 2 ^ (8 * Z.of_nat (length rb - k))).
    { rewrite <- Z.pow_add_r by lia. f_equal. lia. }
    rewrite Hall, Hvb', Hpow. nia.
Qed.

(** ** The largest aligned block *)

Definition pow2 (n : nat) : Z := 2 ^ Z.of_nat n.

Lemma pow2_pos n : 0 < pow2 n.
Proof. apply Z.pow_pos_nonneg; lia. Qed.

Lemma pow2_S n : pow2 (S n) = 2 * pow2 n.
Proof. unfold pow2. rewrite Nat2Z.inj_succ, Z.pow_succ_r; lia. Qed.

Lemma pow2_add n m : pow2 (n + m) = pow2 n * pow2 m.
Proof. unfold pow2. rewrite Nat2Z.inj_add, Z.pow_add_r; lia. Qed.

Lemma pow2_divide n m : (n ≤ m)%nat → (pow2 n | pow2 m).
Proof. intros H. exists (pow2 (m - n)). rewrite <- pow2_add. f_equal. lia. Qed.

Lemma pow2_mono n m : (n ≤ m)%nat → pow2 n ≤ pow2 m.
Proof. intros H. apply Z.pow_le_mono_r; lia. Qed.

Section loop.
Context (len : nat) (end_ : bytes).
Hypothesis Hend : wf_bytes end_ ∧ length end_ = len.

Let R := val end_ + 1.
Let total := (8 * len)%nat.

Definition at_addr (cur : bytes) : Prop := wf_bytes cur ∧ length cur = len.

(** [shrink] finds the largest exponent that keeps the block below the end. *)
Lemma shrink_spec cur t :
  at_addr cur → (t ≤ total)%nat → (pow2 t | val cur) → val cur < R →
  let n := shrink cur end_ t in
  (n ≤ t)%nat ∧ val cur + pow2 n ≤ R ∧ ((n < t)%nat → R < val cur + pow2 (S n)).
Proof.
  intros [Hw Hl] Ht Hd Hlt. induction t as [|t IH]; cbn [shrink].
  - cbn zeta. change (pow2 0) with 1. lia.
  - destruct (orLowBits_spec cur (S t) Hw ltac:(unfold total in *; lia) Hd) as (Hv & Hw' & Hl').
    fold (pow2 (S t)) in Hv.
    rewrite bytes_compare_val by (destruct Hend; first [done|lia]).
    case_bool_decide as Hc.
    + apply Z.compare_gt_iff in Hc. rewrite Hv in Hc.
      assert (Hd' : (pow2 t | val cur)).
      { eapply Z.divide_trans; [|exact Hd]. apply pow2_divide. lia. }
      destruct (IH ltac:(lia) Hd') as (H1 & H2 & H3). cbn zeta in *.
      split; [lia|split; [done|]]. intros Hn.
      destruct (decide (shrink cur end_ t < t)%nat); [by apply H3|].
      replace (shrink cur end_ t) with t by lia. unfold R. lia.
    + rewrite Z.compare_gt_iff, Hv in Hc. split; [lia|split; [unfold R; lia|lia]].
Qed.

Definition block (e : prefixEntry) (x : Z) : Prop :=
  val (Net e) ≤ x < val (Net e) + pow2 (total - Bits e).

Definition entry_ok (e : prefixEntry) : Prop :=
  at_addr (Net e) ∧ (Bits e ≤ total)%nat ∧ (pow2 (total - Bits e) | val (Net e)).

(** One round of the loop. *)
Lemma round_spec cur :
  at_addr cur → val cur < R →
  let t := Nat.min (trailingZeroBits cur) total in
  let n := shrink cur end_ t in
  let '(cur', ok) := addPow2 cur n in
  (n ≤ total)%nat ∧ (pow2 n | val cur) ∧ val cur + pow2 n ≤ R ∧
  ((n < t)%nat → R < val cur + pow2 (S n)) ∧
  (pow2 t | val cur) ∧ ((t < total)%nat → ¬ (pow2 (S t) | val cur)) ∧
  (ok = true → at_addr cur' ∧ val cur' = val cur + pow2 n) ∧
  (ok = false → val cur + pow2 n = R).
Proof.
  intros [Hw Hl] Hlt. cbn zeta.
  destruct (trailing_zero_rev_spec (reverse cur) (wf_bytes_reverse _ Hw)) as (Hd & Hle & Hnd).
  cbn zeta in *. fold (trailingZeroBits cur) in *. rewrite length_reverse in *.
  rewrite <- val_lval in * by done. fold (pow2 (trailingZeroBits cur)) in Hd.
  set (t := Nat.min (trailingZeroBits cur) total) in *.
  assert (Ht : t = trailingZeroBits cur) by (unfold t, total; lia).
  rewrite <- Ht in *.
  destruct (shrink_spec cur t (conj Hw Hl) ltac:(lia) Hd Hlt) as (H1 & H2 & H3). cbn zeta in *.
  set (n := shrink cur end_ t) in *.
  destruct (addPow2 cur n) as [cur' ok] eqn:E.
  destruct (addPow2_spec cur n cur' ok Hw ltac:(unfold total in *; lia) E) as [Hok Hko].
  split; [lia|]. split; [eapply Z.divide_trans; [|exact Hd]; by apply pow2_divide|].
  split; [done|]. split; [done|]. split; [done|]. split.
  { intros Hlt'. replace (pow2 (S t)) with (2 ^ (Z.of_nat t + 1)) by (unfold pow2; f_equal; lia).
    apply Hnd. unfold total in *. lia. }
  split.
  - intros Hok'. destruct (Hok Hok') as (? & ? & ?). split; [split; [done|lia]|done].
  - intros Hko'. specialize (Hko Hko'). fold (pow2 n) in Hko.
    destruct Hend as [Hwe Hle']. pose proof (val_bound end_) as Hb. rewrite Hle' in Hb.
    rewrite Hl in Hko. unfold R in *. lia.
Qed.

(** Once a block is limited by the end, each round halves what is left. *)
Lemma loop_halving k fuel cur :
  at_addr cur → (k ≤ total)%nat → (pow2 k | val cur) → val cur ≤ R → R - val cur < pow2 k →
  (length (range_loop fuel total cur end_) ≤ k)%nat.
Proof.
  revert fuel cur. induction k as [k IH] using lt_wf_ind.
  intros fuel cur Hat Hk Hd Hle Hlt.
  destruct fuel as [|fuel]; [cbn; lia|]. cbn [range_loop].
  pose proof Hat as [Hw Hl].
  rewrite bytes_compare_val by (destruct Hend; first [done|lia]).
  case_bool_decide as Hc; [cbn; lia|]. rewrite Z.compare_gt_iff in Hc.
  pose proof (round_spec cur Hat ltac:(unfold R; lia)) as Hr. cbn zeta in *.
  set (t := Nat.min (trailingZeroBits cur) total) in *.
  set (n := shrink cur end_ t) in *.
  destruct (addPow2 cur n) as [cur' ok].
  destruct Hr as (Hn & Hdn & Hup & _ & Hdt & Hnt & Hok & _).
  assert (Hnk : (n < k)%nat).
  { destruct (decide (n < k)%nat); [done|exfalso].
    pose proof (pow2_mono k n ltac:(lia)). unfold R in *. lia. }
  destruct ok; [|cbn; lia]. destruct (Hok eq_refl) as [Hat' Hv'].
  cbn [length].
  enough (length (range_loop fuel total cur' end_) ≤ n)%nat by lia.
  apply IH; try done; try lia.
  - rewrite Hv'. apply Z.divide_add_r; [done|apply Z.divide_refl].
  - rewrite Hv'.
    destruct (decide (R < val cur + pow2 (S n))) as [Hs|Hs]; [rewrite pow2_S in Hs; lia|exfalso].
    pose proof (round_spec cur Hat ltac:(unfold R; lia)) as Hr. cbn zeta in Hr.
    fold t n in Hr. destruct (addPow2 cur n). destruct Hr as (_ & _ & _ & Hmax & _).
    apply Hs, Hmax.
    destruct (decide (n < t)%nat); [done|exfalso].
    assert (t < total)%nat by lia. apply Hnt; [done|].
    eapply Z.divide_trans; [|exact Hd]. apply pow2_divide. lia.
Qed.

Lemma R_bound : 0 < R ≤ pow2 total.
Proof.
  destruct Hend as [Hw Hl]. pose proof (val_bound end_) as Hb. rewrite Hl in Hb.
  unfold R, pow2, total. replace (Z.of_nat (8 * len)) with (8 * Z.of_nat len) by lia. lia.
Qed.

(** Before that, the exponents grow: every round uses a new power of two. *)
Lemma loop_growing j fuel cur k :
  (total - k ≤ j)%nat → (2 ≤ total)%nat →
  at_addr cur → (pow2 k | val cur) → 0 < val cur < R →
  (length (range_loop fuel total cur end_) ≤ 2 * total - 2 - k)%nat ∧ (k < total)%nat.
Proof.
  revert fuel cur k. induction j as [|j IH]; intros fuel cur k Hj H2 Hat Hd Hpos.
  all: pose proof R_bound as HR.
  all: assert (Hkt : (k < total)%nat) by
    (destruct (decide (k < total)%nat); [done|exfalso];
     pose proof (pow2_mono total k ltac:(lia));
     pose proof (Z.divide_pos_le _ _ (proj1 Hpos) Hd); lia).
  { lia. }
  split; [|done].
  destruct fuel as [|fuel]; [cbn; lia|]. cbn [range_loop].
  pose proof Hat as [Hw Hl].
  rewrite bytes_compare_val by (destruct Hend; first [done|lia]).
  case_bool_decide as Hc; [cbn; lia|]. rewrite Z.compare_gt_iff in Hc.
  pose proof (round_spec cur Hat ltac:(lia)) as Hr. cbn zeta in *.
  set (t := Nat.min (trailingZeroBits cur) total) in *.
  set (n := shrink cur end_ t) in *.
  destruct (addPow2 cur n) as [cur' ok].
  destruct Hr as (Hn & Hdn & Hup & Hmax & Hdt & Hnt & Hok & _).
  assert (Hkn : (k ≤ t)%nat).
  { destruct (decide (k ≤ t)%nat); [done|exfalso]. apply Hnt; [lia|].
    eapply Z.divide_trans; [|exact Hd]. apply pow2_divide. lia. }
  assert (Htt : (t < total)%nat).
  { destruct (decide (t < total)%nat); [done|exfalso].
    pose proof (pow2_mono total t ltac:(lia)).
    pose proof (Z.divide_pos_le _ _ (proj1 Hpos) Hdt). lia. }
  destruct ok; [|cbn; lia]. destruct (Hok eq_refl) as [Hat' Hv']. cbn [length].
  destruct (decide (n < t)%nat) as [Hlim|Hfree].
  - enough (length (range_loop fuel total cur' end_) ≤ n)%nat by lia.
    apply loop_halving; try done; try lia.
    + rewrite Hv'. apply Z.divide_add_r; [done|apply Z.divide_refl].
    + specialize (Hmax Hlim). rewrite pow2_S in Hmax. lia.
  - assert (n = t) as Hnt' by (pose proof (shrink_spec cur t Hat ltac:(lia) Hdt ltac:(lia)) as Hs;
                               cbn zeta in Hs; fold n in Hs; lia).
    destruct (decide (val cur' < R)) as [Hin|Hout].
    + specialize (Hnt Htt).
      assert (HdS : (pow2 (S t) | val cur')).
      { rewrite Hv', Hnt'. destruct Hdt as [q Hq]. rewrite Hq in *. rewrite pow2_S.
        destruct (Z.Even_or_Odd q) as [[h ->]|[h ->]].
        - exfalso. apply Hnt. exists h. rewrite pow2_S. ring.
        - exists (h + 1). ring. }
      pose proof (pow2_pos n).
      destruct (IH fuel cur' (S t) ltac:(lia) H2 Hat' HdS ltac:(lia)) as [Hlen ?]. lia.
    + destruct fuel as [|fuel]; [cbn; lia|]. cbn [range_loop].
      destruct Hat' as [Hw' Hl'].
      rewrite bytes_compare_val by (destruct Hend; first [done|lia]).
      case_bool_decide as Hc'; [cbn; lia|]. rewrite Z.compare_gt_iff in Hc'. unfold R in *. lia.
Qed.

Lemma range_loop_length fuel cur :
  (2 ≤ total)%nat → at_addr cur → val cur < R →
  (length (range_loop fuel total cur end_) ≤ 2 * total - 2)%nat.
Proof.
  intros H2 Hat Hlt. pose proof R_bound as HR. pose proof (val_bound cur) as Hb.
  destruct (decide (val cur = 0)) as [H0|H0].
  - destruct (decide (R = pow2 total)) as [Hfull|Hpart].
    + destruct fuel as [|fuel]; [cbn; lia|]. cbn [range_loop].
      pose proof Hat as [Hw Hl].
      case_bool_decide as Hc; [cbn; lia|].
      pose proof (round_spec cur Hat Hlt) as Hr. cbn zeta in *.
      set (t := Nat.min (trailingZeroBits cur) total) in *.
      set (n := shrink cur end_ t) in *.
      destruct (addPow2 cur n) as [cur' ok].
      destruct Hr as (Hn & Hdn & Hup & Hmax & Hdt & Hnt & Hok & _).
      destruct ok; [|cbn; lia]. destruct (Hok eq_refl) as [[Hw' Hl'] Hv'].
      exfalso. pose proof (val_bound cur') as Hb'. rewrite Hl' in Hb'.
      assert (Htot : 2 ^ (8 * Z.of_nat len) = pow2 total) by (unfold pow2, total; f_equal; lia).
      destruct (decide (n < t)%nat) as [Hlim|Hfree].
      { specialize (Hmax Hlim). pose proof (pow2_mono (S n) total ltac:(unfold t in *; lia)). lia. }
      destruct (decide (t < total)%nat) as [Htt|].
      { apply (Hnt Htt). rewrite H0. apply Z.divide_0_r. }
      assert (n = total) as Hnt' by (unfold t in *; lia). rewrite Hnt' in Hv'. lia.
    + enough (length (range_loop fuel total cur end_) ≤ total)%nat by lia.
      apply loop_halving; try done; try lia. rewrite H0. apply Z.divide_0_r.
  - destruct (loop_growing total fuel cur 0 ltac:(lia) H2 Hat) as [H ?]; [|lia|lia].
    change (pow2 0) with 1. apply Z.divide_1_l.
Qed.

(** As long as the fuel is not used up, the blocks are exactly what is left. *)
Lemma range_loop_cover fuel cur :
  at_addr cur → val cur ≤ R →
  (length (range_loop fuel total cur end_) < fuel)%nat →
  Forall entry_ok (range_loop fuel total cur end_) ∧
  ∀ x, Exists (λ e, block e x) (range_loop fuel total cur end_) ↔ val cur ≤ x < R.
Proof.
  revert cur. induction fuel as [|fuel IH]; intros cur Hat Hle; [lia|]. cbn [range_loop].
  pose proof Hat as [Hw Hl].
  rewrite bytes_compare_val by (destruct Hend; first [done|lia]).
  case_bool_decide as Hc; rewrite Z.compare_gt_iff in Hc.
  { intros _. split; [constructor|]. intros x. rewrite Exists_nil. unfold R. lia. }
  pose proof (round_spec cur Hat ltac:(unfold R; lia)) as Hr. cbn zeta in *.
  set (t := Nat.min (trailingZeroBits cur) total) in *.
  set (n := shrink cur end_ t) in *.
  destruct (addPow2 cur n) as [cur' ok].
  destruct Hr as (Hn & Hdn & Hup & _ & _ & _ & Hok & Hko).
  assert (He : entry_ok (mkEntry cur (total - n))).
  { split; [done|]. cbn [Net Bits]. split; [lia|]. by replace (total - (total - n))%nat with n by lia. }
  assert (Hb : ∀ x, block (mkEntry cur (total - n)) x ↔ val cur ≤ x < val cur + pow2 n).
  { intros x. unfold block. cbn [Net Bits]. by replace (total - (total - n))%nat with n by lia. }
  pose proof (pow2_pos n).
  destruct ok; cbn [length]; intros Hlen.
  - destruct (Hok eq_refl) as [Hat' Hv'].
    destruct (IH cur' Hat' ltac:(lia) ltac:(lia)) as [Hf Hx].
    split; [by constructor|]. intros x. rewrite Exists_cons, Hx, Hb. lia.
  - specialize (Hko eq_refl). split; [by apply Forall_singleton|].
    intros x. rewrite Exists_cons, Exists_nil, Hb. lia.
Qed.
End loop.

(** A block is the set of addresses that share its leading bits. *)
Lemma agree_block len e a :
  entry_ok len e → wf_bytes a → length a = len →
  agree (Bits e) (Net e) a = true ↔ block len e (val a).
Proof.
  intros ([Hw Hl] & Hb & [q Hq]) Ha Hla. unfold agree, block. rewrite bool_decide_eq_true.
  set (m := (8 * len - Bits e)%nat) in *.
  assert (Hdiv : ∀ x, length x = len → bval (take (Bits e) (bits_of x)) = val x / pow2 m).
  { intros x Hx. rewrite bval_take by (rewrite length_bits_of; lia).
    rewrite length_bits_of. unfold val, pow2, m. by rewrite Hx. }
  pose proof (pow2_pos m) as Hp.
  transitivity (val (Net e) / pow2 m = val a / pow2 m).
  - rewrite <- !Hdiv by done. split; [by intros ->|]. intros Heq. apply bval_inj; [|done].
    rewrite !length_take, !length_bits_of. lia.
  - rewrite Hq, Z.div_mul by lia. split; intros H.
    + pose proof (Z.div_mod (val a) (pow2 m) ltac:(lia)).
      pose proof (Z.mod_pos_bound (val a) (pow2 m) ltac:(lia)). nia.
    + apply (Z.div_unique_pos _ _ _ (val a - q * pow2 m)); lia.
Qed.

(** ** The decomposition *)

Lemma rangeToPrefixes_spec start end_ len :
  (0 < len)%nat → wf_bytes start → wf_bytes end_ → length start = len → length end_ = len →
  val start ≤ val end_ →
  Forall (entry_ok len) (rangeToPrefixes start end_) ∧
  (length (rangeToPrefixes start end_) ≤ 2 * (8 * len) - 2)%nat ∧
  ∀ a, wf_bytes a → length a = len →
    existsb (λ e, agree (Bits e) (Net e) a) (rangeToPrefixes start end_)
      = bool_decide (val start ≤ val a ≤ val end_).
Proof.
  intros Hlen Hs He Hls Hle Hord. unfold rangeToPrefixes.
  assert (Htest : ((length start =? 0)%nat || negb (length start =? length end_)%nat
     || bool_decide (bytes_compare start end_ = Gt))%bool = false).
  { rewrite !orb_false_iff, Nat.eqb_neq, negb_false_iff, Nat.eqb_eq, bool_decide_eq_false.
    rewrite bytes_compare_val, Z.compare_gt_iff by (done || lia). lia. }
  rewrite Htest, Hls. replace (len * 8)%nat with (8 * len)%nat by lia.
  pose proof (range_loop_length len end_ (conj He Hle) (2 * (8 * len)) start ltac:(lia)
    (conj Hs Hls) ltac:(lia)) as Hlength.
  destruct (range_loop_cover len end_ (conj He Hle) (2 * (8 * len)) start
    (conj Hs Hls) ltac:(lia) ltac:(lia)) as [Hok Hcover].
  split; [done|]. split; [done|]. intros a Ha Hla.
  apply eq_bool_prop_intro. rewrite Is_true_true, bool_decide_spec.
  transitivity (Exists (λ e, block len e (val a)) (range_loop (2 * (8 * len)) (8 * len) start end_)).
  - rewrite Exists_exists, existsb_elem_of. rewrite Forall_forall in Hok.
    split; intros (e & Hin & Hm); exists e; (split; [done|]);
      by apply (agree_block len e a (Hok e Hin) Ha Hla).
  - rewrite Hcover. lia.
Qed.

(** Once the loop has stopped by itself, more fuel changes nothing. *)
Lemma range_loop_fuel bits fuel k cur end_ :
  (length (range_loop fuel bits cur end_) < fuel)%nat →
  range_loop (fuel + k) bits cur end_ = range_loop fuel bits cur end_.
Proof.
  revert cur. induction fuel as [|fuel IH]; intros cur H; [lia|].
  cbn [Nat.add range_loop] in *. cbn zeta in *.
  destruct (addPow2 cur _) as [next ok]. case_bool_decide; [done|]. destruct ok; [|done].
  f_equal. apply IH. cbn [length] in H. lia.
Qed.

(** C28: range decomposition.  The prefixes of an ordered range cover exactly the
    addresses between its ends, at most 62 of them for IPv4 and 254 for IPv6, and the
    loop of the code stops by itself: any larger number of rounds gives the same list. *)
Theorem rangeToPrefixes_exact start end_ len :
  (len = 4 ∨ len = 16)%nat → wf_bytes start → wf_bytes end_ →
  length start = len → length end_ = len → bytes_compare start end_ ≠ Gt →
  (∀ a, wf_bytes a → length a = len →
     existsb (λ e, agree (Bits e) (Net e) a) (rangeToPrefixes start end_) = true ↔
     bytes_compare start a ≠ Gt ∧ bytes_compare a end_ ≠ Gt) ∧
  (length (rangeToPrefixes start end_) ≤ if (len =? 4)%nat then 62 else 254)%nat ∧
  (∀ k, range_loop (2 * (8 * len) + k) (8 * len) start end_ = rangeToPrefixes start end_).
Proof.
  intros Hlen Hs He Hls Hle Hord.
  assert (Hpos : (0 < len)%nat) by lia.
  rewrite bytes_compare_val, Z.compare_le_iff in Hord by (done || lia).
  destruct (rangeToPrefixes_spec start end_ len Hpos Hs He Hls Hle Hord) as (_ & Hcount & Hcover).
  split; [|split].
  - intros a Ha Hla. rewrite Hcover by done. rewrite bool_decide_eq_true.
    by rewrite !bytes_compare_val, !Z.compare_le_iff by (done || lia).
  - destruct Hlen as [-> | ->]; cbn in *; lia.
  - intros k. unfold rangeToPrefixes in *.
    assert (Htest : ((length start =? 0)%nat || negb (length start =? length end_)%nat
       || bool_decide (bytes_compare start end_ = Gt))%bool = false).
    { rewrite !orb_false_iff, Nat.eqb_neq, negb_false_iff, Nat.eqb_eq, bool_decide_eq_false.
      rewrite bytes_compare_val, Z.compare_gt_iff by (done || lia). lia. }
    rewrite Htest, Hls in *. replace (len * 8)%nat with (8 * len)%nat in * by lia.
    apply range_loop_fuel. lia.
Qed.

Lemma rangeToPrefixes_exact_witness :
  existsb (λ e, agree (Bits e) (Net e) [10;0;1;0]) (rangeToPrefixes [10;0;0;255] [10;0;1;3]) = true.
Proof.
  apply (rangeToPrefixes_exact [10;0;0;255] [10;0;1;3] 4); try (repeat constructor; lia); try (by left); done.
Defined.
