(* ===== verification/MatchSet.v ===== *)
(** * The compiled match set: src/wafenginecore/ipset/matchset.go, listtext.go

    Single addresses in hash sets, prefixes in tries, non-contiguous wildcards in a
    linear list.  The set is built once and then only read.  [Contains_refines] is
    its contract: the answer is the one a scan of the patterns would give. *)
From S2P Require Import Prelude GoLib IpBits NetFacts Pattern CidrTrie RangeCidr.
Import Parse.
Local Open Scope Z_scope.
Local Open Scope bool_scope.

(** The arrays of the source have 16 bytes, of which [mp_width] are compared; here
    they have exactly those. *)
Record maskPattern := mkMaskPattern { mp_value : bytes; mp_mask : bytes; mp_width : nat }.

Record Stats := mkStats {
  st_Exact : Z; st_CIDR : Z; st_Wildcard : Z; st_Range : Z; st_Dropped : Z
}.

Record MatchSet := mkMatchSet {
  exact4 : gset Z;
  exact6 : gset bytes;
  cidr4 : cidrNode;
  cidr6 : cidrNode;
  wild4 : list maskPattern;
  wild6 : list maskPattern;
  count : Z;
  stats : Stats;
}.

Definition emptySet : MatchSet :=
  mkMatchSet ∅ ∅ newCIDRTrie newCIDRTrie [] [] 0 (mkStats 0 0 0 0 0).

(** [binary.BigEndian.Uint32] of four bytes. *)
Definition uint32_be (b : bytes) : Z := foldl (λ acc x, 256 * acc + x) 0 b.

Definition insertPrefix (m : MatchSet) (width : nat) (netBytes : bytes) (bits : Z) : MatchSet :=
  if (width =? 4)%nat
  then mkMatchSet (exact4 m) (exact6 m) (insert (cidr4 m) netBytes bits) (cidr6 m)
                  (wild4 m) (wild6 m) (count m) (stats m)
  else mkMatchSet (exact4 m) (exact6 m) (cidr4 m) (insert (cidr6 m) netBytes bits)
                  (wild4 m) (wild6 m) (count m) (stats m).

Definition insertWild (m : MatchSet) (wp : maskPattern) : MatchSet :=
  if (mp_width wp =? 4)%nat
  then mkMatchSet (exact4 m) (exact6 m) (cidr4 m) (cidr6 m)
                  (wild4 m ++ [wp]) (wild6 m) (count m) (stats m)
  else mkMatchSet (exact4 m) (exact6 m) (cidr4 m) (cidr6 m)
                  (wild4 m) (wild6 m ++ [wp]) (count m) (stats m).

Definition insertExact (m : MatchSet) (width : nat) (value : bytes) : MatchSet :=
  if (width =? 4)%nat
  then mkMatchSet ({[uint32_be value]} ∪ exact4 m) (exact6 m) (cidr4 m) (cidr6 m)
                  (wild4 m) (wild6 m) (count m) (stats m)
  else mkMatchSet (exact4 m) ({[value]} ∪ exact6 m) (cidr4 m) (cidr6 m)
                  (wild4 m) (wild6 m) (count m) (stats m).

Definition set_stats (m : MatchSet) (c : Z) (st : Stats) : MatchSet :=
  mkMatchSet (exact4 m) (exact6 m) (cidr4 m) (cidr6 m) (wild4 m) (wild6 m) c st.

(** The counters of [Stats], one increment each. *)
Definition bump (k : PatternKind) (st : Stats) : Stats :=
  match k with
  | KindSingle => mkStats (st_Exact st + 1) (st_CIDR st) (st_Wildcard st) (st_Range st) (st_Dropped st)
  | KindCIDR => mkStats (st_Exact st) (st_CIDR st + 1) (st_Wildcard st) (st_Range st) (st_Dropped st)
  | KindWildcard => mkStats (st_Exact st) (st_CIDR st) (st_Wildcard st + 1) (st_Range st) (st_Dropped st)
  | KindRange => mkStats (st_Exact st) (st_CIDR st) (st_Wildcard st) (st_Range st + 1) (st_Dropped st)
  | KindInvalid => mkStats (st_Exact st) (st_CIDR st) (st_Wildcard st) (st_Range st) (st_Dropped st + 1)
  end.

(** The [switch p.Kind] of [Add]: where the pattern goes. *)
Definition store (m : MatchSet) (p : Pattern) : MatchSet :=
  match Kind p with
  | KindSingle => insertExact m (Width p) (Value p)
  | KindCIDR => insertPrefix m (Width p) (Value p) (Prefix p)
  | KindWildcard =>
      if 0 <=? Prefix p then insertPrefix m (Width p) (Value p) (Prefix p)
      else insertWild m (mkMaskPattern (Value p) (Mask p) (Width p))
  | KindRange =>
      foldl (λ m pe, insertPrefix m (Width p) (Net pe) (Z.of_nat (Bits pe))) m
            (rangeToPrefixes (Value p) (End p))
  | KindInvalid => m
  end.

Definition Add (m : MatchSet) (raw : gostr) : MatchSet * bool :=
  match ParsePatternLenient raw with
  | Err _ => (set_stats m (count m) (bump KindInvalid (stats m)), false)
  | Ok p =>
      if bool_decide (Kind p = KindInvalid)
      then (set_stats m (count m) (bump KindInvalid (stats m)), false)
      else
        let m' := store m p in
        (set_stats m' (count m' + 1) (bump (Kind p) (stats m')), true)
  end.

Definition BuildMatchSet (items : list gostr) : MatchSet :=
  foldl (λ m raw, (Add m raw).1) emptySet items.

Definition matchWildcards (list : list maskPattern) (b : bytes) : bool :=
  existsb (λ w, masked_eq (mp_width w) b (mp_mask w) (mp_value w)) list.

(** [Contains]; a nil receiver or a nil address is [None]. *)
Definition Contains (om : option MatchSet) (oip : option bytes) : bool :=
  match om, oip with
  | Some m, Some ip =>
      match ip_to4 ip with
      | Some v4 =>
          if bool_decide (uint32_be v4 ∈ exact4 m) then true
          else if contains (cidr4 m) v4 32 then true
          else matchWildcards (wild4 m) v4
      | None =>
          match ip_to16 ip with
          | None => false
          | Some v6 =>
              if bool_decide (v6 ∈ exact6 m) then true
              else if contains (cidr6 m) v6 128 then true
              else matchWildcards (wild6 m) v6
          end
      end
  | _, _ => false
  end.

Definition ContainsStr (om : option MatchSet) (ipStr : gostr) : bool :=
  match om with
  | None => false
  | Some _ => Contains om (parse_ip (trim_space ipStr))
  end.

Definition Len (om : option MatchSet) : Z := default 0 (count <$> om).
Definition WildcardLen (om : option MatchSet) : nat :=
  match om with None => 0 | Some m => length (wild4 m) + length (wild6 m) end.
Definition HasWildcard (om : option MatchSet) : bool :=
  match om with
  | None => false
  | Some m => (0 <? st_Wildcard (stats m)) || (0 <? st_Range (stats m))
  end.

(** ** List text (listtext.go) *)

Section listtext.
Context `{UnicodeCase}.

Definition listGroupPrefix : gostr := $"group:".

(** [strings.EqualFold] against an ASCII prefix of the same length. *)
Definition equal_fold_prefix (line : gostr) : bool :=
  (length listGroupPrefix <=? length line)%nat
  && bool_decide (map lower_byte (take (length listGroupPrefix) line) = listGroupPrefix).

Definition is_list_sep (c : ascii) : bool :=
  Ascii.eqb c (chr 10) || Ascii.eqb c (chr 13) || Ascii.eqb c ","%char.

(** One line: the patterns and the group codes seen so far. *)
Definition list_line (acc : list gostr * list gostr) (line : gostr) : list gostr * list gostr :=
  let '(patterns, codes) := acc in
  let line := trim_space line in
  if bool_decide (line = []) || has_prefix line $"#" then acc
  else if equal_fold_prefix line then
    let c := trim_space (drop (length listGroupPrefix) line) in
    if bool_decide (c = []) then acc
    else if bool_decide (c ∈ codes) then acc
    else (patterns, codes ++ [c])
  else (patterns ++ [line], codes).

Definition ParseListText (raw : gostr) : list gostr * list gostr :=
  foldl list_line ([], []) (fields_func is_list_sep raw).

Definition BuildFromListText (raw : gostr) : option MatchSet :=
  match (ParseListText raw).1 with
  | [] => None
  | patterns => Some (BuildMatchSet patterns)
  end.

Definition GroupCodesOf (raw : gostr) : list gostr := (ParseListText raw).2.

Lemma list_line_codes_NoDup acc line : NoDup acc.2 → NoDup (list_line acc line).2.
Proof.
  destruct acc as [ps cs]. unfold list_line. cbn. intros Hnd.
  repeat case_match; prop_of_bool; try done. cbn.
  apply NoDup_app. split; [done|split; [|apply NoDup_singleton]].
  intros x Hx ->%list_elem_of_singleton. done.
Qed.

(** What one line of the text means, independently of the others. *)
Inductive line_meaning := LineNothing | LineGroup (c : gostr) | LinePattern (p : gostr).

Definition meaning (line : gostr) : line_meaning :=
  let l := trim_space line in
  if bool_decide (l = []) || has_prefix l $"#" then LineNothing
  else if equal_fold_prefix l then
    let c := trim_space (drop (length listGroupPrefix) l) in
    if bool_decide (c = []) then LineNothing else LineGroup c
  else LinePattern l.

Definition pattern_of (line : gostr) : option gostr :=
  match meaning line with LinePattern p => Some p | _ => None end.
Definition group_of (line : gostr) : option gostr :=
  match meaning line with LineGroup c => Some c | _ => None end.

Lemma list_line_meaning ps cs line :
  list_line (ps, cs) line =
  match meaning line with
  | LineNothing => (ps, cs)
  | LineGroup c => (ps, if bool_decide (c ∈ cs) then cs else cs ++ [c])
  | LinePattern p => (ps ++ [p], cs)
  end.
Proof.
  unfold list_line, meaning. cbn zeta. generalize (trim_space line). intros l.
  destruct (bool_decide (l = []) || has_prefix l $"#"); [done|].
  destruct (equal_fold_prefix l); [|done].
  destruct (bool_decide (trim_space (drop (length listGroupPrefix) l) = [])); [done|].
  by case_bool_decide.
Qed.

Lemma list_lines_spec lines ps cs :
  (foldl list_line (ps, cs) lines).1 = ps ++ omap pattern_of lines ∧
  ∃ new, (foldl list_line (ps, cs) lines).2 = cs ++ new ∧
    new `sublist_of` omap group_of lines ∧
    (∀ c, c ∈ cs ++ new ↔ c ∈ cs ∨ c ∈ omap group_of lines).
Proof.
  revert ps cs. induction lines as [|line lines IH]; intros ps cs; cbn [foldl omap list_omap].
  { rewrite app_nil_r. split; [done|]. exists []. rewrite app_nil_r. split; [done|]. split; [constructor|]. set_solver. }
  rewrite list_line_meaning.
  assert (Hpl : pattern_of line = match meaning line with LinePattern p => Some p | _ => None end) by done.
  assert (Hgl : group_of line = match meaning line with LineGroup c => Some c | _ => None end) by done.
  rewrite Hpl, Hgl. destruct (meaning line) as [|c|p] eqn:E; cbn [fst snd].
  - destruct (IH ps cs) as [-> (new & -> & Hsub & Hin)]. split; [done|]. by exists new.
  - case_bool_decide as Hc.
    + destruct (IH ps cs) as [-> (new & -> & Hsub & Hin)]. split; [done|].
      exists new. split; [done|]. split; [by apply sublist_cons|]. intros x. rewrite Hin. set_solver.
    + destruct (IH ps (cs ++ [c])) as [-> (new & -> & Hsub & Hin)]. split; [done|].
      exists (c :: new). rewrite <- app_assoc in *. split; [done|].
      split; [by apply sublist_skip|]. intros x. rewrite Hin. set_solver.
  - destruct (IH (ps ++ [p]) cs) as [-> (new & -> & Hsub & Hin)]. split; [by rewrite <- app_assoc|].
    by exists new.
Qed.

Lemma list_lines_NoDup lines acc : NoDup acc.2 → NoDup (foldl list_line acc lines).2.
Proof.
  revert acc. induction lines as [|l lines IH]; intros acc Hacc; [done|]. cbn [foldl].
  apply IH. by apply list_line_codes_NoDup.
Qed.

(** parsing a list text.  The patterns are the pattern lines in order; the group
    codes are the codes of the group lines, each once, in order of appearance; both
    sides ([BuildFromListText], [GroupCodesOf]) read the same parse. *)
Theorem ParseListText_spec raw :
  let lines := fields_func is_list_sep raw in
  (ParseListText raw).1 = omap pattern_of lines ∧
  NoDup (GroupCodesOf raw) ∧
  GroupCodesOf raw `sublist_of` omap group_of lines ∧
  (∀ c, c ∈ GroupCodesOf raw ↔ c ∈ omap group_of lines) ∧
  (BuildFromListText raw = None ↔ omap pattern_of lines = []).
Proof.
  intros lines. unfold GroupCodesOf, BuildFromListText, ParseListText. fold lines.
  pose proof (list_lines_NoDup lines ([], []) (NoDup_nil_2)) as Hnd.
  destruct (list_lines_spec lines [] []) as [Hp (new & Hc & Hsub & Hin)].
  rewrite Hp. cbn in Hc. rewrite Hc in *. cbn in *.
  split; [done|]. split; [done|]. split; [done|]. split; [set_solver|]. split.
  - destruct (omap pattern_of lines); [done|by intros].
  - by intros ->.
Qed.
End listtext.

(** ** The abstraction: what a set answers on an address of one family *)

(** The answer of a set on the bytes of an IPv4 or IPv6 address. *)
Definition answer (m : MatchSet) (b : bytes) : bool :=
  if (length b =? 4)%nat
  then bool_decide (uint32_be b ∈ exact4 m) || contains (cidr4 m) b 32 || matchWildcards (wild4 m) b
  else bool_decide (b ∈ exact6 m) || contains (cidr6 m) b 128 || matchWildcards (wild6 m) b.

Definition pattern_answer (p : Pattern) (b : bytes) : bool :=
  (Width p =? length b)%nat && match_bytes p b.

Definition set_ok (m : MatchSet) : Prop := cidr4 m ≠ Nil ∧ cidr6 m ≠ Nil.

Definition wf_addr (b : bytes) : Prop := wf_bytes b ∧ (length b = 4%nat ∨ length b = 16%nat).

Lemma uint32_be_val b : wf_bytes b → uint32_be b = val b.
Proof.
  intros Hb. unfold uint32_be.
  assert (Hgo : ∀ acc, foldl (λ acc x, 256 * acc + x) acc b
                       = acc * 2 ^ (8 * Z.of_nat (length b)) + val b).
  { induction b as [|x b IH]; intros acc; cbn [foldl length].
    - change (2 ^ (8 * Z.of_nat 0)) with 1. change (val []) with 0. lia.
    - apply wf_bytes_cons in Hb as [Hx Hb]. rewrite (IH Hb), val_cons by done.
      replace (8 * Z.of_nat (S (length b))) with (8 + 8 * Z.of_nat (length b)) by lia.
      rewrite Z.pow_add_r by lia. change (2 ^ 8) with 256. ring. }
  rewrite Hgo. lia.
Qed.

Lemma uint32_be_inj a b :
  wf_bytes a → wf_bytes b → length a = length b → uint32_be a = uint32_be b ↔ a = b.
Proof.
  intros Ha Hb Hl. rewrite !uint32_be_val by done.
  split; [by apply val_inj|by intros ->].
Qed.

Ltac width_cases H :=
  let W := fresh "HW" in
  destruct H as [W|W]; rewrite ?W in *; cbn [Nat.eqb] in *.

Lemma insertExact_answer m w v b :
  (w = 4 ∨ w = 16)%nat → wf_bytes v → length v = w → wf_addr b →
  answer (insertExact m w v) b = answer m b || ((w =? length b)%nat && bytes_equal b v).
Proof.
  intros Hw Hv Hlv [Hb Hlb]. unfold answer, insertExact, bytes_equal.
  destruct Hw as [-> | ->], Hlb as [Hlb|Hlb]; rewrite Hlb; cbn [Nat.eqb exact4 exact6 cidr4 cidr6 wild4 wild6 andb];
    rewrite ?orb_false_r; try done.
  - rewrite (bool_decide_ext (uint32_be b ∈ _) (b = v ∨ uint32_be b ∈ exact4 m)).
    + rewrite bool_decide_or. destruct (bool_decide (b = v)); cbn; rewrite ?orb_true_r, ?orb_false_r; done.
    + rewrite elem_of_union, elem_of_singleton, uint32_be_inj by (done || lia). done.
  - rewrite (bool_decide_ext (b ∈ _) (b = v ∨ b ∈ exact6 m)).
    + rewrite bool_decide_or. destruct (bool_decide (b = v)); cbn; rewrite ?orb_true_r, ?orb_false_r; done.
    + by rewrite elem_of_union, elem_of_singleton.
Qed.

Lemma insertPrefix_ok m w v n : set_ok m → set_ok (insertPrefix m w v n).
Proof. intros [? ?]. unfold insertPrefix. case_match; split; cbn; auto using insert_not_nil. Qed.

Lemma insertPrefix_answer m w v n b :
  (w = 4 ∨ w = 16)%nat → set_ok m → length v = w → 0 ≤ n ≤ Z.of_nat (8 * w) → wf_addr b →
  answer (insertPrefix m w v n) b = answer m b || ((w =? length b)%nat && agree (Z.to_nat n) v b).
Proof.
  intros Hw [H4 H6] Hlv Hn [Hb Hlb]. unfold answer, insertPrefix.
  destruct Hw as [-> | ->], Hlb as [Hlb|Hlb]; rewrite Hlb; cbn [Nat.eqb exact4 exact6 cidr4 cidr6 wild4 wild6 andb];
    rewrite ?orb_false_r; try done;
    (rewrite contains_insert by (done || lia)); destruct (agree _ _ _);
    rewrite ?orb_true_r, ?orb_false_r; done.
Qed.

Lemma insertWild_answer m wp b :
  (mp_width wp = 4 ∨ mp_width wp = 16)%nat → wf_addr b →
  answer (insertWild m wp) b
  = answer m b || ((mp_width wp =? length b)%nat && masked_eq (mp_width wp) b (mp_mask wp) (mp_value wp)).
Proof.
  intros Hw [Hb Hlb]. unfold answer, insertWild, matchWildcards.
  destruct Hw as [Hw|Hw], Hlb as [Hlb|Hlb]; rewrite Hlb, Hw;
    cbn [Nat.eqb exact4 exact6 cidr4 cidr6 wild4 wild6 andb]; rewrite ?orb_false_r; try done;
    by rewrite existsb_snoc, Hw, orb_assoc.
Qed.

Lemma insert_blocks_answer w es m b :
  (w = 4 ∨ w = 16)%nat → set_ok m → wf_addr b → Forall (entry_ok w) es →
  let m' := foldl (λ m pe, insertPrefix m w (Net pe) (Z.of_nat (Bits pe))) m es in
  set_ok m' ∧
  answer m' b = answer m b || ((w =? length b)%nat && existsb (λ e, agree (Bits e) (Net e) b) es).
Proof.
  intros Hw Hok Hb. revert m Hok. induction es as [|e es IH]; intros m Hok Hes; cbn [foldl existsb].
  - split; [done|]. by rewrite andb_false_r, orb_false_r.
  - inv Hes. match goal with He : entry_ok w e |- _ => destruct He as ([Hwe Hle] & Hbe & _) end.
    destruct (IH (insertPrefix m w (Net e) (Z.of_nat (Bits e)))) as [Hok' Ha];
      [by apply insertPrefix_ok|done|]. cbn zeta in *.
    split; [done|]. rewrite Ha, insertPrefix_answer by (done || lia). rewrite Nat2Z.id.
    destruct (w =? length b)%nat; cbn; by rewrite ?orb_false_r, ?orb_assoc.
Qed.

Lemma insertExact_ok m w v : set_ok m → set_ok (insertExact m w v).
Proof. intros [? ?]. unfold insertExact. by case_match. Qed.
Lemma insertWild_ok m wp : set_ok m → set_ok (insertWild m wp).
Proof. intros [? ?]. unfold insertWild. by case_match. Qed.

(** Storing a pattern adds exactly the addresses the pattern matches. *)
Lemma store_answer m p b :
  wf_pattern p → set_ok m → wf_addr b →
  set_ok (store m p) ∧ answer (store m p) b = answer m b || pattern_answer p b.
Proof.
  intros [Hw [Hwv Hlv] Hk] Hok Hb. unfold store, pattern_answer, match_bytes.
  assert (Hmask : ∀ n, length b = Width p → wf_bytes (Mask p) → length (Mask p) = Width p →
     bytes_and (Value p) (Mask p) = Value p → mask_ok p n →
     masked_eq (Width p) b (Mask p) (Value p) = agree n (Value p) b).
  { intros n Hlb ?? Hand (_ & Hn & Hshape). rewrite <- Hlb in *.
    apply masked_eq_agree; (done || lia || by destruct Hb). }
  assert (Hins : ∀ n, wf_bytes (Mask p) → length (Mask p) = Width p →
     bytes_and (Value p) (Mask p) = Value p → mask_ok p n →
     answer (insertPrefix m (Width p) (Value p) (Prefix p)) b
     = answer m b || ((Width p =? length b)%nat && masked_eq (Width p) b (Mask p) (Value p))).
  { intros n ??? Hn. pose proof Hn as (Hpre & Hle & _).
    rewrite insertPrefix_answer by (done || lia).
    destruct (Nat.eqb_spec (Width p) (length b)) as [He|]; cbn; [|done].
    rewrite (Hmask n) by done. by rewrite Hpre, Nat2Z.id. }
  destruct (Kind p) eqn:Hkind; [done| | | |].
  - split; [by apply insertExact_ok|by apply insertExact_answer].
  - destruct Hk as (? & ? & ? & [(? & ? & ?)|[n Hn]]); [done|].
    split; [by apply insertPrefix_ok|by apply (Hins n)].
  - destruct Hk as (? & ? & ? & [(? & Hneg & ?)|[n Hn]]).
    + rewrite Hneg. cbn. split; [by apply insertWild_ok|]. by apply insertWild_answer.
    + pose proof Hn as (Hpre & _). destruct (Z.leb_spec 0 (Prefix p)); [|lia].
      split; [by apply insertPrefix_ok|by apply (Hins n)].
  - destruct Hk as (Hwe & Hle & Hlt).
    destruct (rangeToPrefixes_spec (Value p) (End p) (Width p)) as (Hes & _ & Hcover);
      try done; try (destruct Hw; lia).
    destruct (insert_blocks_answer (Width p) _ m b Hw Hok Hb Hes) as [? ->]. split; [done|].
    f_equal. destruct (Nat.eqb_spec (Width p) (length b)) as [He|]; cbn; [|done].
    destruct Hb as [Hwb _]. rewrite Hcover by done.
    rewrite !bytes_compare_val by (done || lia).
    rewrite (bool_decide_ext (_ = Lt) (val b < val (Value p))) by apply Z.compare_lt_iff.
    rewrite (bool_decide_ext (_ = Gt) (val (End p) < val b)) by apply Z.compare_gt_iff.
    apply eq_bool_prop_intro. rewrite bool_decide_spec, Is_true_true, andb_true_iff, !negb_true_iff, !bool_decide_eq_false. lia.
Qed.

Definition parsed (items : list gostr) : list Pattern :=
  omap (λ raw, ok_opt (ParsePatternLenient raw)) items.

Lemma Add_answer m raw b :
  set_ok m → wf_addr b →
  set_ok (Add m raw).1 ∧
  answer (Add m raw).1 b = answer m b || existsb (λ p, pattern_answer p b) (parsed [raw]).
Proof.
  intros Hok Hb. unfold Add, parsed. cbn [omap list_omap].
  destruct (ParsePatternLenient raw) as [p|e] eqn:E; cbn [ok_opt existsb].
  - apply ParsePatternLenient_wf in E. pose proof (wf_kind _ E) as Hk.
    case_bool_decide as Hinv; [by rewrite Hinv in Hk|].
    destruct (store_answer m p b E Hok Hb) as [? Ha]. rewrite orb_false_r. by split.
  - rewrite orb_false_r. by split.
Qed.

Lemma Build_answer items b :
  wf_addr b → answer (BuildMatchSet items) b = existsb (λ p, pattern_answer p b) (parsed items).
Proof.
  intros Hb. unfold BuildMatchSet.
  assert (Hgo : ∀ m, set_ok m →
    answer (foldl (λ m raw, (Add m raw).1) m items) b
    = answer m b || existsb (λ p, pattern_answer p b) (parsed items)).
  { induction items as [|raw items IH]; intros m Hm; cbn [foldl]; [by rewrite orb_false_r|].
    destruct (Add_answer m raw b Hm Hb) as [Hok Ha]. rewrite IH, Ha by done.
    rewrite <- orb_assoc. f_equal. rewrite <- existsb_app. f_equal.
    unfold parsed. by rewrite <- omap_app. }
  rewrite Hgo by done.
  replace (answer emptySet b) with false; [done|]. unfold answer.
  change (cidr4 emptySet) with newCIDRTrie. change (cidr6 emptySet) with newCIDRTrie.
  rewrite !contains_new.
  rewrite !(bool_decide_eq_false_2 (_ ∈ _)) by (cbn [exact4 exact6 emptySet]; set_solver).
  by destruct (length b =? 4)%nat.
Qed.

Lemma Contains_answer m ip b :
  wf_bytes ip → default (default [] (ip_to16 ip)) (ip_to4 ip) = b →
  (ip_to4 ip ≠ None ∨ ip_to16 ip ≠ None) →
  wf_addr b ∧ Contains (Some m) (Some ip) = answer m b.
Proof.
  intros Hip Hb Hsome. unfold Contains, answer.
  destruct (ip_to4 ip) as [v4|] eqn:E4; cbn in Hb; subst b.
  - destruct (ip_to4_wf _ _ Hip E4) as [? Hl]. split; [by split; [|left]|]. rewrite Hl. cbn.
    by destruct (bool_decide _), (contains _ _ _).
  - destruct (ip_to16 ip) as [v6|] eqn:E6; [|by destruct Hsome].
    cbn. destruct (ip_to16_wf _ _ Hip E6) as [? Hl]. split; [by split; [|right]|]. rewrite Hl. cbn.
    by destruct (bool_decide _), (contains _ _ _).
Qed.

Lemma Match_answer p ip b :
  wf_pattern p → wf_bytes ip → default (default [] (ip_to16 ip)) (ip_to4 ip) = b →
  (ip_to4 ip ≠ None ∨ ip_to16 ip ≠ None) →
  Match p ip = pattern_answer p b.
Proof.
  intros Hp Hip Hb Hsome. unfold Match, pattern_answer.
  pose proof (wf_kind _ Hp) as Hk. case_bool_decide as Hinv; [by rewrite Hinv in Hk|].
  destruct (ip_to4 ip) as [v4|] eqn:E4; cbn in Hb; subst b.
  - destruct (ip_to4_wf _ _ Hip E4) as [? Hl]. rewrite Hl. by destruct (Width p =? 4)%nat.
  - destruct (ip_to16 ip) as [v6|] eqn:E6; [|by destruct Hsome].
    cbn. destruct (ip_to16_wf _ _ Hip E6) as [? Hl]. rewrite Hl. by destruct (Width p =? 16)%nat.
Qed.

(** The set answers what the patterns answer one by one. *)
Lemma Contains_parsed items ip :
  wf_bytes ip → (length ip = 4%nat ∨ length ip = 16%nat) →
  Contains (Some (BuildMatchSet items)) (Some ip)
  = existsb (λ p, Match p ip) (parsed items).
Proof.
  intros Hip Hl.
  assert (Hsome : ip_to4 ip ≠ None ∨ ip_to16 ip ≠ None).
  { right. unfold ip_to16. by destruct Hl as [-> | ->]. }
  destruct (Contains_answer (BuildMatchSet items) ip _ Hip eq_refl Hsome) as [Hwf ->].
  rewrite Build_answer by done.
  assert (Hall : Forall wf_pattern (parsed items)).
  { unfold parsed. apply Forall_forall. intros p (raw & _ & Hp)%list_elem_of_omap.
    destruct (ParsePatternLenient raw) eqn:E; [|done]. cbn in Hp. simplify_eq. eauto with samwaf. }
  induction Hall as [|p ps Hp _ IH]; [done|]. cbn [existsb].
  by rewrite IH, (Match_answer p ip _ Hp Hip eq_refl Hsome).
Qed.

(** C14: refinement.  For every list of texts and every address, the compiled set
    answers exactly what testing the address against each parsable pattern, one by
    one, would answer: hash sets, tries, range decomposition and the wildcard list
    together lose nothing and add nothing, whatever the order of the items. *)
Theorem Contains_refines items ip :
  wf_bytes ip → (length ip = 4%nat ∨ length ip = 16%nat) →
  Contains (Some (BuildMatchSet items)) (Some ip)
  = existsb (λ p, Match p ip) (parsed items).
Proof. apply Contains_parsed. Qed.

Lemma Contains_refines_witness :
  Contains (Some (BuildMatchSet [$"10.*.1.*"; $"1.2.3.4-1.2.3.99"; $"oops"; $"2001:db8::/32"]))
    (Some [1;2;3;64]) = true.
Proof.
  rewrite (Contains_refines [$"10.*.1.*"; $"1.2.3.4-1.2.3.99"; $"oops"; $"2001:db8::/32"] [1;2;3;64]).
  - vm_compute. reflexivity.
  - repeat (constructor; [lia|]). constructor.
  - by left.
Defined.

(** ** The counters *)

Definition stats_total (st : Stats) : Z := st_Exact st + st_CIDR st + st_Wildcard st + st_Range st.

Lemma store_counts m p : count (store m p) = count m ∧ stats (store m p) = stats m.
Proof.
  unfold store. destruct (Kind p); [done|..].
  - unfold insertExact. by case_match.
  - unfold insertPrefix. by case_match.
  - unfold insertPrefix, insertWild. by repeat case_match.
  - generalize (rangeToPrefixes (Value p) (End p)) as l. intros l. revert m.
    induction l as [|e l IH]; intros m; [done|]. cbn [foldl].
    destruct (IH (insertPrefix m (Width p) (Net e) (Z.of_nat (Bits e)))) as [-> ->].
    unfold insertPrefix. by case_match.
Qed.

Lemma bump_total k st : k ≠ KindInvalid → stats_total (bump k st) = stats_total st + 1 ∧ st_Dropped (bump k st) = st_Dropped st.
Proof. unfold stats_total. destruct k; cbn; intros; [done|split; lia..]. Qed.

Definition accepted (raw : gostr) : bool := is_ok (ParsePatternLenient raw).

Lemma Add_counts m raw :
  (Add m raw).2 = accepted raw ∧
  count (Add m raw).1 = count m + Z.b2z (accepted raw) ∧
  stats_total (stats (Add m raw).1) = stats_total (stats m) + Z.b2z (accepted raw) ∧
  st_Dropped (stats (Add m raw).1) = st_Dropped (stats m) + Z.b2z (negb (accepted raw)).
Proof.
  unfold Add, accepted. destruct (ParsePatternLenient raw) as [p|e] eqn:E; cbn [is_ok negb Z.b2z].
  - apply ParsePatternLenient_wf in E. pose proof (wf_kind _ E) as Hk.
    case_bool_decide as Hinv; [by rewrite Hinv in Hk|]. cbn.
    destruct (store_counts m p) as [-> ->]. destruct (bump_total (Kind p) (stats m) Hinv) as [-> ->]. lia.
  - cbn. unfold stats_total. cbn. lia.
Qed.

(** nothing disappears silently.  After a build, the four counters of [Stats] add
    up to [Len], which is the number of parsable items, and [Dropped] is the number of
    the others. *)
Theorem BuildMatchSet_counts items :
  Len (Some (BuildMatchSet items)) = Z.of_nat (count_if accepted items) ∧
  stats_total (stats (BuildMatchSet items)) = Len (Some (BuildMatchSet items)) ∧
  st_Dropped (stats (BuildMatchSet items)) = Z.of_nat (length items) - Len (Some (BuildMatchSet items)).
Proof.
  change (Len (Some (BuildMatchSet items))) with (count (BuildMatchSet items)).
  assert (Hgo : ∀ m, let r := foldl (λ m raw, (Add m raw).1) m items in
    count r = count m + Z.of_nat (count_if accepted items) ∧
    stats_total (stats r) = stats_total (stats m) + Z.of_nat (count_if accepted items) ∧
    st_Dropped (stats r) = st_Dropped (stats m) + Z.of_nat (length items) - Z.of_nat (count_if accepted items)).
  { induction items as [|raw items IH]; intros m; cbn [foldl]; [cbn; lia|].
    destruct (IH (Add m raw).1) as (-> & -> & ->). destruct (Add_counts m raw) as (_ & -> & -> & ->).
    rewrite count_if_cons. cbn [length]. rewrite Nat2Z.inj_add, Nat2Z.inj_succ.
    destruct (accepted raw); cbn [Z.b2z negb]; lia. }
  destruct (Hgo emptySet) as (Hc & Hs & Hd). unfold BuildMatchSet in *. cbn zeta in *.
  rewrite Hc, Hs, Hd. change (count emptySet) with 0.
  change (stats_total (stats emptySet)) with 0. change (st_Dropped (stats emptySet)) with 0. lia.
Qed.
