(* ===== verification/Groups.v ===== *)
(** * IP groups (wafenginecore/ipset/groups.go)

    The copy-on-write snapshot of compiled IP groups: two indexes, by short code and by
    name, that share the same [*MatchSet] pointers.  A pointer is an address of the
    heap [store]; a published snapshot is a value, and every writer builds a new one. *)
From S2P Require Import Prelude.
From S2P Require Import GoLib.
From S2P Require Import Pattern.
From S2P Require Import MatchSet.

Module Groups.

(** [*MatchSet]: [None] is nil, [Some l] the address of a set. *)
Definition ptr := option Z.

Record GroupSnapshot := mkSnapshot { ByCode : gmap gostr ptr; ByName : gmap gostr ptr }.

(** [groupSnapshot]: the atomic pointer; [None] until something is published. *)
Definition state := option GroupSnapshot.

Definition SetGroupSnapshot (_ : state) (s : option GroupSnapshot) : state := s.

Definition cloneSnapshotLocked (cur : state) : GroupSnapshot :=
  match cur with
  | None => mkSnapshot ∅ ∅
  | Some s => s
  end.

(** [for n, mm := range next.ByName { if mm == old { delete(next.ByName, n) } }] *)
Definition drop_names (old : ptr) (names : gmap gostr ptr) : gmap gostr ptr :=
  filter (λ nm, nm.2 ≠ old) names.

Definition UpsertGroupMatcher (st : state) (code name : gostr) (m : ptr) : state :=
  if bool_decide (code = []) then st
  else
    let next := cloneSnapshotLocked st in
    let names := match ByCode next !! code with
                 | Some old => drop_names old (ByName next)
                 | None => ByName next
                 end in
    let codes := <[code := m]> (ByCode next) in
    Some (mkSnapshot codes (if bool_decide (name = []) then names else <[name := m]> names)).

Definition RemoveGroupMatcher (st : state) (code : gostr) : state :=
  if bool_decide (code = []) then st
  else match st with
       | None => st
       | Some cur =>
           match ByCode cur !! code with
           | None => st
           | Some old =>
               let next := cloneSnapshotLocked st in
               Some (mkSnapshot (delete code (ByCode next)) (drop_names old (ByName next)))
           end
       end.

(** A missing key of a Go map of pointers reads as nil. *)
Definition GetGroupMatcher (st : state) (code : gostr) : ptr :=
  match st with
  | None => None
  | Some s => default None (ByCode s !! code)
  end.

Definition LookupGroupMatcher (st : state) (codeOrName : gostr) : ptr :=
  match st with
  | None => None
  | Some s =>
      let key := trim_space codeOrName in
      match ByCode s !! key with
      | Some m => m
      | None => default None (ByName s !! key)
      end
  end.

(** [GroupStats], with the sets behind the pointers. *)
Definition GroupStats (heap : gmap Z MatchSet) (st : state) : Z * Z :=
  match st with
  | None => (0, 0)%Z
  | Some s =>
      map_fold (λ _ m acc, (acc.1 + 1, acc.2 + Len (m ≫= λ l, heap !! l))%Z) (0, 0)%Z (ByCode s)
  end.

(** ** What a reader may rely on *)

Section specs.
Open Scope Z_scope.

(** Each group owns its set: no two codes share a pointer, and a name always points to
    the set of some code. *)
Definition owned (st : state) : Prop :=
  ∀ s, st = Some s →
    (∀ c c' m, ByCode s !! c = Some m → ByCode s !! c' = Some m → c = c') ∧
    (∀ n m, ByName s !! n = Some m → ∃ c, ByCode s !! c = Some m).

(** A pointer that no code of the snapshot holds: what [BuildMatchSet] returns. *)
Definition fresh (st : state) (m : ptr) : Prop :=
  ∀ s c, st = Some s → ByCode s !! c ≠ Some m.

Lemma drop_names_lookup old names n m :
  drop_names old names !! n = Some m ↔ names !! n = Some m ∧ m ≠ old.
Proof. unfold drop_names. rewrite map_lookup_filter_Some. done. Qed.

Lemma Upsert_owned st code name m :
  owned st → fresh st m → owned (UpsertGroupMatcher st code name m).
Proof.
  intros Ho Hf. unfold UpsertGroupMatcher. case_bool_decide as Hc; [done|].
  intros s [= <-]. cbn.
  assert (Hu : ∀ c c' x, ByCode (cloneSnapshotLocked st) !! c = Some x →
    ByCode (cloneSnapshotLocked st) !! c' = Some x → c = c')
    by (destruct st as [s|]; [by apply Ho|done]).
  assert (Hn : ∀ n x, ByName (cloneSnapshotLocked st) !! n = Some x →
    ∃ c, ByCode (cloneSnapshotLocked st) !! c = Some x)
    by (destruct st as [s|]; [by apply Ho|done]).
  assert (Hm : ∀ c, ByCode (cloneSnapshotLocked st) !! c ≠ Some m)
    by (destruct st as [s|]; [intros c; by apply Hf|done]).
  set (next := cloneSnapshotLocked st) in *. split.
  - intros c c' x. rewrite !lookup_insert_Some. naive_solver.
  - assert (Hname : ∀ n x,
      match ByCode next !! code with
      | Some old => drop_names old (ByName next)
      | None => ByName next
      end !! n = Some x → ∃ c, c ≠ code ∧ ByCode next !! c = Some x).
    { intros n x Hx. destruct (ByCode next !! code) as [old|] eqn:E.
      - apply drop_names_lookup in Hx as [[c Hcx]%Hn Hne]. exists c. split; [congruence|done].
      - apply Hn in Hx as [c Hcx]. exists c. split; [congruence|done]. }
    intros n x Hx.
    assert (Hx' : x = m ∨ ∃ c, c ≠ code ∧ ByCode next !! c = Some x).
    { case_bool_decide; [right; by eapply Hname|].
      apply lookup_insert_Some in Hx as [[_ <-]|[_ Hx]]; [by left|right; by eapply Hname]. }
    destruct Hx' as [->|(c & Hne & Hcx)].
    + exists code. apply lookup_insert_eq.
    + exists c. by rewrite lookup_insert_ne.
Qed.

Lemma Remove_owned st code : owned st → owned (RemoveGroupMatcher st code).
Proof.
  intros Ho. unfold RemoveGroupMatcher. case_bool_decide; [done|].
  destruct st as [cur|]; [|done]. destruct (ByCode cur !! code) as [old|] eqn:E; [|done].
  destruct (Ho cur eq_refl) as [Hu Hn]. intros s [= <-]. cbn. split.
  - intros c c' m. rewrite !lookup_delete_Some. naive_solver.
  - intros n m [[c Hc]%Hn Hne]%drop_names_lookup. exists c. rewrite lookup_delete_Some. split; [congruence|done].
Qed.

Inductive step : state → state → Prop :=
| step_upsert st code name m : fresh st m → step st (UpsertGroupMatcher st code name m)
| step_remove st code : step st (RemoveGroupMatcher st code).

Lemma reachable_owned st : rtc step None st → owned st.
Proof.
  intros Hr. assert (H0 : owned None) by (by intros s).
  revert H0. induction Hr as [|st st' st'' Hs _ IH]; [done|]. intros Ho. apply IH.
  inv Hs; [by apply Upsert_owned|by apply Remove_owned].
Qed.

(** updating one group.  In every reachable snapshot, after an update the code and
    the new name give the new set, any other name that led to the group's former set
    leads nowhere, and what the codes and names of the other groups lead to is
    unchanged. *)
Theorem UpsertGroupMatcher_spec st code name m :
  rtc step None st → fresh st m → code ≠ [] →
  let st' := UpsertGroupMatcher st code name m in
  GetGroupMatcher st' code = m ∧
  (∀ c, c ≠ code → GetGroupMatcher st' c = GetGroupMatcher st c) ∧
  (∀ s s', st = Some s → st' = Some s' →
     (name ≠ [] → ByName s' !! name = Some m) ∧
     (∀ n, n ≠ name → ByCode s !! code ≠ None → ByName s !! n = ByCode s !! code → ByName s' !! n = None) ∧
     (∀ n c x, n ≠ name → c ≠ code → ByCode s !! c = Some x → ByName s !! n = Some x →
        ByName s' !! n = Some x)).
Proof.
  intros Hr%reachable_owned Hf Hc st'. unfold st', UpsertGroupMatcher.
  rewrite bool_decide_eq_false_2 by done.
  split; [cbn; by rewrite lookup_insert_eq|]. split.
  - intros c Hne. cbn. rewrite lookup_insert_ne by done. by destruct st.
  - intros s s' -> [= <-]. cbn. destruct (Hr s eq_refl) as [Hu Hn].
    assert (Hlk : ∀ (names : gmap gostr ptr) n, n ≠ name →
      (if bool_decide (name = []) then names else <[name := m]> names) !! n = names !! n).
    { intros names n Hne. case_bool_decide; [done|by rewrite lookup_insert_ne]. }
    split; [|split].
    + intros Hne. rewrite bool_decide_eq_false_2 by done. apply lookup_insert_eq.
    + intros n Hne Hex Heq. rewrite Hlk by done.
      destruct (ByCode s !! code) as [old|]; [|done].
      apply eq_None_not_Some. intros [x Hx]. apply drop_names_lookup in Hx as [Hx Hxo]. congruence.
    + intros n c x Hne Hcc Hcx Hnx. rewrite Hlk by done.
      destruct (ByCode s !! code) as [old|] eqn:E; [|done].
      apply drop_names_lookup. split; [done|]. intros ->. by apply Hcc, (Hu _ _ old).
Qed.

Lemma UpsertGroupMatcher_spec_witness :
  let s1 := UpsertGroupMatcher None $"a" $"office" (Some 1) in
  GetGroupMatcher (UpsertGroupMatcher s1 $"a" $"home" (Some 2)) $"a" = Some 2.
Proof.
  apply UpsertGroupMatcher_spec.
  - apply rtc_once. apply step_upsert. by intros s c.
  - intros s c [= <-]. cbn. intros [[_ ?]|[_ ?]]%lookup_insert_Some; done.
  - done.
Defined.

(** removing a group makes it unreachable by code and by any of its names, and
    touches no other group. *)
Theorem RemoveGroupMatcher_spec st code :
  rtc step None st → code ≠ [] →
  let st' := RemoveGroupMatcher st code in
  GetGroupMatcher st' code = None ∧
  (∀ c, c ≠ code → GetGroupMatcher st' c = GetGroupMatcher st c) ∧
  (∀ s s' n x, st = Some s → st' = Some s' →
     ByName s' !! n = Some x ↔ ByName s !! n = Some x ∧ ByCode s !! code ≠ Some x).
Proof.
  intros Hr%reachable_owned Hc st'. unfold st', RemoveGroupMatcher.
  rewrite bool_decide_eq_false_2 by done.
  destruct st as [s|]; [|done]. destruct (ByCode s !! code) as [old|] eqn:E; unfold GetGroupMatcher.
  - cbn. rewrite lookup_delete_eq. split; [done|]. split.
    + intros c Hne. by rewrite lookup_delete_ne.
    + intros s0 s' n x [= <-] [= <-]. cbn. rewrite drop_names_lookup, E. naive_solver.
  - split; [unfold ptr in *; by rewrite E|]. split; [done|].
    intros s0 s' n x [= <-] [= <-]. split; [intros ?; split; [done|congruence]|by intros [? _]].
Qed.

Lemma RemoveGroupMatcher_spec_witness :
  GetGroupMatcher (RemoveGroupMatcher (UpsertGroupMatcher None $"a" $"office" (Some 1)) $"a") $"a" = None.
Proof.
  apply RemoveGroupMatcher_spec; [|done].
  apply rtc_once. apply step_upsert. by intros s c.
Defined.

End specs.
End Groups.
