(* ===== verification/LoadBalance.v ===== *)
(** * Load balancing (wafenginecore/loadbalance)

    [WRR]: the smooth weighted round robin of weighted_round_robin.go.
    [IPHash]: the consistent-hash ring of iphash.go, whose hash function is a
    parameter ([NewConsistentHashBalance] takes one, CRC-32 by default). *)
From S2P Require Import Prelude.
From S2P Require Import GoLib.
Local Open Scope Z_scope.
Local Open Scope bool_scope.

Module WRR.

Record WeightNode := mkNode { addr : Z; weight : Z; currentWeight : Z; effectiveWeight : Z }.

(** [WeightRoundRobinBalance] ([curIndex] is never used). *)
Record WeightRoundRobinBalance := mkWRR { hostCode : gostr; rss : list WeightNode }.

Definition NewWeightRoundRobinBalance (hostCode : gostr) : WeightRoundRobinBalance := mkWRR hostCode [].

Definition Add (r : WeightRoundRobinBalance) (a w : Z) : WeightRoundRobinBalance :=
  mkWRR (hostCode r) (rss r ++ [mkNode a w 0 w]).

(** One round of the loop body: steps 2 and 3 on a node. *)
Definition bump_node (w : WeightNode) : WeightNode :=
  mkNode (addr w) (weight w) (currentWeight w + effectiveWeight w)
    (if effectiveWeight w <? weight w then effectiveWeight w + 1 else effectiveWeight w).

(** The loop: [i] the index of the next node, [best] the index and the weight of the
    best node so far. *)
Fixpoint next_loop (nodes : list WeightNode) (i : nat) (total : Z) (best : option (nat * Z)) :
    list WeightNode * Z * option (nat * Z) :=
  match nodes with
  | [] => ([], total, best)
  | w :: nodes' =>
      let w' := bump_node w in
      let best' := match best with
                   | None => Some (i, currentWeight w')
                   | Some (_, bw) => if bw <? currentWeight w' then Some (i, currentWeight w') else best
                   end in
      let '(ns, total', b) := next_loop nodes' (S i) (total + effectiveWeight w) best' in
      (w' :: ns, total', b)
  end.

Definition take_total (total : Z) (w : WeightNode) : WeightNode :=
  mkNode (addr w) (weight w) (currentWeight w - total) (effectiveWeight w).

Definition Next (r : WeightRoundRobinBalance) : WeightRoundRobinBalance * Z :=
  let '(ns, total, best) := next_loop (rss r) 0 0 None in
  match best with
  | None => (mkWRR (hostCode r) ns, -1)
  | Some (i, _) =>
      (mkWRR (hostCode r) (alter (take_total total) i ns), default (-1) (addr <$> ns !! i))
  end.

Definition Get (r : WeightRoundRobinBalance) : WeightRoundRobinBalance * Z := Next r.

(** The loop of [GetHealthy]: at most [n] calls of [Next]. *)
Fixpoint healthy_loop (isHealthy : gostr → gostr → bool) (n : nat) (r : WeightRoundRobinBalance) :
    WeightRoundRobinBalance * option Z :=
  match n with
  | O => (r, None)
  | S n' =>
      let (r', next) := Next r in
      if next =? -1 then (r', None)
      else if isHealthy (hostCode r') (itoa next) then (r', Some next)
      else healthy_loop isHealthy n' r'
  end.

(** [GetHealthy]; [None] is the run-time panic of [r.rss[0]] on an empty list. *)
Definition GetHealthy (isHealthy : gostr → gostr → bool) (r : WeightRoundRobinBalance) :
    WeightRoundRobinBalance * option Z :=
  let (r', found) := healthy_loop isHealthy (length (rss r)) r in
  match found with
  | Some a => (r', Some a)
  | None => (r', addr <$> head (rss r'))
  end.

(** [n] successive calls of [Next]: the addresses served. *)
Fixpoint serve (n : nat) (r : WeightRoundRobinBalance) : WeightRoundRobinBalance * list Z :=
  match n with
  | O => (r, [])
  | S n' => let (r1, a) := Next r in let (r2, l) := serve n' r1 in (r2, a :: l)
  end.

(** ** Fairness *)

(** The balancer over [nodes] (addresses and weights) once the nodes have been picked
    in the order [picks] (indices): after [n] calls the current weight of node [i] is
    [n * w - W * c], with [W] the total weight and [c] the number of its picks. *)
Definition total_weight (nodes : list (Z * Z)) : Z := zsum (map snd nodes).
Definition picked (picks : list nat) (i : nat) : Z := Z.of_nat (count_if (Nat.eqb i) picks).
Definition lead (nodes : list (Z * Z)) (picks : list nat) (i : nat) (w : Z) : Z :=
  Z.of_nat (length picks) * w - total_weight nodes * picked picks i.
Definition state_at (nodes : list (Z * Z)) (picks : list nat) : list WeightNode :=
  imap (λ i aw, mkNode aw.1 aw.2 (lead nodes picks i aw.2) aw.2) nodes.
Definition addr_of (nodes : list (Z * Z)) (i : nat) : Z := default (-1) (fst <$> nodes !! i).

Definition best_ok (i : nat) (ns : list WeightNode) (best : option (nat * Z)) (j : nat) (v : Z) : Prop :=
  (∀ k w, ns !! k = Some w → currentWeight (bump_node w) ≤ v) ∧
  (∀ j0 b, best = Some (j0, b) → b ≤ v) ∧
  (best = Some (j, v) ∨ ∃ k w, ns !! k = Some w ∧ j = (i + k)%nat ∧ v = currentWeight (bump_node w)).

Lemma next_loop_spec ns i total best :
  let '(ns', total', best') := next_loop ns i total best in
  ns' = map bump_node ns ∧ total' = total + zsum (map effectiveWeight ns) ∧
  match best' with
  | Some (j, v) => best_ok i ns best j v
  | None => ns = [] ∧ best = None
  end.
Proof.
  revert i total best. induction ns as [|w ns IH]; intros i total best; cbn [next_loop].
  - cbn. split; [done|]. split; [lia|]. destruct best as [[j v]|]; [|done].
    split; [done|]. split; [by intros j0 b [= -> ->]|by left].
  - set (best' := match best with None => _ | Some _ => _ end).
    specialize (IH (S i) (total + effectiveWeight w) best').
    destruct (next_loop ns (S i) (total + effectiveWeight w) best') as [[ns' total'] b].
    destruct IH as (-> & -> & Hb). split; [done|]. cbn [map zsum foldr]. unfold zsum. split; [lia|].
    assert (Hbest : ∃ j0 b0, best' = Some (j0, b0) ∧ currentWeight (bump_node w) ≤ b0 ∧
      (∀ j1 b1, best = Some (j1, b1) → b1 ≤ b0) ∧
      (best = Some (j0, b0) ∨ (j0 = i ∧ b0 = currentWeight (bump_node w)))).
    { unfold best'. destruct best as [[j0 b0]|].
      - destruct (Z.ltb_spec b0 (currentWeight (bump_node w))).
        + eexists _, _. split; [reflexivity|]. split; [lia|]. split; [intros ?? [= -> ->]; lia|by right].
        + eexists _, _. split; [reflexivity|]. split; [lia|]. split; [intros ?? [= -> ->]; lia|by left].
      - eexists _, _. split; [reflexivity|]. split; [lia|]. split; [done|by right]. }
    destruct Hbest as (j0 & b0 & Hbest & Hw & Hold & Horig).
    destruct b as [[j v]|]; [|by destruct Hb; congruence].
    destruct Hb as (Hall & Hprev & Hcase). specialize (Hprev _ _ Hbest).
    split; [|split].
    + intros [|k] w' Hk; cbn in Hk; [injection Hk as <-; lia|by apply (Hall k)].
    + intros j1 b1 Hj1. specialize (Hold _ _ Hj1). lia.
    + destruct Hcase as [He|(k & w' & Hk & -> & ->)].
      * rewrite Hbest in He. injection He as -> ->.
        destruct Horig as [?|[-> ->]]; [by left|right]. exists 0%nat, w. split; [done|]. split; [lia|done].
      * right. exists (S k), w'. split; [done|]. split; [lia|done].
Qed.

Lemma zsum_le_max (l : list Z) v : (∀ x, x ∈ l → x ≤ v) → zsum l ≤ Z.of_nat (length l) * v.
Proof.
  induction l as [|x l IH]; intros H; [cbn; lia|]. cbn [zsum foldr length]. fold (zsum l).
  specialize (IH ltac:(set_solver)). specialize (H x ltac:(set_solver)). lia.
Qed.

Lemma imap_shift {A B} (f : nat → A → B) k l :
  imap ((λ i x, f (k + i)%nat x) ∘ S) l = imap (λ i x, f (S k + i)%nat x) l.
Proof. apply imap_ext. intros i x _. unfold compose. by rewrite Nat.add_succ_r. Qed.

(** The picks sum up: every pick is of some node. *)
Lemma picked_sum nodes (picks : list nat) :
  Forall (λ i, (i < length nodes)%nat) picks →
  zsum (imap (λ i (_ : Z * Z), picked picks i) nodes) = Z.of_nat (length picks).
Proof.
  intros Hp.
  assert (Hgo : ∀ (l : list (Z * Z)) k, zsum (imap (λ i (_ : Z * Z), picked picks (k + i)%nat) l)
    = Z.of_nat (count_if (λ i, (k <=? i)%nat && (i <? k + length l)%nat) picks)).
  { intros l. induction l as [|x l IH]; intros k.
    - rewrite count_if_false; [done|]. intros i _. cbn [length].
      rewrite andb_false_iff, Nat.leb_gt, Nat.ltb_ge. lia.
    - cbn [imap zsum foldr]. fold (zsum (imap ((λ i (_ : Z * Z), picked picks (k + i)%nat) ∘ S) l)).
      rewrite (imap_shift (λ i (_ : Z * Z), picked picks i)).
      rewrite IH. rewrite Nat.add_0_r. unfold picked. rewrite <- Nat2Z.inj_add. f_equal.
      clear. cbn [length]. induction picks as [|p ps IH]; [done|]. rewrite !count_if_cons.
      destruct (Nat.eqb_spec k p), (Nat.leb_spec k p), (Nat.leb_spec (S k) p),
        (Nat.ltb_spec p (S k + length l)), (Nat.ltb_spec p (k + S (length l))); cbn [andb]; lia. }
  specialize (Hgo nodes 0%nat). cbn [Nat.add] in Hgo. rewrite Hgo. clear Hgo. f_equal.
  induction Hp as [|p ps Hlt _ IH]; [done|]. rewrite count_if_cons, IH. cbn [length].
  destruct (Nat.ltb_spec p (length nodes)); [cbn; lia|lia].
Qed.

Section fairness.
Context (nodes : list (Z * Z)) (Hpos : Forall (λ aw, 0 < aw.2) nodes).
Let W := total_weight nodes.

(** [picks] is a history in which no node got ahead of its share by a whole turn. *)
Definition fair (picks : list nat) : Prop :=
  Forall (λ i, (i < length nodes)%nat) picks ∧
  ∀ i aw, nodes !! i = Some aw → - W < lead nodes picks i aw.2.

Lemma weights_nonneg : Forall (λ x, 0 ≤ x) (map snd nodes).
Proof. apply Forall_map. eapply Forall_impl; [exact Hpos|]. cbn. lia. Qed.

Lemma weight_le_total i aw : nodes !! i = Some aw → 0 < aw.2 ≤ W.
Proof.
  intros Hi. pose proof (Forall_lookup_1 _ _ _ _ Hpos Hi). split; [done|].
  unfold W, total_weight. apply list_elem_of_lookup_2, list_elem_of_split in Hi as (l1 & l2 & Heq).
  pose proof weights_nonneg as Hn. rewrite Heq in *. rewrite map_app in *. rewrite zsum_app. cbn.
  apply Forall_app in Hn as [H1 H2]. apply zsum_nonneg in H1. inv H2.
  apply zsum_nonneg in H5. unfold zsum in *. lia.
Qed.

Lemma sum_lead picks l k :
  zsum (imap (λ i aw, lead nodes picks (k + i)%nat aw.2 + aw.2) l)
  = (Z.of_nat (length picks) + 1) * zsum (map snd l) - W * zsum (imap (λ i (_ : Z * Z), picked picks (k + i)%nat) l).
Proof.
  revert k. induction l as [|x l IH]; intros k; [cbn; lia|].
  cbn [imap zsum foldr map].
  fold (zsum (imap ((λ i aw, lead nodes picks (k + i)%nat aw.2 + aw.2) ∘ S) l)).
  fold (zsum (map snd l)). fold (zsum (imap ((λ i (_ : Z * Z), picked picks (k + i)%nat) ∘ S) l)).
  rewrite (imap_shift (λ i aw, lead nodes picks i aw.2 + aw.2)).
  rewrite (imap_shift (λ i (_ : Z * Z), picked picks i)).
  rewrite IH. unfold lead. fold W. lia.
Qed.

(** One call of [Next] on a fair state: some node is picked, and the state is fair. *)
Lemma Next_state host picks :
  nodes ≠ [] → fair picks →
  ∃ j, (j < length nodes)%nat ∧ fair (picks ++ [j]) ∧
    Next (mkWRR host (state_at nodes picks)) = (mkWRR host (state_at nodes (picks ++ [j])), addr_of nodes j).
Proof.
  intros Hne [Hin Hfair]. unfold Next. cbn [rss hostCode].
  pose proof (next_loop_spec (state_at nodes picks) 0 0 None) as Hspec.
  destruct (next_loop (state_at nodes picks) 0 0 None) as [[ns total] best].
  destruct Hspec as (-> & -> & Hbest).
  assert (Hlk : ∀ k w, state_at nodes picks !! k = Some w →
    ∃ aw, nodes !! k = Some aw ∧ w = mkNode aw.1 aw.2 (lead nodes picks k aw.2) aw.2).
  { intros k w. unfold state_at. rewrite list_lookup_imap. destruct (nodes !! k) as [aw|]; cbn; [|done].
    intros [= <-]. by exists aw. }
  assert (Htotal : zsum (map effectiveWeight (state_at nodes picks)) = W).
  { unfold W, total_weight. f_equal. unfold state_at. apply list_eq. intros k.
    rewrite !list_lookup_fmap, list_lookup_imap. by destruct (nodes !! k). }
  rewrite Htotal, Z.add_0_l.
  destruct best as [[j v]|].
  2:{ destruct Hbest as [Hnil _]. apply (f_equal length) in Hnil. unfold state_at in Hnil.
      rewrite length_imap in Hnil. exfalso. by apply Hne, nil_length_inv. }
  destruct Hbest as (Hmax & _ & [?|(k & w & Hk & -> & ->)]); [done|]. cbn [Nat.add].
  destruct (Hlk _ _ Hk) as (aw & Haw & ->). exists k.
  split; [by eapply lookup_lt_Some|].
  assert (Hbump : ∀ i bw, nodes !! i = Some bw → bump_node (mkNode bw.1 bw.2 (lead nodes picks i bw.2) bw.2)
    = mkNode bw.1 bw.2 (lead nodes picks i bw.2 + bw.2) bw.2).
  { intros i bw _. unfold bump_node. cbn. by rewrite Z.ltb_irrefl. }
  rewrite Hbump in Hmax by done. cbn in Hmax.
  assert (Hv : 0 < lead nodes picks k aw.2 + aw.2).
  { pose proof (sum_lead picks nodes 0) as Hsum. cbn [Nat.add] in Hsum.
    rewrite picked_sum in Hsum by done. fold (total_weight nodes) in Hsum. fold W in Hsum.
    assert (Hle : zsum (imap (λ i aw, lead nodes picks i aw.2 + aw.2) nodes)
      ≤ Z.of_nat (length nodes) * (lead nodes picks k aw.2 + aw.2)).
    { rewrite <- (length_imap (λ i aw, lead nodes picks i aw.2 + aw.2) nodes). apply zsum_le_max.
      intros x (i & Hi)%list_elem_of_lookup. rewrite list_lookup_imap in Hi.
      destruct (nodes !! i) as [bw|] eqn:E; [|done]. cbn in Hi. injection Hi as <-.
      assert (Hs : state_at nodes picks !! i = Some (mkNode bw.1 bw.2 (lead nodes picks i bw.2) bw.2))
        by (unfold state_at; by rewrite list_lookup_imap, E).
      apply Hmax in Hs. done. }
    pose proof (weight_le_total _ _ Haw). nia. }
  assert (Hlead : ∀ i w, lead nodes (picks ++ [k]) i w
    = lead nodes picks i w + w - if (i =? k)%nat then W else 0).
  { intros i w. unfold lead, picked. rewrite length_app, count_if_app, count_if_cons. cbn [length].
    fold W. destruct (Nat.eqb_spec i k); cbn [count_if List.filter length]; lia. }
  split.
  { split; [by apply Forall_app_2; [|constructor; [by eapply lookup_lt_Some|constructor]]|].
    intros i bw Hi. rewrite Hlead. specialize (Hfair _ _ Hi). pose proof (weight_le_total _ _ Hi).
    destruct (Nat.eqb_spec i k) as [->|]; [|lia]. replace bw with aw by congruence. lia. }
  f_equal.
  - f_equal. apply list_eq. intros i. unfold state_at at 2. rewrite list_lookup_imap.
    destruct (decide (i = k)) as [->|Hik].
    + rewrite list_lookup_alter_eq, list_lookup_fmap, Hk, Haw. cbn [fmap option_fmap option_map].
      rewrite (Hbump _ _ Haw). unfold take_total. cbn. rewrite Hlead, Nat.eqb_refl. done.
    + rewrite list_lookup_alter_ne, list_lookup_fmap by done. unfold state_at. rewrite list_lookup_imap.
      destruct (nodes !! i) as [bw|] eqn:E; [|done]. cbn [fmap option_fmap option_map].
      rewrite (Hbump _ _ E), Hlead. destruct (Nat.eqb_spec i k); [done|]. do 2 f_equal. lia.
  - rewrite list_lookup_fmap, Hk. unfold addr_of. rewrite Haw. cbn [fmap option_fmap option_map default].
    by rewrite (Hbump _ _ Haw).
Qed.

Lemma serve_state host n picks :
  nodes ≠ [] → fair picks →
  ∃ new, length new = n ∧ fair (picks ++ new) ∧
    serve n (mkWRR host (state_at nodes picks))
    = (mkWRR host (state_at nodes (picks ++ new)), map (addr_of nodes) new).
Proof.
  intros Hne. revert picks. induction n as [|n IH]; intros picks Hf.
  { exists []. by rewrite app_nil_r. }
  cbn [serve]. destruct (Next_state host picks Hne Hf) as (j & Hj & Hf' & ->).
  destruct (IH _ Hf') as (new & Hl & Hf'' & ->). exists (j :: new).
  rewrite <- app_assoc in *. by split; [cbn; lia|].
Qed.

(** After a whole turn every node has been picked exactly its weight. *)
Lemma fair_turn picks :
  fair picks → Z.of_nat (length picks) = W → nodes ≠ [] →
  ∀ i aw, nodes !! i = Some aw → picked picks i = aw.2.
Proof.
  intros [Hin Hfair] Hlen Hne.
  assert (Hle : ∀ i aw, nodes !! i = Some aw → picked picks i ≤ aw.2).
  { intros i aw Hi. specialize (Hfair _ _ Hi). unfold lead in Hfair. fold W in Hfair. rewrite Hlen in Hfair.
    pose proof (weight_le_total _ _ Hi). nia. }
  pose proof (picked_sum nodes picks Hin) as Hsum. rewrite Hlen in Hsum. unfold W, total_weight in Hsum.
  assert (Hgo : ∀ (l : list (Z * Z)) k, (∀ i aw, l !! i = Some aw → picked picks (k + i)%nat ≤ aw.2) →
    zsum (imap (λ i (_ : Z * Z), picked picks (k + i)%nat) l) ≤ zsum (map snd l) ∧
    (zsum (imap (λ i (_ : Z * Z), picked picks (k + i)%nat) l) = zsum (map snd l) →
     ∀ i aw, l !! i = Some aw → picked picks (k + i)%nat = aw.2)).
  { intros l. induction l as [|x l IH]; intros k Hl; [by split|].
    cbn [imap zsum foldr map]. fold (zsum (imap ((λ i (_ : Z * Z), picked picks (k + i)%nat) ∘ S) l)). fold (zsum (map snd l)).
    rewrite (imap_shift (λ i (_ : Z * Z), picked picks i)).
    destruct (IH (S k)) as [IHle IHeq].
    { intros i aw Hi. specialize (Hl (S i) aw Hi). by replace (S k + i)%nat with (k + S i)%nat by lia. }
    pose proof (Hl 0%nat x eq_refl) as H0. rewrite Nat.add_0_r in *. split; [lia|].
    intros Heq [|i] aw Hi; cbn in Hi.
    - injection Hi as <-. rewrite Nat.add_0_r. lia.
    - replace (k + S i)%nat with (S k + i)%nat by lia. apply IHeq; [lia|done]. }
  destruct (Hgo nodes 0%nat) as [_ H]; [done|]. by apply H.
Qed.

End fairness.

Lemma Add_all host nodes ns :
  foldl (λ r aw, Add r aw.1 aw.2) (mkWRR host ns) nodes
  = mkWRR host (ns ++ map (λ aw, mkNode aw.1 aw.2 0 aw.2) nodes).
Proof.
  revert ns. induction nodes as [|x nodes IH]; intros ns; cbn; [by rewrite app_nil_r|].
  unfold Add at 2. cbn [hostCode rss]. rewrite IH. by rewrite <- app_assoc.
Qed.

(** The balancer of a configuration: its nodes added in order. *)
Definition build (host : gostr) (nodes : list (Z * Z)) : WeightRoundRobinBalance :=
  foldl (λ r aw, Add r aw.1 aw.2) (NewWeightRoundRobinBalance host) nodes.

Lemma build_state host nodes picks :
  (∀ i aw, nodes !! i = Some aw → lead nodes picks i aw.2 = 0) →
  mkWRR host (state_at nodes picks) = build host nodes.
Proof.
  intros H0. unfold build, NewWeightRoundRobinBalance. rewrite Add_all. f_equal. cbn.
  apply list_eq. intros i. unfold state_at. rewrite list_lookup_imap, list_lookup_fmap.
  destruct (nodes !! i) as [aw|] eqn:E; [|done]. cbn. by rewrite (H0 _ _ E).
Qed.

Lemma count_addr nodes picks i aw :
  NoDup (map fst nodes) → nodes !! i = Some aw → Forall (λ k, (k < length nodes)%nat) picks →
  count_if (Z.eqb aw.1) (map (addr_of nodes) picks) = count_if (Nat.eqb i) picks.
Proof.
  intros Hnd Hi Hp. induction Hp as [|p ps Hlt _ IH]; [done|].
  cbn [map]. rewrite !count_if_cons, IH. f_equal.
  destruct (lookup_lt_is_Some_2 _ _ Hlt) as [bw Hb]. unfold addr_of. rewrite Hb. cbn.
  destruct (Nat.eqb_spec i p) as [->|Hne]; [rewrite Hi in Hb; injection Hb as ->; by rewrite Z.eqb_refl|].
  destruct (Z.eqb_spec aw.1 bw.1) as [He|]; [|done]. destruct Hne.
  eapply (NoDup_lookup (map fst nodes)); [done|..]; rewrite list_lookup_fmap.
  - by rewrite Hi.
  - by rewrite Hb, He.
Qed.

(** C31: weighted fairness.  With positive weights and distinct addresses, among the
    first [W] (the total weight) answers of a balancer every address appears exactly
    as often as its weight, after which the balancer is back in its initial state;
    and after any number [n] of answers no address has been served a whole answer
    more than its share [n * w / W]. *)
Theorem Next_fair host nodes :
  nodes ≠ [] → Forall (λ aw, 0 < aw.2) nodes → NoDup (map fst nodes) →
  let W := total_weight nodes in
  (∀ a w, (a, w) ∈ nodes →
     Z.of_nat (count_if (Z.eqb a) (serve (Z.to_nat W) (build host nodes)).2) = w) ∧
  (serve (Z.to_nat W) (build host nodes)).1 = build host nodes ∧
  (∀ n a w, (a, w) ∈ nodes →
     W * Z.of_nat (count_if (Z.eqb a) (serve n (build host nodes)).2) < Z.of_nat n * w + W).
Proof.
  intros Hne Hpos Hnd W.
  assert (HW : ∀ i aw, nodes !! i = Some aw → 0 < aw.2 ≤ W) by (by apply weight_le_total).
  assert (Hfair0 : fair nodes []).
  { split; [constructor|]. intros i aw Hi. unfold lead, picked. cbn. specialize (HW _ _ Hi). lia. }
  assert (Hinit : build host nodes = mkWRR host (state_at nodes [])).
  { symmetry. apply build_state. intros i aw _. unfold lead, picked. cbn. lia. }
  assert (Hserve : ∀ n, ∃ new, length new = n ∧ fair nodes new ∧
    serve n (build host nodes) = (mkWRR host (state_at nodes new), map (addr_of nodes) new)).
  { intros n. rewrite Hinit. destruct (serve_state nodes Hpos host n [] Hne Hfair0) as (new & ? & ? & ?).
    by exists new. }
  assert (HW0 : 0 ≤ W) by (apply zsum_nonneg, weights_nonneg, Hpos).
  destruct (Hserve (Z.to_nat W)) as (new & Hl & Hf & Heq). rewrite Heq. cbn [fst snd].
  assert (Hturn : ∀ i aw, nodes !! i = Some aw → picked new i = aw.2)
    by (apply fair_turn; try done; fold W; lia).
  split; [|split].
  - intros a w (i & Hi)%list_elem_of_lookup.
    change (Z.eqb a) with (Z.eqb (a, w).1).
    rewrite (count_addr nodes new i (a, w)) by (done || apply Hf). by apply (Hturn i (a, w)).
  - apply build_state. intros i aw Hi. unfold lead. rewrite (Hturn _ _ Hi), Hl. fold W. rewrite Z2Nat.id by done. lia.
  - intros n a w (i & Hi)%list_elem_of_lookup. destruct (Hserve n) as (ps & Hl' & Hf' & ->). cbn [snd].
    change (Z.eqb a) with (Z.eqb (a, w).1).
    rewrite (count_addr nodes ps i (a, w)) by (done || apply Hf').
    destruct Hf' as [_ Hlead]. specialize (Hlead _ _ Hi). unfold lead, picked in Hlead. cbn in Hlead.
    fold W in Hlead. lia.
Qed.

Lemma Next_fair_witness :
  Z.of_nat (count_if (Z.eqb 0) (serve 7 (build $"h" [(0, 5); (1, 1); (2, 1)])).2) = 5.
Proof.
  apply (Next_fair $"h" [(0, 5); (1, 1); (2, 1)]).
  - done.
  - repeat (constructor; [cbn; lia|]). constructor.
  - apply (bool_decide_unpack (NoDup _)). vm_compute. done.
  - set_solver.
Defined.

Example serve_nginx : (serve 7 (build $"h" [(0, 5); (1, 1); (2, 1)])).2 = [0; 0; 1; 0; 2; 0; 0].
Proof. reflexivity. Qed.

(** [GetHealthy] gives up after as many answers as there are nodes: with weights 10
    and 1 it returns the unhealthy first node although the second is healthy. *)
Example GetHealthy_gives_up :
  (GetHealthy (λ _ b, bool_decide (b = $"1")) (build $"h" [(0, 10); (1, 1)])).2 = Some 0.
Proof. reflexivity. Qed.

End WRR.

Module IPHash.

Section ring.
Context (hash : gostr → Z).

(** [ConsistentHashBalance]; the field [hash] is the parameter of the section. *)
Record ConsistentHashBalance := mkRing {
  hostCode : gostr; keys : list Z; hashMap : gmap Z gostr
}.

Inductive ring_error := ErrWeight | ErrNoServer.

Definition NewConsistentHashBalance (hostCode : gostr) : ConsistentHashBalance := mkRing hostCode [] ∅.

(** The hash of the [i]-th virtual node of an address. *)
Definition vnode (a : gostr) (i : nat) : Z := hash (itoa (Z.of_nat i) ++ $"I" ++ a).

Definition Add (c : ConsistentHashBalance) (a : gostr) (weight : Z) : result ring_error ConsistentHashBalance :=
  if weight <=? 0 then Err ErrWeight
  else
    let vs := map (vnode a) (seq 0 (Z.to_nat weight)) in
    Ok (mkRing (hostCode c) (merge_sort Z.le (keys c ++ vs))
          (foldl (λ m h, <[h := a]> m) (hashMap c) vs)).

Definition key_at (c : ConsistentHashBalance) (i : nat) : Z := default 0 (keys c !! i).

(** The position on the ring: [sort.Search], wrapped to 0 past the last key. *)
Definition start_idx (c : ConsistentHashBalance) (key : gostr) : nat :=
  let idx := sort_search (length (keys c)) (λ i, hash key <=? key_at c i) in
  if (idx =? length (keys c))%nat then 0%nat else idx.

(** A missing key of a Go map of strings reads as the empty string. *)
Definition owner (c : ConsistentHashBalance) (h : Z) : gostr := default [] (hashMap c !! h).

Definition Get (c : ConsistentHashBalance) (key : gostr) : result ring_error gostr :=
  if (length (keys c) =? 0)%nat then Err ErrNoServer
  else Ok (owner c (key_at c (start_idx c key))).

Fixpoint healthy_loop (isHealthy : gostr → gostr → bool) (c : ConsistentHashBalance)
    (idx : nat) (js : list nat) (checkedNodes : gset gostr) : option gostr :=
  match js with
  | [] => None
  | i :: js' =>
      let a := owner c (key_at c ((idx + i) mod length (keys c))) in
      if bool_decide (a ∈ checkedNodes) then healthy_loop isHealthy c idx js' checkedNodes
      else if isHealthy (hostCode c) a then Some a
      else healthy_loop isHealthy c idx js' ({[a]} ∪ checkedNodes)
  end.

Definition GetHealthy (isHealthy : gostr → gostr → bool) (c : ConsistentHashBalance) (key : gostr) :
    result ring_error gostr :=
  if (length (keys c) =? 0)%nat then Err ErrNoServer
  else
    let startIdx := start_idx c key in
    match healthy_loop isHealthy c startIdx (seq 0 (length (keys c))) ∅ with
    | Some a => Ok a
    | None => Ok (owner c (key_at c startIdx))
    end.

(** ** The ring *)

(** The key that follows a hash clockwise: the least key at or above it, or the least
    key of all when there is none. *)
Definition successor (ks : list Z) (h k : Z) : Prop :=
  k ∈ ks ∧
  ((h ≤ k ∧ ∀ x, x ∈ ks → h ≤ x → k ≤ x) ∨
   ((∀ x, x ∈ ks → x < h) ∧ ∀ x, x ∈ ks → k ≤ x)).

Lemma successor_unique ks h k k' : successor ks h k → successor ks h k' → k = k'.
Proof.
  intros [Hin Hk] [Hin' Hk'].
  destruct Hk as [[H1 H2]|[H1 H2]], Hk' as [[H1' H2']|[H1' H2']].
  - specialize (H2 k' Hin' H1'). specialize (H2' k Hin H1). lia.
  - specialize (H1' k Hin). lia.
  - specialize (H1 k' Hin'). lia.
  - specialize (H2 k' Hin'). specialize (H2' k Hin). lia.
Qed.

Definition ring_ok (c : ConsistentHashBalance) : Prop :=
  Sorted Z.le (keys c) ∧ ∀ k, k ∈ keys c ↔ is_Some (hashMap c !! k).

Lemma sorted_lookup_le ks i j x y :
  Sorted Z.le ks → (i ≤ j)%nat → ks !! i = Some x → ks !! j = Some y → x ≤ y.
Proof.
  intros Hs Hij Hi Hj. apply Sorted_StronglySorted in Hs; [|intros ???; lia].
  revert i j Hij Hi Hj. induction Hs as [|z ks Hs IH Hall]; intros [|i] [|j] Hij Hi Hj; cbn in *; try done; try lia;
    simplify_eq; [lia|by eapply Forall_lookup_1 in Hall|]. apply (IH i j); [lia|done..].
Qed.

Lemma start_idx_spec c key :
  Sorted Z.le (keys c) → keys c ≠ [] →
  (start_idx c key < length (keys c))%nat ∧ successor (keys c) (hash key) (key_at c (start_idx c key)).
Proof.
  intros Hs Hne. assert (Hlen : (0 < length (keys c))%nat) by (destruct (keys c); [done|cbn; lia]).
  assert (Hat : ∀ i, (i < length (keys c))%nat → keys c !! i = Some (key_at c i)).
  { intros i Hi. unfold key_at. by destruct (lookup_lt_is_Some_2 _ _ Hi) as [x ->]. }
  assert (Hin : ∀ x, x ∈ keys c → ∃ i, (i < length (keys c))%nat ∧ x = key_at c i).
  { intros x (i & Hi)%list_elem_of_lookup. exists i. split; [by eapply lookup_lt_Some|].
    unfold key_at. by rewrite Hi. }
  unfold start_idx. set (f := λ i, hash key <=? key_at c i).
  destruct (sort_search_spec f (length (keys c))) as (Hr & Hlo & Hhi).
  { intros a b [Hab Hb]. unfold f. rewrite !Z.leb_le. intros Ha.
    pose proof (sorted_lookup_le _ a b _ _ Hs Hab (Hat a ltac:(lia)) (Hat b ltac:(lia))). lia. }
  set (r := sort_search (length (keys c)) f) in *. destruct (Nat.eqb_spec r (length (keys c))) as [He|Hn].
  - split; [done|]. split; [eapply list_elem_of_lookup_2, (Hat 0%nat); lia|]. right. split.
    + intros x (i & Hi & ->)%Hin. specialize (Hlo i ltac:(lia)). unfold f in Hlo. prop_of_bool. lia.
    + intros x (i & Hi & ->)%Hin. eapply (sorted_lookup_le _ 0 i _ _ Hs); [lia|apply Hat; lia..].
  - split; [lia|]. split; [eapply list_elem_of_lookup_2, (Hat r); lia|]. left. split.
    + specialize (Hhi r ltac:(lia)). unfold f in Hhi. prop_of_bool. lia.
    + intros x (i & Hi & ->)%Hin Hx. destruct (decide (i < r)%nat) as [Hlt|Hge].
      * specialize (Hlo i Hlt). unfold f in Hlo. prop_of_bool. lia.
      * eapply (sorted_lookup_le _ r i _ _ Hs); [lia|apply Hat; lia..].
Qed.

Lemma insert_all_lookup a vs (m : gmap Z gostr) h :
  foldl (λ m h, <[h := a]> m) m vs !! h = if bool_decide (h ∈ vs) then Some a else m !! h.
Proof.
  revert m. induction vs as [|v vs IH]; intros m; [done|]. cbn [foldl]. rewrite IH.
  destruct (decide (h = v)) as [->|Hne].
  - rewrite lookup_insert_eq. rewrite (bool_decide_eq_true_2 (v ∈ v :: vs)) by set_solver.
    by case_bool_decide.
  - rewrite lookup_insert_ne by done.
    by rewrite (bool_decide_ext (h ∈ v :: vs) (h ∈ vs)) by set_solver.
Qed.

Lemma Add_ok c a w c' : ring_ok c → Add c a w = Ok c' →
  ring_ok c' ∧ keys c' ≠ [] ∧
  (∀ k, k ∈ keys c' ↔ k ∈ keys c ∨ k ∈ map (vnode a) (seq 0 (Z.to_nat w))) ∧
  (∀ k, hashMap c' !! k = if bool_decide (k ∈ map (vnode a) (seq 0 (Z.to_nat w))) then Some a else hashMap c !! k).
Proof.
  intros [Hs Hm] H. unfold Add in H. case_match; prop_of_bool; [done|]. injection H as <-.
  cbn [keys hashMap].
  assert (Hperm : ∀ k, k ∈ merge_sort Z.le (keys c ++ map (vnode a) (seq 0 (Z.to_nat w)))
    ↔ k ∈ keys c ∨ k ∈ map (vnode a) (seq 0 (Z.to_nat w))).
  { intros k. by rewrite merge_sort_Permutation, elem_of_app. }
  split; [split|split; [|split]]; cbn [keys hashMap].
  - apply Sorted_merge_sort. intros x y. lia.
  - intros k. rewrite Hperm, insert_all_lookup, Hm. case_bool_decide; [naive_solver|].
    split; [by intros [?|?]|by left].
  - intros Hnil. assert (Hv : vnode a 0 ∈ map (vnode a) (seq 0 (Z.to_nat w))).
    { replace (Z.to_nat w) with (S (Z.to_nat (w - 1))) by lia. cbn. by left. }
    specialize (Hperm (vnode a 0)). rewrite Hnil in Hperm. set_solver.
  - done.
  - intros k. apply insert_all_lookup.
Qed.

(** Rings built by successful [Add]s. *)
Inductive built (host : gostr) : ConsistentHashBalance → Prop :=
| built_new : built host (NewConsistentHashBalance host)
| built_add c a w c' : built host c → Add c a w = Ok c' → built host c'.

Lemma built_ok host c : built host c → ring_ok c.
Proof.
  induction 1 as [|c a w c' _ IH Ha].
  - split; [constructor|]. intros k. cbn. rewrite lookup_empty. split; [set_solver|by intros []].
  - by apply (Add_ok _ _ _ _ IH Ha).
Qed.

(** consistent hashing.  [Get] answers the owner of the key that follows the
    request's hash clockwise, and adding a node moves requests to that node only:
    every request keeps its server or goes to the new one. *)
Theorem Get_consistent host c a w c' key :
  built host c → Add c a w = Ok c' →
  (∃ k, successor (keys c') (hash key) k ∧ Get c' key = Ok (owner c' k)) ∧
  (keys c ≠ [] → Get c' key = Get c key ∨ Get c' key = Ok a).
Proof.
  intros Hb Ha. pose proof (built_ok _ _ Hb) as Hok.
  destruct (Add_ok _ _ _ _ Hok Ha) as ([Hs' Hm'] & Hne' & Hkeys & Hmap).
  assert (Hget : ∀ d, Sorted Z.le (keys d) → keys d ≠ [] →
    ∃ k, successor (keys d) (hash key) k ∧ Get d key = Ok (owner d k)).
  { intros d Hsd Hned. destruct (start_idx_spec d key Hsd Hned) as [Hlt Hsucc].
    eexists. split; [exact Hsucc|]. unfold Get.
    by rewrite (proj2 (Nat.eqb_neq _ _)) by lia. }
  split; [by apply Hget|]. intros Hne. destruct Hok as [Hs Hm].
  destruct (Hget c Hs Hne) as (k & Hk & ->). destruct (Hget c' Hs' Hne') as (k' & Hk' & ->).
  unfold owner. rewrite Hmap. case_bool_decide as Hnew; [by right|left]. do 2 f_equal.
  assert (Hold : k' ∈ keys c) by (destruct (proj1 (Hkeys k') (proj1 Hk')); done).
  f_equal. eapply successor_unique; [|exact Hk]. split; [done|].
  destruct Hk' as [_ [[H1 H2]|[H1 H2]]]; [left|right]; (split; [done || (intros x Hx; apply H1, Hkeys; by left)|]);
    intros x Hx; apply H2, Hkeys; by left.
Qed.

(** fail-over.  The visited-node loop of [GetHealthy] answers the first healthy
    server met clockwise from the request's position, and [Get]'s answer when no
    server of the ring is healthy. *)
Theorem GetHealthy_first host c isHealthy key :
  built host c → keys c ≠ [] →
  let clockwise := map (owner c) (drop (start_idx c key) (keys c) ++ take (start_idx c key) (keys c)) in
  GetHealthy isHealthy c key
  = match find (isHealthy (hostCode c)) clockwise with Some a => Ok a | None => Get c key end ∧
  (∀ a, GetHealthy isHealthy c key = Ok a → isHealthy (hostCode c) a = false →
     ∀ k, k ∈ keys c → isHealthy (hostCode c) (owner c k) = false).
Proof.
  intros Hb Hne clockwise. destruct (built_ok _ _ Hb) as [Hs Hm].
  destruct (start_idx_spec c key Hs Hne) as [Hlt _].
  set (n := length (keys c)) in *. set (s := start_idx c key) in *.
  assert (Hcw : clockwise = map (λ i, owner c (key_at c ((s + i) mod n))) (seq 0 n)).
  { unfold clockwise. apply list_eq. intros i. rewrite !list_lookup_fmap.
    destruct (decide (i < n)%nat) as [Hi|Hi].
    - rewrite lookup_seq_lt by done. cbn [fmap option_fmap option_map Nat.add]. unfold key_at.
      destruct (decide (i < n - s)%nat).
      + rewrite lookup_app_l by (rewrite length_drop; fold n; lia). rewrite lookup_drop, Nat.mod_small by lia.
        destruct (lookup_lt_is_Some_2 (keys c) (s + i)) as [x ->]; [fold n; lia|done].
      + rewrite lookup_app_r by (rewrite length_drop; fold n; lia). rewrite length_drop. fold n.
        rewrite lookup_take_lt by lia.
        replace ((s + i) mod n)%nat with (i - (n - s))%nat.
        2:{ apply (Nat.mod_unique _ _ 1); lia. }
        destruct (lookup_lt_is_Some_2 (keys c) (i - (n - s))) as [x ->]; [fold n; lia|done].
    - rewrite !lookup_ge_None_2; [done|..]; rewrite ?length_seq, ?length_app, ?length_drop, ?length_take; fold n; lia. }
  assert (Hloop : ∀ js checked, (∀ a, a ∈ checked → isHealthy (hostCode c) a = false) →
    healthy_loop isHealthy c s js checked
    = find (isHealthy (hostCode c)) (map (λ i, owner c (key_at c ((s + i) mod n))) js)).
  { induction js as [|i js IH]; intros checked Hch; [done|]. cbn [healthy_loop map find]. fold n.
    set (a := owner c _) in *. case_bool_decide as Hin.
    - rewrite (Hch _ Hin). by apply IH.
    - destruct (isHealthy (hostCode c) a) eqn:E; [done|]. apply IH.
      intros b [->%elem_of_singleton|?]%elem_of_union; auto. }
  assert (Heq : GetHealthy isHealthy c key
    = match find (isHealthy (hostCode c)) clockwise with Some a => Ok a | None => Get c key end).
  { unfold GetHealthy, Get. fold n s. rewrite (proj2 (Nat.eqb_neq n 0)) by lia.
    rewrite Hloop, <- Hcw by set_solver. by destruct (find _ _). }
  split; [exact Heq|]. rewrite Heq. intros a Ha Hun k Hk.
  destruct (find (isHealthy (hostCode c)) clockwise) as [b|] eqn:E.
  { injection Ha as ->. apply find_some in E as [_ E]. congruence. }
  apply (find_none _ _ E). apply list_elem_of_In. unfold clockwise. apply list_elem_of_fmap. exists k.
  split; [done|]. rewrite <- (take_drop s (keys c)) in Hk. apply elem_of_app.
  apply elem_of_app in Hk as [?|?]; [by right|by left].
Qed.
End ring.

Arguments NewConsistentHashBalance hostCode : clear implicits.

Lemma Get_consistent_witness :
  let c := mkRing $"h" (merge_sort Z.le [crc32_ieee $"0Iweb1"]) {[crc32_ieee $"0Iweb1" := $"web1"]} in
  let c' := match Add crc32_ieee c $"web2" 1 with Ok c' => c' | Err _ => c end in
  Get crc32_ieee c' $"1.2.3.4" = Get crc32_ieee c $"1.2.3.4" ∨ Get crc32_ieee c' $"1.2.3.4" = Ok $"web2".
Proof.
  apply (Get_consistent crc32_ieee $"h" _ $"web2" 1).
  - apply (built_add _ _ (NewConsistentHashBalance $"h") $"web1" 1); [constructor|].
    vm_compute. reflexivity.
  - reflexivity.
  - done.
Defined.

(** A ring with one server on two virtual nodes. *)
Definition demo_ring : ConsistentHashBalance :=
  match Add crc32_ieee (NewConsistentHashBalance $"h") $"web1" 2 with
  | Ok c => c
  | Err _ => NewConsistentHashBalance $"h"
  end.

Lemma GetHealthy_first_witness :
  GetHealthy crc32_ieee (λ _ _, false) demo_ring $"1.2.3.4" = Get crc32_ieee demo_ring $"1.2.3.4".
Proof.
  assert (Hb : built crc32_ieee $"h" demo_ring).
  { apply (built_add _ _ (NewConsistentHashBalance $"h") $"web1" 2); [constructor|].
    vm_compute. reflexivity. }
  assert (Hne : keys demo_ring ≠ []) by (vm_compute; discriminate).
  rewrite (proj1 (GetHealthy_first crc32_ieee $"h" demo_ring (λ _ _, false) $"1.2.3.4" Hb Hne)).
  vm_compute. reflexivity.
Defined.

End IPHash.
