(* ===== verification/CCCounter.v ===== *)
(** * The request counter of the CC protection (wafenginecore/cccounter/counter.go)

    A counter keyed by rule and dimension value: 64 shards of rings of ten buckets, a
    global cap and a quota per rule.  The clock [nowFn] is an argument, in Unix
    seconds.  Counts are int32. *)
From S2P Require Import Prelude.
From S2P Require Import GoLib.
Local Open Scope Z_scope.
Local Open Scope bool_scope.

Module CCCounter.

Definition numBuckets : Z := 10.
Definition shardCount : Z := 64.
Definition shardMask : Z := shardCount - 1.
Definition maxDimValueLen : nat := 128.
Definition defaultMaxKeys : Z := 200000.
Definition defaultRuleQuota : Z := 50000.

Record bucketRing := mkRing { counts : list Z; slot : Z; lastSeen : Z; ruleID : gostr }.

(** The fields that [metaMu] and the atomics protect. *)
Record meta := mkMeta {
  ruleKeys : gmap gostr Z; totalKeys : Z; maxKeys : Z; ruleQuota : Z;
  degradedCount : Z; evictedCount : Z; rejectedCount : Z
}.

Record Counter := mkCounter { shards : list (gmap gostr bucketRing); cmeta : meta }.

Definition New (maxKeys ruleQuota : Z) : Counter :=
  mkCounter (replicate (Z.to_nat shardCount) ∅)
    (mkMeta ∅ 0 (if maxKeys <=? 0 then defaultMaxKeys else maxKeys)
       (if ruleQuota <=? 0 then defaultRuleQuota else ruleQuota) 0 0 0).

Definition buildKey (ruleID dimValue : gostr) : gostr :=
  let dimValue := if (maxDimValueLen <? length dimValue)%nat then take maxDimValueLen dimValue else dimValue in
  ruleID ++ $":" ++ format_uint (fnv64a dimValue) 16.

Definition shardFor (key : gostr) : nat := Z.to_nat (Z.land (fnv32a key) shardMask).

Record Result := mkResult { Count : Z; Degraded : bool; Rejected : bool }.

(** [reserveKey]: the test of the cap, outside [metaMu], then the part under it. *)
Definition reserve_commit (m : meta) (r : gostr) : meta * bool :=
  let n := default 0 (ruleKeys m !! r) in
  if ruleQuota m <=? n
  then (mkMeta (ruleKeys m) (totalKeys m) (maxKeys m) (ruleQuota m)
          (degradedCount m + 1) (evictedCount m) (rejectedCount m), false)
  else (mkMeta (<[r := n + 1]> (ruleKeys m)) (totalKeys m + 1) (maxKeys m) (ruleQuota m)
          (degradedCount m) (evictedCount m) (rejectedCount m), true).

Definition reserveKey (m : meta) (r : gostr) : meta * bool :=
  if maxKeys m <=? totalKeys m
  then (mkMeta (ruleKeys m) (totalKeys m) (maxKeys m) (ruleQuota m)
          (degradedCount m) (evictedCount m) (rejectedCount m + 1), false)
  else reserve_commit m r.

Definition releaseKey (m : meta) (r : gostr) : meta :=
  let n := default 0 (ruleKeys m !! r) in
  mkMeta (if n <=? 1 then delete r (ruleKeys m) else <[r := n - 1]> (ruleKeys m))
    (totalKeys m - 1) (maxKeys m) (ruleQuota m)
    (degradedCount m) (evictedCount m + 1) (rejectedCount m).

(** The buckets crossed since the last write are cleared.  Slots are not negative
    (the clock is past 1970), so Go's truncated division is [Z.quot] and [Z.rem]. *)
Definition advance (ring : bucketRing) (s : Z) : bucketRing :=
  let delta := s - slot ring in
  if 0 <? delta then
    let cs := if numBuckets <=? delta then map (λ _, 0) (counts ring)
              else foldl (λ cs i, <[Z.to_nat (Z.rem (slot ring + i) numBuckets) := 0]> cs)
                         (counts ring) (seqZ 1 delta) in
    mkRing cs s (lastSeen ring) (ruleID ring)
  else ring.

Definition hit (ring : bucketRing) (s now : Z) : bucketRing :=
  mkRing (alter (λ v, swrap 32 (v + 1)) (Z.to_nat (Z.rem s numBuckets)) (counts ring))
    (slot ring) now (ruleID ring).

Definition bucketWidth (windowSec : Z) : Z :=
  let windowSec := if windowSec <=? 0 then 1 else windowSec in
  let w := Z.quot windowSec numBuckets in
  if w <=? 0 then 1 else w.

Definition shard_of (c : Counter) (key : gostr) : gmap gostr bucketRing :=
  default ∅ (shards c !! shardFor key).

Definition Incr (c : Counter) (now : Z) (r dimValue : gostr) (windowSec : Z) : Counter * Result :=
  let key := buildKey r dimValue in
  let sh := shard_of c key in
  let s := Z.quot now (bucketWidth windowSec) in
  let count (m : meta) (ring : bucketRing) :=
    let ring := hit (advance ring s) s now in
    (mkCounter (<[shardFor key := <[key := ring]> sh]> (shards c)) m,
     mkResult (zsum (counts ring)) false false) in
  match sh !! key with
  | Some ring => count (cmeta c) ring
  | None =>
      let (m, ok) := reserveKey (cmeta c) r in
      if negb ok then
        (mkCounter (shards c) m,
         if maxKeys m <=? totalKeys m then mkResult 0 false true else mkResult 0 true false)
      else count m (mkRing (replicate (Z.to_nat numBuckets) 0) s 0 r)
  end.

(** The loop shared by [Cleanup] and [DropRule]: every shard, every key; the keys that
    pass the test are deleted and released. *)
Definition sweep_shard (p : bucketRing → bool) (sh : gmap gostr bucketRing) (m : meta) :
    gmap gostr bucketRing * meta * Z :=
  let gone := map snd (map_to_list (filter (λ kr, p kr.2 = true) sh)) in
  (filter (λ kr, ¬ p kr.2 = true) sh,
   foldl (λ m ring, releaseKey m (ruleID ring)) m gone, Z.of_nat (length gone)).

Fixpoint sweep (p : bucketRing → bool) (shs : list (gmap gostr bucketRing)) (m : meta) :
    list (gmap gostr bucketRing) * meta * Z :=
  match shs with
  | [] => ([], m, 0)
  | sh :: shs' =>
      let '(sh', m1, n1) := sweep_shard p sh m in
      let '(shs'', m2, n2) := sweep p shs' m1 in
      (sh' :: shs'', m2, n1 + n2)
  end.

Definition Cleanup (c : Counter) (now idleSeconds : Z) : Counter * Z :=
  let idleSeconds := if idleSeconds <=? 0 then 300 else idleSeconds in
  let cutoff := now - idleSeconds in
  let '(shs, m, removed) := sweep (λ ring, lastSeen ring <=? cutoff) (shards c) (cmeta c) in
  (mkCounter shs m, removed).

Definition DropRule (c : Counter) (r : gostr) : Counter :=
  let '(shs, m, _) := sweep (λ ring, bool_decide (ruleID ring = r)) (shards c) (cmeta c) in
  mkCounter shs m.

Definition Reset (c : Counter) : Counter :=
  let m := cmeta c in
  mkCounter (map (λ _, ∅) (shards c))
    (mkMeta ∅ 0 (maxKeys m) (ruleQuota m) (degradedCount m) (evictedCount m) (rejectedCount m)).

Definition ActiveKeys (c : Counter) : Z := totalKeys (cmeta c).

Definition Stats (c : Counter) : list (gostr * Z) :=
  let m := cmeta c in
  [($"active_keys", totalKeys m); ($"max_keys", maxKeys m);
   ($"tracked_rules", Z.of_nat (size (ruleKeys m))); ($"degraded_count", degradedCount m);
   ($"evicted_count", evictedCount m); ($"rejected_count", rejectedCount m)].

(** ** Accounting *)

Definition rings (shs : list (gmap gostr bucketRing)) : list bucketRing :=
  concat (map (λ sh, map snd (map_to_list sh)) shs).
Definition ids (shs : list (gmap gostr bucketRing)) : list gostr := map ruleID (rings shs).

Definition occurrences (r : gostr) (l : list gostr) : Z :=
  Z.of_nat (count_if (λ x, bool_decide (x = r)) l).

(** The bookkeeping agrees with a list of rule ids, one per key. *)
Record acct (m : meta) (l : list gostr) : Prop := {
  acct_total : totalKeys m = Z.of_nat (length l);
  acct_rule : ∀ r, ruleKeys m !! r = if occurrences r l =? 0 then None else Some (occurrences r l);
}.

Record bounded (m : meta) : Prop := {
  bounded_total : totalKeys m ≤ maxKeys m;
  bounded_rule : ∀ r n, ruleKeys m !! r = Some n → n ≤ ruleQuota m;
  bounded_pos : 0 < maxKeys m ∧ 0 < ruleQuota m;
}.

Lemma occurrences_cons r x l :
  occurrences r (x :: l) = (if bool_decide (x = r) then 1 else 0) + occurrences r l.
Proof. unfold occurrences. rewrite count_if_cons. case_bool_decide; lia. Qed.

Lemma occurrences_nonneg r l : 0 ≤ occurrences r l.
Proof. unfold occurrences. lia. Qed.

Lemma acct_perm m l k : l ≡ₚ k → acct m l → acct m k.
Proof.
  intros Hp [Ht Hr]. split; [by rewrite <- Hp|]. intros r. rewrite Hr.
  unfold occurrences. by rewrite (count_if_perm _ _ _ Hp).
Qed.

Lemma acct_get m l r : acct m l → default 0 (ruleKeys m !! r) = occurrences r l.
Proof. intros [_ Hr]. rewrite Hr. destruct (Z.eqb_spec (occurrences r l) 0); cbn; lia. Qed.

Lemma reserveKey_acct m l r :
  acct m l → bounded m →
  bounded (reserveKey m r).1 ∧
  (if (reserveKey m r).2 then acct (reserveKey m r).1 (r :: l) else acct (reserveKey m r).1 l).
Proof.
  intros Ha [Hb Hq Hp]. pose proof (acct_get m l r Ha) as Hg. destruct Ha as [Ht Hr]. unfold reserveKey, reserve_commit.
  destruct (Z.leb_spec (maxKeys m) (totalKeys m)); [by split|]. rewrite Hg.
  destruct (Z.leb_spec (ruleQuota m) (occurrences r l)); [by split|].
  cbn. split; split; cbn; try done; try lia.
  - intros r' n [[<- <-]|[_ Hn]]%lookup_insert_Some; [lia|by eapply Hq].
  - intros r'. rewrite occurrences_cons. pose proof (occurrences_nonneg r l).
    case_bool_decide as Heq; [subst r'|].
    + rewrite lookup_insert_eq. destruct (Z.eqb_spec (1 + occurrences r l) 0); [lia|]. f_equal. lia.
    + rewrite lookup_insert_ne by done. apply Hr.
Qed.

Lemma releaseKey_acct m l r :
  acct m (r :: l) → bounded m → acct (releaseKey m r) l ∧ bounded (releaseKey m r).
Proof.
  intros Ha [Hb Hq Hp]. pose proof (acct_get _ _ r Ha) as Hg. destruct Ha as [Ht Hr]. unfold releaseKey.
  rewrite Hg, occurrences_cons, bool_decide_eq_true_2 by done. pose proof (occurrences_nonneg r l).
  cbn [length] in Ht. specialize (Hr r) as Hrr.
  rewrite occurrences_cons, bool_decide_eq_true_2 in Hrr by done.
  split; split; cbn; try done; try lia.
  - intros r'. specialize (Hr r'). rewrite occurrences_cons in Hr.
    destruct (decide (r = r')) as [<-|Hne].
    + destruct (Z.leb_spec (1 + occurrences r l) 1).
      * rewrite lookup_delete_eq. by replace (occurrences r l) with 0 by lia.
      * rewrite lookup_insert_eq. destruct (Z.eqb_spec (occurrences r l) 0); [lia|]. f_equal. lia.
    + rewrite bool_decide_eq_false_2 in Hr by done. rewrite Z.add_0_l in Hr. rewrite <- Hr.
      destruct (1 + occurrences r l <=? 1); [by rewrite lookup_delete_ne|by rewrite lookup_insert_ne].
  - intros r' n Hn. destruct (decide (r = r')) as [<-|Hne].
    + destruct (Z.leb_spec (1 + occurrences r l) 1); [by rewrite lookup_delete_eq in Hn|].
      rewrite lookup_insert_eq in Hn. injection Hn as <-.
      destruct (Z.eqb_spec (1 + occurrences r l) 0); [lia|]. apply Hq in Hrr. lia.
    + apply (Hq r').
      by destruct (1 + occurrences r l <=? 1); [rewrite lookup_delete_ne in Hn|rewrite lookup_insert_ne in Hn].
Qed.

Lemma release_all_acct gone m l :
  acct m (map ruleID gone ++ l) → bounded m →
  acct (foldl (λ m ring, releaseKey m (ruleID ring)) m gone) l ∧
  bounded (foldl (λ m ring, releaseKey m (ruleID ring)) m gone).
Proof.
  revert m. induction gone as [|g gone IH]; intros m Ha Hb; [done|]. cbn [foldl].
  destruct (releaseKey_acct m _ _ Ha Hb). by apply IH.
Qed.

Lemma ids_cons sh shs : ids (sh :: shs) = map ruleID (map snd (map_to_list sh)) ++ ids shs.
Proof. unfold ids, rings. cbn. by rewrite map_app. Qed.

Lemma shard_partition (p : bucketRing → bool) (sh : gmap gostr bucketRing) :
  map snd (map_to_list sh) ≡ₚ
  map snd (map_to_list (filter (λ kr, p kr.2 = true) sh)) ++
  map snd (map_to_list (filter (λ kr, ¬ p kr.2 = true) sh)).
Proof. rewrite <- map_app. by apply Permutation_map, map_to_list_partition. Qed.

Lemma sweep_spec p shs m l :
  acct m (ids shs ++ l) → bounded m →
  let '(shs', m', n) := sweep p shs m in
  shs' = map (filter (λ kr, ¬ p kr.2 = true)) shs ∧ n = Z.of_nat (count_if p (rings shs)) ∧
  acct m' (ids shs' ++ l) ∧ bounded m'.
Proof.
  revert m l. induction shs as [|sh shs IH]; intros m l Ha Hb; [done|].
  cbn [sweep]. unfold sweep_shard.
  set (gone := map snd (map_to_list (filter (λ kr, p kr.2 = true) sh))).
  set (keep := filter (λ kr, ¬ p kr.2 = true) sh).
  assert (Hperm : ids (sh :: shs) ++ l ≡ₚ map ruleID gone ++ (ids shs ++ (map ruleID (map snd (map_to_list keep)) ++ l))).
  { rewrite ids_cons, (shard_partition p sh). fold gone keep. rewrite map_app. solve_Permutation. }
  destruct (release_all_acct gone m (ids shs ++ (map ruleID (map snd (map_to_list keep)) ++ l))) as [Ha1 Hb1];
    [by eapply acct_perm|done|].
  specialize (IH _ _ Ha1 Hb1). destruct (sweep p shs _) as [[shs'' m2] n2].
  destruct IH as (-> & -> & Ha2 & Hb2). split; [done|]. split.
  - unfold rings. cbn [map concat]. rewrite count_if_app. rewrite (count_if_perm p _ _ (shard_partition p sh)).
    fold gone. fold keep. rewrite count_if_app.
    rewrite (count_if_false p (map snd (map_to_list keep))).
    2:{ intros x ([k r] & -> & Hk)%list_elem_of_fmap. apply elem_of_map_to_list, map_lookup_filter_Some in Hk as [_ Hk].
        by apply not_true_is_false. }
    replace (count_if p gone) with (length gone); [lia|]. unfold count_if. f_equal.
    assert (Hall : ∀ x, x ∈ gone → p x = true).
    { intros x ([k r] & -> & Hk)%list_elem_of_fmap. by apply elem_of_map_to_list, map_lookup_filter_Some in Hk as [_ Hk]. }
    clear -Hall. induction gone as [|g gone IH]; [done|]. cbn. rewrite (Hall g) by set_solver.
    f_equal. apply IH. set_solver.
  - split; [|done]. eapply acct_perm; [|exact Ha2]. cbn [map]. rewrite ids_cons. solve_Permutation.
Qed.

Lemma shardFor_lt key : (shardFor key < Z.to_nat shardCount)%nat.
Proof.
  unfold shardFor, shardMask, shardCount. change (64 - 1) with (Z.ones 6).
  rewrite Z.land_ones by lia. pose proof (Z.mod_pos_bound (fnv32a key) (2 ^ 6) ltac:(lia)). lia.
Qed.

Lemma ids_insert shs i sh sh' extra :
  shs !! i = Some sh →
  map ruleID (map snd (map_to_list sh')) ≡ₚ extra ++ map ruleID (map snd (map_to_list sh)) →
  ids (<[i := sh']> shs) ≡ₚ extra ++ ids shs.
Proof.
  intros Hi Hp. rewrite <- (take_drop_middle shs i sh Hi) at 2.
  rewrite insert_take_drop by (by eapply lookup_lt_Some).
  unfold ids, rings in *. rewrite !map_app, !concat_app, !map_app. cbn [map concat]. rewrite !map_app, Hp.
  solve_Permutation.
Qed.

Record counter_ok (c : Counter) : Prop := {
  ok_shards : length (shards c) = Z.to_nat shardCount;
  ok_keys : ∀ i sh key ring, shards c !! i = Some sh → sh !! key = Some ring → shardFor key = i;
  ok_rule : ∀ i sh key ring, shards c !! i = Some sh → sh !! key = Some ring →
              ∃ d, key = buildKey (ruleID ring) d;
  ok_acct : acct (cmeta c) (ids (shards c));
  ok_bounded : bounded (cmeta c);
}.

(** A key names its rule: the digest holds no separator. *)
Lemma app_sep_inj {A} (x : A) a b u v :
  x ∉ u → x ∉ v → a ++ x :: u = b ++ x :: v → a = b ∧ u = v.
Proof.
  intros Hu Hv. revert b. induction a as [|y a IH]; intros [|z b] H; cbn in H; simplify_eq; try done; try set_solver.
Qed.

Lemma hex_no_colon fuel n acc : ":"%char ∉ acc → ":"%char ∉ format_digits 16 fuel n acc.
Proof.
  revert n acc. induction fuel as [|fuel IH]; intros n acc Hacc; [done|]. cbn [format_digits].
  assert (Hd : ":"%char ≠ digit_char (n mod 16)).
  { pose proof (Z.mod_pos_bound n 16 ltac:(lia)) as Hm.
    assert (Hall : forallb (λ k, negb (Ascii.eqb ":" (digit_char (Z.of_nat k)))) (seq 0 16) = true) by done.
    rewrite forallb_elem_of in Hall. specialize (Hall (Z.to_nat (n mod 16))).
    intros He. rewrite Z2Nat.id, <- He, Ascii.eqb_refl in Hall by lia.
    discriminate Hall. apply elem_of_seq. lia. }
  case_match; [set_solver|]. apply IH. set_solver.
Qed.

Lemma buildKey_rule r d r' d' : buildKey r d = buildKey r' d' → r = r'.
Proof.
  unfold buildKey, format_uint. cbn [String.list_ascii_of_string app].
  intros [H _]%app_sep_inj; [done|by apply hex_no_colon, not_elem_of_nil..].
Qed.

Lemma counts_hit ring s now : ruleID (hit (advance ring s) s now) = ruleID ring.
Proof. unfold hit, advance. by case_match. Qed.

Lemma New_ok mk q : counter_ok (New mk q).
Proof.
  assert (Hrep : ∀ n, rings (replicate n ∅) = []).
  { induction n as [|n IH]; [done|]. cbn. rewrite map_to_list_empty. apply IH. }
  split; cbn [New shards cmeta].
  - apply length_replicate.
  - intros i sh key ring [-> _]%lookup_replicate_1. by rewrite lookup_empty.
  - intros i sh key ring [-> _]%lookup_replicate_1. by rewrite lookup_empty.
  - unfold ids. rewrite Hrep. split; [done|]. intros r. cbn. apply lookup_empty.
  - split; cbn.
    + case_match; unfold defaultMaxKeys; prop_of_bool; lia.
    + intros r n. by rewrite lookup_empty.
    + unfold defaultMaxKeys, defaultRuleQuota. do 2 case_match; prop_of_bool; lia.
Qed.

Lemma shard_of_lookup c key : counter_ok c → shards c !! shardFor key = Some (shard_of c key).
Proof.
  intros Hok. unfold shard_of. pose proof (shardFor_lt key) as Hlt. rewrite <- (ok_shards _ Hok) in Hlt.
  by destruct (lookup_lt_is_Some_2 _ _ Hlt) as [sh ->].
Qed.

Lemma insert_shard_ok c key sh' m ring0 :
  counter_ok c →
  (∀ k ring, sh' !! k = Some ring → k = key ∧ ring = ring0 ∨ shard_of c key !! k = Some ring) →
  (∃ d, key = buildKey (ruleID ring0) d) →
  acct m (ids (<[shardFor key := sh']> (shards c))) → bounded m →
  counter_ok (mkCounter (<[shardFor key := sh']> (shards c)) m).
Proof.
  intros Hok Hsh' Hkey Ha Hb. pose proof (shard_of_lookup c key Hok) as Hs.
  split; cbn [shards cmeta]; try done.
  - rewrite length_insert. apply Hok.
  - intros i sh k ring [(<- & -> & _)|(_ & Hi)]%list_lookup_insert_Some Hk; [|by eapply Hok].
    apply Hsh' in Hk as [[-> _]|Hk]; [done|by eapply Hok].
  - intros i sh k ring [(<- & -> & _)|(_ & Hi)]%list_lookup_insert_Some Hk; [|by eapply (ok_rule c)].
    apply Hsh' in Hk as [[-> ->]|Hk]; [done|by eapply (ok_rule c)].
Qed.

Lemma Incr_ok c now r d w : counter_ok c → counter_ok (Incr c now r d w).1.
Proof.
  intros Hok. unfold Incr. pose proof (shard_of_lookup c (buildKey r d) Hok) as Hs.
  set (key := buildKey r d) in *. set (sh := shard_of c key) in *. set (s := Z.quot now _).
  destruct (sh !! key) as [ring|] eqn:E; cbn [fst].
  - destruct (ok_rule c Hok _ _ _ _ Hs E) as [d' Hd']. apply buildKey_rule in Hd' as Hr.
    apply (insert_shard_ok c key _ _ (hit (advance ring s) s now)); try apply Hok; try done.
    + intros k ring'. destruct (decide (k = key)) as [->|Hne].
      * rewrite lookup_insert_eq. intros [= <-]. by left.
      * rewrite lookup_insert_ne by done. by right.
    + rewrite counts_hit. by exists d'.
    + eapply acct_perm; [|apply Hok]. symmetry. apply (ids_insert _ _ sh _ []); [done|]. cbn [app].
      rewrite <- insert_delete_eq. rewrite map_to_list_insert by apply lookup_delete_eq.
      rewrite <- (map_to_list_delete sh key ring E). cbn [map snd app]. by rewrite counts_hit.
  - pose proof (reserveKey_acct (cmeta c) (ids (shards c)) r (ok_acct _ Hok) (ok_bounded _ Hok)) as [Hb Ha].
    destruct (reserveKey (cmeta c) r) as [m ok]. destruct ok; cbn [negb fst snd] in *.
    + apply (insert_shard_ok c key _ _ (hit (advance (mkRing (replicate (Z.to_nat numBuckets) 0) s 0 r) s) s now)); try done.
      * intros k ring'. destruct (decide (k = key)) as [->|Hne].
        -- rewrite lookup_insert_eq. intros [= <-]. by left.
        -- rewrite lookup_insert_ne by done. by right.
      * rewrite counts_hit. by exists d.
      * eapply acct_perm; [|exact Ha]. symmetry. apply (ids_insert _ _ sh _ [r]); [done|].
        rewrite map_to_list_insert by done. cbn [map snd app]. by rewrite counts_hit.
    + destruct Hok. by split.
Qed.

Lemma sweep_ok p c :
  counter_ok c →
  let '(shs, m, n) := sweep p (shards c) (cmeta c) in
  counter_ok (mkCounter shs m) ∧ n = Z.of_nat (count_if p (rings (shards c))) ∧
  (∀ key, shard_of (mkCounter shs m) key !! key =
     match shard_of c key !! key with
     | Some ring => if p ring then None else Some ring
     | None => None
     end).
Proof.
  intros Hok. pose proof (sweep_spec p (shards c) (cmeta c) []) as Hs.
  rewrite app_nil_r in Hs. specialize (Hs (ok_acct _ Hok) (ok_bounded _ Hok)).
  destruct (sweep p (shards c) (cmeta c)) as [[shs m] n]. destruct Hs as (-> & -> & Ha & Hb).
  rewrite app_nil_r in Ha. split; [|split; [done|]].
  - split; cbn [shards cmeta]; try done.
    + rewrite length_map. apply Hok.
    + intros i sh key ring. rewrite list_lookup_fmap. intros (sh0 & Hi & ->)%fmap_Some.
      intros [Hk _]%map_lookup_filter_Some. by eapply Hok.
    + intros i sh key ring. rewrite list_lookup_fmap. intros (sh0 & Hi & ->)%fmap_Some.
      intros [Hk _]%map_lookup_filter_Some. by eapply (ok_rule c).
  - intros key. pose proof (shard_of_lookup c key Hok) as Hk. unfold shard_of at 1. cbn [shards].
    rewrite list_lookup_fmap, Hk. cbn. rewrite map_lookup_filter.
    destruct (shard_of c key !! key) as [ring|]; cbn; [|done].
    destruct (p ring); cbn; by rewrite ?option_guard_True, ?option_guard_False by naive_solver.
Qed.

(** ** The sliding window of one ring *)

(** Hits of slot history [l] still in the window of slot [s] and in bucket [j]. *)
Definition in_bucket (s j : Z) (l : list Z) : Z :=
  Z.of_nat (count_if (λ x, (s - numBuckets <? x) && (x mod numBuckets =? j)) l).
Definition in_window (s : Z) (l : list Z) : Z :=
  Z.of_nat (count_if (λ x, s - numBuckets <? x) l).

(** A ring represents the slots of its hits. *)
Record represents (l : list Z) (ring : bucketRing) : Prop := {
  rep_slot : 0 ≤ slot ring;
  rep_past : ∀ x, x ∈ l → 0 ≤ x ≤ slot ring;
  rep_length : length (counts ring) = 10%nat;
  rep_counts : ∀ j, 0 ≤ j < 10 → counts ring !! Z.to_nat j = Some (in_bucket (slot ring) j l);
}.

Lemma clear_lookup (f : Z → nat) js (cs : list Z) k :
  (k < length cs)%nat →
  foldl (λ cs i, <[f i := 0]> cs) cs js !! k = if bool_decide (k ∈ map f js) then Some 0 else cs !! k.
Proof.
  revert cs. induction js as [|j js IH]; intros cs Hk; [done|]. cbn [foldl map].
  rewrite IH by (by rewrite length_insert).
  destruct (decide (k = f j)) as [->|Hne].
  - rewrite list_lookup_insert_eq by done. rewrite (bool_decide_eq_true_2 (f j ∈ f j :: _)) by set_solver.
    by case_bool_decide.
  - rewrite list_lookup_insert_ne by done. by rewrite (bool_decide_ext (k ∈ f j :: _) (k ∈ map f js)) by set_solver.
Qed.

Lemma clear_length (f : Z → nat) js (cs : list Z) :
  length (foldl (λ cs i, <[f i := 0]> cs) cs js) = length cs.
Proof. revert cs. induction js as [|j js IH]; intros cs; [done|]. cbn. by rewrite IH, length_insert. Qed.

Lemma in_bucket_none s j l : (∀ x, x ∈ l → s - numBuckets < x → x mod numBuckets ≠ j) → in_bucket s j l = 0.
Proof.
  intros H. unfold in_bucket. rewrite count_if_false; [done|]. intros x Hx.
  apply andb_false_iff. destruct (Z.ltb_spec (s - numBuckets) x); [right|by left].
  apply Z.eqb_neq. by apply H.
Qed.

Lemma advance_represents l ring s :
  represents l ring → slot ring ≤ s → represents l (advance ring s) ∧ slot (advance ring s) = s.
Proof.
  intros [H0 Hp Hl Hc] Hs. unfold advance.
  destruct (Z.ltb_spec 0 (s - slot ring)) as [Hd|Hd]; [|split; [by split|lia]].
  split; [|done]. split; cbn [slot counts]; try lia.
  - intros x Hx. specialize (Hp x Hx). lia.
  - case_match; [by rewrite length_map|by rewrite clear_length].
  - intros j Hj. unfold numBuckets in *. destruct (Z.leb_spec 10 (s - slot ring)).
    + rewrite list_lookup_fmap, Hc by done. cbn. f_equal. symmetry. apply in_bucket_none.
      intros x Hx Hgt. specialize (Hp x Hx). unfold numBuckets in *. lia.
    + rewrite clear_lookup by lia. case_bool_decide as Hin.
      * f_equal. symmetry. apply in_bucket_none. intros x Hx Hgt Hmod. specialize (Hp x Hx).
        unfold numBuckets in *.
        apply list_elem_of_fmap in Hin as (i & Hi & Hr%elem_of_seqZ).
        rewrite Z.rem_mod_nonneg in Hi by lia.
        apply Z2Nat.inj in Hi; [|lia|apply Z.mod_pos_bound; lia].
        pose proof (Z.div_mod x 10 ltac:(lia)). pose proof (Z.div_mod (slot ring + i) 10 ltac:(lia)). lia.
      * rewrite Hc by done. f_equal. unfold in_bucket, numBuckets. f_equal. apply count_if_ext.
        intros x Hx. specialize (Hp x Hx).
        destruct (Z.eqb_spec (x mod 10) j) as [Hm|]; [|by rewrite !andb_false_r].
        destruct (Z.ltb_spec (s - 10) x), (Z.ltb_spec (slot ring - 10) x); try done; [lia|].
        destruct Hin. apply list_elem_of_fmap. exists (x + 10 - slot ring).
        replace (slot ring + (x + 10 - slot ring)) with (x + 1 * 10) by lia.
        rewrite Z.rem_mod_nonneg, Z.mod_add, Hm by lia. split; [done|]. apply elem_of_seqZ. lia.
Qed.

Lemma in_bucket_snoc s j l x : in_bucket s j (l ++ [x]) =
  in_bucket s j l + (if (s - numBuckets <? x) && (x mod numBuckets =? j) then 1 else 0).
Proof. unfold in_bucket. rewrite count_if_app, count_if_cons. cbn [count_if List.filter length]. case_match; lia. Qed.

Lemma hit_represents l ring now :
  represents l ring → Z.of_nat (length l) < 2 ^ 31 - 1 → represents (l ++ [slot ring]) (hit ring (slot ring) now).
Proof.
  intros [H0 Hp Hl Hc] Hlen. split; cbn [hit slot counts]; try done.
  - intros x [?| ->%list_elem_of_singleton]%elem_of_app; [by apply Hp|lia].
  - by rewrite length_alter.
  - intros j Hj. rewrite in_bucket_snoc, Z.rem_mod_nonneg by (unfold numBuckets; lia).
    pose proof (Z.mod_pos_bound (slot ring) numBuckets ltac:(unfold numBuckets; lia)).
    rewrite (proj2 (Z.ltb_lt (slot ring - numBuckets) (slot ring))) by (unfold numBuckets; lia). cbn [andb].
    destruct (Z.eqb_spec (slot ring mod numBuckets) j) as [<-|Hne].
    + rewrite list_lookup_alter_eq, Hc by done. cbn. f_equal. apply swrap_id; [lia|].
      unfold in_bucket. pose proof (count_if_length (λ x, (slot ring - numBuckets <? x) && (x mod numBuckets =? slot ring mod numBuckets)) l).
      change (32 - 1) with 31. lia.
    + rewrite list_lookup_alter_ne, Hc, Z.add_0_r; [done|done|]. intros He%Z2Nat.inj; lia.
Qed.

Lemma buckets_sum s l :
  (∀ x, x ∈ l → 0 ≤ x) → zsum (map (λ j, in_bucket s j l) (seqZ 0 10)) = in_window s l.
Proof.
  intros H. change (seqZ 0 10) with [0;1;2;3;4;5;6;7;8;9]. unfold in_window. induction l as [|x l IH]; [done|].
  rewrite count_if_cons, Nat2Z.inj_add, <- IH by set_solver.
  assert (Hcons : ∀ j, in_bucket s j (x :: l)
    = (if (s - numBuckets <? x) && (x mod numBuckets =? j) then 1 else 0) + in_bucket s j l).
  { intros j. unfold in_bucket. rewrite count_if_cons. case_match; lia. }
  cbn [map zsum foldr]. rewrite !Hcons. unfold numBuckets in *.
  destruct (Z.ltb_spec (s - 10) x); cbn [andb]; [|lia].
  pose proof (Z.mod_pos_bound x 10 ltac:(lia)).
  repeat match goal with |- context [x mod 10 =? ?k] => destruct (Z.eqb_spec (x mod 10) k) end; lia.
Qed.

Lemma represents_sum l ring : represents l ring → zsum (counts ring) = in_window (slot ring) l.
Proof.
  intros [H0 Hp Hl Hc]. rewrite <- buckets_sum by (intros x Hx; by apply Hp). f_equal.
  apply list_eq. intros k. rewrite list_lookup_fmap. destruct (decide (k < 10)%nat).
  - rewrite <- (Nat2Z.id k), Hc, Nat2Z.id by lia. rewrite lookup_seqZ_lt by lia. cbn. by rewrite Z.add_0_l.
  - rewrite !lookup_ge_None_2; [done|rewrite length_seqZ; lia|lia].
Qed.

(** ** Histories *)

Definition ring_at (c : Counter) (key : gostr) : option bucketRing := shard_of c key !! key.

Inductive op :=
| OpIncr (now : Z) (r d : gostr) (windowSec : Z)
| OpCleanup (now idleSeconds : Z)
| OpDrop (r : gostr)
| OpReset.

Definition apply (c : Counter) (o : op) : Counter :=
  match o with
  | OpIncr now r d w => (Incr c now r d w).1
  | OpCleanup now idle => (Cleanup c now idle).1
  | OpDrop r => DropRule c r
  | OpReset => Reset c
  end.

(** What happened to each live key: its bucket width and the times of its counted
    hits.  A key that is evicted loses its history. *)
Abbreviation history := (gmap gostr (Z * list Z)).

Definition times (h : history) (key : gostr) : list Z := default [] (snd <$> h !! key).

Definition accepted (res : Result) : bool := negb (Degraded res) && negb (Rejected res).

Definition log (c : Counter) (h : history) (o : op) : history :=
  match o with
  | OpIncr now r d w =>
      if accepted (Incr c now r d w).2
      then <[buildKey r d := (bucketWidth w, times h (buildKey r d) ++ [now])]> h else h
  | _ => filter (λ kh, is_Some (ring_at (apply c o) kh.1)) h
  end.

(** The clock does not go back between two hits of a key, the window of a rule does not
    change while its keys live, and no key takes 2^31 hits. *)
Definition admissible (h : history) (o : op) : Prop :=
  match o with
  | OpIncr now r d w =>
      0 ≤ now ∧ ∀ b ts, h !! buildKey r d = Some (b, ts) →
        b = bucketWidth w ∧ (∀ t, t ∈ ts → t ≤ now) ∧ Z.of_nat (length ts) < 2 ^ 31 - 1
  | _ => True
  end.

Inductive run (mk q : Z) : Counter → history → Prop :=
| run_new : run mk q (New mk q) ∅
| run_op c h o : run mk q c h → admissible h o → run mk q (apply c o) (log c h o).

Record tracked (c : Counter) (h : history) : Prop := {
  tr_ok : counter_ok c;
  tr_dom : ∀ key, is_Some (ring_at c key) ↔ is_Some (h !! key);
  tr_ring : ∀ key ring b ts, ring_at c key = Some ring → h !! key = Some (b, ts) →
    0 < b ∧ represents (map (λ t, t / b) ts) ring ∧ slot ring ∈ map (λ t, t / b) ts;
}.

Lemma bucketWidth_pos w : 0 < bucketWidth w.
Proof. unfold bucketWidth. repeat case_match; prop_of_bool; lia. Qed.

Lemma ring_at_insert c key key' sh' m :
  counter_ok c → ring_at (mkCounter (<[shardFor key := sh']> (shards c)) m) key' =
    if bool_decide (shardFor key' = shardFor key) then sh' !! key' else ring_at c key'.
Proof.
  intros Hok. pose proof (shard_of_lookup c key Hok) as Hs. apply lookup_lt_Some in Hs.
  unfold ring_at, shard_of. cbn [shards]. case_bool_decide as He.
  - by rewrite He, list_lookup_insert_eq.
  - by rewrite list_lookup_insert_ne.
Qed.

Lemma times_some h key b ts : h !! key = Some (b, ts) → times h key = ts.
Proof. intros H. unfold times. by rewrite H. Qed.

(** One counted hit: the key's ring, and what it then represents. *)
Lemma Incr_tracked c h now r d w :
  tracked c h → admissible h (OpIncr now r d w) →
  tracked (Incr c now r d w).1 (log c h (OpIncr now r d w)) ∧
  (accepted (Incr c now r d w).2 = true → let b := bucketWidth w in
     Count (Incr c now r d w).2 = in_window (now / b) (map (λ t, t / b) (times h (buildKey r d) ++ [now]))).
Proof.
  intros [Hok Hdom Hring] [Hnow Hadm]. cbn [log].
  pose proof (Incr_ok c now r d w Hok) as Hok'. revert Hok'. unfold Incr.
  set (key := buildKey r d) in *. set (b := bucketWidth w) in *. pose proof (bucketWidth_pos w) as Hb. fold b in Hb.
  rewrite Z.quot_div_nonneg by lia. set (s := now / b) in *.
  assert (Hs0 : 0 ≤ s) by (apply Z.div_pos; lia).
  (* the ring the hit lands on *)
  assert (Hhit : ∀ ring ts, represents (map (λ t, t / b) ts) ring → slot ring ≤ s →
    Z.of_nat (length ts) < 2 ^ 31 - 1 →
    represents (map (λ t, t / b) (ts ++ [now])) (hit (advance ring s) s now) ∧
    zsum (counts (hit (advance ring s) s now)) = in_window s (map (λ t, t / b) (ts ++ [now])) ∧
    slot (hit (advance ring s) s now) ∈ map (λ t, t / b) (ts ++ [now])).
  { intros ring ts Hr Hle Hlen. destruct (advance_represents _ _ s Hr Hle) as [Hr1 Hs1].
    pose proof (hit_represents _ _ now Hr1) as Hr2. rewrite Hs1, length_map in Hr2. specialize (Hr2 Hlen).
    rewrite map_app. cbn [map]. fold s. split; [done|]. rewrite (represents_sum _ _ Hr2). cbn [hit slot]. rewrite Hs1.
    split; [done|]. set_solver. }
  (* a new ring in place of the old one *)
  assert (Hput : ∀ ring m ts, represents (map (λ t, t / b) (ts ++ [now])) ring →
    slot ring ∈ map (λ t, t / b) (ts ++ [now]) →
    counter_ok (mkCounter (<[shardFor key := <[key := ring]> (shard_of c key)]> (shards c)) m) →
    tracked (mkCounter (<[shardFor key := <[key := ring]> (shard_of c key)]> (shards c)) m)
      (<[key := (b, ts ++ [now])]> h)).
  { intros ring m ts Hr Hin Hok'.
    assert (Hat : ∀ key', ring_at (mkCounter (<[shardFor key := <[key := ring]> (shard_of c key)]> (shards c)) m) key'
      = if bool_decide (key' = key) then Some ring else ring_at c key').
    { intros key'. rewrite ring_at_insert by done. destruct (decide (key' = key)) as [->|Hne].
      - rewrite !bool_decide_eq_true_2 by done. by rewrite lookup_insert_eq.
      - rewrite (bool_decide_eq_false_2 (key' = key)) by done. rewrite lookup_insert_ne by done.
        unfold ring_at, shard_of. case_bool_decide as He; [by rewrite He|done]. }
    split; [done|..].
    - intros key'. rewrite Hat. case_bool_decide as He; [subst key'; rewrite lookup_insert_eq; naive_solver|].
      rewrite lookup_insert_ne by done. apply Hdom.
    - intros key' ring' b' ts'. rewrite Hat. case_bool_decide as He.
      + subst key'. rewrite lookup_insert_eq. by intros [= <-] [= <- <-].
      + rewrite lookup_insert_ne by done. apply Hring. }
  destruct (shard_of c key !! key) as [ring|] eqn:E.
  - intros Hok'. cbn [fst snd accepted Degraded Rejected negb andb Count].
    destruct (proj1 (Hdom key) (ex_intro _ ring E)) as [[b' ts] Hh].
    destruct (Hadm b' ts Hh) as (-> & Hmono & Hlen). destruct (Hring key ring b ts E Hh) as (_ & Hr & Hin).
    assert (Hle : slot ring ≤ s).
    { apply list_elem_of_fmap in Hin as (t & -> & Ht). apply Z.div_le_mono; [lia|by apply Hmono]. }
    rewrite (times_some _ _ _ _ Hh) in *. destruct (Hhit ring ts Hr Hle Hlen) as (Hr' & Hsum & Hin').
    split; [|by rewrite Hsum]. by apply Hput.
  - assert (Hnone : h !! key = None).
    { apply eq_None_not_Some. intros Hx%Hdom. unfold ring_at in Hx. rewrite E in Hx. by destruct Hx. }
    assert (Ht : times h key = []) by (unfold times; by rewrite Hnone).
    destruct (reserveKey (cmeta c) r) as [m ok]. destruct ok; cbn [negb fst snd].
    + intros Hok'. cbn [accepted Degraded Rejected negb andb Count].
      assert (Hr0 : represents (map (λ t, t / b) []) (mkRing (replicate (Z.to_nat numBuckets) 0) s 0 r)).
      { split; cbn; [done|set_solver|done|]. intros j Hj. unfold in_bucket. cbn.
        apply (lookup_replicate_2 10 0). lia. }
      destruct (Hhit _ [] Hr0 ltac:(cbn; lia) ltac:(cbn; lia)) as (Hr' & Hsum & Hin'). rewrite Ht.
      split; [|by rewrite Hsum]. by apply Hput.
    + intros Hok'. destruct (maxKeys m <=? totalKeys m); cbn; (split; [|done]); (split; [done|exact Hdom|exact Hring]).
Qed.

Lemma sweep_tracked c h shs m n p :
  tracked c h → sweep p (shards c) (cmeta c) = (shs, m, n) →
  tracked (mkCounter shs m) (filter (λ kh, is_Some (ring_at (mkCounter shs m) kh.1)) h).
Proof.
  intros [Hok Hdom Hring] Hs. pose proof (sweep_ok p c Hok) as Hsw. rewrite Hs in Hsw.
  destruct Hsw as (Hok' & _ & Hat). fold (ring_at (mkCounter shs m)) in Hat.
  assert (Hsub : ∀ key ring, ring_at (mkCounter shs m) key = Some ring → ring_at c key = Some ring).
  { intros key ring. unfold ring_at. rewrite Hat. case_match; [|done]. by case_match. }
  split; [done|..].
  - intros key. rewrite map_lookup_filter. split.
    + intros [ring Hr]. pose proof (proj1 (Hdom key) (ex_intro _ ring (Hsub _ _ Hr))) as [x ->]. cbn.
      rewrite option_guard_True by (by exists ring). by exists x.
    + destruct (h !! key) as [x|]; cbn; [|by intros []]. case_guard as Hg; [done|by intros []].
  - intros key ring b ts Hr [Hh _]%map_lookup_filter_Some. apply (Hring key); auto.
Qed.

Lemma Reset_ok c : counter_ok c → counter_ok (Reset c).
Proof.
  intros Hok. assert (Hrep : ∀ shs, rings (map (λ _ : gmap gostr bucketRing, ∅) shs) = []).
  { induction shs as [|sh shs IH]; [done|]. cbn. rewrite map_to_list_empty. apply IH. }
  split; cbn [Reset shards cmeta].
  - rewrite length_map. apply Hok.
  - intros i sh key ring. rewrite list_lookup_fmap. intros (sh0 & _ & ->)%fmap_Some. by rewrite lookup_empty.
  - intros i sh key ring. rewrite list_lookup_fmap. intros (sh0 & _ & ->)%fmap_Some. by rewrite lookup_empty.
  - unfold ids. rewrite Hrep. split; [done|]. intros r. cbn. apply lookup_empty.
  - destruct (ok_bounded _ Hok) as [Hb Hq Hp]. split; cbn; [lia| |done]. intros r n. by rewrite lookup_empty.
Qed.

Lemma run_tracked mk q c h : run mk q c h → tracked c h.
Proof.
  induction 1 as [|c h o _ IH Hadm].
  - split; [apply New_ok|..]; unfold ring_at, shard_of, New; cbn [shards].
    + intros key. rewrite lookup_empty. split; [|by intros []]. intros [ring Hr].
      destruct (replicate _ ∅ !! shardFor key) as [sh|] eqn:E; cbn in Hr; [|by rewrite lookup_empty in Hr].
      apply lookup_replicate_1 in E as [-> _]. by rewrite lookup_empty in Hr.
    + intros key ring b ts _. by rewrite lookup_empty.
  - destruct o as [now r d w|now idle|r|]; cbn [apply log].
    + by apply Incr_tracked.
    + unfold Cleanup. destruct (sweep _ (shards c) (cmeta c)) as [[shs m] n] eqn:E. by eapply sweep_tracked.
    + unfold DropRule. destruct (sweep _ (shards c) (cmeta c)) as [[shs m] n] eqn:E. by eapply sweep_tracked.
    + pose proof (Reset_ok c (tr_ok _ _ IH)) as Hok.
      assert (Hnone : ∀ key, ring_at (Reset c) key = None).
      { intros key. unfold ring_at, shard_of, Reset. cbn [shards]. rewrite list_lookup_fmap.
        destruct (shards c !! shardFor key); cbn; apply lookup_empty. }
      split; [done|..].
      * intros key. rewrite Hnone, map_lookup_filter. split; [by intros []|].
        destruct (h !! key) as [x|]; cbn; [|by intros []]. rewrite option_guard_False; [by intros []|].
        change (¬ is_Some (ring_at (Reset c) key)). rewrite Hnone. by intros [].
      * intros key ring b ts. by rewrite Hnone.
Qed.

(** C29: the sliding window.  After any history of hits on any keys, sweeps, rule drops
    and resets, an accepted hit reports itself plus the earlier hits of its key whose
    time slot is among the last ten: all the hits of the last [9 * b] seconds and none
    older than [10 * b] seconds, where [b] is the bucket width. *)
Theorem Incr_window mk q c h now r d w :
  run mk q c h → admissible h (OpIncr now r d w) →
  accepted (Incr c now r d w).2 = true →
  let b := bucketWidth w in
  let past := times h (buildKey r d) in
  let n := Count (Incr c now r d w).2 in
  n = 1 + Z.of_nat (count_if (λ t, now / b - 10 <? t / b) past) ∧
  1 + Z.of_nat (count_if (λ t, now - 9 * b <=? t) past) ≤ n ∧
  n ≤ 1 + Z.of_nat (count_if (λ t, now - 10 * b <? t) past).
Proof.
  intros Hrun Hadm Hacc b past n. pose proof (run_tracked _ _ _ _ Hrun) as Htr.
  destruct (Incr_tracked c h now r d w Htr Hadm) as [_ Hn]. specialize (Hn Hacc). cbn zeta in Hn.
  fold b past n in Hn. pose proof (bucketWidth_pos w) as Hb. fold b in Hb.
  assert (Heq : n = 1 + Z.of_nat (count_if (λ t, now / b - 10 <? t / b) past)).
  { rewrite Hn. unfold in_window, numBuckets. rewrite map_app, count_if_app. cbn [map].
    rewrite count_if_cons. rewrite (proj2 (Z.ltb_lt (now / b - 10) (now / b))) by lia.
    change (count_if _ []) with 0%nat. rewrite count_if_map. lia. }
  pose proof (Z.div_mod now b ltac:(lia)) as Hdiv. pose proof (Z.mod_pos_bound now b ltac:(lia)) as Hmod.
  split; [done|]. rewrite Heq. split.
  - enough (count_if (λ t, (now - 9 * b <=? t)%Z) past ≤ count_if (λ t, (now / b - 10 <? t / b)%Z) past)%nat by lia.
    apply count_if_le. intros t _ Ht. prop_of_bool. apply Z.ltb_lt.
    enough (now / b - 9 ≤ t / b) by lia. apply Z.div_le_lower_bound; nia.
  - enough (count_if (λ t, (now / b - 10 <? t / b)%Z) past ≤ count_if (λ t, (now - 10 * b <? t)%Z) past)%nat by lia.
    apply count_if_le. intros t _ Ht. prop_of_bool. apply Z.ltb_lt.
    pose proof (Z.div_mod t b ltac:(lia)). pose proof (Z.mod_pos_bound t b ltac:(lia)). nia.
Qed.

(** accounting.  In every reachable state the number of active keys is the number
    of rings, at most the cap; the count kept for a rule is its number of rings, at most
    the quota; and only rules with a ring are tracked. *)
Theorem keys_accounted mk q c h :
  run mk q c h →
  ActiveKeys c = Z.of_nat (length (rings (shards c))) ∧ ActiveKeys c ≤ maxKeys (cmeta c) ∧
  ∀ r, let n := Z.of_nat (count_if (λ ring, bool_decide (ruleID ring = r)) (rings (shards c))) in
    default 0 (ruleKeys (cmeta c) !! r) = n ∧ n ≤ ruleQuota (cmeta c) ∧
    (ruleKeys (cmeta c) !! r = None ↔ n = 0).
Proof.
  intros Hrun. destruct (tr_ok _ _ (run_tracked _ _ _ _ Hrun)) as [_ _ _ [Ht Hr] [Hb Hq Hp]].
  unfold ActiveKeys. split; [rewrite Ht; unfold ids; by rewrite length_map|]. split; [done|].
  intros r. set (n := Z.of_nat (count_if _ _)). assert (Hn : occurrences r (ids (shards c)) = n).
  { unfold occurrences, ids, n. by rewrite count_if_map. }
  clearbody n. specialize (Hr r). specialize (Hq r). rewrite Hn in Hr. rewrite Hr in *.
  destruct (Z.eqb_spec n 0) as [Hz|Hz]; cbn; (split; [done|]); (split; [|naive_solver]).
  - lia.
  - by apply Hq.
Qed.

(** dropping a rule removes exactly the rings of that rule, leaves the others as
    they were, and gives its whole quota back. *)
Theorem DropRule_exact mk q c h r :
  run mk q c h →
  (∀ key, ring_at (DropRule c r) key =
     match ring_at c key with
     | Some ring => if bool_decide (ruleID ring = r) then None else Some ring
     | None => None
     end) ∧
  (∀ d, ring_at (DropRule c r) (buildKey r d) = None) ∧
  ruleKeys (cmeta (DropRule c r)) !! r = None.
Proof.
  intros Hrun. pose proof (run_tracked _ _ _ _ Hrun) as Htr. pose proof (tr_ok _ _ Htr) as Hok.
  pose proof (sweep_ok (λ ring, bool_decide (ruleID ring = r)) c Hok) as Hsw. unfold DropRule.
  destruct (sweep _ (shards c) (cmeta c)) as [[shs m] n]. destruct Hsw as (Hok' & _ & Hat).
  split; [exact Hat|]. split.
  - intros d. unfold ring_at. rewrite Hat. destruct (shard_of c (buildKey r d) !! buildKey r d) as [ring|] eqn:E; [|done].
    destruct (ok_rule c Hok _ _ _ _ (shard_of_lookup c _ Hok) E) as [d' Hd'%buildKey_rule].
    by rewrite bool_decide_eq_true_2.
  - destruct (ok_acct _ Hok') as [_ Hr]. cbn [cmeta shards] in *. rewrite Hr.
    replace (occurrences r (ids shs)) with 0; [done|]. unfold occurrences. rewrite count_if_false; [done|].
    intros x Hx. apply bool_decide_eq_false. intros ->. unfold ids, rings in Hx.
    apply list_elem_of_fmap in Hx as (ring & Hrid & Hx).
    apply list_elem_of_In, in_concat in Hx as (l & Hl & Hx). apply list_elem_of_In in Hl, Hx.
    apply list_elem_of_fmap in Hl as (sh & -> & Hsh). apply list_elem_of_fmap in Hx as ([k ring'] & -> & Hk).
    apply list_elem_of_lookup in Hsh as [i Hi]. apply elem_of_map_to_list in Hk.
    pose proof (ok_keys _ Hok' i sh k ring' Hi Hk) as Hki.
    specialize (Hat k). unfold shard_of at 1 in Hat. cbn [shards] in *. rewrite Hki, Hi in Hat. cbn in Hat.
    rewrite Hk in Hat. case_match; [|done]. case_bool_decide; [done|]. cbn in Hrid. congruence.
Qed.
(** Three hits of one key within a 60-second window (buckets of 6 s). *)
Definition demo_ops : list op :=
  [OpIncr 1000 $"r1" $"1.2.3.4" 60; OpIncr 1010 $"r1" $"5.6.7.8" 60; OpIncr 1055 $"r1" $"1.2.3.4" 60].

Fixpoint play (c : Counter) (h : history) (os : list op) : Counter * history :=
  match os with [] => (c, h) | o :: os' => play (apply c o) (log c h o) os' end.

Definition admissible_b (h : history) (o : op) : bool :=
  match o with
  | OpIncr now r d w =>
      (0 <=? now) &&
      match h !! buildKey r d with
      | Some (b, ts) => (b =? bucketWidth w) && forallb (λ t, t <=? now) ts && (Z.of_nat (length ts) <? 2 ^ 31 - 1)
      | None => true
      end
  | _ => true
  end.

Lemma admissible_b_ok h o : admissible_b h o = true → admissible h o.
Proof.
  destruct o as [now r d w| | |]; cbn; try done. intros [H0 H]%andb_true_iff. prop_of_bool. split; [done|].
  intros b ts E. rewrite E in H. prop_of_bool. split; [done|]. split; [|done].
  intros t Ht. rewrite forallb_elem_of in H2. by apply Z.leb_le, H2.
Qed.

Fixpoint plays_ok (c : Counter) (h : history) (os : list op) : bool :=
  match os with [] => true | o :: os' => admissible_b h o && plays_ok (apply c o) (log c h o) os' end.

Lemma play_run mk q os c h : run mk q c h → plays_ok c h os = true → run mk q (play c h os).1 (play c h os).2.
Proof.
  revert c h. induction os as [|o os IH]; intros c h Hr H; [done|]. cbn in *. prop_of_bool.
  apply IH; [|done]. apply run_op; [done|by apply admissible_b_ok].
Qed.

Definition demo : Counter * history := play (New 100 10) ∅ demo_ops.

Lemma demo_run : run 100 10 demo.1 demo.2.
Proof. apply play_run; [constructor|]. vm_compute. reflexivity. Qed.

Lemma Incr_window_witness :
  Count (Incr demo.1 1061 $"r1" $"1.2.3.4" 60).2 = 2.
Proof.
  rewrite (proj1 (Incr_window 100 10 demo.1 demo.2 1061 $"r1" $"1.2.3.4" 60 demo_run
    (admissible_b_ok demo.2 (OpIncr 1061 $"r1" $"1.2.3.4" 60) ltac:(vm_compute; reflexivity))
    ltac:(vm_compute; reflexivity))).
  vm_compute. reflexivity.
Defined.

Lemma keys_accounted_witness : ActiveKeys demo.1 = 2.
Proof.
  rewrite (proj1 (keys_accounted 100 10 demo.1 demo.2 demo_run)). vm_compute. reflexivity.
Defined.

Lemma DropRule_exact_witness : ring_at (DropRule demo.1 $"r1") (buildKey $"r1" $"1.2.3.4") = None.
Proof.
  apply (DropRule_exact 100 10 demo.1 demo.2 $"r1" demo_run).
Defined.

(** A one-second window counts over ten seconds, and a 19-second one over ten only:
    the bucket width is at least one second and is rounded down. *)
Example short_window :
  Count (Incr (play (New 9 9) ∅ [OpIncr 1000 $"r" $"ip" 1]).1 1009 $"r" $"ip" 1).2 = 2.
Proof. vm_compute. reflexivity. Qed.
Example rounded_window :
  Count (Incr (play (New 9 9) ∅ [OpIncr 1000 $"r" $"ip" 19]).1 1010 $"r" $"ip" 19).2 = 1.
Proof. vm_compute. reflexivity. Qed.

(** ** Concurrent reservations

    A goroutine that creates a key holds the lock of the key's shard from the test of
    the cap to the insertion, so at most one goroutine per shard is between the test
    and [metaMu].  Releases come from sweeps. *)
Record conc := mkConc { shared : meta; in_flight : gmap nat gostr }.

Inductive cstep : conc → conc → Prop :=
| cstep_test s i r :
    (i < Z.to_nat shardCount)%nat → in_flight s !! i = None →
    (maxKeys (shared s) <=? totalKeys (shared s)) = false →
    cstep s (mkConc (shared s) (<[i := r]> (in_flight s)))
| cstep_reject s i :
    in_flight s !! i = None → (maxKeys (shared s) <=? totalKeys (shared s)) = true →
    ∀ r, cstep s (mkConc (reserveKey (shared s) r).1 (in_flight s))
| cstep_commit s i r :
    in_flight s !! i = Some r →
    cstep s (mkConc (reserve_commit (shared s) r).1 (delete i (in_flight s)))
| cstep_release s r : cstep s (mkConc (releaseKey (shared s) r) (in_flight s)).

Definition conc_ok (mk q : Z) (s : conc) : Prop :=
  maxKeys (shared s) = mk ∧ ruleQuota (shared s) = q ∧ 0 < mk ∧ 0 < q ∧
  (∀ i r, in_flight s !! i = Some r → (i < Z.to_nat shardCount)%nat) ∧
  totalKeys (shared s) + Z.of_nat (size (in_flight s)) ≤ mk + shardCount - 1 ∧
  (∀ r n, ruleKeys (shared s) !! r = Some n → n ≤ q).

Lemma in_flight_size (m : gmap nat gostr) n :
  (∀ i r, m !! i = Some r → (i < n)%nat) → (size m ≤ n)%nat.
Proof.
  intros H. rewrite <- (size_dom (D := gset nat)).
  rewrite <- (length_seq n 0), <- (size_list_to_set (C := gset nat) (seq 0 n)) by apply NoDup_seq.
  apply subseteq_size. intros i [r Hi]%elem_of_dom. apply elem_of_list_to_set, elem_of_seq. specialize (H _ _ Hi). lia.
Qed.

Lemma cstep_ok mk q s s' : conc_ok mk q s → cstep s s' → conc_ok mk q s'.
Proof.
  intros (Hmk & Hq & Hmk0 & Hq0 & Hlt & Htot & Hrule) Hs. inv Hs; unfold conc_ok; cbn [shared in_flight].
  - split; [done|]. split; [done|]. split; [done|]. split; [done|].
    assert (Hlt' : ∀ j r', <[i := r]> (in_flight s) !! j = Some r' → (j < Z.to_nat shardCount)%nat).
    { intros j r' [[<- <-]|[_ ?]]%lookup_insert_Some; [done|by eapply Hlt]. }
    split; [done|]. split; [|done]. apply in_flight_size in Hlt'. prop_of_bool. lia.
  - unfold reserveKey. rewrite H0. cbn. done.
  - unfold reserve_commit. assert (Hsz : size (in_flight s) = S (size (delete i (in_flight s)))).
    { rewrite <- (map_size_insert_None i r) by apply lookup_delete_eq. by rewrite insert_delete_id. }
    assert (Hdel : ∀ j r', delete i (in_flight s) !! j = Some r' → (j < Z.to_nat shardCount)%nat).
    { intros j r' [_ ?]%lookup_delete_Some. by eapply Hlt. }
    destruct (Z.leb_spec (ruleQuota (shared s)) (default 0 (ruleKeys (shared s) !! r))); cbn;
      (split; [done|]); (split; [done|]); (split; [done|]); (split; [done|]); (split; [done|]);
      (split; [lia|]); [done|].
    intros r' n [[<- <-]|[_ ?]]%lookup_insert_Some; [lia|by eapply Hrule].
  - cbn. split; [done|]. split; [done|]. split; [done|]. split; [done|]. split; [done|]. split; [lia|].
    intros r' n Hn. destruct (Z.leb_spec (default 0 (ruleKeys (shared s) !! r)) 1).
    + apply lookup_delete_Some in Hn as [_ ?]. by eapply Hrule.
    + apply lookup_insert_Some in Hn as [[<- <-]|[_ ?]]; [|by eapply Hrule].
      destruct (ruleKeys (shared s) !! r) eqn:E; cbn in *; [apply Hrule in E; lia|lia].
Qed.

(** C40: the cap under concurrency.  Whatever the interleaving of goroutines between
    the unlocked test of the cap and the locked reservation, the number of keys never
    exceeds the cap by more than 63, and no rule ever exceeds its quota. *)
Theorem reserve_race_bounded mk q s :
  0 < mk → 0 < q → rtc cstep (mkConc (cmeta (New mk q)) ∅) s →
  totalKeys (shared s) ≤ mk + 63 ∧
  ∀ r n, ruleKeys (shared s) !! r = Some n → n ≤ q.
Proof.
  intros Hmk Hq Hr.
  assert (H0 : conc_ok mk q (mkConc (cmeta (New mk q)) ∅)).
  { unfold conc_ok, New. cbn [shared in_flight cmeta maxKeys ruleQuota totalKeys ruleKeys].
    rewrite map_size_empty. destruct (Z.leb_spec mk 0), (Z.leb_spec q 0); try lia.
    split; [done|]. split; [done|]. split; [done|]. split; [done|]. split; [set_solver|].
    unfold shardCount. split; [lia|]. intros r n. by rewrite lookup_empty. }
  assert (Hok : conc_ok mk q s).
  { revert H0. induction Hr as [|s1 s2 s3 Hs _ IH]; [done|]. intros H0. by apply IH, (cstep_ok _ _ s1). }
  destruct Hok as (_ & _ & _ & _ & _ & Htot & Hrule). unfold shardCount in Htot. split; [lia|done].
Qed.

Lemma reserve_race_bounded_witness :
  totalKeys (reserve_commit (reserve_commit (cmeta (New 1 5)) $"a").1 $"b").1 ≤ 1 + 63.
Proof.
  apply (reserve_race_bounded 1 5 (mkConc (reserve_commit (reserve_commit (cmeta (New 1 5)) $"a").1 $"b").1
    (delete 1%nat (delete 0%nat (<[1%nat := $"b"]> (<[0%nat := $"a"]> ∅)))))); [lia|lia|].
  eapply rtc_l; [apply (cstep_test _ 0%nat $"a"); [vm_compute; lia|done|done]|].
  eapply rtc_l; [apply (cstep_test _ 1%nat $"b"); [vm_compute; lia|done|done]|].
  eapply rtc_l; [apply (cstep_commit _ 0%nat $"a"); done|].
  eapply rtc_l; [apply (cstep_commit _ 1%nat $"b"); done|].
  apply rtc_refl.
Defined.

End CCCounter.
