(* ===== verification/CCStats.v ===== *)
(** * Hit statistics of CC rules (wafenginecore/ccstats/hits.go)

    The tracker behind the hit board: per rule a total, a count per action and a count
    per client, with caps on rules and clients.  The clock is an argument, in Unix
    seconds. *)
From S2P Require Import Prelude.
From S2P Require Import GoLib.
Local Open Scope Z_scope.
Local Open Scope bool_scope.

Module CCStats.

Definition maxRules : nat := 500.
Definition maxClientsPerRule : nat := 200.
Definition TopDefault : Z := 50.

Record ClientStat := mkClientStat { DimValue : gostr; Count : Z; LastAt : Z }.

Record RuleStat := mkRuleStat {
  RuleId : gostr; Total : Z; ByAction : gmap gostr Z; FirstAt : Z; rs_LastAt : Z;
  Clients : list ClientStat; Truncated : bool
}.

Record clientCell := mkClientCell { count : Z; cc_lastAt : Z }.

Record ruleCell := mkRuleCell {
  total : Z; byAction : gmap gostr Z; firstAt : Z; lastAt : Z;
  clients : gmap gostr clientCell; truncated : bool
}.

Record Tracker := mkTracker { rules : gmap gostr ruleCell; startedAt : Z }.

Definition New (now : Z) : Tracker := mkTracker ∅ now.

(** The part of [Record] that works on the cell of the rule. *)
Definition record_cell (rc : ruleCell) (now : Z) (action dimValue : gostr) : ruleCell :=
  let acts := if bool_decide (action = []) then byAction rc
              else <[action := default 0 (byAction rc !! action) + 1]> (byAction rc) in
  let cell cs tr := mkRuleCell (total rc + 1) acts (firstAt rc) now cs tr in
  if bool_decide (dimValue = []) then cell (clients rc) (truncated rc)
  else match clients rc !! dimValue with
       | Some cc => cell (<[dimValue := mkClientCell (count cc + 1) now]> (clients rc)) (truncated rc)
       | None =>
           if (maxClientsPerRule <=? size (clients rc))%nat then cell (clients rc) true
           else cell (<[dimValue := mkClientCell 1 now]> (clients rc)) (truncated rc)
       end.

Definition Record_ (t : Tracker) (now : Z) (ruleId action dimValue : gostr) : Tracker :=
  if bool_decide (ruleId = []) then t
  else match rules t !! ruleId with
       | Some rc => mkTracker (<[ruleId := record_cell rc now action dimValue]> (rules t)) (startedAt t)
       | None =>
           if (maxRules <=? size (rules t))%nat then t
           else mkTracker (<[ruleId := record_cell (mkRuleCell 0 ∅ now 0 ∅ false) now action dimValue]> (rules t))
                  (startedAt t)
       end.

Definition Counts (t : Tracker) : gmap gostr Z := total <$> rules t.

(** Go's [<] on strings. *)
Fixpoint str_less (a b : gostr) : bool :=
  match a, b with
  | [], [] => false
  | [], _ :: _ => true
  | _ :: _, [] => false
  | x :: a', y :: b' => (code x <? code y) || ((code x =? code y) && str_less a' b')
  end.

(** The comparison given to [sort.Slice]. *)
Definition less (a b : ClientStat) : bool :=
  if negb (Count a =? Count b) then Count b <? Count a
  else if negb (LastAt a =? LastAt b) then LastAt b <? LastAt a
  else str_less (DimValue a) (DimValue b).

(** The order of the sorted slice: [b] is not before [a]. *)
Definition ordered (a b : ClientStat) : Prop := less b a = false.
#[export] Instance ordered_dec a b : Decision (ordered a b).
Proof. unfold ordered. apply _. Defined.

Definition client_list (rc : ruleCell) : list ClientStat :=
  map (λ dc, mkClientStat dc.1 (count dc.2) (cc_lastAt dc.2)) (map_to_list (clients rc)).

Definition Board (t : Tracker) (ruleId : gostr) (topN : Z) : RuleStat :=
  let topN := if topN <=? 0 then TopDefault else topN in
  match rules t !! ruleId with
  | None => mkRuleStat ruleId 0 ∅ 0 0 [] false
  | Some rc =>
      let l := merge_sort ordered (client_list rc) in
      mkRuleStat ruleId (total rc) (byAction rc) (firstAt rc) (lastAt rc)
        (if topN <? Z.of_nat (length l) then take (Z.to_nat topN) l else l) (truncated rc)
  end.

Definition StartedAt (t : Tracker) : Z := startedAt t.
Definition Drop (t : Tracker) (ruleId : gostr) : Tracker := mkTracker (delete ruleId (rules t)) (startedAt t).
Definition Reset (t : Tracker) (now : Z) : Tracker := mkTracker ∅ now.

Definition Stats (t : Tracker) : list (gostr * Z) :=
  let cells := map snd (map_to_list (rules t)) in
  [($"rules", Z.of_nat (size (rules t)));
   ($"clients", zsum (map (λ rc, Z.of_nat (size (clients rc))) cells));
   ($"truncated_rules", Z.of_nat (count_if truncated cells));
   ($"max_rules", Z.of_nat maxRules); ($"max_clients_rule", Z.of_nat maxClientsPerRule);
   ($"started_at", startedAt t)].

(** ** What the numbers mean *)

(** A trigger: time, rule, action, client. *)
Record event := mkEvent { ev_now : Z; ev_rule : gostr; ev_action : gostr; ev_dim : gostr }.

Definition record_event (t : Tracker) (e : event) : Tracker :=
  Record_ t (ev_now e) (ev_rule e) (ev_action e) (ev_dim e).

Definition of_rule (r : gostr) (e : event) : bool := bool_decide (ev_rule e = r).
Definition of_action (r a : gostr) (e : event) : bool := of_rule r e && bool_decide (ev_action e = a).
Definition of_client (r d : gostr) (e : event) : bool := of_rule r e && bool_decide (ev_dim e = d).
Definition occ (f : event → bool) (es : list event) : Z := Z.of_nat (count_if f es).

Lemma occ_snoc f es e : occ f (es ++ [e]) = occ f es + (if f e then 1 else 0).
Proof. unfold occ. rewrite count_if_app, count_if_cons. change (count_if f []) with 0%nat. case_match; lia. Qed.

(** A cell agrees with the events of its rule. *)
Record cell_ok (r : gostr) (es : list event) (rc : ruleCell) : Prop := {
  co_total : total rc = occ (of_rule r) es;
  co_action : ∀ a, a ≠ [] → default 0 (byAction rc !! a) = occ (of_action r a) es;
  co_client : ∀ d, d ≠ [] → match clients rc !! d with
                            | Some cc => count cc = occ (of_client r d) es
                            | None => occ (of_client r d) es = 0 ∨ truncated rc = true
                            end;
  co_size : (size (clients rc) ≤ maxClientsPerRule)%nat;
  co_trunc : truncated rc = true → size (clients rc) = maxClientsPerRule;
}.

Record tracker_ok (es : list event) (t : Tracker) : Prop := {
  to_cell : ∀ r rc, rules t !! r = Some rc → r ≠ [] ∧ cell_ok r es rc;
  to_none : ∀ r, r ≠ [] → rules t !! r = None → occ (of_rule r) es = 0 ∨ size (rules t) = maxRules;
  to_size : (size (rules t) ≤ maxRules)%nat;
}.

Lemma of_rule_other r e : ev_rule e ≠ r → of_rule r e = false.
Proof. intros H. by apply bool_decide_eq_false. Qed.

Lemma cell_ok_other r es rc e : cell_ok r es rc → ev_rule e ≠ r → cell_ok r (es ++ [e]) rc.
Proof.
  intros [Ht Ha Hc Hs Htr] Hne. pose proof (of_rule_other r e Hne) as Hf.
  split; try done.
  - by rewrite occ_snoc, Hf, Z.add_0_r.
  - intros a Hane. rewrite occ_snoc. unfold of_action at 2. rewrite Hf. cbn. rewrite Z.add_0_r. by apply Ha.
  - intros d Hd. specialize (Hc d Hd). rewrite occ_snoc. unfold of_client at 2 4. rewrite Hf. cbn.
    by rewrite Z.add_0_r.
Qed.

Lemma record_cell_ok r es rc e :
  cell_ok r es rc → ev_rule e = r →
  cell_ok r (es ++ [e]) (record_cell rc (ev_now e) (ev_action e) (ev_dim e)).
Proof.
  intros [Ht Ha Hc Hs Htr] He.
  assert (Hf : of_rule r e = true) by (by apply bool_decide_eq_true).
  assert (Hact : ∀ a, a ≠ [] → default 0 ((if bool_decide (ev_action e = []) then byAction rc
      else <[ev_action e := default 0 (byAction rc !! ev_action e) + 1]> (byAction rc)) !! a)
    = occ (of_action r a) (es ++ [e])).
  { intros a Hane. rewrite occ_snoc, <- (Ha a Hane). unfold of_action. rewrite Hf. cbn [andb].
    destruct (decide (ev_action e = a)) as [<-|Hne].
    - rewrite (bool_decide_eq_false_2 (ev_action e = [])) by done.
      rewrite bool_decide_eq_true_2 by done. by rewrite lookup_insert_eq.
    - rewrite (bool_decide_eq_false_2 (ev_action e = a)), Z.add_0_r by done.
      case_bool_decide; [done|]. by rewrite lookup_insert_ne. }
  assert (Htot : total rc + 1 = occ (of_rule r) (es ++ [e])) by (rewrite occ_snoc, Hf; lia).
  assert (Hcl : ∀ d, occ (of_client r d) (es ++ [e])
    = occ (of_client r d) es + (if bool_decide (ev_dim e = d) then 1 else 0)).
  { intros d. rewrite occ_snoc. unfold of_client at 2. by rewrite Hf. }
  assert (Hput : ∀ d' n, clients rc !! ev_dim e = None ∧ n = 1 ∨ (∃ cc, clients rc !! ev_dim e = Some cc ∧ n = count cc + 1) →
    ev_dim e ≠ [] → truncated rc = false ∨ is_Some (clients rc !! ev_dim e) → d' ≠ [] →
    match <[ev_dim e := mkClientCell n (ev_now e)]> (clients rc) !! d' with
    | Some cc => count cc = occ (of_client r d') (es ++ [e])
    | None => occ (of_client r d') (es ++ [e]) = 0 ∨ truncated rc = true
    end).
  { intros d n Hn Hdim Htrf Hd. rewrite Hcl. specialize (Hc d Hd). destruct (decide (ev_dim e = d)) as [<-|Hne].
    - rewrite lookup_insert_eq, bool_decide_eq_true_2 by done. cbn.
      destruct Hn as [[Hnone ->]|(cc & Hcc & ->)]; [|rewrite Hcc in Hc; lia].
      rewrite Hnone in Hc, Htrf. destruct Hc as [Hc|Hc]; [lia|].
      destruct Htrf as [?|[? ?]]; congruence.
    - rewrite lookup_insert_ne, bool_decide_eq_false_2, Z.add_0_r by done. done. }
  unfold record_cell. destruct (decide (ev_dim e = [])) as [Hdim|Hdim];
    [rewrite (bool_decide_eq_true_2 (ev_dim e = [])) by done|rewrite (bool_decide_eq_false_2 (ev_dim e = [])) by done].
  { split; cbn; try done. intros d Hd. rewrite Hcl, Hdim, bool_decide_eq_false_2, Z.add_0_r by done. by apply Hc. }
  destruct (clients rc !! ev_dim e) as [cc|] eqn:Ecc.
  - split; cbn; try done.
    + intros d Hd. apply Hput; [right; by exists cc|done|right; by eexists|done].
    + rewrite map_size_insert_Some by done. done.
    + rewrite map_size_insert_Some by done. done.
  - destruct (Nat.leb_spec maxClientsPerRule (size (clients rc))) as [Hfull|Hroom].
    + split; cbn; try done; [|intros _; lia]. intros d Hd. specialize (Hc d Hd). rewrite Hcl.
      destruct (decide (ev_dim e = d)) as [<-|Hne]; [rewrite Ecc; by right|].
      rewrite bool_decide_eq_false_2, Z.add_0_r by done. destruct (clients rc !! d); [done|by right].
    + assert (Htf : truncated rc = false).
      { destruct (truncated rc); [|done]. rewrite Htr in Hroom by done. lia. }
      split; cbn; try done.
      * intros d Hd. apply Hput; [by left|done|by left|done].
      * rewrite map_size_insert_None by done. lia.
      * congruence.
Qed.

Lemma new_cell_ok r es now : occ (of_rule r) es = 0 → cell_ok r es (mkRuleCell 0 ∅ now 0 ∅ false).
Proof.
  intros H. assert (Hz : ∀ f, (∀ e, f e = true → of_rule r e = true) → occ f es = 0).
  { intros f Hf. unfold occ in *. pose proof (count_if_le f (of_rule r) es (λ e _, Hf e)). lia. }
  split; cbn; try done.
  - intros a _. rewrite lookup_empty. cbn. symmetry. apply Hz. intros e. unfold of_action. by intros [? _]%andb_true_iff.
  - intros d _. rewrite lookup_empty. left. apply Hz. intros e. unfold of_client. by intros [? _]%andb_true_iff.
  - rewrite map_size_empty. unfold maxClientsPerRule. lia.
Qed.

Lemma record_event_ok es t e : tracker_ok es t → tracker_ok (es ++ [e]) (record_event t e).
Proof.
  intros [Hcell Hnone Hsize]. unfold record_event, Record_. case_bool_decide as Hr.
  { split; [|intros r Hne Hn; rewrite occ_snoc, of_rule_other by congruence; rewrite Z.add_0_r; by apply Hnone|done].
    intros r rc Hrc. destruct (Hcell r rc Hrc) as [Hne Hc]. split; [done|]. apply cell_ok_other; congruence. }
  assert (Hput : ∀ rc sz, cell_ok (ev_rule e) (es ++ [e]) rc → size (<[ev_rule e := rc]> (rules t)) = sz →
    (sz ≤ maxRules)%nat → (size (rules t) = maxRules → sz = maxRules) →
    tracker_ok (es ++ [e]) (mkTracker (<[ev_rule e := rc]> (rules t)) (startedAt t))).
  { intros rc sz Hrc Hsz Hle Hfull. split; cbn; [| |lia].
    - intros r rc' [[<- <-]|[Hne Hrc']]%lookup_insert_Some; [done|].
      destruct (Hcell r rc' Hrc') as [? ?]. split; [done|]. by apply cell_ok_other.
    - intros r Hrne [Hn Hne]%lookup_insert_None. rewrite occ_snoc, of_rule_other, Z.add_0_r by done.
      destruct (Hnone r Hrne Hn); [by left|right]. rewrite Hsz. auto. }
  destruct (rules t !! ev_rule e) as [rc|] eqn:E.
  - eapply Hput; [|by apply map_size_insert_Some|done|done].
    apply record_cell_ok; [|done]. by apply Hcell.
  - destruct (Nat.leb_spec maxRules (size (rules t))) as [Hfull|Hroom].
    + split; [|intros r Hrne Hn; right; lia|done].
      intros r rc Hrc. destruct (Hcell r rc Hrc) as [Hne Hc]. split; [done|]. apply cell_ok_other; congruence.
    + eapply Hput; [|by apply map_size_insert_None|lia|lia].
      apply record_cell_ok; [|done]. apply new_cell_ok. destruct (Hnone _ Hr E); [done|lia].
Qed.

(** the numbers of the board.  After any sequence of triggers, a rule on the board
    shows exactly its triggers, in total, per action and per listed client; a rule or a
    client is missing only when it never triggered or when the table is full (and then
    the rule is marked truncated); the tables never exceed 500 rules and 200 clients. *)
Theorem Record_exact now0 es r :
  r ≠ [] →
  let t := foldl record_event (New now0) es in
  (size (rules t) ≤ 500)%nat ∧
  match rules t !! r with
  | None => occ (of_rule r) es = 0 ∨ size (rules t) = 500%nat
  | Some rc =>
      total rc = occ (of_rule r) es ∧
      (∀ a, a ≠ [] → default 0 (byAction rc !! a) = occ (of_action r a) es) ∧
      (∀ d, d ≠ [] → match clients rc !! d with
                     | Some cc => count cc = occ (of_client r d) es
                     | None => occ (of_client r d) es = 0 ∨ truncated rc = true
                     end) ∧
      (size (clients rc) ≤ 200)%nat ∧ (truncated rc = true → size (clients rc) = 200%nat)
  end.
Proof.
  intros Hr t. assert (Hok : tracker_ok es t).
  { unfold t. induction es as [|e es IH] using rev_ind.
    - split; cbn; [intros ??; by rewrite lookup_empty|by left|rewrite map_size_empty; lia].
    - rewrite foldl_app. by apply record_event_ok. }
  destruct Hok as [Hcell Hnone Hsize]. split; [done|].
  destruct (rules t !! r) as [rc|] eqn:E; [|by apply Hnone].
  destruct (Hcell r rc E) as [_ [Ht Ha Hc Hs Htr]]. done.
Qed.

Lemma Record_exact_witness :
  let t := foldl record_event (New 0)
    [mkEvent 1 $"r" $"deny" $"1.1.1.1"; mkEvent 2 $"q" $"ban" $"1.1.1.1"; mkEvent 3 $"r" $"deny" $"1.1.1.1"] in
  match rules t !! $"r" with Some rc => total rc = 2 | None => False end.
Proof.
  pose proof (Record_exact 0
    [mkEvent 1 $"r" $"deny" $"1.1.1.1"; mkEvent 2 $"q" $"ban" $"1.1.1.1"; mkEvent 3 $"r" $"deny" $"1.1.1.1"] $"r"
    ltac:(discriminate)) as [_ H].
  vm_compute in H |- *. exact (proj1 H).
Defined.

(** ** The order of the board *)

Lemma str_less_irrefl a : str_less a a = false.
Proof. induction a as [|x a IH]; [done|]. cbn. by rewrite Z.ltb_irrefl, Z.eqb_refl, IH. Qed.

Lemma str_less_asym a b : str_less a b = true → str_less b a = false.
Proof.
  revert b. induction a as [|x a IH]; intros [|y b]; cbn; try done.
  destruct (Z.ltb_spec (code x) (code y)), (Z.ltb_spec (code y) (code x)), (Z.eqb_spec (code x) (code y)),
    (Z.eqb_spec (code y) (code x)); cbn; try done; try lia. apply IH.
Qed.

(** Not less is a total preorder on strings. *)
Lemma str_less_trans_false a b c : str_less b a = false → str_less c b = false → str_less c a = false.
Proof.
  revert a c. induction b as [|y b IH]; intros [|x a] [|z c]; cbn; try done.
  destruct (Z.ltb_spec (code y) (code x)), (Z.ltb_spec (code z) (code y)), (Z.ltb_spec (code z) (code x)),
    (Z.eqb_spec (code y) (code x)), (Z.eqb_spec (code z) (code y)), (Z.eqb_spec (code z) (code x));
    cbn; try done; try lia. apply IH.
Qed.

#[export] Instance ordered_total : base.Total ordered.
Proof.
  intros a b. unfold ordered, less.
  destruct (Z.eqb_spec (Count a) (Count b)), (Z.eqb_spec (Count b) (Count a)); cbn; try congruence.
  2:{ destruct (Z.ltb_spec (Count a) (Count b)), (Z.ltb_spec (Count b) (Count a)); auto; lia. }
  destruct (Z.eqb_spec (LastAt a) (LastAt b)), (Z.eqb_spec (LastAt b) (LastAt a)); cbn; try congruence.
  2:{ destruct (Z.ltb_spec (LastAt a) (LastAt b)), (Z.ltb_spec (LastAt b) (LastAt a)); auto; lia. }
  destruct (str_less (DimValue b) (DimValue a)) eqn:E; [right; by apply str_less_asym|by left].
Qed.

#[export] Instance ordered_trans : Transitive ordered.
Proof.
  intros a b c. unfold ordered, less.
  destruct (Z.eqb_spec (Count b) (Count a)), (Z.eqb_spec (Count c) (Count b)), (Z.eqb_spec (Count c) (Count a));
    cbn; try congruence; rewrite ?Z.ltb_ge; try lia.
  destruct (Z.eqb_spec (LastAt b) (LastAt a)), (Z.eqb_spec (LastAt c) (LastAt b)), (Z.eqb_spec (LastAt c) (LastAt a));
    cbn; try congruence; rewrite ?Z.ltb_ge; try lia.
  apply str_less_trans_false.
Qed.

Lemma strongly_sorted_app {A} (R : relation A) l k x y :
  StronglySorted R (l ++ k) → x ∈ l → y ∈ k → R x y.
Proof. intros H. by apply (StronglySorted_app_1_elem_of R l k). Qed.

(** the board lists at most [topN] clients of the rule, sorted by triggers (then
    by recency, then by name), and leaves out only clients that come after all the
    listed ones. *)
Theorem Board_top t r topN rc :
  rules t !! r = Some rc → 0 < topN →
  let l := Clients (Board t r topN) in
  Sorted ordered l ∧ Z.of_nat (length l) ≤ topN ∧
  ∃ rest, client_list rc ≡ₚ l ++ rest ∧
    (∀ x y, x ∈ l → y ∈ rest → ordered x y) ∧ (rest ≠ [] → Z.of_nat (length l) = topN).
Proof.
  intros Hrc Htop l. subst l. unfold Board. rewrite Hrc. rewrite (proj2 (Z.leb_gt topN 0)) by lia.
  cbn [Clients]. set (s := merge_sort ordered (client_list rc)).
  assert (Hss : StronglySorted ordered s) by (apply StronglySorted_merge_sort; apply _).
  assert (Hp : client_list rc ≡ₚ s) by (symmetry; apply merge_sort_Permutation).
  destruct (Z.ltb_spec topN (Z.of_nat (length s))).
  - rewrite <- (take_drop (Z.to_nat topN) s) in Hss. split; [|split].
    + apply StronglySorted_Sorted. by apply StronglySorted_app_1_l in Hss.
    + rewrite length_take. lia.
    + exists (drop (Z.to_nat topN) s). split; [by rewrite take_drop|]. split.
      * intros x y. by apply strongly_sorted_app.
      * intros _. rewrite length_take. lia.
  - split; [by apply StronglySorted_Sorted|]. split; [done|]. exists []. rewrite app_nil_r.
    split; [done|]. split; [set_solver|done].
Qed.

Lemma Board_top_witness :
  let t := foldl record_event (New 0) [mkEvent 1 $"r" $"deny" $"a"; mkEvent 3 $"r" $"deny" $"b"] in
  Z.of_nat (length (Clients (Board t $"r" 1))) ≤ 1.
Proof.
  apply (Board_top (foldl record_event (New 0) [mkEvent 1 $"r" $"deny" $"a"; mkEvent 3 $"r" $"deny" $"b"]) $"r" 1
    (mkRuleCell 2 {[$"deny" := 2]} 1 3 {[$"a" := mkClientCell 1 1; $"b" := mkClientCell 1 3]} false)).
  - vm_compute. reflexivity.
  - lia.
Defined.

End CCStats.
