(* ===== verification/WafCache.v ===== *)
(** * The in-memory cache (cache/waf_cache.go)

    Items carry their creation time and time to live; expired items are removed lazily.
    The value type is a parameter; the clock is an argument, in nanoseconds.
    [CacheStore] is the interface the ban managers are verified against. *)
From S2P Require Import Prelude.
From S2P Require Import GoLib.
Local Open Scope Z_scope.
Local Open Scope bool_scope.

(** ** The interface (cache/cache_store.go)

    [cs_view c now k] is what a read of [k] at [now] would give; the laws say how the
    operations change it, from [now] on. *)
Class CacheStore (C V : Type) := {
  cs_get : C → Z → gostr → C * option V;
  cs_renew : C → Z → gostr → V → Z → C;
  cs_remove : C → gostr → C;
  cs_view : C → Z → gostr → option V;
  cs_get_value c now k : (cs_get c now k).2 = cs_view c now k;
  cs_get_view c now k t k' : now ≤ t → cs_view (cs_get c now k).1 t k' = cs_view c t k';
  cs_renew_view c now k v ttl t k' : now ≤ t →
    cs_view (cs_renew c now k v ttl) t k' =
    if bool_decide (k' = k) then (if t - now <=? ttl then Some v else None) else cs_view c t k';
  cs_remove_view c k t k' :
    cs_view (cs_remove c k) t k' = if bool_decide (k' = k) then None else cs_view c t k';
}.

Module WafCache.

Section cache.
Context {V : Type}.

Record WafCacheItem := mkItem { value : V; createTime : Z; expireTime : Z; ttl : Z }.
Abbreviation WafCache := (gmap gostr WafCacheItem).

(** [time.Since(item.createTime) <= item.ttl] *)
Definition live (now : Z) (item : WafCacheItem) : bool := now - createTime item <=? ttl item.

Definition put (createTime ttl : Z) (v : V) : WafCacheItem := mkItem v createTime (createTime + ttl) ttl.

Definition SetWithTTl (c : WafCache) (now : Z) (key : gostr) (v : V) (t : Z) : WafCache :=
  let created := match c !! key with Some item => createTime item | None => now end in
  <[key := put created t v]> c.

Definition Set_ (c : WafCache) (now : Z) (key : gostr) (v : V) : WafCache :=
  SetWithTTl c now key v (100 * 365 * 24 * hour).

Definition SetWithTTlRenewTime (c : WafCache) (now : Z) (key : gostr) (v : V) (t : Z) : WafCache :=
  <[key := put now t v]> c.

Definition Get (c : WafCache) (now : Z) (key : gostr) : WafCache * option V :=
  match c !! key with
  | None => (c, None)
  | Some item => if live now item then (c, Some (value item)) else (delete key c, None)
  end.

Definition IsKeyExist (c : WafCache) (now : Z) (key : gostr) : WafCache * bool :=
  match c !! key with
  | None => (c, false)
  | Some item => if live now item then (c, true) else (delete key c, false)
  end.

Definition ExistsE (c : WafCache) (now : Z) (key : gostr) : WafCache * result unit bool :=
  let (c', b) := IsKeyExist c now key in (c', Ok b).

(** [GetAsEx]: the value read, and renewed when the new time to live is positive. *)
Definition GetAsEx (c : WafCache) (now : Z) (key : gostr) (t : Z) : WafCache * option V :=
  match c !! key with
  | None => (c, None)
  | Some item =>
      if negb (live now item) then (delete key c, None)
      else (if 0 <? t then <[key := put now t (value item)]> c else c, Some (value item))
  end.

Definition Touch (c : WafCache) (now : Z) (key : gostr) (t : Z) : WafCache * bool :=
  match c !! key with
  | None => (c, false)
  | Some item =>
      if negb (live now item) then (delete key c, false)
      else (if 0 <? t then <[key := put now t (value item)]> c else c, true)
  end.

Definition Remove (c : WafCache) (key : gostr) : WafCache :=
  match c !! key with None => c | Some _ => delete key c end.

Definition GetExpireTime (c : WafCache) (now : Z) (key : gostr) : WafCache * option Z :=
  match c !! key with
  | None => (c, None)
  | Some item => if live now item then (c, Some (expireTime item)) else (delete key c, None)
  end.

Definition ClearExpirationCache (c : WafCache) (now : Z) : WafCache :=
  filter (λ ki, live now ki.2 = true) c.

Definition remaining (now : Z) (item : WafCacheItem) : Z := ttl item - (now - createTime item).

(** The keys with a prefix and their remaining time; the others with the prefix are
    deleted.  [ListAvailableKeys] is the case of the empty prefix. *)
Definition ListAvailableKeysWithPrefix (c : WafCache) (now : Z) (prefix : gostr) : WafCache * gmap gostr Z :=
  (filter (λ ki, has_prefix ki.1 prefix = false ∨ 0 < remaining now ki.2) c,
   remaining now <$> filter (λ ki, has_prefix ki.1 prefix = true ∧ 0 < remaining now ki.2) c).

Definition ListAvailableKeys (c : WafCache) (now : Z) : WafCache * gmap gostr Z :=
  (filter (λ ki, 0 < remaining now ki.2) c,
   remaining now <$> filter (λ ki, 0 < remaining now ki.2) c).

(** ** Reads see the live items *)

Definition view (c : WafCache) (now : Z) (key : gostr) : option V :=
  match c !! key with Some item => if live now item then Some (value item) else None | None => None end.

Lemma view_empty t k : view ∅ t k = None.
Proof. unfold view. by rewrite lookup_empty. Qed.

Lemma view_delete_stale c now key item t k :
  c !! key = Some item → live now item = false → now ≤ t → view (delete key c) t k = view c t k.
Proof.
  intros Hi Hl Ht. unfold view. destruct (decide (k = key)) as [->|Hne].
  - rewrite lookup_delete_eq, Hi. unfold live in *. prop_of_bool.
    by rewrite (proj2 (Z.leb_gt _ _)) by lia.
  - by rewrite lookup_delete_ne.
Qed.

Lemma view_put c key now tt v t k :
  view (<[key := put now tt v]> c) t k
  = if bool_decide (k = key) then (if t - now <=? tt then Some v else None) else view c t k.
Proof.
  unfold view. case_bool_decide as Hk; [subst k; by rewrite lookup_insert_eq|].
  by rewrite lookup_insert_ne.
Qed.

#[export] Instance wafcache_store : CacheStore WafCache V.
Proof.
  refine {| cs_get := Get; cs_renew := SetWithTTlRenewTime; cs_remove := Remove; cs_view := view |}.
  - intros c now k. unfold Get, view. destruct (c !! k) as [item|]; [|done]. by destruct (live now item).
  - intros c now k t k' Ht. unfold Get. destruct (c !! k) as [item|] eqn:E; [|done].
    destruct (live now item) eqn:El; [done|]. by eapply view_delete_stale.
  - intros c now k v t0 t k' _. apply view_put.
  - intros c k t k'. unfold Remove, view. destruct (c !! k) as [item|] eqn:E.
    + case_bool_decide as Hk; [subst k'; by rewrite lookup_delete_eq|by rewrite lookup_delete_ne].
    + case_bool_decide as Hk; [subst k'; by rewrite E|done].
Defined.

(** ** Expired items are invisible

    One type for all the operations and one for their answers. *)
Inductive op :=
| OSet (key : gostr) (v : V) (t : Z)
| ORenew (key : gostr) (v : V) (t : Z)
| OGet (key : gostr)
| OExists (key : gostr)
| OGetEx (key : gostr) (t : Z)
| OTouch (key : gostr) (t : Z)
| ORemove (key : gostr)
| OExpire (key : gostr)
| OClear
| OList
| OListPrefix (p : gostr).

Inductive answer :=
| ANone | AVal (v : option V) | ABool (b : bool) | ATime (t : option Z) | AKeys (m : gmap gostr Z).

Definition exec (c : WafCache) (now : Z) (o : op) : WafCache * answer :=
  match o with
  | OSet k v t => (SetWithTTl c now k v t, ANone)
  | ORenew k v t => (SetWithTTlRenewTime c now k v t, ANone)
  | OGet k => let (c', v) := Get c now k in (c', AVal v)
  | OExists k => let (c', b) := IsKeyExist c now k in (c', ABool b)
  | OGetEx k t => let (c', v) := GetAsEx c now k t in (c', AVal v)
  | OTouch k t => let (c', b) := Touch c now k t in (c', ABool b)
  | ORemove k => (Remove c k, ANone)
  | OExpire k => let (c', t) := GetExpireTime c now k in (c', ATime t)
  | OClear => (ClearExpirationCache c now, ANone)
  | OList => let (c', m) := ListAvailableKeys c now in (c', AKeys m)
  | OListPrefix p => let (c', m) := ListAvailableKeysWithPrefix c now p in (c', AKeys m)
  end.

(** The cache without its expired items. *)
Definition prune (c : WafCache) (now : Z) : WafCache := ClearExpirationCache c now.

(** A key whose expired item has not been removed yet. *)
Definition stale (c : WafCache) (now : Z) (key : gostr) : Prop :=
  ∃ item, c !! key = Some item ∧ live now item = false.

Definition safe (c : WafCache) (now : Z) (o : op) : Prop :=
  match o with OSet k _ _ => ¬ stale c now k | _ => True end.

Lemma prune_lookup c now k :
  prune c now !! k = match c !! k with Some item => if live now item then Some item else None | None => None end.
Proof.
  unfold prune, ClearExpirationCache. rewrite map_lookup_filter.
  destruct (c !! k) as [item|]; cbn; [|done].
  destruct (live now item) eqn:E; [by rewrite option_guard_True|by rewrite option_guard_False by congruence].
Qed.

Lemma live_mono now t item : now ≤ t → live now item = false → live t item = false.
Proof. unfold live. rewrite !Z.leb_gt. lia. Qed.

(** Two caches that show the same items from [now] on. *)
Definition same_from (now : Z) (c d : WafCache) : Prop := ∀ t, now ≤ t → prune c t = prune d t.

Lemma same_from_lookup now c d :
  (∀ k, match c !! k, d !! k with
        | Some x, Some y => x = y
        | Some x, None => live now x = false
        | None, Some y => live now y = false
        | None, None => True
        end) → same_from now c d.
Proof.
  intros H t Ht. apply map_eq. intros k. rewrite !prune_lookup. specialize (H k).
  destruct (c !! k) as [x|], (d !! k) as [y|]; [by subst|..|done];
    by rewrite (live_mono now t) by done.
Qed.

(** Comparing, key by key, a cache with its pruned version after the same change. *)
Definition agree_at (now : Z) (c d : WafCache) (k : gostr) : Prop :=
  match c !! k, d !! k with
  | Some x, Some y => x = y
  | Some x, None => live now x = false
  | None, Some y => live now y = false
  | None, None => True
  end.

Lemma agree_prune c now k : agree_at now c (prune c now) k.
Proof.
  unfold agree_at. rewrite prune_lookup. destruct (c !! k) as [x|]; [|done]. by destruct (live now x) eqn:E.
Qed.

Lemma agree_insert c d now key x k :
  agree_at now c d k → agree_at now (<[key := x]> c) (<[key := x]> d) k.
Proof.
  unfold agree_at. destruct (decide (k = key)) as [->|]; [by rewrite !lookup_insert_eq|by rewrite !lookup_insert_ne].
Qed.

Lemma agree_delete c d now key k :
  agree_at now c d k → agree_at now (delete key c) (delete key d) k.
Proof.
  unfold agree_at. destruct (decide (k = key)) as [->|]; [by rewrite !lookup_delete_eq|by rewrite !lookup_delete_ne].
Qed.

Lemma agree_delete_l c now key k :
  stale c now key → agree_at now (delete key c) (prune c now) k.
Proof.
  intros (item & Hi & Hl). unfold agree_at. rewrite prune_lookup. destruct (decide (k = key)) as [->|].
  - by rewrite lookup_delete_eq, Hi, Hl.
  - rewrite lookup_delete_ne by done. apply (agree_prune c now k) || idtac.
    destruct (c !! k) as [x|]; [|done]. by destruct (live now x) eqn:E.
Qed.

Lemma agree_filter (P : gostr * WafCacheItem → Prop) `{∀ x, Decision (P x)} c d now k :
  agree_at now c d k → agree_at now (filter P c) (filter P d) k.
Proof.
  unfold agree_at. rewrite !map_lookup_filter.
  destruct (c !! k) as [x|], (d !! k) as [y|]; cbn; repeat case_guard; cbn; naive_solver.
Qed.

Lemma filter_prune (P : gostr * WafCacheItem → Prop) `{∀ x, Decision (P x)} c now :
  (∀ k item, P (k, item) → live now item = true) → filter P c = filter P (prune c now).
Proof.
  intros HP. apply map_eq. intros k. rewrite !map_lookup_filter, prune_lookup.
  destruct (c !! k) as [x|]; cbn; [|done]. destruct (live now x) eqn:E; cbn; [done|].
  rewrite option_guard_False; [done|]. intros Hx%HP. congruence.
Qed.

(** An operation that looks one key up, on a cache and on its pruned version. *)
Ltac read_item c k :=
  rewrite prune_lookup; let E := fresh "E" in let El := fresh "El" in
  destruct (c !! k) as [?item|] eqn:E;
    [match goal with item : WafCacheItem |- _ =>
       destruct (live _ item) eqn:El; cbn [negb];
       rewrite ?El; cbn [negb fst snd];
       (split; [done|]); apply same_from_lookup; intros ?k';
       first [by apply agree_prune | by apply agree_delete_l; exists item | idtac]
     end
    |split; [done|]; apply same_from_lookup; intros ?k'; apply agree_prune].

(** lazy removal is invisible.  Except for a [SetWithTTl] on a key whose expired
    item is still there, every operation answers, and leaves to be seen from then on,
    the same whether expired items have been removed or not. *)
Theorem exec_prune c now o :
  safe c now o →
  (exec c now o).2 = (exec (prune c now) now o).2 ∧
  same_from now (exec c now o).1 (exec (prune c now) now o).1.
Proof.
  intros Hsafe. destruct o as [k v t|k v t|k|k|k t|k t|k|k| | |p]; cbn [exec].
  - split; [done|]. apply same_from_lookup. intros k'. unfold SetWithTTl. rewrite prune_lookup.
    destruct (c !! k) as [item|] eqn:E; [|apply agree_insert, agree_prune].
    destruct (live now item) eqn:El; [apply agree_insert, agree_prune|]. destruct Hsafe. by exists item.
  - split; [done|]. apply same_from_lookup. intros k'. apply agree_insert, agree_prune.
  - unfold Get. read_item c k.
  - unfold IsKeyExist. read_item c k.
  - unfold GetAsEx. read_item c k. destruct (0 <? t); [apply agree_insert|]; apply agree_prune.
  - unfold Touch. read_item c k. destruct (0 <? t); [apply agree_insert|]; apply agree_prune.
  - unfold Remove. read_item c k. apply agree_delete, agree_prune.
  - unfold GetExpireTime. read_item c k.
  - split; [done|]. apply same_from_lookup. intros k'. apply agree_filter, agree_prune.
  - cbn. split; [|apply same_from_lookup; intros k'; apply agree_filter, agree_prune].
    do 2 f_equal. apply filter_prune. intros k item. unfold remaining, live. cbn. intros ?. apply Z.leb_le. lia.
  - cbn. split; [|apply same_from_lookup; intros k'; apply agree_filter, agree_prune].
    do 2 f_equal. apply filter_prune. intros k item. unfold remaining, live. cbn. intros [_ ?]. apply Z.leb_le. lia.
Qed.
(** deadlines.  A renewing write is read back until its time to live has passed
    since the write, and not after; a plain write on a live key keeps the deadline base
    of the first write; on a key whose expired item has not been removed it is lost
    when the new time to live is not longer than the item's age. *)
Theorem write_deadlines c now key v t :
  (∀ u, now ≤ u → view (SetWithTTlRenewTime c now key v t) u key = if u - now <=? t then Some v else None) ∧
  (c !! key = None → ∀ u, now ≤ u → view (SetWithTTl c now key v t) u key = if u - now <=? t then Some v else None) ∧
  (∀ item, c !! key = Some item → ∀ u, now ≤ u →
     view (SetWithTTl c now key v t) u key = if u - createTime item <=? t then Some v else None) ∧
  (∀ k u, k ≠ key → view (SetWithTTl c now key v t) u k = view c u k).
Proof.
  split; [|split; [|split]].
  - intros u _. unfold SetWithTTlRenewTime. by rewrite view_put, bool_decide_eq_true_2.
  - intros E u _. unfold SetWithTTl. by rewrite E, view_put, bool_decide_eq_true_2.
  - intros item E u _. unfold SetWithTTl. by rewrite E, view_put, bool_decide_eq_true_2.
  - intros k u Hne. unfold SetWithTTl. by rewrite view_put, bool_decide_eq_false_2.
Qed.

End cache.
Arguments WafCacheItem : clear implicits.

Lemma exec_prune_witness :
  (exec {[$"k" := put 0 5 $"v"]} 9 (OTouch $"k" 7)).2 = (ABool false : answer (V := gostr)).
Proof.
  rewrite (proj1 (exec_prune {[$"k" := put 0 5 $"v"]} 9 (OTouch $"k" 7) I)). vm_compute. reflexivity.
Defined.

Lemma write_deadlines_witness :
  view (SetWithTTlRenewTime ∅ 3 $"k" $"v" 5) 8 $"k" = Some $"v".
Proof.
  rewrite (proj1 (write_deadlines ∅ 3 $"k" $"v" 5) 8 ltac:(lia)). reflexivity.
Defined.

(** A mark written for 10 s on a key that expired 1 s ago, not yet swept, is dead at
    once. *)
Example SetWithTTl_stale_lost :
  let c : gmap gostr (WafCacheItem gostr) := {[$"k" := put 0 (10 * second) $"old"]} in
  (Get (SetWithTTl c (11 * second) $"k" $"new" (10 * second)) (11 * second) $"k").2 = None.
Proof. vm_compute. reflexivity. Qed.

End WafCache.
