(* ===== verification/IPBan.v ===== *)
(** * Failure counters (wafipban)

    Two counters of failures per client over a [CacheStore]: HTTP failures
    (ip_failure_manager.go, [IPFailure]) and host logins
    (host_login_failure_manager.go, [HostLogin]).  Both are read-modify-write
    sequences under a mutex, so each operation is one step.  The regular-expression
    engine is a parameter. *)
From S2P Require Import Prelude.
From S2P Require Import GoLib.
From S2P Require Import WafCache.
Local Open Scope Z_scope.
Local Open Scope bool_scope.
#[local] Existing Instance WafCache.wafcache_store.

(** The empty in-memory cache shows nothing. *)
Lemma empty_store {V} t k : cs_view (∅ : gmap gostr (WafCache.WafCacheItem V)) t k = None.
Proof. apply WafCache.view_empty. Qed.

(** ** A log of events kept in a cache, trimmed on write *)

Definition count_after (s : Z) (l : list Z) : Z := Z.of_nat (count_if (λ t, s <? t) l).

Lemma count_after_app s l k : count_after s (l ++ k) = count_after s l + count_after s k.
Proof. unfold count_after. rewrite count_if_app. lia. Qed.

Lemma count_after_none s l : (∀ t, t ∈ l → t ≤ s) → count_after s l = 0.
Proof.
  intros H. unfold count_after. rewrite count_if_false; [done|]. intros t Ht. apply Z.ltb_ge. by apply H.
Qed.

Lemma count_after_trim s w l : w ≤ s → count_after s (List.filter (λ t, w <? t) l) = count_after s l.
Proof.
  intros H. unfold count_after. rewrite count_if_filter. f_equal. apply count_if_ext.
  intros t _. destruct (Z.ltb_spec w t), (Z.ltb_spec s t); (done || lia).
Qed.

Section sliding.
Context {C V : Type} `{CacheStore C V} (events : V → list Z) (L : Z).

Definition opt_events (ov : option V) : list Z := default [] (events <$> ov).

(** The cache holds, for every key, enough of the key's history to count over any
    window of at most [L]. *)
Record keeps (c : C) (now : Z) (log : gostr → list Z) : Prop := {
  keeps_past : ∀ k t, t ∈ log k → t ≤ now;
  keeps_count : ∀ k t s, now ≤ t → t - L ≤ s →
    count_after s (opt_events (cs_view c t k)) = count_after s (log k);
}.

Lemma keeps_later c now now' log : keeps c now log → now ≤ now' → keeps c now' log.
Proof.
  intros [Hp Hc] Hle. split; [intros k t Ht; specialize (Hp k t Ht); lia|].
  intros k t s Ht Hs. apply Hc; lia.
Qed.

Lemma keeps_get c now log k : keeps c now log → keeps (cs_get c now k).1 now log.
Proof. intros [Hp Hc]. split; [done|]. intros k' t s Ht Hs. rewrite cs_get_view by done. by apply Hc. Qed.

(** A write that keeps the counts over [L] from now on. *)
Lemma keeps_write c now log k v new :
  keeps c now log →
  (∀ t, t ∈ new → t ≤ now) →
  (∀ s, now - L ≤ s → count_after s (events v) = count_after s new) →
  keeps (cs_renew c now k v L) now (λ k', if bool_decide (k' = k) then new else log k').
Proof.
  intros [Hp Hc] Hnew Hv. split.
  - intros k' t. case_bool_decide; [by apply Hnew|by apply Hp].
  - intros k' t s Ht Hs. rewrite cs_renew_view by done. case_bool_decide; [|by apply Hc].
    destruct (Z.leb_spec (t - now) L); cbn; [apply Hv; lia|].
    rewrite count_after_none by set_solver. symmetry. apply count_after_none.
    intros x Hx. specialize (Hnew x Hx). lia.
Qed.

Lemma keeps_remove c now log k :
  keeps c now log → keeps (cs_remove c k) now (λ k', if bool_decide (k' = k) then [] else log k').
Proof.
  intros [Hp Hc]. split.
  - intros k' t. case_bool_decide; [set_solver|by apply Hp].
  - intros k' t s Ht Hs. rewrite cs_remove_view. case_bool_decide; [done|by apply Hc].
Qed.

(** Append the event [now] and trim to the last [L]. *)
Lemma keeps_append c now log k v :
  0 ≤ L → keeps c now log →
  events v = List.filter (λ t, now - L <? t) (opt_events (cs_view c now k) ++ [now]) →
  keeps (cs_renew c now k v L) now (λ k', if bool_decide (k' = k) then log k ++ [now] else log k').
Proof.
  intros HL Hk Hv. apply keeps_write; [done|..].
  - intros t [Ht| ->%list_elem_of_singleton]%elem_of_app; [by apply (keeps_past _ _ _ Hk) in Ht|lia].
  - intros s Hs. rewrite Hv, count_after_trim, !count_after_app by done.
    by rewrite (keeps_count _ _ _ Hk) by lia.
Qed.
End sliding.

Module IPFailure.

Definition CACHE_IP_FAILURE_PRE : gostr := $"CACHE_IP_FAILURE_PRE".

Record IPFailureRecord := mkRecord {
  IP : gostr; Events : list Z; Count : Z; FirstTime : Z; LastTime : Z;
  TriggerMinutes : Z; TriggerCount : Z
}.

(** The settings of package global the manager reads. *)
Record config := mkConfig { ban_enabled : Z; lock_time : Z; challenge_path : gostr }.

(** The fields of [innerbean.WebLog] the manager reads. *)
Record weblog := mkWebLog { SRC_IP : gostr; IsBot : Z; RISK_LEVEL : Z; URL : gostr }.

Section manager.
Context {C : Type} `{CacheStore C IPFailureRecord}.

Definition key (ip : gostr) : gostr := CACHE_IP_FAILURE_PRE ++ ip.
Definition load (c : C) (now : Z) (ip : gostr) : C * option IPFailureRecord := cs_get c now (key ip).
Definition retention (cfg : config) : Z := lock_time cfg * minute.

(** Is the failure recorded at all? *)
Definition eligible (cfg : config) (w : weblog) : bool :=
  negb (bool_decide (SRC_IP w = []) || (ban_enabled cfg =? 0)) &&
  negb ((IsBot w =? 1) && (RISK_LEVEL w =? 0)) && negb (has_prefix (URL w) (challenge_path cfg)).

Definition RecordFailure (cfg : config) (c : C) (now : Z) (w : weblog) : C :=
  if bool_decide (SRC_IP w = []) || (ban_enabled cfg =? 0) then c
  else if (IsBot w =? 1) && (RISK_LEVEL w =? 0) then c
  else if has_prefix (URL w) (challenge_path cfg) then c
  else
    let ip := SRC_IP w in
    let (c, loaded) := load c now ip in
    let record := default (mkRecord ip [] 0 now now 0 0) loaded in
    let events := Events record ++ [now] in
    let windowStart := now - retention cfg in
    let valid := List.filter (λ t, windowStart <? t) events in
    let first := default (FirstTime record) (head valid) in
    cs_renew c now (key ip)
      (mkRecord (IP record) valid (Z.of_nat (length valid)) first now
         (TriggerMinutes record) (TriggerCount record)) (retention cfg).

Definition GetFailureCount (cfg : config) (c : C) (now : Z) (ip : gostr) (minutes : Z) : C * Z :=
  if bool_decide (ip = []) || (ban_enabled cfg =? 0) then (c, 0)
  else
    let (c, record) := load c now ip in
    match record with
    | None => (c, 0)
    | Some r => (c, count_after (now - minutes * minute) (Events r))
    end.

Definition ClearIPFailure (c : C) (ip : gostr) : C :=
  if bool_decide (ip = []) then c else cs_remove c (key ip).

Definition GetFailureInfo (c : C) (now : Z) (ip : gostr) : C * option IPFailureRecord := load c now ip.

Definition stamp (r : IPFailureRecord) (minutes count : Z) : IPFailureRecord :=
  mkRecord (IP r) (Events r) (Count r) (FirstTime r) (LastTime r) minutes count.

Definition RecordFailureThreshold (cfg : config) (c : C) (now : Z) (ip : gostr) (minutes count : Z) : C :=
  if bool_decide (ip = []) || (ban_enabled cfg =? 0) then c
  else
    let (c, loaded) := load c now ip in
    let record :=
      match loaded with
      | None => mkRecord ip [] 0 now now minutes count
      | Some r =>
          if (TriggerMinutes r =? 0) || (TriggerCount r =? 0) then stamp r minutes count
          else if (minutes <? TriggerMinutes r) || ((minutes =? TriggerMinutes r) && (count <? TriggerCount r))
          then stamp r minutes count
          else r
      end in
    cs_renew c now (key ip) record (retention cfg).

Definition IsBannedRecord (r : option IPFailureRecord) : bool :=
  match r with None => false | Some r => (0 <? TriggerMinutes r) && (0 <? TriggerCount r) end.

(** ** Histories *)

Inductive op :=
| OFail (w : weblog)
| OThreshold (ip : gostr) (minutes count : Z)
| OCount (ip : gostr) (minutes : Z)
| OClear (ip : gostr).

Definition apply (cfg : config) (c : C) (now : Z) (o : op) : C :=
  match o with
  | OFail w => RecordFailure cfg c now w
  | OThreshold ip m n => RecordFailureThreshold cfg c now ip m n
  | OCount ip m => (GetFailureCount cfg c now ip m).1
  | OClear ip => ClearIPFailure c ip
  end.

(** The failures of each client since it was last cleared. *)
Definition log_op (cfg : config) (log : gostr → list Z) (now : Z) (o : op) : gostr → list Z :=
  match o with
  | OFail w => λ ip, if eligible cfg w && bool_decide (ip = SRC_IP w) then log ip ++ [now] else log ip
  | OClear ip' => if bool_decide (ip' = []) then log else λ ip, if bool_decide (ip = ip') then [] else log ip
  | _ => log
  end.

Inductive run (cfg : config) : C → Z → (gostr → list Z) → Prop :=
| run_start c now : (∀ t k, now ≤ t → cs_view c t k = None) → run cfg c now (λ _, [])
| run_op c now log now' o :
    run cfg c now log → now ≤ now' → run cfg (apply cfg c now' o) now' (log_op cfg log now' o).

(** The log read through the keys of the cache. *)
Definition by_key (log : gostr → list Z) (k : gostr) : list Z :=
  if has_prefix k CACHE_IP_FAILURE_PRE then log (drop (length CACHE_IP_FAILURE_PRE) k) else [].

Lemma has_prefix_app p s : has_prefix (p ++ s) p = true.
Proof. induction p as [|x p IH]; [by destruct s|]. cbn. by rewrite Ascii.eqb_refl. Qed.

Lemma by_key_key log ip : by_key log (key ip) = log ip.
Proof. unfold by_key, key. by rewrite has_prefix_app, drop_app_length. Qed.

Lemma has_prefix_inv s p : has_prefix s p = true → ∃ r, s = p ++ r.
Proof.
  revert s. induction p as [|x p IH]; intros [|y s] Hs; cbn in Hs; try done; [by exists []|by eexists|].
  prop_of_bool. subst. destruct (IH s) as [r ->]; [done|]. by exists r.
Qed.

Lemma key_inj ip ip' : key ip = key ip' → ip = ip'.
Proof. unfold key. apply app_inv_head. Qed.

Lemma keeps_ext (c : C) L now log log' :
  (∀ k, log k = log' k) → keeps Events L c now log → keeps Events L c now log'.
Proof.
  intros Heq [Hp Hc]. split; intros k; rewrite <- Heq; [apply Hp|apply Hc].
Qed.

Lemma by_key_update log ip f k :
  (if bool_decide (k = key ip) then f (by_key log (key ip)) else by_key log k)
  = by_key (λ i, if bool_decide (i = ip) then f (log i) else log i) k.
Proof.
  case_bool_decide as Hk; [subst k; rewrite !by_key_key, bool_decide_eq_true_2; done|].
  unfold by_key. destruct (has_prefix k CACHE_IP_FAILURE_PRE) eqn:E; [|done].
  apply has_prefix_inv in E as [r ->]. rewrite drop_app_length. rewrite bool_decide_eq_false_2; [done|].
  intros ->. by apply Hk.
Qed.

Lemma run_keeps cfg c now log :
  0 ≤ lock_time cfg → run cfg c now log → keeps Events (retention cfg) c now (by_key log).
Proof.
  intros HL. assert (HL' : 0 ≤ retention cfg) by (unfold retention, minute, second; lia).
  induction 1 as [c now Hempty|c now log now' o _ IH Hle].
  - split.
    + intros k t. unfold by_key. case_match; set_solver.
    + intros k t s Ht Hs. rewrite Hempty by done. unfold by_key. by case_match.
  - apply (keeps_later Events _ _ _ now') in IH; [|done].
    assert (Hget : ∀ ip, keeps Events (retention cfg) (load c now' ip).1 now' (by_key log))
      by (intros ip; by apply keeps_get).
    assert (Hval : ∀ ip, (load c now' ip).2 = cs_view (load c now' ip).1 now' (key ip)).
    { intros ip. unfold load. by rewrite cs_get_value, cs_get_view. }
    destruct o as [w|ip m n|ip m|ip]; cbn [apply log_op].
    + unfold RecordFailure, eligible.
      destruct (bool_decide (SRC_IP w = []) || (ban_enabled cfg =? 0)) eqn:E1; [done|].
      destruct ((IsBot w =? 1) && (RISK_LEVEL w =? 0)) eqn:E2; [done|].
      destruct (has_prefix (URL w) (challenge_path cfg)) eqn:E3; [done|]. cbn [negb andb].
      specialize (Hget (SRC_IP w)). specialize (Hval (SRC_IP w)).
      destruct (load c now' (SRC_IP w)) as [c1 loaded]. cbn [fst snd] in *.
      eapply keeps_ext; [intros k; exact (by_key_update log (SRC_IP w) (λ l, l ++ [now']) k)|].
      apply keeps_append; [done|done|]. cbn [Events]. rewrite <- Hval. by destruct loaded.
    + unfold RecordFailureThreshold. case_match; [done|].
      specialize (Hget ip). specialize (Hval ip).
      destruct (load c now' ip) as [c1 loaded]. cbn [fst snd] in *.
      apply (keeps_ext _ _ _ (λ k, if bool_decide (k = key ip) then by_key log (key ip) else by_key log k));
        [intros k; destruct (decide (k = key ip)) as [->|Hk]; [by rewrite bool_decide_eq_true_2|by rewrite bool_decide_eq_false_2]|].
      apply (keeps_write Events (retention cfg) c1 now' (by_key log) (key ip) _ (by_key log (key ip)));
        [done|exact (keeps_past _ _ _ _ _ Hget (key ip))|].
      intros s Hs. rewrite <- (keeps_count _ _ _ _ _ Hget (key ip) now' s) by (done || lia).
      rewrite <- Hval. destruct loaded as [r|]; [|done]. cbn. by repeat case_match.
    + unfold GetFailureCount. case_match; [done|]. specialize (Hget ip).
      destruct (load c now' ip) as [c1 loaded]. by destruct loaded.
    + unfold ClearIPFailure. case_bool_decide as Hip.
      * done.
      * eapply keeps_ext; [intros k; exact (by_key_update log ip (λ _, []) k)|]. by apply keeps_remove.
Qed.

(** the failure count is exact.  Over any store that keeps its deadlines, after
    any history of failures, threshold stamps, reads and clears, the count over a window
    not longer than the lock time is the number of recorded failures of the client
    inside the window, since its last clear. *)
Theorem GetFailureCount_exact cfg c now log ip minutes now' :
  run cfg c now log → 0 ≤ lock_time cfg → ban_enabled cfg ≠ 0 → ip ≠ [] →
  minutes ≤ lock_time cfg → now ≤ now' →
  (GetFailureCount cfg c now' ip minutes).2 = count_after (now' - minutes * minute) (log ip).
Proof.
  intros Hrun HL Hen Hip Hm Hle. pose proof (run_keeps cfg c now log HL Hrun) as Hk.
  apply (keeps_later Events _ _ _ now') in Hk; [|done].
  unfold GetFailureCount. rewrite bool_decide_eq_false_2 by done.
  rewrite (proj2 (Z.eqb_neq (ban_enabled cfg) 0)) by done. cbn [orb].
  rewrite <- (by_key_key log ip), <- (keeps_count _ _ _ _ _ Hk (key ip) now' (now' - minutes * minute)).
  - unfold load. rewrite <- cs_get_value. destruct (cs_get c now' (key ip)) as [c1 r]. by destruct r.
  - lia.
  - unfold retention, minute, second. lia.
Qed.

End manager.

Lemma GetFailureCount_exact_witness :
  let cfg := mkConfig 1 30 $"/.well-known/" in
  let w := mkWebLog $"1.2.3.4" 0 1 $"/login" in
  let c0 : gmap gostr (WafCache.WafCacheItem IPFailureRecord) := ∅ in
  (GetFailureCount cfg (RecordFailure cfg (RecordFailure cfg c0 (5 * minute) w) (9 * minute) w)
     (14 * minute) $"1.2.3.4" 6).2 = 1.
Proof.
  intros cfg w c0.
  pose proof (GetFailureCount_exact cfg _ (9 * minute) _ $"1.2.3.4" 6 (14 * minute)
    (run_op cfg _ (5 * minute) _ (9 * minute) (OFail w)
      (run_op cfg c0 0 _ (5 * minute) (OFail w) (run_start cfg c0 0 (λ t k _, empty_store t k)) ltac:(vm_compute; discriminate))
      ltac:(vm_compute; discriminate))
    ltac:(vm_compute; discriminate) ltac:(discriminate) ltac:(discriminate) ltac:(vm_compute; discriminate)
    ltac:(vm_compute; discriminate)) as H.
  exact H.
Defined.

(** *** Status codes *)

Section status.
Context (compile : gostr → option (gostr → bool)).

Record status := mkStatus { statusMap : gset Z; statusRe : option (gostr → bool) }.

Definition default_codes : gostr := $"401|403|404|444|429|503".
Definition regex_chars : gostr := $"^$.*+?[]{}()|\".

(** The loop over the parts: the codes read, and whether a regular expression was met. *)
Fixpoint read_parts (parts : list gostr) (codes : gset Z) : gset Z * bool :=
  match parts with
  | [] => (codes, false)
  | part :: parts' =>
      let part := trim_space part in
      if bool_decide (part = []) then read_parts parts' codes
      else if contains_any part regex_chars then (codes, true)
      else match parse_int part with
           | Some n => read_parts parts' ({[n]} ∪ codes)
           | None => read_parts parts' codes
           end
  end.

Definition initStatusCodes (st : status) (setting : gostr) : status :=
  let s := if bool_decide (setting = []) then default_codes else setting in
  let (codes, hasRegex) := read_parts (split s "|"%char) ∅ in
  mkStatus codes
    (if hasRegex then match compile ($"^(" ++ s ++ $")$") with
                      | Some re => Some re
                      | None => statusRe st
                      end
     else statusRe st).

Definition ReloadStatusCodes := initStatusCodes.

Definition IsFailureStatusCode (st : status) (statusCode : Z) : bool :=
  if bool_decide (statusCode ∈ statusMap st) then true
  else match statusRe st with Some re => re (itoa statusCode) | None => false end.

End status.

(** Reloading a plain list keeps the regular expression of the former setting. *)
Example reload_keeps_regex :
  let compile (p : gostr) : option (gostr → bool) := Some (λ s, has_prefix s $"5") in
  let st := initStatusCodes compile (mkStatus ∅ None) $"5.." in
  IsFailureStatusCode (initStatusCodes compile st $"404") 502 = true.
Proof. vm_compute. reflexivity. Qed.

End IPFailure.

Module HostLogin.

Definition CACHE_HOST_LOGIN_FAIL_PRE : gostr := $"CACHE_HOST_LOGIN_FAIL_".

Record HostLoginFailureRecord := mkRecord {
  Source : gostr; IP : gostr; Events : list Z; Count : Z; FirstTime : Z; LastTime : Z
}.

Section manager.
Context {C : Type} `{CacheStore C HostLoginFailureRecord}.

Definition hostLoginKey (source ip : gostr) : gostr := CACHE_HOST_LOGIN_FAIL_PRE ++ source ++ $":" ++ ip.
Definition load (c : C) (now : Z) (source ip : gostr) : C * option HostLoginFailureRecord :=
  cs_get c now (hostLoginKey source ip).

Definition window_of (windowMinutes : Z) : Z := if windowMinutes <=? 0 then 10 else windowMinutes.
Definition retention_of (windowMinutes retentionMinutes : Z) : Z :=
  if retentionMinutes <? window_of windowMinutes then window_of windowMinutes else retentionMinutes.

Definition Record_ (c : C) (now : Z) (source ip : gostr) (windowMinutes retentionMinutes : Z) : C * Z :=
  if bool_decide (ip = []) then (c, 0)
  else
    let w := window_of windowMinutes in
    let r := retention_of windowMinutes retentionMinutes in
    let (c, loaded) := load c now source ip in
    let record := default (mkRecord source ip [] 0 now 0) loaded in
    let events := Events record ++ [now] in
    let valid := List.filter (λ t, now - r * minute <? t) events in
    let inWindow := Z.of_nat (count_if (λ t, (now - r * minute <? t) && (now - w * minute <? t)) events) in
    let first := default (FirstTime record) (head valid) in
    (cs_renew c now (hostLoginKey source ip)
       (mkRecord (Source record) (IP record) valid (Z.of_nat (length valid)) first now) (r * minute),
     inWindow).

Definition GetCount (c : C) (now : Z) (source ip : gostr) (windowMinutes : Z) : C * Z :=
  if bool_decide (ip = []) then (c, 0)
  else
    let (c, record) := load c now source ip in
    match record with
    | None => (c, 0)
    | Some r => (c, count_after (now - windowMinutes * minute) (Events r))
    end.

Definition Clear (c : C) (source ip : gostr) : C :=
  if bool_decide (ip = []) then c else cs_remove c (hostLoginKey source ip).

Definition GetRecord (c : C) (now : Z) (source ip : gostr) : C * option HostLoginFailureRecord :=
  if bool_decide (ip = []) then (c, None) else load c now source ip.

Inductive op :=
| ORecord (source ip : gostr) (windowMinutes retentionMinutes : Z)
| OCount (source ip : gostr) (windowMinutes : Z)
| OClear (source ip : gostr).

Definition apply (c : C) (now : Z) (o : op) : C :=
  match o with
  | ORecord s ip w r => (Record_ c now s ip w r).1
  | OCount s ip w => (GetCount c now s ip w).1
  | OClear s ip => Clear c s ip
  end.

(** The login failures under each counting key since it was last cleared. *)
Definition log_op (log : gostr → list Z) (now : Z) (o : op) : gostr → list Z :=
  match o with
  | ORecord s ip _ _ =>
      if bool_decide (ip = []) then log
      else λ k, if bool_decide (k = hostLoginKey s ip) then log (hostLoginKey s ip) ++ [now] else log k
  | OClear s ip =>
      if bool_decide (ip = []) then log else λ k, if bool_decide (k = hostLoginKey s ip) then [] else log k
  | OCount _ _ _ => log
  end.

(** Runs in which every record keeps [R] minutes. *)
Inductive run (R : Z) : C → Z → (gostr → list Z) → Prop :=
| run_start c now : (∀ t k, now ≤ t → cs_view c t k = None) → run R c now (λ _, [])
| run_op c now log now' o :
    run R c now log → now ≤ now' →
    match o with ORecord _ _ w r => retention_of w r = R | _ => True end →
    run R (apply c now' o) now' (log_op log now' o).

Lemma login_run_keeps R c now log : 0 ≤ R → run R c now log → keeps Events (R * minute) c now log.
Proof.
  intros HR. induction 1 as [c now Hempty|c now log now' o _ IH Hle Hret].
  - split; [set_solver|]. intros k t s Ht Hs. by rewrite Hempty.
  - apply (keeps_later Events _ _ _ now') in IH; [|done].
    destruct o as [s ip w r|s ip w|s ip]; cbn [apply log_op].
    + unfold Record_. destruct (decide (ip = [])) as [Hip|Hip];
        [by rewrite !bool_decide_eq_true_2|rewrite !(bool_decide_eq_false_2 (ip = [])) by done].
      pose proof (keeps_get Events (R * minute) c now' log (hostLoginKey s ip) IH) as Hget.
      pose proof (cs_get_value c now' (hostLoginKey s ip)) as Hval.
      rewrite <- (cs_get_view c now' (hostLoginKey s ip)) in Hval by done.
      unfold load. destruct (cs_get c now' (hostLoginKey s ip)) as [c1 loaded]. cbn [fst snd] in *.
      rewrite Hret. apply keeps_append; [unfold minute, second; lia|done|]. cbn [Events].
      rewrite <- Hval. by destruct loaded.
    + unfold GetCount. destruct (decide (ip = [])) as [Hip|Hip];
        [by rewrite !bool_decide_eq_true_2|rewrite !(bool_decide_eq_false_2 (ip = [])) by done].
      pose proof (keeps_get Events (R * minute) c now' log (hostLoginKey s ip) IH) as Hget.
      unfold load. destruct (cs_get c now' (hostLoginKey s ip)) as [c1 loaded]. by destruct loaded.
    + unfold Clear. destruct (decide (ip = [])) as [Hip|Hip];
        [by rewrite !bool_decide_eq_true_2|rewrite !(bool_decide_eq_false_2 (ip = [])) by done].
      by apply keeps_remove.
Qed.

(** host-login counts are exact.  A record answers the number of failures of its
    source and address inside the counting window, itself included, since the last
    clear; failures of other keys do not count. *)
Theorem Record_counts R c now log source ip w r now' :
  run R c now log → 0 ≤ R → retention_of w r = R → ip ≠ [] → now ≤ now' →
  (Record_ c now' source ip w r).2
  = count_after (now' - window_of w * minute) (log (hostLoginKey source ip) ++ [now']).
Proof.
  intros Hrun HR Hret Hip Hle. pose proof (login_run_keeps R c now log HR Hrun) as Hk.
  apply (keeps_later Events _ _ _ now') in Hk; [|done].
  assert (Hwr : window_of w ≤ R) by (rewrite <- Hret; unfold retention_of; case_match; prop_of_bool; lia).
  unfold Record_. rewrite bool_decide_eq_false_2 by done. unfold load.
  pose proof (keeps_count _ _ _ _ _ Hk (hostLoginKey source ip) now' (now' - window_of w * minute)
    ltac:(lia) ltac:(unfold minute, second in *; lia)) as Hc.
  rewrite <- cs_get_value in Hc. destruct (cs_get c now' (hostLoginKey source ip)) as [c1 loaded].
  cbn [fst snd] in *. rewrite Hret.
  set (evs := Events (default (mkRecord source ip [] 0 now' 0) loaded) ++ [now']).
  assert (Heq : Z.of_nat (count_if (λ t, (now' - R * minute <? t) && (now' - window_of w * minute <? t)) evs)
    = count_after (now' - window_of w * minute) (List.filter (λ t, now' - R * minute <? t) evs))
    by (unfold count_after; by rewrite count_if_filter).
  rewrite Heq. unfold evs.
  rewrite count_after_trim by (unfold minute, second; lia). rewrite !count_after_app, <- Hc.
  f_equal. by destruct loaded.
Qed.
End manager.

Lemma Record_counts_witness :
  let c0 : gmap gostr (WafCache.WafCacheItem HostLoginFailureRecord) := ∅ in
  (Record_ (Record_ c0 minute $"ssh" $"1.2.3.4" 5 30).1 (4 * minute) $"ssh" $"1.2.3.4" 5 30).2 = 2.
Proof.
  intros c0.
  pose proof (Record_counts 30 _ minute _ $"ssh" $"1.2.3.4" 5 30 (4 * minute)
    (run_op 30 c0 0 _ minute (ORecord $"ssh" $"1.2.3.4" 5 30) (run_start 30 c0 0 (λ t k _, empty_store t k))
      ltac:(vm_compute; discriminate) eq_refl) ltac:(lia) eq_refl ltac:(discriminate) ltac:(vm_compute; discriminate)) as H.
  exact H.
Defined.

End HostLogin.
