(* ===== verification/CCRule.v ===== *)
(** * CC rules: conditions, matching, dimensions, ban keys

    model/anti_cc_condition.go ([Conditions]), wafenginecore/ccrule/matcher.go and
    dimension.go ([Matcher]), model/anticc_ban.go ([BanKey]).  The fields and the
    operators are the enumerations of the source; [field_name] and [op_name] give the
    constants.  The regular-expression compiler is a parameter. *)
From S2P Require Import Prelude.
From S2P Require Import GoLib.
From S2P Require Import GoHttp.
Local Open Scope Z_scope.
Local Open Scope bool_scope.
Local Open Scope samwaf_scope.

Module Conditions.

Inductive ccField :=
| CCFieldURI | CCFieldQueryStr | CCFieldMethod | CCFieldHost | CCFieldExt | CCFieldScheme
| CCFieldUserAgent | CCFieldReferer | CCFieldHeader | CCFieldCookie | CCFieldQueryParam
| CCFieldBodyField | CCFieldClientIP | CCFieldCountry | CCFieldProvince | CCFieldCity
| CCFieldIsBot | CCFieldBodyLength | CCFieldRespContentType | CCFieldStatusCode
| CCFieldRespLength | CCFieldUpstreamCost.

Definition all_fields : list ccField :=
  [CCFieldURI; CCFieldQueryStr; CCFieldMethod; CCFieldHost; CCFieldExt; CCFieldScheme;
   CCFieldUserAgent; CCFieldReferer; CCFieldHeader; CCFieldCookie; CCFieldQueryParam;
   CCFieldBodyField; CCFieldClientIP; CCFieldCountry; CCFieldProvince; CCFieldCity;
   CCFieldIsBot; CCFieldBodyLength; CCFieldRespContentType; CCFieldStatusCode;
   CCFieldRespLength; CCFieldUpstreamCost].

Definition field_name (f : ccField) : gostr :=
  match f with
  | CCFieldURI => $"uri" | CCFieldQueryStr => $"query_str" | CCFieldMethod => $"method"
  | CCFieldHost => $"host" | CCFieldExt => $"ext" | CCFieldScheme => $"scheme"
  | CCFieldUserAgent => $"user_agent" | CCFieldReferer => $"referer" | CCFieldHeader => $"header"
  | CCFieldCookie => $"cookie" | CCFieldQueryParam => $"query" | CCFieldBodyField => $"body"
  | CCFieldClientIP => $"client_ip" | CCFieldCountry => $"country" | CCFieldProvince => $"province"
  | CCFieldCity => $"city" | CCFieldIsBot => $"is_bot" | CCFieldBodyLength => $"body_length"
  | CCFieldRespContentType => $"resp_content_type" | CCFieldStatusCode => $"status_code"
  | CCFieldRespLength => $"resp_length" | CCFieldUpstreamCost => $"upstream_cost"
  end.

#[export] Instance ccField_eq_dec : EqDecision ccField.
Proof. solve_decision. Defined.

Inductive ccOp :=
| CCOpEq | CCOpNe | CCOpContains | CCOpNotContains | CCOpPrefix | CCOpSuffix | CCOpRegex
| CCOpIn | CCOpNotIn | CCOpGt | CCOpLt | CCOpBetween | CCOpExists | CCOpNotExists.

Definition all_ops : list ccOp :=
  [CCOpEq; CCOpNe; CCOpContains; CCOpNotContains; CCOpPrefix; CCOpSuffix; CCOpRegex;
   CCOpIn; CCOpNotIn; CCOpGt; CCOpLt; CCOpBetween; CCOpExists; CCOpNotExists].

Definition op_name (o : ccOp) : gostr :=
  match o with
  | CCOpEq => $"eq" | CCOpNe => $"ne" | CCOpContains => $"contains"
  | CCOpNotContains => $"not_contains" | CCOpPrefix => $"prefix" | CCOpSuffix => $"suffix"
  | CCOpRegex => $"regex" | CCOpIn => $"in" | CCOpNotIn => $"not_in" | CCOpGt => $"gt"
  | CCOpLt => $"lt" | CCOpBetween => $"between" | CCOpExists => $"exists"
  | CCOpNotExists => $"not_exists"
  end.

#[export] Instance ccOp_eq_dec : EqDecision ccOp.
Proof. solve_decision. Defined.

Definition lookup_field (s : gostr) : option ccField :=
  find (λ f, bool_decide (field_name f = s)) all_fields.
Definition lookup_op (s : gostr) : option ccOp := find (λ o, bool_decide (op_name o = s)) all_ops.

(** [ccFieldSpecs] *)
Record ccFieldSpec := mkSpec { NeedKey : bool; Numeric : bool; RespPhase : bool; Multivalue : bool }.

Definition ccFieldSpecs (f : ccField) : ccFieldSpec :=
  match f with
  | CCFieldHeader | CCFieldQueryParam | CCFieldBodyField => mkSpec true false false true
  | CCFieldCookie => mkSpec true false false false
  | CCFieldIsBot | CCFieldBodyLength => mkSpec false true false false
  | CCFieldRespContentType => mkSpec false false true false
  | CCFieldStatusCode | CCFieldRespLength | CCFieldUpstreamCost => mkSpec false true true false
  | _ => mkSpec false false false false
  end.

Definition ccOpArity (o : ccOp) : Z :=
  match o with
  | CCOpIn | CCOpNotIn => -1
  | CCOpBetween => 2
  | CCOpExists | CCOpNotExists => 0
  | _ => 1
  end.

Definition ccNumericOps (o : ccOp) : bool :=
  match o with CCOpGt | CCOpLt | CCOpBetween => true | _ => false end.

Definition CCFieldIsResponsePhase (f : ccField) : bool := RespPhase (ccFieldSpecs f).

Inductive cond_error :=
| ErrKeyEmpty | ErrKeyLong | ErrKeyChars | ErrField | ErrOp | ErrNumeric | ErrNoValue
| ErrArity (n : Z) | ErrRegexLong | ErrNoCondition | ErrTooMany | ErrRegex | ErrNumber.

Definition ccFieldKeyMaxLen : nat := 64.
Definition ccRegexMaxLen : nat := 512.

(** The characters are tested rune by rune; a rune outside ASCII is made of bytes that
    fail the test. *)
Definition is_key_byte (c : ascii) : bool :=
  is_alpha_lower c || is_alpha_upper c || is_digit c || Ascii.eqb c "-" || Ascii.eqb c "_".

Definition ValidateCCFieldKey (key : gostr) : result cond_error unit :=
  let key := trim_space key in
  if bool_decide (key = []) then Err ErrKeyEmpty
  else if (ccFieldKeyMaxLen <? length key)%nat then Err ErrKeyLong
  else if forallb is_key_byte key then Ok () else Err ErrKeyChars.

(** A condition as it is stored ... *)
Record MatchCondition := mkCond { Field : gostr; Key : gostr; Op : gostr; Value : list gostr }.
(** ... and once validated, its names resolved. *)
Record ValidCondition := mkValid { vField : ccField; vKey : gostr; vOp : ccOp; vValue : list gostr }.

Definition Validate (c : MatchCondition) : result cond_error ValidCondition :=
  match lookup_field (trim_space (Field c)) with
  | None => Err ErrField
  | Some f =>
      match lookup_op (trim_space (Op c)) with
      | None => Err ErrOp
      | Some o =>
          let spec := ccFieldSpecs f in
          let? key := (if NeedKey spec
                       then let? _ := ValidateCCFieldKey (trim_space (Key c)) in Ok (trim_space (Key c))
                       else Ok []) in
          if ccNumericOps o && negb (Numeric spec) then Err ErrNumeric
          else
            let arity := ccOpArity o in
            let? value := (if arity =? 0 then Ok []
                           else if arity =? -1
                           then match Value c with [] => Err ErrNoValue | vs => Ok vs end
                           else if Z.of_nat (length (Value c)) <? arity then Err (ErrArity arity)
                           else Ok (take (Z.to_nat arity) (Value c))) in
            if bool_decide (o = CCOpRegex) && (ccRegexMaxLen <? length (default [] (head value)))%nat
            then Err ErrRegexLong
            else Ok (mkValid f key o value)
      end
  end.

(** The loop of [ValidateCCConditions] and of [Compile]. *)
Fixpoint validate_all (cs : list MatchCondition) : result cond_error (list ValidCondition) :=
  match cs with
  | [] => Ok []
  | c :: cs' => let? v := Validate c in let? vs := validate_all cs' in Ok (v :: vs)
  end.

Definition ValidateCCConditions (conds : list MatchCondition) : result cond_error (list ValidCondition) :=
  match conds with
  | [] => Err ErrNoCondition
  | _ => if (20 <? length conds)%nat then Err ErrTooMany else validate_all conds
  end.

Definition CCConditionsNeedResponsePhase (conds : list ValidCondition) : bool :=
  existsb (λ c, CCFieldIsResponsePhase (vField c)) conds.

(** A validated condition, written back. *)
Definition written (v : ValidCondition) : MatchCondition :=
  mkCond (field_name (vField v)) (vKey v) (op_name (vOp v)) (vValue v).

Record well_formed (v : ValidCondition) : Prop := {
  wf_key : if NeedKey (ccFieldSpecs (vField v)) then ValidateCCFieldKey (vKey v) = Ok () ∧ trim_space (vKey v) = vKey v
           else vKey v = [];
  wf_numeric : ccNumericOps (vOp v) = true → Numeric (ccFieldSpecs (vField v)) = true;
  wf_arity : if ccOpArity (vOp v) =? -1 then vValue v ≠ []
             else Z.of_nat (length (vValue v)) = ccOpArity (vOp v);
  wf_regex : vOp v = CCOpRegex → (length (default [] (head (vValue v))) ≤ ccRegexMaxLen)%nat;
}.

Lemma field_name_lookup f : lookup_field (trim_space (field_name f)) = Some f.
Proof. by destruct f; vm_compute. Qed.
Lemma op_name_lookup o : lookup_op (trim_space (op_name o)) = Some o.
Proof. by destruct o; vm_compute. Qed.

(** Trimming does nothing to a string of key characters. *)
Lemma key_byte_no_space (encs : list gostr) c s :
  is_key_byte c = true → forallb (λ e, match e with x :: _ => negb (is_key_byte x) | [] => false end) encs = true →
  first_space encs (c :: s) = None.
Proof.
  intros Hc Henc. unfold first_space. destruct (List.find (has_prefix (c :: s)) encs) as [e|] eqn:E; [|done].
  apply find_some in E as [Hin%list_elem_of_In Hp]. rewrite forallb_elem_of in Henc. specialize (Henc e Hin).
  destruct e as [|x e]; [done|]. cbn in Hp. apply andb_true_iff in Hp as [Hx _].
  apply Ascii.eqb_eq in Hx. subst. by rewrite Hc in Henc.
Qed.

Lemma trim_key_left encs fuel s :
  forallb is_key_byte s = true →
  forallb (λ e, match e with x :: _ => negb (is_key_byte x) | [] => false end) encs = true →
  trim_space_left encs fuel s = s.
Proof.
  intros Hs Henc. destruct fuel as [|fuel]; [done|]. cbn [trim_space_left].
  destruct s as [|c s].
  - replace (first_space encs []) with (@None nat); [done|]. unfold first_space.
    destruct (List.find (has_prefix []) encs) as [e|] eqn:E; [|done].
    apply find_some in E as [Hin%list_elem_of_In Hp]. rewrite forallb_elem_of in Henc. specialize (Henc e Hin).
    by destruct e.
  - cbn in Hs. apply andb_true_iff in Hs as [Hc _]. by rewrite key_byte_no_space.
Qed.

Lemma forallb_reverse {A} (f : A → bool) l : forallb f (reverse l) = forallb f l.
Proof.
  apply eq_bool_prop_intro. rewrite !Is_true_true, !forallb_elem_of. by setoid_rewrite elem_of_reverse.
Qed.

Lemma trim_key s : forallb is_key_byte s = true → trim_space s = s.
Proof.
  intros Hs. unfold trim_space. rewrite (trim_key_left space_encodings) by (done || by vm_compute).
  rewrite trim_key_left; [apply reverse_involutive|by rewrite forallb_reverse|by vm_compute].
Qed.

Lemma ValidateCCFieldKey_spec key :
  ValidateCCFieldKey key = Ok () ↔
  trim_space key ≠ [] ∧ (length (trim_space key) ≤ 64)%nat ∧ forallb is_key_byte (trim_space key) = true.
Proof.
  unfold ValidateCCFieldKey, ccFieldKeyMaxLen. case_bool_decide; [naive_solver|].
  destruct (Nat.ltb_spec 64 (length (trim_space key))); [split; [done|lia]|].
  destruct (forallb is_key_byte (trim_space key)); naive_solver.
Qed.

Lemma Validate_wf c v : Validate c = Ok v → well_formed v.
Proof.
  unfold Validate. intros H.
  destruct (lookup_field _) as [f|]; [|done]. destruct (lookup_op _) as [o|]; [|done].
  destruct (if NeedKey (ccFieldSpecs f) then _ else _) as [key|] eqn:Ek; [|done].
  destruct (ccNumericOps o && negb (Numeric (ccFieldSpecs f))) eqn:En; [done|].
  destruct (if ccOpArity o =? 0 then _ else _) as [value|] eqn:Ev; [|done].
  destruct (bool_decide (o = CCOpRegex) && _) eqn:Er; [done|]. injection H as <-.
  split; cbn [vField vKey vOp vValue].
  - destruct (NeedKey (ccFieldSpecs f)); [|congruence].
    destruct (ValidateCCFieldKey (trim_space (Key c))) as [[]|] eqn:Ekv; [|done]. injection Ek as <-.
    split; [done|]. apply trim_space_idem.
  - intros Hn. rewrite Hn in En. by destruct (Numeric (ccFieldSpecs f)).
  - destruct (Z.eqb_spec (ccOpArity o) 0) as [H0|H0].
    + injection Ev as <-. rewrite H0. done.
    + destruct (Z.eqb_spec (ccOpArity o) (-1)); [destruct (Value c); [done|]; by injection Ev as <-|].
      destruct (Z.ltb_spec (Z.of_nat (length (Value c))) (ccOpArity o)); [done|]. injection Ev as <-.
      rewrite length_take. assert (0 ≤ ccOpArity o) by (by destruct o). lia.
  - intros ->. rewrite bool_decide_eq_true_2 in Er by done. cbn [andb] in Er. prop_of_bool. done.
Qed.

(** validation normalises.  What [Validate] accepts is well formed (a legal key
    exactly when the field needs one, numeric operators on numeric fields only, as many
    values as the operator takes, short patterns), and validating it again, as loading
    the rule does, accepts it unchanged. *)
Theorem Validate_normal c v :
  Validate c = Ok v → well_formed v ∧ Validate (written v) = Ok v.
Proof.
  intros H. apply Validate_wf in H as Hwf. split; [done|]. clear H.
  destruct v as [f key o vs]. destruct Hwf as [Hk Hn Ha Hr]. cbn [vField vKey vOp vValue] in *.
  unfold Validate, written. cbn [Field Key Op Value vField vKey vOp vValue].
  rewrite field_name_lookup, op_name_lookup.
  assert (Hkey : (if NeedKey (ccFieldSpecs f)
     then match ValidateCCFieldKey (trim_space key) with Ok _ => Ok (trim_space key) | Err err => Err err end
     else Ok []) = Ok key :> result cond_error gostr).
  { destruct (NeedKey (ccFieldSpecs f)); [|by subst]. destruct Hk as [Hv ->]. by rewrite Hv. }
  rewrite Hkey.
  assert (Hnum : ccNumericOps o && negb (Numeric (ccFieldSpecs f)) = false).
  { destruct (ccNumericOps o); [|done]. by rewrite Hn. }
  rewrite Hnum.
  assert (Hval : (if ccOpArity o =? 0 then Ok []
     else if ccOpArity o =? -1 then match vs with [] => Err ErrNoValue | _ => Ok vs end
     else if Z.of_nat (length vs) <? ccOpArity o then Err (ErrArity (ccOpArity o))
     else Ok (take (Z.to_nat (ccOpArity o)) vs)) = Ok vs :> result cond_error (list gostr)).
  { destruct (Z.eqb_spec (ccOpArity o) (-1)) as [He|He].
    - rewrite He. cbn. by destruct vs.
    - destruct (Z.eqb_spec (ccOpArity o) 0); [destruct vs; [done|cbn in Ha; lia]|].
      rewrite (proj2 (Z.ltb_ge _ _)) by lia. by rewrite <- Ha, Nat2Z.id, firstn_all. }
  destruct vs as [|v0 vs]; rewrite Hval; cbn [head default].
  - by rewrite andb_comm.
  - destruct (decide (o = CCOpRegex)) as [Ho|Ho]; [|by rewrite bool_decide_eq_false_2].
    rewrite (proj2 (Nat.ltb_ge _ _)) by (apply (Hr Ho)). by rewrite andb_false_r.
Qed.

Lemma Validate_normal_witness :
  Validate (written (mkValid CCFieldHeader $"X-Api-Key" CCOpEq [$"a"]))
  = Ok (mkValid CCFieldHeader $"X-Api-Key" CCOpEq [$"a"]).
Proof.
  apply (Validate_normal (mkCond $" header" $" X-Api-Key " $"eq" [$"a"; $"left over"])). vm_compute. reflexivity.
Defined.

End Conditions.

Module Matcher.
Import Conditions.

(** The fields of [model.AntiCCRule] the engine reads.  [MatchConds] is what
    [Conditions()] decodes from [MatchJson] ([None] when the JSON is malformed). *)
Record AntiCCRule := mkRule {
  Id : gostr; RuleName : gostr; RuleCode : gostr; IsEnable : Z;
  MatchMode : gostr; MatchConds : option (list MatchCondition); CountPhase : gostr;
  CountScope : gostr; ExcludeExts : gostr; StatDim : gostr; StatDimField : gostr;
  WindowSec : Z; Threshold : Z; Burst : Z;
  Action : gostr; ActionSeconds : Z; BanScope : gostr; BotExempt : Z
}.

(** The fields of [innerbean.WebLog] the rules read. *)
Record WebLog := mkWebLog {
  SRC_IP : gostr; NetSrcIp : gostr; COUNTRY : gostr; PROVINCE : gostr; CITY : gostr;
  IsBot : Z; RISK_LEVEL : Z; BotVerifyStrong : Z; CONTENT_LENGTH : Z;
  ResHeader : gostr; STATUS_CODE : Z; RES_CONTENT_LENGTH : Z; TimeSpent : Z;
  BodyFields : list gostr; BodyValues : list gostr
}.

Definition maxFieldValueLen : nat := 8192.
Definition regex := gostr → bool.

Record compiledCond := mkCompiled {
  field : ccField; key : gostr; op : ccOp; values : list gostr; lowered : list gostr;
  re : option regex; num : list Z
}.

Record CompiledRule := mkCompiledRule {
  Rule : AntiCCRule; conds : list compiledCond; excludeExts : gset gostr; hasResponseField : bool
}.

Section matcher.
Context `{UnicodeCase} (compile : gostr → option regex).

Definition CCDefaultExcludeExts : list gostr :=
  [$".js"; $".css"; $".jpg"; $".jpeg"; $".png"; $".gif"; $".ico"; $".svg"; $".webp";
   $".woff"; $".woff2"; $".ttf"; $".otf"; $".eot"; $".map"; $".mp4"; $".webm"; $".mp3"; $".bmp"; $".avif"].

Definition is_ext_sep (c : ascii) : bool :=
  Ascii.eqb c "," || Ascii.eqb c (chr 10) || Ascii.eqb c (chr 13) || Ascii.eqb c " " ||
  Ascii.eqb c (chr 9) || Ascii.eqb c ";".

Definition ExcludeExtList (r : AntiCCRule) : list gostr :=
  let raw := trim_space (ExcludeExts r) in
  match raw with
  | [] => CCDefaultExcludeExts
  | _ =>
      let out := omap (λ item,
        let item := to_lower (trim_space item) in
        match item with
        | [] => None
        | _ => Some (if has_prefix item $"." then item else $"." ++ item)
        end) (fields_func is_ext_sep raw) in
      match out with [] => CCDefaultExcludeExts | _ => out end
  end.

(** [rule.Conditions()] *)
Definition rule_conditions (r : AntiCCRule) : result cond_error (list MatchCondition) :=
  if negb (bool_decide (MatchMode r = $"simple")) then Ok []
  else match MatchConds r with Some cs => Ok cs | None => Err ErrField end.

Fixpoint parse_nums (vs : list gostr) : option (list Z) :=
  match vs with
  | [] => Some []
  | v :: vs' =>
      match parse_int (trim_space v), parse_nums vs' with
      | Some n, Some ns => Some (n :: ns)
      | _, _ => None
      end
  end.

Definition compile_cond (c : ValidCondition) : result cond_error compiledCond :=
  let vs := vValue c in
  let low := map to_lower vs in
  let? rx := (match vOp c, vs with
              | CCOpRegex, v :: _ => match compile v with Some r => Ok (Some r) | None => Err ErrRegex end
              | _, _ => Ok None
              end) in
  let? ns := (if ccNumericOps (vOp c)
              then match parse_nums vs with Some ns => Ok ns | None => Err ErrNumber end
              else Ok []) in
  Ok (mkCompiled (vField c) (vKey c) (vOp c) vs low rx ns).

Fixpoint compile_conds (cs : list MatchCondition) : result cond_error (list compiledCond * bool) :=
  match cs with
  | [] => Ok ([], false)
  | c :: cs' =>
      let? v := Validate c in
      let? cc := compile_cond v in
      let? (ccs, resp) := compile_conds cs' in
      Ok (cc :: ccs, CCFieldIsResponsePhase (vField v) || resp)
  end.

Definition Compile (r : AntiCCRule) : result cond_error CompiledRule :=
  let exts := if bool_decide (CountScope r = $"dynamic") then list_to_set (ExcludeExtList r) else ∅ in
  let? cs := rule_conditions r in
  let? (ccs, resp) := compile_conds cs in
  Ok (mkCompiledRule r ccs exts resp).

Definition NeedsResponsePhase (cr : CompiledRule) : bool :=
  hasResponseField cr || bool_decide (CountPhase (Rule cr) = $"response").

Definition nonEmpty (v : gostr) : list gostr := match v with [] => [] | _ => [v] end.

Definition logField (log : option WebLog) (get : WebLog → gostr) : list gostr :=
  match log with None => [] | Some l => nonEmpty (get l) end.

(** The parallel arrays [BodyFields] and [BodyValues]: a value without a name is
    skipped. *)
Definition bodyFieldValues (log : option WebLog) (k : gostr) : list gostr :=
  match log with
  | None => []
  | Some l => omap (λ iv, match BodyFields l !! iv.1 with
                          | Some name => if equal_fold name k then Some iv.2 else None
                          | None => None
                          end) (imap pair (BodyValues l))
  end.

Definition headerFromRaw (raw name : gostr) : gostr :=
  let lowerName := to_lower name in
  let fix go lines :=
    match lines with
    | [] => []
    | line :: lines' =>
        match index_byte line ":" with
        | None | Some O => go lines'
        | Some idx =>
            if bool_decide (to_lower (trim_space (take idx line)) = lowerName)
            then trim_space (trim_right (drop (S idx) line) (chr 13))
            else go lines'
        end
    end in
  match raw with [] => [] | _ => go (split raw (chr 10)) end.

Definition fieldValues (c : compiledCond) (r : request) (log : option WebLog) : list gostr :=
  let of_log (f : WebLog → gostr) := match log with Some l => [f l] | None => [] end in
  match field c with
  | CCFieldURI => [r_path r]
  | CCFieldQueryStr => [r_raw_query r]
  | CCFieldMethod => [r_method r]
  | CCFieldHost => [r_host r]
  | CCFieldExt => [to_lower (path_ext (r_path r))]
  | CCFieldScheme => [if r_tls r then $"https" else $"http"]
  | CCFieldUserAgent => nonEmpty (header_get r $"User-Agent")
  | CCFieldReferer => nonEmpty (header_get r $"Referer")
  | CCFieldHeader => header_values r (key c)
  | CCFieldCookie => match cookie r (key c) with Some v => nonEmpty v | None => [] end
  | CCFieldQueryParam => default [] (r_query r !! key c)
  | CCFieldBodyField => bodyFieldValues log (key c)
  | CCFieldClientIP => logField log SRC_IP
  | CCFieldCountry => logField log COUNTRY
  | CCFieldProvince => logField log PROVINCE
  | CCFieldCity => logField log CITY
  | CCFieldIsBot => of_log (λ l, itoa (IsBot l))
  | CCFieldBodyLength => of_log (λ l, itoa (CONTENT_LENGTH l))
  | CCFieldRespContentType => logField log (λ l, headerFromRaw (ResHeader l) $"Content-Type")
  | CCFieldStatusCode => of_log (λ l, itoa (STATUS_CODE l))
  | CCFieldRespLength => of_log (λ l, itoa (RES_CONTENT_LENGTH l))
  | CCFieldUpstreamCost => of_log (λ l, itoa (TimeSpent l))
  end.

Definition matchOne (c : compiledCond) (v : gostr) : bool :=
  let lv := to_lower v in
  let first (f : gostr → bool) := match lowered c with w :: _ => f w | [] => false end in
  let number (f : Z → bool) := match parse_int (trim_space v) with Some n => f n | None => false end in
  match op c with
  | CCOpEq | CCOpNe => first (λ w, bool_decide (lv = w))
  | CCOpContains | CCOpNotContains => first (contains lv)
  | CCOpPrefix => first (has_prefix lv)
  | CCOpSuffix => first (has_suffix lv)
  | CCOpRegex => match re c with Some r => r v | None => false end
  | CCOpIn | CCOpNotIn => existsb (λ w, bool_decide (lv = w)) (lowered c)
  | CCOpGt => number (λ n, match num c with a :: _ => a <? n | [] => false end)
  | CCOpLt => number (λ n, match num c with a :: _ => n <? a | [] => false end)
  | CCOpBetween => number (λ n, match num c with a :: b :: _ => (a <=? n) && (n <=? b) | _ => false end)
  | CCOpExists | CCOpNotExists => false
  end.

Definition negated (o : ccOp) : bool :=
  match o with CCOpNe | CCOpNotContains | CCOpNotIn => true | _ => false end.

Definition clip (v : gostr) : gostr := if (maxFieldValueLen <? length v)%nat then take maxFieldValueLen v else v.

Fixpoint eval_values (c : compiledCond) (neg : bool) (vs : list gostr) : bool :=
  match vs with
  | [] => neg
  | v :: vs' =>
      let hit := matchOne c (clip v) in
      if neg && hit then false
      else if negb neg && hit then true
      else eval_values c neg vs'
  end.

Definition eval (c : compiledCond) (r : request) (log : option WebLog) : bool :=
  let vs := fieldValues c r log in
  match op c with
  | CCOpExists => (0 <? length vs)%nat
  | CCOpNotExists => (length vs =? 0)%nat
  | o => let neg := negated o in if (length vs =? 0)%nat then neg else eval_values c neg vs
  end.

Definition Matches (cr : CompiledRule) (r : request) (log : option WebLog) : bool :=
  if bool_decide (MatchMode (Rule cr) = $"all") then true
  else if bool_decide (MatchMode (Rule cr) = $"simple") then forallb (λ c, eval c r log) (conds cr)
  else true.

Definition InCountScope (cr : CompiledRule) (r : request) : bool :=
  if bool_decide (CountScope (Rule cr) = $"dynamic")
  then negb (bool_decide (to_lower (path_ext (r_path r)) ∈ excludeExts cr))
  else if bool_decide (CountScope (Rule cr) = $"document") then
    let dest := header_get r $"Sec-Fetch-Dest" in
    if negb (bool_decide (dest = [])) then bool_decide (dest = $"document")
    else contains (header_get r $"Accept") $"text/html"
  else true.

(** *** Dimensions (dimension.go) *)

Definition hostTotalDimValue : gostr := $"__host_total__".

(** The value read from the dimension's field; [None] when it gives nothing. *)
Definition dim_field_value (cr : CompiledRule) (r : request) (log : option WebLog) : option gostr :=
  let fld := StatDimField (Rule cr) in
  let some_trimmed (v : gostr) := match trim_space v with [] => None | t => Some t end in
  let dim := StatDim (Rule cr) in
  if bool_decide (dim = $"header") then some_trimmed (header_get r fld)
  else if bool_decide (dim = $"cookie") || bool_decide (dim = $"session") then
    let name := if bool_decide (fld = []) then $"SESSION" else fld in
    match cookie r name with Some v => some_trimmed v | None => None end
  else if bool_decide (dim = $"query") then some_trimmed (query_get r fld)
  else if bool_decide (dim = $"body") then
    match bodyFieldValues log fld with v :: _ => some_trimmed v | [] => None end
  else None.

Definition DimValue (cr : CompiledRule) (r : request) (log : option WebLog) (clientIP : gostr) : gostr * bool :=
  let dim := StatDim (Rule cr) in
  if bool_decide (dim = $"host_total") then (hostTotalDimValue, false)
  else if bool_decide (dim = $"ip_uri") then (clientIP ++ $"|" ++ r_path r, false)
  else match dim_field_value cr r log with
       | Some v => (v, false)
       | None => if bool_decide (dim = $"ip") then (clientIP, false) else (clientIP, true)
       end.

(** *** What a condition means *)

Definition hit (c : compiledCond) (v : gostr) : bool := matchOne c (clip v).

Lemma eval_values_spec c neg vs :
  eval_values c neg vs = if neg then negb (existsb (hit c) vs) else existsb (hit c) vs.
Proof.
  induction vs as [|v vs IH]; cbn; [by destruct neg|]. fold (hit c v). rewrite IH.
  by destruct neg, (hit c v).
Qed.

Lemma eval_spec c r log :
  op c ≠ CCOpExists → op c ≠ CCOpNotExists →
  eval c r log = if negated (op c) then negb (existsb (hit c) (fieldValues c r log))
                 else existsb (hit c) (fieldValues c r log).
Proof.
  intros H1 H2. unfold eval.
  destruct (op c) eqn:E; try done; (destruct (fieldValues c r log) eqn:Ef; [done|]; cbn [length Nat.eqb];
    by rewrite eval_values_spec).
Qed.

(** The positive operator a negative one negates. *)
Definition positive (o : ccOp) : ccOp :=
  match o with
  | CCOpNe => CCOpEq | CCOpNotContains => CCOpContains | CCOpNotIn => CCOpIn
  | CCOpNotExists => CCOpExists | _ => o
  end.

Definition with_op (c : compiledCond) (o : ccOp) : compiledCond :=
  mkCompiled (field c) (key c) o (values c) (lowered c) (re c) (num c).

(** the meaning of a condition.  A positive condition holds when some value of the
    field (cut to 8192 bytes) satisfies the operator; the four negative operators are
    the exact complements of the positive ones, also when the field is absent. *)
Theorem eval_complement c r log :
  (negated (op c) = false → op c ≠ CCOpExists → op c ≠ CCOpNotExists →
     eval c r log = true ↔ ∃ v, v ∈ fieldValues c r log ∧ matchOne c (clip v) = true) ∧
  (positive (op c) ≠ op c → eval c r log = negb (eval (with_op c (positive (op c))) r log)).
Proof.
  split.
  - intros Hn H1 H2. rewrite eval_spec, Hn by done. by rewrite existsb_elem_of.
  - intros Hp. assert (Hf : ∀ o, fieldValues (with_op c o) r log = fieldValues c r log) by done.
    destruct (decide (op c = CCOpNotExists)) as [He|He].
    { unfold eval. rewrite Hf, He. cbn [positive with_op op]. destruct (length (fieldValues c r log)); done. }
    rewrite !eval_spec by (cbn [with_op op]; destruct (op c); cbn in *; congruence). rewrite Hf.
    assert (Hh : ∀ v, hit (with_op c (positive (op c))) v = hit c v).
    { intros v. unfold hit, matchOne. cbn [with_op op lowered num re]. by destruct (op c). }
    cbn [with_op op].
    replace (existsb (hit (with_op c (positive (op c)))) (fieldValues c r log))
      with (existsb (hit c) (fieldValues c r log)).
    + clear -Hp He. destruct (op c); cbn in *; congruence.
    + clear -Hh. induction (fieldValues c r log) as [|v vs IH]; [done|]. cbn. by rewrite Hh, IH.
Qed.

(** *** Request-phase rules *)

(** Two logs that agree on what is known before the response. *)
Record same_request (l l' : WebLog) : Prop := {
  sr_ip : SRC_IP l = SRC_IP l'; sr_country : COUNTRY l = COUNTRY l';
  sr_province : PROVINCE l = PROVINCE l'; sr_city : CITY l = CITY l';
  sr_bot : IsBot l = IsBot l'; sr_length : CONTENT_LENGTH l = CONTENT_LENGTH l';
  sr_fields : BodyFields l = BodyFields l'; sr_values : BodyValues l = BodyValues l'
}.

Lemma compile_conds_fields cs ccs resp c :
  compile_conds cs = Ok (ccs, resp) → resp = false → c ∈ ccs → CCFieldIsResponsePhase (field c) = false.
Proof.
  revert ccs resp. induction cs as [|m cs IH]; intros ccs resp Hc Hr Hin; cbn in Hc.
  { injection Hc as <- <-. set_solver. }
  destruct (Validate m) as [v|]; [|done]. destruct (compile_cond v) as [cc|] eqn:Ec; [|done].
  destruct (compile_conds cs) as [[ccs' resp']|]; [|done]. injection Hc as <- <-.
  apply orb_false_iff in Hr as [Hv Hr']. apply elem_of_cons in Hin as [->|Hin]; [|by eapply IH].
  unfold compile_cond in Ec. destruct (match vOp v with CCOpRegex => _ | _ => _ end); [|done].
  destruct (if ccNumericOps (vOp v) then _ else _); [|done]. by injection Ec as <-.
Qed.

(** a rule compiled for the request phase never looks at the response: whatever
    the response fields of the log hold, it matches the same requests. *)
Theorem Compile_request_phase rule cr r l l' :
  Compile rule = Ok cr → NeedsResponsePhase cr = false → same_request l l' →
  Matches cr r (Some l) = Matches cr r (Some l').
Proof.
  intros Hc Hn Hs. unfold NeedsResponsePhase in Hn. apply orb_false_iff in Hn as [Hresp _].
  unfold Compile in Hc. destruct (rule_conditions rule) as [cs|]; [|done].
  destruct (compile_conds cs) as [[ccs resp]|] eqn:E; [|done]. injection Hc as <-.
  cbn in Hresp. unfold Matches. cbn [Rule conds]. case_bool_decide; [done|]. case_bool_decide; [|done].
  apply forallb_ext_elem. intros c Hin. pose proof (compile_conds_fields _ _ _ c E Hresp Hin) as Hf.
  assert (Hv : fieldValues c r (Some l) = fieldValues c r (Some l')).
  { destruct l, l', Hs; cbn in *; subst. unfold fieldValues. by destruct (field c). }
  unfold eval. by rewrite Hv.
Qed.

(** no shared bucket for absent fields.  The counting value of a request is never
    empty when the client address is not: a request without the dimension's field is
    counted under its own address. *)
Theorem DimValue_never_empty cr r log clientIP :
  clientIP ≠ [] →
  (DimValue cr r log clientIP).1 ≠ [] ∧
  ((DimValue cr r log clientIP).2 = true → (DimValue cr r log clientIP).1 = clientIP).
Proof.
  intros Hip. unfold DimValue. case_bool_decide; [done|]. case_bool_decide.
  { split; [|done]. cbn. by destruct clientIP. }
  assert (Hv : ∀ v, dim_field_value cr r log = Some v → v ≠ []).
  { intros v. unfold dim_field_value.
    repeat case_match; try done; by intros [= <-]. }
  destruct (dim_field_value cr r log) as [v|]; [split; [by apply Hv|done]|]. by case_bool_decide.
Qed.

End matcher.

Section witnesses.
Local Instance no_unicode : UnicodeCase := {| unicode_to_lower s := s |}.

Definition demo_rule : AntiCCRule :=
  mkRule $"1" $"login" $"CC-1" 1 $"simple"
    (Some [mkCond $"uri" [] $"prefix" [$"/login"]; mkCond $"header" $"X-Token" $"ne" [$"secret"]])
    $"request" $"all" [] $"header" $"X-Client" 60 100 0 $"deny" 300 $"host" 1.

Definition demo_request : request :=
  mkRequest $"/login/x.php" [] $"GET" $"example.com" true {[$"X-Token" := [$"SECRET"]]} [] ∅.

Definition demo_log (status : Z) : WebLog :=
  mkWebLog $"1.2.3.4" $"1.2.3.4" [] [] [] 0 0 0 0 [] status 0 0 [] [].

Lemma eval_complement_witness :
  let c := mkCompiled CCFieldHeader $"X-Token" CCOpNe [$"secret"] [$"secret"] None [] in
  eval c demo_request None = negb (eval (with_op c CCOpEq) demo_request None).
Proof. intros c. apply (eval_complement c demo_request None). discriminate. Defined.

Lemma Compile_request_phase_witness :
  match Compile (λ _, None) demo_rule with
  | Ok cr => Matches cr demo_request (Some (demo_log 200)) = Matches cr demo_request (Some (demo_log 404))
  | Err _ => False
  end.
Proof.
  destruct (Compile (λ _, None) demo_rule) as [cr|] eqn:E; [|vm_compute in E; discriminate E].
  apply (Compile_request_phase (λ _, None) demo_rule cr demo_request (demo_log 200) (demo_log 404) E).
  - vm_compute in E. injection E as <-. reflexivity.
  - split; reflexivity.
Defined.

Lemma DimValue_never_empty_witness :
  match Compile (λ _, None) demo_rule with
  | Ok cr => (DimValue cr demo_request None $"1.2.3.4").1 ≠ []
  | Err _ => False
  end.
Proof.
  destruct (Compile (λ _, None) demo_rule) as [cr|] eqn:E; [|vm_compute in E; discriminate E].
  apply (DimValue_never_empty cr demo_request None $"1.2.3.4"). discriminate.
Defined.
End witnesses.
End Matcher.

Module BanKey.

Definition CACHE_CCVISITBAN_PRE : gostr := $"CACHE_CCVISITBAN_PRE_".
Definition CCBanScopeGlobal : gostr := $"global".
Definition CCBanScopeHost : gostr := $"host".

Definition BuildCCBanKey (scope hostCode ip : gostr) : gostr :=
  let '(scope, hostCode) := if bool_decide (scope = CCBanScopeHost) then (scope, hostCode)
                            else (CCBanScopeGlobal, []) in
  CACHE_CCVISITBAN_PRE ++ scope ++ $"|" ++ hostCode ++ $"|" ++ ip.

(** [ParseCCBanKey]: scope, site code, client and the success flag. *)
Definition ParseCCBanKey (key : gostr) : gostr * gostr * gostr * bool :=
  if negb (has_prefix key CACHE_CCVISITBAN_PRE) then ([], [], [], false)
  else
    let rest := trim_prefix key CACHE_CCVISITBAN_PRE in
    match cut_at rest "|" with
    | None => (CCBanScopeGlobal, [], rest, negb (bool_decide (rest = [])))
    | Some (p0, rest1) =>
        match cut_at rest1 "|" with
        | None => (CCBanScopeGlobal, [], rest, negb (bool_decide (rest = [])))
        | Some (p1, p2) =>
            (if bool_decide (p0 = CCBanScopeHost) then p0 else CCBanScopeGlobal, p1, p2, negb (bool_decide (p2 = [])))
        end
    end.

Definition CCBanLookupKeys (hostCode ip : gostr) : list gostr :=
  [BuildCCBanKey CCBanScopeGlobal [] ip; BuildCCBanKey CCBanScopeHost hostCode ip].

Definition LegacyCCBanKey (ip : gostr) : gostr := CACHE_CCVISITBAN_PRE ++ ip.

Lemma cut_at_app s r c : c ∉ s → cut_at (s ++ c :: r) c = Some (s, r).
Proof.
  intros Hc. unfold cut_at. rewrite index_byte_first by done. rewrite take_app_length.
  f_equal. f_equal. change (drop (S (length s)) (s ++ c :: r)) with (drop (1 + length s) (s ++ c :: r)).
  rewrite Nat.add_comm, <- drop_drop, drop_app_length. done.
Qed.

(** The two vertical bars a key is cut at. *)
Lemma parse_key sc hc ip :
  "|"%char ∉ sc → "|"%char ∉ hc → ip ≠ [] →
  ParseCCBanKey (CACHE_CCVISITBAN_PRE ++ sc ++ $"|" ++ hc ++ $"|" ++ ip)
  = (if bool_decide (sc = CCBanScopeHost) then sc else CCBanScopeGlobal, hc, ip, true).
Proof.
  intros Hsc Hhc Hip. unfold ParseCCBanKey, trim_prefix.
  assert (Hp : has_prefix (CACHE_CCVISITBAN_PRE ++ sc ++ $"|" ++ hc ++ $"|" ++ ip) CACHE_CCVISITBAN_PRE = true)
    by (apply has_prefix_split; by eexists).
  rewrite Hp. cbn [negb]. rewrite drop_app_length.
  change ($"|" ++ hc ++ $"|" ++ ip) with ("|"%char :: (hc ++ "|"%char :: ip)).
  rewrite cut_at_app by done. rewrite cut_at_app by done.
  by rewrite (bool_decide_eq_false_2 (ip = [])).
Qed.

Lemma parse_built scope hostCode ip :
  "|"%char ∉ hostCode → ip ≠ [] →
  ParseCCBanKey (BuildCCBanKey scope hostCode ip)
  = if bool_decide (scope = CCBanScopeHost) then (CCBanScopeHost, hostCode, ip, true)
    else (CCBanScopeGlobal, [], ip, true).
Proof.
  intros Hh Hip. unfold BuildCCBanKey. case_bool_decide as Hs.
  - subst scope. rewrite parse_key by (done || vm_compute; set_solver). by rewrite bool_decide_eq_true_2.
  - rewrite parse_key by (done || vm_compute; set_solver). by rewrite bool_decide_eq_false_2.
Qed.

(** ban keys.  A key is read back as the scope, site and client it was built from,
    whatever the client string holds, as long as the site code holds no separator; so
    two bans share a key only when they are the same ban. *)
Theorem ban_key_roundtrip scope hostCode ip scope' hostCode' ip' :
  "|"%char ∉ hostCode → ip ≠ [] → "|"%char ∉ hostCode' → ip' ≠ [] →
  ParseCCBanKey (BuildCCBanKey scope hostCode ip)
  = (if bool_decide (scope = CCBanScopeHost) then (CCBanScopeHost, hostCode, ip, true)
     else (CCBanScopeGlobal, [], ip, true)) ∧
  (BuildCCBanKey scope hostCode ip = BuildCCBanKey scope' hostCode' ip' →
   ip = ip' ∧ (scope = CCBanScopeHost ↔ scope' = CCBanScopeHost) ∧ (scope = CCBanScopeHost → hostCode = hostCode')).
Proof.
  intros Hh Hip Hh' Hip'. split; [by apply parse_built|]. intros E.
  pose proof (parse_built scope hostCode ip Hh Hip) as P1. rewrite E, parse_built in P1 by done.
  repeat case_bool_decide; naive_solver.
Qed.

Lemma ban_key_roundtrip_witness :
  ParseCCBanKey (BuildCCBanKey $"host" $"site-1" $"global||8.8.8.8") = ($"host", $"site-1", $"global||8.8.8.8", true).
Proof.
  rewrite (proj1 (ban_key_roundtrip $"host" $"site-1" $"global||8.8.8.8" $"host" [] $"1"
    ltac:(vm_compute; set_solver) ltac:(discriminate) ltac:(set_solver) ltac:(discriminate))). reflexivity.
Defined.

End BanKey.
