(* ===== verification/RateLimiter.v ===== *)
(** * Rate limiting per client (webplugin/ipratelimiter.go)

    The sliding-window mode is modelled in full.  The token bucket of the average-rate
    mode is golang.org/x/time/rate, which is not part of the repository: the class
    [TokenBucket] gives its operations, and what the code relies on (an idle bucket is a
    full one) is a hypothesis of the theorem about that mode.  Times are nanoseconds. *)
From S2P Require Import Prelude.
From S2P Require Import GoLib.
Local Open Scope Z_scope.
Local Open Scope bool_scope.

Class TokenBucket := {
  bucket : Type;
  Limit : Type;                                    (* rate.Limit *)
  new_bucket : Limit → Z → bucket;                 (* rate.NewLimiter *)
  bucket_allow : bucket → Z → bucket * bool;       (* Limiter.Allow at a time *)
}.

Module RateLimiter.

Inductive LimitMode := RateMode | WindowMode.
#[export] Instance LimitMode_eq_dec : EqDecision LimitMode.
Proof. solve_decision. Defined.

Section limiter.
Context `{TokenBucket}.

Record IPRateLimiter := mkLimiter {
  ips : gmap gostr bucket; r : Limit; b : Z; mode : LimitMode; window : Z;
  requests : gmap gostr (list Z); lastSeen : gmap gostr Z
}.

(** The constructors.  The floating-point quotients [b/r + 1] and [maxRequests/window]
    are arguments. *)
Definition NewIPRateLimiter (rate : Limit) (burst refill : Z) : IPRateLimiter :=
  mkLimiter ∅ rate burst RateMode refill ∅ ∅.
Definition NewWindowIPRateLimiter (rate : Limit) (win maxRequests : Z) : IPRateLimiter :=
  mkLimiter ∅ rate maxRequests WindowMode win ∅ ∅.

Definition with_requests (i : IPRateLimiter) (rq : gmap gostr (list Z)) : IPRateLimiter :=
  mkLimiter (ips i) (r i) (b i) (mode i) (window i) rq (lastSeen i).

Definition AddIP (i : IPRateLimiter) (now : Z) (ip : gostr) : IPRateLimiter * bucket :=
  let l := new_bucket (r i) (b i) in
  (mkLimiter (<[ip := l]> (ips i)) (r i) (b i) (mode i) (window i)
     (<[ip := []]> (requests i)) (<[ip := now]> (lastSeen i)), l).

Definition GetLimiter (i : IPRateLimiter) (now : Z) (ip : gostr) : IPRateLimiter * bucket :=
  match ips i !! ip with
  | None => AddIP i now ip
  | Some l => (mkLimiter (ips i) (r i) (b i) (mode i) (window i) (requests i) (<[ip := now]> (lastSeen i)), l)
  end.

(** [windowStart] *)
Definition window_start (i : IPRateLimiter) (now : Z) : Z := now - window i * second.

Definition after (start : Z) (ts : list Z) : list Z := List.filter (λ t, start <? t) ts.

Definition allowByWindow (i : IPRateLimiter) (now : Z) (ip : gostr) : IPRateLimiter * bool :=
  let valid := after (window_start i now) (default [] (requests i !! ip)) in
  if b i <=? Z.of_nat (length valid)
  then (with_requests i (<[ip := valid]> (requests i)), false)
  else (with_requests i (<[ip := valid ++ [now]]> (requests i)), true).

(** The limiter is a pointer: its new state is put back in the table. *)
Definition Allow (i : IPRateLimiter) (now : Z) (ip : gostr) : IPRateLimiter * bool :=
  match mode i with
  | RateMode =>
      let '(i, l) := GetLimiter i now ip in
      let '(l, ok) := bucket_allow l now in
      (mkLimiter (<[ip := l]> (ips i)) (r i) (b i) (mode i) (window i) (requests i) (lastSeen i), ok)
  | WindowMode => allowByWindow i now ip
  end.

Definition idleTTL (i : IPRateLimiter) : Z := if window i * second <=? 0 then 60 * second else window i * second.

Definition CleanupOldRecords (i : IPRateLimiter) (now : Z) : IPRateLimiter :=
  match mode i with
  | RateMode =>
      let idle ip := match lastSeen i !! ip with Some seen => idleTTL i <=? now - seen | None => false end in
      mkLimiter (filter (λ kv, idle kv.1 = false) (ips i)) (r i) (b i) (mode i) (window i)
        (filter (λ kv, idle kv.1 = false) (requests i)) (filter (λ kv, idle kv.1 = false) (lastSeen i))
  | WindowMode =>
      let valid := after (window_start i now) <$> requests i in
      let empty ip := match valid !! ip with Some [] => true | _ => false end in
      mkLimiter (filter (λ kv, empty kv.1 = false) (ips i)) (r i) (b i) (mode i) (window i)
        (filter (λ kv, empty kv.1 = false) valid) (filter (λ kv, empty kv.1 = false) (lastSeen i))
  end.

Definition ClearWindowForIP (i : IPRateLimiter) (ip : gostr) : IPRateLimiter :=
  mkLimiter
    (match ips i !! ip with Some _ => <[ip := new_bucket (r i) (b i)]> (ips i) | None => ips i end)
    (r i) (b i) (mode i) (window i)
    (match requests i !! ip with Some _ => <[ip := []]> (requests i) | None => requests i end)
    (lastSeen i).

Definition GetRequestCount (i : IPRateLimiter) (now : Z) (ip : gostr) : Z :=
  match requests i !! ip with
  | None => 0
  | Some ts => Z.of_nat (count_if (λ t, window_start i now <=? t) ts)
  end.

Definition RatePerSecond (i : IPRateLimiter) : Limit := r i.
Definition Burst (i : IPRateLimiter) : Z := b i.
Definition WindowSeconds (i : IPRateLimiter) : Z := window i.
Definition IsWindowMode (i : IPRateLimiter) : bool := bool_decide (mode i = WindowMode).
Definition TrackedIPCount (i : IPRateLimiter) : Z :=
  Z.of_nat (match mode i with WindowMode => size (requests i) | RateMode => size (ips i) end).

(** ** Sliding window: what the limiter promises

    The history of a client is the times of its allowed requests since it was last
    cleared; the specification counts in it. *)
Inductive op := OAllow (ip : gostr) | OCleanup | OClear (ip : gostr).

Abbreviation history := (gmap gostr (list Z)).
Definition past (h : history) (ip : gostr) : list Z := default [] (h !! ip).

Definition apply (i : IPRateLimiter) (now : Z) (o : op) : IPRateLimiter * bool :=
  match o with
  | OAllow ip => Allow i now ip
  | OCleanup => (CleanupOldRecords i now, true)
  | OClear ip => (ClearWindowForIP i ip, true)
  end.

Definition record (h : history) (now : Z) (o : op) (answer : bool) : history :=
  match o with
  | OAllow ip => if answer then <[ip := past h ip ++ [now]]> h else h
  | OCleanup => h
  | OClear ip => <[ip := []]> h
  end.

(** Runs of a window limiter, the clock never going back. *)
Inductive run (rate : Limit) (win maxRequests : Z) : IPRateLimiter → history → Z → Prop :=
| run_new t : run rate win maxRequests (NewWindowIPRateLimiter rate win maxRequests) ∅ t
| run_op i h t now o :
    run rate win maxRequests i h t → t ≤ now →
    run rate win maxRequests (apply i now o).1 (record h now o (apply i now o).2) now.

Lemma after_after s s' ts : s ≤ s' → after s' (after s ts) = after s' ts.
Proof.
  intros Hs. unfold after. induction ts as [|t ts IH]; [done|]. cbn.
  destruct (Z.ltb_spec s t); cbn; [by rewrite IH|].
  rewrite (proj2 (Z.ltb_ge s' t)) by lia. done.
Qed.

Lemma after_app s ts us : after s (ts ++ us) = after s ts ++ after s us.
Proof. apply List.filter_app. Qed.

Lemma length_after s ts : length (after s ts) = count_if (λ t, s <? t) ts.
Proof. done. Qed.

(** The table agrees with the history on every window that ends now or later. *)
Record tracked (win maxRequests : Z) (i : IPRateLimiter) (h : history) (now : Z) : Prop := {
  tr_mode : mode i = WindowMode;
  tr_window : window i = win;
  tr_b : b i = maxRequests;
  tr_after : ∀ ip s, now - win * second ≤ s → after s (default [] (requests i !! ip)) = after s (past h ip);
  tr_past : ∀ ip t, t ∈ past h ip → t ≤ now;
}.

Lemma past_insert h ip l ip' : past (<[ip := l]> h) ip' = if bool_decide (ip' = ip) then l else past h ip'.
Proof.
  unfold past. case_bool_decide as E; [subst; by rewrite lookup_insert_eq|by rewrite lookup_insert_ne].
Qed.

Lemma tracked_later win mx i h t now : t ≤ now → tracked win mx i h t → tracked win mx i h now.
Proof.
  intros Ht [Hm Hw Hb Ha Hp]. split; try done.
  - intros ip s Hs. apply Ha. lia.
  - intros ip u Hu. apply Hp in Hu. lia.
Qed.

Lemma allowByWindow_tracked win mx i h now ip :
  tracked win mx i h now →
  (allowByWindow i now ip).2 = (Z.of_nat (count_if (λ t, now - win * second <? t) (past h ip)) <? mx) ∧
  tracked win mx (allowByWindow i now ip).1 (record h now (OAllow ip) (allowByWindow i now ip).2) now.
Proof.
  intros [Hm Hw Hb Ha Hp]. unfold allowByWindow, window_start. rewrite Hw, Hb, (Ha ip) by lia.
  rewrite length_after.
  assert (Hva : ∀ s, now - win * second ≤ s → after s (after (now - win * second) (past h ip)) = after s (past h ip))
    by (intros; by apply after_after).
  destruct (Z.leb_spec mx (Z.of_nat (count_if (λ t, now - win * second <? t) (past h ip)))) as [Hfull|Hroom]; cbn [fst snd].
  - rewrite (proj2 (Z.ltb_ge _ _)) by lia. split; [done|]. split; try done.
    intros ip' s Hs. cbn [with_requests requests]. destruct (decide (ip' = ip)) as [->|Hne].
    + rewrite lookup_insert_eq. cbn [default id]. by apply Hva.
    + rewrite lookup_insert_ne by done. by apply Ha.
  - rewrite (proj2 (Z.ltb_lt _ _)) by lia. split; [done|]. split; try done; cbn [record].
    + intros ip' s Hs. cbn [with_requests requests]. rewrite past_insert.
      destruct (decide (ip' = ip)) as [->|Hne].
      * rewrite lookup_insert_eq, bool_decide_eq_true_2 by done. cbn [default id].
        by rewrite !after_app, Hva.
      * rewrite lookup_insert_ne, bool_decide_eq_false_2 by done. by apply Ha.
    + intros ip' t. rewrite past_insert. case_bool_decide as E; [subst ip'|by apply Hp].
      rewrite elem_of_app, list_elem_of_singleton. intros [?| ->]; [by eapply Hp|lia].
Qed.

Lemma CleanupOldRecords_tracked win mx i h now :
  tracked win mx i h now → tracked win mx (CleanupOldRecords i now) h now.
Proof.
  intros [Hm Hw Hb Ha Hp]. unfold CleanupOldRecords. rewrite Hm. split; try done.
  intros ip s Hs. cbn [requests]. rewrite <- Ha by done. rewrite map_lookup_filter, !lookup_fmap.
  destruct (requests i !! ip) as [ts|] eqn:E; [|done]. cbn -[after].
  rewrite lookup_fmap, E. cbn -[after]. unfold window_start. rewrite Hw.
  pose proof (after_after (now - win * second) s ts Hs) as Haa.
  destruct (after (now - win * second) ts) eqn:Ea.
  - rewrite option_guard_False by done. by rewrite <- Haa.
  - rewrite option_guard_True by done. cbn [default id]. by rewrite <- Haa.
Qed.

Lemma ClearWindowForIP_tracked win mx i h now ip :
  tracked win mx i h now → tracked win mx (ClearWindowForIP i ip) (<[ip := []]> h) now.
Proof.
  intros [Hm Hw Hb Ha Hp]. split; try done.
  - intros ip' s Hs. cbn [ClearWindowForIP requests]. rewrite past_insert.
    case_bool_decide as E; [subst ip'|rewrite <- Ha by done].
    + destruct (requests i !! ip) eqn:Er; [by rewrite lookup_insert_eq|by rewrite Er].
    + destruct (requests i !! ip); [by rewrite lookup_insert_ne|done].
  - intros ip' t. rewrite past_insert. case_bool_decide; [set_solver|by apply Hp].
Qed.

Lemma limiter_run_tracked rate win mx i h t : run rate win mx i h t → tracked win mx i h t.
Proof.
  induction 1 as [t|i h t now o _ IH Ht].
  - split; try done; set_solver.
  - apply (tracked_later _ _ _ _ _ _ Ht) in IH. destruct o as [ip| |ip]; cbn [apply record fst snd].
    + destruct (tr_mode _ _ _ _ _ IH) as []. unfold Allow. rewrite (tr_mode _ _ _ _ _ IH).
      by apply allowByWindow_tracked.
    + by apply CleanupOldRecords_tracked.
    + by apply ClearWindowForIP_tracked.
Qed.

(** At most [mx] allowed requests in any window. *)
Definition spaced (win mx : Z) (l : list Z) : Prop :=
  ∀ u, Z.of_nat (count_if (λ t, (u <? t) && (t <=? u + win * second)) l) ≤ mx.

Lemma count_if_nil {A} (f : A → bool) : count_if f [] = 0%nat.
Proof. done. Qed.

Lemma spaced_snoc win mx l now :
  0 ≤ win → (∀ t, t ∈ l → t ≤ now) → spaced win mx l →
  Z.of_nat (count_if (λ t, now - win * second <? t) l) < mx → spaced win mx (l ++ [now]).
Proof.
  intros Hwin Hl Hs Hroom u. rewrite count_if_app, count_if_cons, count_if_nil.
  pose proof (Hs u) as Hu. destruct (Z.ltb_spec u now); cbn [andb]; [|lia].
  destruct (Z.leb_spec now (u + win * second)); [|lia].
  pose proof (count_if_le (λ t, (u <? t) && (t <=? u + win * second)) (λ t, now - win * second <? t) l) as Hle.
  enough (Hsub : ∀ t, t ∈ l → (u <? t) && (t <=? u + win * second) = true →
    (now - win * second <? t) = true) by (specialize (Hle Hsub); lia).
  intros t Ht E. prop_of_bool. apply Z.ltb_lt. lia.
Qed.

Lemma run_spaced rate win mx i h t ip : 0 ≤ win → 0 ≤ mx → run rate win mx i h t → spaced win mx (past h ip).
Proof.
  intros Hwin Hmx. induction 1 as [t|i h t now o Hrun IH Ht];
    [intros u; unfold past; rewrite lookup_empty; cbn; lia|].
  apply limiter_run_tracked, (tracked_later _ _ _ _ _ _ Ht) in Hrun as Htr.
  destruct o as [ip'| |ip']; cbn [apply record fst snd]; [|done|].
  - unfold Allow. rewrite (tr_mode _ _ _ _ _ Htr).
    destruct (allowByWindow_tracked win mx i h now ip' Htr) as [-> _].
    destruct (Z.ltb_spec (Z.of_nat (count_if (λ t, now - win * second <? t) (past h ip'))) mx); [|done].
    rewrite past_insert. case_bool_decide; [subst ip'|done].
    apply spaced_snoc; [done|by apply (tr_past _ _ _ _ _ Htr)|done|done].
  - rewrite past_insert. case_bool_decide; [|done]. intros u. cbn. lia.
Qed.

(** C32: the sliding window is exact.  After any run, a request is allowed exactly when
    fewer than [maxRequests] requests of the client were allowed in the window that
    ends now, sweeps included; so no window of that length, wherever it starts, ever
    holds more than [maxRequests] allowed requests of one client. *)
Theorem window_exact rate win mx i h t now ip :
  run rate win mx i h t → 0 ≤ win → 0 ≤ mx → t ≤ now →
  (Allow i now ip).2 = (Z.of_nat (count_if (λ u, now - win * second <? u) (past h ip)) <? mx) ∧
  spaced win mx (past h ip) ∧
  GetRequestCount (Allow i now ip).1 now ip ≤ mx.
Proof.
  intros Hrun Hwin Hmx Ht. pose proof (limiter_run_tracked _ _ _ _ _ _ Hrun) as Htr.
  apply (tracked_later _ _ _ _ _ _ Ht) in Htr. unfold Allow. rewrite (tr_mode _ _ _ _ _ Htr).
  split; [by apply allowByWindow_tracked|]. split; [by eapply run_spaced|].
  unfold allowByWindow, GetRequestCount. rewrite (tr_b _ _ _ _ _ Htr).
  pose proof (count_if_length (λ t, window_start i now <=? t) (after (window_start i now) (default [] (requests i !! ip)))).
  destruct (Z.leb_spec mx (Z.of_nat (length (after (window_start i now) (default [] (requests i !! ip)))))) as [Hf|Hf];
    cbn [fst with_requests requests]; rewrite lookup_insert_eq; unfold window_start in *; cbn [with_requests window].
  - revert Hf. rewrite (tr_window _ _ _ _ _ Htr), (tr_after _ _ _ _ _ Htr) by lia. intros _.
    etrans; [|apply (run_spaced _ _ _ _ _ _ ip Hwin Hmx Hrun (now - win * second))].
    unfold after. rewrite count_if_filter. apply inj_le, count_if_le. intros u Hu E. prop_of_bool.
    apply andb_true_iff. split; [by apply Z.ltb_lt|]. apply Z.leb_le.
    pose proof (tr_past _ _ _ _ _ Htr ip u Hu). lia.
  - rewrite count_if_app, count_if_cons. rewrite count_if_nil.
    destruct (_ <=? now); lia.
Qed.

(** ** Average rate: what the sweep may remove

    The answers a bucket gives to a sequence of requests. *)
Fixpoint answers (l : bucket) (ts : list Z) : list bool :=
  match ts with
  | [] => []
  | t :: ts' => let '(l, ok) := bucket_allow l t in ok :: answers l ts'
  end.

(** The bucket after a sequence of requests. *)
Fixpoint used (l : bucket) (ts : list Z) : bucket :=
  match ts with [] => l | t :: ts' => used (bucket_allow l t).1 ts' end.

(** The answers of the limiter to requests of one client. *)
Fixpoint allows (i : IPRateLimiter) (ip : gostr) (ts : list Z) : list bool :=
  match ts with
  | [] => []
  | t :: ts' => (Allow i t ip).2 :: allows (Allow i t ip).1 ip ts'
  end.

(** What the sweep relies on: a bucket that was not used for the refill time answers
    like a new one. *)
Definition refills (rate : Limit) (burst refill : Z) : Prop :=
  ∀ us u ts, Sorted Z.le (us ++ u :: ts) →
    (∀ t, head ts = Some t → refill <= t - u) →
    answers (used (new_bucket rate burst) (us ++ [u])) ts = answers (new_bucket rate burst) ts.

(** Every bucket in the table is a new one after some requests, the last of them at the
    time recorded for the client. *)
Definition buckets_ok (i : IPRateLimiter) (now : Z) : Prop :=
  ∀ ip l, ips i !! ip = Some l →
    ∃ us u, Sorted Z.le (us ++ [u]) ∧ l = used (new_bucket (r i) (b i)) (us ++ [u]) ∧
      lastSeen i !! ip = Some u ∧ u ≤ now.

Lemma used_app l us vs : used l (us ++ vs) = used (used l us) vs.
Proof. revert l. induction us as [|u us IH]; intros l; [done|]. apply IH. Qed.

Lemma sorted_snoc us u v : Sorted Z.le (us ++ [u]) → u ≤ v → Sorted Z.le ((us ++ [u]) ++ [v]).
Proof.
  intros Hs Hv. apply Sorted_StronglySorted in Hs; [|intros ?? ?; lia].
  apply StronglySorted_Sorted. apply StronglySorted_app. split; [|split; [done|repeat constructor]].
  intros x y Hx ->%list_elem_of_singleton. apply elem_of_app in Hx as [Hx| ->%list_elem_of_singleton]; [|done].
  apply StronglySorted_app in Hs as (Hc & _). specialize (Hc x u Hx ltac:(set_solver)). cbn in *. lia.
Qed.

Lemma buckets_ok_later i t now : buckets_ok i t → t ≤ now → buckets_ok i now.
Proof.
  intros Hok Ht ip l Hl. destruct (Hok ip l Hl) as (us & u & ? & ? & ? & ?).
  exists us, u. repeat (split; [done|]). lia.
Qed.

Lemma Allow_buckets_ok i t now ip : mode i = RateMode → buckets_ok i t → t ≤ now → buckets_ok (Allow i now ip).1 now.
Proof.
  intros Hm Hok Ht ip' l. unfold Allow, GetLimiter, AddIP. rewrite Hm.
  destruct (ips i !! ip) as [l0|] eqn:E; cbn [fst snd];
    (destruct (bucket_allow _ now) as [l1 ok] eqn:Ea); cbn [fst ips r b lastSeen];
    (destruct (decide (ip' = ip)) as [->|Hne];
     [rewrite !lookup_insert_eq; intros [= <-]|rewrite !lookup_insert_ne by done]).
  - destruct (Hok ip l0 E) as (us & u & Hs & -> & _ & Hu). exists (us ++ [u]), now.
    split; [apply sorted_snoc; [done|lia]|]. rewrite used_app. cbn [used]. by rewrite Ea.
  - intros Hl. destruct (Hok ip' l Hl) as (us & u & ? & ? & ? & ?). exists us, u. repeat (split; [done|]). lia.
  - exists [], now. split; [repeat constructor|]. cbn [app used]. by rewrite Ea.
  - intros Hl. destruct (Hok ip' l Hl) as (us & u & ? & ? & ? & ?). exists us, u. repeat (split; [done|]). lia.
Qed.

(** The limiter answers a client as its bucket does, or as a new one. *)
Lemma allows_bucket i ip ts :
  mode i = RateMode →
  allows i ip ts = answers (default (new_bucket (r i) (b i)) (ips i !! ip)) ts.
Proof.
  revert i. induction ts as [|t ts IH]; intros i Hm; [done|]. cbn [allows answers].
  rewrite IH by (unfold Allow, GetLimiter, AddIP; rewrite Hm;
    destruct (ips i !! ip); cbn; by destruct (bucket_allow _ t)).
  unfold Allow, GetLimiter, AddIP. rewrite Hm.
  destruct (ips i !! ip) as [l|]; cbn [default id]; destruct (bucket_allow _ t) as [l1 ok] eqn:Ea;
    cbn [fst snd ips r b]; by rewrite lookup_insert_eq.
Qed.

(** the sweep of the average-rate mode takes nothing from anyone.  Whatever the
    sweep removes, every later request of every client gets the answer it would have
    got without the sweep: an attacker cannot use it to refill a bucket. *)
Theorem Cleanup_transparent i now ip ts :
  mode i = RateMode → buckets_ok i now → refills (r i) (b i) (idleTTL i) →
  Sorted Z.le (now :: ts) →
  allows (CleanupOldRecords i now) ip ts = allows i ip ts.
Proof.
  intros Hm Hok Hre Hts. rewrite !allows_bucket by (unfold CleanupOldRecords; by rewrite Hm).
  unfold CleanupOldRecords. rewrite Hm. cbn [ips r b]. rewrite map_lookup_filter.
  destruct (ips i !! ip) as [l|] eqn:E; cbn [option_bind mbind option_fmap]; [|done].
  destruct (Hok ip l E) as (us & u & Hs & -> & Hseen & Hu). cbn. rewrite Hseen.
  destruct (Z.leb_spec (idleTTL i) (now - u)) as [Hidle|]; [|by rewrite option_guard_True].
  rewrite option_guard_False by done. cbn. symmetry. apply Hre.
  - destruct ts as [|t ts]; [done|].
    apply Sorted_StronglySorted in Hs; [|intros ?? ?; lia]. apply Sorted_StronglySorted in Hts; [|intros ?? ?; lia].
    apply StronglySorted_Sorted. change (us ++ u :: t :: ts) with (us ++ [u] ++ (t :: ts)). rewrite app_assoc.
    inversion Hts as [|? ? Hts' Hall]; subst. rewrite Forall_forall in Hall.
    apply StronglySorted_app. split; [|done]. intros x y Hx Hy. specialize (Hall y Hy).
    apply StronglySorted_app in Hs as (Hc & _). apply elem_of_app in Hx as [Hx| ->%list_elem_of_singleton]; [|lia].
    specialize (Hc x u Hx ltac:(set_solver)). lia.
  - intros t Hh. destruct ts as [|t' ts]; [done|]. injection Hh as ->.
    inversion Hts as [|? ? _ Hhd]; subst. inversion Hhd; subst. lia.
Qed.

End limiter.

(** ** A token bucket, for the witnesses

    [rate] is the time one token takes; the bucket holds the time saved up. *)
Section witnesses.

Record demo_bucket := mkBucket { full : Z; per : Z; saved : Z; last : Z }.

Definition demo_allow (l : demo_bucket) (now : Z) : demo_bucket * bool :=
  let s := Z.min (full l) (saved l + Z.max 0 (now - last l)) in
  if per l <=? s then (mkBucket (full l) (per l) (s - per l) now, true)
  else (mkBucket (full l) (per l) s now, false).

#[local] Instance demo_tokens : TokenBucket :=
  {| bucket := demo_bucket; Limit := Z; bucket_allow := demo_allow;
     new_bucket := λ rate burst, mkBucket (burst * rate) rate (burst * rate) 0 |}.

Lemma demo_used us u l :
  0 <= per l → 0 <= saved l → per l <= full l →
  ∃ s, used l (us ++ [u]) = mkBucket (full l) (per l) s u ∧ 0 <= s.
Proof.
  assert (Hstep : ∀ l t, 0 <= per l → 0 <= saved l → per l <= full l →
            ∃ s, (demo_allow l t).1 = mkBucket (full l) (per l) s t ∧ 0 <= s).
  { intros l0 t H1 H2 H3. unfold demo_allow. destruct (Z.leb_spec (per l0)
      (Z.min (full l0) (saved l0 + Z.max 0 (t - last l0)))); eexists; (split; [done|lia]). }
  revert l. induction us as [|v us IH]; intros l H1 H2 H3; cbn [app used]; unfold bucket_allow, demo_tokens; cbn [bucket_allow].
  - by apply Hstep.
  - destruct (Hstep l v H1 H2 H3) as (s & E & Hs).
    change (@fst bucket bool) with (@fst demo_bucket bool). rewrite E. by apply (IH (mkBucket (full l) (per l) s v)).
Qed.

Lemma demo_refills rate burst refill :
  0 <= rate → 1 <= burst → burst * rate <= refill → refills rate burst refill.
Proof.
  intros Hr Hb Hf us u ts _ Hh. cbn [new_bucket demo_tokens].
  destruct (demo_used us u (mkBucket (burst * rate) rate (burst * rate) 0)) as (s & -> & Hs); cbn; try nia.
  destruct ts as [|t ts]; [done|]. specialize (Hh t eq_refl). cbn [answers bucket_allow demo_tokens].
  unfold demo_allow. cbn [full per saved last].
  rewrite (Z.min_l (burst * rate) (s + _)) by lia. rewrite (Z.min_l (burst * rate) (burst * rate + _)) by lia. done.
Qed.

Definition demo_window : IPRateLimiter :=
  (Allow (Allow (NewWindowIPRateLimiter 1 10 2) 0 $"a").1 (3 * second) $"a").1.

Lemma window_exact_witness :
  (Allow demo_window (9 * second) $"a").2 = false ∧ (Allow demo_window (10 * second) $"a").2 = true.
Proof.
  assert (Hrun : run 1 10 2 demo_window {[ $"a" := [0; 3 * second] ]} (3 * second)).
  { pose proof (run_op (1 : @Limit demo_tokens) 10 2 _ _ _ (3 * second) (OAllow $"a")
      (run_op (1 : @Limit demo_tokens) 10 2 _ _ _ 0 (OAllow $"a") (run_new (1 : @Limit demo_tokens) 10 2 0) ltac:(by vm_compute)) ltac:(by vm_compute)) as H.
    vm_compute in H. vm_compute. exact H. }
  split.
  - rewrite (proj1 (window_exact (1 : @Limit demo_tokens) 10 2 demo_window _ _ (9 * second) $"a" Hrun ltac:(by vm_compute) ltac:(by vm_compute) ltac:(by vm_compute))).
    vm_compute. reflexivity.
  - rewrite (proj1 (window_exact (1 : @Limit demo_tokens) 10 2 demo_window _ _ (10 * second) $"a" Hrun ltac:(by vm_compute) ltac:(by vm_compute) ltac:(by vm_compute))).
    vm_compute. reflexivity.
Defined.

Definition tenth : @Limit demo_tokens := (second / 10)%Z.
Definition demo_rate : IPRateLimiter := (Allow (NewIPRateLimiter tenth 2 1) 0 $"a").1.

Lemma Cleanup_transparent_witness :
  allows (CleanupOldRecords demo_rate (5 * second)) $"a" [5 * second; 6 * second]
  = allows demo_rate $"a" [5 * second; 6 * second].
Proof.
  apply (Cleanup_transparent demo_rate (5 * second) $"a" [5 * second; 6 * second]).
  - reflexivity.
  - apply (buckets_ok_later _ 0); [|by vm_compute]. apply (Allow_buckets_ok (NewIPRateLimiter tenth 2 1) 0); [reflexivity| |by vm_compute].
    intros ip l Hl. vm_compute in Hl. discriminate Hl.
  - apply (demo_refills tenth 2 second); by vm_compute.
  - repeat constructor; by vm_compute.
Defined.
End witnesses.
End RateLimiter.
