(* ===== verification/CCEngine.v ===== *)
(** * The CC engine (wafenginecore/checkcc.go, checkcc_rules.go, anticc_ban.go,
      cc_emergency.go, check_captcha.go)

    What a request goes through: the ban test, the emergency mode, the rule sets of the
    site and of the global site, the older limiter, and the captcha gate.  The state
    they share is a [world]; a function that touches it is a computation of the monad
    [M].  One request sees one clock value, in nanoseconds.  Durations are assumed to
    fit an int64 (292 years). *)
From S2P Require Import Prelude.
From S2P Require Import GoLib.
From S2P Require Import GoHttp.
From S2P Require Import CCCounter.
From S2P Require Import CCStats.
From S2P Require Import WafCache.
From S2P Require Import CCRule.
From S2P Require Import RateLimiter.
Local Open Scope Z_scope.
Local Open Scope bool_scope.

Module CCEngine.
Import Matcher BanKey.

(** The values the engine keeps in the cache: Go ints and strings. *)
Inductive cval := VInt (n : Z) | VStr (s : gostr).

(** [detection.Result] *)
Record Result := mkRes { JumpGuardResult : bool; IsBlock : bool; Title : gostr; Content : gostr }.
Definition passed : Result := mkRes false false [] [].

(** [GetClientIPByMode] *)
Definition GetClientIPByMode (ipMode netSrcIp srcIP : gostr) : gostr :=
  if bool_decide (ipMode = $"proxy") then srcIP else netSrcIp.

(** The fields of a site ([wafenginmodel.HostSafe], [model.Hosts], [model.AntiCC]) the
    engine reads.  [LimiterRule] is what the rule engine of the older configuration
    answers, when it has one. *)
Record HostSafe := mkHost {
  Code : gostr; IPMode : gostr; LogOnlyMode : Z; GUARD_STATUS : Z;
  EmergencyMode : Z; EmergencyUntil : Z;
  CCRules : list CompiledRule;
  IsEnableRule : bool; LimiterRule : option (WebLog → bool); LockIPMinutes : Z; SkipGlobalCC : bool
}.

Definition IsEmergencyActive (h : HostSafe) (nowUnix : Z) : bool :=
  (EmergencyMode h =? 1) && ((EmergencyUntil h <=? 0) || (nowUnix <? EmergencyUntil h)).

(** A ban notice pushed to the message queue. *)
Record notice := mkNotice { n_ip : gostr; n_duration : Z; n_remaining : Z }.

Section engine.
Context `{UnicodeCase, TokenBucket}.

(** [GCCCounter], [ccstats.Default], [GCACHE_WAFCACHE], the limiters of the sites, the
    message queue, and the log record of the request at hand. *)
Record world := mkWorld {
  counter : CCCounter.Counter; tracker : CCStats.Tracker;
  cache : gmap gostr (WafCache.WafCacheItem cval);
  limiters : gmap gostr RateLimiter.IPRateLimiter;
  messages : list notice;
  weblog : WebLog; RULE : gostr
}.

Definition M (A : Type) : Type := world → world * A.
#[global] Instance M_ret : MRet M := λ A a w, (w, a).
#[global] Instance M_bind : MBind M := λ A B f m w, let '(w', a) := m w in f a w'.

Definition modify (f : world → world) : M unit := λ w, (f w, ()).
Definition gets {A} (f : world → A) : M A := λ w, (w, f w).

Definition with_counter (c : CCCounter.Counter) (w : world) : world :=
  mkWorld c (tracker w) (cache w) (limiters w) (messages w) (weblog w) (RULE w).
Definition with_tracker (t : CCStats.Tracker) (w : world) : world :=
  mkWorld (counter w) t (cache w) (limiters w) (messages w) (weblog w) (RULE w).
Definition with_cache (c : gmap gostr (WafCache.WafCacheItem cval)) (w : world) : world :=
  mkWorld (counter w) (tracker w) c (limiters w) (messages w) (weblog w) (RULE w).
Definition with_limiter (code : gostr) (l : RateLimiter.IPRateLimiter) (w : world) : world :=
  mkWorld (counter w) (tracker w) (cache w) (<[code := l]> (limiters w)) (messages w) (weblog w) (RULE w).
Definition with_RULE (s : gostr) (w : world) : world :=
  mkWorld (counter w) (tracker w) (cache w) (limiters w) (messages w) (weblog w) s.
Definition with_message (n : notice) (w : world) : world :=
  mkWorld (counter w) (tracker w) (cache w) (limiters w) (messages w ++ [n]) (weblog w) (RULE w).
(** [weblogbean.RISK_LEVEL = 1] *)
Definition risky (w : world) : world :=
  let l := weblog w in
  mkWorld (counter w) (tracker w) (cache w) (limiters w) (messages w)
    (mkWebLog (SRC_IP l) (NetSrcIp l) (COUNTRY l) (PROVINCE l) (CITY l) (IsBot l) 1 (BotVerifyStrong l)
       (CONTENT_LENGTH l) (ResHeader l) (STATUS_CODE l) (RES_CONTENT_LENGTH l) (TimeSpent l)
       (BodyFields l) (BodyValues l)) (RULE w).

(** The client a request is counted, banned and challenged as. *)
Definition client_of (h : HostSafe) (l : WebLog) : gostr := GetClientIPByMode (IPMode h) (NetSrcIp l) (SRC_IP l).

Section at_time.
Variable now : Z.

Definition now_unix : Z := Z.quot now second.

Definition cache_get {A} (f : gmap gostr (WafCache.WafCacheItem cval) → gmap gostr (WafCache.WafCacheItem cval) * A) : M A :=
  λ w, let '(c, a) := f (cache w) in (with_cache c w, a).
Definition key_exists (k : gostr) : M bool := cache_get (λ c, WafCache.IsKeyExist c now k).
Definition cache_read (k : gostr) : M (option cval) := cache_get (λ c, WafCache.Get c now k).
Definition set_ttl (k : gostr) (v : cval) (seconds : Z) : M unit :=
  modify (λ w, with_cache (WafCache.SetWithTTl (cache w) now k v (seconds * second)) w).
Definition remove_key (k : gostr) : M unit := modify (λ w, with_cache (WafCache.Remove (cache w) k) w).

(** [GetInt] and [GetString] check the dynamic type. *)
Definition GetInt (k : gostr) : M (option Z) :=
  v ← cache_read k; mret (match v with Some (VInt n) => Some n | _ => None end).
Definition GetString (k : gostr) : M (option gostr) :=
  v ← cache_read k; mret (match v with Some (VStr s) => Some s | _ => None end).

(** ** Captcha marks and passes *)

Definition ccCaptchaDefaultSeconds : Z := 300.
Definition CACHE_CAPTCHA_PASS : gostr := $"CACHE_CAPTCHA_PASS".
Definition REQUIRED_PRE : gostr := $"CACHE_CC_CAPTCHA_REQUIRED_".
Definition SRC_PRE : gostr := $"CACHE_CC_CAPTCHA_SRC_".
Definition GRACE_PRE : gostr := $"CACHE_CC_CAPTCHA_GRACE_".

Definition ccCaptchaRequiredKey (hostCode ip : gostr) : gostr := REQUIRED_PRE ++ hostCode ++ $"|" ++ ip.
Definition ccCaptchaSourceKey (hostCode ip : gostr) : gostr := SRC_PRE ++ hostCode ++ $"|" ++ ip.
Definition ccCaptchaGraceKey (hostCode ip : gostr) : gostr := GRACE_PRE ++ hostCode ++ $"|" ++ ip.

Definition RequireCaptcha (hostCode ip : gostr) (seconds : Z) (source : gostr) : M unit :=
  if bool_decide (ip = []) then mret ()
  else
    let seconds := if seconds <=? 0 then ccCaptchaDefaultSeconds else seconds in
    set_ttl (ccCaptchaRequiredKey hostCode ip) (VInt seconds) seconds;;
    if bool_decide (source = []) then mret ()
    else set_ttl (ccCaptchaSourceKey hostCode ip) (VStr source) seconds.

Definition CaptchaRequireSource (hostCode ip : gostr) : M gostr :=
  if bool_decide (ip = []) then mret []
  else v ← GetString (ccCaptchaSourceKey hostCode ip); mret (default [] v).

Definition isCCCaptchaInGrace (hostCode ip : gostr) : M bool :=
  if bool_decide (ip = []) then mret false else key_exists (ccCaptchaGraceKey hostCode ip).

Definition IsCCCaptchaRequired (hostCode ip : gostr) : M bool :=
  if bool_decide (ip = []) then mret false else key_exists (ccCaptchaRequiredKey hostCode ip).

Definition GrantCCCaptchaGrace (hostCode ip : gostr) : M unit :=
  if bool_decide (ip = []) then mret ()
  else
    v ← GetInt (ccCaptchaRequiredKey hostCode ip);
    let seconds := match v with
                   | Some n => if 0 <? n then n else ccCaptchaDefaultSeconds
                   | None => ccCaptchaDefaultSeconds
                   end in
    remove_key (ccCaptchaRequiredKey hostCode ip);;
    remove_key (ccCaptchaSourceKey hostCode ip);;
    set_ttl (ccCaptchaGraceKey hostCode ip) (VInt 1) seconds.

(** The tokens a request carries: the cookie, then the header, when not empty. *)
Definition pass_tokens (rq : request) : list gostr :=
  nonEmpty (default [] (cookie rq $"samwaf_captcha_token")) ++
  nonEmpty (header_get rq $"X-SamWaf-Captcha-Token").
Definition pass_key (token ip : gostr) : gostr := CACHE_CAPTCHA_PASS ++ token ++ ip.

Fixpoint revoke_tokens (tokens : list gostr) (ip : gostr) : M unit :=
  match tokens with
  | [] => mret ()
  | t :: tokens' => remove_key (pass_key t ip);; revoke_tokens tokens' ip
  end.
Definition revokeCaptchaPass (rq : request) (ip : gostr) : M unit :=
  if bool_decide (ip = []) then mret () else revoke_tokens (pass_tokens rq) ip.

Fixpoint any_pass (tokens : list gostr) (ip : gostr) : M bool :=
  match tokens with
  | [] => mret false
  | t :: tokens' =>
      ok ← key_exists (pass_key t ip);
      if (ok : bool) then mret true else any_pass tokens' ip
  end.
Definition hasCaptchaPass (rq : request) (ip : gostr) : M bool :=
  if bool_decide (ip = []) then mret false else any_pass (pass_tokens rq) ip.

(** The condition both challengers test: a challenge is pending and the request carries
    a valid pass. *)
Definition round_done (rq : request) (hostCode ip : gostr) : M bool :=
  required ← IsCCCaptchaRequired hostCode ip;
  if (required : bool) then hasCaptchaPass rq ip else mret false.

(** The steps the captcha action and the emergency mode have in common: nothing during
    a grace period; a finished round becomes a grace period; otherwise the passes are
    revoked and a challenge is required.  The last three texts go to the log. *)
Definition captcha_round (rq : request) (hostCode ip : gostr) (seconds : Z) (source tGrace tDone tChallenge : gostr) :
    M unit :=
  grace ← isCCCaptchaInGrace hostCode ip;
  if (grace : bool) then modify (with_RULE tGrace)
  else
    done ← round_done rq hostCode ip;
    if (done : bool) then GrantCCCaptchaGrace hostCode ip;; modify (with_RULE tDone)
    else
      modify (with_RULE tChallenge);;
      revokeCaptchaPass rq ip;;
      RequireCaptcha hostCode ip seconds source.

(** ** Bans *)

Definition banCCWithScope (h : HostSafe) (scope hostCode ip : gostr) (seconds : Z) : M unit :=
  if LogOnlyMode h =? 1 then mret ()
  else if (seconds <=? 0) || bool_decide (ip = []) then mret ()
  else set_ttl (BuildCCBanKey scope hostCode ip) (VInt (Z.quot seconds 60)) seconds.

Definition banCC (h : HostSafe) (hostCode ip : gostr) (lockMinutes : Z) : M unit :=
  banCCWithScope h CCBanScopeGlobal hostCode ip (lockMinutes * 60).

Fixpoint first_key (keys : list gostr) : M gostr :=
  match keys with
  | [] => mret []
  | k :: keys' => ok ← key_exists k; if (ok : bool) then mret k else first_key keys'
  end.

Definition matchCCBan (hostCode netSrcIP srcIP ipMode : gostr) : M (gostr * gostr) :=
  let ip := GetClientIPByMode ipMode netSrcIP srcIP in
  if bool_decide (ip = []) then mret ([], [])
  else k ← first_key (CCBanLookupKeys hostCode ip ++ [LegacyCCBanKey ip]); mret (k, ip).

Definition ccBanNotifyThrottle : Z := 300.

(** [notifyCCBanOnce], without the server name and the region of the message. *)
Definition notifyCCBanOnce (hitKey ip : gostr) : M unit :=
  let throttleKey := $"cc_ban_notify_" ++ hitKey in
  sent ← key_exists throttleKey;
  if (sent : bool) then mret ()
  else
    set_ttl throttleKey (VStr $"1") ccBanNotifyThrottle;;
    duration ← GetInt hitKey;
    expire ← cache_get (λ c, WafCache.GetExpireTime c now hitKey);
    let remaining := match expire with
                     | Some e => let r := Z.quot (e - now) second in if 0 <? r then r else 0
                     | None => 0
                     end in
    modify (with_message (mkNotice ip (default (-1) duration) remaining)).

(** ** Rules *)

Definition CCActionObserve : gostr := $"observe".
Definition CCActionCaptcha : gostr := $"captcha".
Definition CCActionBan : gostr := $"ban".
Definition over_quota : gostr := $"您的访问被阻止超量了".

Definition ccBotExempt (cr : CompiledRule) (l : WebLog) : bool :=
  if negb (BotExempt (Rule cr) =? 1) || bool_decide (Action (Rule cr) = CCActionObserve) then false
  else (IsBot l =? 1) && (RISK_LEVEL l =? 0) && (BotVerifyStrong l =? 1).

Definition label (rule : AntiCCRule) : gostr :=
  if bool_decide (RuleCode rule = []) then RuleName rule
  else RuleName rule ++ $"[" ++ RuleCode rule ++ $"]".

Definition applyCCAction (rq : request) (cr : CompiledRule) (h : HostSafe) (clientIP ruleHostCode : gostr) :
    M (Result * bool) :=
  let rule := Rule cr in
  let blocked := mkRes false true ($"触发CC防护规则:" ++ label rule) over_quota in
  if bool_decide (Action rule = CCActionObserve) then
    modify (with_RULE ($"CC观察:" ++ label rule));; mret (passed, false)
  else if bool_decide (Action rule = CCActionCaptcha) then
    modify risky;;
    l ← gets weblog;
    let ip := client_of h l in
    let ip := if bool_decide (ip = []) then clientIP else ip in
    captcha_round rq (Code h) ip (ActionSeconds rule) ($"CC规则 " ++ label rule)
      ($"CC人机验证-免挑战期内放行:" ++ label rule) ($"CC人机验证-本轮已通过:" ++ label rule)
      ($"CC人机验证:" ++ label rule);;
    mret (passed, true)
  else if bool_decide (Action rule = CCActionBan) then
    modify risky;;
    let scope := if bool_decide (BanScope rule = CCBanScopeHost) then CCBanScopeHost else CCBanScopeGlobal in
    banCCWithScope h scope ruleHostCode clientIP (ActionSeconds rule);;
    mret (blocked, true)
  else
    modify risky;; mret (blocked, true).

(** [GCCCounter.Incr], retried under the client's address when the rule's dimension
    has too many values; the dimension finally used comes with the answer. *)
Definition count_once (rule : AntiCCRule) (dim : gostr) : M CCCounter.Result :=
  λ w, let '(c, res) := CCCounter.Incr (counter w) now_unix (Id rule) dim (WindowSec rule) in (with_counter c w, res).

Definition count_rule (rule : AntiCCRule) (dim clientIP : gostr) : M (CCCounter.Result * gostr) :=
  res ← count_once rule dim;
  if CCCounter.Degraded res
  then res ← count_once rule clientIP; mret (res, clientIP)
  else mret (res, dim).

Definition threshold (rule : AntiCCRule) : Z := Threshold rule + Burst rule.

(** The tests before counting. *)
Definition eligible (cr : CompiledRule) (rq : request) (l : WebLog) : bool :=
  (IsEnable (Rule cr) =? 1) && negb (NeedsResponsePhase cr) &&
  (InCountScope cr rq && Matches cr rq (Some l)) && negb (ccBotExempt cr l).

Fixpoint runCCRuleSet (rq : request) (h : HostSafe) (rules : list CompiledRule)
    (clientIP ruleHostCode : gostr) : M (Result * bool) :=
  match rules with
  | [] => mret (passed, false)
  | cr :: rules' =>
      let continue := runCCRuleSet rq h rules' clientIP ruleHostCode in
      l ← gets weblog;
      if negb (eligible cr rq l) then continue
      else
        '(res, dim) ← count_rule (Rule cr) (DimValue cr rq (Some l) clientIP).1 clientIP;
        if CCCounter.Rejected res then continue
        else if (threshold (Rule cr) <=? 0) || (CCCounter.Count res <=? threshold (Rule cr)) then continue
        else
          modify (λ w, with_tracker (CCStats.Record_ (tracker w) now_unix (Id (Rule cr)) (Action (Rule cr)) dim) w);;
          '(hit, stop) ← applyCCAction rq cr h clientIP ruleHostCode;
          if (stop : bool) then mret (hit, true) else continue
  end.

(** The global rules that apply to a site: those of another, guarded, global site. *)
Definition global_rules (h : HostSafe) (g : option HostSafe) : list CompiledRule :=
  match g with
  | Some g => if negb (bool_decide (Code g = Code h)) && (GUARD_STATUS g =? 1) then CCRules g else []
  | None => []
  end.

Definition checkCCByRules (rq : request) (h : HostSafe) (g : option HostSafe) : M (Result * bool) :=
  let rules := CCRules h in
  let globals := global_rules h g in
  if ((length rules =? 0) && (length globals =? 0))%nat then mret (passed, false)
  else
    l ← gets weblog;
    let clientIP := client_of h l in
    '(res, stop) ← runCCRuleSet rq h rules clientIP (Code h);
    if (stop : bool) then mret (res, true)
    else if (length globals =? 0)%nat then mret (passed, true)
    else
      '(res, stop) ← runCCRuleSet rq h globals clientIP (default [] (Code <$> g));
      if (stop : bool) then mret (res, true) else mret (passed, true).

(** ** Emergency mode *)

Definition emergencyGraceSeconds : Z := 1800.

Definition isEmergencyOn (h : HostSafe) (g : option HostSafe) : bool :=
  IsEmergencyActive h now_unix ||
  match g with Some g => IsEmergencyActive g now_unix | None => false end.

Definition applyEmergencyCaptcha (rq : request) (h : HostSafe) : M unit :=
  l ← gets weblog;
  let ip := client_of h l in
  let ip := if bool_decide (ip = []) then SRC_IP l else ip in
  if bool_decide (ip = []) then mret ()
  else
    captcha_round rq (Code h) ip emergencyGraceSeconds $"紧急模式"
      $"CC紧急模式-免挑战期内放行" $"CC紧急模式-本轮已通过" $"CC紧急模式".

(** ** CheckCC *)

(** [PluginIpRateLimiter.Allow] on the limiter of a site. *)
Definition limiter_allow (code : gostr) (l : RateLimiter.IPRateLimiter) (ip : gostr) : M bool :=
  let '(l', ok) := RateLimiter.Allow l now ip in modify (with_limiter code l');; mret ok.

Definition checked_locally (h : HostSafe) (l : WebLog) : bool :=
  if IsEnableRule h then match LimiterRule h with Some rule => rule l | None => false end else true.

Definition limited (title : gostr) : Result := mkRes false true title over_quota.

(** The global part of the older configuration. *)
Definition check_global (h : HostSafe) (g : option HostSafe) (ip : gostr) : M Result :=
  lims ← gets limiters;
  match g with
  | None => mret passed
  | Some g =>
      match lims !! Code g with
      | Some lim =>
          if negb (GUARD_STATUS g =? 1) then mret passed
          else
            ok ← limiter_allow (Code g) lim ip;
            if (ok : bool) then mret passed
            else
              modify risky;; banCC h (Code g) ip (LockIPMinutes g);;
              mret (limited $"【全局】触发IP频次访问限制")
      | None => mret passed
      end
  end.

Definition check_single (h : HostSafe) (g : option HostSafe) : M Result :=
  l ← gets weblog;
  lims ← gets limiters;
  let ip := client_of h l in
  match lims !! Code h with
  | Some lim =>
      if checked_locally h l then
        ok ← limiter_allow (Code h) lim ip;
        if (ok : bool)
        then if SkipGlobalCC h then mret passed else check_global h g ip
        else
          modify risky;; banCC h (Code h) ip (LockIPMinutes h);;
          mret (limited $"【局部】触发IP频次访问限制")
      else check_global h g ip
  | None => check_global h g ip
  end.

Definition CheckCC (rq : request) (h : HostSafe) (g : option HostSafe) : M Result :=
  (if isEmergencyOn h g then applyEmergencyCaptcha rq h else mret ());;
  '(res, handled) ← checkCCByRules rq h g;
  if (handled : bool) then mret res else check_single h g.

(** The hand-over at the captcha gate (wafengine.go): a pending challenge and a valid
    pass become a grace period. *)
Definition captcha_gate (rq : request) (h : HostSafe) : M unit :=
  l ← gets weblog;
  done ← round_done rq (Code h) (client_of h l);
  if (done : bool) then GrantCCCaptchaGrace (Code h) (client_of h l) else mret ().

End at_time.
End engine.
End CCEngine.
