(* ===== verification/CCEngineFacts.v ===== *)
(** * Theorems about the CC engine

    [keeps R m]: the computation [m] takes every world to one related by [R].  With [R]
    a preorder this composes over the monad, and the frame properties of the whole
    engine follow from those of its few writes. *)
From S2P Require Import Prelude.
From S2P Require Import GoLib.
From S2P Require Import GoHttp.
From S2P Require Import CCCounter.
From S2P Require Import CCStats.
From S2P Require Import WafCache.
From S2P Require Import CCRule.
From S2P Require Import RateLimiter.
From S2P Require Import CCEngine.
Local Open Scope Z_scope.
Local Open Scope bool_scope.

Module CCEngineFacts.
Import Conditions Matcher BanKey CCEngine.

(** ** The cache *)
Section cache_facts.
Abbreviation C := (gmap gostr (WafCache.WafCacheItem cval)).

Definition isS {A} (o : option A) : bool := match o with Some _ => true | None => false end.
Definition has (c : C) (now : Z) (k : gostr) : bool := isS (WafCache.view c now k).

(** What a read leaves: the key is dropped when its item has expired. *)
Definition seen (c : C) (now : Z) (k : gostr) : C :=
  match c !! k with
  | Some item => if WafCache.live now item then c else delete k c
  | None => c
  end.

Lemma IsKeyExist_eq c now k : WafCache.IsKeyExist c now k = (seen c now k, has c now k).
Proof.
  unfold WafCache.IsKeyExist, seen, has, WafCache.view.
  destruct (c !! k) as [item|]; [|done]. by destruct (WafCache.live now item).
Qed.

Lemma Get_eq c now k : WafCache.Get c now k = (seen c now k, WafCache.view c now k).
Proof.
  unfold WafCache.Get, seen, WafCache.view.
  destruct (c !! k) as [item|]; [|done]. by destruct (WafCache.live now item).
Qed.

Lemma seen_view c now k t k' : now ≤ t → WafCache.view (seen c now k) t k' = WafCache.view c t k'.
Proof.
  intros Ht. unfold seen. destruct (c !! k) as [item|] eqn:E; [|done].
  destruct (WafCache.live now item) eqn:El; [done|]. by eapply WafCache.view_delete_stale.
Qed.

Lemma seen_has c now k k' : has (seen c now k) now k' = has c now k'.
Proof. unfold has. by rewrite seen_view. Qed.

Lemma seen_ne c now k k' : k' ≠ k → seen c now k !! k' = c !! k'.
Proof.
  intros Hne. unfold seen. destruct (c !! k) as [item|]; [|done].
  destruct (WafCache.live now item); [done|]. by rewrite lookup_delete_ne.
Qed.

Lemma seen_none c now k k' : c !! k' = None → seen c now k !! k' = None.
Proof.
  intros Hk. unfold seen. destruct (c !! k) as [item|]; [|done].
  destruct (WafCache.live now item); [done|]. rewrite lookup_delete_None. by right.
Qed.

Lemma seen_absent c now k : has c now k = false → seen c now k !! k = None.
Proof.
  unfold has, seen, WafCache.view. destruct (c !! k) as [item|] eqn:E; [|done].
  destruct (WafCache.live now item); [done|]. intros _. apply lookup_delete_eq.
Qed.

Lemma seen_present c now k : has c now k = true → seen c now k = c.
Proof.
  unfold has, seen, WafCache.view. destruct (c !! k) as [item|]; [|done].
  by destruct (WafCache.live now item).
Qed.

Lemma set_ne c now k (v : cval) ttl k' : k' ≠ k → WafCache.SetWithTTl c now k v ttl !! k' = c !! k'.
Proof. intros. unfold WafCache.SetWithTTl. by rewrite lookup_insert_ne. Qed.

(** A write on an absent key is read back for its whole time to live. *)
Lemma set_fresh_view c now k (v : cval) ttl t :
  c !! k = None → t ≤ now + ttl → WafCache.view (WafCache.SetWithTTl c now k v ttl) t k = Some v.
Proof.
  intros E Ht. unfold WafCache.SetWithTTl. rewrite E, WafCache.view_put, bool_decide_eq_true_2 by done.
  by rewrite (proj2 (Z.leb_le _ _)) by lia.
Qed.

Lemma set_view_ne c now k (v : cval) ttl t k' :
  k' ≠ k → WafCache.view (WafCache.SetWithTTl c now k v ttl) t k' = WafCache.view c t k'.
Proof. intros. unfold WafCache.view. by rewrite set_ne. Qed.

Lemma remove_eq (c : C) k : WafCache.Remove c k = delete k c.
Proof.
  unfold WafCache.Remove. destruct (c !! k) eqn:E; [done|]. symmetry. by apply delete_id.
Qed.

End cache_facts.

Section facts.
Context `{UnicodeCase, TokenBucket}.
Implicit Types w : world.

(** ** Frames *)

Definition keeps {A} (R : relation world) (m : M A) : Prop := ∀ w, R w (m w).1.

Section keeps.
Context (R : relation world) `{!PreOrder R}.

Lemma keeps_ret {A} (a : A) : keeps R (mret a).
Proof. intros w. cbn. reflexivity. Qed.

Lemma keeps_gets {A} (f : world → A) : keeps R (gets f).
Proof. intros w. cbn. reflexivity. Qed.

Lemma keeps_bind {A B} (m : M A) (f : A → M B) : keeps R m → (∀ a, keeps R (f a)) → keeps R (m ≫= f).
Proof.
  intros Hm Hf w. unfold mbind, M_bind. specialize (Hm w). destruct (m w) as [w' a]; cbn in *.
  by etransitivity; [|apply Hf].
Qed.

Lemma keeps_if {A} (b : bool) (m1 m2 : M A) : keeps R m1 → keeps R m2 → keeps R (if b then m1 else m2).
Proof. by destruct b. Qed.
End keeps.

Lemma keeps_weaken {A} (R R' : relation world) (m : M A) :
  (∀ w w', R w w' → R' w w') → keeps R m → keeps R' m.
Proof. intros HR Hm w. apply HR, Hm. Qed.

(** A relation on caches, as a relation on worlds. *)
Definition on_cache (R : relation (gmap gostr (WafCache.WafCacheItem cval))) : relation world :=
  λ w w', R (cache w) (cache w').
#[export] Instance on_cache_preorder R : PreOrder R → PreOrder (on_cache R).
Proof.
  intros [Hr Ht]. split; [intros w; apply Hr|]. intros w1 w2 w3. apply Ht.
Qed.

(** What the engine does to the cache, key by key: reads may drop expired items, the
    rest are writes and removals of the keys given. *)
Section touching.
Context (R : relation (gmap gostr (WafCache.WafCacheItem cval))) `{!PreOrder R}.
Context (now : Z) (rq : request).

Definition may_read (k : gostr) : Prop := ∀ c, R c (seen c now k).
Definition may_write (k : gostr) : Prop := ∀ c v s, R c (WafCache.SetWithTTl c now k v (s * second)).
Definition may_remove (k : gostr) : Prop := ∀ c, R c (delete k c).

Lemma keeps_key_exists k : may_read k → keeps (on_cache R) (key_exists now k).
Proof.
  intros Hk w. unfold key_exists, cache_get. rewrite IsKeyExist_eq. apply Hk.
Qed.

Lemma keeps_cache_read k : may_read k → keeps (on_cache R) (cache_read now k).
Proof. intros Hk w. unfold cache_read, cache_get. rewrite Get_eq. apply Hk. Qed.

Lemma keeps_set_ttl k v s : may_write k → keeps (on_cache R) (set_ttl now k v s).
Proof. intros Hk w. apply Hk. Qed.

Lemma keeps_remove_key k : may_remove k → keeps (on_cache R) (remove_key k).
Proof. intros Hk w. unfold remove_key, modify, on_cache. cbn. rewrite remove_eq. apply Hk. Qed.

Lemma keeps_GetInt k : may_read k → keeps (on_cache R) (GetInt now k).
Proof. intros Hk. apply keeps_bind; [apply _|by apply keeps_cache_read|]. intros v. apply keeps_ret, _. Qed.

(** A write that leaves the cache alone. *)
Lemma keeps_other (f : world → world) : (∀ w, cache (f w) = cache w) → keeps (on_cache R) (modify f).
Proof. intros Hf w. unfold on_cache, modify. cbn. rewrite Hf. reflexivity. Qed.

Lemma keeps_count_once rule dim : keeps (on_cache R) (count_once now rule dim).
Proof.
  intros w. unfold count_once, on_cache. destruct (CCCounter.Incr _ _ _ _ _). cbn. reflexivity.
Qed.

(** The accesses above are all a frame proof looks at. *)
#[local] Opaque REQUIRED_PRE SRC_PRE GRACE_PRE CACHE_CAPTCHA_PASS key_exists cache_read set_ttl remove_key GetInt.

(** [CheckCC] writes to the cache only in captcha rounds and in bans. *)
Ltac walk leaf :=
  repeat first
    [ progress cbn zeta
    | leaf
    | by apply keeps_other
    | by apply keeps_ret, _
    | by apply keeps_gets, _
    | apply keeps_if
    | apply keeps_bind; [apply _| |intros ?] ].
Section whole.
Context (h : HostSafe).
Hypothesis Hround : ∀ code ip s a b c d, keeps (on_cache R) (captcha_round now rq code ip s a b c d).
Hypothesis Hban : LogOnlyMode h ≠ 1 → ∀ scope code ip, may_write (BuildCCBanKey scope code ip).

Lemma ban_keeps scope code ip s : keeps (on_cache R) (banCCWithScope now h scope code ip s).
Proof.
  unfold banCCWithScope. destruct (Z.eqb_spec (LogOnlyMode h) 1); [by apply keeps_ret, _|].
  apply keeps_if; [by apply keeps_ret, _|]. apply keeps_set_ttl; by eauto.
Qed.

Lemma applyCCAction_keeps cr ip code : keeps (on_cache R) (applyCCAction now rq cr h ip code).
Proof.
  unfold applyCCAction. walk ltac:(idtac; first [apply Hround | apply ban_keeps]).
Qed.

Lemma count_rule_keeps rule dim ip : keeps (on_cache R) (count_rule now rule dim ip).
Proof.
  unfold count_rule. walk ltac:(idtac; apply keeps_count_once).
Qed.

Lemma runCCRuleSet_keeps rules ip code : keeps (on_cache R) (runCCRuleSet now rq h rules ip code).
Proof.
  induction rules as [|cr rules IH]; [by apply keeps_ret, _|]. cbn [runCCRuleSet].
  apply keeps_bind; [apply _|by apply keeps_gets, _|intros l]. apply keeps_if; [done|].
  apply keeps_bind; [apply _|apply count_rule_keeps|intros [res dim]]. apply keeps_if; [done|].
  apply keeps_if; [done|]. apply keeps_bind; [apply _|by apply keeps_other|intros ?].
  apply keeps_bind; [apply _|apply applyCCAction_keeps|intros [hit stop]]. apply keeps_if; [by apply keeps_ret, _|done].
Qed.

Lemma checkCCByRules_keeps g : keeps (on_cache R) (checkCCByRules now rq h g).
Proof.
  unfold checkCCByRules. apply keeps_if; [by apply keeps_ret, _|].
  apply keeps_bind; [apply _|by apply keeps_gets, _|intros l].
  apply keeps_bind; [apply _|apply runCCRuleSet_keeps|intros [res stop]].
  apply keeps_if; [by apply keeps_ret, _|]. apply keeps_if; [by apply keeps_ret, _|].
  apply keeps_bind; [apply _|apply runCCRuleSet_keeps|intros [res' stop']].
  apply keeps_if; by apply keeps_ret, _.
Qed.

Lemma limiter_allow_keeps code l ip : keeps (on_cache R) (limiter_allow now code l ip).
Proof.
  unfold limiter_allow. destruct (RateLimiter.Allow l now ip).
  apply keeps_bind; [apply _|by apply keeps_other|intros ?; by apply keeps_ret, _].
Qed.

Lemma limited_keeps code ip m title :
  keeps (on_cache R) (modify risky;; banCC now h code ip m;; mret (limited title)).
Proof.
  walk ltac:(idtac; apply ban_keeps).
Qed.

Lemma check_global_keeps g ip : keeps (on_cache R) (check_global now h g ip).
Proof.
  unfold check_global. apply keeps_bind; [apply _|by apply keeps_gets, _|intros lims].
  destruct g as [g|]; [|by apply keeps_ret, _]. destruct (lims !! Code g); [|by apply keeps_ret, _].
  apply keeps_if; [by apply keeps_ret, _|]. apply keeps_bind; [apply _|apply limiter_allow_keeps|intros ok].
  apply keeps_if; [by apply keeps_ret, _|apply limited_keeps].
Qed.

Lemma check_single_keeps g : keeps (on_cache R) (check_single now h g).
Proof.
  unfold check_single. do 2 (apply keeps_bind; [apply _|by apply keeps_gets, _|intros ?]).
  destruct (_ !! Code h); [|apply check_global_keeps]. apply keeps_if; [|apply check_global_keeps].
  apply keeps_bind; [apply _|apply limiter_allow_keeps|intros ok]. apply keeps_if; [|apply limited_keeps].
  apply keeps_if; [by apply keeps_ret, _|apply check_global_keeps].
Qed.

Lemma CheckCC_keeps g : keeps (on_cache R) (CheckCC now rq h g).
Proof.
  unfold CheckCC. apply keeps_bind; [apply _| |intros ?].
  - apply keeps_if; [|by apply keeps_ret, _]. unfold applyEmergencyCaptcha.
    apply keeps_bind; [apply _|by apply keeps_gets, _|intros l]. apply keeps_if; [by apply keeps_ret, _|apply Hround].
  - apply keeps_bind; [apply _|apply checkCCByRules_keeps|intros [res handled]].
    apply keeps_if; [by apply keeps_ret, _|apply check_single_keeps].
Qed.
End whole.

(** The captcha functions touch captcha keys only. *)
Section rounds.
Hypothesis Hreq_read : ∀ s, may_read (REQUIRED_PRE ++ s).
Hypothesis Hreq_write : ∀ s, may_write (REQUIRED_PRE ++ s).
Hypothesis Hreq_remove : ∀ s, may_remove (REQUIRED_PRE ++ s).
Hypothesis Hsrc : ∀ s, may_write (SRC_PRE ++ s) ∧ may_remove (SRC_PRE ++ s).
Hypothesis Hgrace : ∀ s, may_read (GRACE_PRE ++ s) ∧ may_write (GRACE_PRE ++ s).
Hypothesis Hpass : ∀ s, may_read (CACHE_CAPTCHA_PASS ++ s) ∧ may_remove (CACHE_CAPTCHA_PASS ++ s).

Ltac access :=
  lazymatch goal with
  | |- keeps _ (set_ttl _ (ccCaptchaRequiredKey _ _) _ _) => apply keeps_set_ttl, Hreq_write
  | |- keeps _ (set_ttl _ (ccCaptchaSourceKey _ _) _ _) => apply keeps_set_ttl, Hsrc
  | |- keeps _ (set_ttl _ (ccCaptchaGraceKey _ _) _ _) => apply keeps_set_ttl, Hgrace
  | |- keeps _ (remove_key (ccCaptchaRequiredKey _ _)) => apply keeps_remove_key, Hreq_remove
  | |- keeps _ (remove_key (ccCaptchaSourceKey _ _)) => apply keeps_remove_key, Hsrc
  | |- keeps _ (remove_key (pass_key _ _)) => apply keeps_remove_key, Hpass
  | |- keeps _ (key_exists _ (ccCaptchaRequiredKey _ _)) => apply keeps_key_exists, Hreq_read
  | |- keeps _ (key_exists _ (ccCaptchaGraceKey _ _)) => apply keeps_key_exists, Hgrace
  | |- keeps _ (key_exists _ (pass_key _ _)) => apply keeps_key_exists, Hpass
  | |- keeps _ (GetInt _ (ccCaptchaRequiredKey _ _)) => apply keeps_GetInt, Hreq_read
  end.

Lemma revoke_keeps ip : keeps (on_cache R) (revokeCaptchaPass rq ip).
Proof.
  unfold revokeCaptchaPass. walk ltac:(fail). induction (pass_tokens rq) as [|tok toks IH]; cbn [revoke_tokens];
    walk ltac:(idtac; first [exact IH | access]).
Qed.

Lemma hasCaptchaPass_keeps ip : keeps (on_cache R) (hasCaptchaPass now rq ip).
Proof.
  unfold hasCaptchaPass. walk ltac:(fail). induction (pass_tokens rq) as [|tok toks IH]; cbn [any_pass];
    walk ltac:(idtac; first [exact IH | access]).
Qed.

Lemma round_done_keeps code ip : keeps (on_cache R) (round_done now rq code ip).
Proof.
  unfold round_done, IsCCCaptchaRequired.
  walk ltac:(idtac; first [apply hasCaptchaPass_keeps | access]).
Qed.

Lemma GrantCCCaptchaGrace_keeps code ip : keeps (on_cache R) (GrantCCCaptchaGrace now code ip).
Proof.
  unfold GrantCCCaptchaGrace.
  walk ltac:(idtac; access).
Qed.

Lemma RequireCaptcha_keeps code ip s src : keeps (on_cache R) (RequireCaptcha now code ip s src).
Proof.
  unfold RequireCaptcha. walk ltac:(idtac; access).
Qed.

Lemma captcha_round_keeps code ip s a b c d : keeps (on_cache R) (captcha_round now rq code ip s a b c d).
Proof.
  unfold captcha_round, isCCCaptchaInGrace.
  walk ltac:(idtac; first [access | apply round_done_keeps | apply GrantCCCaptchaGrace_keeps
                   | apply revoke_keeps | apply RequireCaptcha_keeps]).
Qed.
End rounds.
#[local] Transparent REQUIRED_PRE SRC_PRE GRACE_PRE CACHE_CAPTCHA_PASS key_exists cache_read set_ttl remove_key GetInt.

End touching.

(** ** Log-only sites *)

(** The entries under the ban prefix are the same. *)
Definition same_bans (c c' : gmap gostr (WafCache.WafCacheItem cval)) : Prop :=
  ∀ k, has_prefix k CACHE_CCVISITBAN_PRE = true → c' !! k = c !! k.
#[local] Instance same_bans_preorder : PreOrder same_bans.
Proof. split; [done|]. intros c1 c2 c3 H1 H2 k Hk. by rewrite H2, H1. Qed.

(** A key of another family is not a ban key. *)
Lemma same_bans_other now k :
  has_prefix k CACHE_CCVISITBAN_PRE = false →
  may_read same_bans now k ∧ may_write same_bans now k ∧ may_remove same_bans k.
Proof.
  intros Hk. assert (Hne : ∀ k', has_prefix k' CACHE_CCVISITBAN_PRE = true → k' ≠ k) by congruence.
  split; [|split].
  - intros c k' Hk'%Hne. by rewrite seen_ne.
  - intros c v s k' Hk'%Hne. by rewrite set_ne.
  - intros c k' Hk'%Hne. by rewrite lookup_delete_ne.
Qed.

(** a log-only site bans nobody.  Whatever its rules, the global rules, the older
    limiters and the emergency mode decide, a request to a site in log-only mode leaves
    every CC ban exactly as it was. *)
Theorem log_only_never_bans now rq h g w k :
  LogOnlyMode h = 1 → has_prefix k CACHE_CCVISITBAN_PRE = true →
  cache (CheckCC now rq h g w).1 !! k = cache w !! k.
Proof.
  intros Hlog Hk.
  refine (CheckCC_keeps same_bans now rq h _ _ g w k Hk); [|done]. intros code ip s a b c d.
  apply (captcha_round_keeps same_bans); intros s0;
    pose proof (λ P, same_bans_other now (P ++ s0)) as Hother.
  - by apply (Hother REQUIRED_PRE).
  - by apply (Hother REQUIRED_PRE).
  - by apply (Hother REQUIRED_PRE).
  - split; by apply (Hother SRC_PRE).
  - split; by apply (Hother GRACE_PRE).
  - split; by apply (Hother CACHE_CAPTCHA_PASS).
Qed.

(** ** Challenge and grace exclude each other *)

(** Before and after a computation. *)
Definition triple {A} (P : world → Prop) (m : M A) (Q : A → world → Prop) : Prop :=
  ∀ w, P w → Q (m w).2 (m w).1.

Lemma triple_bind {A B} P (m : M A) Q (f : A → M B) R :
  triple P m Q → (∀ a, triple (Q a) (f a) R) → triple P (m ≫= f) R.
Proof.
  intros Hm Hf w Hw. specialize (Hm w Hw). unfold mbind, M_bind. destruct (m w) as [w' a]. by apply Hf.
Qed.

Lemma triple_keeps {A} (R : relation world) P (m : M A) :
  (∀ w w', P w → R w w' → P w') → keeps R m → triple P m (λ _, P).
Proof. intros HP Hm w Hw. eapply HP; [done|]. apply Hm. Qed.

Lemma prefix_ne (p q x y : gostr) : has_prefix (p ++ x) q = false → p ++ x ≠ q ++ y.
Proof.
  intros Hp E. rewrite E in Hp. assert (has_prefix (q ++ y) q = true) by (apply has_prefix_split; by eexists).
  congruence.
Qed.

(** No key appears under the two prefixes of the marks. *)
Definition tame (c c' : gmap gostr (WafCache.WafCacheItem cval)) : Prop :=
  ∀ s, (c !! (REQUIRED_PRE ++ s) = None → c' !! (REQUIRED_PRE ++ s) = None) ∧
       (c !! (GRACE_PRE ++ s) = None → c' !! (GRACE_PRE ++ s) = None).
#[local] Instance tame_preorder : PreOrder tame.
Proof. split; [by split|]. intros c1 c2 c3 H1 H2 s. destruct (H1 s), (H2 s). split; naive_solver. Qed.

Definition excl (c : gmap gostr (WafCache.WafCacheItem cval)) : Prop :=
  ∀ s, c !! (REQUIRED_PRE ++ s) = None ∨ c !! (GRACE_PRE ++ s) = None.
Definition keeps_excl (c c' : gmap gostr (WafCache.WafCacheItem cval)) : Prop := excl c → excl c'.
#[local] Instance keeps_excl_preorder : PreOrder keeps_excl.
Proof. split; [intros c Hc; exact Hc|]. intros c1 c2 c3 H1 H2 Hc. by apply H2, H1. Qed.

Lemma tame_excl c c' : tame c c' → keeps_excl c c'.
Proof. intros Ht Hc s. destruct (Ht s), (Hc s); naive_solver. Qed.

Lemma tame_read now k : may_read tame now k.
Proof. intros c s. split; apply seen_none. Qed.
Lemma tame_remove k : may_remove tame k.
Proof. intros c s. split; intros E; rewrite lookup_delete_None; by right. Qed.
Lemma tame_write now k :
  has_prefix k REQUIRED_PRE = false → has_prefix k GRACE_PRE = false → may_write tame now k.
Proof.
  intros H1 H2 c v n s. assert (Hp : ∀ q, has_prefix k q = false → q ++ s ≠ k).
  { intros q Hq <-. rewrite (proj2 (has_prefix_split _ _)) in Hq; [done|by eexists]. }
  by rewrite !set_ne by (by apply Hp).
Qed.
#[local] Hint Resolve tame_read tame_remove : samwaf.

(** The state during a round of one client, once it is known not to be in grace. *)
Definition open_round (s : gostr) (w : world) : Prop := excl (cache w) ∧ cache w !! (GRACE_PRE ++ s) = None.

Lemma open_round_tame {A} s (m : M A) : keeps (on_cache tame) m → triple (open_round s) m (λ _, open_round s).
Proof.
  apply triple_keeps. intros w w' [He Hg] Ht. split; [by apply (tame_excl _ _ Ht)|]. by apply (Ht s).
Qed.

Lemma Grant_excl now code ip :
  ip ≠ [] → triple (open_round (code ++ $"|" ++ ip)) (GrantCCCaptchaGrace now code ip) (λ _ w, excl (cache w)).
Proof.
  intros Hip. unfold GrantCCCaptchaGrace. rewrite bool_decide_eq_false_2 by done.
  eapply triple_bind; [apply open_round_tame, keeps_GetInt; [apply _|apply tame_read]|intros v].
  eapply (triple_bind _ _ (λ _ w, excl (cache w) ∧ cache w !! (REQUIRED_PRE ++ code ++ $"|" ++ ip) = None)).
  { intros w [He Hg]. unfold remove_key, modify. cbn [fst cache with_cache]. rewrite remove_eq. split.
    - apply (tame_excl _ _ (tame_remove _ (cache w)) He).
    - apply lookup_delete_eq. }
  intros []. eapply (triple_bind _ _ (λ _ w, excl (cache w) ∧ cache w !! (REQUIRED_PRE ++ code ++ $"|" ++ ip) = None)).
  { apply (triple_keeps (on_cache tame)).
    - intros w w' [He Hg] Ht. split; [by apply (tame_excl _ _ Ht)|by apply Ht].
    - apply keeps_remove_key, tame_remove. }
  intros []. intros w [He Hr] s. cbn [set_ttl modify fst cache with_cache].
  destruct (decide (s = code ++ $"|" ++ ip)) as [->|Hne].
  - left. rewrite set_ne; [done|]. by apply prefix_ne.
  - rewrite !set_ne; [apply He|..]; unfold ccCaptchaGraceKey; [|by apply prefix_ne].
    intros E. apply app_inv_head in E. done.
Qed.

Lemma Require_excl now code ip n src :
  triple (open_round (code ++ $"|" ++ ip)) (RequireCaptcha now code ip n src) (λ _ w, excl (cache w)).
Proof.
  unfold RequireCaptcha. case_bool_decide; [by intros w [He _]|].
  eapply (triple_bind _ _ (λ _ w, excl (cache w))).
  - intros w [He Hg] s. cbn [set_ttl modify fst cache with_cache].
    destruct (decide (s = code ++ $"|" ++ ip)) as [->|Hne].
    + right. rewrite set_ne; [done|]. by apply prefix_ne.
    + rewrite !set_ne; [apply He|by apply prefix_ne|]. unfold ccCaptchaRequiredKey.
      intros E. apply app_inv_head in E. done.
  - intros []. case_bool_decide; [by intros w He|]. apply (triple_keeps (on_cache tame)).
    + intros w w' He Ht. by apply (tame_excl _ _ Ht).
    + apply keeps_set_ttl, tame_write; done.
Qed.

Lemma round_done_tame now rq code ip : keeps (on_cache tame) (round_done now rq code ip).
Proof. apply (round_done_keeps tame); auto with samwaf. Qed.

Lemma revoke_tame rq ip : keeps (on_cache tame) (revokeCaptchaPass rq ip).
Proof. apply (revoke_keeps tame 0); auto with samwaf. Qed.

Lemma round_without_ip now rq code s src a b c : keeps (on_cache tame) (captcha_round now rq code [] s src a b c).
Proof.
  unfold captcha_round, isCCCaptchaInGrace, round_done, IsCCCaptchaRequired, hasCaptchaPass,
    GrantCCCaptchaGrace, revokeCaptchaPass, RequireCaptcha.
  rewrite !bool_decide_eq_true_2 by done. intros w. unfold mbind, M_bind, mret, M_ret, on_cache. cbn. reflexivity.
Qed.

Lemma captcha_round_excl now rq code ip s src a b c :
  triple (λ w, excl (cache w)) (captcha_round now rq code ip s src a b c) (λ _ w, excl (cache w)).
Proof.
  destruct (decide (ip = [])) as [->|Hip].
  { apply (triple_keeps (on_cache tame)); [|apply round_without_ip]. intros w w' He Ht. by apply (tame_excl _ _ Ht). }
  unfold captcha_round.
  apply (triple_bind _ _ (λ (grace : bool) w, excl (cache w) ∧ (grace = false → cache w !! (GRACE_PRE ++ code ++ $"|" ++ ip) = None))).
  { unfold isCCCaptchaInGrace. rewrite bool_decide_eq_false_2 by done. intros w He.
    unfold key_exists, cache_get. rewrite IsKeyExist_eq. cbn [fst snd cache with_cache].
    split; [by apply (tame_excl _ _ (tame_read _ _ _) He)|]. apply seen_absent. }
  intros [|]; [by intros w [He _]|].
  apply (triple_bind _ _ (λ _, open_round (code ++ $"|" ++ ip))).
  { intros w [He Hg]. by apply open_round_tame; [apply round_done_tame|split; [done|apply Hg]]. }
  intros [|].
  - eapply triple_bind; [by apply Grant_excl|]. intros [] w He. exact He.
  - apply (triple_bind _ _ (λ _, open_round (code ++ $"|" ++ ip))); [by intros w He|intros _].
    apply (triple_bind _ _ (λ _, open_round (code ++ $"|" ++ ip))); [apply open_round_tame, revoke_tame|intros _].
    apply Require_excl.
Qed.

(** A key of another family, for the frames that follow. *)
Lemma ban_key_tame now scope code ip : may_write tame now (BuildCCBanKey scope code ip).
Proof. unfold BuildCCBanKey. case_bool_decide; by apply tame_write. Qed.

Lemma CheckCC_excl now rq h g : keeps (on_cache keeps_excl) (CheckCC now rq h g).
Proof.
  apply (CheckCC_keeps keeps_excl now rq h).
  - intros code ip s a b c d w He. by apply captcha_round_excl.
  - intros _ scope code ip c v n. apply tame_excl, ban_key_tame.
Qed.

(** What happens to the shared state: requests come in and are checked, pass the gate,
    are tested for a ban and announced; the captcha service hands out passes; expired
    items are swept. *)
Definition with_log (l : WebLog) (w : world) : world :=
  mkWorld (counter w) (tracker w) (cache w) (limiters w) (messages w) l [].

Inductive step (w : world) : world → Prop :=
| step_request l : step w (with_log l w)
| step_check now rq h g : step w (CheckCC now rq h g w).1
| step_gate now rq h : step w (captcha_gate now rq h w).1
| step_ban_test now code net src mode : step w (matchCCBan now code net src mode w).1
| step_notice now key ip : step w (notifyCCBanOnce now key ip w).1
| step_source now code ip : step w (CaptchaRequireSource now code ip w).1
| step_pass now token ip seconds : step w (set_ttl now (pass_key token ip) (VStr $"ok") seconds w).1
| step_sweep now : step w (with_cache (WafCache.ClearExpirationCache (cache w) now) w).

Lemma gate_excl now rq h : triple (λ w, excl (cache w)) (captcha_gate now rq h) (λ _ w, excl (cache w)).
Proof.
  intros w He. unfold captcha_gate, gets, mbind at 1, M_bind at 1.
  set (code := Code h). set (ip := client_of h (weblog w)).
  destruct (decide (ip = [])) as [->|Hip].
  { unfold round_done, IsCCCaptchaRequired. rewrite bool_decide_eq_true_2 by done. done. }
  unfold round_done, IsCCCaptchaRequired, mbind, M_bind. rewrite bool_decide_eq_false_2 by done.
  unfold key_exists, cache_get. rewrite IsKeyExist_eq.
  destruct (has (cache w) now (ccCaptchaRequiredKey code ip)) eqn:E; [|by apply (tame_excl _ _ (tame_read _ _ _))].
  rewrite seen_present by done.
  assert (Hopen : open_round (code ++ $"|" ++ ip) (with_cache (cache w) w)).
  { split; [done|]. cbn. destruct (He (code ++ $"|" ++ ip)) as [Hn|]; [|done].
    unfold has, WafCache.view, ccCaptchaRequiredKey in E. by rewrite Hn in E. }
  assert (Hpass : keeps (on_cache tame) (hasCaptchaPass now rq ip))
    by (apply (hasCaptchaPass_keeps tame); auto with samwaf).
  pose proof (open_round_tame _ _ Hpass _ Hopen) as Ho. destruct (hasCaptchaPass _ _ _ _) as [w' [|]]; [|apply Ho].
  by eapply Grant_excl.
Qed.

Lemma first_key_tame now keys : keeps (on_cache tame) (first_key now keys).
Proof.
  induction keys as [|k keys IH]; cbn [first_key]; [by apply keeps_ret, _|].
  apply keeps_bind; [apply _|apply keeps_key_exists; auto with samwaf|intros ok].
  apply keeps_if; [by apply keeps_ret, _|done].
Qed.

Lemma matchCCBan_tame now code net src mode : keeps (on_cache tame) (matchCCBan now code net src mode).
Proof.
  unfold matchCCBan. apply keeps_if; [by apply keeps_ret, _|].
  apply keeps_bind; [apply _|apply first_key_tame|intros k; by apply keeps_ret, _].
Qed.

Lemma source_tame now code ip : keeps (on_cache tame) (CaptchaRequireSource now code ip).
Proof.
  unfold CaptchaRequireSource, GetString. apply keeps_if; [by apply keeps_ret, _|].
  repeat (apply keeps_bind; [apply _| |intros ?]); try (by apply keeps_ret, _).
  apply keeps_cache_read, tame_read.
Qed.

Lemma notice_tame now key ip : keeps (on_cache tame) (notifyCCBanOnce now key ip).
Proof.
  unfold notifyCCBanOnce. apply keeps_bind; [apply _|apply keeps_key_exists, tame_read|intros sent].
  apply keeps_if; [by apply keeps_ret, _|].
  apply keeps_bind; [apply _|by apply keeps_set_ttl, tame_write|intros _].
  apply keeps_bind; [apply _|apply keeps_GetInt; [apply _|apply tame_read]|intros d].
  apply keeps_bind; [apply _| |intros e; cbn zeta; apply keeps_other; [apply _|done]].
  intros w. unfold cache_get, on_cache, WafCache.GetExpireTime.
  pose proof (tame_read now key (cache w)) as Hr. unfold seen in Hr.
  destruct (cache w !! key) as [item|]; [|cbn; reflexivity]. by destruct (WafCache.live now item).
Qed.

Lemma step_excl w w' : step w w' → excl (cache w) → excl (cache w').
Proof.
  intros Hs He. destruct Hs as [l|now rq h g|now rq h|now code net src mode|now key ip|now code ip|now token ip n|now].
  - exact He.
  - by apply (CheckCC_excl now rq h g w).
  - by apply gate_excl.
  - apply (tame_excl (cache w)); [apply matchCCBan_tame|done].
  - apply (tame_excl (cache w)); [apply notice_tame|done].
  - apply (tame_excl (cache w)); [apply source_tame|done].
  - apply (tame_excl (cache w)); [|done]. by apply tame_write.
  - apply (tame_excl (cache w)); [|done]. intros s. cbn. unfold WafCache.ClearExpirationCache.
    split; intros E; apply map_lookup_filter_None; by left.
Qed.

(** a client is never asked for a captcha and excused from it at once.  However
    requests, captcha gates, ban tests, passes and sweeps of any number of sites and
    clients follow each other, a pending challenge and a grace period of one client on
    one site never coexist: the challenge gives way to the grace period it was passed
    for, and a new challenge comes only after that period. *)
Theorem challenge_xor_grace w0 w now code ip :
  cache w0 = ∅ → rtc step w0 w →
  (IsCCCaptchaRequired now code ip w).2 = true → (isCCCaptchaInGrace now code ip w).2 = false.
Proof.
  intros H0w Hrun. assert (He : excl (cache w)).
  { assert (He0 : excl (cache w0)) by (intros s; left; rewrite H0w; apply lookup_empty).
    clear H0w. induction Hrun as [w|w1 w2 w3 Hs _ IH]; [done|]. by apply IH, (step_excl w1). }
  unfold IsCCCaptchaRequired, isCCCaptchaInGrace. case_bool_decide; [done|].
  unfold key_exists, cache_get. rewrite !IsKeyExist_eq. cbn [snd].
  unfold has, WafCache.view, ccCaptchaRequiredKey, ccCaptchaGraceKey.
  destruct (He (code ++ $"|" ++ ip)) as [-> | ->]; done.
Qed.

(** ** One round, in full *)

Lemma key_exists_run now k w : key_exists now k w = (with_cache (seen (cache w) now k) w, has (cache w) now k).
Proof. unfold key_exists, cache_get. by rewrite IsKeyExist_eq. Qed.

(** A cache that lost expired items only. *)
Definition swept (now : Z) (c c' : gmap gostr (WafCache.WafCacheItem cval)) : Prop :=
  ∀ k, c' !! k = c !! k ∨ (c' !! k = None ∧ has c now k = false).

Lemma swept_view now c c' t k : swept now c c' → now ≤ t → WafCache.view c' t k = WafCache.view c t k.
Proof.
  intros Hs Ht. unfold WafCache.view. destruct (Hs k) as [-> | [-> Hh]]; [done|].
  unfold has, WafCache.view in Hh. destruct (c !! k) as [item|]; [|done].
  destruct (WafCache.live now item) eqn:E; [done|]. by rewrite (WafCache.live_mono now t) by done.
Qed.

Lemma swept_has now c c' t k : swept now c c' → now ≤ t → has c' t k = has c t k.
Proof. intros. unfold has. by erewrite swept_view. Qed.

Lemma swept_none now c c' k : swept now c c' → c !! k = None → c' !! k = None.
Proof. intros Hs E. destruct (Hs k) as [-> | [-> _]]; done. Qed.

Lemma swept_seen now c k : swept now c (seen c now k).
Proof.
  intros k'. destruct (decide (k' = k)) as [->|Hne]; [|left; by apply seen_ne].
  destruct (has c now k) eqn:E; [left; by rewrite seen_present|right; split; [by apply seen_absent|done]].
Qed.

Lemma swept_trans now c c1 c2 : swept now c c1 → swept now c1 c2 → swept now c c2.
Proof.
  intros H1 H2 k. destruct (H2 k) as [-> | [-> Hh]]; [apply H1|]. right. split; [done|].
  by rewrite <- (swept_has now c c1 now k).
Qed.

Lemma with_cache_twice c c' w : with_cache c (with_cache c' w) = with_cache c w.
Proof. done. Qed.

Lemma any_pass_run now toks ip w :
  ∃ c, any_pass now toks ip w = (with_cache c w, existsb (λ tok, has (cache w) now (pass_key tok ip)) toks) ∧
       swept now (cache w) c.
Proof.
  revert w. induction toks as [|tok toks IH]; intros w.
  - exists (cache w). split; [by destruct w|]. by left.
  - cbn [any_pass]. unfold mbind, M_bind. rewrite key_exists_run. cbn [existsb].
    destruct (has (cache w) now (pass_key tok ip)) eqn:E.
    + exists (seen (cache w) now (pass_key tok ip)). split; [done|apply swept_seen].
    + destruct (IH (with_cache (seen (cache w) now (pass_key tok ip)) w)) as (c & -> & Hc).
      cbn [cache with_cache] in Hc. exists c. split; [|by eapply swept_trans; [apply swept_seen|]].
      rewrite with_cache_twice. cbn [orb cache with_cache]. f_equal.
      clear. induction toks as [|t toks IH]; [done|]. cbn [existsb]. by rewrite seen_has, IH.
Qed.

Lemma revoke_run toks ip w :
  revoke_tokens toks ip w = (with_cache (foldl (λ c tok, delete (pass_key tok ip) c) (cache w) toks) w, ()).
Proof.
  revert w. induction toks as [|tok toks IH]; intros w; [by destruct w|].
  cbn [revoke_tokens]. unfold mbind, M_bind, remove_key, modify. rewrite remove_eq, IH. done.
Qed.

Lemma foldl_delete_lookup (toks : list gostr) (ip : gostr) (c : gmap gostr (WafCache.WafCacheItem cval)) k :
  foldl (λ c (tok : gostr), delete (pass_key tok ip) c) c toks !! k =
  if existsb (λ tok : gostr, bool_decide (k = pass_key tok ip)) toks then None else c !! k.
Proof.
  revert c. induction toks as [|tok toks IH]; intros c; [done|]. cbn [foldl existsb]. rewrite IH.
  destruct (existsb _ toks); [by rewrite orb_true_r|]. rewrite orb_false_r.
  case_bool_decide; [subst; by rewrite lookup_delete_eq|by rewrite lookup_delete_ne].
Qed.

(** The request carries a pass that is still valid. *)
Definition holds_pass (now : Z) (rq : request) (ip : gostr) (w : world) : bool :=
  existsb (λ tok, has (cache w) now (pass_key tok ip)) (pass_tokens rq).

Lemma round_done_run now rq code ip w :
  ip ≠ [] →
  ∃ c, round_done now rq code ip w
       = (with_cache c w, has (cache w) now (ccCaptchaRequiredKey code ip) && holds_pass now rq ip w) ∧
       swept now (cache w) c ∧
       (has (cache w) now (ccCaptchaRequiredKey code ip) = false → c !! ccCaptchaRequiredKey code ip = None).
Proof.
  intros Hip. unfold round_done, IsCCCaptchaRequired, hasCaptchaPass. rewrite !bool_decide_eq_false_2 by done.
  unfold mbind, M_bind. rewrite key_exists_run.
  destruct (has (cache w) now (ccCaptchaRequiredKey code ip)) eqn:E.
  - rewrite seen_present by done. destruct (any_pass_run now (pass_tokens rq) ip (with_cache (cache w) w)) as (c & -> & Hc).
    exists c. by split.
  - exists (seen (cache w) now (ccCaptchaRequiredKey code ip)). split; [done|]. split; [apply swept_seen|].
    intros _. by apply seen_absent.
Qed.

(** The length of the grace period a finished round buys: what the mark holds. *)
Definition granted (now : Z) (code ip : gostr) (w : world) : Z :=
  match WafCache.view (cache w) now (ccCaptchaRequiredKey code ip) with
  | Some (VInt n) => if 0 <? n then n else ccCaptchaDefaultSeconds
  | _ => ccCaptchaDefaultSeconds
  end.

Lemma Grant_run now code ip w :
  ip ≠ [] →
  (GrantCCCaptchaGrace now code ip w).1
  = with_cache (WafCache.SetWithTTl
      (delete (ccCaptchaSourceKey code ip) (delete (ccCaptchaRequiredKey code ip)
         (seen (cache w) now (ccCaptchaRequiredKey code ip))))
      now (ccCaptchaGraceKey code ip) (VInt 1) (granted now code ip w * second)) w.
Proof.
  intros Hip. unfold GrantCCCaptchaGrace, GetInt, cache_read, cache_get, remove_key, modify, set_ttl.
  rewrite bool_decide_eq_false_2 by done. unfold mbind, M_bind, mret, M_ret. rewrite Get_eq.
  cbn [fst snd cache with_cache]. rewrite !remove_eq. unfold granted.
  by destruct (WafCache.view (cache w) now (ccCaptchaRequiredKey code ip)) as [[n|s]|].
Qed.

Definition required_for (secs : Z) : Z := if secs <=? 0 then ccCaptchaDefaultSeconds else secs.

Lemma required_for_pos secs : 0 < required_for secs.
Proof. unfold required_for, ccCaptchaDefaultSeconds. destruct (Z.leb_spec secs 0); lia. Qed.

Lemma granted_pos now code ip w : 0 < granted now code ip w.
Proof.
  unfold granted, ccCaptchaDefaultSeconds. destruct (WafCache.view _ _ _) as [[n|]|]; try lia.
  destruct (Z.ltb_spec 0 n); lia.
Qed.

(** The caches the three outcomes of a round leave. *)
Definition after_done (c : gmap gostr (WafCache.WafCacheItem cval)) now code ip n :=
  WafCache.SetWithTTl (delete (ccCaptchaSourceKey code ip) (delete (ccCaptchaRequiredKey code ip) c))
    now (ccCaptchaGraceKey code ip) (VInt 1) (n * second).

Definition after_challenge (c : gmap gostr (WafCache.WafCacheItem cval)) now toks code ip n src :=
  let c := foldl (λ c (tok : gostr), delete (pass_key tok ip) c) c toks in
  let c := WafCache.SetWithTTl c now (ccCaptchaRequiredKey code ip) (VInt n) (n * second) in
  if bool_decide (src = []) then c
  else WafCache.SetWithTTl c now (ccCaptchaSourceKey code ip) (VStr src) (n * second).

Lemma Grant_run' now code ip w :
  ip ≠ [] →
  ∃ c, swept now (cache w) c ∧
  GrantCCCaptchaGrace now code ip w = (with_cache (after_done c now code ip (granted now code ip w)) w, ()).
Proof.
  intros Hip. exists (seen (cache w) now (ccCaptchaRequiredKey code ip)). split; [apply swept_seen|].
  pose proof (Grant_run now code ip w Hip) as E. destruct (GrantCCCaptchaGrace now code ip w) as [w' []].
  cbn [fst] in E. by rewrite E.
Qed.

Lemma Require_run now code ip secs src w :
  ip ≠ [] →
  RequireCaptcha now code ip secs src w
  = (with_cache (after_challenge (cache w) now [] code ip (required_for secs) src) w, ()).
Proof.
  intros Hip. unfold RequireCaptcha, after_challenge. rewrite bool_decide_eq_false_2 by done.
  unfold mbind, M_bind, set_ttl, modify. fold (required_for secs). cbn [foldl].
  by case_bool_decide.
Qed.

Lemma granted_swept now code ip c w : swept now (cache w) c → granted now code ip (with_cache c w) = granted now code ip w.
Proof. intros Hs. unfold granted. cbn [cache with_cache]. by rewrite (swept_view now (cache w) c). Qed.

Lemma holds_pass_swept now rq ip c w : swept now (cache w) c → holds_pass now rq ip (with_cache c w) = holds_pass now rq ip w.
Proof.
  intros Hs. unfold holds_pass. cbn [cache with_cache].
  induction (pass_tokens rq) as [|tok toks IH]; [done|]. cbn [existsb]. by rewrite IH, (swept_has now (cache w) c).
Qed.

Lemma captcha_round_run now rq code ip secs src a b c w :
  ip ≠ [] →
  let grace := ccCaptchaGraceKey code ip in
  ∃ c1, swept now (cache w) c1 ∧ (has (cache w) now grace = false → c1 !! grace = None) ∧
  (has (cache w) now grace = false → has (cache w) now (ccCaptchaRequiredKey code ip) = false →
   c1 !! ccCaptchaRequiredKey code ip = None) ∧
  (captcha_round now rq code ip secs src a b c w).1 =
    if has (cache w) now grace then with_RULE a w
    else if has (cache w) now (ccCaptchaRequiredKey code ip) && holds_pass now rq ip w
    then with_RULE b (with_cache (after_done c1 now code ip (granted now code ip w)) w)
    else with_RULE c (with_cache (after_challenge c1 now (pass_tokens rq) code ip (required_for secs) src) w).
Proof.
  intros Hip grace. unfold captcha_round, isCCCaptchaInGrace.
  rewrite bool_decide_eq_false_2 by done. unfold mbind at 1, M_bind at 1. rewrite key_exists_run. fold grace.
  destruct (has (cache w) now grace) eqn:Eg.
  { exists (cache w). split; [by left|]. split; [done|]. split; [done|]. by rewrite seen_present. }
  set (w1 := with_cache (seen (cache w) now grace) w).
  destruct (round_done_run now rq code ip w1 Hip) as (c1 & Hrun & Hc1 & Hr1).
  assert (Hsw : swept now (cache w) c1) by (eapply swept_trans; [apply swept_seen|exact Hc1]).
  assert (Hg1 : c1 !! grace = None) by (eapply swept_none; [exact Hc1|by apply seen_absent]).
  unfold mbind at 1, M_bind at 1. rewrite Hrun. cbv beta iota.
  assert (Hh : has (cache w1) now (ccCaptchaRequiredKey code ip) = has (cache w) now (ccCaptchaRequiredKey code ip))
    by (unfold w1; cbn [cache with_cache]; apply seen_has).
  assert (Hp : holds_pass now rq ip w1 = holds_pass now rq ip w) by (apply holds_pass_swept, swept_seen).
  rewrite Hh, Hp in *.
  destruct (has (cache w) now (ccCaptchaRequiredKey code ip) && holds_pass now rq ip w).
  - destruct (Grant_run' now code ip (with_cache c1 w1) Hip) as (c2 & Hc2 & HG).
    exists c2. assert (Hsw2 : swept now (cache w) c2) by (eapply swept_trans; [exact Hsw|exact Hc2]).
    split; [done|]. split; [intros _; by eapply swept_none; [exact Hc2|]|].
    split; [intros _ Hr; by eapply swept_none; [exact Hc2|apply Hr1]|].
    unfold mbind, M_bind. rewrite HG. unfold modify. cbn [fst].
    change (with_cache c1 w1) with (with_cache c1 w). by rewrite (granted_swept now code ip c1 w).
  - exists c1. split; [done|]. split; [done|]. split; [intros _; exact Hr1|]. unfold mbind, M_bind, modify, revokeCaptchaPass.
    rewrite bool_decide_eq_false_2 by done. rewrite revoke_run. rewrite Require_run by done. done.
Qed.

Lemma after_done_facts now c c1 code ip n :
  swept now c c1 → c1 !! ccCaptchaGraceKey code ip = None →
  after_done c1 now code ip n !! ccCaptchaRequiredKey code ip = None ∧
  (∀ t, t ≤ now + n * second → has (after_done c1 now code ip n) t (ccCaptchaGraceKey code ip) = true) ∧
  (∀ tok t, now ≤ t → has (after_done c1 now code ip n) t (pass_key tok ip) = has c t (pass_key tok ip)).
Proof.
  intros Hsw Hg. unfold after_done. split; [|split].
  - rewrite set_ne by (by apply prefix_ne). rewrite lookup_delete_ne by (by apply prefix_ne). apply lookup_delete_eq.
  - intros t Ht. unfold has. rewrite set_fresh_view; [done| |done].
    by rewrite !lookup_delete_ne by (by apply prefix_ne).
  - intros tok t Ht. unfold has. rewrite set_view_ne by (by apply prefix_ne). unfold WafCache.view.
    rewrite !lookup_delete_ne by (by apply prefix_ne). fold (WafCache.view c1 t (pass_key tok ip)).
    by rewrite (swept_view now c c1).
Qed.

Lemma after_challenge_facts now c c1 toks code ip n src :
  swept now c c1 → c1 !! ccCaptchaGraceKey code ip = None →
  let c' := after_challenge c1 now toks code ip n src in
  (∀ tok, tok ∈ toks → c' !! pass_key tok ip = None) ∧
  c' !! ccCaptchaGraceKey code ip = None ∧
  (∀ k, has_prefix k CACHE_CAPTCHA_PASS = false → k ≠ ccCaptchaRequiredKey code ip → k ≠ ccCaptchaSourceKey code ip →
     c' !! k = c1 !! k) ∧
  (c1 !! ccCaptchaRequiredKey code ip = None → ∀ t, t ≤ now + n * second →
   WafCache.view c' t (ccCaptchaRequiredKey code ip) = Some (VInt n)).
Proof.
  intros Hsw Hg c'. set (c2 := foldl (λ c (tok : gostr), delete (pass_key tok ip) c) c1 toks).
  assert (Hout : ∀ k, k ≠ ccCaptchaRequiredKey code ip → k ≠ ccCaptchaSourceKey code ip → c' !! k = c2 !! k).
  { intros k Hk1 Hk2. unfold c', after_challenge. fold c2. case_bool_decide; by rewrite !set_ne. }
  assert (Hin : ∀ k, has_prefix k CACHE_CAPTCHA_PASS = false → c2 !! k = c1 !! k).
  { intros k Hk. unfold c2. rewrite foldl_delete_lookup.
    destruct (existsb _ toks) eqn:E; [|done]. apply existsb_elem_of in E as (tok & _ & E). prop_of_bool. subst k.
    unfold pass_key in Hk. rewrite (proj2 (has_prefix_split _ _)) in Hk; [done|by eexists]. }
  split; [|split; [|split]].
  - intros tok Htok. rewrite Hout by (by apply prefix_ne). unfold c2. rewrite foldl_delete_lookup.
    replace (existsb _ toks) with true; [done|]. symmetry. apply existsb_elem_of. exists tok.
    split; [done|]. by apply bool_decide_eq_true_2.
  - rewrite Hout by (by apply prefix_ne). by rewrite Hin.
  - intros k Hk H1 H2. by rewrite Hout, Hin.
  - intros Hr1 t Ht. unfold c', after_challenge. fold c2. case_bool_decide.
    + apply set_fresh_view; [by rewrite Hin|done].
    + rewrite set_view_ne by (by apply prefix_ne). apply set_fresh_view; [by rewrite Hin|done].
Qed.

(** the three outcomes of a captcha round.  A client in grace is left alone; a client
    that was asked and brings a valid pass is no longer asked, keeps its passes, and is
    in grace for as long as it would have been asked; any other client loses the passes
    it carries and is asked, a new mark lasting as long as the rule says. *)
Theorem captcha_round_spec now rq code ip secs src a b c w :
  ip ≠ [] →
  let req := ccCaptchaRequiredKey code ip in
  let grace := ccCaptchaGraceKey code ip in
  let w' := (captcha_round now rq code ip secs src a b c w).1 in
  if has (cache w) now grace then w' = with_RULE a w
  else if has (cache w) now req && holds_pass now rq ip w then
    RULE w' = b ∧ cache w' !! req = None ∧
    (∀ t, t ≤ now + granted now code ip w * second → has (cache w') t grace = true) ∧
    (∀ tok t, now ≤ t → has (cache w') t (pass_key tok ip) = has (cache w) t (pass_key tok ip))
  else
    RULE w' = c ∧ cache w' !! grace = None ∧
    (∀ tok, tok ∈ pass_tokens rq → cache w' !! pass_key tok ip = None) ∧
    (has (cache w) now req = false →
     ∀ t, t ≤ now + required_for secs * second → WafCache.view (cache w') t req = Some (VInt (required_for secs))).
Proof.
  intros Hip req grace w'. subst w'.
  destruct (captcha_round_run now rq code ip secs src a b c w Hip) as (c1 & Hsw & Hg & Hr & ->).
  fold req grace in Hg, Hr |- *. destruct (has (cache w) now grace); [done|]. specialize (Hg eq_refl).
  destruct (has (cache w) now req && holds_pass now rq ip w); cbn [cache RULE with_RULE with_cache]; (split; [done|]).
  - destruct (after_done_facts now (cache w) c1 code ip (granted now code ip w) Hsw Hg) as (? & ? & ?). done.
  - destruct (after_challenge_facts now (cache w) c1 (pass_tokens rq) code ip (required_for secs) src Hsw Hg)
      as (? & ? & _ & Hv). split; [done|]. split; [done|]. intros E. apply Hv. by apply Hr.
Qed.

(** C30: a challenge ends.  A client is challenged at [t0]; it solves the captcha at [t1]
    and is handed a pass; its next request brings the pass at [t2], the mark still
    standing.  That request is let through, and so is, without a new challenge, every
    request of the client until the grace period is over, however often it exceeds the
    threshold. *)
Theorem challenge_ends t0 t1 t2 t rq rq' rq'' code ip secs src tok ttl a b c w :
  ip ≠ [] → tok ∈ pass_tokens rq' →
  has (cache w) t0 (ccCaptchaGraceKey code ip) = false →
  has (cache w) t0 (ccCaptchaRequiredKey code ip) = false → cache w !! pass_key tok ip = None →
  t0 ≤ t1 ≤ t2 → t2 ≤ t0 + required_for secs * second → t2 ≤ t1 + ttl * second →
  t2 ≤ t ≤ t2 + required_for secs * second →
  let w0 := (captcha_round t0 rq code ip secs src a b c w).1 in
  let w1 := (set_ttl t1 (pass_key tok ip) (VStr $"ok") ttl w0).1 in
  let w2 := (captcha_round t2 rq' code ip secs src a b c w1).1 in
  RULE w2 = b ∧ (IsCCCaptchaRequired t code ip w2).2 = false ∧
  (captcha_round t rq'' code ip secs src a b c w2).1 = with_RULE a w2.
Proof.
  intros Hip Htok Hg0 Hr0 Hp0 Ht1 Ht2 Ht2' Ht w0 w1 w2.
  destruct (captcha_round_run t0 rq code ip secs src a b c w Hip) as (c1 & Hsw & Hg & Hr & Hw0).
  rewrite Hg0, Hr0 in *. specialize (Hg eq_refl). specialize (Hr eq_refl eq_refl). cbn [andb] in Hw0.
  destruct (after_challenge_facts t0 (cache w) c1 (pass_tokens rq) code ip (required_for secs) src Hsw Hg)
    as (Hpass & Hgrace & Hother & Hreq). specialize (Hreq Hr).
  set (c2 := after_challenge c1 t0 (pass_tokens rq) code ip (required_for secs) src) in *.
  assert (Hw1 : cache w1 = WafCache.SetWithTTl c2 t1 (pass_key tok ip) (VStr $"ok") (ttl * second))
    by (unfold w1, set_ttl, modify; subst w0; by rewrite Hw0).
  assert (Hp2 : c2 !! pass_key tok ip = None).
  { destruct (decide (tok ∈ pass_tokens rq)); [by apply Hpass|]. unfold c2, after_challenge.
    case_bool_decide; rewrite ?set_ne by (by apply prefix_ne); rewrite foldl_delete_lookup;
      (destruct (existsb _ _); [done|]); by eapply swept_none. }
  assert (Hreq1 : ∀ t, t ≤ t0 + required_for secs * second →
            WafCache.view (cache w1) t (ccCaptchaRequiredKey code ip) = Some (VInt (required_for secs))).
  { intros t' Ht'. rewrite Hw1, set_view_ne by (by apply prefix_ne). by apply Hreq. }
  assert (Hgr1 : has (cache w1) t2 (ccCaptchaGraceKey code ip) = false).
  { unfold has. rewrite Hw1, set_view_ne by (by apply prefix_ne). unfold WafCache.view. by rewrite Hgrace. }
  assert (Hok : has (cache w1) t2 (ccCaptchaRequiredKey code ip) && holds_pass t2 rq' ip w1 = true).
  { apply andb_true_iff. split; [unfold has; by rewrite Hreq1|]. apply existsb_elem_of. exists tok. split; [done|].
    unfold has. rewrite Hw1, set_fresh_view by (done || lia). done. }
  assert (Hn : granted t2 code ip w1 = required_for secs).
  { unfold granted. rewrite Hreq1 by done. by rewrite (proj2 (Z.ltb_lt _ _)) by apply required_for_pos. }
  destruct (captcha_round_run t2 rq' code ip secs src a b c w1 Hip) as (c3 & Hsw3 & Hg3 & _ & Hw2).
  rewrite Hgr1, Hok, Hn in Hw2. specialize (Hg3 Hgr1). fold w2 in Hw2.
  destruct (after_done_facts t2 (cache w1) c3 code ip (required_for secs) Hsw3 Hg3) as (Hd1 & Hd2 & _).
  split; [by rewrite Hw2|]. split.
  - unfold IsCCCaptchaRequired. rewrite bool_decide_eq_false_2 by done. rewrite key_exists_run, Hw2. cbn [snd cache with_RULE with_cache].
    unfold has, WafCache.view. by rewrite Hd1.
  - destruct (captcha_round_run t rq'' code ip secs src a b c w2 Hip) as (c4 & _ & _ & _ & ->).
    replace (has (cache w2) t (ccCaptchaGraceKey code ip)) with true; [done|]. rewrite Hw2. symmetry. apply Hd2. lia.
Qed.

(** ** Rule sets *)

(** An action that does not stop is an observation: it changes the log text only. *)
Lemma applyCCAction_continues now rq cr h ip code w :
  (applyCCAction now rq cr h ip code w).2.2 = false →
  Action (Rule cr) = CCActionObserve ∧
  applyCCAction now rq cr h ip code w = (with_RULE ($"CC观察:" ++ label (Rule cr)) w, (passed, false)).
Proof.
  unfold applyCCAction. case_bool_decide as Ho; [done|]. case_bool_decide as Hc; [|case_bool_decide as Hb].
  - unfold mbind, M_bind, modify, gets, mret, M_ret. by destruct (captcha_round _ _ _ _ _ _ _ _ _ _).
  - unfold mbind, M_bind, modify, mret, M_ret. by destruct (banCCWithScope _ _ _ _ _ _ _).
  - done.
Qed.

(** An action that blocks is neither an observation nor a captcha. *)
Lemma applyCCAction_blocks now rq cr h ip code w :
  IsBlock (applyCCAction now rq cr h ip code w).2.1 = true →
  Action (Rule cr) ≠ CCActionObserve ∧ Action (Rule cr) ≠ CCActionCaptcha ∧
  counter (applyCCAction now rq cr h ip code w).1 = counter w.
Proof.
  unfold applyCCAction. case_bool_decide as Ho; [done|]. case_bool_decide as Hc; [|case_bool_decide as Hb].
  - unfold mbind, M_bind, modify, gets, mret, M_ret. by destruct (captcha_round _ _ _ _ _ _ _ _ _ _).
  - intros _. split; [done|]. split; [done|]. unfold mbind, M_bind, modify, mret, M_ret, banCCWithScope.
    destruct (LogOnlyMode h =? 1); [done|]. by destruct (_ || _).
  - done.
Qed.

Lemma count_rule_log now rule dim ip w :
  weblog (count_rule now rule dim ip w).1 = weblog w ∧ cache (count_rule now rule dim ip w).1 = cache w.
Proof.
  unfold count_rule, mbind, M_bind, count_once, mret, M_ret.
  destruct (CCCounter.Incr (counter w) _ _ _ _) as [c res].
  destruct (CCCounter.Degraded res); [|done]. cbn [counter with_counter]. by destruct (CCCounter.Incr c _ _ _ _).
Qed.

Lemma count_rule_ok now rule dim ip w :
  CCCounter.counter_ok (counter w) → CCCounter.counter_ok (counter (count_rule now rule dim ip w).1).
Proof.
  intros Hok. unfold count_rule, mbind, M_bind, count_once, mret, M_ret.
  pose proof (CCCounter.Incr_ok (counter w) (now_unix now) (Id rule) dim (WindowSec rule) Hok) as Hok1.
  destruct (CCCounter.Incr (counter w) _ _ _ _) as [c res]. destruct (CCCounter.Degraded res); [|done].
  cbn [counter with_counter fst] in *.
  pose proof (CCCounter.Incr_ok c (now_unix now) (Id rule) ip (WindowSec rule) Hok1) as Hok2.
  by destruct (CCCounter.Incr c _ _ _ _).
Qed.

(** One rule of the set, unfolded. *)
Lemma runCCRuleSet_cons now rq h cr rules ip code w :
  runCCRuleSet now rq h (cr :: rules) ip code w =
  if negb (eligible cr rq (weblog w)) then runCCRuleSet now rq h rules ip code w
  else
    let '(w1, (res, dim)) := count_rule now (Rule cr) (DimValue cr rq (Some (weblog w)) ip).1 ip w in
    if CCCounter.Rejected res then runCCRuleSet now rq h rules ip code w1
    else if (threshold (Rule cr) <=? 0) || (CCCounter.Count res <=? threshold (Rule cr))
    then runCCRuleSet now rq h rules ip code w1
    else
      let w2 := with_tracker (CCStats.Record_ (tracker w1) (now_unix now) (Id (Rule cr)) (Action (Rule cr)) dim) w1 in
      let '(w3, (hit, stop)) := applyCCAction now rq cr h ip code w2 in
      if stop : bool then (w3, (hit, true)) else runCCRuleSet now rq h rules ip code w3.
Proof.
  cbn [runCCRuleSet]. unfold mbind, M_bind, gets, modify.
  destruct (negb (eligible cr rq (weblog w))); [done|].
  destruct (count_rule _ _ _ _ _) as [w1 [res dim]]. destruct (CCCounter.Rejected res); [done|].
  destruct (_ || _); [done|]. destruct (applyCCAction _ _ _ _ _ _ _) as [w3 [hit stop]]. by destruct stop.
Qed.

(** What holds of the rest of the rules holds of the set, when it does not mention the
    parts of the world that counting and observing change. *)
Lemma runCCRuleSet_log_ind now rq h ip code (P : list CompiledRule → world → world * (Result * bool) → Prop) :
  (∀ w, P [] w (w, (passed, false))) →
  (∀ cr rules w, eligible cr rq (weblog w) = false →
     P rules w (runCCRuleSet now rq h rules ip code w) → P (cr :: rules) w (runCCRuleSet now rq h rules ip code w)) →
  (∀ cr rules w w', eligible cr rq (weblog w) = true → weblog w' = weblog w → cache w' = cache w →
     (CCCounter.counter_ok (counter w) → CCCounter.counter_ok (counter w')) →
     P rules w' (runCCRuleSet now rq h rules ip code w') → P (cr :: rules) w (runCCRuleSet now rq h rules ip code w')) →
  (∀ cr rules w w1 res dim hit w3,
     eligible cr rq (weblog w) = true →
     count_rule now (Rule cr) (DimValue cr rq (Some (weblog w)) ip).1 ip w = (w1, (res, dim)) →
     CCCounter.Rejected res = false → 0 < threshold (Rule cr) < CCCounter.Count res →
     applyCCAction now rq cr h ip code
       (with_tracker (CCStats.Record_ (tracker w1) (now_unix now) (Id (Rule cr)) (Action (Rule cr)) dim) w1)
     = (w3, (hit, true)) → P (cr :: rules) w (w3, (hit, true))) →
  ∀ rules w, P rules w (runCCRuleSet now rq h rules ip code w).
Proof.
  intros Hnil Hskip Hpass Hstop rules. induction rules as [|cr rules IH]; intros w; [apply Hnil|].
  rewrite runCCRuleSet_cons. destruct (eligible cr rq (weblog w)) eqn:El; cbn [negb]; [|by apply Hskip].
  destruct (count_rule now (Rule cr) _ ip w) as [w1 [res dim]] eqn:Ec.
  pose proof (count_rule_log now (Rule cr) (DimValue cr rq (Some (weblog w)) ip).1 ip w) as [Hl Hc].
  pose proof (count_rule_ok now (Rule cr) (DimValue cr rq (Some (weblog w)) ip).1 ip w) as Hok.
  rewrite Ec in Hl, Hc, Hok. cbn [fst] in Hl, Hc, Hok.
  destruct (CCCounter.Rejected res) eqn:Er; [by apply Hpass|].
  destruct (Z.leb_spec (threshold (Rule cr)) 0); cbn [orb]; [by apply Hpass|].
  destruct (Z.leb_spec (CCCounter.Count res) (threshold (Rule cr))); [by apply Hpass|].
  set (w2 := with_tracker _ w1). destruct (applyCCAction now rq cr h ip code w2) as [w3 [hit stop]] eqn:Ea.
  destruct stop; [by eapply Hstop|].
  pose proof (applyCCAction_continues now rq cr h ip code w2) as Hobs. rewrite Ea in Hobs.
  destruct (Hobs eq_refl) as [_ [= -> _]]. by apply Hpass.
Qed.

(** rules that do not apply leave no trace.  A rule that is disabled, needs the
    response, is out of scope, does not match, or exempts this verified crawler, might
    as well not be in the set: the outcome, the counters, the statistics, the cache and
    the log are what they would be without it. *)
Theorem ineligible_invisible now rq h rules ip code w :
  runCCRuleSet now rq h rules ip code w
  = runCCRuleSet now rq h (List.filter (λ cr, eligible cr rq (weblog w)) rules) ip code w.
Proof.
  assert (Hl : ∀ l, weblog w = l → runCCRuleSet now rq h rules ip code w
    = runCCRuleSet now rq h (List.filter (λ cr, eligible cr rq l) rules) ip code w); [|by apply Hl].
  intros l. revert w. induction rules as [|cr rules IH]; intros w Hw; [done|]. cbn [List.filter].
  rewrite runCCRuleSet_cons. destruct (eligible cr rq l) eqn:El.
  - rewrite runCCRuleSet_cons, Hw, El. cbn [negb].
    pose proof (count_rule_log now (Rule cr) (DimValue cr rq (Some l) ip).1 ip w) as [Hl _].
    destruct (count_rule _ _ _ _ _) as [w1 [res dim]]. cbn [fst] in Hl.
    rewrite <- !IH by congruence. destruct (CCCounter.Rejected res); [done|]. destruct (_ || _); [done|].
    set (w2 := with_tracker _ w1). pose proof (applyCCAction_continues now rq cr h ip code w2) as Hobs.
    destruct (applyCCAction now rq cr h ip code w2) as [w3 [hit stop]]. destruct stop; [done|].
    destruct (Hobs eq_refl) as [_ [= -> _]]. apply IH. cbn. congruence.
  - rewrite Hw, El. cbn [negb]. by apply IH.
Qed.

(** The hits of a rule for a value, as the counter has them. *)
Definition hits (c : CCCounter.Counter) (rule : AntiCCRule) (dim : gostr) : Z :=
  match CCCounter.ring_at c (CCCounter.buildKey (Id rule) dim) with
  | Some ring => zsum (CCCounter.counts ring)
  | None => 0
  end.

(** An accepted hit is in the counter. *)
Lemma Incr_hits c now r dim win :
  CCCounter.counter_ok c →
  0 < CCCounter.Count (CCCounter.Incr c now r dim win).2 →
  match CCCounter.ring_at (CCCounter.Incr c now r dim win).1 (CCCounter.buildKey r dim) with
  | Some ring => zsum (CCCounter.counts ring) = CCCounter.Count (CCCounter.Incr c now r dim win).2
  | None => False
  end.
Proof.
  intros Hok. pose proof (CCCounter.shard_of_lookup c (CCCounter.buildKey r dim) Hok) as Hsh.
  assert (Hin : ∀ ring m,
    CCCounter.ring_at (CCCounter.mkCounter (<[CCCounter.shardFor (CCCounter.buildKey r dim) :=
      <[CCCounter.buildKey r dim := ring]> (CCCounter.shard_of c (CCCounter.buildKey r dim))]> (CCCounter.shards c)) m)
      (CCCounter.buildKey r dim) = Some ring).
  { intros ring m. unfold CCCounter.ring_at, CCCounter.shard_of. cbn [CCCounter.shards].
    rewrite list_lookup_insert_eq by (by eapply lookup_lt_Some). cbn [default id]. apply lookup_insert_eq. }
  unfold CCCounter.Incr. destruct (CCCounter.shard_of c _ !! _) as [ring|]; [cbn [fst snd]; by rewrite Hin|].
  destruct (CCCounter.reserveKey _ _) as [m ok]. destruct ok; cbn [negb]; [cbn [fst snd]; by rewrite Hin|].
  by destruct (_ <=? _).
Qed.

Lemma count_rule_hits now rule dim ip w w1 res d :
  CCCounter.counter_ok (counter w) → count_rule now rule dim ip w = (w1, (res, d)) → 0 < CCCounter.Count res →
  hits (counter w1) rule d = CCCounter.Count res ∧ (d = dim ∨ d = ip).
Proof.
  intros Hok. unfold count_rule, mbind, M_bind, count_once, mret, M_ret.
  pose proof (Incr_hits (counter w) (now_unix now) (Id rule) dim (WindowSec rule) Hok) as H1.
  pose proof (CCCounter.Incr_ok (counter w) (now_unix now) (Id rule) dim (WindowSec rule) Hok) as Hok1.
  destruct (CCCounter.Incr (counter w) _ _ _ _) as [c1 res1]. cbn [fst snd counter with_counter] in *.
  destruct (CCCounter.Degraded res1).
  - pose proof (Incr_hits c1 (now_unix now) (Id rule) ip (WindowSec rule) Hok1) as H2.
    cbn [counter with_counter]. destruct (CCCounter.Incr c1 _ _ _ _) as [c2 res2]. cbn [fst snd] in *. cbv beta iota; intros [= <- <- <-] Hpos.
    split; [|by right]. unfold hits. cbn [counter with_counter]. specialize (H2 Hpos). revert H2.
    by destruct (CCCounter.ring_at c2 _).
  - cbv beta iota; intros [= <- <- <-] Hpos. split; [|by left]. unfold hits. cbn [counter with_counter].
    specialize (H1 Hpos). revert H1.
    by destruct (CCCounter.ring_at c1 _).
Qed.

(** no block without cause.  When a rule set blocks a request, one of its rules that
    applies to the request, and whose action is neither to observe nor to challenge,
    has counted more hits for this request's value (or for the client itself) than its
    threshold and burst allow; and that is what the counter holds afterwards. *)
Theorem block_justified now rq h rules ip code w :
  CCCounter.counter_ok (counter w) →
  let out := runCCRuleSet now rq h rules ip code w in
  IsBlock out.2.1 = true →
  ∃ cr dim, cr ∈ rules ∧ eligible cr rq (weblog w) = true ∧
    Action (Rule cr) ≠ CCActionObserve ∧ Action (Rule cr) ≠ CCActionCaptcha ∧
    0 < threshold (Rule cr) < hits (counter out.1) (Rule cr) dim ∧
    (dim = (DimValue cr rq (Some (weblog w)) ip).1 ∨ dim = ip).
Proof.
  cbn zeta. revert rules w. apply (runCCRuleSet_log_ind now rq h ip code (λ rules w out,
    CCCounter.counter_ok (counter w) → IsBlock out.2.1 = true →
    ∃ cr dim, cr ∈ rules ∧ eligible cr rq (weblog w) = true ∧
      Action (Rule cr) ≠ CCActionObserve ∧ Action (Rule cr) ≠ CCActionCaptcha ∧
      0 < threshold (Rule cr) < hits (counter out.1) (Rule cr) dim ∧
      (dim = (DimValue cr rq (Some (weblog w)) ip).1 ∨ dim = ip))).
  - done.
  - intros cr rules w _ IH Hok Hb. destruct (IH Hok Hb) as (cr' & dim & ? & ?). exists cr', dim. set_solver.
  - intros cr rules w w' _ Hl _ Hok' IH Hok Hb. rewrite <- Hl. destruct (IH (Hok' Hok) Hb) as (cr' & dim & ? & ?).
    exists cr', dim. set_solver.
  - intros cr rules w w1 res dim hit w3 El Ec _ Hth Ea Hok Hb. cbn [fst snd] in *.
    destruct (count_rule_hits _ _ _ _ _ _ _ _ Hok Ec ltac:(lia)) as [Hh Hd].
    pose proof (applyCCAction_blocks now rq cr h ip code
      (with_tracker (CCStats.Record_ (tracker w1) (now_unix now) (Id (Rule cr)) (Action (Rule cr)) dim) w1)) as Hbl.
    rewrite Ea in Hbl. destruct (Hbl Hb) as (? & ? & Hc). exists cr, dim. cbn [fst] in Hc. rewrite Hc.
    cbn [counter with_tracker]. rewrite Hh. set_solver.
Qed.

(** observing is only observing.  A set whose rules all observe never stops a request
    and never writes to the cache, whatever it counts. *)
Theorem observe_never_blocks now rq h rules ip code w :
  Forall (λ cr, Action (Rule cr) = CCActionObserve) rules →
  let out := runCCRuleSet now rq h rules ip code w in
  out.2 = (passed, false) ∧ cache out.1 = cache w ∧ weblog out.1 = weblog w.
Proof.
  cbn zeta. revert rules w. apply (runCCRuleSet_log_ind now rq h ip code (λ rules w out,
    Forall (λ cr, Action (Rule cr) = CCActionObserve) rules →
    out.2 = (passed, false) ∧ cache out.1 = cache w ∧ weblog out.1 = weblog w)).
  - done.
  - intros cr rules w _ IH [_ Ho]%Forall_cons. by apply IH.
  - intros cr rules w w' _ Hl Hc _ IH [_ Ho]%Forall_cons. rewrite <- Hl, <- Hc. by apply IH.
  - intros cr rules w w1 res dim hit w3 _ _ _ _ Ea [Ho _]%Forall_cons.
    unfold applyCCAction in Ea. rewrite bool_decide_eq_true_2 in Ea by done. discriminate Ea.
Qed.

End facts.
End CCEngineFacts.
