(* ===== verification/CCBans.v ===== *)
(** * CC bans and the older limiter; the engine at work

    What a ban written by a rule stops, how the older single configuration decides, and
    a concrete site on which the theorems about the engine are applied. *)
From S2P Require Import Prelude.
From S2P Require Import GoLib.
From S2P Require Import GoHttp.
From S2P Require Import CCCounter.
From S2P Require Import CCStats.
From S2P Require Import WafCache.
From S2P Require Import CCRule.
From S2P Require Import RateLimiter.
From S2P Require Import CCEngine.
From S2P Require Import CCEngineFacts.
Local Open Scope Z_scope.
Local Open Scope bool_scope.

Module CCBans.
Import Conditions Matcher BanKey CCEngine CCEngineFacts.

Section bans.
Context `{UnicodeCase, TokenBucket}.
Implicit Types w : world.

Lemma first_key_run now keys w :
  ∃ c, first_key now keys w = (with_cache c w, default [] (find (λ k, has (cache w) now k) keys)) ∧
       swept now (cache w) c.
Proof.
  revert w. induction keys as [|k keys IH]; intros w.
  - exists (cache w). split; [by destruct w|by left].
  - cbn [first_key find]. unfold mbind, M_bind. rewrite key_exists_run.
    destruct (has (cache w) now k) eqn:E.
    + exists (seen (cache w) now k). split; [done|apply swept_seen].
    + destruct (IH (with_cache (seen (cache w) now k) w)) as (c & -> & Hc). cbn [cache with_cache] in *.
      exists c. split; [|by eapply swept_trans; [apply swept_seen|]]. rewrite with_cache_twice. f_equal. f_equal.
      clear. induction keys as [|k' keys IH]; [done|]. cbn [find]. by rewrite seen_has, IH.
Qed.

(** The keys a request of client [ip] to site [code] is looked up under. *)
Definition lookup_keys (code ip : gostr) : list gostr := CCBanLookupKeys code ip ++ [LegacyCCBanKey ip].

Lemma matchCCBan_run now code net src mode ip w :
  GetClientIPByMode mode net src = ip → ip ≠ [] →
  (matchCCBan now code net src mode w).2 = (default [] (find (λ k, has (cache w) now k) (lookup_keys code ip)), ip).
Proof.
  intros Hc Hip. unfold matchCCBan. rewrite Hc, bool_decide_eq_false_2 by done. unfold mbind, M_bind.
  fold (lookup_keys code ip). destruct (first_key_run now (lookup_keys code ip) w) as (c & -> & _). done.
Qed.

Lemma BuildCCBanKey_not_nil scope code ip : BuildCCBanKey scope code ip ≠ [].
Proof. unfold BuildCCBanKey. by case_bool_decide. Qed.

Lemma lookup_keys_not_nil code ip : [] ∉ lookup_keys code ip.
Proof.
  unfold lookup_keys, CCBanLookupKeys. rewrite elem_of_app, list_elem_of_singleton, elem_of_cons, list_elem_of_singleton.
  intros [[E|E]|E]; [by eapply BuildCCBanKey_not_nil; symmetry|by eapply BuildCCBanKey_not_nil; symmetry|done].
Qed.

(** The scope a rule bans with, and the key it writes. *)
Definition ban_key (cr : CompiledRule) (code ip : gostr) : gostr := BuildCCBanKey (BanScope (Rule cr)) code ip.

Lemma scope_normal scope code ip :
  BuildCCBanKey (if bool_decide (scope = CCBanScopeHost) then CCBanScopeHost else CCBanScopeGlobal) code ip
  = BuildCCBanKey scope code ip.
Proof.
  unfold BuildCCBanKey. destruct (decide (scope = CCBanScopeHost)) as [->|E]; [done|].
  by rewrite (bool_decide_eq_false_2 (scope = CCBanScopeHost)).
Qed.

Lemma ban_run now rq cr h ip code w :
  Action (Rule cr) = CCActionBan → LogOnlyMode h ≠ 1 → 0 < ActionSeconds (Rule cr) → ip ≠ [] →
  IsBlock (applyCCAction now rq cr h ip code w).2.1 = true ∧
  cache (applyCCAction now rq cr h ip code w).1
  = WafCache.SetWithTTl (cache w) now (ban_key cr code ip) (VInt (Z.quot (ActionSeconds (Rule cr)) 60))
      (ActionSeconds (Rule cr) * second).
Proof.
  intros Ha Hl Hs Hip. unfold applyCCAction. rewrite Ha.
  change (bool_decide (CCActionBan = CCActionObserve)) with false.
  change (bool_decide (CCActionBan = CCActionCaptcha)) with false.
  change (bool_decide (CCActionBan = CCActionBan)) with true.
  unfold mbind, M_bind, modify, banCCWithScope. rewrite (proj2 (Z.eqb_neq _ _)) by done.
  rewrite (proj2 (Z.leb_gt _ _)) by done. rewrite (bool_decide_eq_false_2 (ip = [])) by done. cbn [orb].
  rewrite scope_normal. by split.
Qed.

Lemma find_none_ext {A} (f g : A → bool) (l : list A) : (∀ x, x ∈ l → f x = g x) → find f l = find g l.
Proof. intros Hfg. induction l as [|x l IH]; [done|]. cbn. rewrite Hfg, IH by set_solver. done. Qed.

(** The client string of a legacy key holds no separator, so it is no newer key. *)
Lemma legacy_key_ne scope code ip ip' : "|"%char ∉ ip' → LegacyCCBanKey ip' ≠ BuildCCBanKey scope code ip.
Proof.
  intros Hip' E. unfold LegacyCCBanKey, BuildCCBanKey in E.
  case_bool_decide; apply app_inv_head in E; subst ip'; apply Hip'; rewrite !elem_of_app; set_solver.
Qed.

Lemma lookup_key_ne cr code ip code' ip' k :
  "|"%char ∉ code → ip ≠ [] → "|"%char ∉ code' → "|"%char ∉ ip' → ip' ≠ [] →
  (ip' ≠ ip ∨ (BanScope (Rule cr) = CCBanScopeHost ∧ code' ≠ code)) →
  k ∈ lookup_keys code' ip' → k ≠ ban_key cr code ip.
Proof.
  intros Hc Hip Hc' Hs' Hip' Hne Hk. unfold lookup_keys, CCBanLookupKeys in Hk.
  assert (Hnil : "|"%char ∉ ([] : gostr)) by set_solver.
  assert (Hinj : ∀ scope hc, "|"%char ∉ hc → BuildCCBanKey scope hc ip' = ban_key cr code ip →
    ip' = ip ∧ (scope = CCBanScopeHost ↔ BanScope (Rule cr) = CCBanScopeHost) ∧ (scope = CCBanScopeHost → hc = code)).
  { intros scope hc Hhc E. pose proof (parse_built scope hc ip' Hhc Hip') as P. unfold ban_key in E.
    rewrite E, parse_built in P by done. repeat case_bool_decide; naive_solver. }
  rewrite elem_of_app, list_elem_of_singleton, elem_of_cons, list_elem_of_singleton in Hk.
  destruct Hk as [[-> | ->]| ->]; [| |by apply legacy_key_ne].
  - intros E. apply Hinj in E as (E1 & [_ E2] & _); [|done]. destruct Hne as [|[Hs _]]; [done|]. by apply E2 in Hs.
  - intros E. apply Hinj in E as (E1 & _ & E2); [|done]. destruct Hne as [|[_ Hne]]; [done|]. by apply Hne, E2.
Qed.

(** C17: what a ban stops.  A rule that bans blocks the request, and until the ban's time
    is over every request of that client is stopped: on every site for a global ban, on
    the site the rule belongs to for a site ban.  No other client is affected, and a
    site ban affects no other site.  Once the time is over nobody is stopped who was not
    stopped before.  (The key is not in the cache before: the ban test
    that let the request through has removed an expired one.) *)
Theorem ban_scope_exact now rq cr h ip code w :
  Action (Rule cr) = CCActionBan → LogOnlyMode h ≠ 1 → 0 < ActionSeconds (Rule cr) → ip ≠ [] → "|"%char ∉ code →
  cache w !! ban_key cr code ip = None →
  let out := applyCCAction now rq cr h ip code w in
  let on_site code' := BanScope (Rule cr) = CCBanScopeHost → code' = code in
  IsBlock out.2.1 = true ∧
  (∀ t code' net src mode, GetClientIPByMode mode net src = ip → on_site code' →
     t ≤ now + ActionSeconds (Rule cr) * second → (matchCCBan t code' net src mode out.1).2.1 ≠ []) ∧
  (∀ t code' ip' net src mode, GetClientIPByMode mode net src = ip' → "|"%char ∉ code' → "|"%char ∉ ip' → ip' ≠ [] →
     (ip' ≠ ip ∨ ¬ on_site code') →
     (matchCCBan t code' net src mode out.1).2 = (matchCCBan t code' net src mode w).2) ∧
  (∀ t code' ip' net src mode, GetClientIPByMode mode net src = ip' → ip' ≠ [] → now + ActionSeconds (Rule cr) * second < t →
     (matchCCBan t code' net src mode out.1).2 = (matchCCBan t code' net src mode w).2).
Proof.
  intros Ha Hl Hs Hip Hcode Hnone out on_site. destruct (ban_run now rq cr h ip code w Ha Hl Hs Hip) as [Hb Hcache].
  fold out in Hb, Hcache. split; [done|]. split; [|split].
  - intros t code' net src mode Hc Hon Ht. rewrite (matchCCBan_run t code' net src mode ip) by done. cbn [fst].
    set (f := λ k, has (cache out.1) t k). assert (Hkey : ban_key cr code ip ∈ lookup_keys code' ip ∧ f (ban_key cr code ip) = true).
    { split; [|unfold f, has; by rewrite Hcache, set_fresh_view].
      unfold lookup_keys, CCBanLookupKeys, ban_key. destruct (decide (BanScope (Rule cr) = CCBanScopeHost)) as [E|E].
      - rewrite (Hon E), E. set_solver.
      - replace (BuildCCBanKey (BanScope (Rule cr)) code ip) with (BuildCCBanKey CCBanScopeGlobal [] ip); [set_solver|].
        unfold BuildCCBanKey. by rewrite (bool_decide_eq_false_2 (BanScope (Rule cr) = CCBanScopeHost)). }
    destruct (find f (lookup_keys code' ip)) as [k|] eqn:E.
    + cbn [default id]. apply find_some in E as [Hin%list_elem_of_In _]. intros ->.
      revert Hin. apply lookup_keys_not_nil.
    + destruct Hkey as [Hin%list_elem_of_In Hf]. apply (find_none f _ E) in Hin. congruence.
  - intros t code' ip' net src mode Hc Hc' Hs' Hip' Hne. rewrite !(matchCCBan_run t code' net src mode ip') by done.
    f_equal. f_equal. apply find_none_ext. intros k Hk. unfold has. rewrite Hcache, set_view_ne; [done|].
    apply (lookup_key_ne cr code ip code' ip' k); try done. destruct Hne as [?|Hne]; [by left|]. right. unfold on_site in Hne.
    destruct (decide (BanScope (Rule cr) = CCBanScopeHost)); [|by destruct Hne]. split; [done|]. intros ->. by apply Hne.
  - intros t code' ip' net src mode Hc Hip' Ht. rewrite !(matchCCBan_run t code' net src mode ip') by done.
    f_equal. f_equal. apply find_none_ext. intros k _. unfold has. rewrite Hcache. destruct (decide (k = ban_key cr code ip)) as [->|Hne]; [|by rewrite set_view_ne].
    unfold WafCache.view, WafCache.SetWithTTl. rewrite Hnone, lookup_insert_eq. unfold WafCache.live. cbn. by rewrite (proj2 (Z.leb_gt _ _)) by lia.
Qed.

(** ** The older single configuration *)

(** The limiter that counts the request on its own site, when there is one and its rule
    picks the request. *)
Definition local_limiter (h : HostSafe) w : option RateLimiter.IPRateLimiter :=
  match limiters w !! Code h with
  | Some lim => if checked_locally h (weblog w) then Some lim else None
  | None => None
  end.

Definition global_limiter (g : option HostSafe) (lims : gmap gostr RateLimiter.IPRateLimiter) :
    option (HostSafe * RateLimiter.IPRateLimiter) :=
  match g with
  | Some g => if GUARD_STATUS g =? 1 then (g,.) <$> lims !! Code g else None
  | None => None
  end.

Lemma check_global_run now h g ip w :
  let out := check_global now h g ip w in
  match global_limiter g (limiters w) with
  | None => out = (w, passed)
  | Some (g, lim) =>
      IsBlock out.2 = negb (RateLimiter.Allow lim now ip).2 ∧
      limiters out.1 = <[Code g := (RateLimiter.Allow lim now ip).1]> (limiters w)
  end.
Proof.
  unfold check_global, global_limiter, mbind, M_bind, gets. destruct g as [g|]; [|done].
  destruct (limiters w !! Code g) as [lim|]; [|by destruct (GUARD_STATUS g =? 1)].
  destruct (GUARD_STATUS g =? 1); cbn [negb fmap option_fmap option_map]; [|done].
  unfold limiter_allow. destruct (RateLimiter.Allow lim now ip) as [l' ok].
  unfold modify, mret, M_ret, banCC, banCCWithScope. cbn [fst snd].
  destruct ok; [done|]. cbn [fst snd]. destruct (LogOnlyMode h =? 1); [done|]. by destruct (_ || _).
Qed.

(** the older configuration.  A request is blocked exactly when the limiter of its
    site refuses it, or the global limiter is asked and refuses it; the global limiter
    is asked unless the site's limiter counted the request, let it through and says to
    skip the global one.  In particular a site rule that does not pick the request
    never switches the global limiter off. *)
Theorem check_single_spec now h g w :
  let ip := client_of h (weblog w) in
  let local := local_limiter h w in
  let lims := match local with
              | Some lim => <[Code h := (RateLimiter.Allow lim now ip).1]> (limiters w)
              | None => limiters w
              end in
  let refused := match local with Some lim => negb (RateLimiter.Allow lim now ip).2 | None => false end in
  let skipped := match local with Some _ => SkipGlobalCC h | None => false end in
  let global_refuses := match global_limiter g lims with
                        | Some (_, lim) => negb (RateLimiter.Allow lim now ip).2
                        | None => false
                        end in
  IsBlock (check_single now h g w).2 = refused || (negb skipped && global_refuses) ∧
  (refused = true → limiters (check_single now h g w).1 = lims).
Proof.
  cbn zeta. unfold check_single, local_limiter, mbind, M_bind, gets. set (ip := client_of h (weblog w)).
  assert (Hg : ∀ w', IsBlock (check_global now h g ip w').2
    = match global_limiter g (limiters w') with Some (_, lim) => negb (RateLimiter.Allow lim now ip).2 | None => false end).
  { intros w'. pose proof (check_global_run now h g ip w') as Hr.
    destruct (global_limiter g (limiters w')) as [[g' lim]|]; [by destruct Hr as [-> _]|by rewrite Hr]. }
  destruct (limiters w !! Code h) as [lim|]; [|split; [apply Hg|done]].
  destruct (checked_locally h (weblog w)); [|split; [apply Hg|done]].
  unfold limiter_allow. destruct (RateLimiter.Allow lim now ip) as [l' ok] eqn:Ea. cbn [fst snd].
  unfold mbind, M_bind, modify, mret, M_ret. destruct ok; cbn [negb orb].
  - split; [|done]. destruct (SkipGlobalCC h); cbn [negb andb]; [done|]. by rewrite Hg.
  - unfold banCC, banCCWithScope. destruct (LogOnlyMode h =? 1); [done|]. by destruct (_ || _).
Qed.

End bans.
(** ** A concrete site *)
Section witnesses.
Ltac by_decide := apply (bool_decide_unpack _); vm_compute; exact I.
#[local] Instance plain_case : UnicodeCase := {| unicode_to_lower s := s |}.
#[local] Existing Instance RateLimiter.demo_tokens.

Definition demo_rule (action scope : gostr) (limit secs : Z) : CompiledRule :=
  mkCompiledRule
    (mkRule $"1" $"login" $"CC-1" 1 $"all" None $"request" $"all" [] $"ip" [] 60 limit 0 action secs scope 1)
    [] ∅ false.
Definition demo_site (code : gostr) (logonly : Z) (rules : list CompiledRule) : HostSafe :=
  mkHost code $"nic" logonly 1 0 0 rules false None 5 false.
Definition demo_visit : WebLog := mkWebLog [] $"1.2.3.4" [] [] [] 0 0 0 0 [] 0 0 0 [] [].
Definition demo_req (cookies : list (gostr * gostr)) : request :=
  mkRequest $"/" [] $"GET" $"example.com" true ∅ cookies ∅.
Definition demo_world : world := mkWorld (CCCounter.New 100 10) (CCStats.New 0) ∅ ∅ [] demo_visit [].

Definition ban_rule (scope : gostr) : CompiledRule := demo_rule CCActionBan scope 1 600.
Definition captcha_rule : CompiledRule := demo_rule CCActionCaptcha $"host" 1 300.

(** The world after a first visit, counted once. *)
Definition visited : world := (count_rule 0 (Rule (ban_rule $"host")) $"1.2.3.4" $"1.2.3.4" demo_world).1.

Lemma visited_ok : CCCounter.counter_ok (counter visited).
Proof. apply count_rule_ok, CCCounter.New_ok. Qed.

Lemma block_justified_witness :
  ∃ cr dim, cr ∈ [ban_rule $"host"] ∧
    1 < hits (counter (runCCRuleSet 0 (demo_req []) (demo_site $"s1" 0 []) [ban_rule $"host"] $"1.2.3.4" $"s1" visited).1) (Rule cr) dim.
Proof.
  destruct (block_justified 0 (demo_req []) (demo_site $"s1" 0 []) [ban_rule $"host"] $"1.2.3.4" $"s1" visited visited_ok)
    as (cr & dim & Hin & _ & _ & _ & Hth & _); [vm_compute; reflexivity|].
  exists cr, dim. split; [exact Hin|]. apply list_elem_of_singleton in Hin. subst cr. apply Hth.
Defined.

Lemma observe_never_blocks_witness :
  (runCCRuleSet 0 (demo_req []) (demo_site $"s1" 0 []) [demo_rule $"observe" $"host" 1 60] $"1.2.3.4" $"s1" visited).2
  = (passed, false).
Proof. apply observe_never_blocks. repeat constructor. Defined.

Lemma log_only_never_bans_witness :
  cache (CheckCC 0 (demo_req []) (demo_site $"s1" 1 [ban_rule $"host"]) None visited).1 !! BuildCCBanKey $"host" $"s1" $"1.2.3.4"
  = None.
Proof.
  rewrite (log_only_never_bans 0 (demo_req []) (demo_site $"s1" 1 [ban_rule $"host"]) None visited); vm_compute; reflexivity.
Defined.

Lemma ban_scope_exact_witness :
  (matchCCBan (500 * second) $"s1" $"1.2.3.4" [] $"nic"
     (applyCCAction 0 (demo_req []) (ban_rule $"host") (demo_site $"s1" 0 []) $"1.2.3.4" $"s1" visited).1).2.1 ≠ [] ∧
  (matchCCBan (500 * second) $"s2" $"1.2.3.4" [] $"nic"
     (applyCCAction 0 (demo_req []) (ban_rule $"host") (demo_site $"s1" 0 []) $"1.2.3.4" $"s1" visited).1).2
  = (matchCCBan (500 * second) $"s2" $"1.2.3.4" [] $"nic" visited).2 ∧
  (matchCCBan (601 * second) $"s1" $"1.2.3.4" [] $"nic"
     (applyCCAction 0 (demo_req []) (ban_rule $"host") (demo_site $"s1" 0 []) $"1.2.3.4" $"s1" visited).1).2.1 = [].
Proof.
  destruct (ban_scope_exact 0 (demo_req []) (ban_rule $"host") (demo_site $"s1" 0 []) $"1.2.3.4" $"s1" visited)
    as (_ & H1 & H2 & H3); [reflexivity|discriminate|reflexivity|discriminate|by_decide|vm_compute; reflexivity|].
  split_and!.
  - by apply (H1 _ $"s1" $"1.2.3.4" [] $"nic").
  - apply (H2 _ $"s2" $"1.2.3.4" $"1.2.3.4" [] $"nic"); [reflexivity|by_decide|by_decide|discriminate|].
    right. intros Hon. by specialize (Hon eq_refl).
  - rewrite (H3 _ $"s1" $"1.2.3.4" $"1.2.3.4" [] $"nic"); [vm_compute; reflexivity|reflexivity|discriminate|vm_compute; reflexivity].
Defined.

Lemma challenge_xor_grace_witness :
  (isCCCaptchaInGrace 0 $"s1" $"1.2.3.4"
     (CheckCC 0 (demo_req []) (demo_site $"s1" 0 [captcha_rule]) None
        (CheckCC 0 (demo_req []) (demo_site $"s1" 0 [captcha_rule]) None demo_world).1).1).2 = false.
Proof.
  apply (challenge_xor_grace demo_world); [reflexivity| |vm_compute; reflexivity].
  eapply rtc_l; [apply (step_check _ 0 (demo_req []) (demo_site $"s1" 0 [captcha_rule]) None)|].
  eapply rtc_l; [apply (step_check _ 0 (demo_req []) (demo_site $"s1" 0 [captcha_rule]) None)|apply rtc_refl].
Defined.

Lemma captcha_round_spec_witness :
  cache (captcha_round 0 (demo_req []) $"s1" $"1.2.3.4" 300 $"src" $"a" $"b" $"c" demo_world).1
    !! ccCaptchaGraceKey $"s1" $"1.2.3.4" = None.
Proof. apply (captcha_round_spec 0 (demo_req []) $"s1" $"1.2.3.4" 300 $"src" $"a" $"b" $"c" demo_world). discriminate. Defined.

Lemma challenge_ends_witness :
  let rq' := demo_req [($"samwaf_captcha_token", $"tok")] in
  let w0 := (captcha_round 0 (demo_req []) $"s1" $"1.2.3.4" 300 $"src" $"a" $"b" $"c" demo_world).1 in
  let w1 := (set_ttl (5 * second) (pass_key $"tok" $"1.2.3.4") (VStr $"ok") 86400 w0).1 in
  let w2 := (captcha_round (6 * second) rq' $"s1" $"1.2.3.4" 300 $"src" $"a" $"b" $"c" w1).1 in
  RULE w2 = $"b".
Proof.
  apply (challenge_ends 0 (5 * second) (6 * second) (7 * second) (demo_req [])
    (demo_req [($"samwaf_captcha_token", $"tok")]) (demo_req []) $"s1" $"1.2.3.4" 300 $"src" $"tok" 86400 $"a" $"b" $"c" demo_world);
    first [discriminate | vm_compute; reflexivity | by_decide | split; vm_compute; discriminate | vm_compute; discriminate].
Defined.

(** A rule of the global site that bans with site scope (the default scope) writes the
    ban under the global site's code, where no visited site looks: the client is
    blocked this once and not banned. *)
Example global_rule_host_ban_lost :
  let h := demo_site $"s1" 0 [] in
  let g := demo_site $"global" 0 [ban_rule $"host"] in
  let visit w := CheckCC 0 (demo_req []) h (Some g) w in
  let w1 := (visit demo_world).1 in
  IsBlock (visit w1).2 = true ∧
  (matchCCBan second $"s1" $"1.2.3.4" [] $"nic" (visit w1).1).2.1 = [].
Proof. vm_compute. by split. Qed.

(** A pending challenge of the emergency mode (1800 s) that is 1000 s old is renewed by
    a captcha rule of 300 s: the mark keeps its old creation time, so it is over at once
    and the client is not challenged. *)
Example challenge_cancelled :
  let w1 := (RequireCaptcha 0 $"s1" $"1.2.3.4" 1800 $"e" demo_world).1 in
  let w2 := (RequireCaptcha (1000 * second) $"s1" $"1.2.3.4" 300 $"r" w1).1 in
  (IsCCCaptchaRequired (1000 * second) $"s1" $"1.2.3.4" w1).2 = true ∧
  (IsCCCaptchaRequired (1000 * second) $"s1" $"1.2.3.4" w2).2 = false.
Proof. vm_compute. by split. Qed.

End witnesses.
End CCBans.
