(* ===== verification/PathMatch.v ===== *)
(** * Path patterns of the access gate (wafenginecore/accessgate/pathmatch.go, config.go)

    The list a user types, its normalisation, and the two ways an entry matches: as a
    path prefix on segment boundaries, or as a pattern with [*].  [globMatch] is the
    source's loop over two indices, with fuel; [glob] is what it should compute. *)
From S2P Require Import Prelude.
From S2P Require Import GoLib.
Local Open Scope Z_scope.
Local Open Scope bool_scope.

Module PathMatch.

Section paths.
Context `{UnicodeCase}.

Definition pathPatternMaxEntries : nat := 50.
Definition pathPatternMaxLen : nat := 256.

(** The line breaks and commas of the text, as newlines; then the lines. *)
Definition entries (raw : gostr) : list gostr :=
  split (replace_all [([chr 13; chr 10], [chr 10]); ([chr 13], [chr 10]); ($",", [chr 10])] raw) (chr 10).

(** One line of the list, when it is not empty. *)
Definition pattern_of (line : gostr) : option gostr :=
  match to_lower (trim_space line) with
  | [] => None
  | item =>
      let item := if has_prefix item $"/" then item else $"/" ++ item in
      Some (if (pathPatternMaxLen <? length item)%nat then take pathPatternMaxLen item else item)
  end.

(** The loop, with the entries collected so far. *)
Fixpoint collect (lines : list gostr) (out : list gostr) : list gostr :=
  match lines with
  | [] => out
  | line :: lines' =>
      if (pathPatternMaxEntries <=? length out)%nat then out
      else match pattern_of line with
           | None => collect lines' out
           | Some item => collect lines' (out ++ [item])
           end
  end.

Definition BuildPathPatterns (raw : gostr) : list gostr :=
  match trim_space raw with [] => [] | _ => collect (entries raw) [] end.

Definition BuildExcludePaths (raw : gostr) : list gostr :=
  match trim_space raw with
  | [] => []
  | _ => omap (λ line, match to_lower (trim_space line) with [] => None | item => Some item end) (entries raw)
  end.

Definition defaultPathPrefix : gostr := $"/samwaf_access".

Definition NormalizePathPrefix (raw : gostr) : gostr :=
  match to_lower (trim_space raw) with
  | [] => defaultPathPrefix
  | p =>
      let p := if has_prefix p $"/" then p else $"/" ++ p in
      match trim_right p "/" with [] => defaultPathPrefix | p => p end
  end.

End paths.

(** One step of [globMatch]'s loop while [si < len(s)]: the indices, the last star and
    the position it has eaten up to; [None] when the match fails. *)
Record gstate := mkG { si : nat; pi : nat; starIdx : option nat; matchIdx : nat }.

Definition at_star (pattern : gostr) (i : nat) : bool := bool_decide (pattern !! i = Some "*"%char).

Definition glob_step (pattern s : gostr) (st : gstate) : option gstate :=
  if at_star pattern (pi st) then Some (mkG (si st) (S (pi st)) (Some (pi st)) (si st))
  else if (pi st <? length pattern)%nat && bool_decide (pattern !! pi st = s !! si st)
  then Some (mkG (S (si st)) (S (pi st)) (starIdx st) (matchIdx st))
  else match starIdx st with
       | Some i => Some (mkG (S (matchIdx st)) (S i) (Some i) (S (matchIdx st)))
       | None => None
       end.

(** The trailing loop over the stars left. *)
Fixpoint skip_stars (pattern : gostr) : gostr :=
  match pattern with
  | c :: rest => if Ascii.eqb c "*" then skip_stars rest else pattern
  | [] => []
  end.

(** [None]: the fuel ran out. *)
Fixpoint glob_loop (fuel : nat) (pattern s : gostr) (st : gstate) : option bool :=
  match fuel with
  | O => None
  | S fuel' =>
      if (si st <? length s)%nat then
        match glob_step pattern s st with
        | Some st' => glob_loop fuel' pattern s st'
        | None => Some false
        end
      else Some (bool_decide (skip_stars (drop (pi st) pattern) = []))
  end.

Definition glob_fuel (pattern s : gostr) : nat :=
  ((length s + 1) * (length s + length pattern + 2))%nat.

Definition globMatch (pattern s : gostr) : bool :=
  default false (glob_loop (glob_fuel pattern s) pattern s (mkG 0 0 None 0)).

(** An entry with a trailing slash is the entry without; both sides end at a segment. *)
Definition prefix_entry (p item : gostr) : bool :=
  match trim_right item "/" with
  | [] => true
  | item => bool_decide (p = item) || has_prefix p (item ++ $"/")
  end.

Definition match_entry (p item : gostr) : bool :=
  match item with
  | [] => false
  | _ => if contains item $"*" then globMatch item p else prefix_entry p item
  end.

Definition MatchPathPatterns (p : gostr) (list : list gostr) : bool := existsb (match_entry p) list.

Definition MatchPathPrefix (p : gostr) (list : list gostr) : bool :=
  existsb (λ item, match item with [] => false | _ => prefix_entry p item end) list.

Example glob_ex1 : globMatch $"/api/*/private*" $"/api/v1/x/private/y" = true. Proof. vm_compute. reflexivity. Qed.
Example glob_ex2 : globMatch $"/*.php" $"/a/b.phpx" = false. Proof. vm_compute. reflexivity. Qed.

(** ** What a pattern matches *)

(** [*] stands for any string, slashes included; any other byte for itself. *)
Fixpoint glob (pattern s : gostr) : Prop :=
  match pattern with
  | [] => s = []
  | c :: rest =>
      if Ascii.eqb c "*" then ∃ a t, s = a ++ t ∧ glob rest t
      else ∃ t, s = c :: t ∧ glob rest t
  end.

Definition no_star (l : gostr) : Prop := "*"%char ∉ l.

Lemma glob_lit lit q s : no_star lit → glob (lit ++ q) s ↔ ∃ t, s = lit ++ t ∧ glob q t.
Proof.
  revert s. induction lit as [|c lit IH]; intros s Hn; cbn [app].
  - split; [intros Hg; by exists s|by intros (t & -> & Hg)].
  - assert (Hc : c ≠ "*"%char) by (intros ->; apply Hn; set_solver).
    assert (Hl : no_star lit) by (unfold no_star in *; set_solver).
    cbn [glob]. destruct (Ascii.eqb_spec c "*"); [done|]. setoid_rewrite IH; [|done].
    split; [intros (t & -> & t' & -> & ?); by exists t'|intros (t & -> & ?); exists (lit ++ t); split; [done|by exists t]].
Qed.

Lemma glob_star q s : glob ("*"%char :: q) s ↔ ∃ k, (k ≤ length s)%nat ∧ glob q (drop k s).
Proof.
  cbn [glob]. rewrite Ascii.eqb_refl. split.
  - intros (a & t & -> & Hg). exists (length a). rewrite length_app. split; [lia|]. by rewrite drop_app_length.
  - intros (k & Hk & Hg). exists (take k s), (drop k s). by rewrite take_drop.
Qed.

Lemma glob_nil q : glob q [] ↔ skip_stars q = [].
Proof.
  induction q as [|c q IH]; cbn; [done|]. destruct (Ascii.eqb_spec c "*").
  - rewrite <- IH. split; [intros (a & t & E & Hg)|intros Hg; exists [], []; done].
    symmetry in E. apply app_eq_nil in E as [-> ->]. done.
  - split; [by intros (t & ? & _)|done].
Qed.

(** ** The loop *)

(** What the loop knows: without a star, the rest of the pattern has to match the rest
    of the string; with the last star at [i], the bytes after it have been matched
    literally from [matchIdx] on, and a match of the whole is a match of what follows
    the star at [matchIdx] or later. *)
Record ginv (pattern s : gostr) (st : gstate) : Prop := {
  g_si : (si st ≤ length s)%nat;
  g_pi : (pi st ≤ length pattern)%nat;
  g_star : match starIdx st with
           | None => matchIdx st = 0%nat ∧ (glob pattern s ↔ glob (drop (pi st) pattern) (drop (si st) s))
           | Some i =>
               (matchIdx st ≤ si st)%nat ∧
               ∃ lit, no_star lit ∧ drop (S i) pattern = lit ++ drop (pi st) pattern ∧
                 (pi st = S i + length lit)%nat ∧ (si st = matchIdx st + length lit)%nat ∧
                 drop (matchIdx st) s = lit ++ drop (si st) s ∧
                 (glob pattern s ↔ ∃ k, (matchIdx st ≤ k ≤ length s)%nat ∧ glob (drop (S i) pattern) (drop k s))
           end
}.

Lemma ginv_init pattern s : ginv pattern s (mkG 0 0 None 0).
Proof. split; cbn; [lia|lia|]. by rewrite !drop_0. Qed.

Lemma drop_S_lookup {A} (l : list A) i x : l !! i = Some x → drop i l = x :: drop (S i) l.
Proof. intros E. by apply drop_S. Qed.

(** A match that starts later at the star ends, after the literal bytes, later too. *)
Lemma later_match lit q s m n :
  no_star lit → drop m s = lit ++ drop n s → n = (m + length lit)%nat →
  (∃ k, (m ≤ k ≤ length s)%nat ∧ glob (lit ++ "*"%char :: q) (drop k s)) ↔
  (∃ k, (n ≤ k ≤ length s)%nat ∧ glob q (drop k s)).
Proof.
  intros Hlit Hd ->. split.
  - intros (k & Hk & Hg). rewrite glob_lit in Hg by done. destruct Hg as (t & Ht & Hg).
    apply glob_star in Hg as (j & Hj & Hg). exists (k + length lit + j)%nat.
    assert (Hlen : length (drop k s) = (length lit + length t)%nat) by (by rewrite Ht, length_app).
    rewrite length_drop in Hlen. split; [lia|].
    replace (drop (k + length lit + j) s) with (drop j t); [done|].
    rewrite <- !drop_drop, Ht, drop_app_length. done.
  - intros (k & Hk & Hg). exists m. split; [lia|]. rewrite Hd. apply glob_lit; [done|].
    eexists. split; [done|]. apply glob_star. exists (k - (m + length lit))%nat. rewrite length_drop. split; [lia|].
    rewrite drop_drop. by replace (m + length lit + (k - (m + length lit)))%nat with k by lia.
Qed.

Lemma glob_step_inv pattern s st st' :
  (si st < length s)%nat → ginv pattern s st → glob_step pattern s st = Some st' → ginv pattern s st'.
Proof.
  intros Hsi [_ Hpi Hstar]. unfold glob_step, at_star. case_bool_decide as Hs.
  { (* a new star *)
    intros [= <-]. assert (Hlt : (pi st < length pattern)%nat) by (by eapply lookup_lt_Some).
    split; cbn [si pi starIdx matchIdx]; [lia|lia|]. split; [lia|].
    exists []. cbn [app length]. split; [unfold no_star; set_solver|]. split; [done|]. split; [lia|]. split; [lia|].
    split; [done|]. apply drop_S_lookup in Hs. destruct (starIdx st) as [i|].
    - destruct Hstar as (Hm & lit & Hlit & Hp & _ & Hsi' & Hd & ->). rewrite Hp, Hs. by apply later_match.
    - destruct Hstar as [_ ->]. rewrite Hs, glob_star, length_drop. split.
      + intros (k & Hk & Hg). exists (si st + k)%nat. rewrite <- drop_drop. split; [lia|done].
      + intros (k & Hk & Hg). exists (k - si st)%nat. rewrite drop_drop. split; [lia|].
        by replace (si st + (k - si st))%nat with k by lia. }
  destruct (Nat.ltb_spec (pi st) (length pattern)) as [Hlt|Hge]; cbn [andb];
    [case_bool_decide as Hm|].
  { (* a literal match *)
    intros [= <-]. destruct (lookup_lt_is_Some_2 _ _ Hsi) as [c Hc]. rewrite Hc in Hm.
    assert (Hcs : c ≠ "*"%char) by congruence.
    split; cbn [si pi starIdx matchIdx]; [lia|lia|]. apply drop_S_lookup in Hc, Hm. destruct (starIdx st) as [i|].
    - destruct Hstar as (Hmi & lit & Hlit & Hp & Hpi' & Hsi' & Hd & Hg). split; [lia|].
      exists (lit ++ [c]). split; [unfold no_star in *; set_solver|].
      rewrite length_app. cbn [length]. split; [by rewrite Hp, Hm, <- app_assoc|]. split; [lia|]. split; [lia|].
      split; [by rewrite Hd, Hc, <- app_assoc|done].
    - destruct Hstar as [-> ->]. split; [done|]. rewrite Hc, Hm. cbn [glob].
      destruct (Ascii.eqb_spec c "*"); [done|]. split; [intros (t & [= <-] & Hg); done|intros Hg; by eexists]. }
  all: destruct (starIdx st) as [i|]; [|done]; intros [= <-];
    destruct Hstar as (Hmi & lit & Hlit & Hp & Hpi' & Hsi' & Hd & Hg);
    (split; cbn [si pi starIdx matchIdx]; [lia|lia|]); (split; [lia|]);
    exists []; cbn [app length]; (split; [unfold no_star; set_solver|]); (split; [done|]); (split; [lia|]); (split; [lia|]);
    (split; [done|]); rewrite Hg; (split; [|intros (k & Hk & Hgk); exists k; split; [lia|done]]);
    intros (k & Hk & Hgk); exists k; (split; [|done]); destruct (decide (k = matchIdx st)) as [->|]; [exfalso|lia];
    rewrite Hp in Hgk; apply glob_lit in Hgk as (t & Ht & Hgt); [|done]; rewrite Hd in Ht; apply app_inv_head in Ht; subst t.
  - destruct (lookup_lt_is_Some_2 _ _ Hlt) as [d Hd'], (lookup_lt_is_Some_2 _ _ Hsi) as [c Hc].
    rewrite (drop_S_lookup _ _ _ Hd'), (drop_S_lookup _ _ _ Hc) in Hgt. cbn [glob] in Hgt.
    destruct (Ascii.eqb_spec d "*"); [congruence|]. destruct Hgt as (t & [= -> _] & _). congruence.
  - rewrite (drop_ge pattern) in Hgt by lia. cbn in Hgt. apply (f_equal length) in Hgt. rewrite length_drop in Hgt. cbn in Hgt. lia.
Qed.

Lemma glob_step_none pattern s st :
  (si st < length s)%nat → ginv pattern s st → glob_step pattern s st = None → ¬ glob pattern s.
Proof.
  intros Hsi [_ Hpi Hstar]. unfold glob_step, at_star. case_bool_decide as Hs; [done|].
  destruct (lookup_lt_is_Some_2 _ _ Hsi) as [c Hc]. apply drop_S_lookup in Hc as Hdc.
  destruct (Nat.ltb_spec (pi st) (length pattern)) as [Hlt|Hge]; cbn [andb];
    [case_bool_decide as Hm; [done|]|]; (destruct (starIdx st) as [i|]; [done|]); intros _;
    destruct Hstar as [_ ->]; rewrite Hdc.
  - destruct (lookup_lt_is_Some_2 _ _ Hlt) as [d Hd]. rewrite (drop_S_lookup _ _ _ Hd). cbn [glob].
    destruct (Ascii.eqb_spec d "*"); [congruence|]. intros (t & [= -> _] & _). congruence.
  - rewrite drop_ge by lia. done.
Qed.

Lemma glob_end pattern s st :
  (length s ≤ si st)%nat → ginv pattern s st →
  bool_decide (skip_stars (drop (pi st) pattern) = []) = true ↔ glob pattern s.
Proof.
  intros Hend [Hsi _ Hstar]. rewrite bool_decide_eq_true, <- glob_nil.
  destruct (starIdx st) as [i|].
  - destruct Hstar as (Hmi & lit & Hlit & Hp & Hpi' & Hsi' & Hd & ->). rewrite Hp.
    rewrite (drop_ge s (si st)) in Hd by lia. split.
    + intros Hg. exists (matchIdx st). split; [lia|]. rewrite Hd. apply glob_lit; [done|]. by exists [].
    + intros (k & Hk & Hg). apply glob_lit in Hg as (t & Ht & Hg); [|done].
      apply (f_equal length) in Ht. rewrite length_drop, length_app in Ht. destruct t; [done|cbn in Ht; lia].
  - destruct Hstar as [_ ->]. by rewrite (drop_ge s) by lia.
Qed.

(** The steps left: positions to retry from, then bytes to read. *)
Definition glob_measure (pattern s : gostr) (st : gstate) : nat :=
  ((length s - matchIdx st) * (length s + length pattern + 2) + (length s - si st) + (length pattern - pi st))%nat.

Lemma glob_step_measure pattern s st st' :
  (si st < length s)%nat → ginv pattern s st → glob_step pattern s st = Some st' →
  (glob_measure pattern s st' < glob_measure pattern s st)%nat.
Proof.
  intros Hsi [_ Hpi Hstar]. assert (Hm : (matchIdx st ≤ si st)%nat) by (destruct (starIdx st); destruct Hstar; lia).
  unfold glob_step, at_star, glob_measure. case_bool_decide as Hs.
  { intros [= <-]. cbn [si pi matchIdx]. apply lookup_lt_Some in Hs. nia. }
  destruct (Nat.ltb_spec (pi st) (length pattern)); cbn [andb]; [case_bool_decide; [intros [= <-]; cbn; nia|]|];
    (destruct (starIdx st) as [i|]; [|done]); intros [= <-]; cbn [si pi matchIdx]; nia.
Qed.

Lemma glob_loop_spec pattern s fuel st :
  ginv pattern s st → (glob_measure pattern s st < fuel)%nat →
  ∃ b, glob_loop fuel pattern s st = Some b ∧ (b = true ↔ glob pattern s).
Proof.
  revert st. induction fuel as [|fuel IH]; intros st Hinv Hf; [lia|]. cbn [glob_loop].
  destruct (Nat.ltb_spec (si st) (length s)) as [Hsi|Hend]; [|eexists; split; [done|by apply glob_end]].
  destruct (glob_step pattern s st) as [st'|] eqn:E.
  - apply IH; [by eapply glob_step_inv|]. pose proof (glob_step_measure _ _ _ _ Hsi Hinv E). lia.
  - exists false. split; [done|]. pose proof (glob_step_none _ _ _ Hsi Hinv E). by split.
Qed.

(** C36: the wildcard matcher ends and is right.  Whatever the pattern and the path, the
    loop stops within [(|s|+1)(|s|+|pattern|+2)] steps, and it answers true exactly when
    the path is the pattern with every [*] replaced by some string. *)
Theorem globMatch_correct pattern s :
  (∃ b, glob_loop (glob_fuel pattern s) pattern s (mkG 0 0 None 0) = Some b) ∧
  (globMatch pattern s = true ↔ glob pattern s).
Proof.
  destruct (glob_loop_spec pattern s (glob_fuel pattern s) _ (ginv_init pattern s)) as (b & Hb & Hg).
  - unfold glob_measure, glob_fuel. cbn. nia.
  - unfold globMatch. rewrite Hb. split; [by exists b|done].
Qed.

(** ** Entries and lists *)

Lemma trim_left_with_suffix f s : ∃ a, s = a ++ trim_left_with f s ∧ Forall (λ c, f c = true) a.
Proof.
  induction s as [|c s (a & E & Ha)]; [by exists []|]. cbn [trim_left_with].
  destruct (f c) eqn:Ef; [|by exists []]. exists (c :: a). split; [by rewrite E at 1|by constructor].
Qed.

Lemma trim_left_with_head f s c r : trim_left_with f s = c :: r → f c = false.
Proof. induction s as [|a s IH]; [done|]. cbn. destruct (f a) eqn:E; [done|]. by intros [= <- _]. Qed.

(** Trimming on the right cuts the bytes of the set and nothing else. *)
Lemma trim_right_split s c : ∃ n, s = trim_right s c ++ replicate n c.
Proof.
  unfold trim_right, trim_right_with. destruct (trim_left_with_suffix (Ascii.eqb c) (reverse s)) as (a & E & Ha).
  exists (length a). apply (f_equal reverse) in E. rewrite reverse_involutive, reverse_app in E. rewrite E at 1. f_equal.
  clear E. rewrite <- (reverse_replicate (length a)). f_equal.
  induction Ha as [|d a Hd _ IH]; [done|]. apply Ascii.eqb_eq in Hd. subst d. cbn. by rewrite <- IH.
Qed.

Lemma trim_right_last s c r : trim_right s c ≠ r ++ [c].
Proof.
  unfold trim_right, trim_right_with. intros E. apply (f_equal reverse) in E. rewrite reverse_involutive, reverse_app in E.
  apply trim_left_with_head in E. by rewrite Ascii.eqb_refl in E.
Qed.

Lemma prefix_entry_spec p item :
  prefix_entry p item = true ↔
  trim_right item "/" = [] ∨ p = trim_right item "/" ∨ ∃ rest, p = trim_right item "/" ++ $"/" ++ rest.
Proof.
  unfold prefix_entry. destruct (trim_right item "/") as [|c r] eqn:E; [naive_solver|].
  rewrite orb_true_iff, bool_decide_eq_true, has_prefix_split. setoid_rewrite <- app_assoc. naive_solver.
Qed.

(** what an entry opens.  An entry without [*] matches the path it names and the
    paths below it, and no other: never a sibling that merely starts with the same
    bytes; trailing slashes of the entry do not matter, and the entry that is only
    slashes matches everything.  An entry with [*] matches as a pattern, and a list
    matches when one of its entries does. *)
Theorem MatchPathPatterns_spec p items :
  MatchPathPatterns p items = true ↔
  ∃ item, item ∈ items ∧ item ≠ [] ∧
    if contains item $"*" then glob item p
    else let e := trim_right item "/" in e = [] ∨ p = e ∨ ∃ rest, p = e ++ $"/" ++ rest.
Proof.
  unfold MatchPathPatterns. rewrite existsb_elem_of. apply exist_proper. intros item.
  unfold match_entry. destruct item as [|c r]; [naive_solver|].
  destruct (contains (c :: r) $"*"); [|rewrite prefix_entry_spec; naive_solver].
  destruct (glob_loop_spec (c :: r) p (glob_fuel (c :: r) p) _ (ginv_init (c :: r) p)) as (b & Hb & Hg).
  - unfold glob_measure, glob_fuel. cbn [si pi matchIdx]. nia.
  - unfold globMatch. rewrite Hb. cbn [default id]. naive_solver.
Qed.

Section built.
Context `{UnicodeCase}.

Lemma pattern_of_ok line item :
  pattern_of line = Some item → has_prefix item $"/" = true ∧ (length item ≤ pathPatternMaxLen)%nat.
Proof.
  unfold pattern_of. destruct (to_lower (trim_space line)) as [|c r] eqn:E; [done|].
  set (full := if has_prefix (c :: r) $"/" then c :: r else $"/" ++ c :: r).
  assert (Hf : has_prefix full $"/" = true) by (unfold full; destruct (has_prefix (c :: r) $"/") eqn:Hp; [done|reflexivity]).
  intros [= <-]. destruct (Nat.ltb_spec pathPatternMaxLen (length full)); [|done].
  split; [|rewrite length_take; lia]. clearbody full. destruct full as [|d full']; [done|]. unfold pathPatternMaxLen. cbn [firstn]. by destruct full'.
Qed.

Lemma collect_ok lines out :
  (length out ≤ pathPatternMaxEntries)%nat →
  Forall (λ item, has_prefix item $"/" = true ∧ (length item ≤ pathPatternMaxLen)%nat) out →
  (length (collect lines out) ≤ pathPatternMaxEntries)%nat ∧
  Forall (λ item, has_prefix item $"/" = true ∧ (length item ≤ pathPatternMaxLen)%nat) (collect lines out) ∧
  collect lines out = take pathPatternMaxEntries (out ++ omap pattern_of lines).
Proof.
  revert out. induction lines as [|line lines IH]; intros out Hlen Hall; cbn [collect omap list_omap].
  - rewrite app_nil_r, take_ge by done. done.
  - destruct (Nat.leb_spec pathPatternMaxEntries (length out)).
    + split; [done|]. split; [done|]. rewrite take_app_le, take_ge by lia. done.
    + destruct (pattern_of line) as [item|] eqn:E; [|by apply IH].
      destruct (IH (out ++ [item])) as (H1 & H2 & H3).
      * rewrite length_app. cbn. lia.
      * apply Forall_app. split; [done|]. constructor; [|done]. by eapply pattern_of_ok.
      * split; [done|]. split; [done|]. by rewrite H3, <- app_assoc.
Qed.

(** the list is bounded and rooted.  Whatever text is saved, the engine works with at
    most 50 patterns of at most 256 bytes, each starting with a slash: the first
    non-empty lines of the text, in order. *)
Theorem BuildPathPatterns_bounded raw :
  (length (BuildPathPatterns raw) ≤ 50)%nat ∧
  Forall (λ item, has_prefix item $"/" = true ∧ (length item ≤ 256)%nat) (BuildPathPatterns raw) ∧
  (trim_space raw ≠ [] → BuildPathPatterns raw = take 50 (omap pattern_of (entries raw))).
Proof.
  unfold BuildPathPatterns. destruct (trim_space raw); [split; [cbn; lia|done]|].
  destruct (collect_ok (entries raw) [] ltac:(cbn; unfold pathPatternMaxEntries; lia) (List.Forall_nil _)) as (? & ? & ?). done.
Qed.

Lemma NormalizePathPrefix_ok raw :
  has_prefix (NormalizePathPrefix raw) $"/" = true ∧ ∀ r, NormalizePathPrefix raw ≠ r ++ $"/".
Proof.
  assert (Hd : ∀ r, defaultPathPrefix ≠ r ++ $"/").
  { intros r E. apply (f_equal reverse) in E. rewrite reverse_app in E. vm_compute in E. discriminate E. }
  unfold NormalizePathPrefix. destruct (to_lower (trim_space raw)) as [|c r]; [done|].
  set (full := if has_prefix (c :: r) $"/" then c :: r else $"/" ++ c :: r).
  assert (Hf : has_prefix full $"/" = true) by (unfold full; destruct (has_prefix (c :: r) $"/") eqn:Hp; [done|reflexivity]).
  destruct (trim_right full "/") as [|d e] eqn:E; [done|]. split; [|rewrite <- E; intros; apply trim_right_last].
  destruct (trim_right_split full "/") as [n Hn]. rewrite E in Hn.
  apply has_prefix_split in Hf as [r' Hr]. rewrite Hn in Hr. injection Hr as -> _. apply has_prefix_split. by exists e.
Qed.

End built.

End PathMatch.
