(* ===== verification/AccessGate.v ===== *)
(** * The access gate: site identity and cross-origin policy
      (wafenginecore/accessgate/hostkey.go, cors.go, config.go)

    [Hosts]: the normal form of a Host header, on which the tokens of the gate are
    bound, and the cookie name derived from it.  [CORS]: the allow list, the match and
    the headers written before authentication.  The SHA-256 digest is a parameter. *)
From S2P Require Import Prelude.
From S2P Require Import GoLib.
From S2P Require Import GoHttp.
From S2P Require Import PathMatch.
Local Open Scope Z_scope.
Local Open Scope bool_scope.

Module Hosts.

Definition splitHostPort (h : gostr) : gostr * gostr :=
  if has_prefix h $"[" then
    match index_byte h "]" with
    | None => (h, [])
    | Some i =>
        match drop (S i) h with
        | c :: port => if Ascii.eqb c ":" then (take (S i) h, port) else (take (S i) h, [])
        | [] => (take (S i) h, [])
        end
    end
  else if (count_byte h ":" =? 1)%nat then
    match index_byte h ":" with
    | Some i => (take i h, drop (S i) h)
    | None => (h, [])
    end
  else (h, []).

Definition is_default (isTLS : bool) (port : gostr) : bool :=
  (isTLS && bool_decide (port = $"443")) || (negb isTLS && bool_decide (port = $"80")).

Definition render (hostPart port : gostr) : gostr :=
  match port with [] => hostPart | _ => hostPart ++ $":" ++ port end.

Section hosts.
Context `{UnicodeCase}.

(** The host and the port of a Host header, the default port dropped: what
    [NormalizeHost] computes before it puts them together. *)
Definition site_of (host : gostr) (isTLS : bool) : option (gostr * gostr) :=
  let h := to_lower (trim_space host) in
  match h with
  | [] => None
  | _ =>
      let h := match last_index_byte h "@" with Some i => drop (S i) h | None => h end in
      let '(hostPart, port) := splitHostPort h in
      let hostPart := trim_suffix hostPart $"." in
      match hostPart with
      | [] => None
      | _ => Some (hostPart, if is_default isTLS port then [] else port)
      end
  end.

Definition NormalizeHost (host : gostr) (isTLS : bool) : gostr :=
  match site_of host isTLS with Some (hostPart, port) => render hostPart port | None => [] end.

Section token.
Context (sha256 : gostr → list ascii).

Definition hex_byte (c : ascii) : gostr := [digit_char (code c / 16); digit_char (code c mod 16)].
Definition EncodeToString (bs : list ascii) : gostr := concat (map hex_byte bs).

Definition defaultCookiePrefix : gostr := $"samwaf_ac".

Definition LegacyTokenCookieName (prefix : gostr) : gostr :=
  (match prefix with [] => defaultCookiePrefix | _ => prefix end) ++ $"_tk".

Definition TokenCookieName (prefix normalizedHost : gostr) : gostr :=
  let prefix := match prefix with [] => defaultCookiePrefix | _ => prefix end in
  match normalizedHost with
  | [] => prefix ++ $"_tk"
  | _ => prefix ++ $"_tk_" ++ EncodeToString (take 8 (sha256 normalizedHost))
  end.

End token.

(** ** The normal form determines the site *)

Lemma count_byte_app (s r : gostr) c : count_byte (s ++ r) c = (count_byte s c + count_byte r c)%nat.
Proof. apply count_if_app. Qed.

Lemma count_byte_cons x (s : gostr) c : count_byte (x :: s) c = ((if Ascii.eqb c x then 1 else 0) + count_byte s c)%nat.
Proof. apply count_if_cons. Qed.

Lemma count_byte_zero (s : gostr) c : count_byte s c = 0%nat ↔ c ∉ s.
Proof.
  induction s as [|x s IH]; [set_solver|]. rewrite count_byte_cons.
  destruct (Ascii.eqb_spec c x) as [->|]; [split; [lia|set_solver]|]. rewrite Nat.add_0_l, IH. set_solver.
Qed.

Lemma has_bracket x (s : gostr) : has_prefix (x :: s) $"[" = Ascii.eqb "[" x.
Proof. cbn. destruct s; by rewrite andb_true_r. Qed.

(** What [splitHostPort] gives: the shapes of the host part. *)
Inductive shape : gostr → gostr → Prop :=
| shape_open r : "]"%char ∉ r → shape ("["%char :: r) []
| shape_v6 r port : "]"%char ∉ r → shape ("["%char :: r ++ $"]") port
| shape_plain h port : has_prefix h $"[" = false → ":"%char ∉ h → ":"%char ∉ port → shape h port
| shape_colons h : has_prefix h $"[" = false → count_byte h ":" ≠ 1%nat → shape h [].

Lemma splitHostPort_shape h : shape (splitHostPort h).1 (splitHostPort h).2.
Proof.
  unfold splitHostPort. destruct (has_prefix h $"[") eqn:Hp.
  - apply has_prefix_split in Hp as [r ->]. cbn [app]. destruct (index_byte _ "]") as [i|] eqn:Ei.
    + apply index_byte_split in Ei as (a & r' & Ea & <- & Ha). destruct a as [|x a]; [done|]. injection Ea as <- ->.
      assert (Hshape : ∀ port, shape (take (S (length ("["%char :: a))) ("["%char :: a ++ "]"%char :: r')) port).
      { intros port. replace (take _ _) with ("["%char :: a ++ $"]"); [apply shape_v6; set_solver|].
        change ("["%char :: a ++ "]"%char :: r') with (("["%char :: a) ++ [("]"%char)] ++ r'). rewrite app_assoc.
        rewrite take_app_length' by (rewrite length_app; cbn; lia). done. }
      destruct (drop _ _) as [|c port]; [apply Hshape|]. destruct (Ascii.eqb c ":"); apply Hshape.
    + apply index_byte_none in Ei. apply shape_open. set_solver.
  - destruct (Nat.eqb_spec (count_byte h ":") 1) as [E|E]; [|by apply shape_colons].
    destruct (index_byte h ":") as [i|] eqn:Ei.
    + apply index_byte_split in Ei as (a & r & -> & <- & Ha). cbn [fst snd].
      rewrite take_app_length. rewrite count_byte_app, count_byte_cons, Ascii.eqb_refl in E.
      rewrite drop_after. apply shape_plain; [|done|apply count_byte_zero; lia].
      destruct a as [|x a]; [done|]. cbn [app] in Hp. by rewrite has_bracket in Hp |- *.
    + apply index_byte_none, count_byte_zero in Ei. lia.
Qed.

Lemma trim_dot h : trim_suffix h $"." = h ∨ h = trim_suffix h $"." ++ $".".
Proof.
  unfold trim_suffix. destruct (has_suffix h $".") eqn:E; [|by left]. right.
  unfold has_suffix in E. apply has_prefix_split in E as [r Hr]. apply (f_equal reverse) in Hr.
  rewrite reverse_involutive, reverse_app in Hr. change (reverse (reverse $".")) with $"." in Hr.
  subst h. rewrite length_app.
  replace (length (reverse r) + length $"." - length $".")%nat with (length (reverse r)) by lia. by rewrite take_app_length.
Qed.

Lemma shape_trim h port : shape h port → trim_suffix h $"." ≠ [] → shape (trim_suffix h $".") port.
Proof.
  intros Hs Hne. destruct (trim_dot h) as [->|E]; [done|]. revert Hne E. generalize (trim_suffix h $"."). intros t Hne E.
  destruct Hs as [r Hr|r port Hr|h port Hp Hc Hport|h Hp Hc].
  - destruct t as [|x t]; [done|]. injection E as <- ->. apply shape_open. set_solver.
  - exfalso. change ("["%char :: r ++ $"]") with (("["%char :: r) ++ $"]") in E. apply app_inj_2 in E as [_ E]; done.
  - subst h. apply shape_plain; [|set_solver|done]. destruct t as [|x t]; [done|]. cbn [app] in Hp. by rewrite has_bracket in Hp |- *.
  - subst h. apply shape_colons.
    + destruct t as [|x t]; [done|]. cbn [app] in Hp. by rewrite has_bracket in Hp |- *.
    + rewrite count_byte_app in Hc. cbn in Hc. lia.
Qed.

(** The parts can be read back. *)
Lemma split_render h port : shape h port → h ≠ [] → splitHostPort (render h port) = (h, port).
Proof.
  intros Hs Hne. unfold splitHostPort. destruct Hs as [r Hr|r port Hr|h port Hp Hc Hport|h Hp Hc].
  - cbn [render]. rewrite (proj2 (has_prefix_split _ _)) by by exists r.
    rewrite (proj2 (index_byte_none _ _)) by set_solver. done.
  - assert (E : render ("["%char :: r ++ $"]") port = ("["%char :: r) ++ "]"%char :: (match port with [] => [] | _ => ":"%char :: port end)).
    { destruct port; cbn [render]; [done|]. cbn. by rewrite <- app_assoc. }
    rewrite E, (proj2 (has_prefix_split _ _)) by by eexists.
    rewrite index_byte_first by set_solver.
    change ("["%char :: r ++ $"]") with (("["%char :: r) ++ $"]").
    set (a := "["%char :: r). set (tl := match port with [] => [] | _ => _ end).
    assert (Ht : take (S (length a)) (a ++ "]"%char :: tl) = a ++ $"]").
    { change ("]"%char :: tl) with ($"]" ++ tl). rewrite app_assoc.
      rewrite take_app_length' by (rewrite length_app; cbn; lia). done. }
    assert (Hd : drop (S (length a)) (a ++ "]"%char :: tl) = tl).
    { change ("]"%char :: tl) with ($"]" ++ tl). rewrite app_assoc.
      rewrite drop_app_length' by (rewrite length_app; cbn; lia). done. }
    rewrite Ht, Hd. subst tl. by destruct port.
  - assert (Hnp : ∀ s, has_prefix (h ++ s) $"[" = false).
    { intros s. destruct h as [|x h]; [done|]. cbn [app]. by rewrite has_bracket in Hp |- *. }
    destruct port as [|p0 port]; cbn [render].
    + rewrite Hp. rewrite (proj2 (count_byte_zero h ":")) by done. done.
    + rewrite Hnp. rewrite !count_byte_app, (proj2 (count_byte_zero h ":")), (proj2 (count_byte_zero (p0 :: port) ":")) by done.
      change (0 + (count_byte $":" ":" + 0) =? 1)%nat with true. cbn match.
      change (h ++ $":" ++ p0 :: port) with (h ++ ":"%char :: p0 :: port). rewrite index_byte_first by done.
      by rewrite take_app_length, drop_after.
  - cbn [render]. rewrite Hp. by rewrite (proj2 (Nat.eqb_neq _ _)).
Qed.

Lemma site_of_shape host tls hp port : site_of host tls = Some (hp, port) → shape hp port ∧ hp ≠ [].
Proof.
  unfold site_of. destruct (to_lower (trim_space host)) as [|c r]; [done|].
  set (h := match last_index_byte (c :: r) "@" with Some i => _ | None => _ end).
  pose proof (splitHostPort_shape h) as Hs. destruct (splitHostPort h) as [hp0 port0]. cbn [fst snd] in Hs.
  destruct (trim_suffix hp0 $".") as [|d t] eqn:E; [done|].
  assert (Hs' : shape (d :: t) port0) by (rewrite <- E; apply shape_trim; [done|by rewrite E]).
  intros [= <- <-]. split; [|done]. destruct (is_default tls port0); [|done].
  inversion Hs'; subst; first [by constructor | apply shape_plain; [done|done|set_solver]].
Qed.

(** one identity per site.  Two Host headers get the same normal form exactly when
    they name the same host (a final dot and user information apart) and the same
    port, the scheme's default port counting as none: a token of [oa.x:7013] is never
    bound to [oa.x:7014], nor an IPv6 host confused with a host and port. *)
Theorem NormalizeHost_identity host tls host' tls' :
  NormalizeHost host tls ≠ [] →
  (NormalizeHost host tls = NormalizeHost host' tls' ↔ site_of host tls = site_of host' tls').
Proof.
  intros Hne. split; [|unfold NormalizeHost; by intros ->]. revert Hne. unfold NormalizeHost.
  destruct (site_of host tls) as [[hp port]|] eqn:E1; [|done].
  destruct (site_of_shape _ _ _ _ E1) as [Hs1 Hh1].
  destruct (site_of host' tls') as [[hp' port']|] eqn:E2; [|done].
  destruct (site_of_shape _ _ _ _ E2) as [Hs2 Hh2].
  intros _ E. pose proof (split_render _ _ Hs1 Hh1) as R1. rewrite E, split_render in R1 by done. congruence.
Qed.

(** ** Cookie names *)

Lemma hex_byte_inj c d : hex_byte c = hex_byte d → c = d.
Proof.
  intros E. rewrite <- (chr_code c), <- (chr_code d). f_equal. unfold hex_byte in E.
  assert (Hd : ∀ x y, 0 <= x < 16 → 0 <= y < 16 → digit_char x = digit_char y → x = y).
  { intros x y Hx Hy Hxy. assert (Hdec : ∀ x, 0 <= x < 16 → digit_val (digit_char x) = x).
    { intros z Hz. assert (Hall : forallb (λ n, digit_val (digit_char (Z.of_nat n)) =? Z.of_nat n) (seq 0 16) = true)
        by (vm_compute; reflexivity).
      rewrite forallb_forall in Hall. specialize (Hall (Z.to_nat z)). rewrite Z2Nat.id in Hall by lia.
      apply Z.eqb_eq, Hall, in_seq. lia. }
    rewrite <- (Hdec x), <- (Hdec y) by done. by rewrite Hxy. }
  pose proof (code_range c). pose proof (code_range d). injection E as E1 E2.
  apply Hd in E1; [|split; [apply Z.div_pos|apply Z.div_lt_upper_bound]; lia..].
  apply Hd in E2; [|apply Z.mod_pos_bound; lia..].
  rewrite (Z.div_mod (code c) 16), (Z.div_mod (code d) 16) by lia. by rewrite E1, E2.
Qed.

Lemma EncodeToString_inj a b : EncodeToString a = EncodeToString b → a = b.
Proof.
  revert b. induction a as [|c a IH]; intros [|d b]; [done..|]. unfold EncodeToString in *. cbn [map concat]. intros E.
  apply app_inj_1 in E as [E1 E2]; [|done]. apply hex_byte_inj in E1. subst. f_equal. by apply IH.
Qed.

(** cookies do not collide by design.  When two sites get the same token cookie, the
    first eight bytes of their digests agree; and every such name starts with the
    configured prefix, so the stripping of the gate's cookies removes it. *)
Theorem TokenCookieName_slots sha256 prefix h h' :
  h ≠ [] → h' ≠ [] → prefix ≠ [] →
  (TokenCookieName sha256 prefix h = TokenCookieName sha256 prefix h' → take 8 (sha256 h) = take 8 (sha256 h')) ∧
  has_prefix (TokenCookieName sha256 prefix h) prefix = true.
Proof.
  intros Hh Hh' Hp. destruct h as [|c h]; [done|]. destruct h' as [|c' h']; [done|]. destruct prefix as [|p prefix]; [done|].
  unfold TokenCookieName. split.
  - intros E. apply app_inv_head, app_inv_head in E. by apply EncodeToString_inj.
  - apply has_prefix_split. by eexists.
Qed.

End hosts.
End Hosts.

Module CORS.

Definition corsDefaultMethods : gostr := $"GET,POST,PUT,PATCH,DELETE,OPTIONS".
Definition corsDefaultMaxAge : Z := 600.
Definition corsMaxAgeCap : Z := 7200.
Definition corsMaxOrigins : nat := 64.
Definition corsMaxOriginLen : nat := 512.
Definition corsMaxHeaderLen : nat := 1024.

Record CORSPolicy := mkPolicy { AllowOrigins : list gostr; AllowMethods : gostr; AllowHeaders : gostr; MaxAge : Z }.

Definition Enabled (p : CORSPolicy) : bool := (0 <? length (AllowOrigins p))%nat.

(** Response headers: [Set] replaces, [Add] appends.  The names are canonical. *)
Abbreviation headers := (gmap gostr (list gostr)).
Definition hset (h : headers) (k v : gostr) : headers := <[k := [v]]> h.
Definition hadd (h : headers) (k v : gostr) : headers := <[k := default [] (h !! k) ++ [v]]> h.

Definition AllowOriginName : gostr := $"Access-Control-Allow-Origin".

Section cors.
Context `{UnicodeCase}.

Definition normalizeOrigin (item : gostr) : gostr :=
  let o := to_lower (trim_space item) in
  if bool_decide (o = []) || bool_decide (o = $"*") || bool_decide (o = $"null") then []
  else if (corsMaxOriginLen <? length o)%nat then []
  else if contains_any o [chr 13; chr 10; chr 9; " "%char] then []
  else
    let check rest := match rest with [] => [] | _ => if contains_any rest $"/?#\" then [] else o end in
    if has_prefix o $"http://" then check (drop 7 o)
    else if has_prefix o $"https://" then check (drop 8 o)
    else [].

(** The loop, with the origins collected so far, which are also the ones seen. *)
Fixpoint collect_origins (lines : list gostr) (out : list gostr) : list gostr :=
  match lines with
  | [] => out
  | line :: lines' =>
      match normalizeOrigin line with
      | [] => collect_origins lines' out
      | o =>
          if bool_decide (o ∈ out) then collect_origins lines' out
          else if (corsMaxOrigins <=? length (out ++ [o]))%nat then out ++ [o]
          else collect_origins lines' (out ++ [o])
      end
  end.

Definition BuildAllowOrigins (raw : gostr) : list gostr :=
  match trim_space raw with [] => [] | _ => collect_origins (PathMatch.entries raw) [] end.

Definition RequestOrigin (r : request) : gostr :=
  match default [] (r_header r !! $"Origin") with [v] => trim_space v | _ => [] end.

Definition MatchOrigin (origin : gostr) (allow : list gostr) : option gostr :=
  if bool_decide (origin = []) || (length allow =? 0)%nat then None
  else
    let o := to_lower (trim_space origin) in
    if bool_decide (o = []) || bool_decide (o = $"null") || bool_decide (o = $"*") then None
    else find (λ item, bool_decide (item = o)) allow.

Definition IsPreflight (r : request) : bool :=
  bool_decide (r_method r = $"OPTIONS") && negb (bool_decide (RequestOrigin r = [])) &&
  negb (bool_decide (trim_space (header_get r $"Access-Control-Request-Method") = [])).

Definition WriteCORSHeaders (h : headers) (allowedOrigin : gostr) : headers :=
  let h := hset h AllowOriginName allowedOrigin in
  let h := hset h $"Access-Control-Allow-Credentials" $"true" in
  let h := hset h $"Access-Control-Expose-Headers" $"X-SamWaf-Access" in
  hadd h $"Vary" $"Origin".

Definition is_control (c : ascii) : bool := (code c <? 32) || (code c =? 127).

Definition SanitizeHeaderValue (v : gostr) : gostr :=
  match trim_space v with
  | [] => []
  | v =>
      let v := if (corsMaxHeaderLen <? length v)%nat then take corsMaxHeaderLen v else v in
      trim_space (List.filter (λ c, negb (is_control c)) v)
  end.

Definition WritePreflightHeaders (h : headers) (r : request) (allowedOrigin : gostr) (p : CORSPolicy) : headers :=
  let h := WriteCORSHeaders h allowedOrigin in
  let methods := match AllowMethods p with [] => corsDefaultMethods | m => m end in
  let h := hset h $"Access-Control-Allow-Methods" methods in
  let allowHeaders := match AllowHeaders p with
                      | [] => SanitizeHeaderValue (header_get r $"Access-Control-Request-Headers")
                      | a => a
                      end in
  let h := match allowHeaders with [] => h | a => hset h $"Access-Control-Allow-Headers" a end in
  let maxAge := if MaxAge p <=? 0 then corsDefaultMaxAge else MaxAge p in
  let maxAge := if corsMaxAgeCap <? maxAge then corsMaxAgeCap else maxAge in
  let h := hset h $"Access-Control-Max-Age" (itoa maxAge) in
  hadd h $"Vary" $"Access-Control-Request-Headers".

Definition AddVaryOrigin (h : headers) : headers := hadd h $"Vary" $"Origin".

Definition ResolveCORSPolicy (hostOrigins hostMethods hostHeaders : gostr) (hostMaxAge : Z) (g : CORSPolicy) : CORSPolicy :=
  let t := trim_space hostOrigins in
  mkPolicy
    (if bool_decide (t = []) then AllowOrigins g
     else if bool_decide (t = $"-") then [] else BuildAllowOrigins hostOrigins)
    (match SanitizeHeaderValue hostMethods with [] => AllowMethods g | m => m end)
    (match SanitizeHeaderValue hostHeaders with [] => AllowHeaders g | a => a end)
    (if 0 <? hostMaxAge then hostMaxAge else MaxAge g).

(** ** What an allowed origin is *)

Record valid_origin (o : gostr) : Prop := {
  vo_scheme : ∃ rest, (o = $"http://" ++ rest ∨ o = $"https://" ++ rest) ∧ rest ≠ [] ∧ contains_any rest $"/?#\" = false;
  vo_space : contains_any o [chr 13; chr 10; chr 9; " "%char] = false;
  vo_length : (length o ≤ corsMaxOriginLen)%nat;
}.

Lemma normalizeOrigin_ok item : normalizeOrigin item = [] ∨ valid_origin (normalizeOrigin item) ∧ normalizeOrigin item = to_lower (trim_space item).
Proof.
  unfold normalizeOrigin. set (o := to_lower (trim_space item)).
  destruct (bool_decide (o = []) || _ || _); [by left|].
  destruct (Nat.ltb_spec corsMaxOriginLen (length o)); [by left|].
  destruct (contains_any o _) eqn:Es; [by left|].
  destruct (has_prefix o $"http://") eqn:E1; [|destruct (has_prefix o $"https://") eqn:E2; [|by left]].
  - apply has_prefix_split in E1 as [rest Hr]. assert (Hd : drop 7 o = rest) by (by rewrite Hr).
    rewrite Hd. destruct rest as [|c rest]; [by left|]. destruct (contains_any (c :: rest) _) eqn:Ec; [by left|].
    right. split; [|done]. split; [|done|done]. exists (c :: rest). split; [by left|done].
  - apply has_prefix_split in E2 as [rest Hr]. assert (Hd : drop 8 o = rest) by (by rewrite Hr).
    rewrite Hd. destruct rest as [|c rest]; [by left|]. destruct (contains_any (c :: rest) _) eqn:Ec; [by left|].
    right. split; [|done]. split; [|done|done]. exists (c :: rest). split; [by right|done].
Qed.

Lemma collect_origins_ok lines out :
  Forall valid_origin out → NoDup out → (length out < corsMaxOrigins)%nat →
  Forall valid_origin (collect_origins lines out) ∧ NoDup (collect_origins lines out) ∧
  (length (collect_origins lines out) ≤ corsMaxOrigins)%nat.
Proof.
  revert out. induction lines as [|line lines IH]; intros out Hv Hn Hl; cbn [collect_origins]; [repeat split; try done; lia|].
  destruct (normalizeOrigin_ok line) as [-> | [Hok _]]; [by apply IH|].
  destruct (normalizeOrigin line) as [|c o]; [by apply IH|]. case_bool_decide as Hin; [by apply IH|].
  assert (Hv' : Forall valid_origin (out ++ [c :: o])) by (apply Forall_app; split; [done|by constructor]).
  assert (Hn' : NoDup (out ++ [c :: o])).
  { apply NoDup_app. split; [done|]. split; [set_solver|apply NoDup_singleton]. }
  destruct (Nat.leb_spec corsMaxOrigins (length (out ++ [c :: o]))) as [Hf|]; [|by apply IH].
  split; [done|]. split; [done|]. rewrite length_app in *. cbn in *. lia.
Qed.

Lemma MatchOrigin_in origin allow o :
  MatchOrigin origin allow = Some o → o ∈ allow ∧ o = to_lower (trim_space origin) ∧ o ≠ $"*" ∧ o ≠ $"null".
Proof.
  unfold MatchOrigin. destruct (bool_decide (origin = []) || _); [done|].
  case_bool_decide; [done|]. case_bool_decide; [done|]. case_bool_decide; [done|]. cbn [orb].
  intros [Hin E]%find_some. prop_of_bool. apply list_elem_of_In in Hin. by subst.
Qed.

(** the cross-origin allow list.  Whatever text is saved, the list holds at most 64
    different origins, each a scheme and a host with an optional port and nothing
    else, never the wildcard and never [null]; and an origin matches only when it is,
    trimmed and lowered, one of them byte for byte. *)
Theorem BuildAllowOrigins_safe raw origin o :
  (length (BuildAllowOrigins raw) ≤ 64)%nat ∧ NoDup (BuildAllowOrigins raw) ∧
  Forall valid_origin (BuildAllowOrigins raw) ∧
  (MatchOrigin origin (BuildAllowOrigins raw) = Some o →
   o ∈ BuildAllowOrigins raw ∧ o = to_lower (trim_space origin) ∧ o ≠ $"*" ∧ valid_origin o).
Proof.
  assert (Hb : Forall valid_origin (BuildAllowOrigins raw) ∧ NoDup (BuildAllowOrigins raw) ∧
    (length (BuildAllowOrigins raw) ≤ 64)%nat).
  { unfold BuildAllowOrigins. destruct (trim_space raw); [by repeat constructor|].
    apply collect_origins_ok; [constructor|constructor|cbn; unfold corsMaxOrigins; lia]. }
  destruct Hb as (Hv & Hn & Hl). split; [done|]. split; [done|]. split; [done|].
  intros (Hin & Ho & Hs & _)%MatchOrigin_in. split; [done|]. split; [done|]. split; [done|].
  rewrite Forall_forall in Hv. by apply Hv.
Qed.

Definition clean (s : gostr) : Prop := forallb (λ c, negb (is_control c)) s = true.

Lemma clean_app s r : clean (s ++ r) → clean s ∧ clean r.
Proof. unfold clean. rewrite forallb_app, andb_true_iff. done. Qed.

Lemma clean_trim s : clean s → clean (trim_space s).
Proof.
  intros Hs. unfold trim_space. destruct (trim_space_left_suffix space_encodings (length s) s) as [p E].
  set (l := trim_space_left space_encodings (length s) s) in *. rewrite E in Hs. apply clean_app in Hs as [_ Hl].
  destruct (trim_space_left_suffix (map reverse space_encodings) (length l) (reverse l)) as [q Eq].
  apply (f_equal reverse) in Eq. rewrite reverse_involutive, reverse_app in Eq. rewrite Eq in Hl. by apply clean_app in Hl as [Hl _].
Qed.

Lemma clean_filter s : clean (List.filter (λ c, negb (is_control c)) s).
Proof. unfold clean. apply forallb_forall. intros c [_ Hc]%filter_In. done. Qed.

Lemma trim_space_length s : (length (trim_space s) ≤ length s)%nat.
Proof.
  unfold trim_space. destruct (trim_space_left_suffix space_encodings (length s) s) as [p E].
  set (l := trim_space_left space_encodings (length s) s) in *.
  destruct (trim_space_left_suffix (map reverse space_encodings) (length l) (reverse l)) as [q Eq].
  apply (f_equal length) in E, Eq. rewrite !length_app, ?length_reverse in *. lia.
Qed.

Lemma SanitizeHeaderValue_ok v : clean (SanitizeHeaderValue v) ∧ (length (SanitizeHeaderValue v) ≤ corsMaxHeaderLen)%nat.
Proof.
  unfold SanitizeHeaderValue. destruct (trim_space v) as [|c r]; [split; [done|cbn; lia]|].
  set (w := if (corsMaxHeaderLen <? length (c :: r))%nat then _ else _).
  split; [apply clean_trim, clean_filter|]. etrans; [apply trim_space_length|]. etrans; [apply List.filter_length_le|].
  unfold w. destruct (Nat.ltb_spec corsMaxHeaderLen (length (c :: r))); [rewrite length_take|]; lia.
Qed.

(** Lookups among the header names. *)
Ltac lookups := repeat first
  [ rewrite lookup_insert_eq
  | rewrite lookup_insert_ne by (apply (bool_decide_unpack _); vm_compute; exact I) ].

(** the preflight answer.  It names exactly the allowed origin it was given, with
    credentials; the header list it echoes from the client has no control character
    and at most 1024 bytes; the caching time is between 1 and 7200 seconds; and it is
    marked as varying with the origin. *)
Theorem WritePreflightHeaders_safe h r o p :
  clean (AllowHeaders p) → (length (AllowHeaders p) ≤ corsMaxHeaderLen)%nat →
  let h' := WritePreflightHeaders h r o p in
  h' !! AllowOriginName = Some [o] ∧
  h' !! $"Access-Control-Allow-Credentials" = Some [$"true"] ∧
  (h !! $"Access-Control-Allow-Headers" = None → ∀ v, h' !! $"Access-Control-Allow-Headers" = Some [v] → clean v ∧ (length v ≤ corsMaxHeaderLen)%nat) ∧
  (∃ n, h' !! $"Access-Control-Max-Age" = Some [itoa n] ∧ 1 ≤ n ≤ corsMaxAgeCap) ∧
  ∃ vs, h' !! $"Vary" = Some vs ∧ $"Origin" ∈ vs.
Proof.
  intros Hc Hl h'. set (a := match AllowHeaders p with [] => SanitizeHeaderValue (header_get r $"Access-Control-Request-Headers") | x => x end).
  assert (Ha : clean a ∧ (length a ≤ corsMaxHeaderLen)%nat).
  { unfold a. destruct (AllowHeaders p) as [|c x]; [apply SanitizeHeaderValue_ok|done]. }
  assert (Hn : ∃ n, (if corsMaxAgeCap <? (if MaxAge p <=? 0 then corsDefaultMaxAge else MaxAge p) then corsMaxAgeCap
    else (if MaxAge p <=? 0 then corsDefaultMaxAge else MaxAge p)) = n ∧ 1 ≤ n ≤ corsMaxAgeCap).
  { eexists. split; [done|]. unfold corsMaxAgeCap, corsDefaultMaxAge.
    destruct (Z.leb_spec (MaxAge p) 0); [cbn; lia|]. destruct (Z.ltb_spec 7200 (MaxAge p)); lia. }
  unfold h', WritePreflightHeaders, WriteCORSHeaders, hadd, hset. fold a. destruct Hn as (n & -> & Hn).
  assert (Hcases : (a = [] ∧ ∀ m : headers, match a with [] => m | a => <[$"Access-Control-Allow-Headers" := [a]]> m end = m) ∨
    (a ≠ [] ∧ ∀ m : headers, match a with [] => m | a => <[$"Access-Control-Allow-Headers" := [a]]> m end = <[$"Access-Control-Allow-Headers" := [a]]> m))
    by (destruct a; [left|right]; done).
  destruct Hcases as [[_ Hm]|[_ Hm]]; rewrite Hm; clear Hm; lookups.
  - split; [done|]. split; [done|]. split; [congruence|]. split; [by exists n|]. eexists. split; [done|].
    rewrite !elem_of_app. cbn [default id]. set_solver.
  - split; [done|]. split; [done|]. split; [intros _ v [= <-]; exact Ha|]. split; [by exists n|]. eexists. split; [done|].
    rewrite !elem_of_app. cbn [default id]. set_solver.
Qed.

(** a site's own list is the last word.  A site that configures origins is never
    widened by the global list, not even when all its entries are invalid; the dash
    switches cross-origin access off for it; only an empty setting inherits. *)
Theorem ResolveCORSPolicy_override origins methods hdrs age g g' :
  (trim_space origins ≠ [] →
   AllowOrigins (ResolveCORSPolicy origins methods hdrs age g) = AllowOrigins (ResolveCORSPolicy origins methods hdrs age g')) ∧
  (trim_space origins = $"-" → Enabled (ResolveCORSPolicy origins methods hdrs age g) = false) ∧
  (trim_space origins = [] → AllowOrigins (ResolveCORSPolicy origins methods hdrs age g) = AllowOrigins g) ∧
  (clean (AllowHeaders g) → clean (AllowHeaders (ResolveCORSPolicy origins methods hdrs age g))).
Proof.
  unfold ResolveCORSPolicy, Enabled. cbn [AllowOrigins AllowHeaders]. split; [|split; [|split]].
  - intros Hne. by rewrite !(bool_decide_eq_false_2 (trim_space origins = [])).
  - intros ->. done.
  - intros ->. done.
  - intros Hg. destruct (SanitizeHeaderValue_ok hdrs) as [Hc _]. by destruct (SanitizeHeaderValue hdrs).
Qed.

End cors.
Section witnesses.
Local Instance plain_case : UnicodeCase := {| unicode_to_lower s := s |}.

Definition demo_preflight : request :=
  mkRequest $"/" [] $"OPTIONS" $"oa.x" true {[$"Access-Control-Request-Headers" := [$"X-A, X-B"]]} [] ∅.

Lemma WritePreflightHeaders_safe_witness :
  WritePreflightHeaders ∅ demo_preflight $"https://oa.x:7013" (mkPolicy [] [] [] 0) !! AllowOriginName
  = Some [$"https://oa.x:7013"].
Proof.
  refine (proj1 (WritePreflightHeaders_safe ∅ demo_preflight $"https://oa.x:7013" (mkPolicy [] [] [] 0) _ _)); [reflexivity|].
  apply Nat.le_0_l.
Defined.

Lemma ResolveCORSPolicy_override_witness :
  Enabled (ResolveCORSPolicy $" - " [] [] 0 (mkPolicy [$"https://a"] [] [] 0)) = false.
Proof.
  apply (ResolveCORSPolicy_override $" - " [] [] 0 (mkPolicy [$"https://a"] [] [] 0) (mkPolicy [] [] [] 0)).
  vm_compute. reflexivity.
Defined.

Lemma BuildAllowOrigins_safe_witness :
  $"https://oa.x:7013" ∈ BuildAllowOrigins $"https://oa.x:7013, *, null, http://a/b".
Proof.
  refine (proj1 (proj2 (proj2 (proj2 (BuildAllowOrigins_safe $"https://oa.x:7013, *, null, http://a/b" $"HTTPS://OA.X:7013" $"https://oa.x:7013"))) _)).
  vm_compute. reflexivity.
Defined.
End witnesses.
End CORS.

Module HostWitnesses.
Import Hosts.
Local Instance plain_case : UnicodeCase := {| unicode_to_lower s := s |}.

Lemma NormalizeHost_identity_witness :
  NormalizeHost $"OA.x.:443" true = NormalizeHost $"oa.x" true.
Proof.
  apply (NormalizeHost_identity $"OA.x.:443" true $"oa.x" true); [vm_compute; discriminate|vm_compute; reflexivity].
Defined.

Lemma TokenCookieName_slots_witness :
  has_prefix (TokenCookieName (λ h, h) $"ac" $"oa.x") $"ac" = true.
Proof. apply (TokenCookieName_slots (λ h, h) $"ac" $"oa.x" $"oa.y"); discriminate. Defined.
End HostWitnesses.

(** ** Modes and snapshot (config.go) *)
Module Mode.
Import CORS.

Definition ModeInherit : Z := 0.
Definition ModeForceOn : Z := 1.
Definition ModeForceOff : Z := 2.

Definition IsAccessEnabled (mode : Z) (globalEnable : bool) : bool :=
  if mode =? ModeForceOn then true else if mode =? ModeForceOff then false else globalEnable.

(** The compiled configuration.  Durations are in nanoseconds. *)
Record Config := mkConfig {
  ForceDisable : bool; GlobalEnable : bool;
  CenterOrigin : gostr; CenterHost : gostr;
  PathPrefix : gostr; CookieSSOName : gostr; CookiePrefix : gostr;
  HmacSecret : gostr;
  SessionTTL : Z; TokenTTL : Z; TicketTTL : Z; IdleTimeout : Z;
  BindIP : bool; BindFingerprint : bool; RequireOtp : bool; MaxFailCount : Z; LockDuration : Z;
  GlobalExcludePaths : list gostr; BypassIPGroupCode : gostr;
  ServiceTokenHeader : gostr; ServiceTokenHashes : list gostr;
  Cors : CORSPolicy;
  UnauthAction : gostr; PassIdentityHeader : bool; ForceSecureCookie : bool; CachePositiveTTL : Z
}.

Definition disabledDefault : Config :=
  mkConfig false false [] [] $"/samwaf_access" $"samwaf_ac_sso" $"samwaf_ac" [] 0 0 0 0
    false false false 10 (3 * minute) [] [] [] [] (mkPolicy [] [] [] 0) $"auto" false false (60 * second).

(** The atomic pointer; [None] is nil. *)
Definition Get (snapshot : option Config) : Config :=
  match snapshot with Some c => c | None => disabledDefault end.
Definition SetConfig (c : option Config) : option Config :=
  match c with None => Some disabledDefault | Some c => Some c end.

Definition IsCenterMode (c : Config) : bool :=
  negb (bool_decide (CenterOrigin c = [])) && negb (bool_decide (CenterHost c = [])).

(** Before a configuration is published the gate is off for every site that does not
    force it on; and what is published is what is read. *)
Lemma Get_SetConfig c : Get (SetConfig c) = Get c.
Proof. by destruct c. Qed.

End Mode.
