(* ===== verification/AccessStore.v ===== *)
(** * Sessions, tokens, tickets and accounts of the access gate
      (service/waf_service/waf_access_session_service.go, waf_access_ticket_service.go,
      waf_access_account_service.go; model/access_session.go, access_ticket.go,
      access_account.go)

    The tables are lists of rows in primary-key order, and [First] is the first row that
    satisfies the condition; the cache is [WafCache].  One operation sees one clock
    value, in nanoseconds; a [time.Time] of zero is [zero_time], stored as NULL, which no
    SQL comparison accepts.  Statements do not fail ([Error] is nil); random secrets,
    row identifiers and the hash are arguments.  All rows belong to the one tenant. *)
From S2P Require Import Prelude.
From S2P Require Import GoLib.
From S2P Require Import GoHttp.
From S2P Require Import WafCache.
From S2P Require Import AccessGate.
Local Open Scope Z_scope.
Local Open Scope bool_scope.

Module AccessStore.
Import Mode.

Definition zero_time : Z := -62135596800 * second.
Definition is_zero (t : Z) : bool := t =? zero_time.
(** [column < x] and [column > x] of SQL. *)
Definition sql_lt (column x : Z) : bool := negb (is_zero column) && (column <? x).
Definition sql_gt (column x : Z) : bool := negb (is_zero column) && (x <? column).

Definition AccessStatusRevoked : Z := 0.
Definition AccessStatusValid : Z := 1.
Definition AccessScopeSSO : gostr := $"sso".
Definition AccessScopeLocal : gostr := $"local".
Definition AccessRevokeByAdmin : gostr := $"admin_kick".
Definition AccessRevokeByLogout : gostr := $"logout".
Definition AccessRevokeByExpire : gostr := $"expired".
Definition AccessRevokeByAccount : gostr := $"account_off".

(** ** Rows *)

Module Session.
Record AccessSession := mk {
  Id : gostr; SessionCode : gostr; AccountCode : gostr; AccountName : gostr;
  Scope : gostr; BindHost : gostr; ClientIP : gostr; Fingerprint : gostr; UserAgent : gostr;
  Country : gostr; City : gostr; Status : Z; RevokeReason : gostr;
  LoginTime : Z; LastActiveTime : Z; ExpireTime : Z; UPDATE_TIME : Z
}.
Definition revoke (reason : gostr) (now : Z) (s : AccessSession) : AccessSession :=
  mk (Id s) (SessionCode s) (AccountCode s) (AccountName s) (Scope s) (BindHost s) (ClientIP s) (Fingerprint s)
     (UserAgent s) (Country s) (City s) AccessStatusRevoked reason (LoginTime s) (LastActiveTime s) (ExpireTime s) now.
Definition touch (now : Z) (s : AccessSession) : AccessSession :=
  mk (Id s) (SessionCode s) (AccountCode s) (AccountName s) (Scope s) (BindHost s) (ClientIP s) (Fingerprint s)
     (UserAgent s) (Country s) (City s) (Status s) (RevokeReason s) (LoginTime s) now (ExpireTime s) (UPDATE_TIME s).
(** What [json.Marshal] then [json.Unmarshal] make of the row: [JsonTime] is written to
    the second without its zone and read back as UTC; [zone] is the offset in seconds. *)
Definition json_time (zone t : Z) : Z := if is_zero t then t else (t / second + zone) * second.
Definition json (zone : Z) (s : AccessSession) : AccessSession :=
  mk (Id s) (SessionCode s) (AccountCode s) (AccountName s) (Scope s) (BindHost s) (ClientIP s) (Fingerprint s)
     (UserAgent s) (Country s) (City s) (Status s) (RevokeReason s) (json_time zone (LoginTime s))
     (json_time zone (LastActiveTime s)) (json_time zone (ExpireTime s)) (json_time zone (UPDATE_TIME s)).
End Session.

Module Token.
Record AccessToken := mk {
  TokenCode : gostr; SessionCode : gostr; AccountName : gostr; Host : gostr; HostCode : gostr;
  ClientIP : gostr; Fingerprint : gostr; Status : Z; LastActiveTime : Z; ExpireTime : Z; UPDATE_TIME : Z
}.
Definition revoke (now : Z) (t : AccessToken) : AccessToken :=
  mk (TokenCode t) (SessionCode t) (AccountName t) (Host t) (HostCode t) (ClientIP t) (Fingerprint t)
     AccessStatusRevoked (LastActiveTime t) (ExpireTime t) now.
Definition touch (now : Z) (t : AccessToken) : AccessToken :=
  mk (TokenCode t) (SessionCode t) (AccountName t) (Host t) (HostCode t) (ClientIP t) (Fingerprint t)
     (Status t) now (ExpireTime t) (UPDATE_TIME t).
End Token.

Module Ticket.
Record AccessTicket := mk {
  TicketCode : gostr; SessionCode : gostr; AccountCode : gostr; AccountName : gostr; TargetHost : gostr;
  ReturnTo : gostr; ClientIP : gostr; Fingerprint : gostr; Used : Z; UsedTime : Z; ExpireTime : Z
}.
Definition use (now : Z) (t : AccessTicket) : AccessTicket :=
  mk (TicketCode t) (SessionCode t) (AccountCode t) (AccountName t) (TargetHost t) (ReturnTo t)
     (ClientIP t) (Fingerprint t) 1 now (ExpireTime t).
End Ticket.

Module Account.
Definition AccessAccountStatusDisable : Z := 0.
Definition AccessAccountStatusEnable : Z := 1.
Definition AccessOtpInherit : Z := 0.
Definition AccessOtpForce : Z := 1.
Definition AccessOtpExempt : Z := 2.
Record AccessAccount := mk {
  Id : gostr; AccountName : gostr; Password : gostr; Status : Z; OtpSecret : gostr; OtpBound : Z; ForceOtp : Z;
  AllowHostCodes : gostr; ExpireTime : Z; LastLoginTime : Z; LastLoginIP : gostr;
  NickName : gostr; PwdUpdateTime : Z; Remarks : gostr; UPDATE_TIME : Z
}.
End Account.

(** [AccessState]: the conditions a token was issued under. *)
Module State.
Record AccessState := mk {
  SessionCode : gostr; AccountCode : gostr; AccountName : gostr; ExpireUnix : Z;
  Host : gostr; HostCode : gostr; ClientIP : gostr; Fingerprint : gostr
}.
Definition matchBindings (s : AccessState) (host hostCode clientIP fingerprint : gostr) (cfg : Config) : bool :=
  if bool_decide (HostCode s = []) || bool_decide (hostCode = []) || negb (bool_decide (HostCode s = hostCode)) then false
  else if negb (equal_fold (Host s) host) then false
  else if BindIP cfg && negb (bool_decide (ClientIP s = [])) && negb (bool_decide (ClientIP s = clientIP)) then false
  else if BindFingerprint cfg && negb (bool_decide (Fingerprint s = [])) && negb (bool_decide (Fingerprint s = fingerprint)) then false
  else true.
End State.

(** The values this component keeps in the cache. *)
Record otpStage := mkStage { AccountId : gostr; Rq : gostr; StageHost : gostr }.
Inductive aval :=
| VState (s : State.AccessState) | VSession (s : Session.AccessSession) | VStr (s : gostr)
| VStage (s : otpStage) | VInt (n : Z).

Definition CACHE_ACCESS_TOKEN : gostr := $"CACHE_ACCESS_TOKEN_".
Definition CACHE_ACCESS_SESSION : gostr := $"CACHE_ACCESS_SESSION_".
Definition CACHE_ACCESS_BAD : gostr := $"CACHE_ACCESS_BAD_".
Definition CACHE_ACCESS_FAIL : gostr := $"CACHE_ACCESS_FAIL_".
Definition CACHE_ACCESS_LOCK : gostr := $"CACHE_ACCESS_LOCK_".
Definition CACHE_ACCESS_STAGE : gostr := $"CACHE_ACCESS_STAGE_".
Definition CACHE_ACCESS_OTPFAIL : gostr := $"CACHE_ACCESS_OTPFAIL_".

(** What the handlers hand to the audit service ([waf_service.AuditEntry]; the free text
    is left out), in order: throttling, storage and notification come after. *)
Record AuditEntry := mkAudit {
  Event : gostr; AAccountName : gostr; ASessionCode : gostr; AHost : gostr; AHostCode : gostr; AClientIP : gostr; AResult : Z
}.

Record store := mkStore {
  sessions : list Session.AccessSession; tokens : list Token.AccessToken;
  tickets : list Ticket.AccessTicket; accounts : list Account.AccessAccount;
  cache : gmap gostr (WafCache.WafCacheItem aval); audits : list AuditEntry
}.

(** ** The state monad of the services *)

Definition M (A : Type) : Type := store → store * A.
#[global] Instance M_ret : MRet M := λ A a st, (st, a).
#[global] Instance M_bind : MBind M := λ A B f m st, let '(st', a) := m st in f a st'.
Definition gets {A} (f : store → A) : M A := λ st, (st, f st).
Definition modify (f : store → store) : M unit := λ st, (f st, ()).

Definition on_sessions (f : list Session.AccessSession → list Session.AccessSession) : M unit :=
  modify (λ st, mkStore (f (sessions st)) (tokens st) (tickets st) (accounts st) (cache st) (audits st)).
Definition on_tokens (f : list Token.AccessToken → list Token.AccessToken) : M unit :=
  modify (λ st, mkStore (sessions st) (f (tokens st)) (tickets st) (accounts st) (cache st) (audits st)).
Definition on_tickets (f : list Ticket.AccessTicket → list Ticket.AccessTicket) : M unit :=
  modify (λ st, mkStore (sessions st) (tokens st) (f (tickets st)) (accounts st) (cache st) (audits st)).
Definition on_accounts (f : list Account.AccessAccount → list Account.AccessAccount) : M unit :=
  modify (λ st, mkStore (sessions st) (tokens st) (tickets st) (f (accounts st)) (cache st) (audits st)).
Definition on_cache {A} (f : gmap gostr (WafCache.WafCacheItem aval) → gmap gostr (WafCache.WafCacheItem aval) * A) : M A :=
  λ st, let '(c, a) := f (cache st) in (mkStore (sessions st) (tokens st) (tickets st) (accounts st) c (audits st), a).
Definition write_audit (e : AuditEntry) : M unit :=
  modify (λ st, mkStore (sessions st) (tokens st) (tickets st) (accounts st) (cache st) (audits st ++ [e])).

(** [UPDATE ... WHERE]. *)
Definition update_where {A} (p : A → bool) (f : A → A) (rows : list A) : list A :=
  map (λ r, if p r then f r else r) rows.
Definition for_each {A} (f : A → M unit) : list A → M unit :=
  fix go l := match l with [] => mret () | x :: l' => f x;; go l' end.

Section services.
Context `{UnicodeCase}.
(** crypto/sha256, the IP database, the offset of the server's zone. *)
Variable sha256 : gostr → gostr.
Variable lookupLocation : gostr → gostr * gostr.
Variable zone : Z.

Definition HashAccessCode (plain : gostr) : gostr := Hosts.EncodeToString (sha256 plain).
(** [genAccessSecret] from the bytes read; [None] when the read fails. *)
Definition genAccessSecret (rand : option gostr) : result unit gostr :=
  match rand with Some buf => Ok (Hosts.EncodeToString buf) | None => Err () end.
Definition truncate (s : gostr) (max : nat) : gostr := if (length s <=? max)%nat then s else take max s.

Definition touchIntervalMinutes : Z := 5.
Definition AccessDefaultCachePosTTL : Z := 60.

Section at_time.
Variable now : Z.
Definition now_unix : Z := unix now.

Definition cache_get (key : gostr) : M (option aval) := on_cache (λ c, WafCache.Get c now key).
Definition cache_exists (key : gostr) : M bool := on_cache (λ c, WafCache.IsKeyExist c now key).
Definition cache_set (key : gostr) (v : aval) (ttl : Z) : M unit := on_cache (λ c, (WafCache.SetWithTTl c now key v ttl, ())).
Definition cache_remove (key : gostr) : M unit := on_cache (λ c, (WafCache.Remove c key, ())).

(** ** Issuing *)

Definition CreateSession (id : gostr) (rand : option gostr) (acct : Account.AccessAccount)
    (scope bindHost clientIP fingerprint userAgent : gostr) (cfg : Config) : M (result unit (gostr * Session.AccessSession)) :=
  match genAccessSecret rand with
  | Err e => mret (Err e)
  | Ok plain =>
      let (country, city) := lookupLocation clientIP in
      let bean := Session.mk id (HashAccessCode plain) (Account.Id acct) (Account.AccountName acct) scope (to_lower bindHost)
                    clientIP fingerprint (truncate userAgent 500) country city AccessStatusValid [] now now (now + SessionTTL cfg) now in
      on_sessions (λ rows, rows ++ [bean]);; mret (Ok (plain, bean))
  end.

Definition IssueToken (rand : option gostr) (sess : Session.AccessSession) (host hostCode clientIP fingerprint : gostr)
    (cfg : Config) : M (result unit gostr) :=
  match genAccessSecret rand with
  | Err e => mret (Err e)
  | Ok plain =>
      let expire := now + TokenTTL cfg in
      let sessExpire := Session.ExpireTime sess in
      let expire := if negb (is_zero sessExpire) && (sessExpire <? expire) then sessExpire else expire in
      on_tokens (λ rows, rows ++ [Token.mk (HashAccessCode plain) (Session.SessionCode sess) (Session.AccountName sess)
        (to_lower host) hostCode clientIP fingerprint AccessStatusValid now expire now]);;
      mret (Ok plain)
  end.

(** ** Validation *)

Definition markBad (code : gostr) : M unit :=
  cache_set (CACHE_ACCESS_BAD ++ code) (VStr $"1") (AccessDefaultCachePosTTL * second).

Definition touchToken (token : Token.AccessToken) : M unit :=
  let last := Token.LastActiveTime token in
  if negb (is_zero last) && (now - last <? touchIntervalMinutes * minute) then mret ()
  else on_tokens (update_where (λ t, bool_decide (Token.TokenCode t = Token.TokenCode token)) (Token.touch now)).

Definition touchSession (sess : Session.AccessSession) : M unit :=
  let last := Session.LastActiveTime sess in
  if negb (is_zero last) && (now - last <? touchIntervalMinutes * minute) then mret ()
  else
    on_sessions (update_where (λ s, bool_decide (Session.SessionCode s = Session.SessionCode sess)) (Session.touch now));;
    cache_remove (CACHE_ACCESS_SESSION ++ Session.SessionCode sess).

Definition of_session (code : gostr) (t : Token.AccessToken) : bool := bool_decide (Token.SessionCode t = code).
Definition has_code (code : gostr) (s : Session.AccessSession) : bool := bool_decide (Session.SessionCode s = code).
Definition valid_session (code : gostr) (s : Session.AccessSession) : bool :=
  has_code code s && (Session.Status s =? AccessStatusValid).

Definition revokeSessionRows (sessionCode reason : gostr) : M (list gostr) :=
  toks ← gets (λ st, List.filter (of_session sessionCode) (tokens st));
  on_sessions (update_where (has_code sessionCode) (Session.revoke reason now));;
  on_tokens (update_where (of_session sessionCode) (Token.revoke now));;
  mret (map Token.TokenCode toks).

Definition load_from_db (sessionCode : gostr) (cfg : Config) : M (option Session.AccessSession) :=
  row ← gets (λ st, List.find (valid_session sessionCode) (sessions st));
  match row with
  | None => mret None
  | Some sess =>
      if Session.ExpireTime sess <? now then mret None
      else
        let last := Session.LastActiveTime sess in
        if (0 <? IdleTimeout cfg) && negb (is_zero last) && (IdleTimeout cfg <? now - last) then
          revokeSessionRows (Session.SessionCode sess) AccessRevokeByExpire;; mret None
        else
          cache_set (CACHE_ACCESS_SESSION ++ sessionCode) (VSession sess) (CachePositiveTTL cfg);;
          mret (Some sess)
  end.

Definition loadValidSession (sessionCode : gostr) (cfg : Config) : M (option Session.AccessSession) :=
  if bool_decide (sessionCode = []) then mret None
  else
    cached ← cache_get (CACHE_ACCESS_SESSION ++ sessionCode);
    match cached with
    | Some (VSession s) =>
        let s := Session.json zone s in
        if negb (bool_decide (Session.SessionCode s = [])) && (now <? Session.ExpireTime s) then mret (Some s)
        else load_from_db sessionCode cfg
    | _ => load_from_db sessionCode cfg
    end.

Definition valid_token (code : gostr) (t : Token.AccessToken) : bool :=
  bool_decide (Token.TokenCode t = code) && (Token.Status t =? AccessStatusValid).

Definition state_of (sess : Session.AccessSession) (token : Token.AccessToken) : State.AccessState :=
  State.mk (Session.SessionCode sess) (Session.AccountCode sess) (Session.AccountName sess) (unix (Token.ExpireTime token))
    (Token.Host token) (Token.HostCode token) (Token.ClientIP token) (Token.Fingerprint token).

(** The slow path of [ValidateToken], after both caches have missed. *)
Definition validate_from_db (code host hostCode clientIP fingerprint : gostr) (cfg : Config) : M (option State.AccessState) :=
  row ← gets (λ st, List.find (valid_token code) (tokens st));
  match row with
  | None => markBad code;; mret None
  | Some token =>
      if Token.ExpireTime token <? now then markBad code;; mret None
      else
        sess ← loadValidSession (Token.SessionCode token) cfg;
        match sess with
        | None => markBad code;; mret None
        | Some sess =>
            let st := state_of sess token in
            cache_set (CACHE_ACCESS_TOKEN ++ code) (VState st) (CachePositiveTTL cfg);;
            if negb (State.matchBindings st host hostCode clientIP fingerprint cfg) then mret None
            else touchToken token;; mret (Some st)
        end
  end.

Definition ValidateToken (plain host hostCode clientIP fingerprint : gostr) (cfg : Config) : M (option State.AccessState) :=
  if bool_decide (plain = []) then mret None
  else
    let code := HashAccessCode plain in
    bad ← cache_exists (CACHE_ACCESS_BAD ++ code);
    if (bad : bool) then mret None
    else
      cached ← cache_get (CACHE_ACCESS_TOKEN ++ code);
      match cached with
      | Some (VState s) =>
          if negb (bool_decide (State.SessionCode s = [])) && (now_unix <? State.ExpireUnix s) then
            if negb (State.matchBindings s host hostCode clientIP fingerprint cfg) then mret None else mret (Some s)
          else validate_from_db code host hostCode clientIP fingerprint cfg
      | _ => validate_from_db code host hostCode clientIP fingerprint cfg
      end.

Definition ValidateSSOSession (plain host clientIP fingerprint : gostr) (cfg : Config) : M (option Session.AccessSession) :=
  if bool_decide (plain = []) then mret None
  else
    sess ← loadValidSession (HashAccessCode plain) cfg;
    match sess with
    | None => mret None
    | Some sess =>
        if bool_decide (Session.Scope sess = AccessScopeLocal) && negb (bool_decide (Session.BindHost sess = []))
           && negb (equal_fold (Session.BindHost sess) host) then mret None
        else if BindIP cfg && negb (bool_decide (Session.ClientIP sess = [])) && negb (bool_decide (Session.ClientIP sess = clientIP)) then mret None
        else if BindFingerprint cfg && negb (bool_decide (Session.Fingerprint sess = [])) && negb (bool_decide (Session.Fingerprint sess = fingerprint)) then mret None
        else touchSession sess;; mret (Some sess)
    end.

(** ** Revocation *)

Definition kick_token (code : gostr) : M unit := cache_remove (CACHE_ACCESS_TOKEN ++ code);; markBad code.

Definition kickCache (sessionCode : gostr) (tokenCodes : list gostr) : M unit :=
  (if bool_decide (sessionCode = []) then mret () else cache_remove (CACHE_ACCESS_SESSION ++ sessionCode));;
  for_each kick_token tokenCodes.

(** The rows first, then the cache.  [Err]: an empty code. *)
Definition RevokeSession (sessionCode reason : gostr) : M (result unit unit) :=
  if bool_decide (sessionCode = []) then mret (Err ())
  else
    tokenCodes ← revokeSessionRows sessionCode reason;
    kickCache sessionCode tokenCodes;; mret (Ok ()).

Definition RevokeToken (plain : gostr) : M unit :=
  if bool_decide (plain = []) then mret ()
  else
    let code := HashAccessCode plain in
    on_tokens (update_where (λ t, bool_decide (Token.TokenCode t = code)) (Token.revoke now));;
    kick_token code.

Definition revoke_each (reason : gostr) : list Session.AccessSession → M unit :=
  for_each (λ s, RevokeSession (Session.SessionCode s) reason;; mret ()).

Definition RevokeByAccount (accountCode reason : gostr) : M nat :=
  if bool_decide (accountCode = []) then mret 0%nat
  else
    rows ← gets (λ st, List.filter (λ s, bool_decide (Session.AccountCode s = accountCode) && (Session.Status s =? AccessStatusValid)) (sessions st));
    revoke_each reason rows;; mret (length rows).

Definition RevokeByHostCode (hostCode : gostr) : M nat :=
  if bool_decide (trim_space hostCode = []) then mret 0%nat
  else
    rows ← gets (λ st, List.filter (λ t, bool_decide (Token.HostCode t = hostCode) && (Token.Status t =? AccessStatusValid)) (tokens st));
    match rows with
    | [] => mret 0%nat
    | _ =>
        on_tokens (update_where (λ t, bool_decide (Token.HostCode t = hostCode)) (Token.revoke now));;
        for_each (λ t, kick_token (Token.TokenCode t)) rows;; mret (length rows)
    end.

Definition KickApi (id : gostr) : M (result unit unit) :=
  row ← gets (λ st, List.find (λ s, bool_decide (Session.Id s = id)) (sessions st));
  match row with
  | None => mret (Err ())
  | Some s => RevokeSession (Session.SessionCode s) AccessRevokeByAdmin
  end.

Definition KickAllApi : M nat :=
  rows ← gets (λ st, List.filter (λ s, Session.Status s =? AccessStatusValid) (sessions st));
  revoke_each AccessRevokeByAdmin rows;; mret (length rows).

(** The sweep: rows that expired are marked, tickets ten minutes past their end and rows
    revoked [keepDays] days ago are deleted. *)
Definition CleanExpired (keepDays : Z) : M unit :=
  on_sessions (update_where (λ s, (Session.Status s =? AccessStatusValid) && sql_lt (Session.ExpireTime s) now) (Session.revoke AccessRevokeByExpire now));;
  on_tokens (update_where (λ t, (Token.Status t =? AccessStatusValid) && sql_lt (Token.ExpireTime t) now) (Token.revoke now));;
  on_tickets (List.filter (λ t, negb (sql_lt (Ticket.ExpireTime t) (now - 10 * minute))));;
  let keepDays := if keepDays <=? 0 then 7 else keepDays in
  let cutoff := now - keepDays * (24 * hour) in
  on_tokens (List.filter (λ t, negb ((Token.Status t =? AccessStatusRevoked) && sql_lt (Token.UPDATE_TIME t) cutoff)));;
  on_sessions (List.filter (λ s, negb ((Session.Status s =? AccessStatusRevoked) && sql_lt (Session.UPDATE_TIME s) cutoff))).

(** ** Tickets *)

Definition IssueTicket (rand : option gostr) (sess : Session.AccessSession) (targetHost returnTo clientIP fingerprint : gostr)
    (cfg : Config) : M (result unit gostr) :=
  match genAccessSecret rand with
  | Err e => mret (Err e)
  | Ok plain =>
      on_tickets (λ rows, rows ++ [Ticket.mk (HashAccessCode plain) (Session.SessionCode sess) (Session.AccountCode sess)
        (Session.AccountName sess) (to_lower targetHost) returnTo clientIP fingerprint 0 zero_time (now + TicketTTL cfg)]);;
      mret (Ok plain)
  end.

Inductive ticket_error := TicketEmpty | TicketInvalid | TicketUnreadable | TicketHost | TicketSource | TicketDevice.

Definition usable_ticket (code : gostr) (t : Ticket.AccessTicket) : bool :=
  bool_decide (Ticket.TicketCode t = code) && (Ticket.Used t =? 0) && sql_gt (Ticket.ExpireTime t) now.

Definition ConsumeTicket (plain targetHost clientIP fingerprint : gostr) (cfg : Config) : M (result ticket_error Ticket.AccessTicket) :=
  if bool_decide (plain = []) then mret (Err TicketEmpty)
  else
    let code := HashAccessCode plain in
    affected ← gets (λ st, count_if (usable_ticket code) (tickets st));
    on_tickets (update_where (usable_ticket code) (Ticket.use now));;
    if negb (affected =? 1)%nat then mret (Err TicketInvalid)
    else
      row ← gets (λ st, List.find (λ t, bool_decide (Ticket.TicketCode t = code)) (tickets st));
      match row with
      | None => mret (Err TicketUnreadable)
      | Some bean =>
          if negb (equal_fold (Ticket.TargetHost bean) targetHost) then mret (Err TicketHost)
          else if BindIP cfg && negb (bool_decide (Ticket.ClientIP bean = [])) && negb (bool_decide (Ticket.ClientIP bean = clientIP)) then mret (Err TicketSource)
          else if BindFingerprint cfg && negb (bool_decide (Ticket.Fingerprint bean = [])) && negb (bool_decide (Ticket.Fingerprint bean = fingerprint)) then mret (Err TicketDevice)
          else mret (Ok bean)
      end.

Definition LoadSessionByCode (sessionCode : gostr) : M (result unit Session.AccessSession) :=
  row ← gets (λ st, List.find (valid_session sessionCode) (sessions st));
  mret (match row with
        | None => Err ()
        | Some sess => if Session.ExpireTime sess <? now then Err () else Ok sess
        end).

End at_time.
End services.
End AccessStore.
