(* ===== verification/AccessFacts.v ===== *)
(** * Facts about the access gate's store (the services of AccessStore)

    The invariant that ties the cache to the tables, its preservation by every operation,
    and what follows: which tokens are accepted, that a revoked session stays out, that
    a ticket is good for one exchange. *)
From S2P Require Import Prelude.
From S2P Require Import GoLib.
From S2P Require Import GoHttp.
From S2P Require Import WafCache.
From S2P Require Import AccessGate.
From S2P Require Import AccessStore.
Local Open Scope Z_scope.
Local Open Scope bool_scope.

Module AccessFacts.
Import Mode AccessStore.

(** ** Generic lemmas *)

Lemma Get_absent {V} (c : gmap gostr (WafCache.WafCacheItem V)) now k : c !! k = None → WafCache.Get c now k = (c, None).
Proof. intros E. unfold WafCache.Get. by rewrite E. Qed.
Lemma IsKeyExist_absent {V} (c : gmap gostr (WafCache.WafCacheItem V)) now k : c !! k = None → WafCache.IsKeyExist c now k = (c, false).
Proof. intros E. unfold WafCache.IsKeyExist. by rewrite E. Qed.

Lemma find_app_none {A} (f : A → bool) l x : (∀ y, y ∈ l → f y = false) → f x = true → List.find f (l ++ [x]) = Some x.
Proof.
  intros Hl Hx. induction l as [|y l IH]; cbn; [by rewrite Hx|]. rewrite (Hl y) by set_solver. apply IH. set_solver.
Qed.

Section facts.
Context `{UnicodeCase}.
Variable sha256 : gostr → gostr.
Variable lookupLocation : gostr → gostr * gostr.
Variable zone : Z.
(** The bound of the positive caching times of the configurations in use. *)
Variable P : Z.
Hypothesis P_day : P ≤ 24 * hour.

Abbreviation hash := (HashAccessCode sha256).

(** ** Keys *)

Lemma token_key_inj a b : CACHE_ACCESS_TOKEN ++ a = CACHE_ACCESS_TOKEN ++ b → a = b.
Proof. apply app_inv_head. Qed.
Lemma session_key_inj a b : CACHE_ACCESS_SESSION ++ a = CACHE_ACCESS_SESSION ++ b → a = b.
Proof. apply app_inv_head. Qed.
Lemma token_session_key a b : CACHE_ACCESS_TOKEN ++ a ≠ CACHE_ACCESS_SESSION ++ b.
Proof. discriminate. Qed.

(** ** The invariant *)

(** The token row a cached state was made from. *)
Record agrees (code : gostr) (s : State.AccessState) (row : Token.AccessToken) : Prop := {
  ag_code : Token.TokenCode row = code;
  ag_session : State.SessionCode s = Token.SessionCode row;
  ag_expire : State.ExpireUnix s = unix (Token.ExpireTime row);
  ag_host : State.Host s = Token.Host row;
  ag_host_code : State.HostCode s = Token.HostCode row;
  ag_ip : State.ClientIP s = Token.ClientIP row;
  ag_fingerprint : State.Fingerprint s = Token.Fingerprint row;
}.

(** A row is valid, or was revoked after [c]. *)
Definition valid_after (c : Z) (row : Token.AccessToken) : Prop :=
  Token.Status row = AccessStatusValid ∨ c ≤ Token.UPDATE_TIME row.

(** [R]: the sessions known to be revoked. *)
Definition entry_ok (R : gostr → Prop) (now : Z) (rows : list Token.AccessToken) (k : gostr)
    (item : WafCache.WafCacheItem aval) : Prop :=
  WafCache.createTime item ≤ now ∧
  match WafCache.value item with
  | VSession s => k = CACHE_ACCESS_SESSION ++ Session.SessionCode s ∧ ¬ R (Session.SessionCode s)
  | VState s =>
      WafCache.ttl item ≤ P ∧ ∃ code, k = CACHE_ACCESS_TOKEN ++ code ∧
      (WafCache.live now item = true → ¬ R (State.SessionCode s) ∧
       ∃ row, row ∈ rows ∧ agrees code s row ∧ valid_after (WafCache.createTime item) row)
  | _ => True
  end.

Record Inv (R : gostr → Prop) (now : Z) (st : store) : Prop := {
  inv_cache : ∀ k item, cache st !! k = Some item → entry_ok R now (tokens st) k item;
  inv_sessions : ∀ s, s ∈ sessions st → R (Session.SessionCode s) → Session.Status s ≠ AccessStatusValid;
}.

Lemma live_earlier now t (item : WafCache.WafCacheItem aval) : now ≤ t → WafCache.live t item = true → WafCache.live now item = true.
Proof. unfold WafCache.live. rewrite !Z.leb_le. lia. Qed.

Lemma Inv_later R now t st : now ≤ t → Inv R now st → Inv R t st.
Proof.
  intros Ht [Hc Hs]. split; [|done]. intros k item Hk. destruct (Hc k item Hk) as [Hn Hv]. split; [lia|].
  destruct (WafCache.value item); [|done..]. destruct Hv as (Hp & code & Hcode & Hl). split; [done|].
  exists code. split; [done|]. intros Hl'. apply Hl. by eapply live_earlier.
Qed.

Lemma Inv_fewer (R R' : gostr → Prop) now st : (∀ c, R' c → R c) → Inv R now st → Inv R' now st.
Proof.
  clear sha256 lookupLocation zone P_day. intros HR [Hc Hs]. split; [|auto]. intros k item Hk. destruct (Hc k item Hk) as [Hn He]. split; [done|].
  destruct (WafCache.value item); [|naive_solver|done..]. destruct He as (Hp & c & Hk' & Hl). split; [done|].
  exists c. split; [done|]. intros Hlive. destruct (Hl Hlive) as [Hn' Hrow]. auto.
Qed.

(** ** Hoare logic: what a computation keeps, and what its answer satisfies *)

Section triples.
Context (I : store → Prop).

Definition triple {A} (m : M A) (Q : A → store → Prop) : Prop := ∀ st, I st → I (m st).1 ∧ Q (m st).2 (m st).1.
Definition keeps {A} (m : M A) : Prop := ∀ st, I st → I (m st).1.

Lemma kp_ret {A} (a : A) : keeps (mret a).
Proof. by intros st. Qed.
Lemma kp_gets {A} (f : store → A) : keeps (gets f).
Proof. by intros st. Qed.
Lemma kp_bind {A B} (m : M A) (f : A → M B) : keeps m → (∀ a, keeps (f a)) → keeps (m ≫= f).
Proof.
  intros Hm Hf st Hst. specialize (Hm st Hst). unfold mbind, M_bind. destruct (m st) as [st' a]. by apply Hf.
Qed.
Lemma keeps_for_each {A} (f : A → M unit) l : (∀ x, keeps (f x)) → keeps (for_each f l).
Proof. intros Hf. induction l; [apply kp_ret|]. apply kp_bind; [apply Hf|by intros]. Qed.
Lemma tr_bind {A B} (m : M A) (f : A → M B) Q Q' :
  triple m Q → (∀ a st, Q a st → I st → I (f a st).1 ∧ Q' (f a st).2 (f a st).1) → triple (m ≫= f) Q'.
Proof.
  intros Hm Hf st Hst. destruct (Hm st Hst) as [HI HQ]. unfold mbind, M_bind. destruct (m st) as [st' a]. by apply Hf.
Qed.
End triples.

Lemma remove_lookup (c : gmap gostr (WafCache.WafCacheItem aval)) k k' item :
  WafCache.Remove c k !! k' = Some item → c !! k' = Some item ∧ k' ≠ k.
Proof.
  unfold WafCache.Remove. destruct (c !! k) eqn:E; [rewrite lookup_delete_Some; naive_solver|]. intros Hk. split; [done|]. congruence.
Qed.


Section at_time.
Context (R : gostr → Prop) (now : Z).
Abbreviation I := (Inv R now).

(** *** The cache *)

Lemma on_cache_keeps {A} (f : gmap gostr (WafCache.WafCacheItem aval) → gmap gostr (WafCache.WafCacheItem aval) * A) :
  (∀ c k item, (f c).1 !! k = Some item → c !! k = Some item) → keeps I (on_cache f).
Proof.
  intros Hf st [Hc Hs]. unfold on_cache. specialize (Hf (cache st)). destruct (f (cache st)) as [c a].
  split; cbn; [|done]. intros k item Hk. by apply Hc, Hf.
Qed.

Lemma delete_lookup (c : gmap gostr (WafCache.WafCacheItem aval)) k k' item : delete k c !! k' = Some item → c !! k' = Some item.
Proof. rewrite lookup_delete_Some. tauto. Qed.

Lemma cache_get_keeps key : keeps I (cache_get now key).
Proof.
  apply on_cache_keeps. intros c k item. unfold WafCache.Get. destruct (c !! key) as [i|]; [|done].
  destruct (WafCache.live now i); [done|]. apply delete_lookup.
Qed.

Lemma cache_exists_keeps key : keeps I (cache_exists now key).
Proof.
  apply on_cache_keeps. intros c k item. unfold WafCache.IsKeyExist. destruct (c !! key) as [i|]; [|done].
  destruct (WafCache.live now i); [done|]. apply delete_lookup.
Qed.

Lemma cache_remove_keeps key : keeps I (cache_remove key).
Proof.
  apply on_cache_keeps. intros c k item. cbn. unfold WafCache.Remove. destruct (c !! key); [|done]. apply delete_lookup.
Qed.

(** A write keeps the invariant when the item it makes, whatever its age, is fine. *)
Lemma cache_set_keeps key v t st :
  I st → (∀ created, created ≤ now → entry_ok R now (tokens st) key (WafCache.put created t v)) → I (cache_set now key v t st).1.
Proof.
  intros [Hc Hs] Hv. split; [|done]. cbn. intros k item. unfold WafCache.SetWithTTl.
  rewrite lookup_insert_Some. intros [[<- <-]|[_ Hk]]; [|by apply Hc].
  apply Hv. destruct (cache st !! key) as [i|] eqn:E; [|lia]. by destruct (Hc key i E).
Qed.

Lemma cache_set_plain_keeps key v t : (match v with VSession _ | VState _ => False | _ => True end) → keeps I (cache_set now key v t).
Proof. intros Hv st Hst. apply cache_set_keeps; [done|]. intros c Hle. split; [done|]. by destruct v. Qed.

Lemma markBad_keeps code : keeps I (markBad now code).
Proof. by apply cache_set_plain_keeps. Qed.

(** *** The tables *)

Lemma on_tickets_keeps f : keeps I (on_tickets f).
Proof. by intros st [? ?]. Qed.
Lemma on_accounts_keeps f : keeps I (on_accounts f).
Proof. by intros st [? ?]. Qed.

Lemma on_sessions_keeps f :
  (∀ rows s, s ∈ f rows → R (Session.SessionCode s) → Session.Status s = AccessStatusValid →
     ∃ s', s' ∈ rows ∧ Session.SessionCode s' = Session.SessionCode s ∧ Session.Status s' = AccessStatusValid) →
  keeps I (on_sessions f).
Proof.
  intros Hf st [Hc Hs]. split; [done|]. cbn. intros s Hin HR Hv.
  destruct (Hf _ s Hin HR Hv) as (s' & Hin' & Hcode & Hv'). apply (Hs s' Hin'); congruence.
Qed.

Lemma update_sessions_keeps p f :
  (∀ s, Session.SessionCode (f s) = Session.SessionCode s ∧
        (Session.Status (f s) = AccessStatusValid → Session.Status s = AccessStatusValid)) →
  keeps I (on_sessions (update_where p f)).
Proof.
  intros Hf. apply on_sessions_keeps. intros rows s Hin HR Hv. apply list_elem_of_fmap in Hin as (s' & -> & Hin').
  exists s'. split; [done|]. destruct (p s'); [|done]. destruct (Hf s'). split; [done|]. tauto.
Qed.

Lemma revoke_sessions_keeps p reason : keeps I (on_sessions (update_where p (Session.revoke reason now))).
Proof. apply update_sessions_keeps. intros s. by split. Qed.

(** A change of the token table keeps the invariant when no row a live state rests on is lost. *)
Lemma on_tokens_keeps f :
  (∀ rows row c, row ∈ rows → valid_after c row → c ≤ now → now - c ≤ P →
     ∃ row', row' ∈ f rows ∧ (∀ code s, agrees code s row → agrees code s row') ∧ valid_after c row') →
  keeps I (on_tokens f).
Proof.
  intros Hf st [Hc Hs]. split; [|done]. cbn. intros k item Hk. destruct (Hc k item Hk) as [Hn Hv]. split; [done|].
  destruct (WafCache.value item); [|done..]. destruct Hv as (Hp & code & Hcode & Hl). split; [done|].
  exists code. split; [done|]. intros Hlive. destruct (Hl Hlive) as (HR & row & Hin & Hag & Hva). split; [done|].
  assert (now - WafCache.createTime item ≤ P) by (unfold WafCache.live in Hlive; prop_of_bool; lia).
  destruct (Hf _ row _ Hin Hva) as (row' & Hin' & Hag' & Hva'); [lia..|]. exists row'. auto.
Qed.

Lemma update_tokens_keeps p f :
  (∀ t c, (∀ code s, agrees code s t → agrees code s (f t)) ∧ (valid_after c t → c ≤ now → valid_after c (f t))) →
  keeps I (on_tokens (update_where p f)).
Proof.
  intros Hf. apply on_tokens_keeps. intros rows row c Hin Hva Hc _.
  exists (if p row then f row else row). split.
  - unfold update_where. apply list_elem_of_fmap. by exists row.
  - destruct (Hf row c). destruct (p row); [split; auto|done].
Qed.

Lemma revoke_tokens_keeps p : keeps I (on_tokens (update_where p (Token.revoke now))).
Proof.
  apply update_tokens_keeps. intros t c. split; [by intros code s []|]. intros _ Hc. by right.
Qed.

Lemma touchToken_keeps token : keeps I (touchToken now token).
Proof.
  unfold touchToken. destruct (_ && _); [apply kp_ret|]. apply update_tokens_keeps.
  intros t c. split; [by intros code s []|]. done.
Qed.

Lemma append_tokens_keeps row : keeps I (on_tokens (λ rows, rows ++ [row])).
Proof. apply on_tokens_keeps. intros rows r c Hin Hva _ _. exists r. split; [set_solver|done]. Qed.

Lemma sweep_tokens_keeps days :
  0 < days →
  keeps I (on_tokens (List.filter (λ t, negb ((Token.Status t =? AccessStatusRevoked) && sql_lt (Token.UPDATE_TIME t) (now - days * (24 * hour)))))).
Proof.
  intros Hd. apply on_tokens_keeps. intros rows row c Hin Hva Hc HP. exists row. split; [|done].
  apply list_elem_of_In, filter_In. split; [by apply list_elem_of_In|]. apply negb_true_iff, not_true_iff_false.
  intros [Hs Hu]%andb_true_iff. unfold sql_lt in Hu. prop_of_bool.
  destruct Hva as [Hva|Hva]; [rewrite Hva in *; done|]. unfold hour, minute, second in *. nia.
Qed.

(** *** Loading a session *)

Lemma revokeSessionRows_keeps code reason : keeps I (revokeSessionRows now code reason).
Proof.
  unfold revokeSessionRows. apply kp_bind; [apply kp_gets|]. intros toks.
  apply kp_bind; [apply revoke_sessions_keeps|]. intros _.
  apply kp_bind; [apply revoke_tokens_keeps|]. intros _. apply kp_ret.
Qed.

(** A session that is loaded has the code asked for and is not known to be revoked. *)
Definition loaded (code : gostr) (rows : list Token.AccessToken) (r : option Session.AccessSession) (st : store) : Prop :=
  ∀ sess, r = Some sess → Session.SessionCode sess = code ∧ ¬ R code ∧ tokens st = rows.

Lemma load_from_db_spec code cfg st :
  I st → I (load_from_db now code cfg st).1 ∧ loaded code (tokens st) (load_from_db now code cfg st).2 (load_from_db now code cfg st).1.
Proof.
  intros HI. unfold load_from_db, gets, mbind, M_bind. cbv beta iota.
  destruct (List.find (valid_session code) (sessions st)) as [sess|] eqn:E; [|by split].
  apply find_some in E as [Hin Hv]. unfold valid_session, has_code in Hv. prop_of_bool.
  destruct (Session.ExpireTime sess <? now); [by split|].
  destruct (_ && _ && _).
  - pose proof (revokeSessionRows_keeps (Session.SessionCode sess) AccessRevokeByExpire st HI) as Hk.
    destruct (revokeSessionRows now _ _ st) as [st' a]. by split.
  - assert (HR : ¬ R code). { intros HR. subst code. by apply (inv_sessions _ _ _ HI sess); [apply list_elem_of_In| |]. }
    pose proof (cache_set_keeps (CACHE_ACCESS_SESSION ++ code) (VSession sess) (CachePositiveTTL cfg) st HI) as Hk.
    split; [apply Hk; intros c Hc; split; cbn; [done|]; split; congruence|]. intros sess' [= <-]. split; [done|]. by split.
Qed.

Lemma cache_get_spec key st :
  I st → I (cache_get now key st).1 ∧ tokens (cache_get now key st).1 = tokens st ∧
  ∀ v, (cache_get now key st).2 = Some v →
  ∃ item, cache st !! key = Some item ∧ WafCache.value item = v ∧ WafCache.live now item = true ∧ entry_ok R now (tokens st) key item.
Proof.
  intros HI. split; [by apply cache_get_keeps|]. unfold cache_get, on_cache, WafCache.Get.
  destruct (cache st !! key) as [item|] eqn:E; [|done]. destruct (WafCache.live now item) eqn:El; [|done]. split; [done|].
  cbn. intros v [= <-]. exists item. split; [done|]. split; [done|]. split; [done|]. by apply (inv_cache _ _ _ HI).
Qed.

Lemma loadValidSession_spec code cfg st :
  I st → I (loadValidSession zone now code cfg st).1 ∧
  loaded code (tokens st) (loadValidSession zone now code cfg st).2 (loadValidSession zone now code cfg st).1.
Proof.
  intros HI. unfold loadValidSession. case_bool_decide; [by split|]. unfold mbind, M_bind.
  destruct (cache_get_spec (CACHE_ACCESS_SESSION ++ code) st HI) as (HI' & Ht & Hv).
  destruct (cache_get now _ st) as [st' v]. cbn [fst snd] in *.
  assert (Hdb := load_from_db_spec code cfg st' HI'). rewrite Ht in Hdb.
  destruct v as [[| s | | |]|]; try exact Hdb. cbv zeta. destruct (_ && _); [|exact Hdb].
  destruct (Hv _ eq_refl) as (item & Hc & Hval & Hl & Hn & He). rewrite Hval in He. destruct He as [Hk HR].
  apply session_key_inj in Hk as ->. split; [done|]. intros sess [= <-]. done.
Qed.

(** *** Validating a token *)

(** What is accepted: a token row that was issued under the same conditions, in force
    now or until less than [P] ago, of a session not known to be revoked. *)
Record accepted (code host hostCode clientIP fingerprint : gostr) (cfg : Config) (rows : list Token.AccessToken)
    (s : State.AccessState) (row : Token.AccessToken) : Prop := {
  acc_in : row ∈ rows;
  acc_code : Token.TokenCode row = code;
  acc_session : State.SessionCode s = Token.SessionCode row;
  acc_not_revoked : ¬ R (State.SessionCode s);
  acc_host_code : Token.HostCode row = hostCode ∧ hostCode ≠ [];
  acc_host : equal_fold (Token.Host row) host = true;
  acc_ip : BindIP cfg = true → Token.ClientIP row = [] ∨ Token.ClientIP row = clientIP;
  acc_fingerprint : BindFingerprint cfg = true → Token.Fingerprint row = [] ∨ Token.Fingerprint row = fingerprint;
  acc_unexpired : now ≤ Token.ExpireTime row;
  acc_recent : Token.Status row = AccessStatusValid ∨ now - Token.UPDATE_TIME row ≤ P;
}.

Lemma matchBindings_accepts s host hostCode clientIP fingerprint cfg :
  State.matchBindings s host hostCode clientIP fingerprint cfg = true →
  (State.HostCode s = hostCode ∧ hostCode ≠ []) ∧ equal_fold (State.Host s) host = true ∧
  (BindIP cfg = true → State.ClientIP s = [] ∨ State.ClientIP s = clientIP) ∧
  (BindFingerprint cfg = true → State.Fingerprint s = [] ∨ State.Fingerprint s = fingerprint).
Proof.
  unfold State.matchBindings. destruct (_ || _) eqn:E1; [done|]. destruct (equal_fold _ _); [|done]. cbn [negb].
  destruct (BindIP cfg && _ && _) eqn:E3; [done|]. destruct (BindFingerprint cfg && _ && _) eqn:E4; [done|]. intros _.
  prop_of_bool. split; [done|]. split; [done|]. split; intros E; rewrite E in *; cbn in *;
  repeat case_bool_decide; auto; discriminate.
Qed.

Definition accepts (code host hostCode clientIP fingerprint : gostr) (cfg : Config) (rows : list Token.AccessToken)
    (r : option State.AccessState) : Prop :=
  ∀ s, r = Some s → ∃ row, accepted code host hostCode clientIP fingerprint cfg rows s row.

Lemma accept_row code s row host hostCode clientIP fingerprint cfg rows :
  row ∈ rows → agrees code s row → ¬ R (State.SessionCode s) → now ≤ Token.ExpireTime row →
  (Token.Status row = AccessStatusValid ∨ now - Token.UPDATE_TIME row ≤ P) →
  State.matchBindings s host hostCode clientIP fingerprint cfg = true →
  accepted code host hostCode clientIP fingerprint cfg rows s row.
Proof.
  intros Hin [] HR Hexp Hrec ([Hc Hne] & Hh & Hi & Hf)%matchBindings_accepts. split; try done; try (split; congruence); try congruence.
  - intros E. destruct (Hi E); [left|right]; congruence.
  - intros E. destruct (Hf E); [left|right]; congruence.
Qed.

Lemma validate_from_db_spec code host hostCode clientIP fingerprint cfg st :
  CachePositiveTTL cfg ≤ P → I st →
  I (validate_from_db zone now code host hostCode clientIP fingerprint cfg st).1 ∧
  accepts code host hostCode clientIP fingerprint cfg (tokens st) (validate_from_db zone now code host hostCode clientIP fingerprint cfg st).2.
Proof.
  intros HP HI. unfold validate_from_db, gets, mbind, M_bind. cbv beta iota.
  assert (Hbad : ∀ st', I st' → I (markBad now code st').1) by apply markBad_keeps.
  destruct (List.find (valid_token code) (tokens st)) as [token|] eqn:E.
  2: { specialize (Hbad st HI). destruct (markBad now code st). by split. }
  apply find_some in E as [Hin Hv]. apply list_elem_of_In in Hin. unfold valid_token in Hv. prop_of_bool.
  destruct (Z.ltb_spec (Token.ExpireTime token) now) as [He|He].
  { specialize (Hbad st HI). destruct (markBad now code st). by split. }
  destruct (loadValidSession_spec (Token.SessionCode token) cfg st HI) as [HI1 Hld].
  destruct (loadValidSession zone now (Token.SessionCode token) cfg st) as [st1 [sess|]]; cbn [fst snd] in *.
  2: { specialize (Hbad st1 HI1). destruct (markBad now code st1). by split. }
  destruct (Hld sess eq_refl) as (Hsc & HR & Ht).
  assert (Hag : agrees code (state_of sess token) token) by (split; done).
  assert (HI2 := cache_set_keeps (CACHE_ACCESS_TOKEN ++ code) (VState (state_of sess token)) (CachePositiveTTL cfg) st1 HI1).
  destruct (cache_set now _ _ _ st1) as [st2 u]. cbn [fst] in HI2.
  assert (HI2' : I st2).
  { apply HI2. intros c Hc. split; [done|]. split; [done|]. exists code. split; [done|]. intros _. cbn. rewrite Hsc. split; [done|].
    exists token. rewrite Ht. split; [done|]. split; [done|by left]. }
  destruct (State.matchBindings _ _ _ _ _ _) eqn:Em; cbn [negb]; [|by split].
  assert (Ht2 := touchToken_keeps token st2 HI2'). destruct (touchToken now token st2). split; [done|].
  intros state [= <-]. exists token. apply accept_row; try done; [|by left]. cbn. by rewrite Hsc.
Qed.

Lemma ValidateToken_spec plain host hostCode clientIP fingerprint cfg st :
  CachePositiveTTL cfg ≤ P → I st →
  I (ValidateToken sha256 zone now plain host hostCode clientIP fingerprint cfg st).1 ∧
  accepts (hash plain) host hostCode clientIP fingerprint cfg (tokens st)
    (ValidateToken sha256 zone now plain host hostCode clientIP fingerprint cfg st).2.
Proof.
  intros HP HI. unfold ValidateToken. case_bool_decide; [by split|]. cbv zeta. unfold mbind, M_bind.
  assert (HI1 := cache_exists_keeps (CACHE_ACCESS_BAD ++ hash plain) st HI).
  assert (Ht1 : tokens (cache_exists now (CACHE_ACCESS_BAD ++ hash plain) st).1 = tokens st).
  { unfold cache_exists, on_cache. by destruct (WafCache.IsKeyExist _ _ _). }
  destruct (cache_exists now _ st) as [st1 bad]. cbn [fst] in *. destruct bad; [by split|].
  destruct (cache_get_spec (CACHE_ACCESS_TOKEN ++ hash plain) st1 HI1) as (HI2 & Ht2 & Hv).
  destruct (cache_get now _ st1) as [st2 v]. cbn [fst snd] in *.
  assert (Hdb := validate_from_db_spec (hash plain) host hostCode clientIP fingerprint cfg st2 HP HI2).
  rewrite Ht2, Ht1 in Hdb. destruct v as [[s | | | |]|]; try exact Hdb.
  destruct (negb _ && _) eqn:Eq; [|exact Hdb].
  destruct (State.matchBindings _ _ _ _ _ _) eqn:Em; [|by split]. split; [done|]. intros s' [= <-].
  destruct (Hv _ eq_refl) as (item & Hc & Hval & Hl & Hn & He). rewrite Hval in He.
  destruct He as (HP' & code & Hk%token_key_inj & Hlive). subst code. destruct (Hlive Hl) as (HR & row & Hin & Hag & Hva).
  exists row. rewrite Ht1 in Hin. apply accept_row; try done.
  - prop_of_bool. pose proof (ag_expire _ _ _ Hag) as Hx. rewrite Hx in *. unfold now_unix, unix, second in *.
    apply Z.lt_le_incl, Z.nle_gt. intros Hle. apply (Z.div_le_mono _ _ 1000000000) in Hle; lia.
  - destruct Hva as [Hva|Hva]; [by left|right]. unfold WafCache.live in Hl. prop_of_bool. lia.
Qed.

(** *** Revoking *)

Lemma touchSession_keeps sess : keeps I (touchSession now sess).
Proof.
  unfold touchSession. destruct (_ && _); [apply kp_ret|]. apply kp_bind; [|intros; apply cache_remove_keeps].
  apply update_sessions_keeps. intros s. by split.
Qed.

Lemma ValidateSSOSession_spec plain host clientIP fingerprint cfg :
  triple I (ValidateSSOSession sha256 zone now plain host clientIP fingerprint cfg)
    (λ r _, ∀ sess, r = Some sess → Session.SessionCode sess = hash plain ∧ ¬ R (hash plain)).
Proof.
  intros st HI. unfold ValidateSSOSession. case_bool_decide; [by split|]. unfold mbind, M_bind.
  destruct (loadValidSession_spec (hash plain) cfg st HI) as [HI1 Hld].
  destruct (loadValidSession zone now (hash plain) cfg st) as [st1 [sess|]]; cbn [fst snd] in *; [|by split].
  destruct (Hld sess eq_refl) as (Hc & HR & _). destruct (_ && _ && _); [by split|]. destruct (_ && _ && _); [by split|].
  destruct (_ && _ && _); [by split|]. assert (Ht := touchSession_keeps sess st1 HI1).
  destruct (touchSession now sess st1). split; [done|]. intros sess' [= <-]. done.
Qed.

Lemma kick_token_keeps code : keeps I (kick_token now code).
Proof. apply kp_bind; [apply cache_remove_keeps|]. intros; apply markBad_keeps. Qed.

Lemma kickCache_keeps code codes : keeps I (kickCache now code codes).
Proof.
  apply kp_bind; [destruct (bool_decide _); [apply kp_ret|apply cache_remove_keeps]|].
  intros _. apply keeps_for_each, kick_token_keeps.
Qed.

(** What is left in the cache once tokens have been kicked. *)
Definition kicked (codes : list gostr) (st st' : store) : Prop :=
  tokens st' = tokens st ∧ sessions st' = sessions st ∧
  ∀ k item, cache st' !! k = Some item →
    (∃ v, WafCache.value item = VStr v) ∨ cache st !! k = Some item ∧ ∀ c, c ∈ codes → k ≠ CACHE_ACCESS_TOKEN ++ c.

Lemma kick_tokens_left codes st : kicked codes st (for_each (kick_token now) codes st).1.
Proof.
  revert st. induction codes as [|c codes IH]; intros st; cbn [for_each]; [split; [done|]; split; [done|]; right; set_solver|].
  unfold kick_token, markBad, cache_remove, cache_set, on_cache, mbind, M_bind. cbv beta iota.
  match goal with |- kicked _ _ (for_each _ _ ?s).1 => specialize (IH s) end.
  destruct IH as (Ht & Hs & Hc). split; [done|]. split; [done|]. intros k item Hk.
  destruct (Hc k item Hk) as [|[Hk' Hne]]; [by left|]. cbn in Hk'. unfold WafCache.SetWithTTl in Hk'.
  apply lookup_insert_Some in Hk' as [[_ <-]|[_ Hk']]; [left; by eexists|]. apply remove_lookup in Hk' as [Hk' Hc'].
  right. split; [done|]. intros c'. rewrite elem_of_cons. intros [->|Hin]; auto.
Qed.

Lemma update_tokens_codes p rows row :
  row ∈ update_where p (Token.revoke now) rows →
  ∃ row', row' ∈ rows ∧ Token.TokenCode row = Token.TokenCode row' ∧ Token.SessionCode row = Token.SessionCode row'.
Proof. intros (r & -> & Hin)%list_elem_of_fmap. exists r. split; [done|]. by destruct (p r). Qed.

(** *** The rest of the operations *)

Lemma IssueToken_keeps rand sess host hostCode clientIP fingerprint cfg :
  keeps I (IssueToken sha256 now rand sess host hostCode clientIP fingerprint cfg).
Proof.
  unfold IssueToken. destruct (genAccessSecret rand); [|apply kp_ret].
  apply kp_bind; [apply append_tokens_keeps|]. intros; apply kp_ret.
Qed.

Lemma CreateSession_keeps id rand acct scope bindHost clientIP fingerprint userAgent cfg :
  (∀ plain, genAccessSecret rand = Ok plain → ¬ R (hash plain)) →
  keeps I (CreateSession sha256 lookupLocation now id rand acct scope bindHost clientIP fingerprint userAgent cfg).
Proof.
  intros Hf. unfold CreateSession. destruct (genAccessSecret rand) as [plain|]; [|apply kp_ret].
  destruct (lookupLocation clientIP). apply kp_bind; [|intros; apply kp_ret]. apply on_sessions_keeps.
  intros rows s. rewrite elem_of_app, list_elem_of_singleton. intros [Hin| ->] HR Hv; [by exists s|].
  exfalso. by apply (Hf plain).
Qed.

Lemma RevokeToken_keeps plain : keeps I (RevokeToken sha256 now plain).
Proof.
  unfold RevokeToken. case_bool_decide; [apply kp_ret|]. apply kp_bind; [apply revoke_tokens_keeps|].
  intros; apply kick_token_keeps.
Qed.

Lemma RevokeByHostCode_keeps code : keeps I (RevokeByHostCode now code).
Proof.
  unfold RevokeByHostCode. case_bool_decide; [apply kp_ret|]. apply kp_bind; [apply kp_gets|].
  intros rows. destruct rows; [apply kp_ret|]. apply kp_bind; [apply revoke_tokens_keeps|]. intros _.
  apply kp_bind; [apply keeps_for_each; intros; apply kick_token_keeps|]. intros; apply kp_ret.
Qed.

Lemma RevokeSession_keeps code reason : keeps I (RevokeSession now code reason).
Proof.
  unfold RevokeSession. case_bool_decide; [apply kp_ret|]. apply kp_bind; [apply revokeSessionRows_keeps|].
  intros codes. apply kp_bind; [apply kickCache_keeps|]. intros; apply kp_ret.
Qed.

Lemma revoke_each_keeps reason rows : keeps I (revoke_each now reason rows).
Proof. apply keeps_for_each. intros. apply kp_bind; [apply RevokeSession_keeps|]. intros; apply kp_ret. Qed.

Lemma RevokeByAccount_keeps code reason : keeps I (RevokeByAccount now code reason).
Proof.
  unfold RevokeByAccount. case_bool_decide; [apply kp_ret|]. apply kp_bind; [apply kp_gets|]. intros rows.
  apply kp_bind; [apply revoke_each_keeps|]. intros; apply kp_ret.
Qed.

Lemma KickApi_keeps id : keeps I (KickApi now id).
Proof. apply kp_bind; [apply kp_gets|]. intros [s|]; [apply RevokeSession_keeps|apply kp_ret]. Qed.

Lemma KickAllApi_keeps : keeps I (KickAllApi now).
Proof.
  apply kp_bind; [apply kp_gets|]. intros rows. apply kp_bind; [apply revoke_each_keeps|]. intros; apply kp_ret.
Qed.

Lemma CleanExpired_keeps days : keeps I (CleanExpired now days).
Proof.
  unfold CleanExpired. cbv zeta. apply kp_bind; [apply revoke_sessions_keeps|]. intros _.
  apply kp_bind; [apply revoke_tokens_keeps|]. intros _. apply kp_bind; [apply on_tickets_keeps|]. intros _.
  apply kp_bind; [apply sweep_tokens_keeps; destruct (Z.leb_spec days 0); lia|]. intros _.
  apply on_sessions_keeps. intros rows s [Hin _]%list_elem_of_In%filter_In HR Hv. exists s. split; [by apply list_elem_of_In|done].
Qed.

Lemma IssueTicket_keeps rand sess host ret clientIP fingerprint cfg :
  keeps I (IssueTicket sha256 now rand sess host ret clientIP fingerprint cfg).
Proof.
  unfold IssueTicket. destruct (genAccessSecret rand); [|apply kp_ret].
  apply kp_bind; [apply on_tickets_keeps|]. intros; apply kp_ret.
Qed.

Lemma ConsumeTicket_keeps plain host clientIP fingerprint cfg :
  keeps I (ConsumeTicket sha256 now plain host clientIP fingerprint cfg).
Proof.
  unfold ConsumeTicket. case_bool_decide; [apply kp_ret|]. apply kp_bind; [apply kp_gets|]. intros n.
  apply kp_bind; [apply on_tickets_keeps|]. intros _. destruct (negb _); [apply kp_ret|].
  apply kp_bind; [apply kp_gets|]. intros [t|]; [|apply kp_ret].
  destruct (negb _); [apply kp_ret|]. destruct (_ && _ && _); [apply kp_ret|]. destruct (_ && _ && _); apply kp_ret.
Qed.

End at_time.

(** Once [RevokeSession] has returned, the session is known to be revoked. *)
Lemma RevokeSession_learns R now code reason st :
  code ≠ [] → Inv R now st → Inv (λ c, R c ∨ c = code) now (RevokeSession now code reason st).1.
Proof.
  intros Hne HI. unfold RevokeSession. rewrite bool_decide_eq_false_2 by done.
  assert (HI1 := revokeSessionRows_keeps R now code reason st HI). unfold mbind, M_bind.
  assert (Hcodes : (revokeSessionRows now code reason st).2 = map Token.TokenCode (List.filter (of_session code) (tokens st))) by done.
  assert (Htok : tokens (revokeSessionRows now code reason st).1 = update_where (of_session code) (Token.revoke now) (tokens st)) by done.
  assert (Hses : sessions (revokeSessionRows now code reason st).1 = update_where (has_code code) (Session.revoke reason now) (sessions st)) by done.
  destruct (revokeSessionRows now code reason st) as [st1 codes]. cbn [fst snd] in *.
  unfold kickCache. rewrite bool_decide_eq_false_2 by done. unfold mbind, M_bind.
  assert (HI2 := cache_remove_keeps R now (CACHE_ACCESS_SESSION ++ code) st1 HI1).
  assert (Hrem : ∀ k item, cache (cache_remove (CACHE_ACCESS_SESSION ++ code) st1).1 !! k = Some item → k ≠ CACHE_ACCESS_SESSION ++ code).
  { cbn. intros k item [_ Hk]%remove_lookup. done. }
  assert (Hsame : tokens (cache_remove (CACHE_ACCESS_SESSION ++ code) st1).1 = tokens st1 ∧ sessions (cache_remove (CACHE_ACCESS_SESSION ++ code) st1).1 = sessions st1) by done.
  destruct (cache_remove _ st1) as [st2 u]. cbn [fst snd] in *. destruct Hsame as [Ht2 Hs2].
  destruct (kick_tokens_left R now codes st2) as (Ht3 & Hs3 & Hc3).
  assert (HI3 := keeps_for_each _ (kick_token now) codes (kick_token_keeps R now) st2 HI2).
  destruct (for_each (kick_token now) codes st2) as [st3 u3]. cbn [fst] in *. split.
  - intros k item Hk. destruct (inv_cache _ _ _ HI3 k item Hk) as [Hn He]. split; [done|].
    destruct (Hc3 k item Hk) as [[v Hv]|[Hk2 Hout]]; [by rewrite Hv|].
    destruct (WafCache.value item) as [s|s| | |]; [..|done|done|done].
    + destruct He as (HP & c & -> & Hl). split; [done|]. exists c. split; [done|]. intros Hlive.
      destruct (Hl Hlive) as (HR & row & Hin & Hag & Hva). split; [|by exists row]. intros [HR'| E]; [done|].
      rewrite Ht3, Ht2, Htok in Hin. apply update_tokens_codes in Hin as (row' & Hin' & E1 & E2).
      apply (Hout c); [|done]. rewrite Hcodes, <- (ag_code _ _ _ Hag), E1. apply list_elem_of_fmap.
      exists row'. split; [done|]. apply list_elem_of_In, filter_In. split; [by apply list_elem_of_In|].
      apply bool_decide_eq_true. rewrite <- E2, <- (ag_session _ _ _ Hag). done.
    + destruct He as (-> & HR). split; [done|]. intros [HR'| E]; [done|]. apply (Hrem _ item Hk2). by rewrite E.
  - intros s. unfold mret, M_ret. cbn [fst]. rewrite Hs3, Hs2, Hses. intros (s' & -> & Hin)%list_elem_of_fmap. unfold has_code. case_bool_decide as Hc; [done|].
    intros [HR|E]; [|done]. by apply (inv_sessions _ _ _ HI).
Qed.

(** ** The operations as steps *)

Inductive op :=
| OpCreate (id : gostr) (rand : option gostr) (acct : Account.AccessAccount) (scope bindHost clientIP fingerprint userAgent : gostr) (cfg : Config)
| OpIssue (rand : option gostr) (sess : Session.AccessSession) (host hostCode clientIP fingerprint : gostr) (cfg : Config)
| OpValidate (plain host hostCode clientIP fingerprint : gostr) (cfg : Config)
| OpSSO (plain host clientIP fingerprint : gostr) (cfg : Config)
| OpRevokeSession (code reason : gostr)
| OpRevokeToken (plain : gostr)
| OpRevokeByAccount (account reason : gostr)
| OpRevokeByHostCode (code : gostr)
| OpKick (id : gostr)
| OpKickAll
| OpClean (keepDays : Z)
| OpTicket (rand : option gostr) (sess : Session.AccessSession) (host returnTo clientIP fingerprint : gostr) (cfg : Config)
| OpConsume (plain host clientIP fingerprint : gostr) (cfg : Config).

Definition exec (now : Z) (o : op) (st : store) : store :=
  match o with
  | OpCreate id rand acct scope bindHost ip fp ua cfg => (CreateSession sha256 lookupLocation now id rand acct scope bindHost ip fp ua cfg st).1
  | OpIssue rand sess host hostCode ip fp cfg => (IssueToken sha256 now rand sess host hostCode ip fp cfg st).1
  | OpValidate plain host hostCode ip fp cfg => (ValidateToken sha256 zone now plain host hostCode ip fp cfg st).1
  | OpSSO plain host ip fp cfg => (ValidateSSOSession sha256 zone now plain host ip fp cfg st).1
  | OpRevokeSession code reason => (RevokeSession now code reason st).1
  | OpRevokeToken plain => (RevokeToken sha256 now plain st).1
  | OpRevokeByAccount account reason => (RevokeByAccount now account reason st).1
  | OpRevokeByHostCode code => (RevokeByHostCode now code st).1
  | OpKick id => (KickApi now id st).1
  | OpKickAll => (KickAllApi now st).1
  | OpClean days => (CleanExpired now days st).1
  | OpTicket rand sess host ret ip fp cfg => (IssueTicket sha256 now rand sess host ret ip fp cfg st).1
  | OpConsume plain host ip fp cfg => (ConsumeTicket sha256 now plain host ip fp cfg st).1
  end.

(** The caching time is within the bound, and a new session does not get a code of [R]
    (32 random bytes, hashed), nor a new ticket a code of [T]. *)
Definition allowed (R T : gostr → Prop) (o : op) : Prop :=
  match o with
  | OpCreate _ rand _ _ _ _ _ _ _ => ∀ plain, genAccessSecret rand = Ok plain → ¬ R (hash plain)
  | OpTicket rand _ _ _ _ _ _ => ∀ plain, genAccessSecret rand = Ok plain → ¬ T (hash plain)
  | OpValidate _ _ _ _ _ cfg => CachePositiveTTL cfg ≤ P
  | _ => True
  end.

(** Any sequence of operations, the clock never going back. *)
Inductive reach (R T : gostr → Prop) : Z → store → Z → store → Prop :=
| reach_refl now st : reach R T now st now st
| reach_step now st t u st' o : reach R T now st t st' → t ≤ u → allowed R T o → reach R T now st u (exec u o st').

Definition nothing : gostr → Prop := λ _, False.
Definition empty (accts : list Account.AccessAccount) : store := mkStore [] [] [] accts ∅ [].
Definition reachable (now : Z) (st : store) : Prop := ∃ t accts, reach nothing nothing t (empty accts) now st.

Lemma Inv_exec R T now o st : allowed R T o → Inv R now st → Inv R now (exec now o st).
Proof.
  intros Ha HI. destruct o; cbn in *.
  - by apply CreateSession_keeps.
  - by apply IssueToken_keeps.
  - by apply ValidateToken_spec.
  - by apply ValidateSSOSession_spec.
  - by apply RevokeSession_keeps.
  - by apply RevokeToken_keeps.
  - by apply RevokeByAccount_keeps.
  - by apply RevokeByHostCode_keeps.
  - by apply KickApi_keeps.
  - by apply KickAllApi_keeps.
  - by apply CleanExpired_keeps.
  - by apply IssueTicket_keeps.
  - by apply ConsumeTicket_keeps.
Qed.

Lemma Inv_reach R T now st t st' : reach R T now st t st' → Inv R now st → Inv R t st'.
Proof.
  induction 1 as [|now st t u st' o _ IH Ht Ha]; [done|]. intros HI. eapply Inv_exec; [done|].
  eapply Inv_later; [done|]. by apply IH.
Qed.

Lemma Inv_empty now accts : Inv nothing now (empty accts).
Proof. split; cbn; [|set_solver]. intros k item. by rewrite lookup_empty. Qed.

Lemma Inv_reachable now st : reachable now st → Inv nothing now st.
Proof. intros (t & accts & Hr). eapply Inv_reach; [done|]. apply Inv_empty. Qed.

(** ** The session behind a token *)

(** The sessions have a row of this code that is in force or was revoked after [c]. *)
Definition in_table (c : Z) (code : gostr) (rows : list Session.AccessSession) : Prop :=
  ∃ row, row ∈ rows ∧ Session.SessionCode row = code ∧ (Session.Status row = AccessStatusValid ∨ c ≤ Session.UPDATE_TIME row).
Lemma in_table_sooner c c' code rows : c' ≤ c → in_table c code rows → in_table c' code rows.
Proof. intros Hc (row & Hin & Hrow & Hs). exists row. split; [done|]. split; [done|]. destruct Hs; [by left|right; lia]. Qed.

(** What a cached session or token state rests on; a state was made from a session that
    may itself have come from the cache. *)
Definition rests_on (now : Z) (rows : list Session.AccessSession) (item : WafCache.WafCacheItem aval) : Prop :=
  WafCache.createTime item ≤ now ∧
  match WafCache.value item with
  | VSession s => WafCache.ttl item ≤ P ∧ (WafCache.live now item = true → in_table (WafCache.createTime item) (Session.SessionCode s) rows)
  | VState s => WafCache.ttl item ≤ P ∧ (WafCache.live now item = true → in_table (WafCache.createTime item - P) (State.SessionCode s) rows)
  | _ => True
  end.
Definition resting (now : Z) (st : store) : Prop := ∀ k item, cache st !! k = Some item → rests_on now (sessions st) item.

Lemma rests_on_mono now rows rows' item : rests_on now rows item →
  (∀ c code, now - 2 * P ≤ c ≤ now ∨ now - P ≤ c ≤ now → in_table c code rows → in_table c code rows') → 0 ≤ P → rests_on now rows' item.
Proof.
  intros [Hn Hv] Ht HP. split; [done|]. destruct (WafCache.value item); try done; destruct Hv as [Hp Hl]; (split; [done|]); intros Hlive; apply Ht; auto; unfold WafCache.live in Hlive; prop_of_bool; lia.
Qed.
Lemma resting_later now t st : now ≤ t → resting now st → resting t st.
Proof.
  intros Ht Hr k item Hk. destruct (Hr k item Hk) as [Hn Hv]. split; [lia|].
  destruct (WafCache.value item); try done; destruct Hv as [Hp Hl]; (split; [done|]); intros Hlive; apply Hl; by eapply live_earlier.
Qed.

Section resting_at.
Context (now : Z).
Hypothesis P_half : 2 * P ≤ 24 * hour.
Hypothesis P_pos : 0 ≤ P.
Abbreviation J := (resting now).

Lemma J_cache_less {A} (f : gmap gostr (WafCache.WafCacheItem aval) → gmap gostr (WafCache.WafCacheItem aval) * A) :
  (∀ c k item, (f c).1 !! k = Some item → c !! k = Some item) → keeps J (on_cache f).
Proof.
  intros Hf st HJ. unfold on_cache. specialize (Hf (cache st)). destruct (f (cache st)) as [c a]. intros k item Hk. cbn in *. by apply (HJ k), Hf.
Qed.
Lemma J_deleted (c : gmap gostr (WafCache.WafCacheItem aval)) k k' item : delete k c !! k' = Some item → c !! k' = Some item.
Proof using. by intros [_ Hk]%lookup_delete_Some. Qed.
Lemma J_get key : keeps J (cache_get now key).
Proof.
  apply J_cache_less. intros c k item. unfold WafCache.Get. destruct (c !! key) as [i|]; [|done]. destruct (WafCache.live now i); [done|]. apply J_deleted.
Qed.
Lemma J_exists key : keeps J (cache_exists now key).
Proof.
  apply J_cache_less. intros c k item. unfold WafCache.IsKeyExist. destruct (c !! key) as [i|]; [|done]. destruct (WafCache.live now i); [done|]. apply J_deleted.
Qed.
Lemma J_remove key : keeps J (cache_remove key).
Proof. apply J_cache_less. intros c k item. cbn. unfold WafCache.Remove. destruct (c !! key); [|done]. apply J_deleted. Qed.
Lemma J_set key v t st : J st → (∀ created, created ≤ now → rests_on now (sessions st) (WafCache.put created t v)) → J (cache_set now key v t st).1.
Proof.
  intros HJ Hv k item. cbn. unfold WafCache.SetWithTTl. rewrite lookup_insert_Some. intros [[<- <-]|[_ Hk]]; [|by apply (HJ k)].
  apply Hv. destruct (cache st !! key) as [i|] eqn:E; [|lia]. by destruct (HJ key i E).
Qed.
Lemma J_bad code : keeps J (markBad now code).
Proof. intros st HJ. apply J_set; [done|]. by intros c Hc. Qed.

Lemma J_others f g h l : keeps J (modify (λ st, mkStore (sessions st) (f st) (g st) (h st) (cache st) (l st))).
Proof. intros st HJ k item Hk. by apply (HJ k). Qed.
Lemma J_sessions f : (∀ rows c code, now - 2 * P ≤ c ≤ now → in_table c code rows → in_table c code (f rows)) → keeps J (on_sessions f).
Proof. intros Hf st HJ k item Hk. eapply rests_on_mono; [by apply (HJ k)| |done]. intros c code Hc. cbn. apply Hf. lia. Qed.
Lemma J_update p f : (∀ s, Session.SessionCode (f s) = Session.SessionCode s ∧ (Session.Status (f s) = Session.Status s ∧ Session.UPDATE_TIME (f s) = Session.UPDATE_TIME s ∨ Session.UPDATE_TIME (f s) = now)) →
  keeps J (on_sessions (update_where p f)).
Proof.
  intros Hf. apply J_sessions. intros rows c code Hc (row & Hin & Hrow & Hs). exists (if p row then f row else row). split; [apply list_elem_of_fmap; by exists row|].
  destruct (p row); [|done]. destruct (Hf row) as [E [[E1 E2]|E1]]; (split; [congruence|]); [rewrite E1, E2; done|right; lia].
Qed.
Lemma J_revoke p reason : keeps J (on_sessions (update_where p (Session.revoke reason now))).
Proof. apply J_update. intros s. split; [done|by right]. Qed.
Lemma J_revoke_rows code reason : keeps J (revokeSessionRows now code reason).
Proof.
  unfold revokeSessionRows. apply kp_bind; [apply kp_gets|]. intros toks. apply kp_bind; [apply J_revoke|]. intros _. apply kp_bind; [apply J_others|]. intros _. apply kp_ret.
Qed.

(** A session that is loaded was in force within the caching time. *)
Definition loaded_from (rows : list Session.AccessSession) (r : option Session.AccessSession) (st : store) : Prop :=
  ∀ sess, r = Some sess → in_table (now - P) (Session.SessionCode sess) rows ∧ sessions st = rows.
Lemma J_load_db code cfg st : CachePositiveTTL cfg ≤ P → J st →
  J (load_from_db now code cfg st).1 ∧ loaded_from (sessions st) (load_from_db now code cfg st).2 (load_from_db now code cfg st).1.
Proof.
  intros HP HJ. unfold load_from_db, gets, mbind, M_bind. cbv beta iota. destruct (List.find (valid_session code) (sessions st)) as [sess|] eqn:E; [|by split].
  apply find_some in E as [Hin Hv]. unfold valid_session, has_code in Hv. prop_of_bool. destruct (Session.ExpireTime sess <? now); [by split|].
  destruct (_ && _ && _).
  - pose proof (J_revoke_rows (Session.SessionCode sess) AccessRevokeByExpire st HJ) as Hk. destruct (revokeSessionRows now _ _ st) as [st' a]. by split.
  - assert (Hrow : ∀ c, in_table c (Session.SessionCode sess) (sessions st)) by (intros c; exists sess; split; [by apply list_elem_of_In|]; split; [done|by left]).
    split; [|by intros ? [= <-]]. apply (J_set _ (VSession sess) (CachePositiveTTL cfg) st HJ). intros c Hc. split; [done|]. by split.
Qed.
Lemma J_get_spec key st : J st → J (cache_get now key st).1 ∧ sessions (cache_get now key st).1 = sessions st ∧
  ∀ v, (cache_get now key st).2 = Some v → ∃ item, WafCache.value item = v ∧ WafCache.live now item = true ∧ rests_on now (sessions st) item.
Proof.
  intros HJ. split; [by apply J_get|]. unfold cache_get, on_cache, WafCache.Get. destruct (cache st !! key) as [item|] eqn:E; [|done].
  destruct (WafCache.live now item) eqn:El; [|done]. split; [done|]. cbn. intros v [= <-]. exists item. split; [done|]. split; [done|]. by apply (HJ key).
Qed.
Lemma J_load code cfg st : CachePositiveTTL cfg ≤ P → J st →
  J (loadValidSession zone now code cfg st).1 ∧ loaded_from (sessions st) (loadValidSession zone now code cfg st).2 (loadValidSession zone now code cfg st).1.
Proof.
  intros HP HJ. unfold loadValidSession. case_bool_decide; [by split|]. unfold mbind, M_bind. destruct (J_get_spec (CACHE_ACCESS_SESSION ++ code) st HJ) as (HJ' & Hs & Hv).
  destruct (cache_get now _ st) as [st' v]. cbn [fst snd] in *. pose proof (J_load_db code cfg st' HP HJ') as Hdb. rewrite Hs in Hdb.
  destruct v as [[| s | | |]|]; try exact Hdb. cbv zeta. destruct (_ && _); [|exact Hdb]. split; [done|]. intros sess [= <-]. split; [|done].
  destruct (Hv _ eq_refl) as (item & Hval & Hl & Hn & Hr). rewrite Hval in Hr. destruct Hr as [Hp Ht]. eapply in_table_sooner; [|by apply Ht].
  unfold WafCache.live in Hl. prop_of_bool. lia.
Qed.

(** An accepted token is of such a session. *)
Definition recent_session (rows : list Session.AccessSession) (r : option State.AccessState) : Prop :=
  ∀ s, r = Some s → in_table (now - 2 * P) (State.SessionCode s) rows.
Lemma J_touchToken token : keeps J (touchToken now token).
Proof. unfold touchToken. destruct (_ && _); [apply kp_ret|]. apply J_others. Qed.
Lemma J_validate_db code host hostCode clientIP fingerprint cfg st : CachePositiveTTL cfg ≤ P → J st →
  J (validate_from_db zone now code host hostCode clientIP fingerprint cfg st).1 ∧
  recent_session (sessions st) (validate_from_db zone now code host hostCode clientIP fingerprint cfg st).2.
Proof.
  intros HP HJ. unfold validate_from_db, gets, mbind, M_bind. cbv beta iota. assert (Hbad : ∀ st', J st' → J (markBad now code st').1) by apply J_bad.
  destruct (List.find (valid_token code) (tokens st)) as [token|] eqn:E. 2: { specialize (Hbad st HJ). destruct (markBad now code st). by split. }
  destruct (Token.ExpireTime token <? now). { specialize (Hbad st HJ). destruct (markBad now code st). by split. }
  destruct (J_load (Token.SessionCode token) cfg st HP HJ) as [HJ1 Hld].
  destruct (loadValidSession zone now (Token.SessionCode token) cfg st) as [st1 [sess|]]; cbn [fst snd] in *.
  2: { specialize (Hbad st1 HJ1). destruct (markBad now code st1). by split. }
  destruct (Hld sess eq_refl) as (Hrow & Hs).
  assert (HJ2 := J_set (CACHE_ACCESS_TOKEN ++ code) (VState (state_of sess token)) (CachePositiveTTL cfg) st1 HJ1).
  destruct (cache_set now _ _ _ st1) as [st2 u]. cbn [fst] in HJ2.
  assert (HJ2' : J st2).
  { apply HJ2. intros c Hc. split; [done|]. split; [done|]. intros _. rewrite Hs. eapply in_table_sooner; [|exact Hrow]. cbn. lia. }
  assert (Hr : recent_session (sessions st) (Some (state_of sess token))) by (intros s [= <-]; eapply in_table_sooner; [|exact Hrow]; lia).
  destruct (State.matchBindings _ _ _ _ _ _) eqn:Em; cbn [negb]; [|by split].
  assert (Ht2 := J_touchToken token st2 HJ2'). destruct (touchToken now token st2). by split.
Qed.
Lemma J_validate plain host hostCode clientIP fingerprint cfg st : CachePositiveTTL cfg ≤ P → J st →
  J (ValidateToken sha256 zone now plain host hostCode clientIP fingerprint cfg st).1 ∧
  recent_session (sessions st) (ValidateToken sha256 zone now plain host hostCode clientIP fingerprint cfg st).2.
Proof.
  intros HP HJ. unfold ValidateToken. case_bool_decide; [by split|]. cbv zeta. unfold mbind, M_bind. assert (HJ1 := J_exists (CACHE_ACCESS_BAD ++ hash plain) st HJ).
  assert (Hs1 : sessions (cache_exists now (CACHE_ACCESS_BAD ++ hash plain) st).1 = sessions st) by (unfold cache_exists, on_cache; by destruct (WafCache.IsKeyExist _ _ _)).
  destruct (cache_exists now _ st) as [st1 bad]. cbn [fst] in *. destruct bad; [by split|].
  destruct (J_get_spec (CACHE_ACCESS_TOKEN ++ hash plain) st1 HJ1) as (HJ2 & Hs2 & Hv). destruct (cache_get now _ st1) as [st2 v]. cbn [fst snd] in *.
  pose proof (J_validate_db (hash plain) host hostCode clientIP fingerprint cfg st2 HP HJ2) as Hdb. rewrite Hs2, Hs1 in Hdb.
  destruct v as [[s | | | |]|]; try exact Hdb. destruct (negb _ && _); [|exact Hdb].
  destruct (State.matchBindings _ _ _ _ _ _); [|by split]. split; [done|]. intros s' [= <-].
  destruct (Hv _ eq_refl) as (item & Hval & Hl & Hn & Hr). rewrite Hval, Hs1 in Hr. destruct Hr as [Hp Ht]. eapply in_table_sooner; [|by apply Ht].
  unfold WafCache.live in Hl. prop_of_bool. lia.
Qed.

Lemma J_touchSession sess : keeps J (touchSession now sess).
Proof.
  unfold touchSession. destruct (_ && _); [apply kp_ret|]. apply kp_bind; [|intros; apply J_remove]. apply J_update. intros s. split; [done|by left].
Qed.
Lemma J_SSO plain host clientIP fingerprint cfg : CachePositiveTTL cfg ≤ P → keeps J (ValidateSSOSession sha256 zone now plain host clientIP fingerprint cfg).
Proof.
  intros HP st HJ. unfold ValidateSSOSession. case_bool_decide; [done|]. unfold mbind, M_bind. destruct (J_load (hash plain) cfg st HP HJ) as [HJ1 _].
  destruct (loadValidSession zone now (hash plain) cfg st) as [st1 [sess|]]; cbn [fst snd] in *; [|done]. repeat (destruct (_ && _ && _); [done|]).
  assert (Ht := J_touchSession sess st1 HJ1). by destruct (touchSession now sess st1).
Qed.

Lemma J_kick code : keeps J (kick_token now code).
Proof. apply kp_bind; [apply J_remove|]. intros; apply J_bad. Qed.
Lemma J_RevokeSession code reason : keeps J (RevokeSession now code reason).
Proof.
  unfold RevokeSession. case_bool_decide; [apply kp_ret|]. apply kp_bind; [apply J_revoke_rows|]. intros codes. apply kp_bind; [|intros; apply kp_ret].
  unfold kickCache. apply kp_bind; [destruct (bool_decide _); [apply kp_ret|apply J_remove]|]. intros _. apply keeps_for_each, J_kick.
Qed.
Lemma J_revoke_each reason rows : keeps J (revoke_each now reason rows).
Proof. apply keeps_for_each. intros. apply kp_bind; [apply J_RevokeSession|]. intros; apply kp_ret. Qed.
Lemma J_kick_one id : keeps J (KickApi now id).
Proof. unfold KickApi. apply kp_bind; [apply kp_gets|]. intros [s|]; [by apply J_RevokeSession|apply kp_ret]. Qed.
Lemma J_kick_all : keeps J (KickAllApi now).
Proof. unfold KickAllApi. apply kp_bind; [apply kp_gets|]. intros rows. apply kp_bind; [by apply J_revoke_each|]. intros; apply kp_ret. Qed.
Lemma J_by_account code reason : keeps J (RevokeByAccount now code reason).
Proof.
  unfold RevokeByAccount. case_bool_decide; [apply kp_ret|]. apply kp_bind; [apply kp_gets|]. intros rows. apply kp_bind; [by apply J_revoke_each|intros; apply kp_ret].
Qed.
Lemma J_by_host code : keeps J (RevokeByHostCode now code).
Proof.
  unfold RevokeByHostCode. case_bool_decide; [apply kp_ret|]. apply kp_bind; [apply kp_gets|]. intros rows. destruct rows; [apply kp_ret|]. apply kp_bind; [apply J_others|].
  intros _. apply kp_bind; [apply keeps_for_each; intros; apply J_kick|]. intros; apply kp_ret.
Qed.
Lemma J_revoke_token plain : keeps J (RevokeToken sha256 now plain).
Proof. unfold RevokeToken. case_bool_decide; [apply kp_ret|]. apply kp_bind; [apply J_others|intros; apply J_kick]. Qed.
Lemma J_issue rand sess host hostCode ip fp cfg : keeps J (IssueToken sha256 now rand sess host hostCode ip fp cfg).
Proof. unfold IssueToken. destruct (genAccessSecret rand); [|apply kp_ret]. apply kp_bind; [apply J_others|intros; apply kp_ret]. Qed.
Lemma J_Clean days : keeps J (CleanExpired now days).
Proof.
  unfold CleanExpired. cbv zeta. apply kp_bind; [apply J_revoke|]. intros _. apply kp_bind; [apply J_others|]. intros _. apply kp_bind; [apply J_others|]. intros _.
  apply kp_bind; [apply J_others|]. intros _. apply J_sessions. intros rows c code Hc (row & Hin & Hrow & Hs). exists row. split; [|done].
  apply list_elem_of_In, filter_In. split; [by apply list_elem_of_In|]. apply negb_true_iff, not_true_iff_false. intros [Hst Hu]%andb_true_iff. unfold sql_lt in Hu. prop_of_bool.
  destruct Hs as [Hs|Hs]; [rewrite Hs in *; done|]. set (d := if days <=? 0 then 7 else days) in *. assert (0 < d) by (unfold d; destruct (Z.leb_spec days 0); lia).
  unfold hour, minute, second in *. nia.
Qed.
Lemma J_ticket rand sess host ret clientIP fingerprint cfg : keeps J (IssueTicket sha256 now rand sess host ret clientIP fingerprint cfg).
Proof. unfold IssueTicket. destruct (genAccessSecret rand); [|apply kp_ret]. apply kp_bind; [apply J_others|]. intros; apply kp_ret. Qed.
Lemma J_consume plain host clientIP fingerprint cfg : keeps J (ConsumeTicket sha256 now plain host clientIP fingerprint cfg).
Proof.
  unfold ConsumeTicket. case_bool_decide; [apply kp_ret|]. apply kp_bind; [apply kp_gets|]. intros n. apply kp_bind; [apply J_others|]. intros _. destruct (negb _); [apply kp_ret|].
  apply kp_bind; [apply kp_gets|]. intros [t|]; [|apply kp_ret]. destruct (negb _); [apply kp_ret|]. destruct (_ && _ && _); [apply kp_ret|]. destruct (_ && _ && _); apply kp_ret.
Qed.
Lemma J_create id rand acct scope bindHost clientIP fingerprint userAgent cfg : keeps J (CreateSession sha256 lookupLocation now id rand acct scope bindHost clientIP fingerprint userAgent cfg).
Proof.
  unfold CreateSession. destruct (genAccessSecret rand); [|apply kp_ret]. destruct (lookupLocation clientIP). apply kp_bind; [|intros; apply kp_ret]. apply J_sessions.
  intros rows c code _ (row & Hin & Hrow). exists row. split; [set_solver|done].
Qed.
End resting_at.

(** The caching times of all the configurations are within the bound. *)
Definition capped (o : op) : Prop :=
  match o with OpValidate _ _ _ _ _ cfg | OpSSO _ _ _ _ cfg => CachePositiveTTL cfg ≤ P | _ => True end.
Inductive runs : Z → store → Prop :=
| runs_empty accts t : runs t (empty accts)
| runs_step t st u o : runs t st → t ≤ u → capped o → runs u (exec u o st).
Lemma runs_reachable t st : runs t st → reachable t st.
Proof.
  induction 1 as [accts t|t st u o _ (t0 & accts & Hr) Ht Hc]; [exists t, accts; apply reach_refl|]. exists t0, accts. eapply reach_step; [done|done|].
  destruct o; cbn in *; try done; by intros plain _ [].
Qed.
Lemma resting_exec now o st : 2 * P ≤ 24 * hour → 0 ≤ P → capped o → resting now st → resting now (exec now o st).
Proof.
  intros H2 H0 Hc HJ. destruct o; cbn in *.
  - by apply J_create.
  - by apply J_issue.
  - by apply J_validate.
  - by apply J_SSO.
  - by apply J_RevokeSession.
  - by apply J_revoke_token.
  - by apply J_by_account.
  - by apply J_by_host.
  - by apply J_kick_one.
  - by apply J_kick_all.
  - by apply J_Clean.
  - by apply J_ticket.
  - by apply J_consume.
Qed.
Lemma resting_runs t st : 2 * P ≤ 24 * hour → 0 ≤ P → runs t st → resting t st.
Proof.
  intros H2 H0. induction 1 as [accts t|t st u o _ IH Ht Hc]; [intros k item Hk; cbn in Hk; by rewrite lookup_empty in Hk|]. apply resting_exec; [done..|]. by eapply resting_later.
Qed.

(** C13: a token opens what it was issued for, and nothing else.  In every state the
    services can reach with caching times of at most [P], when [ValidateToken] accepts a
    cookie for a request, from the caches or from the tables, there is a row issued under
    the digest of the cookie, for the site record and the host of the request and, when
    the options ask for it, for its address and device; the row has not expired, and it is
    in force or was revoked at most the caching time ago.  And its session has a row that
    is in force, or was revoked at most twice the caching time ago: the token's state is
    cached, and may have been made from a cached session. *)
Theorem ValidateToken_sound now st t plain host hostCode clientIP fingerprint cfg s :
  runs now st → now ≤ t → 0 ≤ P → 2 * P ≤ 24 * hour → CachePositiveTTL cfg ≤ P →
  (ValidateToken sha256 zone t plain host hostCode clientIP fingerprint cfg st).2 = Some s →
  (∃ row, row ∈ tokens st ∧ Token.TokenCode row = hash plain ∧ State.SessionCode s = Token.SessionCode row ∧
    (Token.HostCode row = hostCode ∧ hostCode ≠ []) ∧ equal_fold (Token.Host row) host = true ∧
    (BindIP cfg = true → Token.ClientIP row = [] ∨ Token.ClientIP row = clientIP) ∧
    (BindFingerprint cfg = true → Token.Fingerprint row = [] ∨ Token.Fingerprint row = fingerprint) ∧
    t ≤ Token.ExpireTime row ∧
    (Token.Status row = AccessStatusValid ∨ t - Token.UPDATE_TIME row ≤ P)) ∧
  (∃ sess, sess ∈ sessions st ∧ Session.SessionCode sess = State.SessionCode s ∧
    (Session.Status sess = AccessStatusValid ∨ t - Session.UPDATE_TIME sess ≤ 2 * P)).
Proof.
  intros Hr Ht H0 H2 HP Hs. split.
  - destruct (ValidateToken_spec nothing t plain host hostCode clientIP fingerprint cfg st HP) as [_ Ha].
    { eapply Inv_later; [done|]. by apply Inv_reachable, runs_reachable. }
    destruct (Ha s Hs) as (row & []). exists row. auto 10.
  - destruct (J_validate t H0 plain host hostCode clientIP fingerprint cfg st HP) as [_ Ha].
    { eapply resting_later; [done|]. by apply resting_runs. }
    destruct (Ha s Hs) as (sess & Hin & Hc & Hv). exists sess. split; [done|]. split; [done|]. destruct Hv; [by left|right; lia].
Qed.

(** C21: logging out is final.  Once [RevokeSession] has run, whatever operations follow
    (a new session never getting the same code), no cookie is accepted as a token of
    that session, and the session's own cookie is not accepted either. *)
Theorem RevokeSession_final now st t code reason u st' v plain host hostCode clientIP fingerprint cfg :
  reachable now st → now ≤ t → code ≠ [] →
  reach (λ c, c = code) nothing t (RevokeSession t code reason st).1 u st' → u ≤ v → CachePositiveTTL cfg ≤ P →
  (∀ s, (ValidateToken sha256 zone v plain host hostCode clientIP fingerprint cfg st').2 = Some s → State.SessionCode s ≠ code) ∧
  (∀ sess, (ValidateSSOSession sha256 zone v plain host clientIP fingerprint cfg st').2 = Some sess → Session.SessionCode sess ≠ code).
Proof.
  intros Hr Ht Hc Hafter Hv HP.
  assert (HI : Inv (λ c, c = code) v st').
  { eapply Inv_later; [done|]. eapply Inv_reach; [done|].
    eapply Inv_fewer; [|apply (RevokeSession_learns nothing); [done|eapply Inv_later; [done|]; by apply Inv_reachable]].
    intros c ->. by right. }
  split.
  - intros s Hs. destruct (ValidateToken_spec _ v plain host hostCode clientIP fingerprint cfg st' HP HI) as [_ Ha].
    destruct (Ha s Hs) as (row & []). done.
  - intros sess Hs. destruct (ValidateSSOSession_spec _ v plain host clientIP fingerprint cfg st' HI) as [_ Ha].
    destruct (Ha sess Hs) as [E HR]. by rewrite E.
Qed.

(** ** Tickets *)

(** A property of the ticket table alone is kept by all that does not touch it. *)
Section other_tables.
Context (Q : list Ticket.AccessTicket → Prop).
Abbreviation J := (λ st, Q (tickets st)).

Lemma on_cache_tickets {A} f : keeps J (@on_cache A f).
Proof. intros st Hq. unfold on_cache. by destruct (f (cache st)). Qed.
Lemma on_sessions_tickets f : keeps J (on_sessions f).
Proof. by intros st. Qed.
Lemma on_tokens_tickets f : keeps J (on_tokens f).
Proof. by intros st. Qed.
End other_tables.

Ltac head m := match m with ?f _ => head f | _ => m end.

(** Walk through a computation, down to its leaves. *)
Ltac walk := repeat match goal with
  | |- keeps _ (mret _) => apply kp_ret
  | |- keeps _ (gets _) => apply kp_gets
  | |- keeps _ (on_cache _) => apply on_cache_tickets
  | |- keeps _ (on_sessions _) => apply on_sessions_tickets
  | |- keeps _ (on_tokens _) => apply on_tokens_tickets
  | |- keeps _ (on_tickets _) => fail 1
  | |- keeps _ (mbind _ _) => apply kp_bind; [|intros ?]
  | |- keeps _ (for_each _ _) => apply keeps_for_each; intros ?
  | |- keeps _ (if ?b then _ else _) => destruct b
  | |- keeps _ (match ?x with _ => _ end) => destruct x eqn:?
  | |- keeps _ ?m => let h := head m in unfold h; cbv beta zeta
  end.

(** No row of that code can be exchanged any more. *)
Definition gone (code : gostr) (now : Z) (rows : list Ticket.AccessTicket) : Prop :=
  ∀ r, r ∈ rows → usable_ticket now code r = false.

Lemma usable_ticket_later now t code r : now ≤ t → usable_ticket now code r = false → usable_ticket t code r = false.
Proof.
  unfold usable_ticket, sql_gt. intros Ht. destruct (bool_decide _), (Ticket.Used r =? 0), (is_zero _); try done.
  cbn. rewrite !Z.ltb_ge. lia.
Qed.

Lemma use_unusable now code : ∀ rows, gone code now (update_where (usable_ticket now code) (Ticket.use now) rows).
Proof.
  intros rows r (r' & -> & _)%list_elem_of_fmap. destruct (usable_ticket now code r') eqn:E; [|done].
  unfold usable_ticket. cbn. by rewrite andb_false_r.
Qed.

Lemma on_tickets_gone code now f :
  (∀ rows r, r ∈ f rows → usable_ticket now code r = true → r ∈ rows) →
  keeps (λ st, gone code now (tickets st)) (on_tickets f).
Proof.
  intros Hf st Hg r Hr. apply not_true_iff_false. intros Hu. pose proof (Hf _ _ Hr Hu) as Hin. apply Hg in Hin. congruence.
Qed.

Lemma use_other now code code' rows r :
  r ∈ update_where (usable_ticket now code') (Ticket.use now) rows → usable_ticket now code r = true → r ∈ rows.
Proof.
  intros (r' & -> & Hin)%list_elem_of_fmap. destruct (usable_ticket now code' r'); [|done].
  unfold usable_ticket. cbn. by rewrite andb_false_r.
Qed.

Lemma exec_gone R code now o st :
  allowed R (λ c, c = code) o → gone code now (tickets st) → gone code now (tickets (exec now o st)).
Proof.
  intros Ha Hg. destruct o; cbn [exec]; match goal with |- gone _ _ (tickets (fst (?m _))) =>
    cut (keeps (λ st, gone code now (tickets st)) m); [intros Hk; by apply Hk|]; walk end.
  - apply on_tickets_gone. intros rows r [Hin _]%list_elem_of_In%filter_In _. by apply list_elem_of_In.
  - apply on_tickets_gone. intros rows r [Hin| ->%list_elem_of_singleton]%elem_of_app Hu; [done|].
    unfold usable_ticket in Hu. cbn [Ticket.TicketCode] in Hu. prop_of_bool. exfalso. by eapply Ha; [eassumption|].
  - apply on_tickets_gone. intros rows r. apply use_other.
Qed.

Lemma gone_reach R code now st t st' :
  reach R (λ c, c = code) now st t st' → gone code now (tickets st) → gone code t (tickets st').
Proof.
  induction 1 as [|now st t u st' o _ IH Ht Ha]; [done|]. intros Hg. eapply exec_gone; [done|].
  intros r Hr. eapply usable_ticket_later; [done|]. by apply IH.
Qed.

Lemma ConsumeTicket_burns now plain host clientIP fingerprint cfg st :
  plain ≠ [] → gone (hash plain) now (tickets (ConsumeTicket sha256 now plain host clientIP fingerprint cfg st).1).
Proof.
  intros Hp. unfold ConsumeTicket. rewrite bool_decide_eq_false_2 by done.
  unfold on_tickets, modify, gets, mbind, M_bind. cbv beta iota zeta. cbn [tickets].
  destruct (negb _); [apply use_unusable|]. destruct (List.find _ _) as [t|]; [|apply use_unusable].
  destruct (negb _); [apply use_unusable|]. destruct (_ && _ && _); [apply use_unusable|].
  destruct (_ && _ && _); apply use_unusable.
Qed.

(** The checks after the update. *)
Lemma ConsumeTicket_ok now plain host clientIP fingerprint cfg st bean :
  (ConsumeTicket sha256 now plain host clientIP fingerprint cfg st).2 = Ok bean →
  ∃ row, row ∈ tickets st ∧ usable_ticket now (hash plain) row = true ∧
    equal_fold (Ticket.TargetHost bean) host = true ∧
    (BindIP cfg = true → Ticket.ClientIP bean = [] ∨ Ticket.ClientIP bean = clientIP) ∧
    (BindFingerprint cfg = true → Ticket.Fingerprint bean = [] ∨ Ticket.Fingerprint bean = fingerprint).
Proof.
  unfold ConsumeTicket. case_bool_decide; [done|]. unfold on_tickets, modify, gets, mbind, M_bind. cbv beta iota zeta. cbn [tickets].
  destruct (count_if _ _ =? 1)%nat eqn:En; [|done]. cbn [negb]. destruct (List.find _ _) as [t|]; [|done].
  destruct (equal_fold _ _) eqn:Ef; [|done]. cbn [negb]. destruct (BindIP cfg && _ && _) eqn:E3; [done|].
  destruct (BindFingerprint cfg && _ && _) eqn:E4; [done|]. intros [= ->]. prop_of_bool.
  unfold count_if in En. destruct (List.filter _ (tickets st)) as [|row l] eqn:El; [done|].
  assert (Hin : In row (row :: l)) by by left. rewrite <- El in Hin. apply filter_In in Hin as [Hin Hu].
  exists row. split; [by apply list_elem_of_In|]. split; [done|]. split; [done|].
  split; intros E; rewrite E in *; cbn in *; repeat case_bool_decide; auto; discriminate.
Qed.

(** C33: a ticket is good for one attempt.  An exchange succeeds only for a row that is
    unused, unexpired and made out to this very host; and after any attempt, whether it
    succeeded or not, every later attempt with the same ticket is refused, whatever
    happens in between (a new ticket never getting the same code). *)
Theorem ConsumeTicket_once now plain host clientIP fingerprint cfg st u st' v host' clientIP' fingerprint' cfg' :
  plain ≠ [] →
  reach nothing (λ c, c = hash plain) now (ConsumeTicket sha256 now plain host clientIP fingerprint cfg st).1 u st' → u ≤ v →
  (∀ bean, (ConsumeTicket sha256 now plain host clientIP fingerprint cfg st).2 = Ok bean →
     equal_fold (Ticket.TargetHost bean) host = true ∧
     ∃ row, row ∈ tickets st ∧ Ticket.TicketCode row = hash plain ∧ Ticket.Used row = 0 ∧ now < Ticket.ExpireTime row) ∧
  (ConsumeTicket sha256 v plain host' clientIP' fingerprint' cfg' st').2 = Err TicketInvalid.
Proof.
  intros Hp Hr Hv. split.
  - intros bean (row & Hin & Hu & Hh & _)%ConsumeTicket_ok. split; [done|]. exists row. split; [done|].
    unfold usable_ticket, sql_gt in Hu. prop_of_bool. done.
  - apply gone_reach in Hr; [|by apply ConsumeTicket_burns].
    unfold ConsumeTicket. rewrite bool_decide_eq_false_2 by done. unfold on_tickets, modify, gets, mbind, M_bind. cbv beta iota zeta.
    rewrite count_if_false; [done|]. intros r Hin. eapply usable_ticket_later; [done|]. by apply Hr.
Qed.

(** ** A token that was issued is accepted *)

Lemma matchBindings_own s cfg :
  State.HostCode s ≠ [] → State.matchBindings s (State.Host s) (State.HostCode s) (State.ClientIP s) (State.Fingerprint s) cfg = true.
Proof.
  intros Hne. unfold State.matchBindings, equal_fold. rewrite !(bool_decide_eq_false_2 (State.HostCode s = [])) by done.
  rewrite (bool_decide_eq_true_2 (State.HostCode s = _)), (bool_decide_eq_true_2 (fold_ascii _ = _)),
    (bool_decide_eq_true_2 (State.ClientIP s = State.ClientIP s)), (bool_decide_eq_true_2 (State.Fingerprint s = State.Fingerprint s)) by done.
  cbn. by rewrite !andb_false_r.
Qed.

(** signing in works.  A token issued to a live session is accepted at once and until
    it expires, for the site, address and device it was issued to, and names the
    account of the session; it never outlives the session. *)
Theorem IssueToken_validates now rand plain sess host hostCode clientIP fingerprint cfg st t :
  genAccessSecret rand = Ok plain → plain ≠ [] → to_lower host = host → hostCode ≠ [] → Session.SessionCode sess ≠ [] →
  (∀ row, row ∈ tokens st → Token.TokenCode row ≠ hash plain) →
  cache st !! (CACHE_ACCESS_BAD ++ hash plain) = None → cache st !! (CACHE_ACCESS_TOKEN ++ hash plain) = None →
  List.find (valid_session (Session.SessionCode sess)) (sessions st) = Some sess →
  cache st !! (CACHE_ACCESS_SESSION ++ Session.SessionCode sess) = None →
  now ≤ t ≤ now + TokenTTL cfg → t ≤ Session.ExpireTime sess → IdleTimeout cfg ≤ 0 ∨ t - Session.LastActiveTime sess ≤ IdleTimeout cfg →
  let issued := IssueToken sha256 now rand sess host hostCode clientIP fingerprint cfg st in
  issued.2 = Ok plain ∧
  ∃ s, (ValidateToken sha256 zone t plain host hostCode clientIP fingerprint cfg issued.1).2 = Some s ∧
       State.SessionCode s = Session.SessionCode sess ∧ State.AccountCode s = Session.AccountCode sess ∧
       (is_zero (Session.ExpireTime sess) = false → State.ExpireUnix s ≤ unix (Session.ExpireTime sess)).
Proof.
  clear P_day. intros Hg Hp Hl Hhc Hsc Hfresh Hbad Htok Hfind Hses Ht He Hidle. cbv zeta. unfold IssueToken. rewrite Hg.
  set (expire := if _ && _ then _ else _).
  assert (Hexp : t ≤ expire) by (unfold expire; destruct (_ && _); lia).
  assert (Hmin : is_zero (Session.ExpireTime sess) = false → expire ≤ Session.ExpireTime sess).
  { intros Hz. unfold expire. rewrite Hz. destruct (Z.ltb_spec (Session.ExpireTime sess) (now + TokenTTL cfg)); cbn; lia. }
  unfold on_tokens, modify, mbind, M_bind, mret, M_ret. cbv beta iota. cbn [fst snd]. split; [done|]. rewrite Hl.
  set (token := Token.mk _ _ _ _ _ _ _ _ _ _ _).
  unfold ValidateToken. rewrite bool_decide_eq_false_2 by done. cbv zeta. unfold cache_exists, cache_get, on_cache, mbind, M_bind.
  cbn [cache]. rewrite (IsKeyExist_absent _ t _ Hbad). cbv beta iota. cbn [cache]. rewrite (Get_absent _ t _ Htok). cbv beta iota.
  unfold validate_from_db, gets, mbind, M_bind. cbv beta iota. cbn [tokens sessions tickets accounts cache].
  rewrite (find_app_none _ _ token); [|intros y Hy; unfold valid_token; by rewrite bool_decide_eq_false_2 by auto|unfold valid_token; by rewrite bool_decide_eq_true_2].
  change (Token.ExpireTime token) with expire. rewrite (proj2 (Z.ltb_ge _ _)) by done.
  change (Token.SessionCode token) with (Session.SessionCode sess).
  unfold loadValidSession. rewrite bool_decide_eq_false_2 by done. unfold cache_get, on_cache, mbind, M_bind. cbn [cache].
  rewrite (Get_absent _ t _ Hses). cbv beta iota. unfold load_from_db, gets, mbind, M_bind. cbv beta iota. cbn [tokens sessions tickets accounts cache].
  rewrite Hfind, (proj2 (Z.ltb_ge _ _)) by lia.
  replace ((0 <? IdleTimeout cfg) && _ && _) with false.
  2: { symmetry. apply not_true_iff_false. intros Hx. prop_of_bool. lia. }
  unfold cache_set, on_cache, mret, M_ret. cbv beta iota.
  rewrite (matchBindings_own (state_of sess token)) by done. cbn [negb].
  destruct (touchToken _ _ _) as [st' u]. eexists. split; [done|]. split; [done|]. split; [done|].
  intros Hz. cbn. unfold unix. apply Z.div_le_mono; [done|]. by apply Hmin.
Qed.

End facts.
(** ** Witnesses *)

Section witnesses.
Local Instance plain_case : UnicodeCase := {| unicode_to_lower s := s |}.

Definition demo_cfg : Config :=
  mkConfig false true $"https://sso.x" $"sso.x" $"/samwaf_access" $"ac_sso" $"ac" $"k"
    (12 * hour) (12 * hour) (60 * second) 0 true false false 10 (3 * minute) [] [] [] [] (CORS.mkPolicy [] [] [] 0) $"auto" true false (60 * second).
Definition demo_account : Account.AccessAccount := Account.mk $"a1" $"ann" [] 1 [] 0 0 [] zero_time zero_time [] [] zero_time [] 0.
Definition no_place (_ : gostr) : gostr * gostr := ([], []).
Abbreviation same := (λ s : gostr, s).
Abbreviation step := (exec same no_place 28800).

Definition create : op := OpCreate $"s1" (Some $"S") demo_account AccessScopeSSO [] $"1.2.3.4" $"f" $"ua" demo_cfg.
Definition signed_in : store := step 0 create (empty [demo_account]).
Definition demo_session : Session.AccessSession :=
  Session.mk $"s1" (HashAccessCode same $"53") $"a1" $"ann" AccessScopeSSO [] $"1.2.3.4" $"f" $"ua" [] [] 1 [] 0 0 (12 * hour) 0.
Definition issue : op := OpIssue (Some $"T") demo_session $"oa.x" $"site" $"1.2.3.4" $"f" demo_cfg.
Definition with_token : store := step 0 issue signed_in.

Lemma demo_day : 60 * second ≤ 24 * hour.
Proof. discriminate. Qed.

Lemma demo_reachable : reachable same no_place 28800 (60 * second) 0 with_token.
Proof.
  exists 0, [demo_account]. unfold with_token. eapply (reach_step _ _ _ _ _ _ 0 _ 0 0 signed_in issue); [|lia|exact I].
  eapply (reach_step _ _ _ _ _ _ 0 _ 0 0 (empty [demo_account]) create); [apply reach_refl|lia|]. intros plain _ [].
Qed.

Lemma demo_runs : runs same no_place 28800 (60 * second) 0 with_token.
Proof. eapply (runs_step _ _ _ _ 0 signed_in 0 issue); [eapply (runs_step _ _ _ _ 0 (empty [demo_account]) 0 create); [apply runs_empty|lia|done]|lia|done]. Qed.
Lemma ValidateToken_sound_witness :
  (∃ row, row ∈ tokens with_token ∧ Token.HostCode row = $"site") ∧ ∃ sess, sess ∈ sessions with_token ∧ Session.Status sess = AccessStatusValid.
Proof.
  edestruct (ValidateToken_sound same no_place 28800 (60 * second) demo_day 0 with_token (121 * second) $"54" $"oa.x" $"site" $"1.2.3.4" $"f" demo_cfg)
    as [(row & Hin & _ & _ & (Hc & _) & _) (sess & Hs & _ & Hv)]; [apply demo_runs|discriminate|discriminate|discriminate|discriminate|vm_compute; reflexivity|].
  split; [by exists row|]. exists sess. split; [done|]. destruct Hv as [Hv|Hv]; [done|]. apply list_elem_of_singleton in Hs as ->. by destruct Hv.
Defined.

Lemma RevokeSession_final_witness :
  match (ValidateToken same 28800 minute $"54" $"oa.x" $"site" $"1.2.3.4" $"f" demo_cfg
          (RevokeSession second (HashAccessCode same $"53") AccessRevokeByLogout with_token).1).2 with
  | Some s => State.SessionCode s ≠ HashAccessCode same $"53"
  | None => True
  end.
Proof.
  pose proof (RevokeSession_final same no_place 28800 (60 * second) demo_day 0 with_token second (HashAccessCode same $"53")
    AccessRevokeByLogout second _ minute $"54" $"oa.x" $"site" $"1.2.3.4" $"f" demo_cfg demo_reachable ltac:(discriminate) ltac:(discriminate)
    (reach_refl _ _ _ _ _ _ _ _) ltac:(discriminate) ltac:(discriminate)) as [Hno _].
  destruct (ValidateToken _ _ _ _ _ _ _ _ _ _).2 as [s|]; [by apply Hno|done].
Defined.

Definition ticketed : store := step 0 (OpTicket (Some $"K") demo_session $"OA.x" $"https://oa.x/" $"1.2.3.4" $"f" demo_cfg) signed_in.

Lemma ConsumeTicket_once_witness :
  (ConsumeTicket same second $"4b" $"oa.x" $"1.2.3.4" $"f" demo_cfg
     (ConsumeTicket same second $"4b" $"oa.x" $"1.2.3.4" $"f" demo_cfg ticketed).1).2 = Err TicketInvalid ∧
  is_ok (ConsumeTicket same second $"4b" $"oa.x" $"1.2.3.4" $"f" demo_cfg ticketed).2 = true.
Proof.
  split; [|vm_compute; reflexivity].
  refine (proj2 (ConsumeTicket_once same no_place 28800 (60 * second) second $"4b" $"oa.x" $"1.2.3.4" $"f" demo_cfg ticketed
    second _ second $"oa.x" $"1.2.3.4" $"f" demo_cfg _ (reach_refl _ _ _ _ _ _ _ _) _)); discriminate.
Defined.

Lemma IssueToken_validates_witness :
  (IssueToken same 0 (Some $"T") demo_session $"oa.x" $"site" $"1.2.3.4" $"f" demo_cfg signed_in).2 = Ok $"54".
Proof.
  refine (proj1 (IssueToken_validates same 28800 0 (Some $"T") $"54" demo_session $"oa.x" $"site" $"1.2.3.4" $"f" demo_cfg signed_in minute
    _ _ _ _ _ _ _ _ _ _ _ _ _)).
  all: try (vm_compute; first [reflexivity | discriminate | by split | by left]).
  - vm_compute. set_solver.
Defined.
End witnesses.

End AccessFacts.
