(* ===== verification/AuthReq.v ===== *)
(** * The signed request of the access gate (wafenginecore/access_ticket.go)

    [rq] carries where to go back to after signing in:
    [base64url(payload) . base64url(HMAC-SHA256(secret, payload))].  base64 is written
    out; the MAC and the JSON of the payload are those of Go's library. *)
From S2P Require Import Prelude.
From S2P Require Import GoLib.
From S2P Require Import AccessGate.
Local Open Scope Z_scope.
Local Open Scope bool_scope.

(** ** encoding/base64, [RawURLEncoding] *)
Module Base64.

Definition alphabet : gostr := $"ABCDEFGHIJKLMNOPQRSTUVWXYZabcdefghijklmnopqrstuvwxyz0123456789-_".
Definition digit (v : Z) : ascii := nth (Z.to_nat v) alphabet "A"%char.
Definition value (c : ascii) : option Z := Z.of_nat <$> index_byte alphabet c.

Fixpoint EncodeToString (bs : gostr) : gostr :=
  match bs with
  | [] => []
  | [x] => let v := code x * 16 in [digit (v / 64); digit (v mod 64)]
  | [x; y] => let v := (code x * 256 + code y) * 4 in [digit (v / 4096); digit (v / 64 mod 64); digit (v mod 64)]
  | x :: y :: z :: rest =>
      let v := code x * 65536 + code y * 256 + code z in
      digit (v / 262144) :: digit (v / 4096 mod 64) :: digit (v / 64 mod 64) :: digit (v mod 64) :: EncodeToString rest
  end.

Fixpoint decode_groups (vs : list Z) : option gostr :=
  match vs with
  | [] => Some []
  | [_] => None
  | [a; b] => let v := a * 64 + b in Some [chr (v / 16)]
  | [a; b; c] => let v := (a * 64 + b) * 64 + c in Some [chr (v / 1024); chr (v / 4 mod 256)]
  | a :: b :: c :: d :: rest =>
      let v := ((a * 64 + b) * 64 + c) * 64 + d in
      rest' ← decode_groups rest;
      Some (chr (v / 65536) :: chr (v / 256 mod 256) :: chr (v mod 256) :: rest')
  end.

(** Line ends are skipped; any other byte outside the alphabet is an error; the bits left
    over in the last group are not looked at. *)
Definition DecodeString (s : gostr) : option gostr :=
  vs ← mapM value (List.filter (λ c, negb (Ascii.eqb c (chr 10) || Ascii.eqb c (chr 13))) s);
  decode_groups vs.

Example encode_ex : EncodeToString $"hello?" = $"aGVsbG8_". Proof. vm_compute. reflexivity. Qed.
Example decode_ex : DecodeString $"aGVsbG8_" = Some $"hello?". Proof. vm_compute. reflexivity. Qed.

Definition is_digit (c : ascii) : Prop := ∃ v, 0 ≤ v < 64 ∧ c = digit v.

Lemma digits_ok : forallb (λ n, bool_decide (value (digit (Z.of_nat n)) = Some (Z.of_nat n)) && negb (Ascii.eqb (digit (Z.of_nat n)) ".")
    && negb (Ascii.eqb (digit (Z.of_nat n)) (chr 10) || Ascii.eqb (digit (Z.of_nat n)) (chr 13))) (seq 0 64) = true.
Proof. vm_compute. reflexivity. Qed.

Lemma digit_ok v : 0 ≤ v < 64 →
  value (digit v) = Some v ∧ digit v ≠ "."%char ∧ negb (Ascii.eqb (digit v) (chr 10) || Ascii.eqb (digit v) (chr 13)) = true.
Proof.
  intros Hv. pose proof digits_ok as Hall. rewrite forallb_forall in Hall. specialize (Hall (Z.to_nat v)).
  rewrite Z2Nat.id in Hall by lia. specialize (Hall ltac:(apply in_seq; lia)).
  apply andb_true_iff in Hall as [Hall Hc]. apply andb_true_iff in Hall as [Hv' Hd].
  apply bool_decide_eq_true in Hv'. apply negb_true_iff, Ascii.eqb_neq in Hd. done.
Qed.

(** The sextets of an encoding. *)
Fixpoint sextets (bs : gostr) : list Z :=
  match bs with
  | [] => []
  | [x] => let v := code x * 16 in [v / 64; v mod 64]
  | [x; y] => let v := (code x * 256 + code y) * 4 in [v / 4096; v / 64 mod 64; v mod 64]
  | x :: y :: z :: rest =>
      let v := code x * 65536 + code y * 256 + code z in
      v / 262144 :: v / 4096 mod 64 :: v / 64 mod 64 :: v mod 64 :: sextets rest
  end.

(** Induction three bytes at a time. *)
Lemma three_ind (Q : gostr → Prop) :
  Q [] → (∀ x, Q [x]) → (∀ x y, Q [x; y]) → (∀ x y z rest, Q rest → Q (x :: y :: z :: rest)) → ∀ bs, Q bs.
Proof.
  intros H0 H1 H2 H3. fix IH 1. intros [|x [|y [|z rest]]]; [done|done|done|]. apply H3, IH.
Qed.

Lemma EncodeToString_sextets bs : EncodeToString bs = map digit (sextets bs).
Proof. induction bs as [|x|x y|x y z rest IH] using three_ind; [done..|]. cbn. by rewrite IH. Qed.

Ltac euclid := Z.to_euclidean_division_equations; lia.

Lemma sextets_range bs : Forall (λ v, 0 ≤ v < 64) (sextets bs).
Proof.
  induction bs as [|x|x y|x y z rest IH] using three_ind; [constructor|..];
    repeat match goal with c : ascii |- _ => lazymatch goal with H : 0 <= code c < 256 |- _ => fail | _ => pose proof (code_range c) end end;
    cbn [sextets]; cbv zeta; repeat (apply List.Forall_cons; [euclid|]); done.
Qed.

Lemma chr_of_code c v : v = code c → chr v = c.
Proof. intros ->. apply chr_code. Qed.

Lemma decode_sextets bs : decode_groups (sextets bs) = Some bs.
Proof.
  induction bs as [|x|x y|x y z rest IH] using three_ind; [done|..];
    repeat match goal with c : ascii |- _ => lazymatch goal with H : 0 <= code c < 256 |- _ => fail | _ => pose proof (code_range c) end end;
    cbn [sextets decode_groups]; cbv zeta.
  - by rewrite (chr_of_code x) by euclid.
  - by rewrite (chr_of_code x), (chr_of_code y) by euclid.
  - rewrite IH. cbn. by rewrite (chr_of_code x), (chr_of_code y), (chr_of_code z) by euclid.
Qed.

Lemma EncodeToString_no_dot bs : "."%char ∉ EncodeToString bs.
Proof.
  rewrite EncodeToString_sextets. intros (v & Hv & Hin)%list_elem_of_fmap. pose proof (sextets_range bs) as Hr.
  rewrite Forall_forall in Hr. destruct (digit_ok v (Hr v Hin)) as (_ & Hd & _). congruence.
Qed.

Lemma DecodeString_EncodeToString bs : DecodeString (EncodeToString bs) = Some bs.
Proof.
  rewrite EncodeToString_sextets. unfold DecodeString. pose proof (sextets_range bs) as Hr.
  assert (Hf : ∀ vs, Forall (λ v, 0 ≤ v < 64) vs →
    mapM value (List.filter (λ c, negb (Ascii.eqb c (chr 10) || Ascii.eqb c (chr 13))) (map digit vs)) = Some vs).
  { induction 1 as [|v vs Hv _ IH]; [done|]. destruct (digit_ok v Hv) as (E & _ & Hn). cbn [map List.filter]. rewrite Hn.
    apply mapM_Some in IH. apply mapM_Some. by constructor. }
  rewrite Hf by done. cbn. apply decode_sextets.
Qed.

Lemma EncodeToString_nonempty bs : bs ≠ [] → EncodeToString bs ≠ [].
Proof. destruct bs as [|x [|y [|z rest]]]; done. Qed.

End Base64.

Module AuthReq.

(** R: where to go back to; H: the host that asked; E: the end, in seconds; N: a nonce. *)
Record accessAuthReq := mkReq { R : gostr; H : gostr; E : Z; N : gostr }.

Definition accessAuthReqTTL : Z := 5 * minute.

(** [json.Marshal] of the payload, and [json.Unmarshal] into it. *)
Class PayloadJSON := { marshal : accessAuthReq → gostr; unmarshal : gostr → option accessAuthReq }.

Section rq.
Context `{PayloadJSON}.
(** HMAC-SHA256, of the secret and the message. *)
Variable hmac : gostr → gostr → gostr.

Definition signAuthReq (secret : gostr) (req : accessAuthReq) : gostr :=
  match secret with
  | [] => []
  | _ => let payload := marshal req in
         Base64.EncodeToString payload ++ $"." ++ Base64.EncodeToString (hmac secret payload)
  end.

Definition verifyAuthReq (nowUnix : Z) (secret rq : gostr) : option accessAuthReq :=
  if bool_decide (secret = []) || bool_decide (rq = []) then None
  else
    idx ← last_index_byte rq ".";
    if (idx <=? 0)%nat || (idx =? length rq - 1)%nat then None
    else
      payload ← Base64.DecodeString (take idx rq);
      sig ← Base64.DecodeString (drop (S idx) rq);
      if negb (bool_decide (sig = hmac secret payload)) then None
      else
        out ← unmarshal payload;
        if (0 <? E out) && (E out <? nowUnix) then None else Some out.

(** C38: what was signed is read back.  With a secret, a signed request is verified and
    gives back the very payload, until it expires. *)
Theorem verify_sign nowUnix secret req :
  secret ≠ [] → unmarshal (marshal req) = Some req → marshal req ≠ [] → hmac secret (marshal req) ≠ [] →
  nowUnix ≤ E req ∨ E req ≤ 0 →
  verifyAuthReq nowUnix secret (signAuthReq secret req) = Some req.
Proof.
  intros Hs Hj Hm Hh He. unfold signAuthReq. destruct secret as [|c secret]; [done|].
  set (p := Base64.EncodeToString (marshal req)). set (g := Base64.EncodeToString (hmac (c :: secret) (marshal req))).
  assert (Hp : p ≠ []) by by apply Base64.EncodeToString_nonempty.
  assert (Hg : g ≠ []) by by apply Base64.EncodeToString_nonempty.
  unfold verifyAuthReq. rewrite bool_decide_eq_false_2 by done. cbn [orb].
  rewrite bool_decide_eq_false_2 by by destruct p. change ($".") with (["."%char]). cbn [app].
  rewrite last_index_byte_app by apply Base64.EncodeToString_no_dot. cbn [mbind option_bind].
  rewrite length_app. cbn [length]. destruct p as [|p0 p'] eqn:Ep; [done|]. destruct g as [|g0 g'] eqn:Eg; [done|].
  cbn [length]. rewrite (proj2 (Nat.leb_gt _ _)), (proj2 (Nat.eqb_neq _ _)) by lia. cbn [orb].
  change (S (length p')) with (length (p0 :: p')). rewrite take_app_length, drop_after. rewrite <- Ep, <- Eg.
  unfold p, g. rewrite !Base64.DecodeString_EncodeToString. cbn [mbind option_bind].
  rewrite bool_decide_eq_true_2 by done. cbn [negb]. rewrite Hj. cbn [mbind option_bind].
  replace ((0 <? E req) && (E req <? nowUnix)) with false; [done|].
  symmetry. apply not_true_iff_false. intros Hx. prop_of_bool. lia.
Qed.

(** nothing unsigned is believed.  What [verifyAuthReq] returns is the decoded payload
    of a request whose other half decodes to the MAC of that payload under the secret,
    and it has not expired; without a secret nothing is verified, and nothing is signed. *)
Theorem verify_authentic nowUnix secret rq req :
  verifyAuthReq nowUnix secret rq = Some req →
  secret ≠ [] ∧ (E req ≤ 0 ∨ nowUnix ≤ E req) ∧
  ∃ a b payload, rq = a ++ "."%char :: b ∧ a ≠ [] ∧ b ≠ [] ∧ Base64.DecodeString a = Some payload ∧
    Base64.DecodeString b = Some (hmac secret payload) ∧ unmarshal payload = Some req.
Proof.
  unfold verifyAuthReq. case_bool_decide as Hs; [done|]. case_bool_decide as Hr; [done|]. cbn [orb].
  destruct (last_index_byte rq ".") as [idx|] eqn:Ei; [|done]. cbn [mbind option_bind].
  destruct (_ || _) eqn:Eb; [done|]. destruct (Base64.DecodeString (take idx rq)) as [payload|] eqn:Ep; [|done]. cbn [mbind option_bind].
  destruct (Base64.DecodeString (drop (S idx) rq)) as [sig|] eqn:Eg; [|done]. cbn [mbind option_bind].
  case_bool_decide as Hsig; [|done]. cbn [negb]. destruct (unmarshal payload) as [out|] eqn:Eo; [|done]. cbn [mbind option_bind].
  destruct ((0 <? E out) && (E out <? nowUnix)) eqn:Ex; [done|]. intros [= ->]. split; [done|].
  split. { apply andb_false_iff in Ex as [Ex|Ex]; prop_of_bool; lia. }
  assert (Hl : rq !! idx = Some "."%char).
  { clear -Ei. revert idx Ei. induction rq as [|c rq IH]; [done|]. cbn. intros idx. destruct (last_index_byte rq ".") as [i|].
    - intros [= <-]. cbn. by apply IH.
    - destruct (Ascii.eqb_spec c "."); [|done]. intros [= <-]. by subst. }
  apply orb_false_iff in Eb as [Eb1 Eb2]. prop_of_bool. pose proof (lookup_lt_Some _ _ _ Hl).
  exists (take idx rq), (drop (S idx) rq), payload. split; [symmetry; by apply take_drop_middle|].
  split. { intros Ht. apply (f_equal length) in Ht. rewrite length_take in Ht. cbn in Ht. lia. }
  split. { intros Ht. apply (f_equal length) in Ht. rewrite length_drop in Ht. cbn in Ht. lia. }
  subst sig. done.
Qed.

End rq.

Section witnesses.
(** A payload that is its return address; a MAC that is the secret and the message. *)
Local Instance toy_json : PayloadJSON :=
  {| marshal r := $"{" ++ R r; unmarshal s := match s with _ :: r => Some (mkReq r [] 100 []) | [] => None end |}.

Lemma verify_sign_witness :
  verifyAuthReq (λ k m, k ++ m) 50 $"k" (signAuthReq (λ k m, k ++ m) $"k" (mkReq $"https://oa.x/" [] 100 [])) = Some (mkReq $"https://oa.x/" [] 100 []).
Proof. apply (verify_sign (λ k m, k ++ m) 50 $"k" (mkReq $"https://oa.x/" [] 100 [])); first [discriminate | reflexivity | by left]. Defined.

Lemma verify_authentic_witness :
  E (mkReq $"https://oa.x/" [] 100 []) ≤ 0 ∨ 50 ≤ E (mkReq $"https://oa.x/" [] 100 []).
Proof.
  apply (verify_authentic (λ k m, k ++ m) 50 $"k" (signAuthReq (λ k m, k ++ m) $"k" (mkReq $"https://oa.x/" [] 100 []))).
  vm_compute. reflexivity.
Defined.
End witnesses.

End AuthReq.
