(* ===== verification/HostListen.v ===== *)
(** * The ports of a site (utils/hostport.go, model/hosts.go)

    [ResolveHostListens] is the one place that says on which ports a site listens, with
    which protocol and IP version.  The JSON of the port table is decoded by the
    parameter [decode_items]. *)
From S2P Require Import Prelude.
From S2P Require Import GoLib.
Local Open Scope Z_scope.
Local Open Scope bool_scope.

Module HostListen.

(** The fields of [model.Hosts] that routing reads. *)
Record Hosts := mkHosts {
  Code : gostr; Host : gostr; Port : Z; Ssl : Z; GLOBAL_HOST : Z; UnrestrictedPort : Z; AutoJumpHTTPS : Z;
  BindMoreHost : gostr; BindMorePort : gostr; PortListensJSON : gostr
}.

Definition ListenProtoHTTP : gostr := $"http".
Definition ListenProtoHTTPS : gostr := $"https".
Definition ListenIPVBoth : gostr := $"both".
Definition ListenIPV4 : gostr := $"ipv4".
Definition ListenIPV6 : gostr := $"ipv6".

Record PortListenItem := mkItem { it_Port : Z; it_Proto : gostr; it_Ipv : gostr; it_Addr : gostr }.
Record HostListen := mkListen { l_Port : Z; l_Protocol : gostr; l_IPVersion : gostr; l_Addr : gostr; IsMain : bool; Implied : bool }.
#[global] Instance HostListen_eq_dec : EqDecision HostListen.
Proof. solve_decision. Defined.

Definition Network (l : HostListen) : gostr :=
  if bool_decide (l_IPVersion l = ListenIPV4) then $"tcp4" else if bool_decide (l_IPVersion l = ListenIPV6) then $"tcp6" else $"tcp".
Definition UDPNetwork (l : HostListen) : gostr :=
  if bool_decide (l_IPVersion l = ListenIPV4) then $"udp4" else if bool_decide (l_IPVersion l = ListenIPV6) then $"udp6" else $"udp".
Definition ListenAddr (l : HostListen) : gostr :=
  if bool_decide (l_IPVersion l = ListenIPV4) then $"0.0.0.0:" ++ itoa (l_Port l)
  else if bool_decide (l_IPVersion l = ListenIPV6) then $"[::]:" ++ itoa (l_Port l)
  else $":" ++ itoa (l_Port l).

Definition in_range (p : Z) : bool := (1 <=? p) && (p <=? 65535).

Definition legacyMainProto (h : Hosts) : gostr := if Ssl h =? 1 then ListenProtoHTTPS else ListenProtoHTTP.

(** One entry of [BindMorePort], with the listeners so far and the ports already taken. *)
Definition legacy_port (h : Hosts) (acc : list HostListen * gset Z) (portStr : gostr) : list HostListen * gset Z :=
  let (out, seen) := acc in
  match parse_int (trim_space portStr) with
  | None => acc
  | Some port =>
      if negb (in_range port) || bool_decide (port ∈ seen) then acc
      else
        let proto := if (port =? 443) || ((Ssl h =? 1) && negb (port =? 80)) then ListenProtoHTTPS else ListenProtoHTTP in
        (out ++ [mkListen port proto ListenIPVBoth [] false false], {[port]} ∪ seen)
  end.

Definition legacyDeriveListens (h : Hosts) : list HostListen :=
  let acc := if in_range (Port h) then ([mkListen (Port h) (legacyMainProto h) ListenIPVBoth [] true false], {[Port h]}) else ([], ∅) in
  let acc := match BindMorePort h with [] => acc | s => foldl (legacy_port h) acc (split s ",") end in
  let (out, seen) := acc in
  if (AutoJumpHTTPS h =? 1) && negb (bool_decide (80 ∈ seen))
  then out ++ [mkListen 80 ListenProtoHTTP ListenIPVBoth [] false true] else out.

Section decoded.
Context `{UnicodeCase}.
Variable decode_items : gostr → option (list PortListenItem).

(** One declared entry; [seen] gives the position of each port. *)
Definition declared_port (h : Hosts) (acc : list HostListen * gmap Z nat) (it : PortListenItem) : list HostListen * gmap Z nat :=
  let (out, seen) := acc in
  if negb (in_range (it_Port it)) then acc
  else
    let proto := to_lower (trim_space (it_Proto it)) in
    if negb (bool_decide (proto = ListenProtoHTTP)) && negb (bool_decide (proto = ListenProtoHTTPS)) then acc
    else
      let ipv := to_lower (trim_space (it_Ipv it)) in
      let ipv := if bool_decide (ipv = []) then ListenIPVBoth else ipv in
      let ipv := if negb (bool_decide (ipv = ListenIPVBoth)) && negb (bool_decide (ipv = ListenIPV4)) && negb (bool_decide (ipv = ListenIPV6))
                 then ListenIPVBoth else ipv in
      let l := mkListen (it_Port it) proto ipv [] (it_Port it =? Port h) false in
      match seen !! it_Port it with
      | Some idx => (<[idx := l]> out, seen)
      | None => (out ++ [l], <[it_Port it := length out]> seen)
      end.

Definition reindex (seen : gmap Z nat) (out : list HostListen) : gmap Z nat :=
  foldl (λ s il, <[l_Port il.2 := il.1]> s) seen (zip (seq 0 (length out)) out).

(** The listener before the first main one moves behind it. *)
Fixpoint split_main (pre out : list HostListen) : list HostListen :=
  match out with
  | [] => reverse pre
  | l :: rest => if IsMain l then l :: reverse pre ++ rest else split_main (l :: pre) rest
  end.
Definition moveMainFirst (out : list HostListen) : list HostListen := split_main [] out.

Definition ResolveHostListens (h : Hosts) : list HostListen :=
  if GLOBAL_HOST h =? 1 then []
  else match trim_space (PortListensJSON h) with
  | [] => legacyDeriveListens h
  | raw =>
      match decode_items raw with
      | None => legacyDeriveListens h
      | Some items =>
          let (out, seen) := foldl (declared_port h) ([], ∅) items in
          match out with
          | [] => legacyDeriveListens h
          | _ =>
              let (out, seen) :=
                if bool_decide (seen !! Port h = None) && in_range (Port h) then
                  let out := mkListen (Port h) (legacyMainProto h) ListenIPVBoth [] true false :: out in (out, reindex seen out)
                else (out, seen) in
              let out := if (AutoJumpHTTPS h =? 1) && bool_decide (seen !! 80 = None)
                         then out ++ [mkListen 80 ListenProtoHTTP ListenIPVBoth [] false true] else out in
              moveMainFirst out
          end
      end
  end.

Definition HostListenPorts (h : Hosts) : list Z := map l_Port (ResolveHostListens h).
Definition HostRoutedExtraPorts (h : Hosts) : list Z :=
  map l_Port (List.filter (λ l, negb (IsMain l || Implied l)) (ResolveHostListens h)).
Definition HostMainProtocol (h : Hosts) : gostr :=
  match List.find IsMain (ResolveHostListens h) with Some l => l_Protocol l | None => legacyMainProto h end.

(** ** What a port table looks like *)

(** One listener per port; ports in range; the main port is the site's own; only the
    port 80 of the jump to HTTPS is implied; protocol and IP version are known ones. *)
Record listener_ok (h : Hosts) (l : HostListen) : Prop := {
  ok_range : 1 ≤ l_Port l ≤ 65535;
  ok_main : IsMain l = true → l_Port l = Port h;
  ok_own : l_Port l = Port h → Implied l = false → IsMain l = true;
  ok_implied : Implied l = true → l_Port l = 80 ∧ AutoJumpHTTPS h = 1 ∧ IsMain l = false ∧ l_Protocol l = ListenProtoHTTP;
  ok_proto : l_Protocol l = ListenProtoHTTP ∨ l_Protocol l = ListenProtoHTTPS;
  ok_ipv : l_IPVersion l = ListenIPVBoth ∨ l_IPVersion l = ListenIPV4 ∨ l_IPVersion l = ListenIPV6;
}.
Definition listeners_ok (h : Hosts) (out : list HostListen) : Prop :=
  Forall (listener_ok h) out ∧ NoDup (map l_Port out).

Lemma legacyMainProto_ok h : legacyMainProto h = ListenProtoHTTP ∨ legacyMainProto h = ListenProtoHTTPS.
Proof. unfold legacyMainProto. destruct (Ssl h =? 1); auto. Qed.

Lemma in_range_spec p : in_range p = true ↔ 1 ≤ p ≤ 65535.
Proof. unfold in_range. rewrite andb_true_iff, !Z.leb_le. lia. Qed.

Lemma listeners_snoc h out l :
  listeners_ok h out → listener_ok h l → l_Port l ∉ map l_Port out → listeners_ok h (out ++ [l]).
Proof.
  intros [Hf Hn] Hl Hp. split; [apply Forall_app; split; [done|by apply Forall_singleton]|].
  rewrite map_app. apply NoDup_app. split; [done|]. split; [|apply NoDup_singleton]. cbn. set_solver.
Qed.

Lemma listeners_perm h out out' : out ≡ₚ out' → listeners_ok h out → listeners_ok h out'.
Proof. intros Hp [Hf Hn]. split; [by rewrite <- Hp|]. by rewrite <- (fmap_Permutation l_Port _ _ Hp). Qed.

Lemma main_ok h : in_range (Port h) = true → listener_ok h (mkListen (Port h) (legacyMainProto h) ListenIPVBoth [] true false).
Proof. intros Hr. apply in_range_spec in Hr. split; cbn; auto using legacyMainProto_ok. discriminate. Qed.

Lemma implied_ok h : AutoJumpHTTPS h = 1 → listener_ok h (mkListen 80 ListenProtoHTTP ListenIPVBoth [] false true).
Proof. intros Hj. split; cbn; auto; try lia; discriminate. Qed.

Lemma split_main_perm pre out : split_main pre out ≡ₚ pre ++ out.
Proof.
  revert pre. induction out as [|l out IH]; intros pre; cbn; [rewrite app_nil_r; apply reverse_Permutation|].
  destruct (IsMain l); [|rewrite IH; cbn; apply Permutation_middle].
  rewrite (reverse_Permutation pre). apply Permutation_middle.
Qed.

Lemma split_main_head pre out l : l ∈ out → IsMain l = true → ∃ m rest, split_main pre out = m :: rest ∧ IsMain m = true.
Proof.
  revert pre. induction out as [|x out IH]; intros pre Hin Hm; [set_solver|]. cbn. destruct (IsMain x) eqn:E; [by eexists _, _|].
  apply IH; [|done]. apply elem_of_cons in Hin as [->|]; congruence.
Qed.

(** *** The table derived from the older fields *)

Lemma legacy_port_ok h acc s :
  listeners_ok h acc.1 → acc.2 = list_to_set (map l_Port acc.1) → (in_range (Port h) = true → Port h ∈ acc.2) →
  let acc' := legacy_port h acc s in
  listeners_ok h acc'.1 ∧ acc'.2 = list_to_set (map l_Port acc'.1) ∧ (in_range (Port h) = true → Port h ∈ acc'.2) ∧ ∃ more, acc'.1 = acc.1 ++ more.
Proof.
  destruct acc as [out seen]. cbn [fst snd]. intros Hok Hs Hm. unfold legacy_port.
  destruct (parse_int _) as [port|]; [|split; [done|]; split; [done|]; split; [done|]; by exists []; rewrite app_nil_r].
  destruct (negb _ || _) eqn:E; [split; [done|]; split; [done|]; split; [done|]; by exists []; rewrite app_nil_r|].
  apply orb_false_iff in E as [Hr Hn]. apply negb_false_iff in Hr. prop_of_bool. cbn [fst snd].
  assert (Hne : port ≠ Port h) by (intros ->; auto).
  split; [apply listeners_snoc; [done| |cbn; set_solver]|].
  - apply in_range_spec in Hr. split; cbn; try done; try discriminate; [|by left]. destruct (_ || _); auto.
  - split; [rewrite map_app, list_to_set_app_L, Hs; cbn; set_solver|]. split; [set_solver|]. by eexists.
Qed.

Lemma legacy_ports_ok h ss acc :
  listeners_ok h acc.1 → acc.2 = list_to_set (map l_Port acc.1) → (in_range (Port h) = true → Port h ∈ acc.2) →
  let acc' := foldl (legacy_port h) acc ss in
  listeners_ok h acc'.1 ∧ acc'.2 = list_to_set (map l_Port acc'.1) ∧ ∃ more, acc'.1 = acc.1 ++ more.
Proof.
  revert acc. induction ss as [|s ss IH]; intros acc H1 H2 H3; cbn; [split; [done|]; split; [done|]; by exists []; rewrite app_nil_r|].
  destruct (legacy_port_ok h acc s H1 H2 H3) as (H1' & H2' & H3' & more & E).
  destruct (IH _ H1' H2' H3') as (Ha & Hb & more' & E'). split; [done|]. split; [done|].
  exists (more ++ more'). by rewrite E', E, app_assoc.
Qed.

(** What both ways of building the table give. *)
Definition table_ok (h : Hosts) (out : list HostListen) : Prop :=
  listeners_ok h out ∧
  (in_range (Port h) = true → ∃ l rest, out = l :: rest ∧ IsMain l = true) ∧
  (AutoJumpHTTPS h = 1 → 80 ∈ map l_Port out).

Lemma legacyDeriveListens_ok h : table_ok h (legacyDeriveListens h).
Proof.
  unfold legacyDeriveListens. set (acc := if in_range (Port h) then _ else _).
  assert (H0 : listeners_ok h acc.1 ∧ acc.2 = list_to_set (map l_Port acc.1) ∧ (in_range (Port h) = true → Port h ∈ acc.2)
    ∧ (in_range (Port h) = true → ∃ l, acc.1 = [l] ∧ IsMain l = true)).
  { unfold acc. destruct (in_range (Port h)) eqn:E; cbn.
    - split; [split; [apply Forall_singleton; by apply main_ok|apply NoDup_singleton]|]. split; [set_solver|]. split; [set_solver|]. by eexists.
    - split; [repeat constructor|]. done. }
  clearbody acc. destruct H0 as (H1 & H2 & H3 & H4).
  set (acc' := match BindMorePort h with [] => acc | s => _ end).
  assert (H5 : listeners_ok h acc'.1 ∧ acc'.2 = list_to_set (map l_Port acc'.1) ∧ ∃ more, acc'.1 = acc.1 ++ more).
  { unfold acc'. destruct (BindMorePort h) as [|c s]; [split; [done|]; split; [done|]; by exists []; rewrite app_nil_r|]. by apply legacy_ports_ok. }
  clearbody acc'. destruct H5 as (H5 & H6 & more & H7). destruct acc' as [out seen]. cbn [fst snd] in *.
  assert (Hhead : in_range (Port h) = true → ∃ l rest, out = l :: rest ∧ IsMain l = true).
  { intros E. destruct (H4 E) as (l & El & Em). rewrite H7, El. by eexists _, _. }
  destruct (_ && _) eqn:E.
  - prop_of_bool. split; [apply listeners_snoc; [done|by apply implied_ok|cbn; set_solver]|].
    split; [|intros _; rewrite map_app; set_solver].
    intros Er. destruct (Hhead Er) as (l & rest & -> & Em). by exists l, (rest ++ [mkListen 80 ListenProtoHTTP ListenIPVBoth [] false true]).
  - split; [done|]. split; [done|]. intros Ej. rewrite Ej in E. cbn in E. prop_of_bool. subst seen. by apply elem_of_list_to_set in E.
Qed.

(** *** The declared table *)

Definition indexed (out : list HostListen) (seen : gmap Z nat) : Prop :=
  (∀ p i, seen !! p = Some i → ∃ l, out !! i = Some l ∧ l_Port l = p) ∧
  (∀ l, l ∈ out → is_Some (seen !! l_Port l) ∧ Implied l = false).

Lemma indexed_ports out seen p : indexed out seen → is_Some (seen !! p) ↔ p ∈ map l_Port out.
Proof.
  intros [H1 H2]. rewrite list_elem_of_fmap. split.
  - intros [i Hi]. destruct (H1 p i Hi) as (l & Hl & Hp). exists l. split; [done|]. by eapply list_elem_of_lookup_2.
  - intros (l & -> & Hin). by apply H2.
Qed.

Lemma declared_port_ok h acc it :
  listeners_ok h acc.1 → indexed acc.1 acc.2 →
  listeners_ok h (declared_port h acc it).1 ∧ indexed (declared_port h acc it).1 (declared_port h acc it).2.
Proof.
  destruct acc as [out seen]. cbn [fst snd]. intros Hok Hi. unfold declared_port.
  destruct (in_range (it_Port it)) eqn:Er; [|done]. cbn [negb]. cbv zeta.
  destruct (negb (bool_decide (_ = ListenProtoHTTP)) && _) eqn:Ep; [done|].
  set (ipv := if negb _ && _ && _ then ListenIPVBoth else _).
  set (l := mkListen _ _ ipv _ _ _).
  assert (Hl : listener_ok h l).
  { apply in_range_spec in Er. split; cbn; try done.
    - intros E%Z.eqb_eq. done.
    - intros E _. by apply Z.eqb_eq.
    - apply andb_false_iff in Ep as [E|E]; prop_of_bool; auto.
    - unfold ipv. destruct (negb _ && _ && _) eqn:E; [by left|]. clear -E.
      destruct (bool_decide (_ = ListenIPVBoth)) eqn:E1; [prop_of_bool; auto|].
      destruct (bool_decide (_ = ListenIPV4)) eqn:E2; [prop_of_bool; auto|].
      destruct (bool_decide (_ = ListenIPV6)) eqn:E3; [prop_of_bool; auto|done]. }
  destruct (seen !! it_Port it) as [idx|] eqn:Es; cbn [fst snd].
  - destruct Hi as [H1 H2]. destruct (H1 _ _ Es) as (l0 & Hl0 & Hp0).
    assert (Hports : map l_Port (<[idx:=l]> out) = map l_Port out).
    { change (l_Port <$> <[idx:=l]> out = l_Port <$> out). rewrite list_fmap_insert. apply list_insert_id.
      rewrite list_lookup_fmap, Hl0. cbn. by rewrite Hp0. }
    split; [split; [by apply Forall_insert; [apply Hok|]|rewrite Hports; apply Hok]|]. split.
    + intros p i Hpi. destruct (H1 p i Hpi) as (l' & Hl' & Hp'). destruct (decide (i = idx)) as [->|Hne].
      * exists l. rewrite list_lookup_insert_eq by by eapply lookup_lt_Some. split; [done|]. cbn. congruence.
      * exists l'. by rewrite list_lookup_insert_ne.
    + intros l' Hin. split; [apply (indexed_ports out seen); [done|]; rewrite <- Hports; apply list_elem_of_fmap; by exists l'|].
      apply list_elem_of_lookup in Hin as [j Hj]. apply list_lookup_insert_Some in Hj as [(_ & <- & _)|[_ Hj]]; [done|].
      apply H2. by eapply list_elem_of_lookup_2.
  - assert (Hn : it_Port it ∉ map l_Port out). { rewrite <- (indexed_ports out seen) by done. rewrite Es. by intros []. }
    split; [by apply listeners_snoc|]. destruct Hi as [H1 H2]. split.
    + intros p i. rewrite lookup_insert_Some. intros [[<- <-]|[_ Hpi]].
      * exists l. by rewrite lookup_app_r, Nat.sub_diag by lia.
      * destruct (H1 p i Hpi) as (l' & Hl' & Hp'). exists l'. split; [|done]. rewrite lookup_app_l; [done|]. by eapply lookup_lt_Some.
    + intros l' [Hin| ->%list_elem_of_singleton]%elem_of_app; [|cbn; by rewrite lookup_insert_eq].
      destruct (H2 l' Hin). rewrite lookup_insert_is_Some'. auto.
Qed.

Lemma declared_ports_ok h items acc :
  listeners_ok h acc.1 → indexed acc.1 acc.2 →
  listeners_ok h (foldl (declared_port h) acc items).1 ∧ indexed (foldl (declared_port h) acc items).1 (foldl (declared_port h) acc items).2.
Proof.
  revert acc. induction items as [|it items IH]; intros acc H1 H2; [done|]. cbn. apply IH; by apply declared_port_ok.
Qed.

Lemma reindex_ports seen out p : is_Some (reindex seen out !! p) ↔ is_Some (seen !! p) ∨ p ∈ map l_Port out.
Proof.
  unfold reindex. generalize 0%nat. revert seen. induction out as [|l out IH]; intros seen n; cbn; [set_solver|].
  rewrite IH. rewrite lookup_insert_is_Some'. set_solver.
Qed.

(** the port table of a site is well formed.  However the table was declared, as JSON,
    as broken JSON or by the older fields, a site listens at most once per port, on
    ports between 1 and 65535, over http or https; its main port, when it is a port at
    all, comes first and is the only one marked so; a site that jumps to HTTPS listens
    on port 80; and the global site listens nowhere. *)
Theorem ResolveHostListens_ok h :
  (GLOBAL_HOST h = 1 → ResolveHostListens h = []) ∧
  (GLOBAL_HOST h ≠ 1 → table_ok h (ResolveHostListens h)).
Proof.
  unfold ResolveHostListens. split; [by intros ->|]. intros Hg. rewrite (proj2 (Z.eqb_neq _ _)) by done.
  destruct (trim_space (PortListensJSON h)) as [|c raw]; [apply legacyDeriveListens_ok|].
  destruct (decode_items (c :: raw)) as [items|]; [|apply legacyDeriveListens_ok].
  destruct (declared_ports_ok h items ([], ∅)) as [Hok Hi]; [split; constructor| |].
  { split; cbn; [intros p i; by rewrite lookup_empty|set_solver]. }
  destruct (foldl (declared_port h) ([], ∅) items) as [out seen]. cbn [fst snd] in *.
  destruct out as [|l0 out0] eqn:Eout; [apply legacyDeriveListens_ok|]. rewrite <- Eout in *. clear Eout l0 out0.
  pose proof (λ p, indexed_ports out seen p Hi) as Hports.
  set (both := if bool_decide _ && _ then _ else _).
  assert (Hb : listeners_ok h both.1 ∧ (∀ p, is_Some (both.2 !! p) ↔ p ∈ map l_Port both.1) ∧
    (in_range (Port h) = true → ∃ l, l ∈ both.1 ∧ IsMain l = true)).
  { unfold both. case_bool_decide as Es; [destruct (in_range (Port h)) eqn:Er; cbn [andb fst snd]|cbn [andb fst snd]].
    - split; [|split].
      + assert (Hn : Port h ∉ map l_Port out) by (rewrite <- Hports, Es; by intros []).
        split; [apply Forall_cons; split; [by apply main_ok|apply Hok]|]. cbn. apply NoDup_cons. split; [done|apply Hok].
      + intros p. rewrite reindex_ports, Hports. cbn. set_solver.
      + intros _. eexists. split; [by left|done].
    - split; [done|]. split; [done|]. by intros ?.
    - split; [done|]. split; [done|]. intros Hr. apply not_eq_None_Some in Es. apply Hports, list_elem_of_fmap in Es as (l & Hp & Hin).
      exists l. split; [done|]. destruct Hok as [Hf _]. rewrite Forall_forall in Hf. destruct (Hf l Hin).
      apply ok_own0; [done|]. by apply Hi. }
  clearbody both. destruct both as [out2 seen2]. cbn [fst snd] in Hb. destruct Hb as (H1 & H2 & H3).
  set (out3 := if _ && _ then _ else _).
  assert (H4 : listeners_ok h out3 ∧ (AutoJumpHTTPS h = 1 → 80 ∈ map l_Port out3) ∧ ∀ l, l ∈ out2 → l ∈ out3).
  { unfold out3. destruct (_ && _) eqn:E.
    - prop_of_bool. split; [apply listeners_snoc; [done|by apply implied_ok|]|split; [rewrite map_app; set_solver|set_solver]].
      rewrite <- H2. cbn. match goal with Hn : seen2 !! 80 = None |- _ => rewrite Hn end. by intros [].
    - split; [done|]. split; [|done]. intros Ej. rewrite Ej in E. cbn in E. prop_of_bool. apply H2. by apply not_eq_None_Some. }
  clearbody out3. destruct H4 as (H4 & H5 & H6). unfold moveMainFirst.
  assert (Hp : out3 ≡ₚ split_main [] out3) by (symmetry; apply split_main_perm). split; [by eapply listeners_perm|]. split.
  - intros Hr. destruct (H3 Hr) as (l & Hin & Hm). apply (split_main_head [] out3 l); auto.
  - intros Hj. rewrite <- (fmap_Permutation l_Port _ _ Hp). by apply H5.
Qed.
End decoded.
End HostListen.
