(* ===== verification/Routing.v ===== *)
(** * The routing table (wafenginecore/routing_table.go, the table parts of wafworker.go,
      website_diagnostic_route.go, access_redirect.go; common/domaintool, utils/common.go)

    The four tables are published as one immutable snapshot.  A [*HostSafe] is an address
    in a heap, so that which table entries share a site is visible; a site carries, past
    its [Hosts] record, the rest of its settings [D] and the address of its load
    balancing state. *)
From S2P Require Import Prelude.
From S2P Require Import GoLib.
From S2P Require Import AccessGate.
From S2P Require Import HostListen.
Local Open Scope Z_scope.
Local Open Scope bool_scope.

Module Routing.
Import HostListen.

(** ** Names *)

(** [domaintool.MaskSubdomain] *)
Definition MaskSubdomain (domain : gostr) : gostr :=
  let parts := split domain ":" in
  let host := nth 0 parts [] in
  let port := match parts with _ :: p :: _ => $":" ++ p | _ => [] end in
  let subdomains := split host "." in
  match subdomains with
  | _ :: _ :: _ :: _ => join ($"*" :: tl subdomains) $"." ++ port
  | _ => domain
  end.

(** The host of [net.SplitHostPort]; empty when it returns an error. *)
Definition split_host (hostport : gostr) : gostr :=
  match last_index_byte hostport ":" with
  | None => []
  | Some i =>
      let checked (host : gostr) (j k : nat) :=
        if contains (drop j hostport) $"[" || contains (drop k hostport) $"]" then [] else host in
      if has_prefix hostport $"[" then
        match index_byte hostport "]" with
        | None => []
        | Some e => if (S e =? length hostport)%nat then [] else if (S e =? i)%nat then checked (drop 1 (take e hostport)) 1%nat (S e) else []
        end
      else
        let host := take i hostport in
        if contains host $":" then [] else checked host 0%nat 0%nat
  end.

Definition GetPureDomain (host : gostr) : gostr := if contains host $":" then split_host host else host.

Example mask_ex : MaskSubdomain $"a.oa.x:443" = $"*.oa.x:443" ∧ MaskSubdomain $"oa.x:443" = $"oa.x:443". Proof. by vm_compute. Qed.
Example pure_ex : GetPureDomain $"oa.x:443" = $"oa.x" ∧ GetPureDomain $"[::1]:443" = $"::1" ∧ GetPureDomain $"::1" = []. Proof. by vm_compute. Qed.

Section routing.
Context {D : Type}.

Record HostSafe := mkSafe { hs_Host : Hosts; hs_rest : D; LoadBalanceRuntime : nat }.

Record routingTable := mkTable {
  HostTarget : gmap gostr nat;                 (* host:port -> *HostSafe *)
  HostCode : gmap gostr gostr;                 (* code -> host:port *)
  HostTargetNoPort : gmap gostr gostr;         (* domain -> host:port *)
  HostTargetMoreDomain : gmap gostr gostr      (* domain:port -> code *)
}.
Definition newRoutingTable : routingTable := mkTable ∅ ∅ ∅ ∅.

(** The sites in memory, and the published snapshot ([None] before the first one). *)
Record engine := mkEngine { heap : gmap nat HostSafe; routing : option routingTable }.

Definition rt (e : engine) : routingTable := default newRoutingTable (routing e).
Definition InitRouting (e : engine) : engine := mkEngine (heap e) (Some newRoutingTable).

(** [clone], the change, and the publication, under the writers' lock. *)
Definition withWriteTable (e : engine) (fn : routingTable → routingTable) : engine :=
  mkEngine (heap e) (Some (fn (rt e))).

(** A new object. *)
Definition alloc (e : engine) (hs : HostSafe) : engine * nat :=
  let l := fresh (dom (heap e)) in (mkEngine (<[l := hs]> (heap e)) (routing e), l).

Definition applyHostUpdateLocked (e : engine) (hostKey : gostr) (mutator : HostSafe → HostSafe) : engine :=
  match HostTarget (rt e) !! hostKey with
  | None => e
  | Some old =>
      match heap e !! old with
      | None => e
      | Some hs =>
          let cur := rt e in
          let (e1, cp) := alloc e (mutator hs) in
          mkEngine (heap e1) (Some (mkTable ((λ v, if (v =? old)%nat then cp else v) <$> HostTarget cur)
                                            (HostCode cur) (HostTargetNoPort cur) (HostTargetMoreDomain cur)))
      end
  end.

Definition UpdateHost (e : engine) (hostCode : gostr) (mutator : HostSafe → HostSafe) : engine :=
  match HostCode (rt e) !! hostCode with
  | None | Some [] => e
  | Some key => applyHostUpdateLocked e key mutator
  end.
Definition UpdateHostByKey (e : engine) (hostKey : gostr) (mutator : HostSafe → HostSafe) : engine :=
  applyHostUpdateLocked e hostKey mutator.

Definition lookup_host (e : engine) (key : gostr) : option HostSafe :=
  HostTarget (rt e) !! key ≫= λ l, heap e !! l.

Definition GetHostByCode (e : engine) (hostCode : gostr) : option HostSafe :=
  match HostCode (rt e) !! hostCode with
  | None | Some [] => None
  | Some key => lookup_host e key
  end.

(** ** Loading and removing a site *)

Section listens.
Context `{UnicodeCase}.
Variable decode_items : gostr → option (list PortListenItem).

Definition key_of (host : gostr) (port : Z) : gostr := host ++ $":" ++ itoa port.
(** The non-empty lines of the further domains. *)
Definition more_lines (h : Hosts) : list gostr :=
  List.filter (λ l, negb (bool_decide (l = []))) (map trim_space (split (BindMoreHost h) (chr 10))).

Definition delete_all {A} (ks : list gostr) (m : gmap gostr A) : gmap gostr A := foldl (λ m k, delete k m) m ks.
Definition insert_all {A} (ks : list gostr) (v : A) (m : gmap gostr A) : gmap gostr A := foldl (λ m k, <[k := v]> m) m ks.

(** What [LoadHost] does to the cloned table for the new object [hostsafe]. *)
Definition load_table (inHost : Hosts) (hostsafe : nat) (nt : routingTable) : routingTable :=
  let ports := HostRoutedExtraPorts decode_items inHost in
  let main := key_of (Host inHost) (Port inHost) in
  let targets :=
    match HostCode nt !! Code inHost ≫= λ oldKey, HostTarget nt !! oldKey with
    | Some oldHS => filter (λ kv, kv.2 ≠ oldHS) (HostTarget nt)
    | None => HostTarget nt
    end in
  let more := filter (λ kv, kv.2 ≠ Code inHost) (HostTargetMoreDomain nt) in
  let targets := <[main := hostsafe]> targets in
  let codes := <[Code inHost := main]> (HostCode nt) in
  let targets := insert_all (map (key_of (Host inHost)) ports) hostsafe targets in
  let targets := if AutoJumpHTTPS inHost =? 1 then <[Host inHost ++ $":80" := hostsafe]> targets else targets in
  let codes := if AutoJumpHTTPS inHost =? 1 then <[Code inHost := Host inHost ++ $":80"]> codes else codes in
  let noport :=
    if UnrestrictedPort inHost =? 1
    then insert_all (more_lines inHost) main (<[Host inHost := main]> (HostTargetNoPort nt))
    else delete_all (more_lines inHost) (delete (Host inHost) (HostTargetNoPort nt)) in
  let more := foldl (λ m line, insert_all (map (key_of line) ports) (Code inHost) (<[key_of line (Port inHost) := Code inHost]> m))
                more (more_lines inHost) in
  mkTable targets codes noport more.

Definition LoadHost (e : engine) (inHost : Hosts) (rest : D) (runtime : nat) : engine :=
  let (e1, l) := alloc e (mkSafe inHost rest runtime) in
  withWriteTable e1 (load_table inHost l).

Definition RemoveHost (e : engine) (host : Hosts) : engine :=
  withWriteTable e (λ nt,
    mkTable (delete_all (map (λ l, key_of (Host host) (l_Port l)) (ResolveHostListens decode_items host))
               (delete (key_of (Host host) (Port host)) (HostTarget nt)))
            (delete (Code host) (HostCode nt))
            (delete_all (more_lines host) (delete (Host host) (HostTargetNoPort nt)))
            (filter (λ kv, kv.2 ≠ Code host) (HostTargetMoreDomain nt))).

End listens.

(** ** Finding the site of a request (website_diagnostic_route.go) *)

Record requestHostMatch := mkMatch { m_Host : gostr; m_Port : gostr; m_Code : gostr; m_Kind : gostr; m_Found : bool; CatchAllLog : bool }.

Definition code_at (e : engine) (key : gostr) : option gostr := (λ h, Code (hs_Host h)) <$> lookup_host e key.

(** The authority with its default port. *)
Definition with_port (authority : gostr) (secure : bool) : gostr :=
  if contains authority $":" then authority else authority ++ (if secure then $":443" else $":80").
Definition port_of (host : gostr) : gostr := match split host ":" with [_; p] => p | _ => [] end.

(** The four tables in order; the code and the kind of the match. *)
Definition named_code (e : engine) (host : gostr) (loose : bool) : option (gostr * gostr) :=
  match code_at e host with
  | Some c => Some (c, if loose then $"no_port" else $"exact")
  | None =>
      match code_at e (MaskSubdomain host) with
      | Some c => Some (c, $"wildcard")
      | None =>
          match HostTargetMoreDomain (rt e) !! host with
          | Some c => Some (c, $"alias")
          | None =>
              match HostTargetMoreDomain (rt e) !! MaskSubdomain host with
              | Some c => Some (c, $"alias_wildcard")
              | None => None
              end
          end
      end
  end.

Definition named_match (e : engine) (authority : gostr) (secure : bool) : requestHostMatch :=
  let host := with_port authority secure in
  let port := port_of host in
  let redirected := HostTargetNoPort (rt e) !! GetPureDomain host in
  let host := default host redirected in
  let loose := match redirected with Some _ => true | None => false end in
  match named_code e host loose with
  | Some (c, kind) => mkMatch host port c kind true false
  | None => mkMatch host port [] $"unmatched" false false
  end.

(** The catch-all sites come last and win. *)
Definition resolveRequestHost (e : engine) (authority : gostr) (secure : bool) : requestHostMatch :=
  let m := named_match e authority secure in
  match HostTargetNoPort (rt e) !! $"*" with
  | Some target =>
      match code_at e target with
      | Some c => mkMatch target (m_Port m) c $"catch_all_no_port" true true
      | None => mkMatch target (m_Port m) (m_Code m) (m_Kind m) (m_Found m) (CatchAllLog m)
      end
  | None =>
      match code_at e ($"*:" ++ m_Port m) with
      | Some c => mkMatch (m_Host m) (m_Port m) c $"catch_all" true true
      | None => m
      end
  end.

(** The site [ServeHTTP] works with. *)
Definition route (e : engine) (authority : gostr) (secure : bool) : option HostSafe :=
  let m := resolveRequestHost e authority secure in
  if m_Found m then HostCode (rt e) !! m_Code m ≫= lookup_host e else None.

(** ** Where a sign-in may return to (access_redirect.go) *)

Section redirect.
Context `{UnicodeCase}.

Definition candidates (host : gostr) : list gostr :=
  if contains host $":" then [host] else [host ++ $":443"; host ++ $":80"].
Definition known (t : routingTable) (c : gostr) : bool :=
  bool_decide (is_Some (HostTarget t !! c)) || bool_decide (is_Some (HostTarget t !! MaskSubdomain c))
  || bool_decide (is_Some (HostTargetMoreDomain t !! c)) || bool_decide (is_Some (HostTargetMoreDomain t !! MaskSubdomain c)).

Definition isManagedHost (e : engine) (hostWithPort : gostr) : bool :=
  if bool_decide (hostWithPort = []) then false
  else
    let host := to_lower (trim_space hostWithPort) in
    let pure := GetPureDomain host in
    if bool_decide (is_Some (HostTargetNoPort (rt e) !! pure)) && negb (bool_decide (pure = $"*")) then true
    else existsb (known (rt e)) (candidates host).

Fixpoint first_code (e : engine) (cs : list gostr) : option gostr :=
  match cs with
  | [] => None
  | c :: cs' =>
      match code_at e c with
      | Some code => Some code
      | None =>
          match code_at e (MaskSubdomain c) with
          | Some code => Some code
          | None =>
              match HostTargetMoreDomain (rt e) !! c with
              | Some code => Some code
              | None =>
                  match HostTargetMoreDomain (rt e) !! MaskSubdomain c with
                  | Some code => Some code
                  | None => first_code e cs'
                  end
              end
          end
      end
  end.

Definition lookupHostCode (e : engine) (hostWithPort : gostr) : option gostr :=
  if bool_decide (hostWithPort = []) then None
  else
    let host := to_lower (trim_space hostWithPort) in
    match HostTargetNoPort (rt e) !! GetPureDomain host ≫= code_at e with
    | Some code => Some code
    | None => first_code e (candidates host)
    end.
End redirect.

(** ** Copy on write *)

Lemma rt_mk h t : rt (mkEngine h (Some t)) = t.
Proof. done. Qed.

(** Every table entry points to an object. *)
Definition closed (e : engine) : Prop := ∀ k l, HostTarget (rt e) !! k = Some l → is_Some (heap e !! l).

Lemma fresh_heap (e : engine) : heap e !! fresh (dom (heap e)) = None.
Proof. apply not_elem_of_dom, is_fresh. Qed.

Lemma lookup_closed e k l : closed e → HostTarget (rt e) !! k = Some l → ∃ hs, heap e !! l = Some hs ∧ lookup_host e k = Some hs.
Proof. intros Hc Hk. destruct (Hc k l Hk) as [hs Hl]. exists hs. unfold lookup_host. by rewrite Hk. Qed.

(** C35: a hot update is copy on write.  Every object a reader may hold is left as it was.
    There is one new object, the updated copy of the old one; in the new table exactly the
    entries that pointed to the old object point to it, so that they keep sharing one site
    and a later update by any of them reaches all of them; every other entry, and the
    other three tables, are what they were. *)
Theorem UpdateHostByKey_cow e key mutator old hs :
  closed e → HostTarget (rt e) !! key = Some old → heap e !! old = Some hs →
  let e' := UpdateHostByKey e key mutator in
  closed e' ∧
  (∀ l o, heap e !! l = Some o → heap e' !! l = Some o) ∧
  (∃ cp, heap e !! cp = None ∧ heap e' !! cp = Some (mutator hs) ∧
     ∀ k, HostTarget (rt e') !! k = if bool_decide (HostTarget (rt e) !! k = Some old) then Some cp else HostTarget (rt e) !! k) ∧
  (∀ k, lookup_host e' k = if bool_decide (HostTarget (rt e) !! k = Some old) then Some (mutator hs) else lookup_host e k) ∧
  HostCode (rt e') = HostCode (rt e) ∧ HostTargetNoPort (rt e') = HostTargetNoPort (rt e) ∧
  HostTargetMoreDomain (rt e') = HostTargetMoreDomain (rt e).
Proof.
  intros Hc Hk Ho. unfold UpdateHostByKey, applyHostUpdateLocked. rewrite Hk, Ho. unfold alloc. cbv zeta. cbn [heap].
  set (l' := fresh (dom (heap e))). assert (Hl' : heap e !! l' = None) by apply fresh_heap. clearbody l'.
  assert (Hheap : ∀ l o, heap e !! l = Some o → <[l':=mutator hs]> (heap e) !! l = Some o).
  { intros l o Hl. rewrite lookup_insert_ne; [done|]. intros ->. congruence. }
  split; [|split; [exact Hheap|split; [|split; [|done]]]].
  - intros k l. rewrite rt_mk. cbn [HostTarget heap]. rewrite lookup_fmap, fmap_Some. intros (v & Hv & ->).
    destruct (Nat.eqb_spec v old) as [->|Hne]; [by rewrite lookup_insert_eq|]. destruct (Hc k v Hv) as [o Hv']. exists o. by apply Hheap.
  - exists l'. split; [done|]. split; [apply lookup_insert_eq|]. intros k. rewrite rt_mk. cbn [HostTarget]. rewrite lookup_fmap.
    destruct (HostTarget (rt e) !! k) as [v|] eqn:Ev; cbn; [|done].
    destruct (Nat.eqb_spec v old) as [->|Hne]; [by rewrite bool_decide_eq_true_2|by rewrite bool_decide_eq_false_2 by congruence].
  - intros k. unfold lookup_host. rewrite rt_mk. cbn [HostTarget heap]. rewrite lookup_fmap.
    destruct (HostTarget (rt e) !! k) as [v|] eqn:Ev; cbn; [|done].
    destruct (Nat.eqb_spec v old) as [->|Hne]; [rewrite bool_decide_eq_true_2 by done; by rewrite lookup_insert_eq|].
    rewrite bool_decide_eq_false_2 by congruence. destruct (Hc k v Ev) as [o Hv]. rewrite Hv. by apply Hheap.
Qed.

(** ** Reading a name and port back *)

Lemma contains_byte (s : gostr) c : contains s [c] = true ↔ c ∈ s.
Proof.
  induction s as [|a s IH]; cbn; [split; [done|set_solver]|].
  rewrite orb_true_iff, IH, elem_of_cons. replace (has_prefix s []) with true by by destruct s. rewrite andb_true_r, Ascii.eqb_eq.
  split; (intros [->|]; [by left|by right]).
Qed.

Lemma contains_byte_not (s : gostr) c : contains s [c] = false ↔ c ∉ s.
Proof. rewrite <- not_true_iff_false, contains_byte. done. Qed.

(** A domain name or IPv4 address, and a port. *)
Definition plain_name (s : gostr) : Prop := ":"%char ∉ s ∧ "["%char ∉ s ∧ "]"%char ∉ s.

Lemma GetPureDomain_port host p : plain_name host → plain_name p → GetPureDomain (host ++ $":" ++ p) = host.
Proof.
  intros (Hc & Ho & Hb) (Hc' & Ho' & Hb'). unfold GetPureDomain. change ($":") with [":"%char].
  rewrite (proj2 (contains_byte _ _)) by set_solver. unfold split_host. cbn [app]. rewrite last_index_byte_app by done.
  assert (Hp : has_prefix (host ++ ":"%char :: p) $"[" = false).
  { change ($"[") with ["["%char]. destruct host as [|x host]; [done|]. cbn [app has_prefix].
    rewrite (proj2 (Ascii.eqb_neq _ x)); [done|]. set_solver. }
  rewrite Hp. cbv zeta. change ($":") with [":"%char]. rewrite take_app_length. rewrite (proj2 (contains_byte_not _ _)) by done.
  rewrite !drop_0. change ($"[") with ["["%char]. change ($"]") with ["]"%char]. rewrite !(proj2 (contains_byte_not _ _)); [done|set_solver..].
Qed.

Lemma GetPureDomain_name host : plain_name host → GetPureDomain host = host.
Proof. intros (Hc & _). unfold GetPureDomain. change ($":") with [":"%char]. by rewrite (proj2 (contains_byte_not _ _)). Qed.

Lemma digits_plain base fuel n acc : 0 < base <= 10 → 0 ≤ n → (∀ c, c ∈ acc → 48 ≤ code c ≤ 57) →
  ∀ c, c ∈ format_digits base fuel n acc → 48 ≤ code c ≤ 57.
Proof.
  intros Hb. revert n acc. induction fuel as [|fuel IH]; intros n acc Hn Hacc; [done|]. cbn [format_digits]. cbv zeta.
  assert (Hd : 0 ≤ n mod base < base) by (apply Z.mod_pos_bound; lia).
  assert (Hacc' : ∀ c, c ∈ digit_char (n mod base) :: acc → 48 ≤ code c ≤ 57).
  { intros c [->|Hin]%elem_of_cons; [|auto]. unfold digit_char. rewrite (proj2 (Z.ltb_lt _ _)) by lia.
    unfold code, chr. rewrite N_ascii_embedding by lia. lia. }
  destruct (n <? base); [done|]. apply IH; [|done]. apply Z.div_pos; lia.
Qed.

Lemma itoa_plain n : plain_name (itoa n).
Proof.
  assert (H9 : ∀ m, 0 ≤ m → ∀ c, c ∈ format_uint m 10 → 48 ≤ code c ≤ 57).
  { intros m Hm. apply digits_plain; [lia|done|set_solver]. }
  assert (Hall : ∀ c, c ∈ itoa n → 48 ≤ code c ≤ 57 ∨ c = "-"%char).
  { unfold itoa. intros c. destruct (Z.ltb_spec n 0); [rewrite elem_of_cons; intros [->|Hin]; [by right|]|intros Hin]; left; (eapply H9; [|exact Hin]); lia. }
  split; [|split]; intros Hin; destruct (Hall _ Hin) as [Hr|Hr]; try discriminate Hr; vm_compute in Hr; naive_solver.
Qed.

Lemma port80_plain : plain_name $"80".
Proof. split; [|split]; apply (bool_decide_unpack _); vm_compute; exact I. Qed.

(** ** What loading a site does *)

Section loading.
Context `{UnicodeCase}.
Variable decode_items : gostr → option (list PortListenItem).

Lemma insert_all_get {A} (ks : list gostr) (v : A) (m : gmap gostr A) (k : gostr) : insert_all ks v m !! k = if bool_decide (k ∈ ks) then Some v else m !! k.
Proof.
  unfold insert_all. revert m. induction ks as [|k0 ks IH]; intros m; cbn; [by rewrite bool_decide_eq_false_2 by set_solver|].
  rewrite IH. repeat case_bool_decide; try set_solver; [|].
  - rewrite lookup_insert_Some. set_solver.
  - rewrite lookup_insert_ne; [done|]. set_solver.
Qed.

Lemma delete_all_lookup {A} (ks : list gostr) (m : gmap gostr A) (k : gostr) : delete_all ks m !! k = if bool_decide (k ∈ ks) then None else m !! k.
Proof.
  unfold delete_all. revert m. induction ks as [|k0 ks IH]; intros m; cbn; [by rewrite bool_decide_eq_false_2 by set_solver|].
  rewrite IH. repeat case_bool_decide; try set_solver.
  - rewrite lookup_delete_None. set_solver.
  - rewrite lookup_delete_ne; [done|]. set_solver.
Qed.

(** The entries of the main table a site takes. *)
Definition own_keys (h : Hosts) : list gostr :=
  (if AutoJumpHTTPS h =? 1 then [Host h ++ $":80"] else []) ++
  key_of (Host h) (Port h) :: map (key_of (Host h)) (HostRoutedExtraPorts decode_items h).

(** The object the site had. *)
Definition old_object (nt : routingTable) (h : Hosts) : option nat :=
  HostCode nt !! Code h ≫= λ oldKey, HostTarget nt !! oldKey.

Lemma load_targets h l nt k :
  HostTarget (load_table decode_items h l nt) !! k =
  if bool_decide (k ∈ own_keys h) then Some l
  else match old_object nt h with
       | Some old => if bool_decide (HostTarget nt !! k = Some old) then None else HostTarget nt !! k
       | None => HostTarget nt !! k
       end.
Proof.
  unfold load_table, own_keys. cbv zeta. cbn [HostTarget]. fold (old_object nt h).
  set (base := match old_object nt h with Some _ => _ | None => _ end).
  assert (Hbase : base !! k = match old_object nt h with
     | Some old => if bool_decide (HostTarget nt !! k = Some old) then None else HostTarget nt !! k
     | None => HostTarget nt !! k end).
  { unfold base. destruct (old_object nt h) as [old|]; [|done]. case_bool_decide as E.
    - apply map_lookup_filter_None. right. intros x Hx. cbn. rewrite E in Hx. congruence.
    - destruct (HostTarget nt !! k) as [v|] eqn:Ev.
      + apply map_lookup_filter_Some. split; [done|]. cbn. congruence.
      + apply map_lookup_filter_None. by left. }
  rewrite <- Hbase. clearbody base. clear Hbase.
  assert (Hins : ∀ (m : gmap gostr nat) j, <[j:=l]> m !! k = if bool_decide (k = j) then Some l else m !! k).
  { intros m j. case_bool_decide; [subst; by rewrite lookup_insert_eq|by rewrite lookup_insert_ne]. }
  destruct (AutoJumpHTTPS h =? 1); rewrite ?Hins, insert_all_get, Hins; cbn [app]; repeat case_bool_decide; try done; set_solver.
Qed.

Lemma key_of_nonempty host port : key_of host port ≠ [].
Proof. unfold key_of. destruct host; [destruct (itoa port)|]; discriminate. Qed.

(** The key [HostCode] gives the site. *)
Definition code_key (h : Hosts) : gostr := if AutoJumpHTTPS h =? 1 then Host h ++ $":80" else key_of (Host h) (Port h).

Lemma load_code h l nt : HostCode (load_table decode_items h l nt) !! Code h = Some (code_key h).
Proof. unfold load_table, code_key. cbn. destruct (AutoJumpHTTPS h =? 1); by rewrite lookup_insert_eq. Qed.

Lemma code_key_own h : code_key h ∈ own_keys h.
Proof. unfold code_key, own_keys. destruct (AutoJumpHTTPS h =? 1); set_solver. Qed.

Lemma LoadHost_closed e h rest runtime : closed e → closed (LoadHost decode_items e h rest runtime).
Proof.
  intros Hc k l. unfold LoadHost, alloc, withWriteTable. rewrite rt_mk, load_targets. cbn [heap].
  case_bool_decide as Hk; [intros [= <-]; by rewrite lookup_insert_eq|].
  assert (Hold : HostTarget (rt e) !! k = Some l → is_Some (<[fresh (dom (heap e)) := mkSafe h rest runtime]> (heap e) !! l)).
  { intros Hl. destruct (Hc k l Hl) as [o Ho]. rewrite lookup_insert_is_Some'. right. by exists o. }
  destruct (old_object _ h); [case_bool_decide; [done|]|]; exact Hold.
Qed.

(** loading a site takes effect at once and touches no other.  Every name and port of
    the site leads to the new object, and so does its code; the entries its old object
    had under other names are gone; every other entry leads where it led; the objects
    that readers hold are untouched. *)
Theorem LoadHost_serves e h rest runtime :
  closed e →
  let e' := LoadHost decode_items e h rest runtime in
  closed e' ∧
  (∀ l o, heap e !! l = Some o → heap e' !! l = Some o) ∧
  (∀ k, k ∈ own_keys h → lookup_host e' k = Some (mkSafe h rest runtime)) ∧
  GetHostByCode e' (Code h) = Some (mkSafe h rest runtime) ∧
  (∀ k, k ∉ own_keys h → lookup_host e' k =
     if bool_decide (is_Some (old_object (rt e) h) ∧ HostTarget (rt e) !! k = old_object (rt e) h) then None else lookup_host e k).
Proof.
  intros Hc. cbv zeta. split; [by apply LoadHost_closed|]. unfold LoadHost, alloc. cbv zeta. set (l' := fresh (dom (heap e))).
  assert (Hl' : heap e !! l' = None) by apply fresh_heap. clearbody l'. set (hs := mkSafe h rest runtime).
  assert (Hheap : ∀ l o, heap e !! l = Some o → <[l':=hs]> (heap e) !! l = Some o).
  { intros l o Hl. rewrite lookup_insert_ne; [done|]. intros ->. congruence. }
  unfold withWriteTable. change (rt (mkEngine (<[l':=hs]> (heap e)) (routing e))) with (rt e). cbn [heap].
  set (nt := load_table decode_items h l' (rt e)). pose proof (load_targets h l' (rt e)) as Ht. fold nt in Ht.
  assert (Hown : ∀ k, k ∈ own_keys h → lookup_host (mkEngine (<[l':=hs]> (heap e)) (Some nt)) k = Some hs).
  { intros k Hk. unfold lookup_host. rewrite rt_mk, Ht, bool_decide_eq_true_2 by done. cbn. apply lookup_insert_eq. }
  assert (Hother : ∀ k, k ∉ own_keys h → HostTarget nt !! k =
    if bool_decide (is_Some (old_object (rt e) h) ∧ HostTarget (rt e) !! k = old_object (rt e) h) then None else HostTarget (rt e) !! k).
  { intros k Hk. rewrite Ht, bool_decide_eq_false_2 by done. destruct (old_object (rt e) h) as [old|].
    - repeat case_bool_decide; naive_solver.
    - rewrite bool_decide_eq_false_2; [done|]. by intros [[] _]. }
  split; [exact Hheap|split; [exact Hown|split]].
  - unfold GetHostByCode. assert (Hcode : HostCode nt !! Code h = Some (code_key h)) by apply load_code.
    rewrite rt_mk, Hcode.
    destruct (code_key h) as [|c s] eqn:Ek; [|rewrite <- Ek; apply Hown, code_key_own].
    exfalso. revert Ek. unfold code_key. destruct (AutoJumpHTTPS h =? 1); [by destruct (Host h)|apply key_of_nonempty].
  - intros k Hk. unfold lookup_host. rewrite rt_mk, Hother by done.
    case_bool_decide; [done|]. destruct (HostTarget (rt e) !! k) as [l|] eqn:El; [|done]. cbn.
    destruct (Hc k l El) as [o Ho]. rewrite Ho. by apply Hheap.
Qed.

Lemma own_key_shape h k : k ∈ own_keys h → ∃ p, k = Host h ++ $":" ++ p ∧ plain_name p.
Proof.
  unfold own_keys. rewrite elem_of_app, elem_of_cons. intros [Hin|[->|Hin]].
  - destruct (AutoJumpHTTPS h =? 1); [|set_solver]. apply list_elem_of_singleton in Hin as ->. exists $"80". split; [done|apply port80_plain].
  - eexists. split; [done|apply itoa_plain].
  - apply list_elem_of_fmap in Hin as (p & -> & _). eexists. split; [done|apply itoa_plain].
Qed.

Lemma load_noport h l nt k :
  HostTargetNoPort (load_table decode_items h l nt) !! k =
  if bool_decide (k = Host h ∨ k ∈ more_lines h)
  then if UnrestrictedPort h =? 1 then Some (key_of (Host h) (Port h)) else None
  else HostTargetNoPort nt !! k.
Proof.
  unfold load_table. cbv zeta. cbn [HostTargetNoPort]. destruct (UnrestrictedPort h =? 1).
  - rewrite insert_all_get. repeat case_bool_decide; try set_solver.
    + rewrite lookup_insert_Some. naive_solver.
    + rewrite lookup_insert_ne; [done|]. set_solver.
  - rewrite delete_all_lookup. repeat case_bool_decide; try set_solver.
    + rewrite lookup_delete_None. naive_solver.
    + rewrite lookup_delete_ne; [done|]. set_solver.
Qed.

(** a site that has been loaded is served.  A request for one of the site's own name
    and port combinations is routed to the new settings, whether or not the site is
    bound to its ports, as long as there is no catch-all site (which wins over every
    named one). *)
Theorem LoadHost_routes e h rest runtime k secure :
  closed e → plain_name (Host h) → Host h ≠ $"*" → $"*" ∉ more_lines h →
  HostTargetNoPort (rt e) !! $"*" = None → (∀ p, HostTarget (rt e) !! ($"*:" ++ p) = None) →
  k ∈ own_keys h →
  route (LoadHost decode_items e h rest runtime) k secure = Some (mkSafe h rest runtime).
Proof.
  intros Hc Hn Hstar Hlines Hall Hport Hk.
  assert (Hserves : ∀ k, k ∈ own_keys h → lookup_host (LoadHost decode_items e h rest runtime) k = Some (mkSafe h rest runtime)).
  { intros j Hj. unfold LoadHost, alloc. cbv zeta. unfold withWriteTable, lookup_host. rewrite rt_mk, load_targets, bool_decide_eq_true_2 by done.
    cbn. apply lookup_insert_eq. }
  assert (Hrt : ∃ l, rt (LoadHost decode_items e h rest runtime) = load_table decode_items h l (rt e)) by by eexists.
  destruct Hrt as [l Hrt]. set (e' := LoadHost decode_items e h rest runtime) in *. clearbody e'.
  destruct (own_key_shape h k Hk) as (p & Ek & Hp).
  assert (Hnamed : ∃ host kind, named_match e' k secure = mkMatch host (port_of k) (Code h) kind true false).
  { unfold named_match. assert (Hw : with_port k secure = k).
    { unfold with_port. change ($":") with [":"%char]. rewrite (proj2 (contains_byte _ _)); [done|]. rewrite Ek. set_solver. }
    assert (Hpure : GetPureDomain k = Host h) by (rewrite Ek; by apply GetPureDomain_port).
    rewrite Hw. cbv zeta. rewrite Hpure, Hrt, load_noport, bool_decide_eq_true_2 by by left.
    set (redirected := if _ =? _ then _ else None).
    assert (Hr : default k redirected ∈ own_keys h) by (unfold redirected; destruct (_ =? _); cbn; [set_solver|done]).
    unfold named_code, code_at. rewrite (Hserves _ Hr). cbn. by eexists _, _. }
  destruct Hnamed as (host & kind & Hnamed). unfold route, resolveRequestHost. rewrite Hnamed.
  assert (Hcatch : HostTargetNoPort (rt e') !! $"*" = None).
  { rewrite Hrt, load_noport. case_bool_decide as E; [|done]. by destruct E. }
  rewrite Hcatch. assert (Hnone : code_at e' ($"*:" ++ m_Port (mkMatch host (port_of k) (Code h) kind true false)) = None).
  { unfold code_at, lookup_host. cbn [m_Port]. rewrite Hrt, load_targets. rewrite bool_decide_eq_false_2.
    - rewrite Hport. destruct (old_object _ _); [by case_bool_decide|done].
    - intros Hin. apply own_key_shape in Hin as (q & Eq & _). destruct Hn as (Hcolon & _).
      destruct (Host h) as [|x [|y r]] eqn:Eh; cbn in Eq; injection Eq as E1 E2; subst; try done; set_solver. }
  rewrite Hnone. cbn [m_Found m_Code]. rewrite Hrt, load_code. cbn. apply Hserves, code_key_own.
Qed.

End loading.

(** ** Managed hosts *)

Section managed.
Context `{UnicodeCase}.

(** signing in can return to every named site.  Whatever site the router finds by
    name for a request, its host passes [isManagedHost]; so the test that keeps the
    redirect inside the gateway never refuses a site it serves. *)
Theorem named_is_managed e host secure :
  host ≠ [] → to_lower (trim_space host) = host → (":"%char ∈ host ∨ plain_name host) → GetPureDomain host ≠ $"*" →
  m_Found (named_match e host secure) = true → isManagedHost e host = true.
Proof.
  intros Hne Hl Hshape Hstar. unfold isManagedHost. rewrite bool_decide_eq_false_2 by done. rewrite Hl. cbv zeta.
  assert (Hpure : GetPureDomain (with_port host secure) = GetPureDomain host ∧ with_port host secure ∈ candidates host).
  { unfold with_port, candidates. change ($":") with [":"%char]. destruct (contains host [":"%char]) eqn:E; [split; [done|set_solver]|].
    destruct Hshape as [Hin|Hp]; [by rewrite (proj2 (contains_byte _ _)) in E|]. rewrite (GetPureDomain_name host) by done.
    split; [|destruct secure; set_solver].
    destruct secure; [apply (GetPureDomain_port host $"443")|apply (GetPureDomain_port host $"80")]; try done; try apply port80_plain.
    split; [|split]; apply (bool_decide_unpack _); vm_compute; exact I. }
  destruct Hpure as [Hpure Hin]. unfold named_match. cbv zeta. rewrite Hpure.
  destruct (HostTargetNoPort (rt e) !! GetPureDomain host) as [t|]; [by rewrite bool_decide_eq_true_2, bool_decide_eq_false_2 by done|].
  cbn [default]. intros Hf. rewrite (bool_decide_eq_false_2 (is_Some None)) by by intros []. cbn [andb].
  apply existsb_elem_of. exists (with_port host secure). split; [done|]. unfold known.
  assert (Hcode : ∀ k c, code_at e k = Some c → is_Some (HostTarget (rt e) !! k)).
  { intros k c. unfold code_at, lookup_host. destruct (HostTarget (rt e) !! k); [done|by intros]. }
  unfold named_code in Hf. destruct (code_at e (with_port host secure)) eqn:E1; [by rewrite (bool_decide_eq_true_2 (is_Some (HostTarget (rt e) !! with_port host secure))) by eauto|].
  destruct (code_at e (MaskSubdomain _)) eqn:E2; [rewrite (bool_decide_eq_true_2 (is_Some (HostTarget (rt e) !! MaskSubdomain _))) by eauto; by rewrite orb_true_r|].
  destruct (HostTargetMoreDomain (rt e) !! with_port host secure) eqn:E3;
    [rewrite (bool_decide_eq_true_2 (is_Some (Some _))) by done; by rewrite orb_true_r|].
  destruct (HostTargetMoreDomain (rt e) !! MaskSubdomain _) eqn:E4; [|done].
  rewrite (bool_decide_eq_true_2 (is_Some (Some _))) by done. by rewrite orb_true_r.
Qed.
End managed.

End routing.
Arguments HostSafe : clear implicits.
Arguments engine : clear implicits.

(** ** Witnesses and findings *)

Section witnesses.
Local Instance plain_case : UnicodeCase := {| unicode_to_lower s := s |}.
Definition no_items (_ : gostr) : option (list PortListenItem) := None.
Definition demo_host (code host : gostr) (port ssl loose jump : Z) (more : gostr) : Hosts :=
  mkHosts code host port ssl 0 loose jump more [] [].
Definition empty_engine : engine unit := mkEngine ∅ None.
Abbreviation load h e := (LoadHost no_items e h () 0%nat).

Definition site_a : Hosts := demo_host $"A" $"a.x" 8080 0 0 0 $"b.x".
Definition with_a : engine unit := load site_a empty_engine.

Lemma closed_empty : closed empty_engine.
Proof. intros k l. unfold rt. cbn. by rewrite lookup_empty. Qed.
Lemma closed_load e h : closed e → closed (load h e).
Proof. intros Hc. by apply LoadHost_closed. Qed.

Lemma LoadHost_serves_witness : GetHostByCode with_a $"A" = Some (mkSafe site_a () 0%nat).
Proof. apply (LoadHost_serves no_items empty_engine site_a () 0%nat closed_empty). Defined.

Lemma LoadHost_routes_witness : route with_a $"a.x:8080" false = Some (mkSafe site_a () 0%nat).
Proof.
  apply (LoadHost_routes no_items empty_engine site_a () 0%nat $"a.x:8080" false closed_empty).
  - split; [|split]; apply (bool_decide_unpack _); vm_compute; exact I.
  - discriminate.
  - apply (bool_decide_unpack _); vm_compute; exact I.
  - reflexivity.
  - intros p. apply lookup_empty.
  - apply (bool_decide_unpack _); vm_compute; exact I.
Defined.

Lemma UpdateHostByKey_cow_witness :
  lookup_host (UpdateHostByKey with_a $"a.x:8080" (λ hs, mkSafe (hs_Host hs) () 7%nat)) $"a.x:8080" = Some (mkSafe site_a () 7%nat).
Proof.
  refine (eq_trans (proj1 (proj2 (proj2 (proj2 (UpdateHostByKey_cow with_a $"a.x:8080" (λ hs, mkSafe (hs_Host hs) () 7%nat) 0%nat (mkSafe site_a () 0%nat)
    (closed_load _ _ closed_empty) _ _)))) $"a.x:8080") _); vm_compute; reflexivity.
Defined.

Lemma named_is_managed_witness : isManagedHost with_a $"b.x:8080" = true.
Proof.
  apply (named_is_managed with_a $"b.x:8080" false); [discriminate|vm_compute; reflexivity| |discriminate|vm_compute; reflexivity].
  left. apply (bool_decide_unpack _); vm_compute; exact I.
Defined.

(** A site with unrestricted ports loses the further domain [b.x]; its entry in the
    loose-port table stays, and the domain is still served. *)
Example removed_alias_still_served :
  let before := load (demo_host $"A" $"a.x" 80 0 1 0 $"b.x") empty_engine in
  let after := load (demo_host $"A" $"a.x" 80 0 1 0 []) before in
  m_Found (resolveRequestHost after $"b.x:9999" false) = true ∧
  HostTargetMoreDomain (rt after) !! $"b.x:80" = None.
Proof. by vm_compute. Qed.

(** A site on port 443 that jumps to HTTPS is filed under port 80; another site of that
    name on port 80 then gets its HTTPS requests as well. *)
Example jump_site_shadowed :
  let e := load (demo_host $"B" $"a.x" 80 0 0 0 []) (load (demo_host $"A" $"a.x" 443 1 0 1 []) empty_engine) in
  m_Code (resolveRequestHost e $"a.x:443" true) = $"A" ∧
  (λ hs, Code (hs_Host hs)) <$> route e $"a.x:443" true = Some $"B".
Proof. by vm_compute. Qed.

(** [lookupHostCode] has no test for the catch-all entry that [isManagedHost] has; and
    [isManagedHost] itself finds the catch-all under its literal name and port. *)
Example lookup_knows_catch_all :
  let e := load (demo_host $"A" $"*" 8080 0 1 0 []) empty_engine in
  isManagedHost e $"*" = false ∧ lookupHostCode e $"*" = Some $"A" ∧ isManagedHost e $"*:8080" = true.
Proof. by vm_compute. Qed.
End witnesses.
End Routing.
