(* ===== verification/AccessConf.v ===== *)
(** * Configuration of the access gate (model/access_config.go,
      service/waf_service/waf_access_config_service.go, model/hosts.go ParseAccessConfig)

    The stored row, its clean-up, its validation when saved, and the snapshot published to
    the engine.  The single row, the list of sites and the published snapshot are the
    state; random bytes and the encryption of secrets are arguments, statements do not
    fail.  The option list of the configuration page is not modelled. *)
From S2P Require Import Prelude.
From S2P Require Import GoLib.
From S2P Require Import GoHttp.
From S2P Require Import GoUrl.
From S2P Require Import Lines.
From S2P Require Import PathMatch.
From S2P Require Import AccessGate.
From S2P Require Import HostListen.
From S2P Require Import AccessStore.
Local Open Scope Z_scope.
Local Open Scope bool_scope.

Module AccessConf.

Definition AccessUnauthAuto : gostr := $"auto".
Definition AccessUnauthRedirect : gostr := $"redirect".
Definition AccessUnauth401 : gostr := $"401".
Definition AccessDefaultPathPrefix : gostr := $"/samwaf_access".
Definition AccessDefaultCookiePrefix : gostr := $"samwaf_ac".
Definition AccessDefaultSessionTTLMin : Z := 720.
Definition AccessDefaultTokenTTLMin : Z := 720.
Definition AccessDefaultTicketTTLSec : Z := 60.
Definition AccessDefaultIdleMin : Z := 0.
Definition AccessDefaultMaxFail : Z := 10.
Definition AccessDefaultLockMinutes : Z := 3.
Definition AccessDefaultCachePosTTL : Z := AccessStore.AccessDefaultCachePosTTL.
Definition AccessCorsMaxAgeCap : Z := 7200.

Record AccessConfig := mkRow {
  Id : gostr; CenterOrigin : gostr; PathPrefix : gostr; CookiePrefix : gostr; HmacSecret : gostr;
  SessionTTLMinutes : Z; TokenTTLMinutes : Z; TicketTTLSeconds : Z; IdleTimeoutMinutes : Z;
  BindIP : Z; BindFingerprint : Z; RequireOtp : Z; MaxFailCount : Z; LockMinutes : Z;
  GlobalExcludePaths : gostr; BypassIPGroupCode : gostr; ServiceTokenHeader : gostr; ServiceTokenHashes : gostr;
  CorsAllowOrigins : gostr; CorsAllowMethods : gostr; CorsAllowHeaders : gostr; CorsMaxAge : Z;
  UnauthAction : gostr; PassIdentityHeader : Z; ForceSecureCookie : Z; CachePositiveTTLSec : Z
}.

Definition DefaultAccessConfig : AccessConfig :=
  mkRow [] [] AccessDefaultPathPrefix AccessDefaultCookiePrefix []
    AccessDefaultSessionTTLMin AccessDefaultTokenTTLMin AccessDefaultTicketTTLSec AccessDefaultIdleMin
    0 0 0 AccessDefaultMaxFail AccessDefaultLockMinutes
    [] [] [] [] [] [] [] 0 AccessUnauthAuto 0 0 AccessDefaultCachePosTTL.

Definition stripHeaderCtrlChars (v : gostr) : gostr :=
  trim_space (List.filter (λ c, (32 <=? code c) && negb (code c =? 127)) v).

(** The line ends of a list of origins. *)
Definition origin_lines (s : gostr) : gostr := replace_all [([chr 13], [chr 10]); ([chr 9], $" ")] s.

Definition known_action (a : gostr) : bool :=
  bool_decide (a = AccessUnauthAuto) || bool_decide (a = AccessUnauthRedirect) || bool_decide (a = AccessUnauth401).

Definition FillDefaults (c : AccessConfig) : AccessConfig :=
  let d := DefaultAccessConfig in
  mkRow (Id c) (CenterOrigin c)
    (match PathPrefix c with [] => PathPrefix d | p => p end)
    (match CookiePrefix c with [] => CookiePrefix d | p => p end)
    (HmacSecret c)
    (if SessionTTLMinutes c <=? 0 then SessionTTLMinutes d else SessionTTLMinutes c)
    (if TokenTTLMinutes c <=? 0 then TokenTTLMinutes d else TokenTTLMinutes c)
    (if (TicketTTLSeconds c <=? 0) || (300 <? TicketTTLSeconds c) then TicketTTLSeconds d else TicketTTLSeconds c)
    (if IdleTimeoutMinutes c <? 0 then 0 else IdleTimeoutMinutes c)
    (BindIP c) (BindFingerprint c) (RequireOtp c)
    (if MaxFailCount c <=? 0 then MaxFailCount d else MaxFailCount c)
    (if LockMinutes c <=? 0 then LockMinutes d else LockMinutes c)
    (GlobalExcludePaths c) (BypassIPGroupCode c) (ServiceTokenHeader c) (ServiceTokenHashes c)
    (origin_lines (CorsAllowOrigins c)) (stripHeaderCtrlChars (CorsAllowMethods c)) (stripHeaderCtrlChars (CorsAllowHeaders c))
    (if (CorsMaxAge c <? 0) || (AccessCorsMaxAgeCap <? CorsMaxAge c) then 0 else CorsMaxAge c)
    (if known_action (UnauthAction c) then UnauthAction c else UnauthAction d)
    (PassIdentityHeader c) (ForceSecureCookie c)
    (if (CachePositiveTTLSec c <=? 0) || (AccessDefaultCachePosTTL <? CachePositiveTTLSec c) then CachePositiveTTLSec d else CachePositiveTTLSec c).

(** ** The configuration of a site (model.HostAccessConfig) *)

Record HostAccessConfig := mkHostCfg {
  Mode : Z; ExcludePaths : gostr; h_RequireOtp : Z; h_UnauthAction : gostr; AllowIPGroupCode : gostr;
  h_CorsAllowOrigins : gostr; h_CorsAllowMethods : gostr; h_CorsAllowHeaders : gostr; h_CorsMaxAge : Z
}.
Definition inheriting : HostAccessConfig := mkHostCfg Mode.ModeInherit [] 0 [] [] [] [] [] 0.

(** [json.Unmarshal] into the default value is the argument. *)
Definition ParseAccessConfig (decode : gostr → option HostAccessConfig) (jsonStr : gostr) : HostAccessConfig :=
  match jsonStr with
  | [] => inheriting
  | _ =>
      match decode jsonStr with
      | None => inheriting
      | Some c =>
          mkHostCfg
            (if (Mode c <? Mode.ModeInherit) || (Mode.ModeForceOff <? Mode c) then Mode.ModeInherit else Mode c)
            (ExcludePaths c) (h_RequireOtp c)
            (if bool_decide (h_UnauthAction c = []) || known_action (h_UnauthAction c) then h_UnauthAction c else [])
            (AllowIPGroupCode c) (origin_lines (h_CorsAllowOrigins c))
            (stripHeaderCtrlChars (h_CorsAllowMethods c)) (stripHeaderCtrlChars (h_CorsAllowHeaders c))
            (if (h_CorsMaxAge c <? 0) || (AccessCorsMaxAgeCap <? h_CorsMaxAge c) then 0 else h_CorsMaxAge c)
      end
  end.

Section service.
Context `{UnicodeCase}.
Variable sha256 : gostr → gostr.

Definition boolInt (v : Z) : Z := if v =? 1 then 1 else 0.

Definition splitLines (raw : gostr) : list gostr :=
  match trim_space raw with
  | [] => []
  | _ => items raw
  end.

Definition hashServiceTokens (raw : gostr) : gostr :=
  join (map (λ line, Hosts.EncodeToString (sha256 line)) (splitLines raw)) [chr 10].

Definition buildOrigin (domain : gostr) (port : Z) (ssl : bool) : gostr :=
  let scheme := if ssl then $"https" else $"http" in
  let def := if ssl then 443 else 80 in
  if (port =? def) || (port =? 0) then scheme ++ $"://" ++ domain else scheme ++ $"://" ++ domain ++ $":" ++ itoa port.

Inductive origin_error := OriginSyntax | OriginScheme | OriginHost | OriginUser.

(** The origin and its host with the port. *)
Definition normalizeCenterOrigin (raw : gostr) : result origin_error (gostr * gostr) :=
  match trim_space raw with
  | [] => Ok ([], [])
  | s =>
      match Parse s with
      | None => Err OriginSyntax
      | Some u =>
          let scheme := to_lower (Scheme u) in
          if negb (bool_decide (scheme = $"http")) && negb (bool_decide (scheme = $"https")) then Err OriginScheme
          else if bool_decide (UHost u = []) then Err OriginHost
          else if negb (bool_decide (User u = None)) then Err OriginUser
          else let host := to_lower (UHost u) in Ok (scheme ++ $"://" ++ host, host)
      end
  end.
(** The host, the error ignored. *)
Definition center_host (raw : gostr) : gostr := match normalizeCenterOrigin raw with Ok (_, h) => h | Err _ => [] end.

(** ** The sites that host the sign-in *)

Definition without_port (centerHost : gostr) : gostr :=
  match last_index_byte centerHost ":" with Some (S i) => take (S i) centerHost | _ => centerHost end.

Definition serves_center (pure : gostr) (h : HostListen.Hosts) : bool :=
  let host := HostListen.Host h in
  equal_fold host pure || bool_decide (host = $"*")
  || (has_prefix host $"*." && has_suffix (to_lower pure) (to_lower (drop 1 host)))
  || existsb (λ more, equal_fold more pure) (splitLines (HostListen.BindMoreHost h)).

Definition isCenterHostConfigured (hosts : list HostListen.Hosts) (centerHost : gostr) : bool :=
  existsb (serves_center (without_port centerHost)) hosts.

(** ** State and operations *)

Record cstate := mkState { row : option AccessConfig; hosts : list HostListen.Hosts; snapshot : option Mode.Config }.

Definition GetConfig (st : cstate) : AccessConfig :=
  match row st with None => DefaultAccessConfig | Some bean => FillDefaults bean end.

Definition IsHostUsedAsCenter (st : cstate) (host : HostListen.Hosts) : option gostr :=
  let centerHost := center_host (CenterOrigin (GetConfig st)) in
  if bool_decide (centerHost = []) then None
  else
    let pure := to_lower (without_port centerHost) in
    let hit d :=
      let d := to_lower (trim_space d) in
      negb (bool_decide (d = []))
      && (bool_decide (d = pure) || bool_decide (d = $"*") || (has_prefix d $"*." && has_suffix pure (drop 1 d))) in
    if existsb hit (HostListen.Host host :: splitLines (HostListen.BindMoreHost host)) then Some centerHost else None.

(** The switches of the process: force_disable, access_enable, the ACME path. *)
Variable force_disable : bool.
Variable access_enable : Z.
Variable acme_path : gostr.
(** [wafsec.DataEncrypt] and [DataDecrypt]; [None] is an error. *)
Variable DataEncrypt DataDecrypt : gostr → option gostr.

Definition encryptAccessSecret (plain : gostr) : option gostr :=
  if bool_decide (trim_space plain = []) then Some [] else DataEncrypt plain.
Definition decryptAccessSecret (enc : gostr) : gostr :=
  if bool_decide (trim_space enc = []) then [] else default [] (DataDecrypt enc).
Definition newEncryptedSecret (rand : option gostr) : option gostr :=
  match AccessStore.genAccessSecret rand with Err _ => None | Ok plain => encryptAccessSecret plain end.

(** [time.Duration] is an int64. *)
Definition duration (n unit : Z) : Z := swrap 64 (n * unit).

Definition compiled (bean : AccessConfig) (centerOrigin centerHost : gostr) : Mode.Config :=
  Mode.mkConfig force_disable (access_enable =? 1) centerOrigin centerHost
    (PathMatch.NormalizePathPrefix (PathPrefix bean)) (CookiePrefix bean ++ $"_sso") (CookiePrefix bean)
    (decryptAccessSecret (HmacSecret bean))
    (duration (SessionTTLMinutes bean) minute) (duration (TokenTTLMinutes bean) minute)
    (duration (TicketTTLSeconds bean) second) (duration (IdleTimeoutMinutes bean) minute)
    (BindIP bean =? 1) (BindFingerprint bean =? 1) (RequireOtp bean =? 1) (MaxFailCount bean) (duration (LockMinutes bean) minute)
    (PathMatch.BuildExcludePaths (GlobalExcludePaths bean)) (BypassIPGroupCode bean) (ServiceTokenHeader bean)
    (splitLines (ServiceTokenHashes bean))
    (CORS.mkPolicy (CORS.BuildAllowOrigins (CorsAllowOrigins bean)) (CORS.SanitizeHeaderValue (CorsAllowMethods bean))
       (CORS.SanitizeHeaderValue (CorsAllowHeaders bean)) (CorsMaxAge bean))
    (UnauthAction bean) (PassIdentityHeader bean =? 1) (ForceSecureCookie bean =? 1) (duration (CachePositiveTTLSec bean) second).

Definition PublishConfig (st : cstate) : cstate :=
  let bean := GetConfig st in
  let centerHost := center_host (CenterOrigin bean) in
  let lost := negb (bool_decide (centerHost = [])) && negb (isCenterHostConfigured (hosts st) centerHost) in
  let cfg := compiled bean (if lost then [] else CenterOrigin bean) (if lost then [] else centerHost) in
  mkState (row st) (hosts st) (Mode.SetConfig (Some cfg)).

Definition with_center (bean : AccessConfig) (center : gostr) : AccessConfig :=
  mkRow (Id bean) center (PathPrefix bean) (CookiePrefix bean) (HmacSecret bean)
    (SessionTTLMinutes bean) (TokenTTLMinutes bean) (TicketTTLSeconds bean) (IdleTimeoutMinutes bean)
    (BindIP bean) (BindFingerprint bean) (RequireOtp bean) (MaxFailCount bean) (LockMinutes bean)
    (GlobalExcludePaths bean) (BypassIPGroupCode bean) (ServiceTokenHeader bean) (ServiceTokenHashes bean)
    (CorsAllowOrigins bean) (CorsAllowMethods bean) (CorsAllowHeaders bean) (CorsMaxAge bean)
    (UnauthAction bean) (PassIdentityHeader bean) (ForceSecureCookie bean) (CachePositiveTTLSec bean).
Definition with_secret (bean : AccessConfig) (id secret : gostr) : AccessConfig :=
  mkRow id (CenterOrigin bean) (PathPrefix bean) (CookiePrefix bean) secret
    (SessionTTLMinutes bean) (TokenTTLMinutes bean) (TicketTTLSeconds bean) (IdleTimeoutMinutes bean)
    (BindIP bean) (BindFingerprint bean) (RequireOtp bean) (MaxFailCount bean) (LockMinutes bean)
    (GlobalExcludePaths bean) (BypassIPGroupCode bean) (ServiceTokenHeader bean) (ServiceTokenHashes bean)
    (CorsAllowOrigins bean) (CorsAllowMethods bean) (CorsAllowHeaders bean) (CorsMaxAge bean)
    (UnauthAction bean) (PassIdentityHeader bean) (ForceSecureCookie bean) (CachePositiveTTLSec bean).

(** [UPDATE ... SET center_origin = '' WHERE id = ?]: the stored row, not the cleaned one. *)
Definition SyncAfterHostChanged (st : cstate) : cstate :=
  let bean := GetConfig st in
  let centerHost := center_host (CenterOrigin bean) in
  let stale := negb (bool_decide (Id bean = [])) && negb (bool_decide (trim_space (CenterOrigin bean) = []))
               && negb (bool_decide (centerHost = [])) && negb (isCenterHostConfigured (hosts st) centerHost) in
  PublishConfig (if stale then mkState ((λ r, with_center r []) <$> row st) (hosts st) (snapshot st) else st).

(** [GenUUID] and the random bytes are arguments. *)
Definition RegenerateSecretApi (uuid : gostr) (rand : option gostr) (st : cstate) : cstate * result unit unit :=
  let bean := GetConfig st in
  match newEncryptedSecret rand with
  | None => (st, Err ())
  | Some enc =>
      let r := if bool_decide (Id bean = []) then Some (with_secret bean uuid enc)
               else (λ r, with_secret r (Id r) enc) <$> row st in
      (PublishConfig (mkState r (hosts st) (snapshot st)), Ok ())
  end.

(** ** Saving *)

(** The fields of the request have the names of the row's. *)
Record WafAccessConfigSaveReq := mkSave { req : AccessConfig; ServiceTokens : gostr }.

Definition name_byte (c : ascii) : bool := is_alpha_lower c || is_digit c || one_of c $"_-".
(** [^/[a-z0-9_\-/]{2,63}$] *)
Definition pathPrefixPattern (p : gostr) : bool :=
  match p with
  | c :: rest => Ascii.eqb c "/" && (2 <=? length rest)%nat && (length rest <=? 63)%nat
                 && forallb (λ c, name_byte c || Ascii.eqb c "/") rest
  | [] => false
  end.
(** [^[a-z0-9_\-]{2,32}$] *)
Definition cookie_prefix_ok (p : gostr) : bool := (2 <=? length p)%nat && (length p <=? 32)%nat && forallb name_byte p.

Inductive save_error :=
| SaveOrigin (e : origin_error) | SaveNoCenter | SaveUnknownCenter | SavePrefix | SaveAcme | SaveCookie | SaveSecret.

Definition saved_row (old q : AccessConfig) (center prefix cookiePrefix hashes secret : gostr) : AccessConfig :=
  mkRow (Id old) center prefix cookiePrefix secret
    (SessionTTLMinutes q) (TokenTTLMinutes q) (TicketTTLSeconds q) (IdleTimeoutMinutes q)
    (boolInt (BindIP q)) (boolInt (BindFingerprint q)) (boolInt (RequireOtp q)) (MaxFailCount q) (LockMinutes q)
    (GlobalExcludePaths q) (trim_space (BypassIPGroupCode q)) (trim_space (ServiceTokenHeader q)) hashes
    (CorsAllowOrigins q) (CorsAllowMethods q) (CorsAllowHeaders q) (CorsMaxAge q)
    (UnauthAction q) (boolInt (PassIdentityHeader q)) (boolInt (ForceSecureCookie q)) (CachePositiveTTLSec q).

(** The cleaned request, or the first check that fails. *)
Definition checked (hosts : list HostListen.Hosts) (q : AccessConfig) : result save_error (gostr * gostr * gostr) :=
  match normalizeCenterOrigin (CenterOrigin q) with
  | Err e => Err (SaveOrigin e)
  | Ok (center, centerHost) =>
      if bool_decide (centerHost = []) then Err SaveNoCenter
      else if negb (isCenterHostConfigured hosts centerHost) then Err SaveUnknownCenter
      else
        let prefix := PathMatch.NormalizePathPrefix (PathPrefix q) in
        if negb (pathPrefixPattern prefix) then Err SavePrefix
        else if has_prefix prefix $"/.well-known" || has_prefix acme_path prefix then Err SaveAcme
        else
          let cookiePrefix := match to_lower (trim_space (CookiePrefix q)) with [] => AccessDefaultCookiePrefix | c => c end in
          if negb (cookie_prefix_ok cookiePrefix) then Err SaveCookie else Ok (center, prefix, cookiePrefix)
  end.

Definition SaveApi (uuid : gostr) (rand : option gostr) (r : WafAccessConfigSaveReq) (st : cstate) : cstate * result save_error unit :=
  match checked (hosts st) (req r) with
  | Err e => (st, Err e)
  | Ok (center, prefix, cookiePrefix) =>
      let old := GetConfig st in
      let hashes := match trim_space (ServiceTokens r) with
                    | [] => ServiceTokenHashes old
                    | t => if bool_decide (t = $"-") then [] else hashServiceTokens (ServiceTokens r)
                    end in
      let secret := if bool_decide (trim_space (HmacSecret old) = []) then newEncryptedSecret rand else Some (HmacSecret old) in
      match secret with
      | None => (st, Err SaveSecret)
      | Some secret =>
          let bean := FillDefaults (saved_row old (req r) center prefix cookiePrefix hashes secret) in
          let bean := if bool_decide (Id bean = []) then with_secret bean uuid (HmacSecret bean) else bean in
          (PublishConfig (mkState (Some bean) (hosts st) (snapshot st)), Ok ())
      end
  end.

End service.

(** ** The clean-up *)

(** A row the engine can work with. *)
Record row_ok (c : AccessConfig) : Prop := {
  ro_prefix : PathPrefix c ≠ [] ∧ CookiePrefix c ≠ [];
  ro_session : 0 < SessionTTLMinutes c ∧ 0 < TokenTTLMinutes c ∧ 0 ≤ IdleTimeoutMinutes c;
  ro_ticket : 0 < TicketTTLSeconds c ≤ 300;
  ro_login : 0 < MaxFailCount c ∧ 0 < LockMinutes c;
  ro_cache : 0 < CachePositiveTTLSec c ≤ AccessDefaultCachePosTTL;
  ro_age : 0 ≤ CorsMaxAge c ≤ AccessCorsMaxAgeCap;
  ro_action : known_action (UnauthAction c) = true;
  ro_headers : ∀ v, v = CorsAllowMethods c ∨ v = CorsAllowHeaders c → CORS.clean v ∧ trim_space v = v;
  ro_origins : chr 13 ∉ CorsAllowOrigins c ∧ chr 9 ∉ CorsAllowOrigins c;
}.

Lemma strip_filter v : List.filter (λ c, (32 <=? code c) && negb (code c =? 127)) v = List.filter (λ c, negb (CORS.is_control c)) v.
Proof.
  apply filter_ext. intros c. unfold CORS.is_control.
  destruct (Z.leb_spec 32 (code c)), (Z.ltb_spec (code c) 32), (Z.eqb_spec (code c) 127); cbn; lia || done.
Qed.

Lemma strip_ok v : CORS.clean (stripHeaderCtrlChars v) ∧ trim_space (stripHeaderCtrlChars v) = stripHeaderCtrlChars v.
Proof. unfold stripHeaderCtrlChars. rewrite strip_filter. split; [apply CORS.clean_trim, CORS.clean_filter|apply trim_space_idem]. Qed.

Lemma strip_fixed v : CORS.clean v → trim_space v = v → stripHeaderCtrlChars v = v.
Proof.
  intros Hc Ht. unfold stripHeaderCtrlChars. rewrite strip_filter. rewrite forallb_filter_id; [done|]. done.
Qed.

Lemma has_prefix_one d (s : gostr) c : has_prefix (d :: s) [c] = Ascii.eqb c d.
Proof. cbn. by destruct s; rewrite andb_true_r. Qed.

Lemma replacer_byte fuel a b (s : gostr) : (length s ≤ fuel)%nat → ∀ c, c ∈ replacer [([chr 13], [a]); ([chr 9], [b])] fuel s →
  c = a ∨ c = b ∨ c ∈ s ∧ c ≠ chr 13 ∧ c ≠ chr 9.
Proof.
  revert s. induction fuel as [|fuel IH]; intros s Hl c; [destruct s; [set_solver|cbn in Hl; lia]|].
  destruct s as [|d s]; [set_solver|]. cbn [replacer List.find fst].
  rewrite !has_prefix_one.
  assert (Hr : ∀ c, c ∈ replacer [([chr 13], [a]); ([chr 9], [b])] fuel s → c = a ∨ c = b ∨ c ∈ s ∧ c ≠ chr 13 ∧ c ≠ chr 9).
  { apply IH. cbn in Hl. lia. }
  destruct (Ascii.eqb_spec (chr 13) d) as [<-|H1]; [cbn; set_solver|].
  destruct (Ascii.eqb_spec (chr 9) d) as [<-|H2]; [cbn; set_solver|]. set_solver.
Qed.

Lemma origin_lines_ok s : chr 13 ∉ origin_lines s ∧ chr 9 ∉ origin_lines s.
Proof.
  split; intros Hin; apply (replacer_byte _ (chr 10) " "%char) in Hin; try done; destruct Hin as [E|[E|(_ & H1 & H2)]]; done.
Qed.

Lemma replacer_fixed fuel pairs (s : gostr) :
  (∀ c, c ∈ s → forallb (λ p, match p.1 with d :: _ => negb (Ascii.eqb d c) | [] => false end) pairs = true) → replacer pairs fuel s = s.
Proof.
  revert s. induction fuel as [|fuel IH]; intros s Hs; [done|]. destruct s as [|d s]; [done|]. cbn [replacer].
  destruct (List.find _ pairs) as [[old new]|] eqn:E.
  - apply find_some in E as [Hin Hp]. specialize (Hs d ltac:(set_solver)). rewrite forallb_forall in Hs. specialize (Hs _ Hin).
    cbn in *. destruct old as [|o old]; [done|]. cbn in Hp. prop_of_bool. by subst.
  - f_equal. apply IH. intros c Hc. apply Hs. set_solver.
Qed.

Lemma origin_lines_fixed s : chr 13 ∉ s → chr 9 ∉ s → origin_lines s = s.
Proof.
  intros H1 H2. apply replacer_fixed. intros c Hc. cbn [forallb fst].
  destruct (Ascii.eqb_spec (chr 13) c), (Ascii.eqb_spec (chr 9) c); subst; done.
Qed.

(** ** Addresses *)

Lemma name_byte_visible c : name_byte c || Ascii.eqb c "/" = true → visible c = true.
Proof. destruct c as [[] [] [] [] [] [] [] []]; vm_compute; done. Qed.
Lemma name_byte_lower c : name_byte c || Ascii.eqb c "/" = true → is_ascii_byte c = true ∧ lower_byte c = c.
Proof. destruct c as [[] [] [] [] [] [] [] []]; vm_compute; done. Qed.

(** A host as people write it: lower-case letters, digits, dots and dashes. *)
Definition dns_byte (c : ascii) : bool := is_alpha_lower c || is_digit c || one_of c $".-".

Lemma dns_byte_facts c : dns_byte c = true →
  visible c = true ∧ is_ascii_byte c = true ∧ lower_byte c = c ∧ shouldEscape c encodeHost = false ∧ one_of c $"#?/@[]:%+" = false ∧ is_control c = false.
Proof. destruct c as [[] [] [] [] [] [] [] []]; vm_compute; done. Qed.

Lemma digit_facts c : is_digit c = true → dns_byte c = true.
Proof. unfold dns_byte. intros ->. by rewrite orb_true_r. Qed.

Definition host_byte (c : ascii) : bool := dns_byte c || Ascii.eqb c ":".
Lemma host_byte_facts c : host_byte c = true →
  visible c = true ∧ is_ascii_byte c = true ∧ lower_byte c = c ∧ shouldEscape c encodeHost = false ∧ one_of c $"#?/@[]%+" = false ∧ is_control c = false.
Proof. destruct c as [[] [] [] [] [] [] [] []]; vm_compute; done. Qed.

(** A host with an optional port. *)
Record plain_host (h : gostr) : Prop := {
  ph_bytes : forallb host_byte h = true;
  ph_some : h ≠ [];
  ph_port : match last_index_byte h ":" with Some i => validOptionalPort (drop i h) = true | None => True end;
}.

Section lower.
Context `{UnicodeCase}.
Lemma to_lower_fixed s : (∀ c, c ∈ s → is_ascii_byte c = true ∧ lower_byte c = c) → to_lower s = s.
Proof.
  intros Hs. unfold to_lower. rewrite (proj2 (forallb_forall is_ascii_byte s)) by (intros c ?%list_elem_of_In; by apply Hs).
  induction s as [|c s IH]; [done|]. cbn. rewrite (proj2 (Hs c ltac:(set_solver))), IH; [done|]. intros d Hd. apply Hs. set_solver.
Qed.
End lower.

Lemma absent_byte (P : ascii → bool) (s : gostr) c : forallb P s = true → P c = false → c ∉ s.
Proof. intros Hs Hc Hin. apply list_elem_of_In in Hin. rewrite forallb_forall in Hs. rewrite (Hs _ Hin) in Hc. done. Qed.

Lemma unescape_plain mode s : (∀ c, c ∈ s → Ascii.eqb c "%" = false ∧ Ascii.eqb c "+" = false ∧ shouldEscape c mode = false) → unescape s mode = Some s.
Proof.
  induction s as [|c s IH]; intros Hs; [done|]. cbn [unescape]. destruct (Hs c ltac:(set_solver)) as (-> & -> & Hc). cbn [andb].
  rewrite Hc, !andb_false_r, IH; [done|]. intros d Hd. apply Hs. set_solver.
Qed.

Lemma last_index_none (s : gostr) c : c ∉ s → last_index_byte s c = None.
Proof.
  induction s as [|a s IH]; intros Hn; [done|]. cbn. rewrite IH by set_solver.
  destruct (Ascii.eqb_spec a c); [set_solver|done].
Qed.

Lemma host_byte_absent h c : plain_host h → one_of c $"#?/@[]%+" = true → c ∉ h.
Proof.
  intros Hh Hc Hin. apply list_elem_of_In in Hin. pose proof (ph_bytes _ Hh) as Hb. rewrite forallb_forall in Hb.
  destruct (host_byte_facts c (Hb _ Hin)) as (_ & _ & _ & _ & E & _). congruence.
Qed.

Lemma parseHost_plain h : plain_host h → parseHost h = Some h.
Proof.
  intros Hh. unfold parseHost. rewrite (last_index_none h "[") by (by apply host_byte_absent).
  assert (Hu : unescape h encodeHost = Some h).
  { apply unescape_plain. intros c Hc. apply list_elem_of_In in Hc. pose proof (ph_bytes _ Hh) as Hb. rewrite forallb_forall in Hb.
    destruct (host_byte_facts c (Hb _ Hc)) as (_ & _ & _ & E & F & _).
    destruct (Ascii.eqb_spec c "%"); [by subst|]. destruct (Ascii.eqb_spec c "+"); [by subst|]. done. }
  pose proof (ph_port _ Hh) as Hp. destruct (last_index_byte h ":"); [by rewrite Hp|done].
Qed.

Lemma cut_none s c : c ∉ s → cut s c = (s, []).
Proof. intros Hn. unfold cut, cut_at. by rewrite (proj2 (index_byte_none s c) Hn). Qed.

Lemma suffix_last (s : gostr) c : has_suffix s [c] = true → c ∈ s.
Proof.
  unfold has_suffix. intros (r & E)%has_prefix_split. apply (f_equal reverse) in E. rewrite reverse_involutive in E. rewrite E, reverse_app. set_solver.
Qed.

Lemma some_bind {A B} (a : A) (f : A → option B) : Some a ≫= f = f a.
Proof. done. Qed.

Lemma Parse_origin (https : bool) h :
  plain_host h →
  let scheme := if https then $"https" else $"http" in
  Parse (scheme ++ $"://" ++ h) = Some (mkURL scheme [] None h [] [] false false [] [] []).
Proof.
  intros Hh scheme. set (s := scheme ++ $"://" ++ h).
  assert (Hpre : ∀ (P : ascii → bool), existsb P (scheme ++ $"://") = false → ∀ c, P c = true → c ∈ s → c ∈ h).
  { intros P HP c Hc Hs. unfold s in Hs. rewrite app_assoc in Hs. apply elem_of_app in Hs as [Hs|]; [|done].
    assert (existsb P (scheme ++ $"://") = true) by (apply existsb_elem_of; eauto). congruence. }
  assert (Hno : ∀ c, one_of c $"#?" = true → c ∉ s).
  { intros c Hc Hs. apply (Hpre (λ c, one_of c $"#?")) in Hs; [|by destruct https|done].
    revert Hs. apply host_byte_absent; [done|]. unfold one_of in *. cbn in *. by destruct (Ascii.eqb c "#"), (Ascii.eqb c "?"). }
  assert (Hctl : existsb is_control s = false).
  { destruct (existsb is_control s) eqn:E; [|done]. apply existsb_elem_of in E as (c & Hc & Ec).
    apply (Hpre is_control) in Hc; [|by destruct https|done]. pose proof (ph_bytes _ Hh) as Hb. rewrite forallb_forall in Hb.
    apply list_elem_of_In in Hc. destruct (host_byte_facts c (Hb _ Hc)) as (_ & _ & _ & _ & _ & F). congruence. }
  assert (Hq : ∀ c, one_of c $"?" = true → c ∉ $"//" ++ h).
  { intros c Hc Hs. apply (Hno c); [unfold one_of in *; cbn in *; by destruct (Ascii.eqb c "#"), (Ascii.eqb c "?")|].
    unfold s. change ($"://") with ($":" ++ $"//"). set_solver. }
  unfold Parse. rewrite (cut_none s "#") by (by apply Hno). unfold parse. rewrite Hctl.
  rewrite (bool_decide_false (s = $"*")) by (unfold s; destruct https; discriminate).
  assert (getScheme s = Some (scheme, $"//" ++ h)) as -> by (by destruct https).
  rewrite some_bind. cbv beta iota. assert (map lower_byte scheme = scheme) as -> by (by destruct https).
  assert (split_query ($"//" ++ h) = ($"//" ++ h, false, [])) as ->.
  { unfold split_query. destruct (has_suffix _ _) eqn:E; [apply suffix_last in E; by apply Hq in E|].
    cbn [andb]. rewrite cut_none; [done|by apply Hq]. }
  assert (has_prefix ($"//" ++ h) $"/" = true) as -> by done.
  assert (has_prefix ($"//" ++ h) $"//" = true) as -> by (apply has_prefix_split; by exists h).
  assert (negb (bool_decide (scheme = [])) = true) as -> by (by destruct https). cbn [negb andb orb drop app].
  assert (Hi : index_byte h "/" = None) by (apply index_byte_none; by apply host_byte_absent).
  change (drop 2 ($"//" ++ h)) with h. rewrite Hi. cbn [default]. rewrite take_ge, drop_ge by done.
  unfold parseAuthority. rewrite (last_index_none h "@") by (by apply host_byte_absent). rewrite parseHost_plain by done. done.
Qed.

(** What the configuration page offers is accepted as it is. *)
Lemma normalize_plain `{UnicodeCase} (https : bool) h :
  plain_host h →
  let o := (if https then $"https" else $"http") ++ $"://" ++ h in
  normalizeCenterOrigin o = Ok (o, h).
Proof.
  intros Hh o. unfold normalizeCenterOrigin.
  pose proof (ph_bytes _ Hh) as Hb. rewrite forallb_forall in Hb.
  assert (Ht : trim_space o = o).
  { apply trim_space_visible. unfold o. rewrite !forallb_app, !andb_true_iff. split; [by destruct https|]. split; [done|].
    apply forallb_forall. intros c Hc. by apply host_byte_facts, Hb. }
  rewrite Ht. assert (o ≠ []) by (unfold o; by destruct https). destruct o as [|c0 o'] eqn:Eo; [done|]. rewrite <- Eo. unfold o.
  rewrite (Parse_origin https h Hh). cbn [Scheme UHost User].
  assert (to_lower h = h) as -> by (apply to_lower_fixed; intros c Hc%list_elem_of_In; by destruct (host_byte_facts c (Hb _ Hc)) as (_ & ? & ? & _)).
  assert (to_lower (if https then $"https" else $"http") = if https then $"https" else $"http") as -> by (by destruct https).
  rewrite (bool_decide_false (h = [])) by (apply Hh). by destruct https.
Qed.

#[local] Arguments stripHeaderCtrlChars : simpl never.
#[local] Arguments origin_lines : simpl never.
#[local] Arguments known_action : simpl never.

Lemma FillDefaults_row c : row_ok (FillDefaults c).
Proof.
  pose proof (strip_ok (CorsAllowMethods c)). pose proof (strip_ok (CorsAllowHeaders c)). pose proof (origin_lines_ok (CorsAllowOrigins c)).
  unfold AccessCorsMaxAgeCap, AccessDefaultCachePosTTL, AccessStore.AccessDefaultCachePosTTL.
  split; cbn; unfold AccessDefaultTicketTTLSec, AccessDefaultMaxFail, AccessDefaultLockMinutes, AccessDefaultCachePosTTL,
    AccessStore.AccessDefaultCachePosTTL, AccessCorsMaxAgeCap, AccessDefaultSessionTTLMin, AccessDefaultTokenTTLMin, AccessDefaultPathPrefix, AccessDefaultCookiePrefix; try done.
  - by destruct (PathPrefix c), (CookiePrefix c).
  - destruct (Z.leb_spec (SessionTTLMinutes c) 0), (Z.leb_spec (TokenTTLMinutes c) 0), (Z.ltb_spec (IdleTimeoutMinutes c) 0); lia.
  - destruct (Z.leb_spec (TicketTTLSeconds c) 0), (Z.ltb_spec 300 (TicketTTLSeconds c)); cbn; lia.
  - destruct (Z.leb_spec (MaxFailCount c) 0), (Z.leb_spec (LockMinutes c) 0); lia.
  - destruct (Z.leb_spec (CachePositiveTTLSec c) 0), (Z.ltb_spec 60 (CachePositiveTTLSec c)); cbn; lia.
  - destruct (Z.ltb_spec (CorsMaxAge c) 0), (Z.ltb_spec 7200 (CorsMaxAge c)); cbn; lia.
  - by destruct (known_action (UnauthAction c)) eqn:E.
  - by intros v [-> | ->].
Qed.

Lemma FillDefaults_fixed c : row_ok c → FillDefaults c = c.
Proof.
  intros [Hp Hs Ht Hl Hc Ha Hk Hh Ho]. destruct c as [? ? pp cp ? st tt tk idle ? ? ? mf lm ? ? ? ? co cm ch ca ua ? ? cpt]. cbn in *.
  unfold AccessCorsMaxAgeCap, AccessDefaultCachePosTTL, AccessStore.AccessDefaultCachePosTTL in *. unfold FillDefaults. cbn.
  destruct (Hh cm (or_introl eq_refl)), (Hh ch (or_intror eq_refl)).
  rewrite (strip_fixed cm), (strip_fixed ch), origin_lines_fixed, Hk by tauto.
  unfold AccessCorsMaxAgeCap, AccessDefaultCachePosTTL, AccessStore.AccessDefaultCachePosTTL.
  rewrite !(proj2 (Z.leb_gt _ _)), !(proj2 (Z.ltb_ge _ _)) by lia. destruct Hp as [Hp1 Hp2]. by destruct pp, cp.
Qed.

(** C39: whatever row is stored - by an older version, by hand - what the gate compiles is
    well-formed: positive bounded lifetimes, a bounded positive cache time, header values
    without control bytes; and a well-formed row is left as it is (so the clean-up is
    idempotent). *)
Theorem FillDefaults_ok c : row_ok (FillDefaults c) ∧ (row_ok c → FillDefaults c = c).
Proof. split; [apply FillDefaults_row|apply FillDefaults_fixed]. Qed.


(** ** What the engine gets *)

Section published.
Context `{UnicodeCase}.
Variable force_disable : bool.
Variable access_enable : Z.
Variable DataDecrypt : gostr → option gostr.

Abbreviation Publish := (PublishConfig force_disable access_enable DataDecrypt).
Abbreviation published st := (Mode.Get (snapshot (Publish st))).

Lemma duration_small n unit b : 0 < n ≤ b → 0 < unit → b * unit < 2 ^ 63 → duration n unit = n * unit.
Proof. intros Hn Hu Hb. unfold duration. apply swrap_id; [lia|]. change (64 - 1) with 63. nia. Qed.

Lemma GetConfig_ok st : row_ok (GetConfig st).
Proof.
  unfold GetConfig. destruct (row st) as [bean|]; [apply FillDefaults_row|].
  pose proof (FillDefaults_row DefaultAccessConfig) as Hok. by vm_compute in Hok |- *.
Qed.

Lemma published_center st : Mode.IsCenterMode (published st) = true →
  Mode.CenterHost (published st) = center_host (Mode.CenterOrigin (published st)) ∧
  isCenterHostConfigured (hosts st) (Mode.CenterHost (published st)) = true.
Proof.
  unfold PublishConfig, Mode.IsCenterMode. cbn [snapshot Mode.SetConfig Mode.Get]. unfold compiled. cbn [Mode.CenterOrigin Mode.CenterHost].
  set (h := center_host (CenterOrigin (GetConfig st))).
  destruct (negb (bool_decide (h = [])) && _) eqn:El; [done|]. intros Hm. split; [done|].
  destruct (isCenterHostConfigured (hosts st) h); [done|]. cbn [negb] in El. rewrite andb_true_r in El. by rewrite El, andb_false_r in Hm.
Qed.

(** the gate never runs on a broken configuration.  Whatever row is stored: accepted
    tokens and sessions are cached for at most a minute (so that is how long a
    revocation can take to reach another process), a ticket lives at most five minutes,
    sign-in is limited, the prefix of the gate's own pages is rooted, the cross-origin
    list is valid, and there is a sign-in site only if one of the sites serves it. *)
Theorem PublishConfig_safe st :
  0 < Mode.CachePositiveTTL (published st) ≤ 60 * second ∧
  0 < Mode.TicketTTL (published st) ≤ 300 * second ∧
  0 < Mode.MaxFailCount (published st) ∧
  Mode.CookiePrefix (published st) ≠ [] ∧ Mode.CookieSSOName (published st) = Mode.CookiePrefix (published st) ++ $"_sso" ∧
  has_prefix (Mode.PathPrefix (published st)) $"/" = true ∧
  Forall CORS.valid_origin (CORS.AllowOrigins (Mode.Cors (published st))) ∧
  (Mode.IsCenterMode (published st) = true →
   Mode.CenterHost (published st) = center_host (Mode.CenterOrigin (published st)) ∧
   isCenterHostConfigured (hosts st) (Mode.CenterHost (published st)) = true).
Proof.
  pose proof (GetConfig_ok st) as Hok. pose proof (published_center st) as Hc.
  split; [|split; [|split; [|split; [|split; [|split; [|split; [|exact Hc]]]]]]]; cbn [snapshot Mode.SetConfig Mode.Get PublishConfig];
    unfold compiled; cbn [Mode.CachePositiveTTL Mode.TicketTTL Mode.MaxFailCount Mode.CookiePrefix Mode.CookieSSOName Mode.PathPrefix Mode.Cors CORS.AllowOrigins].
  - pose proof (ro_cache _ Hok) as Hr. unfold AccessDefaultCachePosTTL, AccessStore.AccessDefaultCachePosTTL in Hr.
    rewrite (duration_small _ second 60) by (unfold second; lia). unfold second. lia.
  - pose proof (ro_ticket _ Hok) as Hr. rewrite (duration_small _ second 300) by (unfold second; lia). unfold second. lia.
  - apply Hok.
  - apply Hok.
  - done.
  - apply PathMatch.NormalizePathPrefix_ok.
  - by apply (CORS.BuildAllowOrigins_safe _ [] []).
Qed.

(** ** Saving *)

Variable sha256 : gostr → gostr.
Variable acme_path : gostr.
Variable DataEncrypt : gostr → option gostr.

Lemma checked_ok hs q center prefix cookiePrefix :
  checked acme_path hs q = Ok (center, prefix, cookiePrefix) →
  ∃ h, normalizeCenterOrigin (CenterOrigin q) = Ok (center, h) ∧ h ≠ [] ∧ isCenterHostConfigured hs h = true ∧
    prefix = PathMatch.NormalizePathPrefix (PathPrefix q) ∧ pathPrefixPattern prefix = true ∧
    has_prefix prefix $"/.well-known" = false ∧ has_prefix acme_path prefix = false ∧ cookie_prefix_ok cookiePrefix = true ∧
    cookiePrefix = match to_lower (trim_space (CookiePrefix q)) with [] => $"samwaf_ac" | c => c end.
Proof.
  unfold checked. destruct (normalizeCenterOrigin _) as [[c h]|]; [|done]. case_bool_decide; [done|].
  destruct (isCenterHostConfigured hs h) eqn:Ei; [|done]. cbn [negb].
  destruct (pathPrefixPattern _) eqn:Ep; [|done]. cbn [negb]. destruct (_ || _) eqn:Ea; [done|]. apply orb_false_iff in Ea as [Ea Eb].
  destruct (cookie_prefix_ok _) eqn:Ec; [|done]. cbn [negb]. intros [= <- <- <-]. by exists h.
Qed.

Lemma pattern_normal prefix raw : prefix = PathMatch.NormalizePathPrefix raw → pathPrefixPattern prefix = true → PathMatch.NormalizePathPrefix prefix = prefix.
Proof.
  intros Hn Hp. pose proof (PathMatch.NormalizePathPrefix_ok raw) as [_ Hs]. rewrite <- Hn in Hs. clear Hn.
  destruct prefix as [|c rest]; [done|]. cbn in Hp. prop_of_bool. subst c.
  assert (Hb : forallb (λ c, name_byte c || Ascii.eqb c "/") ("/"%char :: rest) = true) by (cbn; done).
  unfold PathMatch.NormalizePathPrefix. rewrite trim_space_visible.
  2: { rewrite forallb_forall in Hb |- *. intros c Hc. apply name_byte_visible. by apply Hb. }
  rewrite to_lower_fixed.
  2: { intros c Hc%list_elem_of_In. rewrite forallb_forall in Hb. apply name_byte_lower. by apply Hb. }
  assert (has_prefix ("/"%char :: rest) $"/" = true) as -> by (by destruct rest).
  destruct (PathMatch.trim_right_split ("/"%char :: rest) "/") as [[|n] Hn].
  - rewrite app_nil_r in Hn. by rewrite <- Hn.
  - exfalso. apply (Hs (trim_right ("/"%char :: rest) "/" ++ replicate n "/"%char)).
    rewrite Hn at 1. by rewrite <- app_assoc, replicate_S_end.
Qed.

Lemma center_plain q center h : normalizeCenterOrigin (CenterOrigin q) = Ok (center, h) → h ≠ [] → plain_host h →
  normalizeCenterOrigin center = Ok (center, h).
Proof.
  intros Hn Hh Hp. unfold normalizeCenterOrigin in Hn. destruct (trim_space (CenterOrigin q)); [by injection Hn as <- <-|].
  destruct (Parse _) as [u|]; [|done]. destruct (_ && _) eqn:Es; [done|].
  destruct (bool_decide (UHost u = [])); [done|]. destruct (negb (bool_decide (User u = None))); [done|]. injection Hn as <- <-. assert (to_lower (Scheme u) = $"http" ∨ to_lower (Scheme u) = $"https") as [-> | ->].
  { apply andb_false_iff in Es as [Es|Es]; apply negb_false_iff, bool_decide_eq_true in Es; first [by left|by right]. }
  - by apply (normalize_plain false).
  - by apply (normalize_plain true).
Qed.

Lemma with_secret_ok b id s : row_ok b → row_ok (with_secret b id s).
Proof. intros []. by constructor. Qed.

(** A number the administrator asked for, when it is within its bounds. *)
Definition within (lo hi n default : Z) : Z := if (lo <=? n) && (n <=? hi) then n else default.
Definition at_least (lo n default : Z) : Z := if lo <=? n then n else default.
(** The row is what was asked for, field by field; [old] is the row before. *)
Record as_asked (old : AccessConfig) (r : WafAccessConfigSaveReq) (bean : AccessConfig) : Prop := {
  as_prefix : PathPrefix bean = PathMatch.NormalizePathPrefix (PathPrefix (req r));
  as_cookie : CookiePrefix bean = match to_lower (trim_space (CookiePrefix (req r))) with [] => $"samwaf_ac" | c => c end;
  as_session : SessionTTLMinutes bean = at_least 1 (SessionTTLMinutes (req r)) 720;
  as_token : TokenTTLMinutes bean = at_least 1 (TokenTTLMinutes (req r)) 720;
  as_ticket : TicketTTLSeconds bean = within 1 300 (TicketTTLSeconds (req r)) 60;
  as_idle : IdleTimeoutMinutes bean = at_least 0 (IdleTimeoutMinutes (req r)) 0;
  as_ip : BindIP bean = (if BindIP (req r) =? 1 then 1 else 0);
  as_fingerprint : BindFingerprint bean = (if BindFingerprint (req r) =? 1 then 1 else 0);
  as_otp : RequireOtp bean = (if RequireOtp (req r) =? 1 then 1 else 0);
  as_fails : MaxFailCount bean = at_least 1 (MaxFailCount (req r)) 10;
  as_lock : LockMinutes bean = at_least 1 (LockMinutes (req r)) 3;
  as_paths : GlobalExcludePaths bean = GlobalExcludePaths (req r);
  as_group : BypassIPGroupCode bean = trim_space (BypassIPGroupCode (req r));
  as_header : ServiceTokenHeader bean = trim_space (ServiceTokenHeader (req r));
  as_tokens : ServiceTokenHashes bean =
    (if bool_decide (trim_space (ServiceTokens r) = []) then ServiceTokenHashes old
     else if bool_decide (trim_space (ServiceTokens r) = $"-") then []
     else join (map (λ line, Hosts.EncodeToString (sha256 line)) (items (ServiceTokens r))) [chr 10]);
  as_origins : CorsAllowOrigins bean = origin_lines (CorsAllowOrigins (req r));
  as_methods : CorsAllowMethods bean = stripHeaderCtrlChars (CorsAllowMethods (req r));
  as_headers : CorsAllowHeaders bean = stripHeaderCtrlChars (CorsAllowHeaders (req r));
  as_age : CorsMaxAge bean = within 0 7200 (CorsMaxAge (req r)) 0;
  as_action : UnauthAction bean = (if known_action (UnauthAction (req r)) then UnauthAction (req r) else $"auto");
  as_identity : PassIdentityHeader bean = (if PassIdentityHeader (req r) =? 1 then 1 else 0);
  as_secure : ForceSecureCookie bean = (if ForceSecureCookie (req r) =? 1 then 1 else 0);
  as_cached : CachePositiveTTLSec bean = within 1 60 (CachePositiveTTLSec (req r)) 60;
  as_kept : Id old ≠ [] → Id bean = Id old;
  as_secret : trim_space (HmacSecret old) ≠ [] → HmacSecret bean = HmacSecret old }.
(** What the gate runs on says the same as the row. *)
Record runs_on (bean : AccessConfig) (cfg : Mode.Config) : Prop := {
  run_prefix : Mode.PathPrefix cfg = PathPrefix bean;
  run_cookies : Mode.CookiePrefix cfg = CookiePrefix bean ∧ Mode.CookieSSOName cfg = CookiePrefix bean ++ $"_sso";
  run_lives : Mode.SessionTTL cfg = duration (SessionTTLMinutes bean) minute ∧ Mode.TokenTTL cfg = duration (TokenTTLMinutes bean) minute ∧
    Mode.TicketTTL cfg = TicketTTLSeconds bean * second ∧ Mode.IdleTimeout cfg = duration (IdleTimeoutMinutes bean) minute ∧ Mode.CachePositiveTTL cfg = CachePositiveTTLSec bean * second;
  run_bound : (Mode.BindIP cfg = true ↔ BindIP bean = 1) ∧ (Mode.BindFingerprint cfg = true ↔ BindFingerprint bean = 1) ∧ (Mode.RequireOtp cfg = true ↔ RequireOtp bean = 1);
  run_fails : Mode.MaxFailCount cfg = MaxFailCount bean ∧ Mode.LockDuration cfg = duration (LockMinutes bean) minute;
  run_open : Mode.GlobalExcludePaths cfg = PathMatch.BuildExcludePaths (GlobalExcludePaths bean) ∧ Mode.BypassIPGroupCode cfg = BypassIPGroupCode bean ∧
    Mode.ServiceTokenHeader cfg = ServiceTokenHeader bean ∧ Mode.ServiceTokenHashes cfg = splitLines (ServiceTokenHashes bean);
  run_cors : Mode.Cors cfg = CORS.mkPolicy (CORS.BuildAllowOrigins (CorsAllowOrigins bean)) (CORS.SanitizeHeaderValue (CorsAllowMethods bean))
    (CORS.SanitizeHeaderValue (CorsAllowHeaders bean)) (CorsMaxAge bean);
  run_switches : Mode.ForceDisable cfg = force_disable ∧ (Mode.GlobalEnable cfg = true ↔ access_enable = 1) ∧
    Mode.HmacSecret cfg = (if bool_decide (trim_space (HmacSecret bean) = []) then [] else default [] (DataDecrypt (HmacSecret bean)));
  run_flags : Mode.UnauthAction cfg = UnauthAction bean ∧ (Mode.PassIdentityHeader cfg = true ↔ PassIdentityHeader bean = 1) ∧ (Mode.ForceSecureCookie cfg = true ↔ ForceSecureCookie bean = 1) }.

Lemma filled_as_asked old r center prefix cookiePrefix secret hashes uuid :
  prefix = PathMatch.NormalizePathPrefix (PathPrefix (req r)) → prefix ≠ [] →
  cookiePrefix = match to_lower (trim_space (CookiePrefix (req r))) with [] => $"samwaf_ac" | c => c end →
  hashes = match trim_space (ServiceTokens r) with [] => ServiceTokenHashes old | t => if bool_decide (t = $"-") then [] else hashServiceTokens sha256 (ServiceTokens r) end →
  (trim_space (HmacSecret old) ≠ [] → secret = HmacSecret old) →
  let bean := FillDefaults (saved_row old (req r) center prefix cookiePrefix hashes secret) in
  as_asked old r (if bool_decide (Id bean = []) then with_secret bean uuid (HmacSecret bean) else bean).
Proof.
  intros Hp Hne Hck Hh Hs bean. set (b := if bool_decide (Id bean = []) then _ else _).
  assert (Hsame : b = bean ∨ b = with_secret bean uuid (HmacSecret bean)) by (unfold b; destruct (bool_decide _); auto).
  assert (Hc : cookiePrefix ≠ []) by (rewrite Hck; by destruct (to_lower (trim_space (CookiePrefix (req r))))).
  assert (Ht : hashes = if bool_decide (trim_space (ServiceTokens r) = []) then ServiceTokenHashes old else if bool_decide (trim_space (ServiceTokens r) = $"-") then []
     else join (map (λ line, Hosts.EncodeToString (sha256 line)) (items (ServiceTokens r))) [chr 10]).
  { rewrite Hh. unfold hashServiceTokens, splitLines. destruct (trim_space (ServiceTokens r)) as [|c l]; [done|]. by destruct (bool_decide _). }
  split; try (destruct Hsame as [-> | ->]; cbn; rewrite <- ?Hp, <- ?Hck, <- ?Ht; first [done | by destruct prefix | by destruct cookiePrefix]).
  all: try (destruct Hsame as [-> | ->]; unfold within, at_least; cbn [bean FillDefaults saved_row with_secret SessionTTLMinutes TokenTTLMinutes TicketTTLSeconds IdleTimeoutMinutes MaxFailCount LockMinutes CorsMaxAge CachePositiveTTLSec DefaultAccessConfig];
    unfold AccessDefaultSessionTTLMin, AccessDefaultTokenTTLMin, AccessDefaultTicketTTLSec, AccessDefaultMaxFail, AccessDefaultLockMinutes, AccessDefaultCachePosTTL, AccessStore.AccessDefaultCachePosTTL, AccessCorsMaxAgeCap;
    repeat match goal with |- context [?x <=? ?y] => destruct (Z.leb_spec x y) | |- context [?x <? ?y] => destruct (Z.ltb_spec x y) end; cbn; lia).
  intros Hid. unfold b. assert (Ei : Id bean = Id old) by done. rewrite bool_decide_false by (by rewrite Ei). done.
Qed.
Lemma published_runs_on st bean : GetConfig st = bean → row_ok bean → PathMatch.NormalizePathPrefix (PathPrefix bean) = PathPrefix bean → runs_on bean (published st).
Proof.
  intros Hg Hok Hpp. pose proof (ro_cache _ Hok) as Hc. unfold AccessDefaultCachePosTTL, AccessStore.AccessDefaultCachePosTTL in Hc. pose proof (ro_ticket _ Hok) as Ht.
  unfold PublishConfig. rewrite Hg. cbn [snapshot Mode.SetConfig Mode.Get]. unfold compiled.
  split; cbn; rewrite ?Z.eqb_eq; try done.
  split_and!; try done; [by rewrite (duration_small _ second 300) by (unfold second; lia)|by rewrite (duration_small _ second 60) by (unfold second; lia)].
Qed.

(** C37: saving is all or nothing.  A request that fails a check changes nothing at all; one
    that passes stores a well-formed row in which every field is what was asked for -
    numbers out of their bounds replaced by the defaults, the signing secret and, when
    none are given, the service tokens kept - and the gate runs at once on a configuration
    that says the same, with the sign-in site asked for and a prefix that does not overlap
    the certificate challenge path. *)
Theorem SaveApi_effects uuid rand r st :
  match SaveApi sha256 force_disable access_enable acme_path DataEncrypt DataDecrypt uuid rand r st with
  | (st', Err _) => st' = st
  | (st', Ok _) =>
      ∃ bean h, row st' = Some bean ∧ row_ok bean ∧ as_asked (GetConfig st) r bean ∧ hosts st' = hosts st ∧ runs_on bean (Mode.Get (snapshot st')) ∧
      normalizeCenterOrigin (CenterOrigin (req r)) = Ok (CenterOrigin bean, h) ∧
      (plain_host h → Mode.IsCenterMode (Mode.Get (snapshot st')) = true ∧ Mode.CenterHost (Mode.Get (snapshot st')) = h) ∧
      pathPrefixPattern (Mode.PathPrefix (Mode.Get (snapshot st'))) = true ∧
      has_prefix acme_path (Mode.PathPrefix (Mode.Get (snapshot st'))) = false
  end.
Proof.
  unfold SaveApi. destruct (checked _ _ _) as [[[center prefix] cookiePrefix]|e] eqn:Ech; [|done].
  destruct (if bool_decide (trim_space (HmacSecret (GetConfig st)) = []) then _ else _) as [secret|] eqn:Esec; [|done].
  apply checked_ok in Ech as (h & Hn & Hh & Hconf & Hpre & Hpat & _ & Hacme & Hck & Hcp).
  set (hashes := match trim_space (ServiceTokens r) with [] => _ | _ => _ end).
  set (bean0 := FillDefaults (saved_row (GetConfig st) (req r) center prefix cookiePrefix hashes secret)).
  set (bean := if bool_decide (Id bean0 = []) then with_secret bean0 uuid (HmacSecret bean0) else bean0).
  assert (Hok0 : row_ok bean0) by apply FillDefaults_row.
  assert (Hok : row_ok bean) by (unfold bean; destruct (bool_decide (Id bean0 = [])); [by apply with_secret_ok|done]).
  assert (Hce : CenterOrigin bean = center) by (unfold bean; by destruct (bool_decide (Id bean0 = []))).
  assert (Hasked : as_asked (GetConfig st) r bean).
  { apply filled_as_asked; [done|by destruct prefix|done|done|]. intros Ht. rewrite bool_decide_false in Esec by done. congruence. }
  assert (Hpp : PathPrefix bean = prefix) by (rewrite (as_prefix _ _ _ Hasked); done).
  set (st1 := mkState (Some bean) (hosts st) (snapshot st)).
  assert (Hg : GetConfig st1 = bean) by (by apply FillDefaults_fixed).
  assert (Hruns : runs_on bean (published st1)) by (apply published_runs_on; [done|done|]; rewrite Hpp; by eapply pattern_normal).
  exists bean, h. split; [done|]. split; [done|]. split; [done|]. split; [done|]. split; [exact Hruns|]. split; [by rewrite Hce|].
  change (Mode.Get (snapshot (Publish st1))) with (published st1). rewrite (run_prefix _ _ Hruns), Hpp.
  split; [|done]. intros Hp. unfold PublishConfig. cbn [snapshot Mode.SetConfig Mode.Get]. unfold compiled, Mode.IsCenterMode.
  cbn [Mode.CenterHost Mode.CenterOrigin]. rewrite Hg, Hce.
  assert (center_host center = h) as -> by (unfold center_host; by rewrite (center_plain (req r) center h)).
  assert (isCenterHostConfigured (hosts st1) h = true) as -> by done. rewrite andb_false_r. split; [|done].
  rewrite (bool_decide_false (h = [])) by done. rewrite bool_decide_false; [done|]. intros ->.
  pose proof (center_plain (req r) [] h Hn Hh Hp) as Hx. by injection Hx.
Qed.
End published.

(** A lifetime of 300 years is accepted and compiled to a negative duration: every new
    session has already expired. *)
Example huge_ttl_wraps : duration 160000000 minute < 0. Proof. vm_compute. reflexivity. Qed.
(** A prefix with two slashes in a row passes the check. *)
Example double_slash_accepted : pathPrefixPattern $"/login//page" = true. Proof. vm_compute. reflexivity. Qed.

End AccessConf.
