(* ===== verification/AccessAccount.v ===== *)
(** * Visitor accounts (service/waf_service/waf_access_account_service.go,
      utils/passwordutil.go)

    Credentials, the sites an account may enter, the second factor, and the operations of
    the administrator with the revocations they imply.  bcrypt, TOTP, the data cipher,
    the time parser and the Unicode tables are parameters; the paged list and the
    creation of a TOTP secret are not modelled. *)
From S2P Require Import Prelude.
From S2P Require Import GoLib.
From S2P Require Import GoHttp.
From S2P Require Import GoUrl.
From S2P Require Import Lines.
From S2P Require Import WafCache.
From S2P Require Import AccessGate.
From S2P Require Import AccessStore.
From S2P Require Import AccessConf.
From S2P Require Import AccessFacts.
Local Open Scope Z_scope.
Local Open Scope bool_scope.

Module AccessAccount.
Import AccessStore.

(** ** Passwords *)

(** The runes of a string and the classes of package unicode. *)
Class UnicodeTables := {
  runes : gostr → list Z;
  IsUpper : Z → bool; IsLower : Z → bool; IsDigit : Z → bool; IsLetter : Z → bool; IsSpace : Z → bool; IsPunct : Z → bool; IsSymbol : Z → bool
}.

Record PasswordComplexityPolicy := mkPolicy {
  MinLength : Z; RequireUpper : bool; RequireLower : bool; RequireDigit : bool; RequireSpecial : bool
}.

Inductive password_error := TooShort | NoUpper | NoLower | NoDigit | NoSpecial.

Section passwords.
Context `{UnicodeTables}.

Definition isSpecialChar (r : Z) : bool :=
  if IsLetter r || IsDigit r then false else if IsSpace r then false else IsPunct r || IsSymbol r.

(** The four flags of the loop: the first class of a rune counts. *)
Definition class_of (r : Z) : bool * bool * bool * bool :=
  if IsUpper r then (true, false, false, false) else if IsLower r then (false, true, false, false)
  else if IsDigit r then (false, false, true, false) else (false, false, false, isSpecialChar r).

Definition ValidatePasswordComplexity (password : gostr) (policy : PasswordComplexityPolicy) : result password_error unit :=
  let rs := runes password in
  if (0 <? MinLength policy) && (Z.of_nat (length rs) <? MinLength policy) then Err TooShort
  else
    let has p := existsb (λ r, p (class_of r)) rs in
    if RequireUpper policy && negb (has (λ c, c.1.1.1)) then Err NoUpper
    else if RequireLower policy && negb (has (λ c, c.1.1.2)) then Err NoLower
    else if RequireDigit policy && negb (has (λ c, c.1.2)) then Err NoDigit
    else if RequireSpecial policy && negb (has (λ c, c.2)) then Err NoSpecial
    else Ok ().
End passwords.

(** ** The account *)

Definition dummyBcryptHash : gostr := $"$2a$10$N9qo8uLOickgx2ZMRZoMyeIjZAgcfl7p92ldGxad68LJZdL17lhWy".

Definition IsHostAllowed (acct : option Account.AccessAccount) (hostCode : gostr) : bool :=
  match acct with
  | None => false
  | Some acct =>
      match trim_space (Account.AllowHostCodes acct) with
      | [] => true
      | raw => existsb (λ line, bool_decide (trim_space line = hostCode)) (split (replace_all line_ends raw) (chr 10))
      end
  end.

Definition NeedOtp (acct : option Account.AccessAccount) (hostRequireOtp : Z) (globalRequireOtp : bool) : bool :=
  match acct with
  | None => false
  | Some acct =>
      if negb (Account.OtpBound acct =? 1) || bool_decide (Account.OtpSecret acct = []) then false
      else if Account.ForceOtp acct =? Account.AccessOtpForce then true
      else if Account.ForceOtp acct =? Account.AccessOtpExempt then false
      else if hostRequireOtp =? Account.AccessOtpForce then true
      else if hostRequireOtp =? Account.AccessOtpExempt then false
      else globalRequireOtp
  end.

Definition normalizeStatus (s : Z) : Z :=
  if s =? Account.AccessAccountStatusEnable then Account.AccessAccountStatusEnable else Account.AccessAccountStatusDisable.
Definition normalizeOtpMode (m : Z) : Z :=
  if (m =? Account.AccessOtpForce) || (m =? Account.AccessOtpExempt) then m else Account.AccessOtpInherit.

Inductive account_error :=
| BadCredential | Disabled | Expired | NotFound | NoName | NameTaken | WeakPassword (e : password_error) | HashFailed | BadTime | NoId | BadCode | CipherFailed.

Section accounts.
Context `{UnicodeCase} `{UnicodeTables}.
Variable BcryptVerify : gostr → gostr → bool.
Variable BcryptHash : gostr → option gostr.
(** [totp.Validate], of the time, the code and the secret. *)
Variable ValidateOtpCode : Z → gostr → gostr → bool.
Variable DataEncrypt DataDecrypt : gostr → option gostr.
(** [time.ParseInLocation] of the layout, in the server's zone. *)
Variable parse_time : gostr → option Z.

Definition parseAccessTime (s : gostr) : result account_error Z :=
  match trim_space s with
  | [] => Ok zero_time
  | s => match parse_time s with Some t => Ok t | None => Err BadTime end
  end.

Section at_time.
Variable now : Z.

Definition expired (a : Account.AccessAccount) : bool := negb (is_zero (Account.ExpireTime a)) && (Account.ExpireTime a <? now).
Definition by_name (name : gostr) (a : Account.AccessAccount) : bool := bool_decide (Account.AccountName a = name).
Definition by_id (id : gostr) (a : Account.AccessAccount) : bool := bool_decide (Account.Id a = id).
Definition find_account (p : Account.AccessAccount → bool) : M (option Account.AccessAccount) := gets (λ st, List.find p (accounts st)).

(** The checks that follow the lookup. *)
Definition usable (a : Account.AccessAccount) : result account_error Account.AccessAccount :=
  if negb (Account.Status a =? Account.AccessAccountStatusEnable) then Err Disabled
  else if expired a then Err Expired else Ok a.

(** bcrypt runs once whether or not the account exists. *)
Definition VerifyCredential (accountName password : gostr) : M (result account_error Account.AccessAccount) :=
  let name := trim_space accountName in
  row ← (if bool_decide (name = []) then mret None else find_account (by_name name));
  let stored := match row with
                | Some a => if bool_decide (Account.Password a = []) then dummyBcryptHash else Account.Password a
                | None => dummyBcryptHash
                end in
  let ok := BcryptVerify stored password in
  mret (match row with
        | Some a => if ok then usable a else Err BadCredential
        | None => Err BadCredential
        end).

Definition VerifyOtp (acct : option Account.AccessAccount) (code : gostr) : bool :=
  match acct with
  | None => false
  | Some acct =>
      if bool_decide (Account.OtpSecret acct = []) then false
      else
        let secret := AccessConf.decryptAccessSecret DataDecrypt (Account.OtpSecret acct) in
        if bool_decide (secret = []) then false else ValidateOtpCode now (trim_space code) secret
  end.

Definition CheckStillUsable (accountCode : gostr) : M (result account_error Account.AccessAccount) :=
  row ← find_account (by_id accountCode);
  mret (match row with None => Err NotFound | Some a => usable a end).

Definition set_login (clientIP : gostr) (a : Account.AccessAccount) : Account.AccessAccount :=
  Account.mk (Account.Id a) (Account.AccountName a) (Account.Password a) (Account.Status a) (Account.OtpSecret a) (Account.OtpBound a)
    (Account.ForceOtp a) (Account.AllowHostCodes a) (Account.ExpireTime a) now clientIP
    (Account.NickName a) (Account.PwdUpdateTime a) (Account.Remarks a) now.
Definition MarkLogin (accountId clientIP : gostr) : M unit := on_accounts (update_where (by_id accountId) (set_login clientIP)).

(** ** Administration *)

Definition mustLoad (id : gostr) : M (result account_error Account.AccessAccount) :=
  if bool_decide (trim_space id = []) then mret (Err NoId)
  else
    row ← find_account (by_id id);
    mret (match row with None => Err NotFound | Some a => Ok a end).
Definition GetDetailApi := mustLoad.

Definition checkNameFree (name excludeId : gostr) : M bool :=
  n ← gets (λ st, count_if (λ a, by_name name a && (bool_decide (excludeId = []) || negb (by_id excludeId a))) (accounts st));
  mret (n =? 0)%nat.

Record WafAccessAccountAddReq := mkAdd {
  AddName : gostr; AddPassword : gostr; AddNick : gostr; AddStatus : Z; AddForceOtp : Z; AddAllow : gostr; AddExpire : gostr; AddRemarks : gostr
}.
Record WafAccessAccountEditReq := mkEdit {
  EditId : gostr; EditNick : gostr; EditStatus : Z; EditForceOtp : Z; EditAllow : gostr; EditExpire : gostr; EditRemarks : gostr
}.

Definition AddApi (id : gostr) (policy : PasswordComplexityPolicy) (req : WafAccessAccountAddReq) : M (result account_error Account.AccessAccount) :=
  let name := trim_space (AddName req) in
  if bool_decide (name = []) then mret (Err NoName)
  else
    free ← checkNameFree name [];
    if negb free then mret (Err NameTaken)
    else
      match ValidatePasswordComplexity (AddPassword req) policy with
      | Err e => mret (Err (WeakPassword e))
      | Ok _ =>
          match BcryptHash (AddPassword req) with
          | None => mret (Err HashFailed)
          | Some hash =>
              match parseAccessTime (AddExpire req) with
              | Err e => mret (Err e)
              | Ok expire =>
                  let bean := Account.mk id name hash (normalizeStatus (AddStatus req)) [] 0 (normalizeOtpMode (AddForceOtp req))
                                (AddAllow req) expire zero_time [] (trim_space (AddNick req)) now (AddRemarks req) now in
                  on_accounts (λ rows, rows ++ [bean]);; mret (Ok bean)
              end
          end
      end.

Definition edited (req : WafAccessAccountEditReq) (expire : Z) (a : Account.AccessAccount) : Account.AccessAccount :=
  Account.mk (Account.Id a) (Account.AccountName a) (Account.Password a) (normalizeStatus (EditStatus req)) (Account.OtpSecret a) (Account.OtpBound a)
    (normalizeOtpMode (EditForceOtp req)) (EditAllow req) expire (Account.LastLoginTime a) (Account.LastLoginIP a)
    (trim_space (EditNick req)) (Account.PwdUpdateTime a) (EditRemarks req) now.

(** Disabling, an end in the past and any change of the sites cut the account's sessions. *)
Definition ModifyApi (req : WafAccessAccountEditReq) : M (result account_error unit) :=
  loaded ← mustLoad (EditId req);
  match loaded with
  | Err e => mret (Err e)
  | Ok bean =>
      match parseAccessTime (EditExpire req) with
      | Err e => mret (Err e)
      | Ok expire =>
          on_accounts (update_where (by_id (Account.Id bean)) (edited req expire));;
          let authChanged := negb (bool_decide (trim_space (EditAllow req) = trim_space (Account.AllowHostCodes bean))) in
          (if negb (normalizeStatus (EditStatus req) =? Account.AccessAccountStatusEnable)
              || (negb (is_zero expire) && (expire <? now)) || authChanged
           then RevokeByAccount now (Account.Id bean) AccessRevokeByAccount;; mret ()
           else mret ());;
          mret (Ok ())
      end
  end.

Definition set_password (hash : gostr) (a : Account.AccessAccount) : Account.AccessAccount :=
  Account.mk (Account.Id a) (Account.AccountName a) hash (Account.Status a) (Account.OtpSecret a) (Account.OtpBound a)
    (Account.ForceOtp a) (Account.AllowHostCodes a) (Account.ExpireTime a) (Account.LastLoginTime a) (Account.LastLoginIP a)
    (Account.NickName a) now (Account.Remarks a) now.

Definition ResetPwdApi (policy : PasswordComplexityPolicy) (id password : gostr) : M (result account_error unit) :=
  loaded ← mustLoad id;
  match loaded with
  | Err e => mret (Err e)
  | Ok bean =>
      match ValidatePasswordComplexity password policy with
      | Err e => mret (Err (WeakPassword e))
      | Ok _ =>
          match BcryptHash password with
          | None => mret (Err HashFailed)
          | Some hash =>
              on_accounts (update_where (by_id (Account.Id bean)) (set_password hash));;
              RevokeByAccount now (Account.Id bean) AccessRevokeByAccount;; mret (Ok ())
          end
      end
  end.

(** The sessions first, then the row. *)
Definition DelApi (id : gostr) : M (result account_error unit) :=
  loaded ← mustLoad id;
  match loaded with
  | Err e => mret (Err e)
  | Ok bean =>
      RevokeByAccount now (Account.Id bean) AccessRevokeByAccount;;
      on_accounts (List.filter (λ a, negb (by_id (Account.Id bean) a)));; mret (Ok ())
  end.

(** An empty list means every site: the account whose only site goes is disabled. *)
Definition without_host (kept : list gostr) (a : Account.AccessAccount) : Account.AccessAccount :=
  Account.mk (Account.Id a) (Account.AccountName a) (Account.Password a)
    (if bool_decide (kept = []) then Account.AccessAccountStatusDisable else Account.Status a) (Account.OtpSecret a) (Account.OtpBound a)
    (Account.ForceOtp a) (join kept [chr 10]) (Account.ExpireTime a) (Account.LastLoginTime a) (Account.LastLoginIP a)
    (Account.NickName a) (Account.PwdUpdateTime a) (Account.Remarks a) now.

Definition remove_from (code : gostr) (acct : Account.AccessAccount) : M bool :=
  let codes := AccessConf.splitLines (Account.AllowHostCodes acct) in
  let kept := List.filter (λ item, negb (bool_decide (item = code))) codes in
  if negb (existsb (λ item, bool_decide (item = code)) codes) then mret false
  else
    on_accounts (update_where (by_id (Account.Id acct)) (without_host kept));;
    RevokeByAccount now (Account.Id acct) AccessRevokeByAccount;; mret true.

Fixpoint remove_each (code : gostr) (rows : list Account.AccessAccount) (affected : nat) : M nat :=
  match rows with
  | [] => mret affected
  | acct :: rows' => hit ← remove_from code acct; remove_each code rows' (if (hit : bool) then S affected else affected)
  end.

Definition RemoveHostCode (hostCode : gostr) : M nat :=
  let code := trim_space hostCode in
  if bool_decide (code = []) then mret 0%nat
  else
    rows ← gets (λ st, List.filter (λ a, negb (bool_decide (Account.AllowHostCodes a = []))) (accounts st));
    remove_each code rows 0.

Definition set_otp (secret : gostr) (bound : Z) (a : Account.AccessAccount) : Account.AccessAccount :=
  Account.mk (Account.Id a) (Account.AccountName a) (Account.Password a) (Account.Status a) secret bound
    (Account.ForceOtp a) (Account.AllowHostCodes a) (Account.ExpireTime a) (Account.LastLoginTime a) (Account.LastLoginIP a)
    (Account.NickName a) (Account.PwdUpdateTime a) (Account.Remarks a) now.

Definition OtpBindApi (id secret code : gostr) : M (result account_error unit) :=
  loaded ← mustLoad id;
  match loaded with
  | Err e => mret (Err e)
  | Ok bean =>
      if negb (ValidateOtpCode now (trim_space code) secret) then mret (Err BadCode)
      else
        match AccessConf.encryptAccessSecret DataEncrypt secret with
        | None => mret (Err CipherFailed)
        | Some enc => on_accounts (update_where (by_id (Account.Id bean)) (set_otp enc 1));; mret (Ok ())
        end
  end.

Definition OtpUnbindApi (id : gostr) : M (result account_error unit) :=
  loaded ← mustLoad id;
  match loaded with
  | Err e => mret (Err e)
  | Ok bean => on_accounts (update_where (by_id (Account.Id bean)) (set_otp [] 0));; mret (Ok ())
  end.

End at_time.
End accounts.

End AccessAccount.
