(* ===== verification/AccessAcctFacts.v ===== *)
(** * Facts about visitor accounts

    Deleting a site never widens what an account may enter, and the operations of the
    administrator that take rights away cut the sessions of the account. *)
From S2P Require Import Prelude.
From S2P Require Import GoLib.
From S2P Require Import GoHttp.
From S2P Require Import Lines.
From S2P Require Import WafCache.
From S2P Require Import AccessGate.
From S2P Require Import AccessStore.
From S2P Require Import AccessConf.
From S2P Require Import AccessFacts.
From S2P Require Import AccessAccount.
Local Open Scope Z_scope.
Local Open Scope bool_scope.

Module AcctFacts.
Import Mode AccessStore AccessFacts AccessAccount.

(** ** The accounts are left alone by the session service *)

Section untouched.
Context (Q : list Account.AccessAccount → Prop).
Abbreviation K := (λ st, Q (accounts st)).
Lemma on_cache_accounts {A} f : keeps K (@on_cache A f).
Proof. intros st Hq. unfold on_cache. by destruct (f (cache st)). Qed.
Lemma on_sessions_accounts f : keeps K (on_sessions f).
Proof. by intros st. Qed.
Lemma on_tokens_accounts f : keeps K (on_tokens f).
Proof. by intros st. Qed.
Lemma audit_accounts e : keeps K (write_audit e).
Proof. by intros st. Qed.

Lemma revoke_session_accounts now code reason : keeps K (RevokeSession now code reason).
Proof.
  unfold RevokeSession. destruct (bool_decide _); [apply kp_ret|]. apply kp_bind.
  - unfold revokeSessionRows. apply kp_bind; [apply kp_gets|]. intros toks. apply kp_bind; [apply on_sessions_accounts|]. intros _.
    apply kp_bind; [apply on_tokens_accounts|]. intros _. apply kp_ret.
  - intros codes. apply kp_bind; [|intros; apply kp_ret]. unfold kickCache. apply kp_bind.
    + destruct (bool_decide _); [apply kp_ret|apply on_cache_accounts].
    + intros _. apply keeps_for_each. intros c. apply kp_bind; [apply on_cache_accounts|]. intros _. apply on_cache_accounts.
Qed.

Lemma revoke_account_accounts now code reason : keeps K (RevokeByAccount now code reason).
Proof.
  unfold RevokeByAccount. destruct (bool_decide _); [apply kp_ret|]. apply kp_bind; [apply kp_gets|]. intros rows.
  apply kp_bind; [|intros; apply kp_ret]. apply keeps_for_each. intros s. apply kp_bind; [apply revoke_session_accounts|intros; apply kp_ret].
Qed.
End untouched.

Lemma revoke_account_same now code reason st : accounts (RevokeByAccount now code reason st).1 = accounts st.
Proof. by apply (revoke_account_accounts (λ l, l = accounts st)). Qed.

(** ** Which sites an account may enter *)

Lemma existsb_trimmed l h : h ≠ [] → existsb (λ line, bool_decide (trim_space line = h)) l = true ↔ h ∈ omap trimmed l.
Proof.
  intros Hh. rewrite existsb_elem_of, list_elem_of_omap. split; intros (line & Hin & E); exists line; (split; [done|]).
  - apply bool_decide_eq_true in E. unfold trimmed. rewrite E. by destruct h.
  - apply bool_decide_eq_true. unfold trimmed in E. destruct (trim_space line); [done|]. by injection E.
Qed.

Lemma IsHostAllowed_spec a h : h ≠ [] →
  IsHostAllowed (Some a) h = true ↔ trim_space (Account.AllowHostCodes a) = [] ∨ h ∈ items (Account.AllowHostCodes a).
Proof.
  intros Hh. unfold IsHostAllowed. destruct (trim_space (Account.AllowHostCodes a)) as [|c t] eqn:E; [naive_solver|].
  rewrite existsb_trimmed by done. change (omap trimmed (split (replace_all line_ends (c :: t)) (chr 10))) with (items (c :: t)).
  rewrite <- E, items_trim. split; [by intros; right|]. by intros [E0|]; [rewrite E0 in E|].
Qed.

Lemma splitLines_items raw : AccessConf.splitLines raw = items raw.
Proof. unfold AccessConf.splitLines. destruct (trim_space raw) eqn:E; [by rewrite items_blank|done]. Qed.

(** ** Deleting a site *)

Lemma unique_ids (l : list Account.AccessAccount) a b : NoDup (map Account.Id l) → a ∈ l → b ∈ l → Account.Id b = Account.Id a → b = a.
Proof.
  induction l as [|c l IH]; [set_solver|]. cbn. intros [Hout Hl]%NoDup_cons Ha Hb E.
  apply elem_of_cons in Ha as [->|Ha], Hb as [->|Hb]; [done|..|by apply IH].
  - exfalso. apply Hout. rewrite <- E. by apply list_elem_of_fmap_2.
  - exfalso. apply Hout. rewrite E. by apply list_elem_of_fmap_2.
Qed.

Section removal.
Variable now : Z.
Variable code : gostr.

Definition kept_codes (a : Account.AccessAccount) : list gostr :=
  List.filter (λ item, negb (bool_decide (item = code))) (items (Account.AllowHostCodes a)).
Definition lists_code (a : Account.AccessAccount) : bool := existsb (λ item, bool_decide (item = code)) (items (Account.AllowHostCodes a)).
(** What becomes of one account. *)
Definition after_removal (a : Account.AccessAccount) : Account.AccessAccount :=
  if lists_code a then without_host now (kept_codes a) a else a.

Lemma after_removal_id a : Account.Id (after_removal a) = Account.Id a.
Proof. unfold after_removal. by destruct (lists_code a). Qed.

Lemma remove_from_accounts acct st :
  accounts (remove_from now code acct st).1 =
  if lists_code acct then update_where (by_id (Account.Id acct)) (without_host now (kept_codes acct)) (accounts st) else accounts st.
Proof.
  unfold remove_from. rewrite splitLines_items. fold (lists_code acct) (kept_codes acct). destruct (lists_code acct); [|done]. cbn [negb].
  unfold mbind, M_bind. destruct (on_accounts _ st) as [st1 u] eqn:E. unfold on_accounts, modify in E. injection E as <- <-.
  match goal with |- context [RevokeByAccount now ?i ?r ?s] => pose proof (revoke_account_same now i r s) as Hsame; destruct (RevokeByAccount now i r s) end.
  cbn in *. done.
Qed.

Lemma remove_each_accounts rows n st :
  NoDup (map Account.Id rows) →
  (∀ acct a, acct ∈ rows → a ∈ accounts st → Account.Id a = Account.Id acct → a = acct) →
  accounts (remove_each now code rows n st).1 =
  map (λ a, if bool_decide (Account.Id a ∈ map Account.Id rows) then after_removal a else a) (accounts st).
Proof.
  revert n st. induction rows as [|acct rows IH]; intros n st Hnd Hsame; cbn [remove_each].
  - cbn. symmetry. rewrite <- (map_id (accounts st)) at 2. apply map_ext. intros a. rewrite bool_decide_false; [done|]. set_solver.
  - unfold mbind, M_bind. pose proof (remove_from_accounts acct st) as Hst. destruct (remove_from now code acct st) as [st1 hit]. cbn [fst] in Hst.
    cbn [map] in Hnd. apply NoDup_cons in Hnd as [Hout Hnd].
    assert (Hst' : accounts st1 = map (λ a, if bool_decide (Account.Id a = Account.Id acct) then after_removal a else a) (accounts st)).
    { rewrite Hst. unfold after_removal, update_where, by_id. destruct (lists_code acct) eqn:El.
      - apply map_ext_in. intros a Ha%list_elem_of_In. case_bool_decide as E; [|done]. assert (a = acct) as -> by (apply Hsame; set_solver). by rewrite El.
      - symmetry. rewrite <- (map_id (accounts st)) at 2. apply map_ext_in. intros a Ha%list_elem_of_In. case_bool_decide as E; [|done].
        assert (a = acct) as -> by (apply Hsame; set_solver). by rewrite El. }
    rewrite IH; [..|done|].
    + rewrite Hst', map_map. apply map_ext. intros a. destruct (decide (Account.Id a = Account.Id acct)) as [E|E].
      * rewrite (bool_decide_true (Account.Id a = Account.Id acct)) by done. rewrite after_removal_id, E.
        rewrite bool_decide_false by done. by rewrite bool_decide_true by (cbn; set_solver).
      * rewrite (bool_decide_false (Account.Id a = Account.Id acct)) by done. rewrite (bool_decide_ext (Account.Id a ∈ map Account.Id rows) (Account.Id a ∈ map Account.Id (acct :: rows))); [done|]. cbn. set_solver.
    + intros b a Hb Ha E. rewrite Hst' in Ha. apply list_elem_of_fmap in Ha as (a0 & -> & Ha0).
      case_bool_decide as E0.
      * exfalso. apply Hout. rewrite after_removal_id in E. rewrite <- E0, E. apply list_elem_of_fmap. eauto.
      * apply Hsame; [set_solver|done..].
Qed.

(** deleting a site never widens a right.  Whatever the lists of sites say, after the
    site is removed from them every account is still there, may enter no site it could not
    enter before (an account whose list has run empty - which would mean every site - has
    been disabled), and no enabled account that named its sites may enter the deleted one. *)
Theorem RemoveHostCode_never_widens st hostCode :
  NoDup (map Account.Id (accounts st)) → code = trim_space hostCode → code ≠ [] →
  let st' := (RemoveHostCode now hostCode st).1 in
  map Account.Id (accounts st') = map Account.Id (accounts st) ∧
  ∀ a', a' ∈ accounts st' → ∃ a, a ∈ accounts st ∧ Account.Id a' = Account.Id a ∧
    (Account.Status a' = Account.AccessAccountStatusEnable →
     Account.Status a = Account.AccessAccountStatusEnable ∧
     (∀ h, h ≠ [] → IsHostAllowed (Some a') h = true → IsHostAllowed (Some a) h = true) ∧
     (trim_space (Account.AllowHostCodes a) ≠ [] → IsHostAllowed (Some a') code = false)).
Proof.
  intros Hnd Hcode Hne st'. assert (Hacc : accounts st' = map after_removal (accounts st)).
  { unfold st', RemoveHostCode. rewrite <- Hcode, bool_decide_false by done. unfold mbind, M_bind, gets. rewrite remove_each_accounts.
    - apply map_ext_in. intros a Ha%list_elem_of_In. destruct (decide (Account.AllowHostCodes a = [])) as [E|E].
      + assert (after_removal a = a) as Hr by (unfold after_removal, lists_code; by rewrite E). rewrite Hr. by case_bool_decide.
      + rewrite bool_decide_true; [done|]. apply list_elem_of_fmap. exists a. split; [done|]. apply list_elem_of_In, filter_In.
        split; [by apply list_elem_of_In|]. by rewrite bool_decide_false.
    - revert Hnd. generalize (accounts st). induction l as [|a l IH]; [done|]. cbn. intros [Hout Hl]%NoDup_cons.
      destruct (negb _); [|by apply IH]. cbn. apply NoDup_cons. split; [|by apply IH]. intros (b & Hb & Hin)%list_elem_of_fmap.
      apply Hout. rewrite Hb. apply list_elem_of_fmap. exists b. split; [done|]. apply list_elem_of_In, filter_In in Hin as [Hin _]. by apply list_elem_of_In.
    - intros acct a Hacct Ha E. apply list_elem_of_In, filter_In in Hacct as [Hacct _]. apply list_elem_of_In in Hacct.
      apply (unique_ids (accounts st)); done. }
  split; [rewrite Hacc, map_map; apply map_ext; intros; apply after_removal_id|].
  intros a' Ha'. rewrite Hacc in Ha'. apply list_elem_of_fmap in Ha' as (a & -> & Ha). exists a. split; [done|]. split; [apply after_removal_id|].
  unfold after_removal. destruct (lists_code a) eqn:El.
  - cbn [without_host Account.Status]. case_bool_decide as Ek; [done|]. intros Hst. split; [done|].
    assert (Hitems : items (Account.AllowHostCodes (without_host now (kept_codes a) a)) = kept_codes a).
    { cbn. apply items_join. unfold kept_codes. rewrite Forall_forall. intros x Hx%list_elem_of_In%filter_In. destruct Hx as [Hx _].
      pose proof (items_ok (Account.AllowHostCodes a)) as Hok. rewrite Forall_forall in Hok. apply Hok. by apply list_elem_of_In. }
    assert (Hblank : trim_space (Account.AllowHostCodes (without_host now (kept_codes a) a)) ≠ []).
    { intros Hb. apply items_blank in Hb. congruence. }
    assert (Hin : ∀ h, h ∈ kept_codes a ↔ h ∈ items (Account.AllowHostCodes a) ∧ h ≠ code).
    { intros h. unfold kept_codes. rewrite !list_elem_of_In, filter_In, negb_true_iff, bool_decide_eq_false. done. }
    split.
    + intros h Hh. rewrite !IsHostAllowed_spec, Hitems, Hin by done. naive_solver.
    + intros _. apply not_true_iff_false. rewrite IsHostAllowed_spec, Hitems, Hin by done. naive_solver.
  - intros Hst. split; [done|]. split; [done|]. intros Hr. apply not_true_iff_false. rewrite IsHostAllowed_spec by done.
    intros [?|Hin]; [done|]. assert (lists_code a = true); [|congruence]. apply existsb_elem_of. exists code. split; [done|]. by apply bool_decide_eq_true.
Qed.
End removal.

(** ** Cutting the sessions of an account *)

Section cut.
Context `{UnicodeCase} `{UnicodeTables}.
Variable sha256 : gostr → gostr.
Variable lookupLocation : gostr → gostr * gostr.
Variable zone : Z.
Variable P : Z.
Hypothesis P_day : P ≤ 24 * hour.
Variable BcryptHash : gostr → option gostr.
Variable parse_time : gostr → option Z.

Abbreviation Inv := (Inv P).

Lemma revoke_each_learns R now reason rows st :
  Forall (λ s, Session.SessionCode s ≠ []) rows → Inv R now st →
  Inv (λ c, R c ∨ ∃ s, s ∈ rows ∧ Session.SessionCode s = c) now (revoke_each now reason rows st).1.
Proof.
  intros Hne. revert R st. induction Hne as [|s rows Hs _ IH]; intros R st HI.
  - eapply Inv_fewer; [|exact HI]. intros c [?|(s & Hin & _)]; [done|set_solver].
  - cbn [revoke_each for_each]. unfold mbind, M_bind.
    pose proof (RevokeSession_learns sha256 lookupLocation P P_day R now (Session.SessionCode s) reason st Hs HI) as HI1.
    destruct (RevokeSession now (Session.SessionCode s) reason st) as [st1 r]. cbn [fst mret M_ret] in *. unfold mret, M_ret.
    eapply Inv_fewer; [|apply (IH _ st1 HI1)]. intros c [?|(s' & Hin & <-)]; [by left; left|].
    apply elem_of_cons in Hin as [->|Hin]; [by left; right|]. right. eauto.
Qed.

(** The sessions of an account that can still be used. *)
Definition open_session (acct code : gostr) (st : store) : Prop :=
  ∃ s, s ∈ sessions st ∧ Session.AccountCode s = acct ∧ Session.Status s = AccessStatusValid ∧ Session.SessionCode s = code.

Lemma RevokeByAccount_learns now acct reason st :
  acct ≠ [] → (∀ s, s ∈ sessions st → Session.SessionCode s ≠ []) → Inv nothing now st →
  Inv (λ c, open_session acct c st) now (RevokeByAccount now acct reason st).1.
Proof.
  intros Ha Hs HI. unfold RevokeByAccount. rewrite bool_decide_eq_false_2 by done. unfold mbind, M_bind, gets.
  set (rows := List.filter _ (sessions st)).
  assert (Hrows : ∀ s, s ∈ rows ↔ s ∈ sessions st ∧ Session.AccountCode s = acct ∧ Session.Status s = AccessStatusValid).
  { intros s. unfold rows. rewrite !list_elem_of_In, filter_In, andb_true_iff, bool_decide_eq_true, Z.eqb_eq. done. }
  pose proof (revoke_each_learns nothing now reason rows st) as HL. destruct (revoke_each now reason rows st) as [st1 u]. cbn in *.
  eapply Inv_fewer; [|apply HL; [|done]].
  - intros c (s & Hin & E1 & E2 & <-). right. exists s. by rewrite Hrows.
  - apply Forall_forall. intros s [Hin _]%Hrows. by apply Hs.
Qed.

(** What the administrator can do to take rights away. *)
Inductive cut :=
| CutDelete (id : gostr)
| CutPassword (policy : PasswordComplexityPolicy) (id password : gostr)
| CutEdit (req : WafAccessAccountEditReq).
Definition cut_id (c : cut) : gostr := match c with CutDelete id | CutPassword _ id _ => id | CutEdit req => EditId req end.
Definition exec_cut (now : Z) (c : cut) : M (result account_error unit) :=
  match c with
  | CutDelete id => DelApi now id
  | CutPassword policy id password => ResetPwdApi BcryptHash now policy id password
  | CutEdit req => ModifyApi parse_time now req
  end.
(** The edit disables the account, gives it an end that is over, or changes its sites. *)
Definition takes_away (now : Z) (c : cut) (st : store) : Prop :=
  match c with
  | CutEdit req => normalizeStatus (EditStatus req) ≠ Account.AccessAccountStatusEnable ∨
      (∃ expire, parseAccessTime parse_time (EditExpire req) = Ok expire ∧ is_zero expire = false ∧ expire < now) ∨
      ∃ a, List.find (by_id (EditId req)) (accounts st) = Some a ∧ trim_space (EditAllow req) ≠ trim_space (Account.AllowHostCodes a)
  | _ => True
  end.

Lemma mustLoad_ok id st a st1 : mustLoad id st = (st1, Ok a) → st1 = st ∧ id ≠ [] ∧ Account.Id a = id ∧ List.find (by_id id) (accounts st) = Some a.
Proof.
  unfold mustLoad. case_bool_decide as Ht; [done|]. unfold mbind, M_bind, find_account, gets. destruct (List.find _ _) as [b|] eqn:E; [|done].
  intros [= <- <-]. split; [done|]. split; [by intros ->|]. split; [|done]. apply find_some in E as [_ E]. by apply bool_decide_eq_true in E.
Qed.

Lemma on_accounts_sessions f st : sessions (on_accounts f st).1 = sessions st.
Proof. done. Qed.

Lemma cut_learns now c st st1 :
  exec_cut now c st = (st1, Ok ()) → takes_away now c st → (∀ s, s ∈ sessions st → Session.SessionCode s ≠ []) → Inv nothing now st →
  Inv (λ code, open_session (cut_id c) code st) now st1.
Proof.
  intros Hc Ht Hs HI. destruct c as [id|policy id password|req]; cbn [exec_cut cut_id] in *.
  - unfold DelApi, mbind, M_bind in Hc. destruct (mustLoad id st) as [st0 [a|]] eqn:El; [|done]. apply mustLoad_ok in El as (-> & Hid & Ha & _).
    rewrite Ha in Hc. pose proof (RevokeByAccount_learns now id AccessRevokeByAccount st Hid Hs HI) as HL.
    destruct (RevokeByAccount now id AccessRevokeByAccount st) as [st2 n]. injection Hc as <-.
    exact (on_accounts_keeps P _ now _ st2 HL).
  - unfold ResetPwdApi, mbind, M_bind in Hc. destruct (mustLoad id st) as [st0 [a|]] eqn:El; [|done]. apply mustLoad_ok in El as (-> & Hid & Ha & _).
    destruct (ValidatePasswordComplexity password policy); [|done]. destruct (BcryptHash password) as [hash|]; [|done]. rewrite Ha in Hc.
    destruct (on_accounts (update_where (by_id id) (set_password now hash)) st) as [st2 u] eqn:Eo.
    assert (HI2 : Inv nothing now st2) by (apply (f_equal fst) in Eo; cbn [fst] in Eo; rewrite <- Eo; by apply (on_accounts_keeps P)).
    assert (Hs2 : sessions st2 = sessions st) by (by injection Eo as <- <-).
    pose proof (RevokeByAccount_learns now id AccessRevokeByAccount st2 Hid ltac:(by rewrite Hs2) HI2) as HL.
    destruct (RevokeByAccount now id AccessRevokeByAccount st2) as [st3 n]. injection Hc as <-.
    eapply Inv_fewer; [|exact HL]. unfold open_session. by rewrite Hs2.
  - unfold ModifyApi, mbind, M_bind in Hc. destruct (mustLoad (EditId req) st) as [st0 [a|]] eqn:El; [|done]. apply mustLoad_ok in El as (-> & Hid & Ha & Hf).
    destruct (parseAccessTime parse_time (EditExpire req)) as [expire|] eqn:Ep; [|done]. rewrite Ha in Hc.
    destruct (on_accounts (update_where (by_id (EditId req)) (edited now req expire)) st) as [st2 u] eqn:Eo.
    assert (HI2 : Inv nothing now st2) by (apply (f_equal fst) in Eo; cbn [fst] in Eo; rewrite <- Eo; by apply (on_accounts_keeps P)).
    assert (Hs2 : sessions st2 = sessions st) by (by injection Eo as <- <-).
    assert (Hcond : negb (normalizeStatus (EditStatus req) =? Account.AccessAccountStatusEnable) || (negb (is_zero expire) && (expire <? now))
      || negb (bool_decide (trim_space (EditAllow req) = trim_space (Account.AllowHostCodes a))) = true).
    { cbn in Ht. destruct Ht as [Hn|[(e & He & Hz & Hlt)|(a' & Hf' & Hne)]].
      - by apply Z.eqb_neq in Hn as ->.
      - assert (e = expire) as -> by congruence. rewrite Hz, (proj2 (Z.ltb_lt _ _)) by done. by rewrite orb_true_r.
      - assert (a' = a) as -> by congruence. by rewrite (bool_decide_false _ Hne), !orb_true_r. }
    rewrite Hcond in Hc.
    pose proof (RevokeByAccount_learns now (EditId req) AccessRevokeByAccount st2 Hid ltac:(by rewrite Hs2) HI2) as HL.
    destruct (RevokeByAccount now (EditId req) AccessRevokeByAccount st2) as [st3 n]. injection Hc as <-.
    eapply Inv_fewer; [|exact HL]. unfold open_session. by rewrite Hs2.
Qed.

(** C34: taking a right away takes effect.  When an account is deleted, gets a new password,
    is disabled or given an end in the past, or has its list of sites changed, the
    sessions it had open are over:
    whatever operations follow (no new session getting an old code), no cookie is
    accepted as a token of one of them, nor as one of the sessions. *)
Theorem account_cut_off now st t c st1 code u st' v plain host hostCode clientIP fingerprint cfg :
  reachable sha256 lookupLocation zone P now st → now ≤ t → (∀ s, s ∈ sessions st → Session.SessionCode s ≠ []) →
  exec_cut t c st = (st1, Ok ()) → takes_away t c st → open_session (cut_id c) code st →
  reach sha256 lookupLocation zone P (λ c', c' = code) nothing t st1 u st' → u ≤ v → CachePositiveTTL cfg ≤ P →
  (∀ s, (ValidateToken sha256 zone v plain host hostCode clientIP fingerprint cfg st').2 = Some s → State.SessionCode s ≠ code) ∧
  (∀ sess, (ValidateSSOSession sha256 zone v plain host clientIP fingerprint cfg st').2 = Some sess → Session.SessionCode sess ≠ code).
Proof.
  intros Hr Ht Hs Hc Htake Hopen Hafter Hv HP.
  assert (HI : Inv (λ c', c' = code) v st').
  { eapply Inv_later; [done|]. eapply Inv_reach; [done|done|].
    eapply Inv_fewer; [|eapply (cut_learns t c st st1); try done; eapply Inv_later; [done|]; by eapply Inv_reachable].
    by intros c' ->. }
  split.
  - intros s Es. destruct (ValidateToken_spec sha256 lookupLocation zone P _ v plain host hostCode clientIP fingerprint cfg st' HP HI) as [_ Ha].
    destruct (Ha s Es) as (row & []). done.
  - intros sess Es. destruct (ValidateSSOSession_spec sha256 lookupLocation zone P _ v plain host clientIP fingerprint cfg st' HI) as [_ Ha].
    destruct (Ha sess Es) as [E HR]. by rewrite E.
Qed.
End cut.

(** ** Witnesses *)

Section witnesses.
Local Instance plain_case' : UnicodeCase := {| unicode_to_lower s := s |}.
Local Instance ascii_tables : UnicodeTables := {|
  runes s := map code s; IsUpper r := (65 <=? r) && (r <=? 90); IsLower r := (97 <=? r) && (r <=? 122); IsDigit r := (48 <=? r) && (r <=? 57);
  IsLetter r := false; IsSpace r := r =? 32; IsPunct r := false; IsSymbol r := false |}.

Definition listed (id allow : gostr) : Account.AccessAccount := Account.mk id id [] 1 [] 0 0 allow zero_time zero_time [] [] zero_time [] 0.
Definition two_accounts : store := mkStore [] [] [] [listed $"a1" ($"H1, H2" ++ [chr 10] ++ $" H3"); listed $"a2" $" H2 "] ∅ [].

Lemma RemoveHostCode_never_widens_witness :
  IsHostAllowed (Some (listed $"a1" ($"H1" ++ [chr 10] ++ $"H3"))) $"H2" = false ∧
  map Account.Status (accounts (RemoveHostCode 5 $" H2" two_accounts).1) = [1; 0] ∧
  map Account.Id (accounts (RemoveHostCode 5 $" H2" two_accounts).1) = map Account.Id (accounts two_accounts).
Proof.
  split; [vm_compute; reflexivity|]. split; [vm_compute; reflexivity|].
  apply (RemoveHostCode_never_widens 5 $"H2" two_accounts $" H2"); [|vm_compute; reflexivity|discriminate].
  apply (bool_decide_unpack _). vm_compute. exact I.
Defined.

Definition opened : store := with_token.
(** The account is deleted; or its end is set to yesterday. *)
Definition expiring : WafAccessAccountEditReq := mkEdit $"a1" [] 1 0 [] $"yesterday" [].
Definition parse_day (s : gostr) : option Z := if bool_decide (s = $"yesterday") then Some (-1) else None.
Lemma account_cut_off_witness :
  match (ValidateToken (λ s, s) 28800 minute $"54" $"oa.x" $"site" $"1.2.3.4" $"f" demo_cfg (exec_cut (λ s, Some s) parse_day second (CutDelete $"a1") opened).1).2 with
  | Some s => State.SessionCode s ≠ HashAccessCode (λ s, s) $"53"
  | None => True
  end ∧
  match (ValidateToken (λ s, s) 28800 minute $"54" $"oa.x" $"site" $"1.2.3.4" $"f" demo_cfg (exec_cut (λ s, Some s) parse_day second (CutEdit expiring) opened).1).2 with
  | Some s => State.SessionCode s ≠ HashAccessCode (λ s, s) $"53"
  | None => True
  end ∧ is_Some (ValidateToken (λ s, s) 28800 second $"54" $"oa.x" $"site" $"1.2.3.4" $"f" demo_cfg opened).2.
Proof.
  assert (Hs : ∀ s, s ∈ sessions opened → Session.SessionCode s ≠ []) by (apply Forall_forall; vm_compute; repeat constructor; discriminate).
  assert (Ho : open_session $"a1" (HashAccessCode (λ s, s) $"53") opened) by (exists demo_session; split; [by left|done]).
  split; [|split; [|vm_compute; by eexists]].
  - pose proof (account_cut_off (λ s, s) no_place 28800 (60 * second) demo_day (λ s, Some s) parse_day 0 opened second (CutDelete $"a1")
      _ (HashAccessCode (λ s, s) $"53") second _ minute $"54" $"oa.x" $"site" $"1.2.3.4" $"f" demo_cfg demo_reachable ltac:(discriminate)
      Hs eq_refl I Ho (reach_refl _ _ _ _ _ _ _ _) ltac:(discriminate) ltac:(discriminate)) as [Hno _].
    destruct (ValidateToken _ _ _ _ _ _ _ _ _ _).2 as [s|]; [by apply Hno|done].
  - pose proof (account_cut_off (λ s, s) no_place 28800 (60 * second) demo_day (λ s, Some s) parse_day 0 opened second (CutEdit expiring)
      _ (HashAccessCode (λ s, s) $"53") second _ minute $"54" $"oa.x" $"site" $"1.2.3.4" $"f" demo_cfg demo_reachable ltac:(discriminate)
      Hs ltac:(vm_compute; reflexivity) ltac:(right; left; exists (-1); split; [vm_compute; reflexivity|by split]) Ho (reach_refl _ _ _ _ _ _ _ _) ltac:(discriminate) ltac:(discriminate)) as [Hno _].
    destruct (ValidateToken _ _ _ _ _ _ _ _ _ _).2 as [s|]; [by apply Hno|done].
Defined.
End witnesses.

End AcctFacts.
