(* ===== verification/AccessLogin.v ===== *)
(** * Signing in to the access gate (wafenginecore/access_login.go; the cookies of
      access_ticket.go; utils/fingerprint.go)

    The handlers of the gate's own pages that sign a visitor in and out: the failure
    counters and locks, the password step, the one-time code step, the new session, and
    what the visitor is told.  They run in the state monad of [AccessStore].  Hashes,
    bcrypt, TOTP, the cipher, the IP database, the zone and the JSON decoders are those of
    the class [Outside]; the clock, the routing table, random values and the decoded
    bodies are arguments.  A response is what is written to the client; the texts of the
    messages and the fields of the access log are not modelled. *)
From S2P Require Import Prelude.
From S2P Require Import GoLib.
From S2P Require Import GoHttp.
From S2P Require Import GoUrl.
From S2P Require Import WafCache.
From S2P Require Import AccessGate.
From S2P Require Import AccessStore.
From S2P Require Import AuthReq.
From S2P Require Import HostListen.
From S2P Require Import Routing.
From S2P Require Import AccessConf.
From S2P Require Import AccessAccount.
Local Open Scope Z_scope.
Local Open Scope bool_scope.

Module Login.
Import Mode AccessStore AccessAccount.

(** ** Outside code *)

Class Outside := {
  sha256 : gostr → gostr; md5 : gostr → gostr; hmac : gostr → gostr → gostr;
  BcryptVerify : gostr → gostr → bool; ValidateOtpCode : Z → gostr → gostr → bool;
  DataDecrypt : gostr → option gostr; lookupLocation : gostr → gostr * gostr; zone : Z;
  decode_access : gostr → option AccessConf.HostAccessConfig   (* json.Unmarshal *)
}.

(** ** Requests and responses *)

Record accessLoginReq := mkLoginReq { Username : gostr; Password : gostr; LoginRq : gostr }.
Record accessOtpReq := mkOtpReq { Stage : gostr; OtpCode : gostr }.

(** A request, its parsed URL, and its body as the two JSON decoders read it (at most 8
    and 4 KB); [None] is a decoding error. *)
Record incoming := mkIn { req : request; url : URL; login_body : option accessLoginReq; otp_body : option accessOtpReq }.
Definition header (r : incoming) (key : gostr) : gostr := header_get (req r) key.
Definition UserAgent (r : incoming) : gostr := header r $"User-Agent".
Definition query (r : incoming) (key : gostr) : gostr := query_get (req r) key.
Definition Cookie (r : incoming) (name : gostr) : option gostr := GoUrl.Cookie (header_values (req r) $"Cookie") name.

(** The site a request was routed to: the fields of [hostTarget.Host] the gate reads. *)
Record target := mkTarget { t_Code : gostr; t_AutoJumpHTTPS : Z; t_AccessJSON : gostr }.

(** A cookie of the response; all have the path "/", HttpOnly and SameSite=Lax. *)
Record http_cookie := mkCookie { c_Name : gostr; c_Value : gostr; c_MaxAge : Z; c_Secure : bool }.

Inductive message :=
| BadBody | TooManyFailures | BadLogin (e : account_error) (remain : Z) | NeedCode (stage : gostr)
| StageExpired | StageMoved | TooManyCodes | WrongCode | Unusable (e : account_error) | Unavailable
| SignedIn (redirect : gostr) | SignedOut | Anonymous | Authenticated (account : gostr) (expire_in : Z)
| NotAllowed | LoginRequired (login_url : gostr).

Inductive body :=
| LoginPage (rq : gostr)                 (* the login page, with [rq] in its hidden field *)
| JSON (status : Z) (m : message)
| RedirectTo (location : gostr)          (* 302 with this Location header *)
| NotFound | NoContent | ServerError.

Record response := mkResponse { cookies : list http_cookie; r_body : body }.
Definition answer (b : body) : response := mkResponse [] b.
Definition with_cookies (cs : list http_cookie) (b : body) : response := mkResponse cs b.

(** [http.SetCookie] drops a cookie whose name is not a token. *)
Definition SetCookie (cs : list http_cookie) (c : http_cookie) : list http_cookie :=
  if is_token (c_Name c) then cs ++ [c] else cs.
Definition Redirect (r : incoming) (to : gostr) : body := RedirectTo (Location (UPath (url r)) to).

(** ** Events *)

Definition AccessEventLoginOK : gostr := $"login_ok".
Definition AccessEventLoginFail : gostr := $"login_fail".
Definition AccessEventOtpFail : gostr := $"otp_fail".
Definition AccessEventLocked : gostr := $"locked".
Definition AccessEventLogout : gostr := $"logout".
Definition AccessEventTicketIssue : gostr := $"ticket_issue".
Definition AccessEventTicketConsume : gostr := $"ticket_consume".
Definition AccessEventTicketReplay : gostr := $"ticket_replay".
Definition AccessEventBadReturnTo : gostr := $"bad_return_to".
Definition AccessEventDenied : gostr := $"denied".
Definition AccessAuditFail : Z := 0.
Definition AccessAuditOK : Z := 1.

Definition otpStageTTL : Z := 5 * minute.

Definition htmlAttrEscape (s : gostr) : gostr :=
  replace_all [($"&", $"&amp;"); ($"<", $"&lt;"); ($">", $"&gt;"); ([chr 34], $"&quot;"); ($"'", $"&#39;")] s.

Section login.
Context `{UnicodeCase} `{Outside} `{AuthReq.PayloadJSON} {D : Type}.

(** ** Cookies and identity *)

Definition GenerateFingerprint (r : incoming) : gostr :=
  Hosts.EncodeToString (md5 (join [UserAgent r; header r $"Accept-Language"; header r $"Accept-Encoding"] $"|")).

Definition accessNormalizedHost (r : incoming) : gostr := Hosts.NormalizeHost (r_host (req r)) (r_tls (req r)).
Definition accessTokenCookieName (cfg : Config) (r : incoming) : gostr :=
  Hosts.TokenCookieName sha256 (CookiePrefix cfg) (accessNormalizedHost r).

Definition buildAccessCookie (name value : gostr) (maxAge : Z) (secure : bool) : http_cookie := mkCookie name value maxAge secure.
Definition clearAccessCookie (cs : list http_cookie) (name : gostr) (secure : bool) : list http_cookie :=
  SetCookie cs (mkCookie name [] (-1) secure).
Definition accessCookieSecure (r : incoming) (hostTarget : target) (cfg : Config) : bool :=
  ForceSecureCookie cfg || r_tls (req r) || (t_AutoJumpHTTPS hostTarget =? 1).
(** [int(d.Seconds())] *)
Definition seconds (d : Z) : Z := Z.quot d second.

Definition accessOnCenter (r : incoming) (cfg : Config) : bool :=
  IsCenterMode cfg && equal_fold (r_host (req r)) (CenterHost cfg).

(** ** Failure counters *)

Definition accessFailKeys (clientIP username : gostr) : list gostr :=
  ($"ip:" ++ clientIP) :: match trim_space username with [] => [] | name => [$"user:" ++ to_lower name] end.

Section at_time.
Variable now : Z.

(** [GetInt]: -1 on a miss or a value of another type. *)
Definition GetInt (key : gostr) : M Z :=
  v ← cache_get now key;
  mret (match v with Some (VInt n) => n | _ => -1 end).

Definition accessCheckLock (clientIP username : gostr) : M bool :=
  ip ← cache_exists now (CACHE_ACCESS_LOCK ++ $"ip:" ++ clientIP);
  if (ip : bool) then mret true
  else if bool_decide (username = []) then mret false
  else cache_exists now (CACHE_ACCESS_LOCK ++ $"user:" ++ to_lower username).

Definition record_key (cfg : Config) (key : gostr) (remain : Z) : M Z :=
  cnt ← GetInt (CACHE_ACCESS_FAIL ++ key);
  let cnt := cnt + 1 in
  if MaxFailCount cfg <=? cnt then
    cache_set now (CACHE_ACCESS_LOCK ++ key) (VStr $"1") (LockDuration cfg);;
    cache_remove (CACHE_ACCESS_FAIL ++ key);; mret 0
  else
    cache_set now (CACHE_ACCESS_FAIL ++ key) (VInt cnt) (LockDuration cfg);;
    mret (if MaxFailCount cfg - cnt <? remain then MaxFailCount cfg - cnt else remain).

Fixpoint record_keys (cfg : Config) (keys : list gostr) (remain : Z) : M Z :=
  match keys with
  | [] => mret remain
  | key :: keys' => remain ← record_key cfg key remain; record_keys cfg keys' remain
  end.

(** The attempts left. *)
Definition accessRecordFail (clientIP username : gostr) (cfg : Config) : M Z :=
  remain ← record_keys cfg (accessFailKeys clientIP username) (MaxFailCount cfg);
  mret (if remain <? 0 then 0 else remain).

Definition accessRecordOtpFail (accountId : gostr) (cfg : Config) : M unit :=
  cnt ← GetInt (CACHE_ACCESS_OTPFAIL ++ accountId);
  cache_set now (CACHE_ACCESS_OTPFAIL ++ accountId) (VInt (cnt + 1)) (LockDuration cfg).

Definition accessClearFail (clientIP username : gostr) : M unit :=
  for_each (λ key, cache_remove (CACHE_ACCESS_FAIL ++ key)) (accessFailKeys clientIP username).

(** ** The handlers *)

(** The routing table, and the stored sites: the access configuration of a site code. *)
Variable e : Routing.engine D.
Variable stored : gostr → option gostr.
(** The values the request draws: a stage name, a row identifier, 32 random bytes. *)
Record fresh := mkFresh { f_uuid : gostr; f_id : gostr; f_rand : option gostr; f_nonce : gostr }.
Variable rnd : fresh.

Variable r : incoming.
Variable hostTarget : target.
Variable cfg : Config.
Variable clientIP : gostr.

Definition audit (event account session : gostr) (result : Z) : AuditEntry :=
  mkAudit event account session (r_host (req r)) (t_Code hostTarget) clientIP result.

Definition accessTargetHostOtpMode (rq : gostr) (fallback : Z) : Z :=
  match AuthReq.verifyAuthReq hmac (unix now) (HmacSecret cfg) rq with
  | None => fallback
  | Some payload =>
      if bool_decide (AuthReq.H payload = []) then fallback
      else
        match Routing.lookupHostCode e (AuthReq.H payload) with
        | None => fallback
        | Some code =>
            if bool_decide (code = []) then fallback
            else match stored code with
                 | None => fallback
                 | Some json => AccessConf.h_RequireOtp (AccessConf.ParseAccessConfig decode_access json)
                 end
        end
  end.

Definition accessFinishLogin (acct : Account.AccessAccount) (rq : gostr) : M response :=
  let fingerprint := GenerateFingerprint r in
  let secure := accessCookieSecure r hostTarget cfg in
  made ← CreateSession sha256 lookupLocation now (f_id rnd) (f_rand rnd) acct AccessScopeSSO [] clientIP fingerprint (UserAgent r) cfg;
  match made with
  | Err _ => mret (answer (JSON 500 Unavailable))
  | Ok (plainSess, sess) =>
      accessClearFail clientIP (Account.AccountName acct);;
      MarkLogin now (Account.Id acct) clientIP;;
      write_audit (audit AccessEventLoginOK (Account.AccountName acct) (Session.SessionCode sess) AccessAuditOK);;
      let redirect := PathPrefix cfg ++ $"/authorize" ++ match rq with [] => [] | _ => $"?rq=" ++ QueryEscape rq end in
      mret (with_cookies (SetCookie [] (buildAccessCookie (CookieSSOName cfg) plainSess (seconds (SessionTTL cfg)) secure)) (JSON 200 (SignedIn redirect)))
  end.

Definition accessHandleValidate (hostCfg : AccessConf.HostAccessConfig) : M response :=
  match login_body r with
  | None => mret (answer (JSON 400 BadBody))
  | Some body =>
      let username := trim_space (Username body) in
      locked ← accessCheckLock clientIP username;
      if (locked : bool) then
        write_audit (audit AccessEventLocked username [] AccessAuditFail);;
        mret (answer (JSON 429 TooManyFailures))
      else
        verified ← VerifyCredential BcryptVerify now username (Password body);
        match verified with
        | Err err =>
            remain ← accessRecordFail clientIP username cfg;
            write_audit (audit AccessEventLoginFail username [] AccessAuditFail);;
            mret (answer (JSON 401 (BadLogin err remain)))
        | Ok acct =>
            let siteOtp := accessTargetHostOtpMode (LoginRq body) (AccessConf.h_RequireOtp hostCfg) in
            if NeedOtp (Some acct) siteOtp (RequireOtp cfg) then
              let stage := f_uuid rnd in
              cache_set now (CACHE_ACCESS_STAGE ++ stage) (VStage (mkStage (Account.Id acct) (LoginRq body) (r_host (req r)))) otpStageTTL;;
              accessClearFail clientIP username;;
              mret (answer (JSON 200 (NeedCode stage)))
            else accessFinishLogin acct (LoginRq body)
        end
  end.

(** After the code: the stage and the counter go, then the account is looked at again. *)
Definition code_accepted (stage_key fail_key : gostr) (stage : otpStage) (acct : Account.AccessAccount) : M response :=
  cache_remove stage_key;;
  cache_remove fail_key;;
  again ← CheckStillUsable now (Account.Id acct);
  match again with
  | Err err =>
      write_audit (audit AccessEventLoginFail (Account.AccountName acct) [] AccessAuditFail);;
      mret (answer (JSON 403 (Unusable err)))
  | Ok usable => accessFinishLogin usable (Rq stage)
  end.

Definition code_refused (accountId name : gostr) : M response :=
  accessRecordOtpFail accountId cfg;;
  write_audit (audit AccessEventOtpFail name [] AccessAuditFail);;
  mret (answer (JSON 401 WrongCode)).

Definition accessHandleOtp : M response :=
  match otp_body r with
  | None => mret (answer (JSON 400 BadBody))
  | Some body =>
      let stage_key := CACHE_ACCESS_STAGE ++ Stage body in
      cached ← cache_get now stage_key;
      match cached with
      | Some (VStage stage) =>
          if bool_decide (AccountId stage = []) then mret (answer (JSON 401 StageExpired))
          else if negb (equal_fold (StageHost stage) (r_host (req r))) then
            cache_remove stage_key;; mret (answer (JSON 400 StageMoved))
          else
            let fail_key := CACHE_ACCESS_OTPFAIL ++ AccountId stage in
            cnt ← GetInt fail_key;
            if MaxFailCount cfg <=? cnt then
              cache_remove stage_key;; mret (answer (JSON 429 TooManyCodes))
            else
              loaded ← GetDetailApi (AccountId stage);
              match loaded with
              | Ok acct =>
                  if VerifyOtp ValidateOtpCode DataDecrypt now (Some acct) (OtpCode body)
                  then code_accepted stage_key fail_key stage acct
                  else code_refused (AccountId stage) (Account.AccountName acct)
              | Err _ => code_refused (AccountId stage) []
              end
      | _ => mret (answer (JSON 401 StageExpired))
      end
  end.

(** ** Signing out *)

(** The central session: closed everywhere when asked by POST. *)
Definition logout_session (all secure : bool) (cs : list http_cookie) : M (gostr * list http_cookie) :=
  match Cookie r (CookieSSOName cfg) with
  | Some (c :: v) =>
      let code := HashAccessCode sha256 (c :: v) in
      account ← (if all then
                   sess ← LoadSessionByCode now code;
                   RevokeSession now code AccessRevokeByLogout;;
                   mret (match sess with Ok s => Session.AccountName s | Err _ => [] end)
                 else mret []);
      mret (account, clearAccessCookie cs (CookieSSOName cfg) secure)
  | _ => mret ([], cs)
  end.

Definition accessHandleLogout : M response :=
  let secure := accessCookieSecure r hostTarget cfg in
  let all := bool_decide (query r $"all" = $"1") && bool_decide (r_method (req r) = $"POST") in
  '(account, cs) ← logout_session all secure [];
  let tokenName := accessTokenCookieName cfg r in
  cs ← (match Cookie r tokenName with
        | Some (c :: v) => RevokeToken sha256 now (c :: v);; mret (clearAccessCookie cs tokenName secure)
        | _ => mret cs
        end);
  let cs := clearAccessCookie cs (Hosts.LegacyTokenCookieName (CookiePrefix cfg)) secure in
  write_audit (audit AccessEventLogout account [] AccessAuditOK);;
  mret (with_cookies cs (if contains (to_lower (header r $"Accept")) $"text/html"
                         then Redirect r (PathPrefix cfg ++ $"/login") else JSON 200 SignedOut)).

Definition accessHandleStatus : M response :=
  match Cookie r (accessTokenCookieName cfg r) with
  | Some (c :: v) =>
      st ← ValidateToken sha256 zone now (c :: v) (accessNormalizedHost r) (t_Code hostTarget) clientIP (GenerateFingerprint r) cfg;
      mret (answer (JSON 200 (match st with
                              | Some s => Authenticated (State.AccountName s) (State.ExpireUnix s - unix now)
                              | None => Anonymous
                              end)))
  | _ => mret (answer (JSON 200 Anonymous))
  end.

Definition accessCurrentSSOSession (fingerprint : gostr) : M (option Session.AccessSession) :=
  match Cookie r (CookieSSOName cfg) with
  | Some (c :: v) => ValidateSSOSession sha256 zone now (c :: v) (accessNormalizedHost r) clientIP fingerprint cfg
  | _ => mret None
  end.

End at_time.
End login.
End Login.
