(* ===== verification/LoginFacts.v ===== *)
(** * Facts about signing in

    When a visitor is locked out, and for how long. *)
From S2P Require Import Prelude.
From S2P Require Import GoLib.
From S2P Require Import GoHttp.
From S2P Require Import GoUrl.
From S2P Require Import WafCache.
From S2P Require Import AccessGate.
From S2P Require Import AccessStore.
From S2P Require Import AccessFacts.
From S2P Require Import AuthReq.
From S2P Require Import HostListen.
From S2P Require Import Routing.
From S2P Require Import AccessConf.
From S2P Require Import AccessAccount.
From S2P Require Import AccessLogin.
Local Open Scope Z_scope.
Local Open Scope bool_scope.

Module LoginFacts.
Import Mode AccessStore AccessFacts AccessAccount Login.

Section locking.
Context `{UnicodeCase} `{Outside} `{AuthReq.PayloadJSON} {D : Type}.
Variable cfg : Config.
Variable clientIP username : gostr.

Abbreviation fail_key k := (CACHE_ACCESS_FAIL ++ k).
Abbreviation lock_key k := (CACHE_ACCESS_LOCK ++ k).

(** The failures of a client, one after the other. *)
Definition failures (ts : list Z) (st : store) : store :=
  foldl (λ st t, (accessRecordFail t clientIP username cfg st).1) st ts.

Lemma fail_lock_ne a b : fail_key a ≠ lock_key b.
Proof. done. Qed.

Lemma Remove_delete (c : gmap gostr (WafCache.WafCacheItem aval)) k : WafCache.Remove c k = delete k c.
Proof. unfold WafCache.Remove. destruct (c !! k) eqn:E; [done|]. symmetry. by apply delete_id. Qed.

(** What one failure does to the two entries of a key. *)
Definition after_failure (t : Z) (counter : option (WafCache.WafCacheItem aval)) (lock : option (WafCache.WafCacheItem aval)) :
    option (WafCache.WafCacheItem aval) * option (WafCache.WafCacheItem aval) :=
  let cnt := match counter with Some item => if WafCache.live t item then match WafCache.value item with VInt n => n | _ => -1 end else -1 | None => -1 end in
  if MaxFailCount cfg <=? cnt + 1
  then (None, Some (WafCache.put (match lock with Some item => WafCache.createTime item | None => t end) (LockDuration cfg) (VStr $"1")))
  else (Some (WafCache.put (match counter with Some item => if WafCache.live t item then WafCache.createTime item else t | None => t end) (LockDuration cfg) (VInt (cnt + 1))), lock).

Abbreviation entries k st := (cache st !! fail_key k, cache st !! lock_key k).

Lemma record_key_entries t k n st :
  entries k (record_key t cfg k n st).1 = after_failure t (cache st !! fail_key k) (cache st !! lock_key k) ∧
  ∀ k', k' ≠ k → entries k' (record_key t cfg k n st).1 = entries k' st.
Proof.
  assert (Hf : ∀ k', k' ≠ k → fail_key k' ≠ fail_key k) by (intros k' Hk E; by apply app_inv_head in E).
  assert (Hl : ∀ k', k' ≠ k → lock_key k' ≠ lock_key k) by (intros k' Hk E; by apply app_inv_head in E).
  destruct st as [ss tk ti ac c au]. unfold record_key, GetInt, cache_get, cache_set, cache_remove, on_cache, mbind, M_bind, mret, M_ret.
  cbn [cache]. unfold WafCache.Get, after_failure, WafCache.SetWithTTl.
  destruct (c !! fail_key k) as [item|] eqn:E; [destruct (WafCache.live t item) eqn:El|]; cbv beta iota zeta; cbn [cache];
    match goal with |- context [MaxFailCount cfg <=? ?x] => destruct (MaxFailCount cfg <=? x) end; cbn [cache fst];
    rewrite ?Remove_delete; (split; [|intros k' Hk; specialize (Hf k' Hk); specialize (Hl k' Hk)]).
  all: repeat first
    [ rewrite lookup_delete_eq | rewrite lookup_insert_eq | rewrite lookup_delete_ne by done | rewrite lookup_insert_ne by done ].
  all: rewrite ?E; try done.
Qed.

Lemma record_keys_entries t keys n st : NoDup keys →
  (∀ k, k ∈ keys → entries k (record_keys t cfg keys n st).1 = after_failure t (cache st !! fail_key k) (cache st !! lock_key k)) ∧
  (∀ k, k ∉ keys → entries k (record_keys t cfg keys n st).1 = entries k st).
Proof.
  revert n st. induction keys as [|key keys IH]; intros n st Hnd; cbn [record_keys]; [split; [set_solver|done]|].
  apply NoDup_cons in Hnd as [Hout Hnd]. unfold mbind, M_bind. destruct (record_key_entries t key n st) as [Hk Ho].
  destruct (record_key t cfg key n st) as [st1 n1]. cbn [fst] in *. destruct (IH n1 st1 Hnd) as [IHin IHout]. split; intros k Hin.
  - apply elem_of_cons in Hin as [->|Hin]; [by rewrite IHout|]. rewrite IHin by done.
    assert (k ≠ key) by (intros ->; contradiction). specialize (Ho k ltac:(done)). apply pair_eq in Ho as [E1 E2]. by rewrite E1, E2.
  - rewrite IHout by set_solver. apply Ho. set_solver.
Qed.

Lemma fail_keys_distinct : NoDup (accessFailKeys clientIP username).
Proof. unfold accessFailKeys. destruct (trim_space username); repeat constructor; set_solver. Qed.

Lemma record_fail_entries t k st : k ∈ accessFailKeys clientIP username →
  entries k (accessRecordFail t clientIP username cfg st).1 = after_failure t (cache st !! fail_key k) (cache st !! lock_key k).
Proof.
  intros Hk. unfold accessRecordFail, mbind, M_bind. destruct (record_keys_entries t _ (MaxFailCount cfg) st fail_keys_distinct) as [Hin _].
  specialize (Hin k Hk). by destruct (record_keys t cfg _ _ st).
Qed.

(** The entries after the failures of a key that had none before. *)
Lemma failures_entries k t0 ts st : 0 < MaxFailCount cfg → k ∈ accessFailKeys clientIP username → entries k st = (None, None) →
  (∀ t, t ∈ ts → t - t0 ≤ LockDuration cfg) → Z.of_nat (length ts) ≤ MaxFailCount cfg →
  entries k (failures (t0 :: ts) st) =
    if Z.of_nat (length ts) =? MaxFailCount cfg then (None, Some (WafCache.put (List.last ts t0) (LockDuration cfg) (VStr $"1")))
    else (Some (WafCache.put t0 (LockDuration cfg) (VInt (Z.of_nat (length ts)))), None).
Proof.
  intros HM Hk Hnone. induction ts as [|t ts IH] using rev_ind; intros Hts Hn.
  - cbn [failures foldl length]. unfold failures. cbn [foldl]. rewrite record_fail_entries by done. apply pair_eq in Hnone as [-> ->].
    unfold after_failure. destruct (Z.leb_spec (MaxFailCount cfg) (-1 + 1)); [lia|]. by rewrite (proj2 (Z.eqb_neq _ _)) by lia.
  - rewrite length_app in *. cbn [length] in *. unfold failures in *. rewrite app_comm_cons, foldl_app. cbn [foldl]. rewrite record_fail_entries by done.
    assert (Hts' : ∀ t, t ∈ ts → t - t0 ≤ LockDuration cfg) by (intros t' Ht'; apply Hts; set_solver).
    specialize (IH Hts' ltac:(lia)). rewrite (proj2 (Z.eqb_neq _ _)) in IH by lia. cbn [foldl] in IH. apply pair_eq in IH as [-> ->].
    unfold after_failure, WafCache.live, WafCache.put. cbn [WafCache.createTime WafCache.ttl WafCache.value].
    assert (t - t0 ≤ LockDuration cfg) by (apply Hts; set_solver). rewrite (proj2 (Z.leb_le (t - t0) (LockDuration cfg))) by done.
    rewrite last_last. destruct (Z.leb_spec (MaxFailCount cfg) (Z.of_nat (length ts) + 1)), (Z.eqb_spec (Z.of_nat (length ts + 1)) (MaxFailCount cfg)); try lia; [done|].
    do 4 f_equal. lia.
Qed.

Lemma lock_exists k u st : (cache_exists u (lock_key k) st).2 = match cache st !! lock_key k with Some item => WafCache.live u item | None => false end.
Proof. unfold cache_exists, on_cache, WafCache.IsKeyExist. destruct (cache st !! lock_key k) as [item|]; [by destruct (WafCache.live u item)|done]. Qed.

Lemma exists_other k k' u st : k ≠ k' → cache (cache_exists u k st).1 !! k' = cache st !! k'.
Proof.
  intros Hk. unfold cache_exists, on_cache, WafCache.IsKeyExist. destruct (cache st !! k) as [item|]; [|done].
  destruct (WafCache.live u item); [done|]. cbn. by rewrite lookup_delete_ne.
Qed.

(** C25: the lock comes when it should - one failure late.  A client (address and user name)
    without failures that fails at the given times, all within the lock time of the
    first, is locked out after the failure number [MaxFailCount + 1] and not before (the
    code says it means [MaxFailCount]: the counter of the first failure starts at -1, what
    the cache answers on a miss).  The lock holds until the configured time after that
    failure is over, and not longer. *)
Theorem lock_exact t0 ts st u :
  0 < MaxFailCount cfg → trim_space username = username →
  (∀ k, k ∈ accessFailKeys clientIP username → entries k st = (None, None)) →
  (∀ t, t ∈ ts → t - t0 ≤ LockDuration cfg) → Z.of_nat (length ts) ≤ MaxFailCount cfg →
  (accessCheckLock u clientIP username (failures (t0 :: ts) st)).2 =
    bool_decide (Z.of_nat (length (t0 :: ts)) = MaxFailCount cfg + 1 ∧ u ≤ List.last ts t0 + LockDuration cfg).
Proof.
  intros HM Htrim Hnone Hts Hn.
  assert (He : ∀ k, k ∈ accessFailKeys clientIP username →
    match cache (failures (t0 :: ts) st) !! lock_key k with Some item => WafCache.live u item | None => false end =
      bool_decide (Z.of_nat (length (t0 :: ts)) = MaxFailCount cfg + 1 ∧ u ≤ List.last ts t0 + LockDuration cfg)).
  { intros k Hk. pose proof (failures_entries k t0 ts st HM Hk (Hnone k Hk) Hts Hn) as E. cbn [length].
    destruct (Z.eqb_spec (Z.of_nat (length ts)) (MaxFailCount cfg)); apply pair_eq in E as [_ ->].
    - unfold WafCache.live, WafCache.put. cbn [WafCache.createTime WafCache.ttl]. apply eq_iff_eq_true. rewrite Z.leb_le, bool_decide_eq_true. lia.
    - by rewrite bool_decide_false by lia. }
  unfold accessCheckLock, mbind, M_bind. set (st' := failures (t0 :: ts) st) in *.
  pose proof (lock_exists ($"ip:" ++ clientIP) u st') as Hip. rewrite (He ($"ip:" ++ clientIP)) in Hip by (unfold accessFailKeys; set_solver).
  pose proof (exists_other (lock_key ($"ip:" ++ clientIP)) (lock_key ($"user:" ++ to_lower username)) u st' ltac:(done)) as Hother.
  destruct (cache_exists u _ st') as [st1 b]. cbn [fst snd] in *. subst b.
  destruct (bool_decide (Z.of_nat _ = _ ∧ _)) eqn:E; [done|]. destruct (bool_decide_reflect (username = [])) as [|Hname]; [done|].
  rewrite lock_exists, Hother. apply He. unfold accessFailKeys. rewrite Htrim. destruct username; [done|set_solver].
Qed.
End locking.
End LoginFacts.
