(* ===== verification/AccessFlow.v ===== *)
(** * The request side of the access gate (wafenginecore/access_gate.go, access_ticket.go,
      access_redirect.go; isACMEChallengePath of acme_challenge.go)

    [DoAccessGate] is what every request of a protected site goes through: it deletes
    forged identity headers, serves the gate's own pages, takes the gate's cookies out of
    the request, and then either lets the request pass - with the header the backend
    gets - or answers it.  The ticket handlers carry a sign-in from the central site to
    the site the visitor came from.  The arguments are those of [AccessLogin], the IP
    groups and their sets, and the path of the certificate challenge. *)
From S2P Require Import Prelude.
From S2P Require Import GoLib.
From S2P Require Import GoHttp.
From S2P Require Import GoUrl.
From S2P Require Import Lines.
From S2P Require Import MatchSet.
From S2P Require Import Groups.
From S2P Require Import PathMatch.
From S2P Require Import AccessGate.
From S2P Require Import AccessStore.
From S2P Require Import AuthReq.
From S2P Require Import Routing.
From S2P Require Import AccessConf.
From S2P Require Import AccessAccount.
From S2P Require Import AccessLogin.
Local Open Scope Z_scope.
Local Open Scope bool_scope.

Module Flow.
Import Mode AccessStore AccessAccount Login.

(** ** Headers and cookies of the request *)

Definition identity_user : gostr := $"X-SamWaf-Access-User".
Definition identity_session : gostr := $"X-SamWaf-Access-Session".

Definition header_del (h : CORS.headers) (key : gostr) : CORS.headers := delete (canonical_key key) h.
Definition header_set (h : CORS.headers) (key v : gostr) : CORS.headers := <[canonical_key key := [v]]> h.
Definition with_header (r : incoming) (h : CORS.headers) : incoming :=
  mkIn (mkRequest (r_path (req r)) (r_raw_query (req r)) (r_method (req r)) (r_host (req r)) (r_tls (req r)) h (r_cookies (req r)) (r_query (req r)))
       (url r) (login_body r) (otp_body r).

Section gate.
Context `{UnicodeCase} `{Outside} `{AuthReq.PayloadJSON} {D : Type}.

Definition item_name (item : gostr) : gostr := match index_byte item "=" with Some i => take i item | None => item end.
(** [prefix] in lower case. *)
Definition is_access_cookie (prefix item : gostr) : bool := has_prefix (to_lower (item_name item)) prefix.
Definition cookie_items (line : gostr) : list gostr := omap trimmed (split line ";").
(** One line of the header, when something of it stays. *)
Definition strip_line (prefix line : gostr) : option gostr :=
  match List.filter (λ item, negb (is_access_cookie prefix item)) (cookie_items line) with
  | [] => None
  | kept => Some (join kept $"; ")
  end.

(** The header afterwards, and whether anything was taken out. *)
Definition stripAccessCookies (h : CORS.headers) (cfg : Config) : CORS.headers * bool :=
  let values := default [] (h !! $"Cookie") in
  if (length values =? 0)%nat || bool_decide (CookiePrefix cfg = []) then (h, false)
  else
    let prefix := to_lower (CookiePrefix cfg) in
    if negb (existsb (λ line, existsb (is_access_cookie prefix) (cookie_items line)) values) then (h, false)
    else
      match omap (strip_line prefix) values with
      | [] => (header_del h $"Cookie", true)
      | kept => (<[$"Cookie" := kept]> h, true)
      end.

Definition accessCookieValue (r : incoming) (name : gostr) : gostr := default [] (Cookie r name).

(** ** Small decisions *)

Definition isACMEChallengePath (acme_path cleanPath rawPath : gostr) : bool :=
  if contains rawPath $".." then false else has_prefix cleanPath (to_lower acme_path).

Fixpoint firstNonEmpty (vals : list gostr) : gostr :=
  match vals with
  | [] => []
  | v :: vals' => match trim_space v with [] => firstNonEmpty vals' | t => t end
  end.

Definition accessCORSPolicy (cfg : Config) (hostCfg : AccessConf.HostAccessConfig) : CORS.CORSPolicy :=
  CORS.ResolveCORSPolicy (AccessConf.h_CorsAllowOrigins hostCfg) (AccessConf.h_CorsAllowMethods hostCfg)
    (AccessConf.h_CorsAllowHeaders hostCfg) (AccessConf.h_CorsMaxAge hostCfg) (Cors cfg).

Definition matchAccessServiceToken (r : incoming) (cfg : Config) : bool :=
  if bool_decide (ServiceTokenHeader cfg = []) || (length (ServiceTokenHashes cfg) =? 0)%nat then false
  else
    match trim_space (header r (ServiceTokenHeader cfg)) with
    | [] => false
    | provided => let got := Hosts.EncodeToString (sha256 provided) in
                  existsb (λ want, bool_decide (got = to_lower want)) (ServiceTokenHashes cfg)
    end.

Definition accessShouldReturnJSON (r : incoming) (cfg : Config) (hostCfg : AccessConf.HostAccessConfig) : bool :=
  let action := match AccessConf.h_UnauthAction hostCfg with [] => UnauthAction cfg | a => a end in
  let websocket := equal_fold (header r $"Upgrade") $"websocket" in
  if bool_decide (action = AccessConf.AccessUnauth401) then true
  else if bool_decide (action = AccessConf.AccessUnauthRedirect) then websocket
  else if websocket then true
  else if equal_fold (header r $"X-Requested-With") $"XMLHttpRequest" then true
  else if negb (bool_decide (header r $"Sec-Fetch-Mode" = [])) && negb (equal_fold (header r $"Sec-Fetch-Mode") $"navigate") then true
  else if contains (to_lower (header r $"Content-Type")) $"application/json" then true
  else if negb (bool_decide (r_method (req r) = $"GET")) && negb (bool_decide (r_method (req r) = $"HEAD")) then true
  else negb (contains (to_lower (header r $"Accept")) $"text/html").

(** ** Where to go back to *)

Definition maxReturnToLen : nat := 2048.

Definition drop_fragment (u : URL) : URL := with_fragment u [] [].
Definition with_path (u : URL) (p : gostr) : URL :=
  mkURL (Scheme u) (Opaque u) (User u) (UHost u) p (RawPath u) (OmitHost u) (ForceQuery u) (RawQuery u) (Fragment u) (RawFragment u).

Definition validateReturnTo (e : Routing.engine D) (raw expectHost : gostr) : option gostr :=
  if bool_decide (raw = []) || bool_decide (expectHost = []) then None
  else if (maxReturnToLen <? length raw)%nat then None
  else if contains_any raw $"\" then None
  else if existsb (λ c, (code c <? 32) || (code c =? 127)) raw then None
  else
    u ← Parse raw;
    let scheme := to_lower (Scheme u) in
    if negb (bool_decide (scheme = $"http") || bool_decide (scheme = $"https")) then None
    else if bool_decide (UHost u = []) then None
    else if negb (bool_decide (User u = None)) then None
    else if negb (bool_decide (UPath u = [])) && negb (has_prefix (UPath u) $"/") then None
    else
      let u := drop_fragment u in
      if negb (equal_fold (UHost u) expectHost) then None
      else if negb (Routing.isManagedHost e (UHost u)) then None
      else Some (String_ (if bool_decide (UPath u = []) then with_path u $"/" else u)).

Definition accessSchemeOf (rawURL : gostr) : gostr :=
  match Parse rawURL with
  | Some u => match Scheme u with [] => $"https" | s => s end
  | None => $"https"
  end.

Definition accessCurrentURL (r : incoming) : gostr :=
  (if r_tls (req r) then $"https" else $"http") ++ $"://" ++ r_host (req r) ++ RequestURI (url r).

(** ** The handlers of the ticket *)

Variable now : Z.
Variable e : Routing.engine D.
Variable stored : gostr → option gostr.
Variable rnd : fresh.
(** The IP groups and the sets behind their pointers; the certificate challenge path. *)
Variable groups : Groups.state.
Variable sets : gmap Z MatchSet.
Variable acme_path : gostr.

Definition buildAccessEntryURL (r : incoming) (cfg : Config) : gostr :=
  let rq := AuthReq.signAuthReq hmac (HmacSecret cfg)
              (AuthReq.mkReq (accessCurrentURL r) (r_host (req r)) (unix (now + AuthReq.accessAuthReqTTL)) (f_nonce rnd)) in
  let query := match rq with [] => [] | _ => $"?rq=" ++ QueryEscape rq end in
  if IsCenterMode cfg && negb (equal_fold (r_host (req r)) (CenterHost cfg))
  then CenterOrigin cfg ++ PathPrefix cfg ++ $"/authorize" ++ query
  else PathPrefix cfg ++ $"/login" ++ query.

Section request.
Variable r : incoming.
Variable hostTarget : target.
Variable cfg : Config.
Variable clientIP : gostr.

Definition audit_for (event account session host hostCode : gostr) (result : Z) : AuditEntry :=
  mkAudit event account session host hostCode clientIP result.

(** [None]: the account may enter; otherwise the response that says no. *)
Definition accessAuthorizeForHost (sess : Session.AccessSession) (targetHost knownHostCode : gostr) : M (option response) :=
  acct ← CheckStillUsable now (Session.AccountCode sess);
  match acct with
  | Err _ =>
      RevokeSession now (Session.SessionCode sess) AccessRevokeByAccount;;
      write_audit (audit_for AccessEventDenied (Session.AccountName sess) (Session.SessionCode sess) targetHost [] AccessAuditFail);;
      mret (Some (answer (LoginPage [])))
  | Ok acct =>
      let hostCode := match knownHostCode with [] => default [] (Routing.lookupHostCode e targetHost) | c => c end in
      if bool_decide (hostCode = []) || negb (IsHostAllowed (Some acct) hostCode) then
        write_audit (audit_for AccessEventDenied (Session.AccountName sess) (Session.SessionCode sess) targetHost hostCode AccessAuditFail);;
        mret (Some (answer (JSON 403 NotAllowed)))
      else mret None
  end.

(** A ticket for a session that may enter [host]. *)
Definition issue_ticket (sess : Session.AccessSession) (host returnTo fingerprint : gostr) : M response :=
  issued ← IssueTicket sha256 now (f_rand rnd) sess host returnTo clientIP fingerprint cfg;
  match issued with
  | Err _ => mret (answer ServerError)
  | Ok ticket =>
      write_audit (audit_for AccessEventTicketIssue (Session.AccountName sess) (Session.SessionCode sess) host [] AccessAuditOK);;
      mret (answer (Redirect r (accessSchemeOf returnTo ++ $"://" ++ host ++ PathPrefix cfg ++ $"/callback?tk=" ++ QueryEscape ticket)))
  end.

Definition accessHandleAuthorize : M response :=
  if negb (IsCenterMode cfg) || negb (equal_fold (r_host (req r)) (CenterHost cfg)) then mret (answer NotFound)
  else
    let rq := query r $"rq" in
    match AuthReq.verifyAuthReq hmac (unix now) (HmacSecret cfg) rq with
    | None => mret (answer (LoginPage []))
    | Some payload =>
        match validateReturnTo e (AuthReq.R payload) (AuthReq.H payload) with
        | None =>
            write_audit (audit_for AccessEventBadReturnTo [] [] (r_host (req r)) [] AccessAuditFail);;
            mret (answer (LoginPage []))
        | Some returnTo =>
            let fingerprint := GenerateFingerprint r in
            current ← accessCurrentSSOSession now r cfg clientIP fingerprint;
            match current with
            | None => mret (answer (LoginPage rq))
            | Some sess =>
                refused ← accessAuthorizeForHost sess (AuthReq.H payload) [];
                match refused with
                | Some resp => mret resp
                | None => issue_ticket sess (AuthReq.H payload) returnTo fingerprint
                end
            end
        end
    end.

(** The cookies of the response, when the token could be made. *)
Definition accessIssueTokenCookie (sess : Session.AccessSession) (fingerprint : gostr) : M (option (list http_cookie)) :=
  let nhost := accessNormalizedHost r in
  issued ← IssueToken sha256 now (f_rand rnd) sess nhost (t_Code hostTarget) clientIP fingerprint cfg;
  match issued with
  | Err _ => mret None
  | Ok plain =>
      let secure := accessCookieSecure r hostTarget cfg in
      let cs := SetCookie [] (buildAccessCookie (Hosts.TokenCookieName sha256 (CookiePrefix cfg) nhost) plain (seconds (TokenTTL cfg)) secure) in
      mret (Some (clearAccessCookie cs (Hosts.LegacyTokenCookieName (CookiePrefix cfg)) secure))
  end.

(** What follows a consumed ticket. *)
Definition redeem (ticket : Ticket.AccessTicket) (sess : Session.AccessSession) (fingerprint : gostr) : M response :=
  refused ← accessAuthorizeForHost sess (r_host (req r)) (t_Code hostTarget);
  match refused with
  | Some resp => mret resp
  | None =>
      issued ← accessIssueTokenCookie sess fingerprint;
      match issued with
      | None => mret (answer ServerError)
      | Some cs =>
          write_audit (audit_for AccessEventTicketConsume (Session.AccountName sess) (Session.SessionCode sess) (r_host (req r)) (t_Code hostTarget) AccessAuditOK);;
          mret (with_cookies cs (Redirect r (default $"/" (validateReturnTo e (Ticket.ReturnTo ticket) (r_host (req r))))))
      end
  end.

Definition accessHandleCallback : M response :=
  let fingerprint := GenerateFingerprint r in
  consumed ← ConsumeTicket sha256 now (query r $"tk") (r_host (req r)) clientIP fingerprint cfg;
  match consumed with
  | Err _ =>
      write_audit (audit_for AccessEventTicketReplay [] [] (r_host (req r)) (t_Code hostTarget) AccessAuditFail);;
      mret (answer (Redirect r (buildAccessEntryURL r cfg)))
  | Ok ticket =>
      loaded ← LoadSessionByCode now (Ticket.SessionCode ticket);
      match loaded with
      | Err _ => mret (answer (Redirect r (buildAccessEntryURL r cfg)))
      | Ok sess => redeem ticket sess fingerprint
      end
  end.

(** ** The gate's own pages *)

Definition clean_path : gostr := to_lower (path_clean (UPath (url r))).
(** [strings.Trim(s, "/")] *)
Definition trim_slashes (s : gostr) : gostr := trim_right (trim_left_with (Ascii.eqb "/") s) "/".
Definition sub_path : gostr := trim_slashes (trim_prefix clean_path (PathPrefix cfg)).
Definition is_post : bool := bool_decide (r_method (req r) = $"POST").
Definition is_get : bool := bool_decide (r_method (req r) = $"GET").

Definition handleAccessRequest (hostCfg : AccessConf.HostAccessConfig) : M response :=
  let sub := sub_path in
  let onCenter := accessOnCenter r cfg in
  if bool_decide (sub = []) || bool_decide (sub = $"login") then
    mret (answer (if onCenter then LoginPage (query r $"rq")
                  else if IsCenterMode cfg then Redirect r (buildAccessEntryURL r cfg) else NotFound))
  else if bool_decide (sub = $"validate") && is_post then
    if negb onCenter then mret (answer NotFound) else accessHandleValidate now e stored rnd r hostTarget cfg clientIP hostCfg
  else if bool_decide (sub = $"otp") && is_post then
    if negb onCenter then mret (answer NotFound) else accessHandleOtp now rnd r hostTarget cfg clientIP
  else if bool_decide (sub = $"authorize") && is_get then accessHandleAuthorize
  else if bool_decide (sub = $"callback") && is_get then accessHandleCallback
  else if bool_decide (sub = $"logout") then accessHandleLogout now r hostTarget cfg clientIP
  else if bool_decide (sub = $"status") && is_get then accessHandleStatus now r hostTarget cfg clientIP
  else mret (answer (if bool_decide (sub = $"ping") then NoContent else NotFound)).

(** ** The gate *)

(** [Pass h]: the request goes on with header [h]; [Handled extra resp]: it was answered,
    with the cross-origin headers [extra]. *)
Inductive outcome := Pass (h : CORS.headers) | Handled (extra : CORS.headers) (resp : response).

Definition in_group (groupCode : gostr) : bool :=
  ContainsStr (Groups.GetGroupMatcher groups groupCode ≫= λ l, sets !! l) clientIP.

(** The ways past the gate without a sign-in. *)
Definition bypassed (hostCfg : AccessConf.HostAccessConfig) : bool :=
  if negb (IsAccessEnabled (AccessConf.Mode hostCfg) (GlobalEnable cfg)) then true
  else if negb (IsCenterMode cfg) then true
  else if isACMEChallengePath acme_path clean_path (UPath (url r)) then true
  else if PathMatch.MatchPathPrefix clean_path (GlobalExcludePaths cfg)
          || PathMatch.MatchPathPrefix clean_path (PathMatch.BuildExcludePaths (AccessConf.ExcludePaths hostCfg)) then true
  else
    let groupCode := firstNonEmpty [AccessConf.AllowIPGroupCode hostCfg; BypassIPGroupCode cfg] in
    if negb (bool_decide (groupCode = [])) && in_group groupCode then true
    else matchAccessServiceToken r cfg.

(** A preflight of an allowed origin is answered by the gate. *)
Definition preflight (hostCfg : AccessConf.HostAccessConfig) : option CORS.headers :=
  if CORS.IsPreflight (req r) then
    let policy := accessCORSPolicy cfg hostCfg in
    allowed ← CORS.MatchOrigin (CORS.RequestOrigin (req r)) (CORS.AllowOrigins policy);
    Some (CORS.WritePreflightHeaders ∅ (req r) allowed policy)
  else None.

Definition identified (s : State.AccessState) (h : CORS.headers) : CORS.headers :=
  if PassIdentityHeader cfg
  then header_set (header_set h identity_user (State.AccountName s)) identity_session (State.SessionCode s) else h.

(** 302 for a browser, 401 otherwise. *)
Definition unauthenticated (hostCfg : AccessConf.HostAccessConfig) : M outcome :=
  write_audit (audit_for AccessEventDenied [] [] (r_host (req r)) (t_Code hostTarget) AccessAuditFail);;
  let entry := buildAccessEntryURL r cfg in
  let origin := CORS.RequestOrigin (req r) in
  let extra := if bool_decide (origin = []) then ∅
               else match CORS.MatchOrigin origin (CORS.AllowOrigins (accessCORSPolicy cfg hostCfg)) with
                    | Some allowed => CORS.WriteCORSHeaders ∅ allowed
                    | None => CORS.AddVaryOrigin ∅
                    end in
  mret (Handled extra (answer (if accessShouldReturnJSON r cfg hostCfg then JSON 401 (LoginRequired entry) else Redirect r entry))).

Definition check_token (hostCfg : AccessConf.HostAccessConfig) (tokenCookie nhost : gostr) : M outcome :=
  st ← (match tokenCookie with
        | [] => mret None
        | c :: v => ValidateToken sha256 zone now (c :: v) nhost (t_Code hostTarget) clientIP (GenerateFingerprint r) cfg
        end);
  match st with
  | Some s => mret (Pass (identified s (r_header (req r))))
  | None => unauthenticated hostCfg
  end.

(** The gate's own pages. *)
Definition own_page : bool :=
  bool_decide (clean_path = PathPrefix cfg) || has_prefix clean_path (PathPrefix cfg ++ $"/").
End request.

Definition DoAccessGate (r : incoming) (hostTarget : target) (cfg : Config) (clientIP : gostr) : M outcome :=
  let h := header_del (header_del (r_header (req r)) identity_user) identity_session in
  let r := with_header r h in
  if ForceDisable cfg then mret (Pass h)
  else
    let hostCfg := AccessConf.ParseAccessConfig decode_access (t_AccessJSON hostTarget) in
    if own_page r cfg then resp ← handleAccessRequest r hostTarget cfg clientIP hostCfg; mret (Handled ∅ resp)
    else
      let nhost := accessNormalizedHost r in
      let tokenCookie := accessCookieValue r (Hosts.TokenCookieName sha256 (CookiePrefix cfg) nhost) in
      let r := with_header r (stripAccessCookies h cfg).1 in
      if bypassed r cfg clientIP hostCfg then mret (Pass (r_header (req r)))
      else
        match preflight r cfg hostCfg with
        | Some extra => mret (Handled extra (answer NoContent))
        | None => check_token r hostTarget cfg clientIP hostCfg tokenCookie nhost
        end.

End gate.
End Flow.
