(* ===== verification/AccessFlowFacts.v ===== *)
(** * Facts about the access gate

    Where a visitor can be sent, which cookies the backend gets, and that every handler
    keeps the invariant of the store. *)
From S2P Require Import Prelude.
From S2P Require Import GoLib.
From S2P Require Import GoHttp.
From S2P Require Import GoUrl.
From S2P Require Import Lines.
From S2P Require Import WafCache.
From S2P Require Import MatchSet.
From S2P Require Import Groups.
From S2P Require Import PathMatch.
From S2P Require Import AccessGate.
From S2P Require Import AccessStore.
From S2P Require Import AccessFacts.
From S2P Require Import AuthReq.
From S2P Require Import HostListen.
From S2P Require Import Routing.
From S2P Require Import AccessConf.
From S2P Require Import AccessAccount.
From S2P Require Import AccessLogin.
From S2P Require Import AccessFlow.
Local Open Scope Z_scope.
Local Open Scope bool_scope.

Module FlowFacts.
Import Mode AccessStore AccessFacts AccessAccount Login Flow.

(** ** Taking the gate's cookies out *)

Section cookies.
Context `{UnicodeCase}.

(** What [cookie_items] yields: trimmed, not empty, without a semicolon. *)
Definition cookie_item (s : gostr) : Prop := s ≠ [] ∧ trim_space s = s ∧ ";"%char ∉ s.

Lemma cookie_items_ok line : Forall cookie_item (cookie_items line).
Proof.
  apply Forall_forall. intros item. unfold cookie_items. rewrite list_elem_of_omap. intros (l & Hl & Ht).
  unfold trimmed in Ht. destruct (trim_space l) as [|c t] eqn:E; [done|]. injection Ht as <-.
  split; [done|]. split; [rewrite <- E; apply trim_space_idem|].
  apply split_byte_free in Hl. destruct (trim_space_mid l) as (p & q & El). rewrite E in El. set_solver.
Qed.

Lemma cookie_items_one item r : cookie_item item → cookie_items item = [item] ∧ cookie_items (item ++ ";"%char :: " "%char :: r) = item :: cookie_items (" "%char :: r).
Proof.
  intros (Hne & Ht & Hs). assert (Hi : trimmed item = Some item) by (unfold trimmed; rewrite Ht; by destruct item).
  unfold cookie_items. rewrite split_cons_sep, split_free by done. cbn [omap list_omap]. by rewrite Hi.
Qed.

Lemma cookie_items_space r : cookie_items (" "%char :: r) = cookie_items r.
Proof.
  unfold cookie_items. cbn [split]. change (Ascii.eqb " " ";") with false. cbn iota. destruct (split_cons r ";") as (l & rest & ->).
  cbn [omap list_omap]. change (" "%char :: l) with ([" "%char] ++ l). rewrite trimmed_left; [done|]. apply (bool_decide_unpack _). by vm_compute.
Qed.

(** Joining is undone by cutting. *)
Lemma cookie_items_join l : Forall cookie_item l → cookie_items (join l $"; ") = l.
Proof.
  induction 1 as [|x l Hx Hl IH]; [done|]. destruct l as [|y l].
  - by apply (cookie_items_one x []).
  - change (join (x :: y :: l) $"; ") with (x ++ ";"%char :: " "%char :: join (y :: l) $"; ").
    rewrite (proj2 (cookie_items_one x _ Hx)), cookie_items_space, IH. done.
Qed.

Lemma strip_line_items prefix line :
  flat_map cookie_items (option_list (strip_line prefix line)) = List.filter (λ item, negb (is_access_cookie prefix item)) (cookie_items line).
Proof.
  unfold strip_line. set (kept := List.filter _ _).
  assert (Hok : Forall cookie_item kept).
  { apply Forall_forall. intros x Hx%list_elem_of_In%filter_In. pose proof (cookie_items_ok line) as Hl. rewrite Forall_forall in Hl. by apply Hl, list_elem_of_In, Hx. }
  destruct kept as [|x kept'] eqn:E; [done|]. rewrite <- E in *. cbn. by rewrite app_nil_r, cookie_items_join.
Qed.

Lemma strip_lines_items prefix lines :
  flat_map cookie_items (omap (strip_line prefix) lines) = List.filter (λ item, negb (is_access_cookie prefix item)) (flat_map cookie_items lines).
Proof.
  induction lines as [|line lines IH]; [done|]. cbn [flat_map omap list_omap]. rewrite List.filter_app, <- IH, <- strip_line_items.
  destruct (strip_line prefix line); cbn; [by rewrite app_nil_r|done].
Qed.

(** The cookies a header carries, one item per cookie, in order. *)
Definition carried (h : CORS.headers) : list gostr := flat_map cookie_items (default [] (h !! $"Cookie")).

Lemma filter_all {A} (f : A → bool) l : (∀ x, x ∈ l → f x = true) → List.filter f l = l.
Proof. induction l as [|x l IH]; [done|]. intros Hf. cbn. rewrite Hf by set_solver. rewrite IH; [done|set_solver]. Qed.

(** Of the cookies of a request exactly those whose name starts with the configured prefix, in any case and
    on any of the Cookie lines, are taken out; all others stay, in their order; nothing
    else in the header changes, and a request without such cookies is not touched. *)
Lemma stripAccessCookies_exact h cfg : CookiePrefix cfg ≠ [] →
  let mine := is_access_cookie (to_lower (CookiePrefix cfg)) in
  let (h', changed) := stripAccessCookies h cfg in
  carried h' = List.filter (λ item, negb (mine item)) (carried h) ∧
  (∀ k, k ≠ $"Cookie" → h' !! k = h !! k) ∧ changed = existsb mine (carried h) ∧ (changed = false → h' = h).
Proof.
  intros Hp mine. unfold stripAccessCookies. fold mine. rewrite (bool_decide_false (CookiePrefix cfg = [])) by done. rewrite orb_false_r.
  unfold carried. set (lines := default [] (h !! $"Cookie")).
  assert (Hex : existsb mine (flat_map cookie_items lines) = existsb (λ line, existsb mine (cookie_items line)) lines).
  { induction lines as [|line lines IH]; [done|]. cbn. by rewrite existsb_app, IH. }
  rewrite Hex. destruct (Nat.eqb_spec (length lines) 0) as [El|El].
  { apply nil_length_inv in El. rewrite El. split; [|done]. fold lines. by rewrite El. }
  destruct (existsb (λ line, existsb mine (cookie_items line)) lines) eqn:E; cbn [negb].
  - pose proof (strip_lines_items (to_lower (CookiePrefix cfg)) lines) as Hk. destruct (omap (strip_line _) lines) as [|x kept]; cbv beta iota zeta.
    + split; [|split; [|done]].
      * unfold header_del. change (canonical_key $"Cookie") with ($"Cookie"). by rewrite lookup_delete_eq.
      * intros k Hk'. unfold header_del. change (canonical_key $"Cookie") with ($"Cookie"). by rewrite lookup_delete_ne.
    + split; [by rewrite lookup_insert_eq|]. split; [|done]. intros k Hk'. by rewrite lookup_insert_ne.
  - split; [|done]. symmetry. apply filter_all. intros x Hx. apply negb_true_iff. destruct (mine x) eqn:Em; [|done].
    exfalso. assert (existsb mine (flat_map cookie_items lines) = true) by (apply existsb_elem_of; by exists x). congruence.
Qed.
End cookies.

(** ** Where a visitor can be sent *)

(** Bytes that mean nothing to a header or to the structure of an address. *)
Definition plain_byte (c : ascii) : bool := negb (GoUrl.is_control c) && negb (Ascii.eqb c "\").

Lemma unescaped_facts c mode : shouldEscape c mode = false →
  plain_byte c = true ∧ (mode = encodeHost → one_of c $"/?#@\" = false).
Proof. destruct c as [[] [] [] [] [] [] [] []], mode; vm_compute; done. Qed.

Lemma percent_facts c d : d ∈ percent c → plain_byte d = true ∧ one_of d $"/?#@\" = false.
Proof. destruct c as [[] [] [] [] [] [] [] []]; intros Hd; repeat (apply elem_of_cons in Hd as [->|Hd]; [by vm_compute|]); by apply not_elem_of_nil in Hd. Qed.

Lemma escape_bytes s mode c : c ∈ escape s mode → plain_byte c = true ∧ (mode = encodeHost → one_of c $"/?#@\" = false).
Proof.
  induction s as [|d s IH]; [by intros ?%not_elem_of_nil|]. cbn [escape]. intros [Hc|Hc]%elem_of_app; [|by apply IH].
  destruct (Ascii.eqb d " " && _) eqn:E.
  - apply list_elem_of_singleton in Hc as ->. split; [done|]. intros ->. apply andb_true_iff in E as [_ E]. done.
  - destruct (shouldEscape d mode) eqn:Es; [|by apply list_elem_of_singleton in Hc as ->; apply unescaped_facts].
    apply percent_facts in Hc as [? ?]. done.
Qed.

Lemma escape_nonempty s mode : s ≠ [] → escape s mode ≠ [].
Proof. destruct s as [|c s]; [done|]. intros _. cbn [escape]. destruct (_ && _); [done|]. by destruct (shouldEscape c mode). Qed.

Lemma valid_byte c : one_of c $"!$&'()*+,;=:@[]%" || negb (shouldEscape c encodePath) = true → plain_byte c = true.
Proof. destruct c as [[] [] [] [] [] [] [] []]; vm_compute; done. Qed.

Lemma EscapedPath_bytes u c : c ∈ EscapedPath u → plain_byte c = true.
Proof.
  unfold EscapedPath. destruct (_ && _) eqn:E.
  - apply andb_true_iff in E as [E _]. apply andb_true_iff in E as [_ E]. unfold validEncoded in E. rewrite forallb_forall in E.
    intros Hc%list_elem_of_In. by apply valid_byte, E.
  - destruct (bool_decide (UPath u = $"*")); [by intros ->%list_elem_of_singleton|]. intros Hc. by apply escape_bytes in Hc as [? _].
Qed.

Lemma EscapedPath_nonempty u : UPath u ≠ [] → EscapedPath u ≠ [].
Proof.
  intros Hp. unfold EscapedPath. destruct (_ && _) eqn:E.
  - apply andb_true_iff in E as [E _]. apply andb_true_iff in E as [E _]. by prop_of_bool.
  - destruct (bool_decide (UPath u = $"*")); [done|]. by apply escape_nonempty.
Qed.

Lemma scheme_end_bytes s i n : scheme_end s i = Some (Some n) → (i ≤ n)%nat ∧ forallb (λ c, is_alnum c || one_of c $"+-.") (take (n - i) s) = true.
Proof.
  revert i. induction s as [|c s IH]; intros i; [done|]. cbn [scheme_end].
  destruct (is_alpha_lower c || is_alpha_upper c) eqn:Ea; [|destruct (is_digit c || one_of c $"+-.") eqn:Ed].
  - intros [Hi Hb]%IH. split; [lia|]. replace (n - i)%nat with (S (n - S i)) by lia. cbn [take forallb]. rewrite Hb, andb_true_r. unfold is_alnum. by rewrite Ea.
  - destruct (Nat.eqb_spec i 0); [done|]. intros [Hi Hb]%IH. split; [lia|]. replace (n - i)%nat with (S (n - S i)) by lia. cbn [take forallb]. rewrite Hb, andb_true_r.
    unfold is_alnum. rewrite Ea. done.
  - destruct (Ascii.eqb c ":"); [|done]. destruct (Nat.eqb_spec i 0); [done|]. intros [= <-]. split; [lia|]. by rewrite Nat.sub_diag.
Qed.

Lemma getScheme_parts raw sch rest : getScheme raw = Some (sch, rest) →
  forallb (λ c, is_alnum c || one_of c $"+-.") sch = true ∧ ∃ p, raw = p ++ rest.
Proof.
  unfold getScheme. destruct (scheme_end raw 0) as [[n|]|] eqn:E; [| |done].
  - intros [= <- <-]. apply scheme_end_bytes in E as [_ E]. rewrite Nat.sub_0_r in E. split; [done|]. exists (take (S n) raw). by rewrite take_drop.
  - intros [= <- <-]. split; [done|]. by exists [].
Qed.

Lemma scheme_byte c : is_alnum c || one_of c $"+-." = true → is_ascii_byte (lower_byte c) = true ∧ lower_byte (lower_byte c) = lower_byte c.
Proof. destruct c as [[] [] [] [] [] [] [] []]; vm_compute; done. Qed.

Lemma cut_bytes s c c' : c' ∈ (cut s c).1 ∨ c' ∈ (cut s c).2 → c' ∈ s.
Proof.
  unfold cut, cut_at. destruct (index_byte s c) as [i|]; cbn; [|set_solver]. intros [Hc|Hc].
  - rewrite <- (take_drop i s). set_solver.
  - rewrite <- (take_drop (S i) s). set_solver.
Qed.

Lemma split_query_bytes rest rest' force query c : split_query rest = (rest', force, query) → c ∈ query → c ∈ rest.
Proof.
  unfold split_query. destruct (_ && _); [by intros [= _ _ <-] ?%not_elem_of_nil|].
  destruct (cut rest "?") as [a b] eqn:E. intros [= _ _ <-] Hc. apply (cut_bytes rest "?"). rewrite E. by right.
Qed.

Lemma lowered_scheme `{UnicodeCase} sch : forallb (λ c, is_alnum c || one_of c $"+-.") sch = true → to_lower (map lower_byte sch) = map lower_byte sch.
Proof.
  intros Hs. apply AccessConf.to_lower_fixed. intros c (d & -> & Hd)%list_elem_of_fmap. rewrite forallb_forall in Hs.
  apply scheme_byte, Hs. by apply list_elem_of_In.
Qed.

Lemma parse_host `{UnicodeCase} raw u : parse raw = Some u → UHost u ≠ [] →
  Opaque u = [] ∧ to_lower (Scheme u) = Scheme u ∧ ∀ c, c ∈ RawQuery u → c ∈ raw.
Proof.
  unfold parse. destruct (existsb is_control raw); [done|]. destruct (bool_decide (raw = _)); [by intros [= <-]|].
  destruct (getScheme raw) as [[sch rest]|] eqn:Es; [|done]. rewrite AccessConf.some_bind. cbv beta iota zeta.
  apply getScheme_parts in Es as [Hsch [p ->]]. destruct (split_query rest) as [[rest' force] query] eqn:Eq.
  assert (Hq : ∀ c, c ∈ query → c ∈ p ++ rest) by (intros c Hc; apply elem_of_app; right; by eapply split_query_bytes).
  destruct (_ && _); [by intros [= <-]|]. destruct (_ && _); [done|]. destruct (_ && _).
  - destruct (parseAuthority _) as [[user host]|]; [|done]. rewrite AccessConf.some_bind. cbv beta iota.
    destruct (setPath _) as [[path rawp]|]; [|done]. rewrite AccessConf.some_bind. intros [= <-]. cbn. intros _. split; [done|]. split; [|done].
    by apply lowered_scheme.
  - destruct (setPath _) as [[path rawp]|]; [|done]. rewrite AccessConf.some_bind. by intros [= <-].
Qed.

Lemma Parse_host `{UnicodeCase} raw u : Parse raw = Some u → UHost u ≠ [] →
  Opaque u = [] ∧ to_lower (Scheme u) = Scheme u ∧ ∀ c, c ∈ RawQuery u → c ∈ raw.
Proof.
  unfold Parse. destruct (cut raw "#") as [main frag] eqn:Ec. destruct (parse main) as [v|] eqn:Ep; [|done]. rewrite AccessConf.some_bind.
  assert (Hm : ∀ c, c ∈ main → c ∈ raw) by (intros c Hc; apply (cut_bytes raw "#"); rewrite Ec; by left).
  intros Hu Hh. assert (Hv : UHost v ≠ [] → Opaque v = [] ∧ to_lower (Scheme v) = Scheme v ∧ ∀ c, c ∈ RawQuery v → c ∈ raw).
  { intros Hh'. destruct (parse_host main v Ep Hh') as (? & ? & Hq). split; [done|]. split; [done|]. intros c Hc. by apply Hm, Hq. }
  destruct (bool_decide (frag = [])); [injection Hu as <-; by apply Hv|].
  destruct (unescape frag encodeFragment); [|done]. rewrite AccessConf.some_bind in Hu. injection Hu as <-. by apply Hv.
Qed.

(** What [String] makes of an absolute address without user and fragment. *)
Lemma String_absolute u : Scheme u ≠ [] → Opaque u = [] → User u = None → UHost u ≠ [] → UPath u ≠ [] → Fragment u = [] →
  ∃ path, String_ u = Scheme u ++ $"://" ++ escape (UHost u) encodeHost ++ "/"%char :: path ∧
    ∀ c, c ∈ path → plain_byte c = true ∨ c ∈ RawQuery u.
Proof.
  intros Hs Ho Hu Hh Hp Hf. unfold String_, authority_string. rewrite Ho, Hu, Hf. cbv zeta.
  rewrite (bool_decide_false (Scheme u = [])), (bool_decide_false (UHost u = [])), (bool_decide_true (@None (gostr * option gostr) = None)) by done.
  rewrite andb_false_r. cbn [andb orb negb user_string]. rewrite (bool_decide_false (EscapedPath u = [])) by (by apply EscapedPath_nonempty).
  rewrite (bool_decide_true ([] = [])) by done. destruct (Scheme u) as [|c0 sch] eqn:Es; [done|]. cbn [andb negb].
  rewrite bool_decide_false by done. rewrite andb_false_r. cbn [andb].
  assert (∃ path, (if negb (has_prefix (EscapedPath u) $"/") && true then $"/" else []) ++ EscapedPath u = "/"%char :: path ∧ ∀ c, c ∈ path → c ∈ EscapedPath u) as (path & Epath & Hpath).
  { destruct (has_prefix (EscapedPath u) $"/") eqn:E; cbn [negb andb].
    - destruct (EscapedPath u) as [|d path]; [done|]. assert (d = "/"%char) as ->.
      { cbn [has_prefix] in E. apply andb_true_iff in E as [E _]. by apply Ascii.eqb_eq in E. }
      exists path. split; [done|]. by right.
    - by exists (EscapedPath u). }
  exists (path ++ query_string u). split.
  - rewrite app_nil_r, app_nil_l. change ($"://") with ($":" ++ $"//"). rewrite <- !app_assoc. do 3 f_equal.
    rewrite app_nil_l, (app_assoc _ (EscapedPath u)), Epath. done.
  - intros c [Hc|Hc]%elem_of_app; [left; by eapply EscapedPath_bytes, Hpath|]. unfold query_string in Hc.
    destruct (_ || _); [|by apply not_elem_of_nil in Hc]. apply elem_of_cons in Hc as [->|Hc]; [by left|by right].
Qed.

(** C20: no open redirect.  Whatever is in the ticket or the signed request, an address
    the gate sends a visitor back to is an http or https address whose authority is the
    host bound to the ticket, a host this server serves: what follows the scheme is the
    escaped host, in which nothing can end or extend the authority, and then a slash.
    The address holds no control byte (so it cannot split the header) and no backslash. *)
Theorem validateReturnTo_safe `{UnicodeCase} {D} (e : Routing.engine D) raw expectHost s :
  validateReturnTo e raw expectHost = Some s →
  ∃ scheme host rest, s = scheme ++ $"://" ++ escape host encodeHost ++ "/"%char :: rest ∧
    (scheme = $"http" ∨ scheme = $"https") ∧ equal_fold host expectHost = true ∧ Routing.isManagedHost e host = true ∧
    (∀ c, c ∈ escape host encodeHost → one_of c $"/?#@\" = false) ∧
    ∀ c, c ∈ s → plain_byte c = true.
Proof.
  unfold validateReturnTo. destruct (_ || _); [done|]. destruct (_ <? _)%nat; [done|].
  destruct (contains_any raw _) eqn:Eb; [done|]. destruct (existsb _ raw) eqn:Ec; [done|].
  destruct (Parse raw) as [u|] eqn:Ep; [|done]. rewrite AccessConf.some_bind. cbv zeta.
  destruct (negb _) eqn:Es; [done|]. destruct (bool_decide (UHost u = [])) eqn:Hh; [done|]. apply bool_decide_eq_false in Hh. destruct (negb (bool_decide (User u = None))) eqn:Eu; [done|].
  destruct (_ && _); [done|]. destruct (negb (equal_fold _ _)) eqn:Ef; [done|]. destruct (negb (Routing.isManagedHost _ _)) eqn:Em; [done|].
  apply negb_false_iff in Es, Eu, Ef, Em. apply bool_decide_eq_true in Eu. intros [= <-].
  destruct (Parse_host raw u Ep Hh) as (Ho & Hl & Hq). rewrite Hl in Es.
  set (v := if bool_decide _ then _ else _).
  assert (Hv : Scheme v = Scheme u ∧ Opaque v = [] ∧ User v = None ∧ UHost v = UHost u ∧ UPath v ≠ [] ∧ Fragment v = [] ∧ RawQuery v = RawQuery u).
  { unfold v. change (UPath (drop_fragment u)) with (UPath u). destruct (bool_decide (UPath u = [])) eqn:E; [cbn; split_and!; done|]. apply bool_decide_eq_false in E. cbn; split_and!; done. }
  destruct Hv as (Hsv & Hov & Huv & Hhv & Hpv & Hfv & Hqv).
  assert (Hscheme : Scheme u = $"http" ∨ Scheme u = $"https") by (apply orb_true_iff in Es as [E0|E0]; apply bool_decide_eq_true in E0; auto).
  destruct (String_absolute v) as (path & E & Hpath); [rewrite Hsv; by destruct Hscheme as [-> | ->]|done|done|by rewrite Hhv|done|done|].
  exists (Scheme u), (UHost u), path. rewrite E, Hsv, Hhv. split; [done|]. split; [done|]. split; [exact Ef|]. split; [exact Em|].
  split. { intros c Hc. by apply (escape_bytes _ encodeHost c) in Hc as [_ Hc]; apply Hc. }
  change (existsb GoUrl.is_control raw = false) in Ec.
  assert (Hraw : ∀ c, c ∈ raw → plain_byte c = true).
  { intros c Hc. unfold plain_byte. apply andb_true_iff. split; apply negb_true_iff.
    - destruct (GoUrl.is_control c) eqn:E0; [|done]. assert (existsb GoUrl.is_control raw = true) by (apply existsb_elem_of; by exists c). congruence.
    - destruct (Ascii.eqb_spec c "\"); [|done]. subst c. exfalso. revert Eb. apply not_false_iff_true.
      unfold contains_any. apply existsb_elem_of. exists "\"%char. split; [done|]. done. }
  intros c [Hc|[Hc|[Hc|Hc]%elem_of_app]%elem_of_app]%elem_of_app.
  - destruct Hscheme as [E0|E0]; rewrite E0 in Hc; repeat (apply elem_of_cons in Hc as [->|Hc]; [done|]); by apply not_elem_of_nil in Hc.
  - repeat (apply elem_of_cons in Hc as [->|Hc]; [done|]); by apply not_elem_of_nil in Hc.
  - by apply escape_bytes in Hc as [? _].
  - apply elem_of_cons in Hc as [->|Hc]; [done|]. apply Hpath in Hc as [Hc|Hc]; [done|]. rewrite Hqv in Hc. by apply Hraw, Hq.
Qed.

(** ** What the gate does to the state *)

Section gate.
Context `{UnicodeCase} `{Outside} `{AuthReq.PayloadJSON} {D : Type}.

Section keeps.
Variable P : Z.
Hypothesis P_day : P ≤ 24 * hour.
Variable R : gostr → Prop.
Variable now : Z.
Variable e : Routing.engine D.
Variable stored : gostr → option gostr.
Variable rnd : fresh.
Variable r : incoming.
Variable hostTarget : target.
Variable cfg : Config.
Variable clientIP : gostr.
Hypothesis cache_short : CachePositiveTTL cfg ≤ P.
(** A new session does not get a code of [R]. *)
Hypothesis new_code : ∀ plain, genAccessSecret (f_rand rnd) = Ok plain → ¬ R (HashAccessCode sha256 plain).

Abbreviation I := (AccessFacts.Inv P R now).

Lemma audit_keeps entry : keeps I (write_audit entry).
Proof. intros st []. by split. Qed.

Lemma gets_keeps {A} (f : store → A) : keeps I (gets f).
Proof. apply kp_gets. Qed.

Lemma GetInt_keeps key : keeps I (GetInt now key).
Proof. apply kp_bind; [by apply (cache_get_keeps sha256 lookupLocation)|]. intros v. destruct v as [[]|]; apply kp_ret. Qed.

Ltac keep1 :=
  first
    [ exact sha256 | exact lookupLocation | apply kp_ret | apply audit_keeps | apply gets_keeps | apply GetInt_keeps
    | apply cache_get_keeps | apply cache_exists_keeps | apply cache_remove_keeps
    | (apply cache_set_plain_keeps; exact Logic.I) | apply on_tickets_keeps | apply on_accounts_keeps
    | (apply kp_bind; [|intros ?]) | (apply keeps_for_each; intros ?)
    | match goal with |- keeps _ (match ?x with _ => _ end) => destruct x end
    | progress cbv zeta ].
Ltac keep := repeat keep1.

Lemma accessCheckLock_keeps ip name : keeps I (accessCheckLock now ip name).
Proof. unfold accessCheckLock. keep. Qed.
Lemma record_key_keeps key n : keeps I (record_key now cfg key n).
Proof. unfold record_key. keep. Qed.
Lemma record_keys_keeps keys n : keeps I (record_keys now cfg keys n).
Proof. revert n. induction keys as [|k keys IH]; intros n; cbn [record_keys]; [apply kp_ret|]. apply kp_bind; [apply record_key_keeps|]. intros m. apply IH. Qed.
Lemma accessRecordFail_keeps ip name : keeps I (accessRecordFail now ip name cfg).
Proof. unfold accessRecordFail. apply kp_bind; [apply record_keys_keeps|]. intros. apply kp_ret. Qed.
Lemma accessRecordOtpFail_keeps id : keeps I (accessRecordOtpFail now id cfg).
Proof. unfold accessRecordOtpFail. keep. Qed.
Lemma accessClearFail_keeps ip name : keeps I (accessClearFail ip name).
Proof. unfold accessClearFail. keep. Qed.

Lemma VerifyCredential_keeps name pw : keeps I (VerifyCredential BcryptVerify now name pw).
Proof. unfold VerifyCredential, find_account. keep. Qed.
Lemma CheckStillUsable_keeps id : keeps I (CheckStillUsable now id).
Proof. unfold CheckStillUsable, find_account. keep. Qed.
Lemma GetDetailApi_keeps id : keeps I (GetDetailApi id).
Proof. unfold GetDetailApi, mustLoad, find_account. keep. Qed.

(** The operations of the session service. *)
Lemma CreateSession_keeps' acct scope host ip fp ua :
  keeps I (CreateSession sha256 lookupLocation now (f_id rnd) (f_rand rnd) acct scope host ip fp ua cfg).
Proof. by apply CreateSession_keeps. Qed.
Lemma RevokeSession_keeps' code reason : keeps I (RevokeSession now code reason).
Proof. apply (RevokeSession_keeps sha256 lookupLocation). Qed.
Lemma RevokeToken_keeps' plain : keeps I (RevokeToken sha256 now plain).
Proof. apply (RevokeToken_keeps sha256 lookupLocation). Qed.
Lemma ValidateToken_keeps' plain host code ip fp : keeps I (ValidateToken sha256 zone now plain host code ip fp cfg).
Proof. intros st Hst. by apply (ValidateToken_spec sha256 lookupLocation). Qed.
Lemma ValidateSSOSession_keeps' plain host ip fp : keeps I (ValidateSSOSession sha256 zone now plain host ip fp cfg).
Proof. intros st Hst. by apply (ValidateSSOSession_spec sha256 lookupLocation). Qed.
Lemma IssueToken_keeps' rand sess host code ip fp : keeps I (IssueToken sha256 now rand sess host code ip fp cfg).
Proof. by apply IssueToken_keeps. Qed.

Ltac keep_gate1 :=
  first
    [ apply accessCheckLock_keeps | apply accessRecordFail_keeps | apply accessRecordOtpFail_keeps | apply accessClearFail_keeps
    | apply VerifyCredential_keeps | apply CheckStillUsable_keeps | apply GetDetailApi_keeps
    | apply CreateSession_keeps' | apply RevokeSession_keeps' | apply RevokeToken_keeps' | apply ValidateToken_keeps'
    | apply ValidateSSOSession_keeps' | apply IssueToken_keeps' | apply IssueTicket_keeps | apply ConsumeTicket_keeps
    | keep1 ].
Ltac keep_gate := repeat keep_gate1.

Lemma accessFinishLogin_keeps acct rq : keeps I (accessFinishLogin now rnd r hostTarget cfg clientIP acct rq).
Proof. unfold accessFinishLogin, MarkLogin. keep_gate. Qed.

Ltac keep_login := repeat first [apply accessFinishLogin_keeps | keep_gate1].

Lemma accessHandleValidate_keeps hostCfg : keeps I (accessHandleValidate now e stored rnd r hostTarget cfg clientIP hostCfg).
Proof. unfold accessHandleValidate. keep_login. Qed.
Lemma accessHandleOtp_keeps : keeps I (accessHandleOtp now rnd r hostTarget cfg clientIP).
Proof. unfold accessHandleOtp, code_accepted, code_refused. keep_login. Qed.
Lemma accessHandleLogout_keeps : keeps I (accessHandleLogout now r hostTarget cfg clientIP).
Proof. unfold accessHandleLogout, logout_session, LoadSessionByCode. keep_gate. Qed.
Lemma accessHandleStatus_keeps : keeps I (accessHandleStatus now r hostTarget cfg clientIP).
Proof. unfold accessHandleStatus. keep_gate. Qed.

Lemma accessAuthorizeForHost_keeps sess host code : keeps I (accessAuthorizeForHost now e clientIP sess host code).
Proof. unfold accessAuthorizeForHost. keep_gate. Qed.
Lemma accessHandleAuthorize_keeps : keeps I (accessHandleAuthorize now e rnd r cfg clientIP).
Proof.
  unfold accessHandleAuthorize, issue_ticket, accessCurrentSSOSession.
  repeat first [apply accessAuthorizeForHost_keeps | keep_gate1].
Qed.
Lemma accessHandleCallback_keeps : keeps I (accessHandleCallback now e rnd r hostTarget cfg clientIP).
Proof.
  unfold accessHandleCallback, redeem, accessIssueTokenCookie, LoadSessionByCode.
  repeat first [apply accessAuthorizeForHost_keeps | keep_gate1].
Qed.

Lemma handleAccessRequest_keeps hostCfg : keeps I (handleAccessRequest now e stored rnd r hostTarget cfg clientIP hostCfg).
Proof.
  unfold handleAccessRequest. cbv zeta.
  repeat first [apply accessHandleValidate_keeps | apply accessHandleOtp_keeps | apply accessHandleLogout_keeps | apply accessHandleStatus_keeps
    | apply accessHandleAuthorize_keeps | apply accessHandleCallback_keeps | keep1].
Qed.

Lemma check_token_keeps hostCfg cookie nhost : keeps I (check_token now rnd r hostTarget cfg clientIP hostCfg cookie nhost).
Proof. unfold check_token, unauthenticated. keep_gate. Qed.
End keeps.

(** ** Requests as steps *)

(** Everything that changes the state: a request, an operation of the session service
    (the sweeps, the administrator), a change of the account table. *)
Inductive event :=
| EvGate (e : Routing.engine D) (stored : gostr → option gostr) (rnd : fresh) (groups : Groups.state) (sets : gmap Z MatchSet)
    (acme_path : gostr) (r : incoming) (hostTarget : target) (cfg : Config) (clientIP : gostr)
| EvOp (o : AccessFacts.op)
| EvAccounts (f : list Account.AccessAccount → list Account.AccessAccount).

Definition exec_event (now : Z) (ev : event) (st : store) : store :=
  match ev with
  | EvGate e stored rnd groups sets acme_path r t cfg ip => (DoAccessGate now e stored rnd groups sets acme_path r t cfg ip st).1
  | EvOp o => AccessFacts.exec sha256 lookupLocation zone now o st
  | EvAccounts f => (on_accounts f st).1
  end.

Section runs.
Variable P : Z.
Hypothesis P_day : P ≤ 24 * hour.

(** The caching time is within the bound; a new session does not get a code of [R]. *)
Definition allowed_event (R : gostr → Prop) (ev : event) : Prop :=
  match ev with
  | EvGate _ _ rnd _ _ _ _ _ cfg _ => CachePositiveTTL cfg ≤ P ∧ ∀ plain, genAccessSecret (f_rand rnd) = Ok plain → ¬ R (HashAccessCode sha256 plain)
  | EvOp o => AccessFacts.allowed sha256 P R nothing o
  | EvAccounts _ => True
  end.

(** Any sequence of events, the clock never going back. *)
Inductive runs (R : gostr → Prop) : Z → store → Z → store → Prop :=
| runs_refl now st : runs R now st now st
| runs_step now st t u st' ev : runs R now st t st' → t ≤ u → allowed_event R ev → runs R now st u (exec_event u ev st').

Definition live (now : Z) (st : store) : Prop := ∃ t accts, runs nothing t (empty accts) now st.

Lemma DoAccessGate_keeps R now (e : Routing.engine D) stored rnd groups sets acme_path r t cfg ip :
  CachePositiveTTL cfg ≤ P → (∀ plain, genAccessSecret (f_rand rnd) = Ok plain → ¬ R (HashAccessCode sha256 plain)) →
  keeps (AccessFacts.Inv P R now) (DoAccessGate now e stored rnd groups sets acme_path r t cfg ip).
Proof.
  intros HP HR. unfold DoAccessGate. cbv zeta. destruct (ForceDisable cfg); [apply kp_ret|].
  destruct (own_page _ _); [apply kp_bind; [by apply handleAccessRequest_keeps|intros; apply kp_ret]|].
  destruct (bypassed _ _ _ _ _ _ _); [apply kp_ret|]. destruct (preflight _ _ _); [apply kp_ret|]. by apply check_token_keeps.
Qed.

Lemma Inv_event R now ev st : allowed_event R ev → AccessFacts.Inv P R now st → AccessFacts.Inv P R now (exec_event now ev st).
Proof.
  destruct ev; cbn [allowed_event exec_event]; intros Ha HI.
  - destruct Ha. by apply DoAccessGate_keeps.
  - by eapply AccessFacts.Inv_exec.
  - by apply on_accounts_keeps.
Qed.

Lemma Inv_runs R now st t st' : runs R now st t st' → AccessFacts.Inv P R now st → AccessFacts.Inv P R t st'.
Proof.
  induction 1 as [|now st t u st' ev _ IH Ht Ha]; [done|]. intros HI. apply Inv_event; [done|].
  eapply Inv_later; [done|]. by apply IH.
Qed.

Lemma Inv_live now st : live now st → AccessFacts.Inv P nothing now st.
Proof. intros (t & accts & Hr). eapply Inv_runs; [done|]. by apply Inv_empty. Qed.
End runs.
End gate.
End FlowFacts.
