(* ===== verification/GateFacts.v ===== *)
(** * Who passes the access gate, and with what

    The theorems about [DoAccessGate] as a whole: the reasons for which a request passes,
    what the backend is given, and that the gate's pages can be reached. *)
From S2P Require Import Prelude.
From S2P Require Import GoLib.
From S2P Require Import GoHttp.
From S2P Require Import GoUrl.
From S2P Require Import Lines.
From S2P Require Import WafCache.
From S2P Require Import MatchSet.
From S2P Require Import Groups.
From S2P Require Import PathMatch.
From S2P Require Import AccessGate.
From S2P Require Import AccessStore.
From S2P Require Import AccessFacts.
From S2P Require Import AuthReq.
From S2P Require Import HostListen.
From S2P Require Import Routing.
From S2P Require Import AccessConf.
From S2P Require Import AccessAccount.
From S2P Require Import AccessLogin.
From S2P Require Import AccessFlow.
From S2P Require Import AccessFlowFacts.
Local Open Scope Z_scope.
Local Open Scope bool_scope.

Module GateFacts.
Import Mode AccessStore AccessFacts AccessAccount Login Flow FlowFacts.

Section gate.
Context `{UnicodeCase} `{Outside} `{AuthReq.PayloadJSON} {D : Type}.

(** The request the gate works with: without the identity headers the client sent, then
    without the gate's cookies. *)
Definition unforged (r : incoming) : CORS.headers := header_del (header_del (r_header (req r)) identity_user) identity_session.
Definition stripped (r : incoming) (cfg : Config) : incoming := with_header (with_header r (unforged r)) (stripAccessCookies (unforged r) cfg).1.
(** The cookie of this site. *)
Definition site_cookie (r : incoming) (cfg : Config) : gostr :=
  accessCookieValue (with_header r (unforged r)) (accessTokenCookieName cfg r).

Definition site_config (t : target) : AccessConf.HostAccessConfig := AccessConf.ParseAccessConfig decode_access (t_AccessJSON t).

Section request.
Variable now : Z.
Variable e : Routing.engine D.
Variable stored : gostr → option gostr.
Variable rnd : fresh.
Variable groups : Groups.state.
Variable sets : gmap Z MatchSet.
Variable acme_path : gostr.
Variable r : incoming.
Variable t : target.
Variable cfg : Config.
Variable ip : gostr.

Abbreviation gate := (DoAccessGate now e stored rnd groups sets acme_path r t cfg ip).
Abbreviation validated := (ValidateToken sha256 zone now (site_cookie r cfg) (accessNormalizedHost r) (t_Code t) ip (GenerateFingerprint (stripped r cfg)) cfg).

(** The reasons to pass without a sign-in. *)
Inductive exempt : Prop :=
| ExSelfRescue : ForceDisable cfg = true → exempt
| ExOff : IsAccessEnabled (AccessConf.Mode (site_config t)) (GlobalEnable cfg) = false → exempt
| ExNoCenter : IsCenterMode cfg = false → exempt
| ExChallenge : contains (UPath (url r)) $".." = false → has_prefix (clean_path r) (to_lower acme_path) = true → exempt
| ExPath p : p ∈ GlobalExcludePaths cfg ++ PathMatch.BuildExcludePaths (AccessConf.ExcludePaths (site_config t)) →
    p ≠ [] → PathMatch.prefix_entry (clean_path r) p = true → exempt
| ExGroup code : code = trim_space (AccessConf.AllowIPGroupCode (site_config t)) ∨ code = trim_space (BypassIPGroupCode cfg) → code ≠ [] →
    in_group groups sets ip code = true → exempt
| ExService want : ServiceTokenHeader cfg ≠ [] → want ∈ ServiceTokenHashes cfg →
    to_lower want = Hosts.EncodeToString (sha256 (trim_space (header (stripped r cfg) (ServiceTokenHeader cfg)))) → exempt.

Lemma MatchPathPrefix_entry p l : PathMatch.MatchPathPrefix p l = true → ∃ q, q ∈ l ∧ q ≠ [] ∧ PathMatch.prefix_entry p q = true.
Proof.
  unfold PathMatch.MatchPathPrefix. intros (q & Hq & E)%existsb_elem_of. destruct q as [|c q]; [done|]. by exists (c :: q).
Qed.

Lemma firstNonEmpty_in l : firstNonEmpty l ≠ [] → firstNonEmpty l ∈ map trim_space l.
Proof.
  induction l as [|v l IH]; [done|]. cbn [firstNonEmpty map]. destruct (trim_space v) as [|c t'] eqn:E; [intros; right; by apply IH|]. intros _. left.
Qed.

Lemma bypassed_exempt : bypassed groups sets acme_path (stripped r cfg) cfg ip (site_config t) = true → exempt.
Proof.
  unfold bypassed. destruct (IsAccessEnabled _ _) eqn:E1; [cbn [negb]|intros _; by apply ExOff].
  destruct (IsCenterMode cfg) eqn:E2; [cbn [negb]|intros _; by apply ExNoCenter].
  destruct (isACMEChallengePath _ _ _) eqn:E3.
  { intros _. unfold isACMEChallengePath in E3. destruct (contains _ _) eqn:E4; [done|]. by apply ExChallenge. }
  destruct (_ || _) eqn:E4.
  { intros _. assert (∃ q, q ∈ GlobalExcludePaths cfg ++ PathMatch.BuildExcludePaths (AccessConf.ExcludePaths (site_config t)) ∧ q ≠ [] ∧
      PathMatch.prefix_entry (clean_path r) q = true) as (q & Hq & Hne & Hp).
    { apply orb_true_iff in E4 as [(q & Hq & ?)%MatchPathPrefix_entry|(q & Hq & ?)%MatchPathPrefix_entry]; exists q; (split; [|done]); set_solver. }
    by apply (ExPath q). }
  destruct (negb (bool_decide _) && _) eqn:E5.
  { intros _. apply andb_true_iff in E5 as [E5 E6]. apply negb_true_iff, bool_decide_eq_false in E5.
    apply (ExGroup (firstNonEmpty [AccessConf.AllowIPGroupCode (site_config t); BypassIPGroupCode cfg])); [|done|done].
    apply firstNonEmpty_in in E5. cbn [map] in E5. set_solver. }
  unfold matchAccessServiceToken. destruct (bool_decide (ServiceTokenHeader cfg = [])) eqn:E6; [done|]. destruct (_ =? 0)%nat; [done|].
  apply bool_decide_eq_false in E6. cbn [orb]. destruct (trim_space (header (stripped r cfg) (ServiceTokenHeader cfg))) as [|c v] eqn:E7; [done|].
  intros (want & Hw & E8)%existsb_elem_of. apply bool_decide_eq_true in E8. apply (ExService want); [done|done|by rewrite E7].
Qed.

(** The outcome, unfolded. *)
Lemma gate_pass st h : (gate st).2 = Pass h →
  (ForceDisable cfg = true ∧ h = unforged r) ∨
  (ForceDisable cfg = false ∧ exempt ∧ h = r_header (req (stripped r cfg))) ∨
  (ForceDisable cfg = false ∧ ∃ s, site_cookie r cfg ≠ [] ∧ (validated st).2 = Some s ∧ h = identified cfg s (r_header (req (stripped r cfg)))).
Proof.
  unfold DoAccessGate. cbv zeta. fold (unforged r) (site_config t). change (with_header (with_header r (unforged r)) (stripAccessCookies (unforged r) cfg).1) with (stripped r cfg).
  change (accessNormalizedHost (with_header r (unforged r))) with (accessNormalizedHost r).
  change (accessCookieValue (with_header r (unforged r)) _) with (site_cookie r cfg).
  destruct (ForceDisable cfg); [intros [= <-]; by left|]. intros Hg. right.
  destruct (own_page _ _). { unfold mbind, M_bind in Hg. by destruct (handleAccessRequest now e _ _ _ _ _ _ _ st). }
  destruct (bypassed _ _ _ _ _ _ _) eqn:E2.
  { left. split; [done|]. split; [by eapply bypassed_exempt|]. by injection Hg. }
  right. split; [done|]. destruct (preflight _ _ _); [done|]. unfold check_token, mbind, M_bind in Hg.
  destruct (site_cookie r cfg) as [|c v]; [unfold mret, M_ret, unauthenticated, mbind, M_bind in Hg; by destruct (write_audit _ st)|].
  destruct (ValidateToken _ _ _ _ _ _ _ _ _ st) as [st' [s|]]; [|unfold unauthenticated, mbind, M_bind in Hg; by destruct (write_audit _ st')].
  injection Hg as <-. by exists s.
Qed.

(** C2: nobody passes without a reason.  In every state the server can reach - any requests,
    any operations of the services and the administrator, in any order - a request that
    is let through either meets one of the seven listed exemptions, or the browser sent
    this site's cookie and its digest is that of a token row made out to this site
    record and this host (and, when so configured, to this address and device), not
    expired, and valid or revoked no longer than the caching time ago. *)
Theorem gate_pass_justified P earlier st h :
  P ≤ 24 * hour → live (D := D) P earlier st → earlier ≤ now → CachePositiveTTL cfg ≤ P →
  (gate st).2 = Pass h →
  exempt ∨
  ∃ plain row, Cookie r (accessTokenCookieName cfg r) = Some plain ∧ row ∈ tokens st ∧
    Token.TokenCode row = HashAccessCode sha256 plain ∧ Token.HostCode row = t_Code t ∧ t_Code t ≠ [] ∧
    equal_fold (Token.Host row) (accessNormalizedHost r) = true ∧
    (BindIP cfg = true → Token.ClientIP row = [] ∨ Token.ClientIP row = ip) ∧
    (BindFingerprint cfg = true → Token.Fingerprint row = [] ∨ Token.Fingerprint row = GenerateFingerprint (stripped r cfg)) ∧
    now ≤ Token.ExpireTime row ∧ (Token.Status row = AccessStatusValid ∨ now - Token.UPDATE_TIME row ≤ P).
Proof.
  intros HP Hlive Hle Hc Hg. apply gate_pass in Hg as [[Hf _]|[(_ & Hx & _)|(_ & s & Hne & Hv & _)]]; [left; by apply ExSelfRescue|by left|right].
  destruct (ValidateToken_spec sha256 lookupLocation zone P nothing now (site_cookie r cfg) (accessNormalizedHost r) (t_Code t) ip
    (GenerateFingerprint (stripped r cfg)) cfg st Hc) as [_ Ha].
  { eapply Inv_later; [done|]. by eapply Inv_live. }
  destruct (Ha s Hv) as (row & [Hin Hcode _ _ [Hhc Hhne] Hhost Hip Hfp Hexp Hrec]). exists (site_cookie r cfg), row.
  split; [|by repeat split].
  unfold site_cookie, accessCookieValue in *. destruct (accessTokenCookieName cfg r) as [|c n] eqn:En; [done|]. rewrite <- En in *.
  assert (Hck : Cookie (with_header r (unforged r)) (accessTokenCookieName cfg r) = Cookie r (accessTokenCookieName cfg r)).
  { unfold Cookie, header_values, unforged, header_del. cbn [req with_header r_header]. by rewrite !lookup_delete_ne. }
  rewrite Hck in *. by destruct (Cookie r _) as [v|].
Qed.

Lemma unforged_lookup k : k ≠ canonical_key identity_user → k ≠ canonical_key identity_session → unforged r !! k = r_header (req r) !! k.
Proof. intros Hu Hs. unfold unforged, header_del. by rewrite !lookup_delete_ne. Qed.

(** C6: the backend can trust what it reads.  Of the header of a request that passes, the
    identity of the visitor is the account and session of the accepted token, or it is
    absent: what the client sent under those names never arrives.  Of its cookies all
    and only the gate's are missing, in the order sent, unless the gate is switched off
    by hand; every other field is as the client sent it. *)
Theorem backend_view st h :
  (gate st).2 = Pass h →
  ((h !! canonical_key identity_user = None ∧ h !! canonical_key identity_session = None) ∨
   (PassIdentityHeader cfg = true ∧ ∃ s, (validated st).2 = Some s ∧
      h !! canonical_key identity_user = Some [State.AccountName s] ∧ h !! canonical_key identity_session = Some [State.SessionCode s])) ∧
  (∀ k, k ≠ canonical_key identity_user → k ≠ canonical_key identity_session → k ≠ $"Cookie" → h !! k = r_header (req r) !! k) ∧
  (ForceDisable cfg = false → CookiePrefix cfg ≠ [] →
     carried h = List.filter (λ item, negb (is_access_cookie (to_lower (CookiePrefix cfg)) item)) (carried (r_header (req r)))).
Proof.
  intros Hg.
  assert (Hcar : carried (unforged r) = carried (r_header (req r))) by (unfold carried; by rewrite unforged_lookup).
  assert (Hstrip : ∀ k, k ≠ $"Cookie" → (stripAccessCookies (unforged r) cfg).1 !! k = unforged r !! k).
  { intros k Hk. destruct (decide (CookiePrefix cfg = [])) as [E|E].
    - unfold stripAccessCookies. by rewrite (bool_decide_true (CookiePrefix cfg = [])), orb_true_r by done.
    - pose proof (stripAccessCookies_exact (unforged r) cfg E) as Hx. destruct (stripAccessCookies _ _). by apply Hx. }
  assert (Hcut : CookiePrefix cfg ≠ [] → carried (stripAccessCookies (unforged r) cfg).1 =
    List.filter (λ item, negb (is_access_cookie (to_lower (CookiePrefix cfg)) item)) (carried (r_header (req r)))).
  { intros E. pose proof (stripAccessCookies_exact (unforged r) cfg E) as Hx. destruct (stripAccessCookies _ _). rewrite <- Hcar. apply Hx. }
  assert (Hgone : unforged r !! canonical_key identity_user = None ∧ unforged r !! canonical_key identity_session = None).
  { unfold unforged, header_del. split; [rewrite lookup_delete_ne by done|]; by rewrite lookup_delete_eq. }
  apply gate_pass in Hg as [[Hf ->]|[(Hf & _ & ->)|(Hf & s & _ & Hv & ->)]].
  - split; [by left|]. split; [intros; by apply unforged_lookup|congruence].
  - cbn [stripped req with_header r_header]. split; [left; by rewrite !Hstrip|]. split; [intros; rewrite Hstrip by done; by apply unforged_lookup|done].
  - unfold identified. cbn [stripped req with_header r_header]. destruct (PassIdentityHeader cfg) eqn:Ep.
    + unfold header_set. split; [|split].
      * right. split; [done|]. exists s. split; [done|]. split; [rewrite lookup_insert_ne by done|]; by rewrite lookup_insert_eq.
      * intros k Hu Hs Hc. rewrite !lookup_insert_ne by done. rewrite Hstrip by done. by apply unforged_lookup.
      * intros _ Hc. rewrite <- Hcut by done. unfold carried. by rewrite !lookup_insert_ne.
    + split; [left; by rewrite !Hstrip|]. split; [intros; rewrite Hstrip by done; by apply unforged_lookup|done].
Qed.
End request.
End gate.
End GateFacts.
