(* ===== verification/AccessScenario.v ===== *)
(** * A sign-in through the gate, computed

    A central site [sso.x] and a site [app.x], an account with a one-time code, and the
    requests of one sign-in: the refused first request, the password, the code, the
    ticket, the callback, and the request that passes.  Outside code is instantiated by
    simple functions.  The run is also the concrete instance on which the theorems of
    [LoginFacts], [FlowFacts] and [GateFacts] are applied. *)
From S2P Require Import Prelude.
From S2P Require Import GoLib.
From S2P Require Import GoHttp.
From S2P Require Import GoUrl.
From S2P Require Import WafCache.
From S2P Require Import PathMatch.
From S2P Require Import AccessGate.
From S2P Require Import AccessStore.
From S2P Require Import AccessFacts.
From S2P Require Import AuthReq.
From S2P Require Import HostListen.
From S2P Require Import Routing.
From S2P Require Import AccessConf.
From S2P Require Import AccessAccount.
From S2P Require Import AccessLogin.
From S2P Require Import LoginFacts.
From S2P Require Import AccessFlow.
From S2P Require Import AccessFlowFacts.
From S2P Require Import GateFacts.
Local Open Scope Z_scope.
Local Open Scope bool_scope.

Module Scenario.
Import Mode AccessStore AccessAccount Login Flow FlowFacts GateFacts.

(** ** The outside world *)

#[local] Instance plain_case : UnicodeCase := {| unicode_to_lower s := s |}.
#[local] Instance plain_json : AuthReq.PayloadJSON := {|
  AuthReq.marshal p := $"{" ++ AuthReq.R p ++ chr 10 :: AuthReq.H p;
  AuthReq.unmarshal s := match s with _ :: s' => let (a, b) := cut s' (chr 10) in Some (AuthReq.mkReq a b 0 []) | [] => None end |}.
#[local] Instance plain_outside : Outside := {|
  sha256 s := s; md5 s := s; hmac k m := k ++ m; BcryptVerify h p := bool_decide (h = p); ValidateOtpCode _ c s := bool_decide (c = s);
  DataDecrypt s := Some s; lookupLocation _ := ([], []); zone := 28800; decode_access _ := None |}.

(** ** Sites, configuration, account *)

Definition sso_site : HostListen.Hosts := Routing.demo_host $"S" $"sso.x" 443 1 0 0 [].
Definition app_site : HostListen.Hosts := Routing.demo_host $"A" $"app.x" 443 1 0 0 [].
Definition sites : Routing.engine unit :=
  Routing.LoadHost Routing.no_items (Routing.LoadHost Routing.no_items Routing.empty_engine sso_site () 0%nat) app_site () 0%nat.
Definition sso_target : target := mkTarget $"S" 0 [].
Definition app_target : target := mkTarget $"A" 0 [].
Definition cfg : Config :=
  mkConfig false true $"https://sso.x" $"sso.x" $"/samwaf_access" $"ac_sso" $"ac" $"k"
    (12 * hour) (12 * hour) (60 * second) 0 true true false 10 (3 * minute) [] [] [] [] (CORS.mkPolicy [] [] [] 0) $"auto" true false (60 * second).
Definition ann : Account.AccessAccount :=
  Account.mk $"a1" $"ann" $"pw" 1 $"123456" 1 1 $"A" zero_time zero_time [] [] zero_time [] 0.

(** ** Requests *)

Definition page (host path : gostr) (q : list (gostr * gostr)) (cookie : list gostr) : incoming :=
  mkIn (mkRequest path [] $"GET" host true
          {[ $"Cookie" := cookie; $"Accept" := [$"text/html"]; $"X-Samwaf-Access-User" := [$"root"] ]} []
          (list_to_map (map (λ kv, (kv.1, [kv.2])) q)))
       (mkURL [] [] None [] path [] false false [] [] []) None None.
Definition post (host path : gostr) (l : option accessLoginReq) (o : option accessOtpReq) : incoming :=
  mkIn (mkRequest path [] $"POST" host true ∅ [] ∅) (mkURL [] [] None [] path [] false false [] [] []) l o.
Definition drawn (s : gostr) : fresh := mkFresh (s ++ $"u") (s ++ $"i") (Some s) $"n".

Definition at_gate (rnd r : _) (t : target) : event :=
  EvGate (D := unit) sites (λ _, None) (drawn rnd) None ∅ $"/.well-known/acme-challenge/" r t cfg $"1.1.1.1".
Definition gate (now : Z) (rnd : gostr) (r : incoming) (t : target) : M outcome :=
  DoAccessGate now sites (λ _, None) (drawn rnd) None ∅ $"/.well-known/acme-challenge/" r t cfg $"1.1.1.1".

Definition request_blob : gostr :=
  AuthReq.signAuthReq hmac (HmacSecret cfg) (AuthReq.mkReq $"https://app.x/foo" $"app.x" 300 $"n").
Definition password : incoming := post $"sso.x" $"/samwaf_access/validate" (Some (mkLoginReq $"ann" $"pw" request_blob)) None.
Definition code : incoming := post $"sso.x" $"/samwaf_access/otp" None (Some (mkOtpReq $"2u" $"123456")).
Definition authorize : incoming := page $"sso.x" $"/samwaf_access/authorize" [($"rq", request_blob)] [$"ac_sso=33"].
Definition callback : incoming := page $"app.x" $"/samwaf_access/callback" [($"tk", $"34")] [].
Definition visit (cookie : list gostr) : incoming := page $"app.x" $"/foo" [] cookie.
Definition with_cookie : incoming := visit [$"x=1; " ++ accessTokenCookieName cfg (visit []) ++ $"=35; y=2"].

(** ** The states *)

Definition start : store := AccessFacts.empty [ann].
Definition after_password : store := (gate 2 $"2" password sso_target start).1.
Definition after_code : store := (gate 3 $"3" code sso_target after_password).1.
Definition after_authorize : store := (gate 4 $"4" authorize sso_target after_code).1.
Definition signed_in : store := (gate 5 $"5" callback app_target after_authorize).1.

Definition status_of (o : outcome) : option body := match o with Pass _ => None | Handled _ resp => Some (r_body resp) end.

Example first_visit :
  match status_of (gate 1 $"1" (visit []) app_target start).2 with
  | Some (RedirectTo to) => has_prefix to $"https://sso.x/samwaf_access/authorize?rq="
  | _ => false
  end = true.
Proof. vm_compute. reflexivity. Qed.

Example password_then_code : status_of (gate 2 $"2" password sso_target start).2 = Some (JSON 200 (NeedCode $"2u")).
Proof. vm_compute. reflexivity. Qed.

Example code_signs_in :
  status_of (gate 3 $"3" code sso_target after_password).2 = Some (JSON 200 (SignedIn ($"/samwaf_access/authorize?rq=" ++ QueryEscape request_blob))).
Proof. vm_compute. reflexivity. Qed.

Example ticket_is_issued :
  status_of (gate 4 $"4" authorize sso_target after_code).2 = Some (RedirectTo $"https://app.x/samwaf_access/callback?tk=34").
Proof. vm_compute. reflexivity. Qed.

Example ticket_is_redeemed : status_of (gate 5 $"5" callback app_target after_authorize).2 = Some (RedirectTo $"https://app.x/foo").
Proof. vm_compute. reflexivity. Qed.

Example cookie_passes : (gate 6 $"6" with_cookie app_target signed_in).2 =
  Pass {[ $"Cookie" := [$"x=1; y=2"]; $"Accept" := [$"text/html"];
          canonical_key identity_user := [$"ann"]; canonical_key identity_session := [HashAccessCode sha256 $"33"] ]}.
Proof. vm_compute. reflexivity. Qed.

Example ticket_used_once :
  match status_of (gate 6 $"6" callback app_target signed_in).2 with
  | Some (RedirectTo to) => has_prefix to $"https://sso.x/samwaf_access/authorize?rq="
  | _ => false
  end = true.
Proof. vm_compute. reflexivity. Qed.

Lemma live_gate now u st rnd r t : live (D := unit) (60 * second) now st → now ≤ u → live (D := unit) (60 * second) u (gate u rnd r t st).1.
Proof.
  intros (t0 & accts & Hr) Hu. exists t0, accts. apply (runs_step _ _ _ _ now u st (at_gate rnd r t)); [done|done|]. by split; [|intros ? _ []].
Qed.

Lemma signed_in_live : live (D := unit) (60 * second) 5 signed_in.
Proof.
  unfold signed_in, after_authorize, after_code, after_password.
  refine (live_gate 4 5 _ _ _ _ (live_gate 3 4 _ _ _ _ (live_gate 2 3 _ _ _ _ (live_gate 0 2 _ _ _ _ _ _) _) _) _); try lia.
  exists 0, [ann]. apply runs_refl.
Qed.

(** ** The theorems at this run *)

Lemma validateReturnTo_safe_witness :
  validateReturnTo sites $"https://App.x" $"app.x" = Some $"https://App.x/" ∧
  ∃ scheme host rest, $"https://App.x/" = scheme ++ $"://" ++ escape host encodeHost ++ "/"%char :: rest ∧
    equal_fold host $"app.x" = true ∧ Routing.isManagedHost sites host = true.
Proof.
  assert (E : validateReturnTo sites $"https://App.x" $"app.x" = Some $"https://App.x/") by (vm_compute; reflexivity).
  split; [exact E|]. destruct (validateReturnTo_safe sites _ _ _ E) as (scheme & host & rest & Es & _ & Hh & Hm & _).
  exists scheme, host, rest. exact (conj Es (conj Hh Hm)).
Defined.

(** Nobody but the two halves of the account and the code got this visitor in. *)
Lemma gate_pass_justified_witness :
  ∃ h, (gate 6 $"6" with_cookie app_target signed_in).2 = Pass h ∧
    (exempt None ∅ $"/.well-known/acme-challenge/" with_cookie app_target cfg $"1.1.1.1" ∨
     ∃ plain row, Cookie with_cookie (accessTokenCookieName cfg with_cookie) = Some plain ∧ row ∈ tokens signed_in ∧
       Token.TokenCode row = HashAccessCode sha256 plain ∧ Token.HostCode row = $"A" ∧ 6 ≤ Token.ExpireTime row).
Proof.
  eexists. split; [exact cookie_passes|].
  destruct (gate_pass_justified 6 sites (λ _, None) (drawn $"6") None ∅ $"/.well-known/acme-challenge/" with_cookie app_target cfg $"1.1.1.1"
    (60 * second) 5 signed_in _ ltac:(vm_compute; discriminate) signed_in_live ltac:(lia) ltac:(vm_compute; discriminate) cookie_passes)
    as [Hx|(plain & row & Hck & Hin & Hcode & Hhost & _ & _ & _ & _ & Hexp & _)].
  - left. exact Hx.
  - right. exists plain, row. exact (conj Hck (conj Hin (conj Hcode (conj Hhost Hexp)))).
Defined.

(** The client claimed to be root; the backend sees the account of the token. *)
Lemma backend_view_witness :
  ∃ h, (gate 6 $"6" with_cookie app_target signed_in).2 = Pass h ∧ carried h = [$"x=1"; $"y=2"].
Proof.
  eexists. split; [exact cookie_passes|].
  destruct (backend_view 6 sites (λ _, None) (drawn $"6") None ∅ $"/.well-known/acme-challenge/" with_cookie app_target cfg $"1.1.1.1"
    signed_in _ cookie_passes) as (_ & _ & Hc).
  etransitivity; [apply Hc; [reflexivity|discriminate]|vm_compute; reflexivity].
Defined.

Definition guesses (n : nat) : store := LoginFacts.failures cfg $"1.1.1.1" $"ann" (map Z.of_nat (seq 0 n)) start.

(** Ten failures are allowed by [cfg], and ten do not lock: eleven do. *)
Lemma lock_exact_witness :
  (accessCheckLock 12 $"1.1.1.1" $"ann" (guesses 10)).2 = false ∧ (accessCheckLock 12 $"1.1.1.1" $"ann" (guesses 11)).2 = true ∧
  (accessCheckLock (11 + LockDuration cfg) $"1.1.1.1" $"ann" (guesses 11)).2 = false.
Proof.
  assert (Hnone : ∀ k, k ∈ accessFailKeys $"1.1.1.1" $"ann" →
    (cache start !! (CACHE_ACCESS_FAIL ++ k), cache start !! (CACHE_ACCESS_LOCK ++ k)) = (None, None)) by (intros; reflexivity).
  assert (Hin : ∀ n t, t ∈ map Z.of_nat (seq 1 n) → Z.of_nat n ≤ 10 → t - 0 ≤ LockDuration cfg).
  { intros n t (m & -> & Hm)%list_elem_of_fmap Hn. apply elem_of_seq in Hm. cbn. unfold minute, second. lia. }
  split_and!.
  - etransitivity; [refine (LoginFacts.lock_exact cfg $"1.1.1.1" $"ann" 0 (map Z.of_nat (seq 1 9)) start 12 _ _ Hnone _ _)|vm_compute; reflexivity];
      [reflexivity|reflexivity|intros t Ht; exact (Hin 9%nat t Ht ltac:(lia))|cbn; lia].
  - etransitivity; [refine (LoginFacts.lock_exact cfg $"1.1.1.1" $"ann" 0 (map Z.of_nat (seq 1 10)) start 12 _ _ Hnone _ _)|vm_compute; reflexivity];
      [reflexivity|reflexivity|intros t Ht; exact (Hin 10%nat t Ht ltac:(lia))|cbn; lia].
  - etransitivity; [refine (LoginFacts.lock_exact cfg $"1.1.1.1" $"ann" 0 (map Z.of_nat (seq 1 10)) start (11 + LockDuration cfg) _ _ Hnone _ _)|vm_compute; reflexivity];
      [reflexivity|reflexivity|intros t Ht; exact (Hin 10%nat t Ht ltac:(lia))|cbn; lia].
Defined.
End Scenario.
