(* ===== verification/ClientIP.v ===== *)
(** * Whose request it is (wafenginecore/clientip.go, clientip/providers.go, getClientIP of
      wafengine.go; utils/manageclientip.go; CheckIPInCIDR, IsValidIPv4/6 of utils/common.go)

    The address a visitor is judged by: the network address of the connection or one read
    from a header a proxy wrote.  [Biz] is the choice made per site, [Manage] the one of
    the administration side.  The address ranges of the CDN vendors, which a service
    downloads, are compiled sets ([MatchSet]) in a map.  Warnings to the log are not
    modelled, nor the texts that explain a verdict. *)
From S2P Require Import Prelude.
From S2P Require Import GoLib.
From S2P Require Import GoHttp.
From S2P Require Import Lines.
From S2P Require Import NetFacts.
From S2P Require Import MatchSet.
Local Open Scope Z_scope.
Local Open Scope bool_scope.

(** ** Package net *)

Module Net.
(** [net.SplitHostPort]; [None] is an error. *)
Definition SplitHostPort (hostport : gostr) : option (gostr * gostr) :=
  match last_index_byte hostport ":" with
  | None => None
  | Some i =>
      let checked (host : gostr) (j k : nat) :=
        if contains (drop j hostport) $"[" || contains (drop k hostport) $"]" then None else Some (host, drop (S i) hostport) in
      if has_prefix hostport $"[" then
        match index_byte hostport "]" with
        | None => None
        | Some e => if (S e =? i)%nat then checked (drop 1 (take e hostport)) 1%nat (S e) else None
        end
      else
        let host := take i hostport in
        if contains host $":" then None else checked host 0%nat 0%nat
  end.

(** [IP.String] of 4 bytes and of 16 bytes that are not IPv4. *)
Definition dotted (ip : bytes) : gostr := join (map itoa ip) $".".
Fixpoint groups_of (ip : bytes) : list Z :=
  match ip with a :: b :: rest => 256 * a + b :: groups_of rest | _ => [] end.
Fixpoint zeros (gs : list Z) : nat := match gs with g :: gs' => if g =? 0 then S (zeros gs') else 0 | [] => 0 end.
(** The first longest run of at least two zero groups: its start and its length. *)
Fixpoint zero_run (gs : list Z) (i : nat) (best : option (nat * nat)) : option (nat * nat) :=
  match gs with
  | [] => best
  | _ :: gs' =>
      let l := zeros gs in
      zero_run gs' (S i) (if (2 <=? l)%nat && (default 0%nat (snd <$> best) <? l)%nat then Some (i, l) else best)
  end.
Definition hex_groups (gs : list Z) : gostr := join (map (λ g, format_uint g 16) gs) $":".
Definition v6_string (ip : bytes) : gostr :=
  let gs := groups_of ip in
  match zero_run gs 0 None with
  | Some (s, l) => hex_groups (take s gs) ++ $"::" ++ hex_groups (drop (s + l) gs)
  | None => hex_groups gs
  end.
End Net.

Example split_ex : Net.SplitHostPort $"1.2.3.4:80" = Some ($"1.2.3.4", $"80") ∧ Net.SplitHostPort $"[::1]:8" = Some ($"::1", $"8") ∧
  Net.SplitHostPort $"::1:8" = None ∧ Net.SplitHostPort $"1.2.3.4" = None.
Proof. by vm_compute. Qed.
Example string_ex : Net.v6_string [32;1;13;184;0;0;0;0;0;0;0;0;0;0;0;1] = $"2001:db8::1" ∧ Net.v6_string [0;0;0;0;0;0;0;0;0;0;0;0;0;0;0;0] = $"::" ∧
  Net.v6_string [0;1;0;0;0;0;0;1;0;0;0;0;0;0;0;1] = $"1:0:0:1::1".
Proof. by vm_compute. Qed.

Section clientip.
Context `{UnicodeCase}.

(** ** Addresses and lists *)

Definition IsValidIPv4 (ip : gostr) : bool := match parse_ip ip with Some b => bool_decide (is_Some (ip_to4 b)) | None => false end.
Definition IsValidIPv6 (ip : gostr) : bool :=
  match parse_ip ip with Some b => contains ip $":" && negb (bool_decide (is_Some (ip_to4 b))) | None => false end.
Definition valid_ip (ip : gostr) : bool := IsValidIPv4 ip || IsValidIPv6 ip.

Definition CheckIPInCIDR (ip ipRange : gostr) : bool :=
  match split ipRange "/" with
  | [_; _] => match parse_ip ip, parse_cidr ipRange with Some b, Some net => ipnet_contains net b | _, _ => false end
  | _ => bool_decide (ip = ipRange)
  end.
Definition ipInCIDRList (ip csv : gostr) : bool :=
  existsb (λ entry, match trim_space entry with [] => false | t => CheckIPInCIDR ip t end) (split csv ",").

(** ** CDN vendors *)

Record Provider := mkProvider { p_Header : gostr; p_Tier : gostr; p_FetchKind : gostr }.
Definition Providers : gmap gostr Provider := {[
  $"cloudflare" := mkProvider $"CF-Connecting-IP" $"A" $"anon_plain";
  $"fastly" := mkProvider $"Fastly-Client-IP" $"A" $"anon_fastly";
  $"cloudfront" := mkProvider $"CloudFront-Viewer-Address" $"A" $"anon_aws";
  $"edgeone" := mkProvider $"EO-Connecting-IP" $"A_auth" $"auth_tencent";
  $"aliyun" := mkProvider $"Ali-Cdn-Real-Ip" $"A_auth" $"auth_aliyun";
  $"akamai" := mkProvider $"True-Client-IP" $"B" $"none" ]}.
Definition ranges := gmap gostr MatchSet.
Definition SetProviderRanges (providerMatchers : ranges) (code : gostr) (m : MatchSet) : ranges := <[code := m]> providerMatchers.
Definition GetProviderRanges (providerMatchers : ranges) (code : gostr) : option MatchSet := providerMatchers !! code.
Definition IsProviderIP (providerMatchers : ranges) (code ip : gostr) : bool := ContainsStr (GetProviderRanges providerMatchers code) ip.
Definition DefaultHeader (code : gostr) : gostr := default [] (p_Header <$> Providers !! code).

(** ** The site's choice *)

(** The fields of [model.Hosts] that say where the address is read. *)
Record source := mkSource { IPSourceMode : gostr; IPTrustDepth : Z; IPRealHeader : gostr; IPTrustProxies : gostr; CDNProvider : gostr }.
Inductive ip_error := BadAddrPort | BadHeaderIP (header : gostr) | BadRemoteIP.
(** The error, or the address and the port. *)
Definition answer := result ip_error (gostr * gostr).

Definition splitRemoteAddr (remoteAddr : gostr) : answer :=
  match Net.SplitHostPort remoteAddr with Some ipport => Ok ipport | None => Err BadAddrPort end.

(** The values of a header between commas that are addresses, in order. *)
Definition hops (val : gostr) : list gostr := List.filter valid_ip (map trim_space (split val ",")).

Definition headerFirstValidIP (r : request) (header : gostr) : gostr :=
  match trim_space header with
  | [] => []
  | h => match header_get r h with [] => [] | val => default [] (head (hops val)) end
  end.

Definition extractXFFDepth (r : request) (h : source) : gostr :=
  let header := match trim_space (IPRealHeader h) with [] => $"X-Forwarded-For" | _ => IPRealHeader h end in
  match header_get r header with
  | [] => []
  | val =>
      let parts := hops val in
      match trim_space (IPTrustProxies h) with
      | [] =>
          let depth := if IPTrustDepth h <? 1 then 1 else IPTrustDepth h in
          let idx := Z.of_nat (length parts) - depth in
          if idx <? 0 then [] else default [] (parts !! Z.to_nat idx)
      | trusted => default [] (List.find (λ ip, negb (ipInCIDRList ip trusted)) (rev parts))
      end
  end.

Definition extractCDNPreset (pm : ranges) (r : request) (remote : gostr) (h : source) : answer :=
  match splitRemoteAddr remote with
  | Err e => Err e
  | Ok (netIP, _) =>
      let trusted := IsProviderIP pm (CDNProvider h) netIP ||
                     (negb (bool_decide (trim_space (IPTrustProxies h) = [])) && ipInCIDRList netIP (IPTrustProxies h)) in
      let header := match trim_space (IPRealHeader h) with [] => DefaultHeader (CDNProvider h) | _ => IPRealHeader h end in
      match (if trusted then headerFirstValidIP r header else []) with
      | [] => Ok (netIP, $"0")
      | ip => Ok (ip, $"0")
      end
  end.

(** The older choice: the first configured header that is present, its first value. *)
Fixpoint getClientIP (r : request) (remote : gostr) (headers : list gostr) : answer :=
  match headers with
  | header :: headers' =>
      match header_get r header with
      | [] => getClientIP r remote headers'
      | ip => let trimmedIP := trim_space (default [] (head (split ip ","))) in
              if valid_ip trimmedIP then Ok (trimmedIP, $"0") else Err (BadHeaderIP header)
      end
  | [] =>
      match Net.SplitHostPort remote with
      | None => Err BadAddrPort
      | Some (ip, port) => if IsValidIPv4 ip || (contains ip $":" && IsValidIPv6 ip) then Ok (ip, port) else Err BadRemoteIP
      end
  end.

(** [proxyHeader] is [GCONFIG_RECORD_PROXY_HEADER]. *)
Definition getBizClientIP (pm : ranges) (proxyHeader : gostr) (r : request) (remote : gostr) (h : source) : answer :=
  if bool_decide (IPSourceMode h = $"nic") then splitRemoteAddr remote
  else if bool_decide (IPSourceMode h = $"header") then
    let from_header := match headerFirstValidIP r (IPRealHeader h) with [] => splitRemoteAddr remote | ip => Ok (ip, $"0") end in
    match trim_space (IPTrustProxies h) with
    | [] => from_header
    | trusted =>
        match splitRemoteAddr remote with
        | Err e => Err e
        | Ok (netIP, netPort) => if ipInCIDRList netIP trusted then from_header else Ok (netIP, netPort)
        end
    end
  else if bool_decide (IPSourceMode h = $"xff_depth") then
    match extractXFFDepth r h with [] => splitRemoteAddr remote | ip => Ok (ip, $"0") end
  else if bool_decide (IPSourceMode h = $"cdn_preset") then extractCDNPreset pm r remote h
  else getClientIP r remote (split proxyHeader ",").

(** ** The administration side *)

Definition maxManageProxyHops : nat := 64.
Definition maxManageProxyHeaderEcho : nat := 512.
Definition maxManageProxyHopEcho : nat := 64.
Definition ManageTrustedProxyKeywordPrivate : gostr := $"private".
Definition manageTrustedPrivateCIDRs : list (bytes * bytes) :=
  omap parse_cidr [$"10.0.0.0/8"; $"172.16.0.0/12"; $"192.168.0.0/16"; $"127.0.0.0/8"; $"::1/128"; $"fc00::/7"].

Inductive reason := NoProxyHeader | PeerUntrusted | NoValidHeader | OverBroadGate | RightmostUntrusted | AllTrustedLeftmost.
Record hop := mkHop { IP : gostr; Valid : bool; Trusted : bool }.
Record header_trace := mkHeader { Name : gostr; Value : gostr; Hops : list hop; Used : bool; TooLong : bool }.
Record trace := mkTrace { PeerTrusted : bool; GateOverBroad : bool; Headers : list header_trace; ClientIP : gostr; Reason : reason }.

(** The configuration: [GCONFIG_MANAGE_PROXY_HEADER], [_TRUSTED_PROXIES], [_CDN_PROVIDER]. *)
Record manage := mkManage { ProxyHeader : gostr; TrustedProxies : gostr; ManageCDNProvider : gostr }.

Definition isOverBroadProxyCIDR (ipnet : bytes * bytes) : bool :=
  let '(ones, bits) := mask_size ipnet.2 in
  if (bits =? 32)%nat then (ones <=? 4)%nat else (ones <=? 3)%nat.

(** The entries of the list: trusted, and by an entry that is narrow enough. *)
Fixpoint trust_entries (parsed : bytes) (entries : list gostr) (matched : bool) : bool * bool :=
  match entries with
  | [] => (matched, false)
  | entry :: entries' =>
      match trim_space entry with
      | [] => trust_entries parsed entries' matched
      | e =>
          if equal_fold e ManageTrustedProxyKeywordPrivate then
            if existsb (λ net, ipnet_contains net parsed) manageTrustedPrivateCIDRs then (true, true)
            else trust_entries parsed entries' matched
          else if contains e $"/" then
            match parse_cidr e with
            | None => trust_entries parsed entries' matched
            | Some net =>
                if negb (ipnet_contains net parsed) then trust_entries parsed entries' matched
                else if negb (isOverBroadProxyCIDR net) then (true, true)
                else trust_entries parsed entries' true
            end
          else if bool_decide (parse_ip e = Some parsed) then (true, true)
          else trust_entries parsed entries' matched
      end
  end.

Definition trustManageProxy (pm : ranges) (m : manage) (ip : gostr) : bool * bool :=
  let ip := trim_space ip in
  if negb (bool_decide (ManageCDNProvider m = [])) && IsProviderIP pm (ManageCDNProvider m) ip then (true, true)
  else if bool_decide (TrustedProxies m = []) then (false, false)
  else match parse_ip ip with
       | None => (false, false)
       | Some parsed => trust_entries parsed (split (TrustedProxies m) ",") false
       end.
(** A hop counts as infrastructure only by a narrow entry. *)
Definition narrowly_trusted (pm : ranges) (m : manage) (ip : gostr) : bool := let '(t, n) := trustManageProxy pm m ip in t && n.

Definition parse_hop (pm : ranges) (m : manage) (part : gostr) : hop :=
  let ip := trim_space part in
  let valid := valid_ip ip in
  mkHop (take maxManageProxyHopEcho ip) valid (valid && narrowly_trusted pm m ip).

Definition buildManageHeaderTrace (pm : ranges) (m : manage) (r : request) (header : gostr) : header_trace :=
  let raw := header_get r header in
  let echo := take maxManageProxyHeaderEcho raw in
  if bool_decide (raw = []) then mkHeader header echo [] false false
  else if (maxManageProxyHops <=? count_byte raw ",")%nat then mkHeader header echo [] false true
  else mkHeader header echo (map (parse_hop pm m) (split raw ",")) false false.

Definition normalizeIPText (ip : gostr) : gostr :=
  match parse_ip (trim_space ip) with
  | None => ip
  | Some b => match ip_to4 b with Some v4 => Net.dotted v4 | None => Net.v6_string b end
  end.

(** The first header that yields a hop, with its position. *)
Fixpoint first_yield (f : header_trace → option hop) (hs : list header_trace) (i : nat) : option (nat * hop) :=
  match hs with
  | [] => None
  | h :: hs' => match f h with Some x => Some (i, x) | None => first_yield f hs' (S i) end
  end.
Definition rightmost_untrusted (h : header_trace) : option hop := List.find (λ x, Valid x && negb (Trusted x)) (rev (Hops h)).
Definition leftmost_valid (h : header_trace) : option hop := List.find Valid (Hops h).
Definition mark_used (i : nat) (hs : list header_trace) : list header_trace :=
  alter (λ h, mkHeader (Name h) (Value h) (Hops h) true (TooLong h)) i hs.

Definition TraceManageClientIP (pm : ranges) (m : manage) (r : request) (remoteIP : gostr) : trace :=
  match trim_space (ProxyHeader m) with
  | [] => mkTrace false false [] remoteIP NoProxyHeader
  | _ =>
      let '(trusted, narrow) := trustManageProxy pm m remoteIP in
      if negb trusted then mkTrace false false [] remoteIP PeerUntrusted
      else if negb narrow then mkTrace true true [] remoteIP OverBroadGate
      else
        let headers := map (buildManageHeaderTrace pm m r) (omap trimmed (split (ProxyHeader m) ",")) in
        match first_yield rightmost_untrusted headers 0 with
        | Some (i, x) => mkTrace true false (mark_used i headers) (normalizeIPText (IP x)) RightmostUntrusted
        | None =>
            match first_yield leftmost_valid headers 0 with
            | Some (i, x) => mkTrace true false (mark_used i headers) (normalizeIPText (IP x)) AllTrustedLeftmost
            | None => mkTrace true false headers remoteIP NoValidHeader
            end
        end
  end.

Definition GetManageClientIP (pm : ranges) (m : manage) (r : request) (remoteIP : gostr) : gostr := ClientIP (TraceManageClientIP pm m r remoteIP).

Definition IsValidManageTrustedProxyEntry (entry : gostr) : bool :=
  match trim_space entry with
  | [] => true
  | e => if equal_fold e ManageTrustedProxyKeywordPrivate then true
         else if contains e $"/" then bool_decide (is_Some (parse_cidr e)) else bool_decide (is_Some (parse_ip e))
  end.
Definition ManageTrustedProxiesHasOverBroad (trustedProxies : gostr) : option gostr :=
  List.find (λ e, match e with
                  | [] => false
                  | _ => contains e $"/" && match parse_cidr e with Some net => isOverBroadProxyCIDR net | None => false end
                  end) (map trim_space (split trustedProxies ",")).

End clientip.

(** ** What a client can and cannot choose *)

Lemma find_app {A} (f : A → bool) l k : List.find f (l ++ k) = match List.find f l with Some x => Some x | None => List.find f k end.
Proof. induction l as [|x l IH]; cbn; [done|]. by destruct (f x). Qed.

(** The last element with a property, and what follows it. *)
Lemma find_rev_split {A} (f : A → bool) l x : List.find f (rev l) = Some x →
  ∃ before after, l = before ++ x :: after ∧ f x = true ∧ Forall (λ y, f y = false) after.
Proof.
  induction l as [|y l IH]; cbn [rev]; [done|]. rewrite find_app. destruct (List.find f (rev l)) as [z|] eqn:E.
  - intros [= ->]. destruct (IH eq_refl) as (b & a & -> & Hx & Ha). by exists (y :: b), a.
  - cbn [List.find]. destruct (f y) eqn:Ey; [|done]. intros [= ->]. exists [], l. split_and!; [done|done|].
    apply Forall_forall. intros z Hz. apply (find_none f (rev l)); [done|]. apply in_rev. rewrite rev_involutive. by apply list_elem_of_In.
Qed.

Section choice.
Context `{UnicodeCase}.
Variable pm : ranges.

Lemma hops_app p v : hops (p ++ ","%char :: v) = hops p ++ hops v.
Proof. unfold hops. by rewrite split_app_sep, map_app, List.filter_app. Qed.

Definition xff_header (h : source) : gostr := match trim_space (IPRealHeader h) with [] => $"X-Forwarded-For" | _ => IPRealHeader h end.

Lemma biz_xff proxyHeader r remote h : IPSourceMode h = $"xff_depth" →
  getBizClientIP pm proxyHeader r remote h = match extractXFFDepth r h with [] => splitRemoteAddr remote | ip => Ok (ip, $"0") end.
Proof.
  intros Hm. unfold getBizClientIP. rewrite Hm, (bool_decide_false ($"xff_depth" = $"nic")), (bool_decide_false ($"xff_depth" = $"header")) by done.
  by rewrite bool_decide_true.
Qed.

(** Entries between commas: what a header holds after a client wrote [written] and the
    proxies appended [chain] to it. *)
Lemma hops_chain written chain : chain ≠ [] → Forall (λ e, ","%char ∉ e) chain → ∃ hs, hops (join (written ++ chain) $",") = hs ++ List.filter valid_ip (map trim_space chain) ∧
  (written = [] → hs = []).
Proof.
  intros Hne Hc. induction written as [|w written IH]; cbn [app].
  - exists []. split; [|done]. cbn [app]. clear Hne. induction Hc as [|e chain He Hc IH]; [by vm_compute|]. destruct chain as [|e' chain].
    + unfold hops. cbn [join]. by rewrite split_free.
    + change (join (e :: e' :: chain) $",") with (e ++ ","%char :: join (e' :: chain) $","). rewrite hops_app, IH. unfold hops. rewrite split_free by done.
      cbn [map List.filter]. by destruct (valid_ip (trim_space e)).
  - destruct IH as (hs & E & _). exists (hops w ++ hs). split; [|done]. destruct (written ++ chain) as [|x l] eqn:El; [by destruct written|]. rewrite <- El in *.
    assert (Ej : join (w :: written ++ chain) $"," = w ++ ","%char :: join (written ++ chain) $",") by (rewrite El; done). by rewrite Ej, hops_app, E, app_assoc.
Qed.
Lemma filter_all_true {A} (f : A → bool) l : Forall (λ x, f x = true) l → List.filter f l = l.
Proof. induction 1 as [|x l Hx Hl IH]; cbn; [done|]. by rewrite Hx, IH. Qed.
Lemma chain_hops written chain : chain ≠ [] → Forall (λ e, ","%char ∉ e ∧ valid_ip (trim_space e) = true) chain → ∃ hs, hops (join (written ++ chain) $",") = hs ++ map trim_space chain ∧ (written = [] → hs = []).
Proof.
  intros Hne Hc. destruct (hops_chain written chain Hne) as (hs & E & Hw); [eapply Forall_impl; [exact Hc|by intros e []]|]. exists hs. split; [|done]. rewrite E. f_equal.
  apply filter_all_true, Forall_map. eapply Forall_impl; [exact Hc|by intros e []].
Qed.
Lemma join_not_empty l e : e ∈ l → trim_space e ≠ [] → join l $"," ≠ [].
Proof.
  intros Hin Hne. destruct l as [|x [|y l]]; [by apply not_elem_of_nil in Hin| |].
  - apply list_elem_of_singleton in Hin as ->. cbn [join]. intros ->. by apply Hne; vm_compute.
  - change (join (x :: y :: l) $",") with (x ++ ","%char :: join (y :: l) $","). by destruct x.
Qed.
Lemma valid_not_empty e : valid_ip e = true → e ≠ [].
Proof. by intros Hv ->; vm_compute in Hv. Qed.

Lemma extract_depth r h written chain : trim_space (IPTrustProxies h) = [] → header_get r (xff_header h) = join (written ++ chain) $"," →
  Forall (λ e, ","%char ∉ e ∧ valid_ip (trim_space e) = true) chain →
  (∀ before e after, chain = before ++ e :: after → Z.of_nat (S (length after)) = Z.max 1 (IPTrustDepth h) → extractXFFDepth r h = trim_space e) ∧
  (written = [] → Z.of_nat (length chain) < Z.max 1 (IPTrustDepth h) → extractXFFDepth r h = []).
Proof.
  intros Ht Hv Hc. unfold extractXFFDepth. fold (xff_header h). rewrite Ht, Hv. assert (Ed : (if IPTrustDepth h <? 1 then 1 else IPTrustDepth h) = Z.max 1 (IPTrustDepth h)) by (destruct (Z.ltb_spec (IPTrustDepth h) 1); lia).
  rewrite Ed. clear Ed. split.
  - intros before e after E Hn. destruct (chain_hops written chain) as (hs & Eh & _); [by subst; destruct before|done|].
    assert (Hne : join (written ++ chain) $"," ≠ []).
    { apply (join_not_empty _ e); [subst; set_solver|]. apply valid_not_empty. rewrite Forall_forall in Hc. apply Hc. subst. set_solver. }
    destruct (join (written ++ chain) $",") as [|c v]; [done|]. rewrite Eh, E, map_app, !length_app. cbn [map length]. rewrite length_map.
    match goal with |- (if ?x <? 0 then _ else _) = _ => replace x with (Z.of_nat (length hs + length before)) by (rewrite length_map; lia) end.
    rewrite (proj2 (Z.ltb_ge _ _)) by lia. rewrite Nat2Z.id, app_assoc, lookup_app_r by (rewrite length_app, length_map; lia).
    replace (length hs + length before - length (hs ++ map trim_space before))%nat with 0%nat by (rewrite length_app, length_map; lia). done.
  - intros -> Hn. cbn [app]. destruct (join chain $",") as [|c v] eqn:Ej; [done|]. assert (Hne : chain ≠ []) by (intros ->; by cbn in Ej).
    destruct (chain_hops [] chain Hne Hc) as (hs & Eh & Hs). cbn [app] in Eh. rewrite Ej in Eh. rewrite Eh, (Hs eq_refl). cbn [app]. rewrite length_map.
    destruct (Z.ltb_spec (Z.of_nat (length chain) - Z.max 1 (IPTrustDepth h)) 0); [done|lia].
Qed.
Lemma find_last {A} (f : A → bool) hs before e after : f e = true → Forall (λ y, f y = false) after → List.find f (rev (hs ++ before ++ e :: after)) = Some e.
Proof.
  intros He Ha. rewrite !rev_app_distr. cbn [rev]. rewrite <- !app_assoc, find_app. destruct (List.find f (rev after)) as [x|] eqn:E; [|cbn; by rewrite He].
  apply find_some in E as [Hin Hx]. apply in_rev, list_elem_of_In in Hin. rewrite Forall_forall in Ha. by rewrite (Ha x Hin) in Hx.
Qed.
Lemma extract_listed r h written chain : trim_space (IPTrustProxies h) ≠ [] → header_get r (xff_header h) = join (written ++ chain) $"," →
  Forall (λ e, ","%char ∉ e ∧ valid_ip (trim_space e) = true) chain →
  ∀ before e after, chain = before ++ e :: after → ipInCIDRList (trim_space e) (trim_space (IPTrustProxies h)) = false →
    Forall (λ x, ipInCIDRList (trim_space x) (trim_space (IPTrustProxies h)) = true) after → extractXFFDepth r h = trim_space e.
Proof.
  intros Ht Hv Hc before e after E He Ha. unfold extractXFFDepth. fold (xff_header h). rewrite Hv. destruct (chain_hops written chain) as (hs & Eh & _); [by subst; destruct before|done|].
  assert (Hne : join (written ++ chain) $"," ≠ []).
  { apply (join_not_empty _ e); [subst; set_solver|]. apply valid_not_empty. rewrite Forall_forall in Hc. apply Hc. subst. set_solver. }
  destruct (join (written ++ chain) $",") as [|c v]; [done|]. destruct (trim_space (IPTrustProxies h)) as [|t0 t]; [done|].
  rewrite Eh, E, map_app. cbn [map]. rewrite (find_last _ hs (map trim_space before) (trim_space e)); [done|by rewrite He|].
  apply Forall_map. eapply Forall_impl; [exact Ha|]. intros x Hx. cbv beta in *. by rewrite Hx.
Qed.

(** C16: the address read from a chain of proxies cannot be chosen by the client.  In the
    mode that counts from the right, let a header hold anything a client wrote and then
    the addresses the proxies appended.  Without a list of proxies, the address taken is
    the one that the proxy at the configured depth appended, and when nothing but a
    shorter chain is there the network address; with a list, it is the last address
    appended that is not on the list.  What the client wrote plays no part. *)
Theorem xff_not_forged proxyHeader r remote h written chain :
  IPSourceMode h = $"xff_depth" → header_get r (xff_header h) = join (written ++ chain) $"," →
  Forall (λ e, ","%char ∉ e ∧ valid_ip (trim_space e) = true) chain →
  (trim_space (IPTrustProxies h) = [] →
     (∀ before e after, chain = before ++ e :: after → Z.of_nat (S (length after)) = Z.max 1 (IPTrustDepth h) →
        getBizClientIP pm proxyHeader r remote h = Ok (trim_space e, $"0")) ∧
     (written = [] → Z.of_nat (length chain) < Z.max 1 (IPTrustDepth h) → getBizClientIP pm proxyHeader r remote h = splitRemoteAddr remote)) ∧
  (trim_space (IPTrustProxies h) ≠ [] →
     ∀ before e after, chain = before ++ e :: after → ipInCIDRList (trim_space e) (trim_space (IPTrustProxies h)) = false →
       Forall (λ x, ipInCIDRList (trim_space x) (trim_space (IPTrustProxies h)) = true) after → getBizClientIP pm proxyHeader r remote h = Ok (trim_space e, $"0")).
Proof.
  intros Hm Hv Hc. rewrite biz_xff by done.
  assert (Hgot : ∀ before e after, chain = before ++ e :: after → extractXFFDepth r h = trim_space e → match extractXFFDepth r h with [] => splitRemoteAddr remote | ip => Ok (ip, $"0") end = Ok (trim_space e, $"0")).
  { intros before e after E Hx. rewrite Hx. assert (Hne : trim_space e ≠ []) by (apply valid_not_empty; rewrite Forall_forall in Hc; apply Hc; subst; set_solver). by destruct (trim_space e). }
  split; intros Ht.
  - destruct (extract_depth r h written chain Ht Hv Hc) as [Hd Hs]. split; [|by intros Hw Hl; rewrite (Hs Hw Hl)].
    intros before e after E Hn. eapply Hgot; [exact E|]. by eapply Hd.
  - intros before e after E He Ha. eapply Hgot; [exact E|]. by eapply extract_listed.
Qed.

(** The modes that ask who is speaking: the network address only, or a header read only
    when the connection comes from a listed proxy or from the chosen vendor. *)
Definition asks_peer (h : source) : Prop :=
  IPSourceMode h = $"nic" ∨ (IPSourceMode h = $"header" ∧ trim_space (IPTrustProxies h) ≠ []) ∨ IPSourceMode h = $"cdn_preset".
Definition trusted_peer (h : source) (netIP : gostr) : bool :=
  if bool_decide (IPSourceMode h = $"header") then ipInCIDRList netIP (trim_space (IPTrustProxies h))
  else bool_decide (IPSourceMode h = $"cdn_preset") &&
       (IsProviderIP pm (CDNProvider h) netIP || (negb (bool_decide (trim_space (IPTrustProxies h) = [])) && ipInCIDRList netIP (IPTrustProxies h))).

(** a stranger's headers are not read.  In these modes a request whose connection does
    not come from a trusted proxy is judged by its network address, whatever headers it
    carries. *)
Theorem untrusted_peer_ignored proxyHeader r remote h ip port :
  asks_peer h → splitRemoteAddr remote = Ok (ip, port) → trusted_peer h ip = false →
  ∃ port', getBizClientIP pm proxyHeader r remote h = Ok (ip, port').
Proof.
  unfold getBizClientIP, trusted_peer, extractCDNPreset. intros [Hm|[[Hm Ht]|Hm]] Hs; rewrite Hm.
  - intros _. rewrite bool_decide_true by done. by exists port.
  - rewrite (bool_decide_false ($"header" = $"nic")), (bool_decide_true ($"header" = $"header")), Hs by done. intros Hl.
    destruct (trim_space (IPTrustProxies h)) as [|c t]; [done|]. rewrite Hl. by exists port.
  - rewrite (bool_decide_false ($"cdn_preset" = $"nic")), (bool_decide_false ($"cdn_preset" = $"header")), (bool_decide_false ($"cdn_preset" = $"xff_depth")) by done.
    rewrite (bool_decide_true ($"cdn_preset" = $"cdn_preset")) by done. cbn [andb]. intros Hl. rewrite Hs, Hl. by exists $"0".
Qed.

(** ** The administration side *)

(** A range that is not over-broad: at least 5 bits of an IPv4 network, 4 of another. *)
Definition narrow (net : bytes * bytes) : Prop := let '(ones, bits) := mask_size net.2 in (bits = 32 ∧ 5 ≤ ones ∨ bits ≠ 32 ∧ 4 ≤ ones)%nat.
(** An entry of the list of trusted proxies vouches for the address [b]. *)
Definition vouches (b : bytes) (e : gostr) : Prop :=
  if equal_fold e ManageTrustedProxyKeywordPrivate then ∃ net, net ∈ manageTrustedPrivateCIDRs ∧ ipnet_contains net b = true
  else if contains e $"/" then ∃ net, parse_cidr e = Some net ∧ ipnet_contains net b = true ∧ narrow net
  else parse_ip e = Some b.
(** A proxy: an address of the chosen vendor's, or one an entry vouches for. *)
Definition proxy (m : manage) (ip : gostr) : Prop :=
  (ManageCDNProvider m ≠ [] ∧ IsProviderIP pm (ManageCDNProvider m) (trim_space ip) = true) ∨
  ∃ b e, parse_ip (trim_space ip) = Some b ∧ Some e ∈ map trimmed (split (TrustedProxies m) ",") ∧ vouches b e.

Lemma overbroad_narrow net : isOverBroadProxyCIDR net = false ↔ narrow net.
Proof.
  unfold isOverBroadProxyCIDR, narrow. destruct (mask_size net.2) as [ones bits]. destruct (Nat.eqb_spec bits 32), (Nat.leb_spec ones 4), (Nat.leb_spec ones 3);
  split; intros Hx; try done; try lia.
Qed.
Lemma trust_entries_narrow b l matched : let '(t, n) := trust_entries b l matched in (t && n = true ↔ ∃ e, Some e ∈ map trimmed l ∧ vouches b e).
Proof.
  assert (Hskip : ∀ x l0 (P : Prop), (∀ e, trimmed x = Some e → ¬ vouches b e) → (P ↔ ∃ e, Some e ∈ map trimmed l0 ∧ vouches b e) → (P ↔ ∃ e, Some e ∈ map trimmed (x :: l0) ∧ vouches b e)).
  { intros x l0 P Hx ->. split; intros (e & Hin & He); exists e; (split; [|done]); cbn [map] in *; [by right|]. apply elem_of_cons in Hin as [Hin|Hin]; [|done]. by destruct (Hx e). }
  assert (Hhit : ∀ x l0 e (P : Prop), trimmed x = Some e → vouches b e → P → (P ↔ ∃ e, Some e ∈ map trimmed (x :: l0) ∧ vouches b e)).
  { intros x l0 e P Hx He HP. split; [|done]. intros _. exists e. split; [|done]. cbn [map]. rewrite Hx. left. }
  revert matched. induction l as [|x l IH]; intros matched; cbn [trust_entries].
  { split; [by rewrite andb_false_r|]. by intros (e & Hin%not_elem_of_nil & _). }
  assert (Hx : trimmed x = match trim_space x with [] => None | item => Some item end) by done. destruct (trim_space x) as [|c e0] eqn:Ex.
  { specialize (IH matched). destruct (trust_entries b l matched) as [t n]. apply Hskip; [|done]. by rewrite Hx. }
  set (e := c :: e0) in *. clearbody e.
  assert (Hno : ∀ mm, ¬ vouches b e → let '(t, n) := trust_entries b l mm in (t && n = true ↔ ∃ e, Some e ∈ map trimmed (x :: l) ∧ vouches b e)).
  { intros mm Hv. specialize (IH mm). destruct (trust_entries b l mm) as [t n]. apply Hskip; [|done]. rewrite Hx. by intros ? [= <-]. }
  destruct (equal_fold e _) eqn:Ek.
  { destruct (existsb _ _) eqn:Ep; [apply (Hhit x l e); [done| |done]|apply Hno]; unfold vouches; rewrite Ek.
    - apply existsb_exists in Ep as (net & Hin & Hn). exists net. split; [by apply list_elem_of_In|done].
    - intros (net & Hin & Hn). apply not_true_iff_false in Ep. apply Ep, existsb_exists. exists net. split; [by apply list_elem_of_In|done]. }
  destruct (contains e _) eqn:Es.
  { destruct (parse_cidr e) as [net|] eqn:Ec; [|apply Hno; unfold vouches; rewrite Ek, Es; by intros (net & ? & _); congruence].
    destruct (ipnet_contains net b) eqn:En; cbn [negb]; [|apply Hno; unfold vouches; rewrite Ek, Es; intros (net' & ? & ? & _); congruence].
    destruct (isOverBroadProxyCIDR net) eqn:Eb; cbn [negb].
    - apply Hno. unfold vouches. rewrite Ek, Es. intros (net' & E & _ & Hn). apply overbroad_narrow in Hn. congruence.
    - apply (Hhit x l e); [done| |done]. unfold vouches. rewrite Ek, Es. exists net. split; [done|]. split; [done|]. by apply overbroad_narrow. }
  destruct (bool_decide_reflect (parse_ip e = Some b)) as [E|E]; [apply (Hhit x l e); [done| |done]|apply Hno]; unfold vouches; by rewrite Ek, Es.
Qed.
Lemma trust_narrow m ip : narrowly_trusted pm m ip = true ↔ proxy m ip.
Proof.
  unfold narrowly_trusted, trustManageProxy, proxy. destruct (bool_decide_reflect (ManageCDNProvider m = [])) as [E|E]; cbn [negb andb].
  2: destruct (IsProviderIP pm (ManageCDNProvider m) (trim_space ip)) eqn:Ei; [split; [by left|done]|].
  all: assert (Hr : (let '(t, n) := if bool_decide (TrustedProxies m = []) then (false, false) else match parse_ip (trim_space ip) with None => (false, false) | Some parsed => trust_entries parsed (split (TrustedProxies m) ",") false end in t && n) = true
    ↔ ∃ b e, parse_ip (trim_space ip) = Some b ∧ Some e ∈ map trimmed (split (TrustedProxies m) ",") ∧ vouches b e).
  1,3: destruct (bool_decide_reflect (TrustedProxies m = [])) as [E0|E0]; [split; [done|]; intros (b & e & _ & Hin & _); rewrite E0 in Hin; cbn in Hin; by apply list_elem_of_singleton in Hin|].
  1,2: destruct (parse_ip (trim_space ip)) as [b|]; [|split; [done|by intros (b & e & ? & _)]].
  1,2: pose proof (trust_entries_narrow b (split (TrustedProxies m) ",") false) as Ht; destruct (trust_entries b _ false) as [t n]; rewrite Ht.
  1,2: split; [intros (e & He); by exists b, e|intros (b' & e & [= <-] & He); by exists e].
  all: rewrite Hr; split; [by right|intros [[? ?]|?]; [congruence|done]].
Qed.
(** The headers that are read, in order; what stands between the commas of one of them. *)
Definition configured (m : manage) : list gostr := omap trimmed (split (ProxyHeader m) ",").
Definition hop_entries (r : request) (name : gostr) : list gostr := split (header_get r name) ",".
Definition short (r : request) (name : gostr) : Prop := (count_byte (header_get r name) "," < maxManageProxyHops)%nat.
(** An entry that is an address is one of a proxy. *)
Definition passes_on (m : manage) (e : gostr) : Prop := valid_ip (trim_space e) = true → proxy m (trim_space e).
Definition shown (e : gostr) : gostr := normalizeIPText (take maxManageProxyHopEcho (trim_space e)).

Lemma built_hops m r name : Hops (buildManageHeaderTrace pm m r name) = [] ∧ (header_get r name = [] ∨ ¬ short r name) ∨
  Hops (buildManageHeaderTrace pm m r name) = map (parse_hop pm m) (hop_entries r name) ∧ header_get r name ≠ [] ∧ short r name.
Proof.
  unfold buildManageHeaderTrace, short. destruct (bool_decide_reflect (header_get r name = [])) as [E|E]; [left; auto|].
  destruct (Nat.leb_spec maxManageProxyHops (count_byte (header_get r name) ",")); [left; split; [done|right; lia]|right; auto].
Qed.
Lemma first_yield_spec f hs i : match first_yield f hs i with Some (_, x) => ∃ h, h ∈ hs ∧ f h = Some x | None => ∀ h, h ∈ hs → f h = None end.
Proof.
  revert i. induction hs as [|h hs IH]; intros i; cbn [first_yield]; [by intros h Hh%not_elem_of_nil|]. destruct (f h) as [x|] eqn:E; [exists h; split; [left|done]|].
  specialize (IH (S i)). destruct (first_yield f hs (S i)) as [[j x]|]; [destruct IH as (h' & Hin & Hx); exists h'; split; [by right|done]|].
  intros h' [->|Hin]%elem_of_cons; auto.
Qed.
Lemma hop_untrusted m e : Valid (parse_hop pm m e) && negb (Trusted (parse_hop pm m e)) = false ↔ passes_on m e.
Proof. unfold passes_on. cbn. rewrite <- trust_narrow. destruct (valid_ip _); cbn; [|done]. rewrite negb_false_iff. naive_solver. Qed.

(** What the two searches find in a header. *)
Lemma rightmost_found m r name x : rightmost_untrusted (buildManageHeaderTrace pm m r name) = Some x → ∃ before e after, hop_entries r name = before ++ e :: after ∧ x = parse_hop pm m e ∧
  valid_ip (trim_space e) = true ∧ ¬ proxy m (trim_space e) ∧ Forall (passes_on m) after.
Proof.
  unfold rightmost_untrusted. destruct (built_hops m r name) as [(-> & _)|(-> & _)]; [done|]. intros (b & a & E & Hx & Ha)%find_rev_split.
  apply map_eq_app in E as (b' & l & E & <- & El). apply map_eq_cons in El as (e & a' & -> & <- & <-). exists b', e, a'. split; [done|]. split; [done|].
  apply andb_true_iff in Hx as [Hv Hn]. cbn in Hv, Hn. rewrite Hv in Hn. split; [done|]. split.
  - intros Hp%trust_narrow. by rewrite Hp in Hn.
  - apply Forall_map in Ha. eapply Forall_impl; [exact Ha|]. intros y Hy. by apply hop_untrusted.
Qed.
Lemma rightmost_none m r name : rightmost_untrusted (buildManageHeaderTrace pm m r name) = None → short r name → Forall (passes_on m) (hop_entries r name).
Proof.
  unfold rightmost_untrusted. intros E Hs. destruct (built_hops m r name) as [(_ & [En|Hn])|(Eh & _)].
  - unfold hop_entries. rewrite En. constructor; [|constructor]. intros Hv. by vm_compute in Hv.
  - done.
  - rewrite Eh in E. apply Forall_forall. intros e He. apply hop_untrusted. apply (find_none _ _ E). apply in_rev. rewrite rev_involutive. by apply list_elem_of_In, list_elem_of_fmap_2.
Qed.
Lemma leftmost_found m r name x : leftmost_valid (buildManageHeaderTrace pm m r name) = Some x → ∃ before e after, hop_entries r name = before ++ e :: after ∧ x = parse_hop pm m e ∧ valid_ip (trim_space e) = true.
Proof.
  unfold leftmost_valid. destruct (built_hops m r name) as [(-> & _)|(-> & _)]; [done|]. intros E. apply find_some in E as [Hin Hv].
  apply list_elem_of_In, list_elem_of_fmap in Hin as (e & -> & Hin). apply list_elem_of_split in Hin as (b & a & ->). by exists b, e, a.
Qed.

Lemma split_chain written chain : chain ≠ [] → Forall (λ e, ","%char ∉ e) chain → ∃ l, split (join (written ++ chain) $",") "," = l ++ chain.
Proof.
  intros Hne Hc. induction written as [|w written IH]; cbn [app].
  - exists []. cbn [app]. induction Hc as [|e chain He Hc IH]; [done|]. destruct chain as [|e' chain]; [cbn [join]; by rewrite split_free|].
    change (join (e :: e' :: chain) $",") with (e ++ ","%char :: join (e' :: chain) $","). by rewrite split_app_sep, IH, split_free.
  - destruct IH as (l & E). exists (split w "," ++ l). destruct (written ++ chain) as [|x k] eqn:El; [by destruct written|]. rewrite <- El in *.
    assert (Ej : join (w :: written ++ chain) $"," = w ++ ","%char :: join (written ++ chain) $",") by (rewrite El; done). by rewrite Ej, split_app_sep, E, app_assoc.
Qed.
Lemma rightmost_kept m r name written chain before e after : header_get r name = join (written ++ chain) $"," → short r name → Forall (λ e, ","%char ∉ e) chain →
  chain = before ++ e :: after → valid_ip (trim_space e) = true → ¬ proxy m (trim_space e) → Forall (passes_on m) after →
  rightmost_untrusted (buildManageHeaderTrace pm m r name) = Some (parse_hop pm m e).
Proof.
  intros Eh Hs Hc E Hv Hp Ha. destruct (split_chain written chain) as (l & El); [by subst; destruct before|done|].
  unfold rightmost_untrusted. destruct (built_hops m r name) as [(_ & [En|Hn])|(-> & _)]; [|done|].
  - exfalso. apply (join_not_empty (written ++ chain) e); [subst; set_solver|by apply valid_not_empty|by rewrite <- Eh].
  - unfold hop_entries. rewrite Eh, El, E, !map_app. cbn [map]. apply find_last.
    + cbn. rewrite Hv. destruct (narrowly_trusted pm m (trim_space e)) eqn:En; [|done]. by apply trust_narrow in En.
    + apply Forall_map. eapply Forall_impl; [exact Ha|]. intros y Hy. by apply hop_untrusted.
Qed.

(** C19: nobody can pose as another address towards the administration side.  The address
    is that of the connection, unless the connection comes from a proxy - an address of
    the chosen vendor's, or one that an entry which is not over-broad vouches for.  Then
    it is an address of a configured header after which only proxies' addresses follow
    and which is none itself, or, when no header that is read has an address that is not
    a proxy's, some proxy's address.  And what the proxies append to the first configured
    header decides: whatever a client wrote there or in the other headers, the address is
    the last one appended that is not a proxy's (within 64 hops). *)
Theorem manage_ip_sound m r remoteIP :
  (GetManageClientIP pm m r remoteIP = remoteIP ∨
   proxy m remoteIP ∧ ∃ name before e after, name ∈ configured m ∧ hop_entries r name = before ++ e :: after ∧ valid_ip (trim_space e) = true ∧
     GetManageClientIP pm m r remoteIP = shown e ∧
     (¬ proxy m (trim_space e) ∧ Forall (passes_on m) after ∨ ∀ name', name' ∈ configured m → short r name' → Forall (passes_on m) (hop_entries r name'))) ∧
  (trim_space (ProxyHeader m) ≠ [] → proxy m remoteIP → ∀ name others written chain, configured m = name :: others → header_get r name = join (written ++ chain) $"," → short r name → Forall (λ e, ","%char ∉ e) chain →
     ∀ before e after, chain = before ++ e :: after → valid_ip (trim_space e) = true → ¬ proxy m (trim_space e) → Forall (passes_on m) after → GetManageClientIP pm m r remoteIP = shown e).
Proof.
  unfold GetManageClientIP, TraceManageClientIP. fold (configured m). split.
  - destruct (trim_space (ProxyHeader m)) as [|c0 v0]; [by left|]. pose proof (trust_narrow m remoteIP) as Ht. unfold narrowly_trusted in Ht. destruct (trustManageProxy pm m remoteIP) as [[] []]; try by left.
    cbn [negb]. pose proof (first_yield_spec rightmost_untrusted (map (buildManageHeaderTrace pm m r) (configured m)) 0) as H1.
    destruct (first_yield rightmost_untrusted _ 0) as [[i x]|].
    { right. split; [by apply Ht|]. destruct H1 as (h & Hin & Hx). apply list_elem_of_fmap in Hin as (name & -> & Hin). destruct (rightmost_found m r name x Hx) as (b & e & a & E & -> & Hv & Hp & Ha).
      exists name, b, e, a. split_and!; [done..|]. by left. }
    pose proof (first_yield_spec leftmost_valid (map (buildManageHeaderTrace pm m r) (configured m)) 0) as H2. destruct (first_yield leftmost_valid _ 0) as [[i x]|]; [|by left].
    right. split; [by apply Ht|]. destruct H2 as (h & Hin & Hx). apply list_elem_of_fmap in Hin as (name & -> & Hin). destruct (leftmost_found m r name x Hx) as (b & e & a & E & -> & Hv).
    exists name, b, e, a. split_and!; [done..|]. right. intros name' Hin' Hs. apply rightmost_none; [|done]. apply H1, list_elem_of_fmap_2, Hin'.
  - intros Hne Hp name others written chain Ec Eh Hs Hc before e after E Hv He Ha.
    destruct (trim_space (ProxyHeader m)) as [|c v]; [done|]. apply trust_narrow in Hp. unfold narrowly_trusted in Hp. destruct (trustManageProxy pm m remoteIP) as [[] []]; try done.
    cbn [negb]. rewrite Ec. cbn [map first_yield]. by rewrite (rightmost_kept m r name written chain before e after).
Qed.
End choice.

(** ** Witnesses and examples *)

Section examples.
#[local] Instance ascii_case : UnicodeCase := {| unicode_to_lower s := s |}.
Definition request_with (key : gostr) (values : list gostr) : request := mkRequest [] [] [] [] false {[ canonical_key key := values ]} [] ∅.
Definition xff_behind (proxies : gostr) : source := mkSource $"xff_depth" 1 [] proxies [].
Definition proxied : request := request_with $"X-Forwarded-For" [$"1.2.3.4, 10.0.0.1"].
Definition forged : request := request_with $"X-Forwarded-For" [$"9.9.9.9,1.2.3.4, 10.0.0.1"].

Lemma xff_not_forged_witness :
  getBizClientIP ∅ [] forged $"10.0.0.2:80" (xff_behind $"10.0.0.0/8") = Ok ($"1.2.3.4", $"0") ∧
  getBizClientIP ∅ [] forged $"10.0.0.2:80" (mkSource $"xff_depth" 2 [] [] []) = Ok ($"1.2.3.4", $"0").
Proof.
  assert (Hc : Forall (λ e, ","%char ∉ e ∧ valid_ip (trim_space e) = true) [$"1.2.3.4"; $" 10.0.0.1"]).
  { repeat (apply Forall_cons; split; [split; [apply (bool_decide_unpack _); vm_compute; exact I|by vm_compute]|]). constructor. }
  split.
  - refine (proj2 (xff_not_forged ∅ [] forged $"10.0.0.2:80" (xff_behind $"10.0.0.0/8") [$"9.9.9.9"] _ _ _ Hc) _ [] $"1.2.3.4" [$" 10.0.0.1"] _ _ _); [by vm_compute..|].
    apply Forall_cons. split; [by vm_compute|constructor].
  - refine (proj1 (proj1 (xff_not_forged ∅ [] forged $"10.0.0.2:80" (mkSource $"xff_depth" 2 [] [] []) [$"9.9.9.9"] _ _ _ Hc) _) [] $"1.2.3.4" [$" 10.0.0.1"] _ _); by vm_compute.
Defined.

Lemma untrusted_peer_ignored_witness :
  ∃ port, getBizClientIP ∅ [] (request_with $"CF-Connecting-IP" [$"9.9.9.9"]) $"203.0.113.9:80" (mkSource $"cdn_preset" 0 [] [] $"cloudflare") = Ok ($"203.0.113.9", port).
Proof.
  apply (untrusted_peer_ignored ∅ [] (request_with $"CF-Connecting-IP" [$"9.9.9.9"]) $"203.0.113.9:80" (mkSource $"cdn_preset" 0 [] [] $"cloudflare") $"203.0.113.9" $"80");
    [by right; right|vm_compute; reflexivity|vm_compute; reflexivity].
Defined.

Definition behind_proxy : manage := mkManage $"X-Forwarded-For" $"10.0.0.0/8" [].

Lemma manage_ip_sound_witness : GetManageClientIP ∅ behind_proxy forged $"10.0.0.2" = $"1.2.3.4".
Proof.
  assert (Hp : proxy ∅ behind_proxy $"10.0.0.2") by (apply trust_narrow; by vm_compute).
  refine (proj2 (manage_ip_sound ∅ behind_proxy forged $"10.0.0.2") _ Hp $"X-Forwarded-For" [] [$"9.9.9.9"] [$"1.2.3.4"; $" 10.0.0.1"] _ _ _ _ [] $"1.2.3.4" [$" 10.0.0.1"] _ _ _ _);
    [by vm_compute|by vm_compute|by vm_compute|unfold short; vm_compute; lia| |done|by vm_compute| |].
  - repeat (apply Forall_cons; split; [apply (bool_decide_unpack _); vm_compute; exact I|]). constructor.
  - intros Hn. apply trust_narrow in Hn. by vm_compute in Hn.
  - apply Forall_cons. split; [|constructor]. intros _. apply trust_narrow. by vm_compute.
Defined.

(** The chain of proxies is believed whoever the connection comes from. *)
Example xff_any_peer :
  getBizClientIP ∅ [] (request_with $"X-Forwarded-For" [$"1.2.3.4"]) $"203.0.113.9:80" (xff_behind $"10.0.0.0/8") = Ok ($"1.2.3.4", $"0").
Proof. by vm_compute. Qed.

(** Only the first line of the header is read: a proxy that adds a line of its own
    instead of extending the client's leaves the client's in charge. *)
Example second_line_ignored :
  GetManageClientIP ∅ behind_proxy (request_with $"X-Forwarded-For" [$"9.9.9.9"; $"1.2.3.4"]) $"10.0.0.2" = $"9.9.9.9".
Proof. by vm_compute. Qed.

(** A range that covers half of all addresses opens no door. *)
Example overbroad_gate :
  Reason (TraceManageClientIP ∅ (mkManage $"X-Real-IP" $"0.0.0.0/1,128.0.0.0/1" []) (request_with $"X-Real-IP" [$"9.9.9.9"]) $"203.0.113.9") = OverBroadGate ∧
  ManageTrustedProxiesHasOverBroad $"10.0.0.0/8, 0.0.0.0/1" = Some $"0.0.0.0/1".
Proof. by vm_compute. Qed.
End examples.
