(* ===== verification/Traversal.v ===== *)
(** * Path traversal and sensitive files (wafenginecore/wafhttpcore/urlencode.go,
      phpurlencode.go, normalize.go, traversal.go; check_dir_traversal.go,
      body_detect_mode.go)

    A value is decoded in rounds, spelled in one way, and then tested for leaving the root
    and for well-known files.  Iteration over a Go map has no order; as the checks only
    ask whether some value hits, a list in any order is the same.  Finding the strings of
    a JSON body is the JSON decoder's work: the check gets them as arguments. *)
From S2P Require Import Prelude.
From S2P Require Import GoLib.
From S2P Require Import GoHttp.
From S2P Require Import GoUrl.
From S2P Require Import Lines.
Local Open Scope Z_scope.
Local Open Scope bool_scope.

(** ** Runes: [\[\]rune(s)] and [string(runes)] *)

Module Utf8.
Definition in_range (lo hi : Z) (c : ascii) : bool := (lo <=? code c) && (code c <=? hi).
Definition cont : ascii → bool := in_range 128 191.
Definition low6 (c : ascii) : Z := code c - 128.
Definition replacement : Z := 65533.

(** The accepted range of the second byte, by the first. *)
Definition second2 (a b : ascii) : bool := in_range 194 223 a && cont b.
Definition second3 (a b : ascii) : bool :=
  (in_range 224 224 a && in_range 160 191 b) || (in_range 237 237 a && in_range 128 159 b) ||
  ((in_range 225 236 a || in_range 238 239 a) && cont b).
Definition second4 (a b : ascii) : bool :=
  (in_range 240 240 a && in_range 144 191 b) || (in_range 244 244 a && in_range 128 143 b) || (in_range 241 243 a && cont b).

(** An invalid byte is one replacement rune. *)
Fixpoint runes (s : gostr) : list Z :=
  match s with
  | [] => []
  | a :: s1 =>
      if is_ascii_byte a then code a :: runes s1
      else
        match s1 with
        | b :: s2 =>
            if second2 a b then ((code a - 192) * 64 + low6 b) :: runes s2
            else
              match s2 with
              | c :: s3 =>
                  if second3 a b && cont c then ((code a - 224) * 4096 + low6 b * 64 + low6 c) :: runes s3
                  else
                    match s3 with
                    | d :: s4 =>
                        if second4 a b && cont c && cont d
                        then ((code a - 240) * 262144 + low6 b * 4096 + low6 c * 64 + low6 d) :: runes s4
                        else replacement :: runes s1
                    | [] => replacement :: runes s1
                    end
              | [] => replacement :: runes s1
              end
        | [] => [replacement]
        end
  end.

Definition encode_rune (r : Z) : gostr :=
  if (0 <=? r) && (r <? 128) then [chr r]
  else if (128 <=? r) && (r <? 2048) then [chr (192 + r / 64); chr (128 + r mod 64)]
  else if (2048 <=? r) && (r <? 65536) && negb ((55296 <=? r) && (r <? 57344))
  then [chr (224 + r / 4096); chr (128 + (r / 64) mod 64); chr (128 + r mod 64)]
  else if (65536 <=? r) && (r <? 1114112)
  then [chr (240 + r / 262144); chr (128 + (r / 4096) mod 64); chr (128 + (r / 64) mod 64); chr (128 + r mod 64)]
  else [chr 239; chr 191; chr 189].
Definition encode (rs : list Z) : gostr := concat (map encode_rune rs).
End Utf8.

Module Traversal.
Section traversal.
Context `{UnicodeCase}.

(** ** Decoding *)

Definition isHexDigit (r : Z) : bool := ((48 <=? r) && (r <=? 57)) || ((65 <=? r) && (r <=? 70)) || ((97 <=? r) && (r <=? 102)).
Definition hexCharToInt (r : Z) : Z :=
  if (48 <=? r) && (r <=? 57) then r - 48
  else if (97 <=? r) && (r <=? 102) then r - 97 + 10
  else if (65 <=? r) && (r <=? 70) then r - 65 + 10 else 0.
Definition hexToInt (a b : Z) : Z := hexCharToInt a * 16 + hexCharToInt b.

Fixpoint php_runes (data : list Z) : list Z :=
  match data with
  | [] => []
  | r :: rest =>
      if r =? 43 then 32 :: php_runes rest
      else if r =? 37 then
        match rest with
        | a :: b :: rest' => if isHexDigit a && isHexDigit b then hexToInt a b :: php_runes rest' else r :: php_runes rest
        | _ => r :: php_runes rest
        end
      else r :: php_runes rest
  end.
Definition phpUrlEncode (str : gostr) : gostr := Utf8.encode (php_runes (Utf8.runes str)).

Definition QueryUnescape (s : gostr) : option gostr := unescape s encodeQueryComponent.

Fixpoint WafHttpCoreUrlEncode (encoded : gostr) (maxDepth : nat) : gostr :=
  match maxDepth with
  | O => encoded
  | S depth =>
      match QueryUnescape encoded with
      | None => phpUrlEncode encoded
      | Some decoded => if bool_decide (decoded = encoded) then decoded else WafHttpCoreUrlEncode decoded depth
      end
  end.
Definition NormalizeForDetection (raw : gostr) : gostr := match raw with [] => [] | _ => WafHttpCoreUrlEncode raw 10 end.

(** ** One spelling *)

Definition traversalOverlong : list (gostr * gostr) :=
  [([chr 192; chr 175], $"/"); ([chr 224; chr 128; chr 175], $"/"); ([chr 240; chr 128; chr 128; chr 175], $"/");
   ([chr 192; chr 174], $"."); ([chr 224; chr 128; chr 174], $".");
   ([chr 193; chr 156], $"/"); ([chr 224; chr 129; chr 156], $"/")].

Definition dots4 : gostr := $"....//".
(** The loop that folds dots; [fuel] bounds its rounds. *)
Fixpoint fold_dots (fuel : nat) (s : gostr) : gostr :=
  match fuel with
  | O => s
  | S fuel' => if contains s dots4 then fold_dots fuel' (replace_all [(dots4, $"../")] s) else s
  end.

Definition normalizeTraversalPath (raw : gostr) : gostr :=
  match raw with
  | [] => []
  | _ =>
      let s := NormalizeForDetection raw in
      let s := replace_all traversalOverlong s in
      let s := replace_all [($"\", $"/")] s in
      let s := fold_dots (length s) s in
      to_lower s
  end.

(** ** The two tests *)

Fixpoint escapes (segs : list gostr) (depth : Z) : bool :=
  match segs with
  | [] => false
  | seg :: segs' =>
      if bool_decide (seg = []) || bool_decide (seg = $".") then escapes segs' depth
      else if bool_decide (seg = $"..") then if depth - 1 <? 0 then true else escapes segs' (depth - 1)
      else escapes segs' (depth + 1)
  end.
Definition escapesRoot (p : gostr) : bool := escapes (split p "/") 0.

Definition absSensitiveFiles : list gostr :=
  [$"/etc/passwd"; $"/etc/shadow"; $"/etc/gshadow"; $"/proc/self/environ"; $"/proc/self/cmdline"; $"/proc/version";
   $"/root/.bash_history"; $"/.ssh/id_rsa"; $"/.ssh/id_dsa"; $"/.ssh/authorized_keys";
   $"/windows/win.ini"; $"/windows/system.ini"; $"/windows/system32/config/sam"; $"/boot.ini"].
Definition nameSensitiveFiles : list gostr := [$"wp-config.php"; $".htpasswd"; $"web-inf/web.xml"; $".git/config"; $".svn/entries"].

(** Every position of [s]; [prev] is the byte before it. *)
Fixpoint token_at (token : gostr) (prev : option ascii) (s : gostr) : bool :=
  let leftOK := match prev with None => true | Some c => one_of c $"/:" end in
  let rightOK := match drop (length token) s with [] => true | c :: _ => one_of c $"/?#." end in
  (has_prefix s token && leftOK && rightOK) || match s with [] => false | c :: s' => token_at token (Some c) s' end.
Definition containsSensitiveToken (s token : gostr) : bool := token_at token None s.
Definition hitSensitiveFile (normalized : gostr) : bool :=
  existsb (containsSensitiveToken normalized) absSensitiveFiles || existsb (containsSensitiveToken normalized) nameSensitiveFiles.

Definition HasTraversalOrLFI (raw : gostr) : bool :=
  match raw with
  | [] => false
  | _ => let n := normalizeTraversalPath raw in escapesRoot n || hitSensitiveFile n
  end.

(** ** The check of a request (check_dir_traversal.go, body_detect_mode.go) *)

Definition maxBodyDetectFieldExclude : nat := 200.
(** The published set of field names; [None] before the configuration is loaded. *)
Definition excludes := option (gset gostr).
Fixpoint exclude_loop (fs : list gostr) (m : gset gostr) : gset gostr :=
  match fs with
  | [] => m
  | f :: fs' =>
      match to_lower (trim_space f) with
      | [] => exclude_loop fs' m
      | f' => let m' := {[f']} ∪ m in if (maxBodyDetectFieldExclude <=? size m')%nat then m' else exclude_loop fs' m'
      end
  end.
Definition SetBodyDetectFieldExclude (csv : gostr) : excludes := Some (exclude_loop (split csv ",") ∅).
Definition isBodyFieldExcluded (bodyFieldExclude : excludes) (field : gostr) : bool :=
  match field with
  | [] => false
  | _ => match bodyFieldExclude with None => false | Some m => bool_decide (to_lower field ∈ m) end
  end.
Definition fieldAt (fields : list gostr) (i : nat) : gostr := default [] (fields !! i).

(** [GCONFIG_BODY_DETECT_MODE] *)
Definition bodyDetectEnabled (mode : gostr) : bool := negb (bool_decide (mode = $"off")).
Definition bodyDetectBlocking (mode : gostr) : bool := bool_decide (mode = $"block").

(** What the check reads of the request and of its record, and what it does to the record. *)
Record inspected := mkInspected {
  Path : gostr;                                (* URL.EscapedPath() *)
  Query : list (gostr * list gostr);           (* URL.Query() *)
  BodyDecoded : gostr; Form : list (gostr * list gostr);
  BodyFields : list gostr; BodyValues : list gostr
}.
Inductive verdict := Clean | Observed | Blocked.

Definition body_hit (ex : excludes) (hit : gostr → bool) (q : inspected) : bool :=
  hit (BodyDecoded q) ||
  existsb (λ kv : gostr * list gostr, negb (isBodyFieldExcluded ex kv.1) && existsb hit kv.2) (Form q) ||
  existsb (λ iv : nat * gostr, negb (isBodyFieldExcluded ex (fieldAt (BodyFields q) iv.1)) && hit iv.2) (imap pair (BodyValues q)).

(** [Blocked]: risk level 2 and a blocking result; [Observed]: a note in the record. *)
Definition CheckDirTraversal (mode : gostr) (ex : excludes) (q : inspected) : verdict :=
  if HasTraversalOrLFI (Path q) then Blocked
  else if existsb (λ kv : gostr * list gostr, existsb HasTraversalOrLFI kv.2) (Query q) then Blocked
  else if bodyDetectEnabled mode then
    if body_hit ex HasTraversalOrLFI q then if bodyDetectBlocking mode then Blocked else Observed
    else Clean
  else Clean.
(** ** Leaving the root, as a path is cleaned *)

(** The elements [path.Clean] would keep of a path read from the root, the last first. *)
Definition kept (p : gostr) : list gostr := foldl (clean_step false) [] (split p "/").

Lemma kept_parent segs acc : $".." ∈ acc → $".." ∈ foldl (clean_step false) acc segs.
Proof.
  revert acc. induction segs as [|seg segs IH]; intros acc Hin; [done|]. cbn [foldl]. apply IH. unfold clean_step.
  destruct (_ || _); [done|]. destruct (bool_decide (seg = $"..")); [|by right].
  destruct acc as [|e acc]; [by left|]. destruct (bool_decide_reflect (e = $"..")) as [->|]; [by left|]. by apply elem_of_cons in Hin as [?|?].
Qed.

Lemma escapes_kept segs acc : $".." ∉ acc → escapes segs (Z.of_nat (length acc)) = true ↔ $".." ∈ foldl (clean_step false) acc segs.
Proof.
  revert acc. induction segs as [|seg segs IH]; intros acc Hacc; cbn [escapes foldl]; [by split|].
  unfold clean_step at 2. destruct (_ || _) eqn:E; [by apply IH|]. destruct (bool_decide (seg = $"..")) eqn:Ed.
  - destruct acc as [|e acc]; cbn [length].
    + split; [intros _; apply kept_parent; by left|done].
    + destruct (Z.ltb_spec (Z.of_nat (S (length acc)) - 1) 0); [lia|]. rewrite bool_decide_false by (intros ->; apply Hacc; by left).
      replace (Z.of_nat (S (length acc)) - 1) with (Z.of_nat (length acc)) by lia. apply IH. intros Hin. apply Hacc. by right.
  - apply bool_decide_eq_false in Ed. replace (Z.of_nat (length acc) + 1) with (Z.of_nat (length (seg :: acc))) by (cbn [length]; lia).
    apply IH. intros [He|Hin]%elem_of_cons; [by symmetry in He|done].
Qed.

(** [escapesRoot] is what it says.  It holds exactly when cleaning the path from the
    root, as [path.Clean] does, leaves a reference to the parent; for a path that does
    not start with a slash that is the result of [path.Clean] itself.  Dots that stay
    inside the tree are not reported. *)
Theorem escapesRoot_exact p :
  escapesRoot p = bool_decide ($".." ∈ kept p) ∧
  (has_prefix p $"/" = false → escapesRoot p = bool_decide ($".." ∈ clean_elems p)).
Proof.
  assert (E : escapesRoot p = bool_decide ($".." ∈ kept p)).
  { apply eq_true_iff_eq. rewrite bool_decide_eq_true. apply (escapes_kept (split p "/") []). by apply not_elem_of_nil. }
  split; [exact E|]. intros Hp. rewrite E. unfold clean_elems. by rewrite Hp.
Qed.

(** ** Folding ends *)

Lemma find_dots s : List.find (λ p : gostr * gostr, has_prefix s p.1) [(dots4, $"../")] = if has_prefix s dots4 then Some (dots4, $"../") else None.
Proof. done. Qed.

Lemma folded_length fuel s : (length s ≤ fuel)%nat →
  (length (replacer [(dots4, $"../")] fuel s) ≤ length s)%nat ∧ (contains s dots4 = true → (length (replacer [(dots4, $"../")] fuel s) < length s)%nat).
Proof.
  revert s. induction fuel as [|fuel IH]; intros s Hs; [destruct s; [split; [done|discriminate]|cbn in Hs; lia]|].
  destruct s as [|a s']; [split; [done|discriminate]|]. cbn [replacer]. rewrite find_dots. destruct (has_prefix (a :: s') dots4) eqn:E.
  - apply has_prefix_split in E as [r Er]. rewrite Er. rewrite drop_app_length, !length_app.
    assert (Hr : (length r ≤ fuel)%nat) by (apply (f_equal length) in Er; rewrite length_app in Er; change (length dots4) with 6%nat in Er; cbn [length] in Er, Hs; lia).
    destruct (IH r Hr) as [Hl _]. change (length dots4) with 6%nat. change (length $"../") with 3%nat. split; intros; lia.
  - cbn [length] in *. destruct (IH s' ltac:(lia)) as [Hl Hc]. split; [lia|]. cbn [contains]. rewrite E. cbn [orb]. intros Hcon. specialize (Hc Hcon). lia.
Qed.

(** the folding loop ends.  Each round shortens the text, so as many rounds as the
    text is long are enough: the result holds no folded dots, and a larger bound gives
    the same. *)
Theorem fold_dots_ends s fuel : (length s ≤ fuel)%nat → contains (fold_dots fuel s) dots4 = false ∧ fold_dots fuel s = fold_dots (length s) s.
Proof.
  enough (Hall : ∀ n s, (length s ≤ n)%nat → ∀ f, (n ≤ f)%nat → contains (fold_dots f s) dots4 = false ∧ fold_dots f s = fold_dots n s).
  { intros Hs. destruct (Hall (length s) s (le_n _) fuel Hs). done. }
  clear. induction n as [|n IH]; intros s Hs f Hf.
  - destruct s; [|cbn in Hs; lia]. by destruct f.
  - destruct f as [|f]; [lia|]. cbn [fold_dots]. destruct (contains s dots4) eqn:E; [|done].
    destruct (folded_length (length s) s (le_n _)) as [_ Hlt]. specialize (Hlt E). apply IH; unfold replace_all; lia.
Qed.

(** ** Layers of encoding *)

(** [layered k t s]: decoding [t] [k] times gives [s]. *)
Inductive layered : nat → gostr → gostr → Prop :=
| layered_done s : layered 0 s s
| layered_more k t t' s : QueryUnescape t = Some t' → layered k t' s → layered (S k) t s.

Lemma layered_fixed k t s : layered k t s → QueryUnescape t = Some t → s = t.
Proof. induction 1 as [|k t t' s Ht _ IH]; intros Hf; [done|]. rewrite Hf in Ht. injection Ht as <-. by apply IH. Qed.

Lemma decoded_layers depth k t s : layered k t s → (k ≤ depth)%nat → QueryUnescape s = Some s → WafHttpCoreUrlEncode t depth = s.
Proof.
  intros Hl. revert depth. induction Hl as [s|k t t' s Ht Hl IH]; intros depth Hd Hs.
  - destruct depth; [done|]. cbn [WafHttpCoreUrlEncode]. rewrite Hs. by rewrite bool_decide_true.
  - destruct depth as [|depth]; [lia|]. cbn [WafHttpCoreUrlEncode]. rewrite Ht. destruct (bool_decide_reflect (t' = t)) as [->|Hne].
    + symmetry. by eapply layered_fixed.
    + apply IH; [lia|done].
Qed.

Lemma unescape_nil t : QueryUnescape t = Some [] → t = [].
Proof.
  unfold QueryUnescape. destruct t as [|c t]; [done|]. cbn [unescape].
  assert (Hc : ∀ (x : ascii) o, cons x <$> o ≠ Some ([] : gostr)) by (intros x []; discriminate).
  repeat match goal with
         | |- context [if ?b then _ else _] => destruct b
         | |- context [match ?l with [] => _ | _ => _ end] => destruct l
         end; intros E; try discriminate; by apply Hc in E.
Qed.

Lemma layered_nil k t : layered k t [] → t = [].
Proof. intros Hl. remember ([] : gostr) as s eqn:Es. induction Hl as [|k t t' s Ht Hl IH]; [done|]. subst s. apply unescape_nil. rewrite Ht. f_equal. by apply IH. Qed.

(** C27: encoding hides nothing, up to ten layers.  A value that decodes in at most ten
    steps to a text without further escapes gets the verdict of that text - however its
    bytes were escaped. *)
Theorem encoding_transparent k t s : layered k t s → (k ≤ 10)%nat → QueryUnescape s = Some s → HasTraversalOrLFI t = HasTraversalOrLFI s.
Proof.
  intros Hl Hk Hs. destruct s as [|c s]; [by rewrite (layered_nil k t Hl)|].
  destruct t as [|d t]; [by apply layered_fixed in Hl|]. unfold HasTraversalOrLFI, normalizeTraversalPath, NormalizeForDetection.
  rewrite (decoded_layers 10 k (d :: t) (c :: s)) by done. rewrite (decoded_layers 10 0 (c :: s) (c :: s)) by (done || lia || constructor). done.
Qed.

(** ** The check *)

(** the body switch does what it promises.  A hit in the path or the query blocks in
    every mode; a hit in the body alone blocks in mode "block" only, is noted in every
    other mode but "off", and there the body is not looked at. *)
Theorem CheckDirTraversal_modes mode ex q :
  let outside := HasTraversalOrLFI (Path q) || existsb (λ kv : gostr * list gostr, existsb HasTraversalOrLFI kv.2) (Query q) in
  let inside := body_hit ex HasTraversalOrLFI q in
  (CheckDirTraversal mode ex q = Blocked ↔ outside = true ∨ (mode = $"block" ∧ inside = true)) ∧
  (CheckDirTraversal mode ex q = Observed ↔ outside = false ∧ inside = true ∧ mode ≠ $"block" ∧ mode ≠ $"off").
Proof.
  cbv zeta. unfold CheckDirTraversal, bodyDetectEnabled, bodyDetectBlocking.
  destruct (HasTraversalOrLFI (Path q)); cbn [orb]; [split; split; intuition discriminate|].
  destruct (existsb _ (Query q)); [split; split; intuition discriminate|].
  destruct (bool_decide_reflect (mode = $"off")) as [->|Hoff]; cbn [negb].
  { split; split; intros Hx; try discriminate; destruct_and?; try destruct Hx as [?|[? ?]]; try discriminate; done. }
  destruct (body_hit ex HasTraversalOrLFI q); [|split; split; intuition discriminate].
  destruct (bool_decide_reflect (mode = $"block")) as [->|Hb]; split; split; intuition (done || discriminate).
Qed.

Lemma exclude_loop_bound fs m : (size m < maxBodyDetectFieldExclude)%nat → (size (exclude_loop fs m) ≤ maxBodyDetectFieldExclude)%nat.
Proof.
  revert m. induction fs as [|f fs IH]; intros m Hm; cbn [exclude_loop]; [lia|]. destruct (to_lower (trim_space f)) as [|c f']; [by apply IH|].
  destruct (Nat.leb_spec maxBodyDetectFieldExclude (size ({[c :: f']} ∪ m))); [|by apply IH].
  assert (size ({[c :: f']} ∪ m) = 1 + size (m ∖ {[c :: f']}))%nat by (rewrite size_union_alt, size_singleton; done).
  assert (size (m ∖ {[c :: f']}) ≤ size m)%nat by (apply subseteq_size; set_solver). lia.
Qed.
End traversal.

(** ** Examples: the vectors of traversal_test.go *)

Section examples.
#[local] Instance ascii_case : UnicodeCase := {| unicode_to_lower s := s |}.
Example hits : forallb HasTraversalOrLFI
  [$"../../../../etc/passwd"; $"..%2f..%2f..%2fetc%2fpasswd"; $"....//....//etc/passwd"; $"/etc/passwd"; $"..\..\..\windows\win.ini";
   $"%252e%252e%252fetc%252fpasswd"; $"..%c0%af..%c0%afetc/passwd"; $"/etc/shadow"; $"/proc/self/environ"; $"C:\windows\win.ini"; $"/var/www/wp-config.php"] = true.
Proof. by vm_compute. Qed.
Example misses : existsb HasTraversalOrLFI
  [$"/assets/theme/../css/app.css"; $"/api/v1/users/123"; $"1.2.3"; $"https://cdn.example.com/a/../b/app.js"; $"app.config.js"; $"uploads/etc/report.csv"; $"/api/environment/list"] = false.
Proof. by vm_compute. Qed.

(** One malformed escape anywhere in the value ends the decoding: the rest is read once,
    rune by rune, so neither a second layer nor an overlong form is seen. *)
Example malformed_escape_hides :
  map HasTraversalOrLFI [$"%252e%252e%252fx"; $"%252e%252e%252fx%zz"; $"..%c0%af..%c0%afx"; $"..%c0%af..%c0%afx%zz"] = [true; false; true; false].
Proof. by vm_compute. Qed.

Lemma fold_dots_ends_witness : contains (fold_dots 20 $"......////") dots4 = false.
Proof. apply (fold_dots_ends $"......////" 20). vm_compute. lia. Defined.

Lemma escapesRoot_exact_witness : escapesRoot $"a/../../b" = true ∧ escapesRoot $"a/../b" = false.
Proof.
  split; (etransitivity; [apply (proj2 (escapesRoot_exact _)); reflexivity|vm_compute; reflexivity]).
Defined.

Lemma encoding_transparent_witness : HasTraversalOrLFI (QueryEscape (QueryEscape $"../x")) = HasTraversalOrLFI $"../x".
Proof.
  apply (encoding_transparent 2); [|lia|vm_compute; reflexivity].
  eapply layered_more; [vm_compute; reflexivity|]. eapply layered_more; [vm_compute; reflexivity|]. apply layered_done.
Defined.
End examples.
End Traversal.
