(* ===== verification/RuleText.v ===== *)
(** * What a custom rule does: its text (utils/rule_action.go; rulehelper.go)

    A custom rule is text in the language of a rule engine; what it does to a matching
    request is the call after [then]: [RF.Deny()], [RF.Allow(...)], [RF.AllowAll()],
    [RF.Log()] or [RF.Ban(n)].  The program finds that call itself, on a skeleton of the text
    in which literals and comments are blanked.  The regular expressions of the source
    are scanners here, with Go's leftmost matches; upper-casing outside ASCII is a
    parameter. *)
From S2P Require Import Prelude.
From S2P Require Import GoLib.
From S2P Require Import GoHttp.
From S2P Require Import GoUrl.
Local Open Scope Z_scope.
Local Open Scope bool_scope.

Class UnicodeUpper := { unicode_to_upper : gostr → gostr }.

Module RuleText.

Definition RuleActionDeny : gostr := $"deny".
Definition RuleActionAllow : gostr := $"allow".
Definition RuleActionLog : gostr := $"log".
Definition RuleActionBan : gostr := $"ban".
Definition RuleSkipAll : gostr := $"ALL".
Definition ruleSkipModules : list gostr :=
  [$"BOT"; $"SQLI"; $"XSS"; $"SCAN"; $"RCE"; $"DIR"; $"CC"; $"AI"; $"SENSITIVE"; $"OWASP"; $"ANTILEECH"; $"CSRF"; $"UPLOAD"; $"CAPTCHA"; RuleSkipAll].

Record RuleActionInfo := mkInfo { Action : gostr; SkipModules : list gostr; BanMinutes : Z }.
Definition SkipAll (info : RuleActionInfo) : bool := bool_decide (RuleSkipAll ∈ SkipModules info).
Definition deny : RuleActionInfo := mkInfo RuleActionDeny [] 0.

(** ** The skeleton *)

Inductive lex := stCode | stDQuote | stSQuote | stLineComment | stBlockComment.
Definition dq : ascii := chr 34.
Definition sq : ascii := "'"%char.
Definition newline (c : ascii) : bool := Ascii.eqb c (chr 10) || Ascii.eqb c (chr 13).
Definition blank (c : ascii) : ascii := if newline c then c else " "%char.

(** Inside a literal that ends with [q]. *)
Definition in_literal (q : ascii) (skel : lex → gostr → gostr) (st : lex) (c : ascii) (s' : gostr) : gostr :=
  if Ascii.eqb c "\" then
    match s' with d :: s'' => blank c :: blank d :: skel st s'' | [] => [blank c] end
  else if Ascii.eqb c q then
    match s' with
    | d :: s'' => if Ascii.eqb d q then blank c :: blank d :: skel st s'' else c :: skel stCode s'
    | [] => [c]
    end
  else blank c :: skel st s'.

Fixpoint skel (st : lex) (s : gostr) : gostr :=
  match s with
  | [] => []
  | c :: s' =>
      match st with
      | stCode =>
          if Ascii.eqb c dq then c :: skel stDQuote s'
          else if Ascii.eqb c sq then c :: skel stSQuote s'
          else
            match s' with
            | d :: _ =>
                if Ascii.eqb c "/" && Ascii.eqb d "/" then blank c :: skel stLineComment s'
                else if Ascii.eqb c "/" && Ascii.eqb d "*" then blank c :: skel stBlockComment s'
                else c :: skel stCode s'
            | [] => [c]
            end
      | stDQuote => in_literal dq skel st c s'
      | stSQuote => in_literal sq skel st c s'
      | stLineComment => if Ascii.eqb c (chr 10) then c :: skel stCode s' else blank c :: skel st s'
      | stBlockComment =>
          match s' with
          | d :: s'' => if Ascii.eqb c "*" && Ascii.eqb d "/" then blank c :: blank d :: skel stCode s'' else blank c :: skel st s'
          | [] => [blank c]
          end
      end
  end.
Definition BuildGrlSkeleton (ruleText : gostr) : gostr := skel stCode ruleText.

(** ** Scanners *)

Definition is_word (c : ascii) : bool := is_alnum c || Ascii.eqb c "_".
(** The class [\s] of package regexp. *)
Definition re_space (c : ascii) : bool := one_of c (chr 9 :: chr 10 :: chr 12 :: chr 13 :: $" ").
Fixpoint span (f : ascii → bool) (s : gostr) : gostr * gostr :=
  match s with
  | c :: s' => if f c then let '(a, b) := span f s' in (c :: a, b) else ([], s)
  | [] => ([], [])
  end.
Definition skip_space (s : gostr) : gostr := (span re_space s).2.
Definition boundary (prev : option ascii) : bool := match prev with Some c => negb (is_word c) | None => true end.

(** All leftmost matches that do not overlap, with their positions; [m] gets the byte
    before and the text, and gives what it found and how long the match is. *)
Fixpoint scan {A} (m : option ascii → gostr → option (A * nat)) (skip pos : nat) (prev : option ascii) (s : gostr) : list (nat * A) :=
  match s with
  | [] => []
  | c :: s' =>
      match skip with
      | S k => scan m k (S pos) (Some c) s'
      | O => match m prev s with
             | Some (a, n) => (pos, a) :: scan m (n - 1) (S pos) (Some c) s'
             | None => scan m 0 (S pos) (Some c) s'
             end
      end
  end.
Definition find_all {A} (m : option ascii → gostr → option (A * nat)) (s : gostr) : list (nat * A) := scan m 0 0 None s.

(** [\brule\s+(\w+)]: the name. *)
Definition m_rule (prev : option ascii) (s : gostr) : option (gostr * nat) :=
  if boundary prev && has_prefix s $"rule" then
    let '(sp, r1) := span re_space (drop 4 s) in
    let '(name, r2) := span is_word r1 in
    if bool_decide (sp = []) || bool_decide (name = []) then None else Some (name, length s - length r2)%nat
  else None.
(** [\bthen\b] *)
Definition m_then (prev : option ascii) (s : gostr) : option (unit * nat) :=
  if boundary prev && has_prefix s $"then" && match drop 4 s with c :: _ => negb (is_word c) | [] => true end then Some ((), 4%nat) else None.
(** [\bsalience\s+(\d+)]: the digits. *)
Definition m_salience (prev : option ascii) (s : gostr) : option (gostr * nat) :=
  if boundary prev && has_prefix s $"salience" then
    let '(sp, r1) := span re_space (drop 8 s) in
    let '(ds, r2) := span is_digit r1 in
    if bool_decide (sp = []) || bool_decide (ds = []) then None else Some (ds, length s - length r2)%nat
  else None.

Definition functions : list gostr := [$"AllowAll"; $"Allow"; $"Deny"; $"Log"; $"Ban"].
(** A call: the function, the place of its arguments, and the length of the whole. *)
Record call := mkCall { fnName : gostr; arg_start : nat; arg_len : nat; whole : nat }.
(** After the name: spaces, and the arguments between the bracket and the next closing
    bracket; [before] bytes were read. *)
Definition m_args (name r : gostr) (before : nat) : option call :=
  match skip_space r with
  | c :: r' =>
      if Ascii.eqb c "(" then
        let at_ := (before + (length r - length r'))%nat in
        match index_byte r' ")" with Some k => Some (mkCall name at_ k (at_ + k + 1)) | None => None end
      else None
  | [] => None
  end.
Fixpoint m_function (names : list gostr) (r : gostr) (before : nat) : option call :=
  match names with
  | [] => None
  | n :: names' =>
      match (if has_prefix r n then m_args n (drop (length n) r) (before + length n) else None) with
      | Some c => Some c
      | None => m_function names' r before
      end
  end.
(** [ruleActionRegex]: RF, a dot, a function, its arguments, spaces between. *)
Definition m_action (_ : option ascii) (s : gostr) : option (call * nat) :=
  if has_prefix s $"RF" then
    match skip_space (drop 2 s) with
    | c :: r => if Ascii.eqb c "." then let r' := skip_space r in (λ c, (c, whole c)) <$> m_function functions r' (length s - length r') else None
    | [] => None
    end
  else None.

(** ** Blocks and their action *)

Record ruleBlock := mkBlock { Name : gostr; Start : nat; End_ : nat }.
Fixpoint close_blocks (ms : list (nat * gostr)) (n : nat) : list ruleBlock :=
  match ms with
  | [] => []
  | (start, name) :: ms' => mkBlock name start (match ms' with (next, _) :: _ => next | [] => n end) :: close_blocks ms' n
  end.
Definition splitRuleBlocks (skeleton : gostr) : list ruleBlock := close_blocks (find_all m_rule skeleton) (length skeleton).
Definition slice (s : gostr) (a b : nat) : gostr := take (b - a) (drop a s).

Section actions.
Context `{UnicodeUpper}.
Definition to_upper (s : gostr) : gostr := if forallb is_ascii_byte s then map upper_byte s else unicode_to_upper s.

(** One argument: the module it names, empty when there is none. *)
Definition unquote (v : gostr) : gostr :=
  match v, List.last v " "%char with
  | c :: rest, e => if (2 <=? length v)%nat && (Ascii.eqb c dq || Ascii.eqb c sq) && Ascii.eqb e c then take (length v - 2) rest else v
  | [], _ => v
  end.
Definition argument (part : gostr) : gostr := match trim_space part with [] => [] | v => to_upper (trim_space (unquote v)) end.
(** The modules, without repetition and sorted, and the names that are none. *)
Definition name_le (a b : gostr) : Prop := bytes_compare (map code a) (map code b) ≠ Gt.
#[global] Instance name_le_dec : RelDecision name_le.
Proof. intros a b. unfold name_le. destruct (bytes_compare _ _); [left|left|right]; congruence. Defined.
Definition add_argument (acc : list gostr * list gostr) (part : gostr) : list gostr * list gostr :=
  match argument part with
  | [] => acc
  | v => if bool_decide (v ∈ ruleSkipModules) then (if bool_decide (v ∈ acc.1) then acc else (acc.1 ++ [v], acc.2)) else (acc.1, acc.2 ++ [v])
  end.
Definition parseActionArgs (argsRaw : gostr) : list gostr * list gostr :=
  let '(mods, bad) := foldl add_argument ([], []) (split argsRaw ",") in (merge_sort name_le mods, bad).

(** [int64((1<<63-1)/time.Minute)] *)
Definition maxBanMinutes : Z := (2 ^ 63 - 1) / minute.

(** What one call says: the action, the unknown names, and whether the minutes are bad. *)
Definition read_call (fn argsRaw : gostr) : RuleActionInfo * list gostr * bool :=
  if bool_decide (fn = $"Deny") then (mkInfo RuleActionDeny [] 0, [], false)
  else if bool_decide (fn = $"Log") then (mkInfo RuleActionLog [] 0, [], false)
  else if bool_decide (fn = $"AllowAll") then (mkInfo RuleActionAllow [RuleSkipAll] 0, [], false)
  else if bool_decide (fn = $"Allow") then let '(mods, bad) := parseActionArgs argsRaw in (mkInfo RuleActionAllow mods 0, bad, false)
  else
    match parse_int (trim_space argsRaw) with
    | None => (mkInfo RuleActionBan [] 0, [], true)
    | Some n => (mkInfo RuleActionBan [] n, [], (n <=? 0) || (maxBanMinutes <? n))
    end.

(** After the first [then]: every call, with its arguments taken from the raw text. *)
Definition calls_of (skeletonBlock : gostr) : option (nat * list (nat * call)) :=
  match find_all m_then skeletonBlock with
  | [] => None
  | (at_, _) :: _ => let offset := (at_ + 4)%nat in Some (offset, find_all m_action (drop offset skeletonBlock))
  end.
Definition raw_args (rawBlock : gostr) (offset : nat) (pc : nat * call) : gostr :=
  let a := (offset + pc.1 + arg_start pc.2)%nat in
  let b := (a + arg_len pc.2)%nat in
  if (b <=? length rawBlock)%nat then slice rawBlock a b else [].

(** The action, the number of calls, the unknown names, and whether some minutes are bad. *)
Definition extractBlockAction (skeletonBlock rawBlock : gostr) : RuleActionInfo * nat * list gostr * bool :=
  match calls_of skeletonBlock with
  | None => (deny, 0%nat, [], false)
  | Some (offset, calls) =>
      let reads := map (λ pc, read_call (fnName pc.2) (raw_args rawBlock offset pc)) calls in
      (match reads with [] => deny | (info, _, _) :: _ => info end, length calls,
       flat_map (λ x : RuleActionInfo * list gostr * bool, x.1.2) reads, existsb (λ x : RuleActionInfo * list gostr * bool, x.2) reads)
  end.

(** At run time: the first call counts; a ban with bad minutes denies. *)
Definition lenient (x : RuleActionInfo * nat * list gostr * bool) : option RuleActionInfo :=
  let '(info, count, _, banErr) := x in
  match count with
  | O => None
  | _ => Some (if bool_decide (Action info = RuleActionBan) && (banErr || (BanMinutes info <=? 0)) then deny else info)
  end.
Definition block_action (skeleton ruleText : gostr) (b : ruleBlock) : RuleActionInfo * nat * list gostr * bool :=
  extractBlockAction (slice skeleton (Start b) (End_ b)) (slice ruleText (Start b) (End_ b)).
Definition ExtractRuleActions (ruleText : gostr) : gmap gostr RuleActionInfo :=
  let skeleton := BuildGrlSkeleton ruleText in
  foldl (λ m b, match lenient (block_action skeleton ruleText b) with Some info => <[Name b := info]> m | None => m end) ∅ (splitRuleBlocks skeleton).

(** [strings.Join(strings.Fields(s), nothing)] *)
Definition squeeze (s : gostr) : gostr := replace_all (map (λ e, (e, [])) space_encodings) s.
Definition hasSingleAction (skeletonBlock : gostr) : bool :=
  match calls_of skeletonBlock with
  | None => true
  | Some (offset, calls) =>
      match map (λ pc : nat * call, squeeze (slice skeletonBlock (offset + pc.1) (offset + pc.1 + whole pc.2))) calls with
      | first :: others => forallb (λ m, bool_decide (m = first)) others
      | [] => true
      end
  end.

Inductive check_error := NoRule | UnknownModule (names : list gostr) | BadMinutes (rule : gostr) | ManyActions (rule : gostr).
(** When a rule is saved. *)
Fixpoint check_blocks (skeleton ruleText : gostr) (blocks : list ruleBlock) (info : RuleActionInfo) : result check_error RuleActionInfo :=
  match blocks with
  | [] => Ok info
  | b :: blocks' =>
      let '(blockInfo, count, invalid, banErr) := block_action skeleton ruleText b in
      if negb (bool_decide (invalid = [])) then Err (UnknownModule invalid)
      else if bool_decide (Action blockInfo = RuleActionBan) && banErr then Err (BadMinutes (Name b))
      else if (1 <? count)%nat && negb (hasSingleAction (slice skeleton (Start b) (End_ b))) then Err (ManyActions (Name b))
      else check_blocks skeleton ruleText blocks' blockInfo
  end.
Definition ExtractRuleActionForCheck (ruleText : gostr) : result check_error RuleActionInfo :=
  let skeleton := BuildGrlSkeleton ruleText in
  match splitRuleBlocks skeleton with
  | [] => Err NoRule
  | blocks => check_blocks skeleton ruleText blocks deny
  end.

Definition CountRuleBlocks (ruleText : gostr) : nat := length (splitRuleBlocks (BuildGrlSkeleton ruleText)).
Definition ExtractRuleNamesFromText (ruleText : gostr) : list gostr := map Name (splitRuleBlocks (BuildGrlSkeleton ruleText)).
Definition ExtractRuleSalience (ruleText : gostr) : Z :=
  match find_all m_salience (BuildGrlSkeleton ruleText) with (_, ds) :: _ => default 0 (parse_int ds) | [] => 0 end.

(** ** The table of a rule set (rulehelper.go) *)

Definition mergeRuleActions (ruleActions : gmap gostr RuleActionInfo) (ruleContent : gostr) : gmap gostr RuleActionInfo :=
  ExtractRuleActions ruleContent ∪ ruleActions.
Definition GetRuleAction (ruleActions : gmap gostr RuleActionInfo) (ruleName : gostr) : RuleActionInfo :=
  match ruleActions !! ruleName with Some info => if bool_decide (Action info = []) then deny else info | None => deny end.
End actions.

(** ** The lexical grammar *)

(** The body of a literal between two [q]: escapes, doubled quotes, other bytes. *)
Inductive literal_body (q : ascii) : gostr → Prop :=
| lit_nil : literal_body q []
| lit_escape c l : literal_body q l → literal_body q ("\"%char :: c :: l)
| lit_double l : literal_body q l → literal_body q (q :: q :: l)
| lit_byte c l : c ≠ q → c ≠ "\"%char → literal_body q l → literal_body q (c :: l).

Inductive piece := Plain (c : ascii) | DString (l : gostr) | SString (l : gostr) | LineComment (t : gostr) | BlockComment (t : gostr).
Definition render (p : piece) : gostr :=
  match p with
  | Plain c => [c]
  | DString l => dq :: l ++ [dq]
  | SString l => sq :: l ++ [sq]
  | LineComment t => $"//" ++ t ++ [chr 10]
  | BlockComment t => $"/*" ++ t ++ $"*/"
  end.
Definition render_all (ps : list piece) : gostr := concat (map render ps).
(** What should be left of it: the bytes of the code, the quotes, the line ends. *)
Definition outline (p : piece) : gostr :=
  match p with
  | Plain c => [c]
  | DString l => dq :: map blank l ++ [dq]
  | SString l => sq :: map blank l ++ [sq]
  | LineComment t => map blank ($"//" ++ t) ++ [chr 10]
  | BlockComment t => map blank ($"/*" ++ t ++ $"*/")
  end.

(** A block comment whose text starts with a slash is not one for the skeleton: it takes
    the star of the opening for one of the closing (see [early_comment_end]). *)
Definition piece_ok (p : piece) : Prop :=
  match p with
  | Plain c => c ≠ dq ∧ c ≠ sq
  | DString l => literal_body dq l
  | SString l => literal_body sq l
  | LineComment t => chr 10 ∉ t
  | BlockComment t => contains ($"*" ++ t ++ $"*") $"*/" = false
  end.
(** What may not come next: a second quote, or the rest of a comment sign. *)
Definition follows (p : piece) (rest : gostr) : Prop :=
  match p, rest with
  | _, [] => True
  | Plain c, d :: _ => c = "/"%char → d ≠ "/"%char ∧ d ≠ "*"%char
  | DString _, d :: _ => d ≠ dq
  | SString _, d :: _ => d ≠ sq
  | _, _ => True
  end.
Fixpoint text_ok (ps : list piece) : Prop :=
  match ps with [] => True | p :: ps' => piece_ok p ∧ follows p (render_all ps') ∧ text_ok ps' end.

Lemma eqb_neq a b : a ≠ b → Ascii.eqb a b = false.
Proof. by intros H%Ascii.eqb_neq. Qed.

Lemma skel_literal q st l rest :
  (∀ c s', skel st (c :: s') = in_literal q skel st c s') → q ≠ "\"%char → literal_body q l →
  (∀ d r, rest = d :: r → d ≠ q) → skel st (l ++ q :: rest) = map blank l ++ q :: skel stCode rest.
Proof.
  intros Hst Hq Hl Hrest. induction Hl as [|c l _ IH|l _ IH|c l Hcq Hcb _ IH]; cbn [app map].
  - rewrite Hst. unfold in_literal. rewrite (eqb_neq q "\") by done. rewrite Ascii.eqb_refl. destruct rest as [|d r]; [done|].
    by rewrite (eqb_neq d q) by by eapply Hrest.
  - rewrite Hst. unfold in_literal. rewrite Ascii.eqb_refl. by rewrite IH.
  - rewrite Hst. unfold in_literal. rewrite (eqb_neq q "\") by done. rewrite Ascii.eqb_refl. cbn [app]. rewrite ?Ascii.eqb_refl. by rewrite IH.
  - rewrite Hst. unfold in_literal. rewrite (eqb_neq c "\"), (eqb_neq c q) by done. by rewrite IH.
Qed.

Lemma skel_line t rest : chr 10 ∉ t → skel stLineComment (t ++ chr 10 :: rest) = map blank t ++ chr 10 :: skel stCode rest.
Proof.
  induction t as [|c t IH]; intros Ht; cbn [app map skel]; [done|]. rewrite (eqb_neq c (chr 10)) by (intros ->; apply Ht; left).
  rewrite IH; [done|]. intros Hin. apply Ht. by right.
Qed.

Lemma skel_block_step c d s : skel stBlockComment (c :: d :: s) =
  if Ascii.eqb c "*" && Ascii.eqb d "/" then blank c :: blank d :: skel stCode s else blank c :: skel stBlockComment (d :: s).
Proof. done. Qed.

Lemma skel_block x rest : contains (x ++ $"*") $"*/" = false → skel stBlockComment (x ++ $"*/" ++ rest) = map blank (x ++ $"*/") ++ skel stCode rest.
Proof.
  induction x as [|c x IH]; [done|]. intros Hx. cbn [app contains] in Hx. apply orb_false_iff in Hx as [Hp Hx]. specialize (IH Hx). cbn [app map].
  destruct (x ++ $"*/" ++ rest) as [|d r] eqn:E; [by destruct x|]. rewrite skel_block_step.
  assert (Hcd : Ascii.eqb c "*" && Ascii.eqb d "/" = false).
  { destruct (Ascii.eqb_spec c "*"); [|done]. destruct (Ascii.eqb_spec d "/"); [|done]. subst. exfalso.
    destruct x as [|e x]; [discriminate E|]. injection E as -> _. cbn in Hp. by destruct x. }
  rewrite Hcd. f_equal. exact IH.
Qed.

Lemma skel_enter_line s : skel stCode ("/"%char :: "/"%char :: s) = " "%char :: skel stLineComment ("/"%char :: s).
Proof. done. Qed.
Lemma skel_enter_block s : skel stCode ("/"%char :: "*"%char :: s) = " "%char :: skel stBlockComment ("*"%char :: s).
Proof. done. Qed.

Lemma skel_piece p rest : piece_ok p → follows p rest → skel stCode (render p ++ rest) = outline p ++ skel stCode rest.
Proof.
  destruct p as [c|l|l|t|t]; cbn [piece_ok render outline]; intros Hp Hf.
  - destruct Hp as [Hd Hs]. cbn [app skel]. rewrite (eqb_neq c dq), (eqb_neq c sq) by done. destruct rest as [|d r]; [done|]. cbn [follows] in Hf.
    destruct (Ascii.eqb_spec c "/") as [->|]; [|done]. destruct Hf as [H1 H2]; [done|]. by rewrite (eqb_neq d "/"), (eqb_neq d "*") by done.
  - cbn [app]. rewrite <- !app_assoc. change (skel stCode (dq :: l ++ [dq] ++ rest)) with (dq :: skel stDQuote (l ++ dq :: rest)).
    by rewrite (skel_literal dq stDQuote) by (done || (intros d r ->; exact Hf)).
  - cbn [app]. rewrite <- !app_assoc. change (skel stCode (sq :: l ++ [sq] ++ rest)) with (sq :: skel stSQuote (l ++ sq :: rest)).
    by rewrite (skel_literal sq stSQuote) by (done || (intros d r ->; exact Hf)).
  - change (($"//" ++ t ++ [chr 10]) ++ rest) with ("/"%char :: "/"%char :: ((t ++ [chr 10]) ++ rest)). rewrite <- app_assoc, skel_enter_line.
    change ("/"%char :: t ++ [chr 10] ++ rest) with (("/"%char :: t) ++ chr 10 :: rest).
    rewrite skel_line by (intros [?|?]%elem_of_cons; done). rewrite <- app_assoc. done.
  - change (($"/*" ++ t ++ $"*/") ++ rest) with ("/"%char :: "*"%char :: ((t ++ $"*/") ++ rest)). rewrite <- app_assoc, skel_enter_block.
    change ("*"%char :: t ++ $"*/" ++ rest) with (("*"%char :: t) ++ $"*/" ++ rest). rewrite skel_block by exact Hp. done.
Qed.

(** the skeleton keeps the code and nothing else.  For every text made of code, literals
    and comments as the rule language reads them, the skeleton has the bytes of the code
    where they were and blanks for the inside of every literal and comment, so positions
    in it are positions in the text. *)
Theorem BuildGrlSkeleton_exact ps : text_ok ps →
  BuildGrlSkeleton (render_all ps) = concat (map outline ps) ∧ length (BuildGrlSkeleton (render_all ps)) = length (render_all ps).
Proof.
  intros Hps. assert (E : BuildGrlSkeleton (render_all ps) = concat (map outline ps)).
  { unfold BuildGrlSkeleton. induction ps as [|p ps IH]; [done|]. destruct Hps as (Hp & Hf & Hps). unfold render_all in *. cbn [map concat].
    rewrite skel_piece by done. by rewrite IH. }
  split; [exact E|]. rewrite E. unfold render_all. clear. induction ps as [|p ps IH]; [done|]. cbn [map concat]. rewrite !length_app, IH. f_equal.
  destruct p; cbn [render outline]; rewrite ?length_app, ?length_map; cbn [length]; rewrite ?length_app, ?length_map; cbn [length]; rewrite ?length_map, ?length_app; done.
Qed.

(** ** What decides the action *)

Section decides.
Context `{UnicodeUpper}.

(** Whether a rule stops the request, lets it pass or only notes it: a ban stops it. *)
Definition decision (info : RuleActionInfo) : gostr := if bool_decide (Action info = RuleActionBan) then RuleActionDeny else Action info.
Definition alike (o1 o2 : option RuleActionInfo) : Prop := option_Forall2 (λ i j, decision i = decision j) o1 o2.

Ltac read_cases fn := unfold read_call; repeat match goal with |- context [if bool_decide (fn = ?n) then _ else _] => destruct (bool_decide (fn = n)) end.

Lemma read_action fn a b : Action (read_call fn a).1.1 = Action (read_call fn b).1.1.
Proof.
  read_cases fn; try done; [by destruct (parseActionArgs a), (parseActionArgs b)|]. by destruct (parse_int (trim_space a)), (parse_int (trim_space b)).
Qed.

Lemma lenient_decision info n l banErr : n ≠ 0%nat → ∃ i, lenient (info, n, l, banErr) = Some i ∧ decision i = decision info.
Proof.
  intros Hn. destruct n as [|n]; [done|]. cbn [lenient]. destruct (bool_decide_reflect (Action info = RuleActionBan)) as [E|E]; cbn [andb]; [|by exists info].
  destruct (banErr || _); [|by exists info]. exists deny. split; [done|]. unfold decision at 2. by rewrite bool_decide_true.
Qed.

Lemma block_alike sk t1 t2 b : alike (lenient (block_action sk t1 b)) (lenient (block_action sk t2 b)).
Proof.
  unfold block_action, extractBlockAction. destruct (calls_of _) as [[offset [|c calls]]|]; [constructor| |constructor]. cbn [map length].
  pose proof (read_action (fnName c.2) (raw_args (slice t1 (Start b) (End_ b)) offset c) (raw_args (slice t2 (Start b) (End_ b)) offset c)) as Hr.
  destruct (read_call _ (raw_args (slice t1 _ _) _ _)) as [[i1 l1] b1], (read_call _ (raw_args (slice t2 _ _) _ _)) as [[i2 l2] b2]. cbn [fst] in Hr.
  match goal with |- alike (lenient (_, ?n, ?l, ?b)) (lenient (_, _, ?l', ?b')) =>
    destruct (lenient_decision i1 n l b) as (j1 & -> & E1); [done|]; destruct (lenient_decision i2 n l' b') as (j2 & -> & E2); [done|] end.
  constructor. rewrite E1, E2. unfold decision. by rewrite Hr.
Qed.

Definition merge_block (sk t : gostr) (m : gmap gostr RuleActionInfo) (b : ruleBlock) : gmap gostr RuleActionInfo :=
  match lenient (block_action sk t b) with Some info => <[Name b := info]> m | None => m end.

Lemma blocks_alike sk t1 t2 bs m1 m2 : (∀ n, alike (m1 !! n) (m2 !! n)) →
  ∀ n, alike (foldl (merge_block sk t1) m1 bs !! n) (foldl (merge_block sk t2) m2 bs !! n).
Proof.
  revert m1 m2. induction bs as [|b bs IH]; intros m1 m2 Hm; [done|]. cbn [foldl]. apply IH. intros n. unfold merge_block.
  destruct (block_alike sk t1 t2 b) as [i1 i2 Hi|]; [|apply Hm].
  destruct (decide (n = Name b)) as [->|Hn]; [rewrite !lookup_insert_eq; by constructor|by rewrite !lookup_insert_ne by done].
Qed.

Lemma actions_alike t1 t2 name : BuildGrlSkeleton t1 = BuildGrlSkeleton t2 → alike (ExtractRuleActions t1 !! name) (ExtractRuleActions t2 !! name).
Proof. intros E. unfold ExtractRuleActions. rewrite E. apply (blocks_alike (BuildGrlSkeleton t2) t1 t2). intros n. rewrite lookup_empty. constructor. Qed.

Lemma GetRuleAction_decision m name : decision (GetRuleAction m name) = match m !! name with Some i => if bool_decide (decision i = []) then RuleActionDeny else decision i | None => RuleActionDeny end.
Proof.
  unfold GetRuleAction. destruct (m !! name) as [i|]; [|done].
  assert (Hi : decision i = [] ↔ Action i = []) by (unfold decision; destruct (bool_decide_reflect (Action i = RuleActionBan)) as [->|]; done).
  destruct (bool_decide_reflect (Action i = [])) as [E|E]; [by rewrite bool_decide_true by by apply Hi|].
  by rewrite bool_decide_false by by intros ?%Hi.
Qed.

(** ** What the arguments are read from *)

(** Where a scanner found something, its matcher matches. *)
Lemma scan_at {A} (m : option ascii → gostr → option (A * nat)) skip pos prev s p a : (p, a) ∈ scan m skip pos prev s →
  (pos ≤ p)%nat ∧ ∃ prev' n, m prev' (drop (p - pos) s) = Some (a, n).
Proof.
  revert skip pos prev. induction s as [|c s IH]; intros skip pos prev Hin; [by apply not_elem_of_nil in Hin|]. cbn [scan] in Hin.
  assert (Hlater : ∀ k prev', (p, a) ∈ scan m k (S pos) prev' s → (pos ≤ p)%nat ∧ ∃ prev' n, m prev' (drop (p - pos) (c :: s)) = Some (a, n)).
  { intros k prev' Hk. destruct (IH _ _ _ Hk) as [Hp Hm]. split; [lia|]. by replace (p - pos)%nat with (S (p - S pos)) by lia. }
  destruct skip as [|k]; [|by eapply Hlater]. destruct (m prev (c :: s)) as [[a' n]|] eqn:E; [|by eapply Hlater].
  apply elem_of_cons in Hin as [[= -> ->]|Hin]; [|by eapply Hlater]. split; [lia|]. rewrite Nat.sub_diag. by exists prev, n.
Qed.
Lemma then_found s p a rest : find_all m_then s = (p, a) :: rest → has_prefix (drop p s) $"then" = true.
Proof.
  intros E. destruct (scan_at m_then 0 0 None s p a) as (_ & prev & n & Hm); [unfold find_all in E; rewrite E; left|]. rewrite Nat.sub_0_r in Hm. unfold m_then in Hm.
  destruct (has_prefix (drop p s) _); [done|]. by rewrite andb_false_r in Hm.
Qed.

Lemma contains_drop s k x : has_prefix (drop k s) x = true → contains s x = true.
Proof.
  revert k. induction s as [|c s IH]; intros [|k] Hk; cbn [contains drop] in *; try (by rewrite Hk). by rewrite (IH k Hk), orb_true_r.
Qed.
Lemma drop_take_drop {A} (s : list A) a k p : drop p (take k (drop a s)) = take (k - p) (drop (a + p) s).
Proof. by rewrite skipn_firstn_comm, drop_drop. Qed.

(** Texts that differ only before the place [n], which no [then] comes before. *)
Lemma block_same sk t1 t2 n b : length t1 = length t2 → drop n t1 = drop n t2 → (n ≤ length sk)%nat → contains (take n sk) $"then" = false →
  block_action sk t1 b = block_action sk t2 b.
Proof.
  intros Hl Hd Hn Hthen. unfold block_action, extractBlockAction. destruct (calls_of _) as [[offset calls]|] eqn:Ec; [|done].
  assert (Hoff : (n ≤ Start b + offset)%nat).
  { unfold calls_of in Ec. destruct (find_all m_then _) as [|[p a] rest] eqn:Et; [done|]. injection Ec as <- _. apply then_found in Et. unfold slice in Et. rewrite drop_take_drop in Et.
    destruct (decide (n ≤ Start b + (p + 4)))%nat as [|Hlt]; [done|]. exfalso. apply Bool.diff_false_true. rewrite <- Hthen. apply (contains_drop _ (Start b + p)).
    apply has_prefix_split in Et as [r Er]. apply has_prefix_split. rewrite skipn_firstn_comm.
    assert (Ed : ∃ r', drop (Start b + p) sk = $"then" ++ r').
    { exists (drop 4 (drop (Start b + p) sk)). rewrite <- (take_drop 4 (drop (Start b + p) sk)) at 1. f_equal.
      assert (E4 : take 4 (take (End_ b - Start b - p) (drop (Start b + p) sk)) = $"then") by (rewrite Er; reflexivity).
      rewrite take_take in E4. destruct (decide (4 ≤ End_ b - Start b - p))%nat as [H4|H4]; [by rewrite Nat.min_l in E4 by lia|].
      exfalso. apply (f_equal length) in E4. rewrite length_take in E4. change (length $"then") with 4%nat in E4. lia. }
    destruct Ed as [r' Ed]. rewrite Ed. exists (take (n - (Start b + p) - 4) r'). rewrite take_app_ge by (cbn; lia). done. }
  assert (Hlen : length (slice t1 (Start b) (End_ b)) = length (slice t2 (Start b) (End_ b))) by (unfold slice; by rewrite !length_take, !length_drop, Hl).
  assert (Hraw : ∀ pc, raw_args (slice t1 (Start b) (End_ b)) offset pc = raw_args (slice t2 (Start b) (End_ b)) offset pc).
  { intros pc. unfold raw_args. rewrite Hlen. destruct (_ <=? _)%nat; [|done]. unfold slice. rewrite !drop_take_drop.
    assert (E : drop (Start b + (offset + pc.1 + arg_start pc.2)) t1 = drop (Start b + (offset + pc.1 + arg_start pc.2)) t2).
    { replace (Start b + (offset + pc.1 + arg_start pc.2))%nat with ((Start b + (offset + pc.1 + arg_start pc.2) - n) + n)%nat by lia. by rewrite <- !(skipn_skipn _ n), Hd. }
    by rewrite E. }
  assert (E : map (λ pc, read_call (fnName pc.2) (raw_args (slice t1 (Start b) (End_ b)) offset pc)) calls
            = map (λ pc, read_call (fnName pc.2) (raw_args (slice t2 (Start b) (End_ b)) offset pc)) calls) by (apply map_ext; intros pc; by rewrite Hraw).
  by rewrite E.
Qed.

Lemma actions_same t1 t2 n : BuildGrlSkeleton t1 = BuildGrlSkeleton t2 → length t1 = length t2 → drop n t1 = drop n t2 → (n ≤ length (BuildGrlSkeleton t2))%nat →
  contains (take n (BuildGrlSkeleton t2)) $"then" = false → ExtractRuleActions t1 = ExtractRuleActions t2.
Proof.
  intros E Hl Hd Hn Hthen. unfold ExtractRuleActions. rewrite E. generalize (∅ : gmap gostr RuleActionInfo). induction (splitRuleBlocks _) as [|b bs IH]; intros m; [done|].
  cbn [foldl]. by rewrite (block_same _ t1 t2 n), IH.
Qed.

Lemma outlines_length ps : length (concat (map outline ps)) = length (render_all ps).
Proof.
  unfold render_all. induction ps as [|p ps IH]; [done|]. cbn [map concat]. rewrite !length_app, IH. f_equal.
  destruct p; cbn [render outline]; rewrite ?length_app, ?length_map; cbn [length]; rewrite ?length_app, ?length_map; cbn [length]; rewrite ?length_map, ?length_app; done.
Qed.
Lemma render_all_app ps qs : render_all (ps ++ qs) = render_all ps ++ render_all qs.
Proof. unfold render_all. by rewrite map_app, concat_app. Qed.

(** C8: text cannot act.  Two rule texts that differ only inside literals and comments -
    values to compare with, which may come from an attacker's request, descriptions,
    remarks - do the same: each of their rules stops, passes or notes in one exactly when
    it does in the other.  And when they differ only before the first [then], the actions
    are the same altogether: the modules skipped and the minutes of a ban as well. *)
Theorem literals_do_not_act w w' t t' name : text_ok (w ++ t) → text_ok (w' ++ t') →
  concat (map outline w) = concat (map outline w') → concat (map outline t) = concat (map outline t') →
  decision (GetRuleAction (ExtractRuleActions (render_all (w ++ t))) name) = decision (GetRuleAction (ExtractRuleActions (render_all (w' ++ t'))) name) ∧
  (contains (concat (map outline w)) $"then" = false → t = t' →
   GetRuleAction (ExtractRuleActions (render_all (w ++ t))) name = GetRuleAction (ExtractRuleActions (render_all (w' ++ t'))) name).
Proof.
  intros H1 H2 Ew Et. apply BuildGrlSkeleton_exact in H1 as [H1 L1], H2 as [H2 L2].
  assert (E : BuildGrlSkeleton (render_all (w ++ t)) = BuildGrlSkeleton (render_all (w' ++ t'))) by (by rewrite H1, H2, !map_app, !concat_app, Ew, Et).
  split.
  - rewrite !GetRuleAction_decision. destruct (actions_alike (render_all (w ++ t)) (render_all (w' ++ t')) name) as [i j Hd|]; [done|by rewrite Hd|done].
  - intros Hthen <-. assert (Hlen : length (render_all w) = length (render_all w')) by (by rewrite <- !outlines_length, Ew).
    rewrite (actions_same (render_all (w ++ t)) (render_all (w' ++ t)) (length (render_all w))); [done|done|..].
    + by rewrite <- L1, <- L2, E.
    + rewrite !render_all_app. rewrite drop_app_length, Hlen, drop_app_length. done.
    + rewrite L2, render_all_app, length_app. lia.
    + rewrite H2, map_app, concat_app, <- outlines_length, Ew, take_app_length. by rewrite <- Ew.
Qed.

Lemma parsed_first sk raw info count invalid banErr : extractBlockAction sk raw = (info, count, invalid, banErr) →
  (Action info = RuleActionBan → banErr = false → 0 < BanMinutes info) ∧ (count = 0%nat → info = deny) ∧ Action info ≠ [].
Proof.
  unfold extractBlockAction. destruct (calls_of sk) as [[offset [|c calls]]|]; [by intros [= <- <- _ _]| |by intros [= <- <- _ _]].
  cbn [map length]. intros [= <- <- _ <-]. split; [|split; [done|]].
  - read_cases (fnName c.2); try done; [by destruct (parseActionArgs _)|]. destruct (parse_int _) as [n|]; [|done]. cbn. intros _ Hb.
    apply orb_false_iff in Hb as [Hb _]. apply orb_false_iff in Hb as [Hb _]. apply Z.leb_gt in Hb. done.
  - read_cases (fnName c.2); try done; [by destruct (parseActionArgs _)|by destruct (parse_int _)].
Qed.

(** C26: what was saved is what runs.  When a text with one rule passes the check made on
    saving, the action it was shown to have is the action the engine takes - the minutes
    of a ban and the modules skipped included. *)
Theorem check_matches_run ruleText b info :
  splitRuleBlocks (BuildGrlSkeleton ruleText) = [b] → ExtractRuleActionForCheck ruleText = Ok info →
  GetRuleAction (ExtractRuleActions ruleText) (Name b) = info ∧ (Action info = RuleActionBan → 0 < BanMinutes info).
Proof.
  unfold ExtractRuleActionForCheck, ExtractRuleActions. intros Eb. rewrite Eb. cbn [check_blocks foldl].
  destruct (block_action (BuildGrlSkeleton ruleText) ruleText b) as [[[i n] bad] e] eqn:E. pose proof (parsed_first _ _ _ _ _ _ E) as (Hmin & Hzero & Hne).
  destruct (negb (bool_decide (bad = []))); [done|]. destruct (bool_decide_reflect (Action i = RuleActionBan)) as [Hban|Hban]; cbn [andb].
  - destruct e; [done|]. destruct (_ && _); [done|]. intros [= <-]. specialize (Hmin Hban eq_refl). split; [|done].
    destruct n as [|n]; [rewrite (Hzero eq_refl) in Hban; done|]. cbn [lenient]. rewrite bool_decide_true by done. cbn [orb andb].
    destruct (Z.leb_spec (BanMinutes i) 0); [lia|]. unfold GetRuleAction. rewrite lookup_insert_eq. by rewrite bool_decide_false.
  - destruct (_ && _); [done|]. intros [= <-]. split; [|done]. unfold GetRuleAction. destruct n as [|n]; cbn [lenient].
    + rewrite lookup_empty. by rewrite Hzero.
    + rewrite (bool_decide_false (Action i = RuleActionBan)) by done. cbn [andb]. rewrite lookup_insert_eq. by rewrite bool_decide_false.
Qed.
End decides.

(** ** Examples and witnesses *)

Section examples.
#[local] Instance ascii_upper : UnicodeUpper := {| unicode_to_upper s := s |}.
Definition quoted (s : gostr) : gostr := dq :: s ++ [dq].
Definition plain (s : gostr) : list piece := map Plain s.

(** A rule that compares the URL with [v]. *)
Definition url_rule (v : gostr) : list piece :=
  plain $"rule R1 { when MF.URL.Contains(" ++ [DString v] ++ plain $") then " ++ [BlockComment $" RF.Allow() "] ++ plain $" RF.Deny(); }".
Definition harmless : gostr := $"/some/ordinary/path".
Definition hostile : gostr := $") then RF.Allow(); ".

Lemma plain_ok s rest : forallb (λ c, negb (one_of c [dq; sq; "/"%char])) s = true → text_ok rest → text_ok (plain s ++ rest).
Proof.
  induction s as [|c s IH]; [done|]. cbn [forallb plain map app text_ok]. intros [Hc Hs]%andb_true_iff Hr. apply negb_true_iff in Hc. cbn in Hc. rewrite !orb_false_iff in Hc.
  destruct Hc as (H1 & H2 & H3 & _). split; [split; by apply Ascii.eqb_neq|]. split; [|by apply IH].
  destruct (render_all (map Plain s ++ rest)); [done|]. cbn [follows]. intros ->. by apply Ascii.eqb_neq in H3.
Qed.

Lemma literal_plain s : forallb (λ c, negb (one_of c [dq; "\"%char])) s = true → literal_body dq s.
Proof.
  induction s as [|c s IH]; [constructor|]. cbn [forallb]. intros [Hc Hs]%andb_true_iff. apply negb_true_iff in Hc. cbn in Hc. rewrite !orb_false_iff in Hc.
  destruct Hc as (H1 & H2 & _). apply lit_byte; [by apply Ascii.eqb_neq|by apply Ascii.eqb_neq|by apply IH].
Qed.

Lemma url_rule_ok v : forallb (λ c, negb (one_of c [dq; "\"%char])) v = true → text_ok (url_rule v).
Proof.
  intros Hv. unfold url_rule. apply plain_ok; [by vm_compute|]. cbn [app text_ok]. split; [by apply literal_plain|]. split; [done|].
  apply (plain_ok $") then "); [by vm_compute|]. cbn [text_ok]. split; [by vm_compute|]. split; [done|]. rewrite <- (app_nil_r (plain $" RF.Deny(); }")). by apply plain_ok.
Qed.

Lemma BuildGrlSkeleton_exact_witness : BuildGrlSkeleton (render_all (url_rule hostile)) = concat (map outline (url_rule hostile)).
Proof. apply (BuildGrlSkeleton_exact (url_rule hostile)). by apply url_rule_ok. Defined.

(** A rule that bans for half an hour, on a comparison with [v]. *)
Definition ban_when (v : gostr) : list piece := plain $"rule R1 { when MF.URL.Contains(" ++ [DString v] ++ plain $") ".
Definition ban_then : list piece := plain $"then RF.Ban(30); }".
Lemma ban_rule_ok v : forallb (λ c, negb (one_of c [dq; "\"%char])) v = true → text_ok (ban_when v ++ ban_then).
Proof.
  intros Hv. unfold ban_when. rewrite <- !app_assoc. apply plain_ok; [by vm_compute|]. cbn [app text_ok]. split; [by apply literal_plain|]. split; [done|].
  apply (plain_ok $") "); [by vm_compute|]. rewrite <- (app_nil_r ban_then). by apply plain_ok.
Qed.
Lemma literals_do_not_act_witness :
  GetRuleAction (ExtractRuleActions (render_all (ban_when $") then RF.Ban(9); RF" ++ ban_then))) $"R1" = mkInfo RuleActionBan [] 30.
Proof.
  destruct (literals_do_not_act (ban_when $") then RF.Ban(9); RF") (ban_when $"/some/ordinary/path.") ban_then ban_then $"R1") as [_ E];
    [by apply ban_rule_ok|by apply ban_rule_ok|by vm_compute|done|]. rewrite E; [by vm_compute|by vm_compute|done].
Defined.

Definition allow_rule : gostr := $"rule R7 { when true then RF.Allow(" ++ quoted $"cc" ++ $", 'AI'); }".
Lemma check_matches_run_witness : GetRuleAction (ExtractRuleActions allow_rule) $"R7" = mkInfo RuleActionAllow [$"AI"; $"CC"] 0.
Proof.
  assert (Hs : splitRuleBlocks (BuildGrlSkeleton allow_rule) = [mkBlock $"R7" 0 (length allow_rule)]) by (vm_compute; reflexivity).
  assert (Hc : ExtractRuleActionForCheck allow_rule = Ok (mkInfo RuleActionAllow [$"AI"; $"CC"] 0)) by (vm_compute; reflexivity).
  exact (proj1 (check_matches_run allow_rule _ _ Hs Hc)).
Defined.

(** The skeleton ends a comment that opens with the bytes slash, star, slash at once, and
    takes a call inside the comment for the rule's action. *)
Example early_comment_end :
  ExtractRuleActionForCheck $"rule R1 { when true then /*/ RF.Allow() */ RF.Deny(); }" = Err (ManyActions $"R1") ∧
  Action (GetRuleAction (ExtractRuleActions $"rule R1 { when true then /*/ RF.Allow() */ RF.Deny(); }") $"R1") = RuleActionAllow.
Proof. by vm_compute. Qed.

(** Two calls that differ in their arguments only pass the check for a single action, and
    the second one is ignored. *)
Definition two_allows : gostr := $"rule R1 { when true then RF.Allow(" ++ quoted $"CC" ++ $"); RF.Allow(" ++ quoted $"XSS" ++ $"); }".
Example two_allows_accepted : ExtractRuleActionForCheck two_allows = Ok (mkInfo RuleActionAllow [$"CC"] 0).
Proof. by vm_compute. Qed.

Example bad_minutes :
  ExtractRuleActionForCheck $"rule R1 { when true then RF.Ban(0); }" = Err (BadMinutes $"R1") ∧
  GetRuleAction (ExtractRuleActions $"rule R1 { when true then RF.Ban(0); }") $"R1" = deny.
Proof. by vm_compute. Qed.
Example names_and_salience :
  ExtractRuleNamesFromText $"rule Ra 'x' salience 12 { } rule Rb { }" = [$"Ra"; $"Rb"] ∧ ExtractRuleSalience $"rule Ra 'salience 9' salience 12 { }" = 12 ∧
  CountRuleBlocks $"rule Ra 'rule Rc' { }" = 1%nat.
Proof. by vm_compute. Qed.
End examples.

End RuleText.
