(* ===== verification/RuleForm.v ===== *)
(** * Rules made from a form (model/rule_grl_safe.go, model/rule_info_json.go)

    The administration page turns a form - conditions, a remark, an action - into the text
    of a custom rule.  Values may come from an attack log, so strings are escaped and
    everything else must be on a list of allowed words.  The main theorem says that the
    text is one rule with exactly the chosen action, whatever the values are. *)
From S2P Require Import Prelude.
From S2P Require Import GoLib.
From S2P Require Import GoHttp.
From S2P Require Import GoUrl.
From S2P Require Import Lines.
From S2P Require Import Traversal.
From S2P Require Import RuleText.
Local Open Scope Z_scope.
Local Open Scope bool_scope.

Module RuleForm.
Import RuleText.

(** ** Escaping *)

Definition escape_rune (r : Z) : gostr :=
  if r =? 92 then $"\\"
  else if r =? 34 then ["\"%char; dq]
  else if (r =? 13) || (r =? 10) || (r =? 9) then []
  else if (r <? 32) || (r =? 127) then []
  else Utf8.encode_rune r.
Definition EscapeGrlString (s : gostr) : gostr := concat (map escape_rune (Utf8.runes s)).

(** ** The allowed words *)

Definition ruleAttrSimpleWhiteList : list gostr :=
  [$"HOST"; $"URL"; $"REFERER"; $"USER_AGENT"; $"METHOD"; $"COOKIES"; $"BODY"; $"PORT"; $"SRC_IP"; $"COUNTRY"; $"PROVINCE"; $"CITY"; $"IsSafeBot()"].
Definition ruleJudgeWhiteList : list gostr :=
  [$"=="; $"!="; $">"; $"<"; $">="; $"<="; $"system.Contains"; $"system.HasPrefix"; $"system.HasSuffix"].
Definition ruleRelationSymbolWhiteList : list gostr := [$"&&"; $"||"].
Definition ruleAttrTypeWhiteList : list gostr := [$"string"; $"int"; $"float"; $"bool"].

(** [ruleAttrHeaderRegex]: GetHeaderValue, a bracket, a quoted name of 1 to 64 bytes, a
    bracket. *)
Definition header_open : gostr := $"GetHeaderValue(" ++ [dq].
Definition header_close : gostr := dq :: $")".
Definition header_byte (c : ascii) : bool := is_word c || Ascii.eqb c "-".
Definition ruleAttrHeaderRegex (s : gostr) : bool :=
  has_prefix s header_open &&
  let '(name, r) := span header_byte (drop (length header_open) s) in
  bool_decide (r = header_close) && (1 <=? length name)%nat && (length name <=? 64)%nat.
(** [ruleAttrFailCountRegex]: GetIPFailureCount with 1 to 5 digits. *)
Definition count_open : gostr := $"GetIPFailureCount(".
Definition ruleAttrFailCountRegex (s : gostr) : bool :=
  has_prefix s count_open &&
  let '(ds, r) := span is_digit (drop (length count_open) s) in
  bool_decide (r = $")") && (1 <=? length ds)%nat && (length ds <=? 5)%nat.
(** [ruleNumberRegex]: an optional sign, digits, and optionally a dot with digits. *)
Definition ruleNumberRegex (s : gostr) : bool :=
  let s := match s with c :: r => if Ascii.eqb c "-" then r else s | [] => s end in
  let '(ds, r) := span is_digit s in
  negb (bool_decide (ds = [])) &&
  match r with
  | [] => true
  | c :: r' => Ascii.eqb c "." && let '(fs, r'') := span is_digit r' in negb (bool_decide (fs = [])) && bool_decide (r'' = [])
  end.
Definition ruleNameRegex (s : gostr) : bool := forallb is_alnum s && (1 <=? length s)%nat && (length s <=? 64)%nat.

Inductive form_error := BadFact | BadAttr | BadJudge | BadRelation | BadType | BadValue | BadBool | BadName.
Definition valid (b : bool) (e : form_error) : result form_error () := if b then Ok () else Err e.
Definition ValidateRuleFactName (factName : gostr) : result form_error () := valid (bool_decide (factName = $"MF")) BadFact.
Definition ValidateRuleAttr (attr : gostr) : result form_error () :=
  valid (bool_decide (attr ∈ ruleAttrSimpleWhiteList) || ruleAttrHeaderRegex attr || ruleAttrFailCountRegex attr) BadAttr.
Definition ValidateRuleJudge (judge : gostr) : result form_error () := valid (bool_decide (judge ∈ ruleJudgeWhiteList)) BadJudge.
Definition ValidateRuleRelationSymbol (symbol : gostr) : result form_error () :=
  valid (bool_decide (symbol = []) || bool_decide (symbol ∈ ruleRelationSymbolWhiteList)) BadRelation.
Definition ValidateRuleAttrType (attrType : gostr) : result form_error () := valid (bool_decide (attrType ∈ ruleAttrTypeWhiteList)) BadType.
Definition ValidateRuleAttrVal (attrType attrVal : gostr) : result form_error () :=
  if bool_decide (attrType = $"string") then Ok ()
  else
    let v := trim_space attrVal in
    if bool_decide (attrType = $"int") || bool_decide (attrType = $"float") then valid (ruleNumberRegex v) BadValue
    else if bool_decide (attrType = $"bool") then valid (bool_decide (v = $"true") || bool_decide (v = $"false")) BadValue
    else Ok ().
Definition ValidateRuleBoolVal (val : gostr) : result form_error () := valid (bool_decide (val = $"true") || bool_decide (val = $"false")) BadBool.
Definition ValidateRuleName (name : gostr) : result form_error () := valid (ruleNameRegex name) BadName.

(** ** The form *)

Record RelationDetail := mkDetail { FactName : gostr; Attr : gostr; AttrType : gostr; AttrJudge : gostr; AttrVal : gostr; AttrVal2 : gostr }.
(** [RuleInfo], [RuleBase] and [RuleCondition], as far as [GenRuleInfo] reads them. *)
Record RuleInfo := mkRule {
  RuleAction : gostr; RuleActionSkips : list gostr;
  RSalience : Z; RuleName : gostr;
  Details : list RelationDetail; RelationSymbol : gostr }.

Section form.
Context `{UnicodeUpper}.

Definition ruleSkipModuleWhiteList : list gostr :=
  [$"BOT"; $"SQLI"; $"XSS"; $"SCAN"; $"RCE"; $"DIR"; $"CC"; $"AI"; $"SENSITIVE"; $"OWASP"; $"ANTILEECH"; $"CSRF"; $"UPLOAD"; $"CAPTCHA"].
(** The loop over the skips: up to an ALL, which is [None]. *)
Fixpoint chosen_skips (ms : list gostr) (skips : list gostr) : option (list gostr) :=
  match ms with
  | [] => Some skips
  | m :: ms' =>
      let m := to_upper (trim_space m) in
      if bool_decide (m = $"ALL") then None
      else chosen_skips ms' (if bool_decide (m ∈ ruleSkipModuleWhiteList) then skips ++ [m] else skips)
  end.
Definition quoted (m : gostr) : gostr := dq :: m ++ [dq].
Definition genRuleActionStmt (rule : RuleInfo) : gostr :=
  if bool_decide (RuleAction rule = $"log") then $"RF.Log();"
  else if bool_decide (RuleAction rule = $"allow") then
    match chosen_skips (RuleActionSkips rule) [] with
    | None => $"RF.AllowAll();"
    | Some [] => $"RF.Allow();"
    | Some skips => $"RF.Allow(" ++ join (map quoted skips) $", " ++ $");"
    end
  else $"RF.Deny();".

Local Open Scope samwaf_scope.
Definition condition_expr (c : RelationDetail) : result form_error gostr :=
  let? _ := ValidateRuleFactName (FactName c) in
  let? _ := ValidateRuleAttr (Attr c) in
  let? _ := ValidateRuleJudge (AttrJudge c) in
  let? _ := ValidateRuleAttrType (AttrType c) in
  let? _ := ValidateRuleAttrVal (AttrType c) (AttrVal c) in
  let attrVal := if bool_decide (AttrType c = $"string") then quoted (EscapeGrlString (AttrVal c)) else trim_space (AttrVal c) in
  if has_prefix (AttrJudge c) $"system." then
    let? _ := ValidateRuleBoolVal (AttrVal2 c) in
    Ok (FactName c ++ $"." ++ Attr c ++ $"." ++ trim_prefix (AttrJudge c) $"system." ++ $"(" ++ attrVal ++ $") == " ++ AttrVal2 c)
  else Ok (FactName c ++ $"." ++ Attr c ++ $" " ++ AttrJudge c ++ $" " ++ attrVal).
Fixpoint conditions (symbol : gostr) (cs : list RelationDetail) (conditionTpl : gostr) : result form_error gostr :=
  match cs with
  | [] => Ok conditionTpl
  | c :: cs' =>
      let? expr := condition_expr c in
      conditions symbol cs' (if bool_decide (conditionTpl = []) then expr else conditionTpl ++ $" " ++ symbol ++ $" " ++ expr)
  end.

Definition clamp (salience : Z) : Z := let s := if salience <? 0 then 0 else salience in if 10000 <? s then 10000 else s.
Definition nl : gostr := [chr 10].
Definition rule_text (name remark salience condition stmt : gostr) : gostr :=
  nl ++ $"rule R" ++ name ++ $" " ++ quoted remark ++ $" salience " ++ salience ++ $" {" ++ nl ++ $"    when" ++ nl ++ $"        " ++ condition
  ++ nl ++ $"    then" ++ nl ++ [chr 9; chr 9] ++ stmt ++ nl ++ $"} ".
Definition GenRuleInfo (rule : RuleInfo) (remark : gostr) : result form_error gostr :=
  let? _ := ValidateRuleName (RuleName rule) in
  let? _ := ValidateRuleRelationSymbol (RelationSymbol rule) in
  let? conditionTpl := conditions (RelationSymbol rule) (Details rule) [] in
  Ok (rule_text (RuleName rule) (EscapeGrlString remark) (itoa (clamp (RSalience rule))) conditionTpl (genRuleActionStmt rule)).
End form.

(** ** Escaped text stays inside its quotes *)

(** Not the quote, not the backslash, no line end. *)
Definition quiet_byte (c : ascii) : bool := negb (Ascii.eqb c dq) && negb (Ascii.eqb c "\") && negb (newline c).
Lemma quiet_chr n : 32 ≤ n < 256 → n ≠ 34 → n ≠ 92 → quiet_byte (chr n) = true.
Proof.
  intros Hn H1 H2. assert (Hall : forallb (λ n, (n =? 34) || (n =? 92) || quiet_byte (chr n)) (seqZ 32 224) = true) by by vm_compute.
  rewrite forallb_elem_of in Hall. specialize (Hall n ltac:(apply elem_of_seqZ; lia)). by rewrite (proj2 (Z.eqb_neq n 34)), (proj2 (Z.eqb_neq n 92)) in Hall.
Qed.
Lemma quiet_high n : 128 ≤ n < 256 → quiet_byte (chr n) = true.
Proof. intros Hn. apply quiet_chr; lia. Qed.
Lemma quiet_low n : quiet_byte (chr (128 + n mod 64)) = true.
Proof. apply quiet_high. pose proof (Z.mod_pos_bound n 64). lia. Qed.
Lemma encode_quiet r : 32 ≤ r → r ≠ 34 → r ≠ 92 → forallb quiet_byte (Utf8.encode_rune r) = true.
Proof.
  intros Hr H1 H2. unfold Utf8.encode_rune.
  destruct ((0 <=? r) && (r <? 128)) eqn:E1; [prop_of_bool; cbn [forallb]; by rewrite quiet_chr by lia|].
  destruct ((128 <=? r) && (r <? 2048)) eqn:E2.
  { prop_of_bool. cbn [forallb]. rewrite quiet_low, quiet_high; [done|]. assert (4 ≤ r / 64 < 32 ∨ 2 ≤ r / 64 < 32) by (right; split; [apply Z.div_le_lower_bound|apply Z.div_lt_upper_bound]; lia). lia. }
  destruct ((2048 <=? r) && (r <? 65536) && negb ((55296 <=? r) && (r <? 57344))) eqn:E3.
  { prop_of_bool. cbn [forallb]. rewrite !quiet_low, quiet_high; [done|]. assert (0 ≤ r / 4096 < 16) by (split; [apply Z.div_pos|apply Z.div_lt_upper_bound]; lia). lia. }
  destruct ((65536 <=? r) && (r <? 1114112)) eqn:E4; [|by vm_compute].
  prop_of_bool. cbn [forallb]. rewrite !quiet_low, quiet_high; [done|]. assert (0 ≤ r / 262144 < 5) by (split; [apply Z.div_pos|apply Z.div_lt_upper_bound]; lia). lia.
Qed.

Lemma literal_app l l' : literal_body dq l → literal_body dq l' → literal_body dq (l ++ l').
Proof. intros Hl Hl'. induction Hl; cbn [app]; [done|by constructor..]. Qed.
Lemma literal_quiet l : forallb quiet_byte l = true → literal_body dq l.
Proof.
  induction l as [|c l IH]; [constructor|]. cbn [forallb]. unfold quiet_byte at 1. rewrite !andb_true_iff, !negb_true_iff. intros [[[H1%Ascii.eqb_neq H2%Ascii.eqb_neq] _] Hl].
  apply lit_byte; auto.
Qed.
Lemma blank_quiet l : forallb quiet_byte l = true → map blank l = replicate (length l) " "%char.
Proof.
  induction l as [|c l IH]; [done|]. cbn [forallb]. unfold quiet_byte at 1. rewrite !andb_true_iff, !negb_true_iff. intros [[_ Hn] Hl]. cbn [map length replicate]. unfold blank at 1.
  rewrite Hn. by rewrite IH.
Qed.

Definition spaces (n : nat) : gostr := replicate n " "%char.
Lemma escape_rune_ok r : literal_body dq (escape_rune r) ∧ ∃ n, map blank (escape_rune r) = spaces n.
Proof.
  unfold escape_rune. destruct (Z.eqb_spec r 92); [split; [apply lit_escape, lit_nil|by exists 2%nat]|].
  destruct (Z.eqb_spec r 34); [split; [apply lit_escape, lit_nil|by exists 2%nat]|].
  destruct (_ || (r =? 9)); [split; [apply lit_nil|by exists 0%nat]|]. destruct (_ || _) eqn:E; [split; [apply lit_nil|by exists 0%nat]|]. prop_of_bool.
  pose proof (encode_quiet r ltac:(lia) ltac:(done) ltac:(done)) as Hq. split; [by apply literal_quiet|]. exists (length (Utf8.encode_rune r)). by apply blank_quiet.
Qed.
(** Whatever is escaped is the body of one literal, and leaves blanks in the skeleton. *)
Lemma EscapeGrlString_ok s : literal_body dq (EscapeGrlString s) ∧ ∃ n, map blank (EscapeGrlString s) = spaces n.
Proof.
  unfold EscapeGrlString. induction (Utf8.runes s) as [|r rs [IH1 [n IH2]]]; [split; [apply lit_nil|by exists 0%nat]|]. cbn [map concat].
  destruct (escape_rune_ok r) as [H1 [k H2]]. split; [by apply literal_app|]. exists (k + n)%nat. rewrite map_app, H2, IH2. unfold spaces. by rewrite replicate_add.
Qed.

(** ** The text as code and literals *)

(** A piece [t] whose skeleton is [s], in front of any code that does not start with a
    quote. *)
Definition part (t s : gostr) : Prop :=
  length t = length s ∧ ∀ c r, c ≠ dq → skel stCode (t ++ c :: r) = s ++ skel stCode (c :: r).
Definition opens_with_code (t : gostr) : Prop := match t with [] => True | c :: _ => c ≠ dq end.
Lemma part_nil : part [] [].
Proof. done. Qed.
Lemma part_app t s t' s' : opens_with_code t' → part t s → part t' s' → part (t ++ t') (s ++ s').
Proof.
  intros Ho [L1 H1] [L2 H2]. split; [by rewrite !length_app, L1, L2|]. intros c r Hc. rewrite <- !app_assoc. destruct t' as [|d t'].
  - destruct s'; [|done]. by apply H1.
  - cbn [app]. rewrite H1 by exact Ho. f_equal. by apply (H2 c r).
Qed.
(** Bytes of code: no quotes, no slash. *)
Definition code_byte (c : ascii) : bool := negb (Ascii.eqb c dq) && negb (Ascii.eqb c sq) && negb (Ascii.eqb c "/").
Lemma skel_code c s : code_byte c = true → skel stCode (c :: s) = c :: skel stCode s.
Proof. unfold code_byte. rewrite !andb_true_iff, !negb_true_iff. intros [[H1 H2] H3]. cbn [skel]. rewrite H1, H2, H3. by destruct s. Qed.
Lemma part_code t : forallb code_byte t = true → part t t.
Proof.
  intros Ht. split; [done|]. intros c r Hc. induction t as [|d t IH]; [done|]. cbn [forallb] in Ht. apply andb_true_iff in Ht as [Hd Ht].
  change ((d :: t) ++ c :: r) with (d :: (t ++ c :: r)). rewrite skel_code by done. by rewrite IH.
Qed.
Lemma part_code_app t t' s' : forallb code_byte t = true → part t' s' → part (t ++ t') (t ++ s').
Proof.
  intros Ht [L H]. split; [by rewrite !length_app, L|]. intros c r Hc. rewrite <- !app_assoc, <- H by done. generalize (t' ++ c :: r). intros u.
  induction t as [|d t IH]; [done|]. cbn [forallb] in Ht. apply andb_true_iff in Ht as [Hd Ht]. change ((d :: t) ++ u) with (d :: (t ++ u)). rewrite skel_code by done. by rewrite IH.
Qed.
Lemma part_literal l : literal_body dq l → part (quoted l) (dq :: map blank l ++ [dq]).
Proof.
  intros Hl. split; [unfold quoted; cbn; by rewrite !length_app, length_map|]. intros c r Hc. unfold quoted. cbn [app]. rewrite <- !app_assoc.
  change (skel stCode (dq :: l ++ [dq] ++ c :: r)) with (dq :: skel stDQuote (l ++ dq :: c :: r)).
  rewrite (skel_literal dq stDQuote) by (done || (intros d u [= <- <-]; exact Hc)). done.
Qed.

(** ** Where a word does not occur *)

(** Whether the word [w] may start at the head of a text that begins with [v]. *)
Definition may_start (w v : gostr) : bool := has_prefix v w || has_prefix w v.
Fixpoint free (w t : gostr) : bool := match t with [] => true | c :: t' => negb (may_start w t) && free w t' end.

Lemma may_start_app w v r : may_start w v = false → v ≠ [] → has_prefix (v ++ r) w = false.
Proof.
  intros Hm Hv. destruct (has_prefix (v ++ r) w) eqn:E; [|done]. apply has_prefix_split in E as [x E]. unfold may_start in Hm. apply orb_false_iff in Hm as [H1 H2].
  apply app_eq_inv in E as [(k & -> & ->)|(k & -> & ->)].
  - assert (E : has_prefix (w ++ k) w = true) by (apply has_prefix_split; eauto). congruence.
  - assert (E : has_prefix (v ++ k) v = true) by (apply has_prefix_split; eauto). congruence.
Qed.
Lemma free_app w a b : free w a = true → free w b = true → free w (a ++ b) = true.
Proof.
  induction a as [|c a IH]; [done|]. cbn [app free]. rewrite !andb_true_iff, !negb_true_iff. intros [H1 H2] Hb. split; [|by apply IH].
  unfold may_start in *. apply orb_false_iff in H1 as [H1 H3]. change (c :: a ++ b) with ((c :: a) ++ b). rewrite may_start_app; [|by unfold may_start; rewrite H1, H3|done]. cbn [orb].
  destruct (has_prefix w ((c :: a) ++ b)) eqn:E; [|done]. apply has_prefix_split in E as [x ->]. rewrite <- app_assoc in H3. by rewrite (proj2 (has_prefix_split _ _)) in H3 by eauto.
Qed.
(** A text without the first byte of the word. *)
Lemma free_head c w t : forallb (λ d, negb (Ascii.eqb d c)) t = true → free (c :: w) t = true.
Proof.
  induction t as [|d t IH]; [done|]. cbn [forallb free]. rewrite !andb_true_iff, negb_true_iff. intros [H1 H2]. split; [|by apply IH].
  unfold may_start. cbn [has_prefix]. rewrite H1, Ascii.eqb_sym, H1. done.
Qed.

(** ** Scanning *)

Lemma scan_skip {A} (m : option ascii → gostr → option (A * nat)) u k pos prev s : length u = k →
  scan m k pos prev (u ++ s) = scan m 0 (pos + k) (match last u with Some c => Some c | None => prev end) s.
Proof.
  revert k pos prev. induction u as [|c u IH]; intros k pos prev <-; cbn [length app]; [by rewrite Nat.add_0_r|]. cbn [scan]. rewrite IH by done. f_equal; [lia|]. rewrite last_cons. by destruct (last u).
Qed.
(** A matcher that needs its word finds nothing where the word does not start. *)
Definition needs {A} (m : option ascii → gostr → option (A * nat)) (w : gostr) : Prop := ∀ prev s, has_prefix s w = false → m prev s = None.
Lemma scan_free {A} (m : option ascii → gostr → option (A * nat)) w t pos prev s : needs m w → free w t = true →
  scan m 0 pos prev (t ++ s) = scan m 0 (pos + length t) (match last t with Some c => Some c | None => prev end) s.
Proof.
  intros Hm. revert pos prev. induction t as [|c t IH]; intros pos prev Ht; cbn [app length]; [by rewrite Nat.add_0_r|]. cbn [free] in Ht. apply andb_true_iff in Ht as [Hc Ht].
  apply negb_true_iff in Hc. cbn [scan]. rewrite Hm by (by apply (may_start_app w (c :: t))). rewrite IH by done. f_equal; [lia|]. rewrite last_cons. by destruct (last t).
Qed.
Lemma scan_free_end {A} (m : option ascii → gostr → option (A * nat)) w t pos prev : needs m w → free w t = true → scan m 0 pos prev t = [].
Proof. intros Hm Ht. rewrite <- (app_nil_r t). by rewrite (scan_free m w). Qed.
Lemma scan_before {A} (m : option ascii → gostr → option (A * nat)) w t c pos prev s : needs m w → free w t = true → last t = Some c →
  scan m 0 pos prev (t ++ s) = scan m 0 (pos + length t) (Some c) s.
Proof. intros Hm Hf Hc. rewrite (scan_free m w) by done. by rewrite Hc. Qed.
(** A matcher of whole words finds nothing inside one. *)
Definition whole_word {A} (m : option ascii → gostr → option (A * nat)) : Prop := ∀ c s, is_word c = true → m (Some c) s = None.
Lemma scan_word {A} (m : option ascii → gostr → option (A * nat)) t pos c s : whole_word m → is_word c = true → forallb is_word t = true →
  scan m 0 pos (Some c) (t ++ s) = scan m 0 (pos + length t) (Some (default c (last t))) s.
Proof.
  intros Hm. revert pos c. induction t as [|d t IH]; intros pos c Hc Ht; cbn [app length]; [by rewrite Nat.add_0_r|]. cbn [forallb] in Ht. apply andb_true_iff in Ht as [Hd Ht].
  cbn [scan]. rewrite Hm by done. rewrite IH by done. f_equal; [lia|]. f_equal. rewrite last_cons. by destruct (last t).
Qed.

(** ** The conditions *)

(** A piece of the text whose skeleton has neither of the two words. *)
Record sound (t s : gostr) : Prop := { sd_part : part t s; sd_rule : free $"rule" s = true; sd_then : free $"then" s = true }.
Lemma sound_nil : sound [] [].
Proof. by split. Qed.
Lemma sound_app t s t' s' : sound t s → opens_with_code t' → sound t' s' → sound (t ++ t') (s ++ s').
Proof. intros [] Ho []. split; [by apply part_app|by apply free_app..]. Qed.
Lemma sound_code t : forallb code_byte t = true → free $"rule" t = true → free $"then" t = true → sound t t.
Proof. intros. split; [by apply part_code|done..]. Qed.
(** Code may stand before anything. *)
Definition plain_code (t : gostr) : bool := forallb code_byte t && free $"rule" t && free $"then" t.
Lemma sound_before t t' s' : plain_code t = true → sound t' s' → sound (t ++ t') (t ++ s').
Proof. unfold plain_code. rewrite !andb_true_iff. intros [[? ?] ?] []. split; [by apply part_code_app|by apply free_app..]. Qed.
Lemma free_spaces c w n : c ≠ " "%char → free (c :: w) (spaces n) = true.
Proof. intros Hc. apply free_head. apply forallb_elem_of. intros d Hd. apply elem_of_replicate in Hd as [-> _]. apply negb_true_iff, Ascii.eqb_neq. congruence. Qed.
Lemma sound_literal l n : literal_body dq l → map blank l = spaces n → sound (quoted l) (dq :: spaces n ++ [dq]).
Proof.
  intros Hl Hb. split; [rewrite <- Hb; by apply part_literal| |]; change (dq :: spaces n ++ [dq]) with ([dq] ++ spaces n ++ [dq]);
    (apply free_app; [by vm_compute|apply free_app; [by apply free_spaces|by vm_compute]]).
Qed.
(** Bytes of code that are neither of the first letters. *)
Definition dull (c : ascii) : bool := code_byte c && negb (Ascii.eqb c "r") && negb (Ascii.eqb c "t").
Lemma sound_dull t : forallb dull t = true → sound t t.
Proof.
  intros Ht. apply sound_code; [|apply free_head..]; (eapply forallb_weaken; [|exact Ht]); unfold dull; intros c; rewrite !andb_true_iff; naive_solver.
Qed.

Lemma span_spec f s a b : span f s = (a, b) → s = a ++ b ∧ forallb f a = true ∧ match b with c :: _ => f c = false | [] => True end.
Proof.
  revert a b. induction s as [|c s IH]; intros a b; cbn [span]; [by intros [= <- <-]|]. destruct (f c) eqn:E; [|by intros [= <- <-]].
  destruct (span f s) as [x y]. intros [= <- <-]. destruct (IH x y eq_refl) as (-> & H1 & H2). cbn [app forallb]. rewrite E. done.
Qed.

Lemma sound_list t l : t ∈ l → forallb (λ t, forallb code_byte t && free $"rule" t && free $"then" t) l = true → sound t t.
Proof. intros Ht. rewrite forallb_elem_of. intros Hl. specialize (Hl t Ht). rewrite !andb_true_iff in Hl. destruct Hl as [[? ?] ?]. by apply sound_code. Qed.

(** Implications between classes of bytes, by their table. *)
Lemma byte_table (f g : ascii → bool) : forallb (λ n, implb (f (chr n)) (g (chr n))) (seqZ 0 256) = true → ∀ c, f c = true → g c = true.
Proof.
  rewrite forallb_elem_of. intros Hall c Hf. pose proof (code_range c). specialize (Hall (code c) ltac:(apply elem_of_seqZ; lia)). rewrite chr_code, Hf in Hall. exact Hall.
Qed.
Lemma digit_dull c : is_digit c = true → dull c = true.
Proof. revert c. apply byte_table. by vm_compute. Qed.
Lemma header_quiet c : header_byte c = true → quiet_byte c = true.
Proof. revert c. apply byte_table. by vm_compute. Qed.
Lemma number_dull s : ruleNumberRegex s = true → forallb dull s = true.
Proof.
  unfold ruleNumberRegex. assert (Hd : ∀ l, forallb is_digit l = true → forallb dull l = true) by (intros l; apply forallb_weaken, digit_dull).
  enough (Hs : ∀ s, (let '(ds, r) := span is_digit s in negb (bool_decide (ds = [])) && match r with [] => true | c :: r' => Ascii.eqb c "." &&
    let '(fs, r'') := span is_digit r' in negb (bool_decide (fs = [])) && bool_decide (r'' = []) end) = true → forallb dull s = true).
  { destruct s as [|c s]; [by apply Hs|]. destruct (Ascii.eqb_spec c "-") as [->|]; [|by apply Hs]. intros H. cbn [forallb]. by rewrite Hs. }
  clear s. intros s. destruct (span is_digit s) as [ds r] eqn:E. apply span_spec in E as (-> & H1 & _). rewrite andb_true_iff. intros [_ Hr]. rewrite forallb_app, Hd by done.
  destruct r as [|c r]; [done|]. apply andb_true_iff in Hr as [Hc%Ascii.eqb_eq Hr]. subst c. destruct (span is_digit r) as [fs r2] eqn:E. apply span_spec in E as (-> & H2 & _).
  apply andb_true_iff in Hr as [_ Hr%bool_decide_eq_true]. subst r2. rewrite app_nil_r. cbn [forallb]. by rewrite Hd.
Qed.

Lemma opens_code t u : forallb code_byte t = true → opens_with_code u → opens_with_code (t ++ u).
Proof. destruct t as [|c t]; [done|]. cbn [forallb]. intros [Hc _]%andb_true_iff _. cbn. intros ->. discriminate Hc. Qed.
Lemma dull_code t : forallb dull t = true → forallb code_byte t = true.
Proof. apply forallb_weaken. unfold dull. intros c. rewrite !andb_true_iff. naive_solver. Qed.

Section conditions_facts.
Context `{UnicodeUpper}.

Lemma attr_sound a : ValidateRuleAttr a = Ok () → ∃ s, sound a s ∧ opens_with_code a ∧ a ≠ [].
Proof.
  unfold ValidateRuleAttr, valid. destruct (bool_decide_reflect (a ∈ ruleAttrSimpleWhiteList)) as [Ha|_]; cbn [orb].
  { intros _. exists a. split; [by apply (sound_list a ruleAttrSimpleWhiteList); [|vm_compute]|].
    assert (Hall : forallb (λ a, match a with [] => false | c :: _ => negb (Ascii.eqb c dq) end) ruleAttrSimpleWhiteList = true) by by vm_compute.
    rewrite forallb_elem_of in Hall. specialize (Hall a Ha). destruct a as [|c a]; [done|]. apply negb_true_iff, Ascii.eqb_neq in Hall. done. }
  destruct (ruleAttrHeaderRegex a) eqn:Eh; cbn [orb].
  { intros _. unfold ruleAttrHeaderRegex in Eh. apply andb_true_iff in Eh as [[r ->]%has_prefix_split Eh]. rewrite drop_app_length in Eh.
    destruct (span header_byte r) as [name r2] eqn:E. apply span_spec in E as (-> & Hn & _). rewrite !andb_true_iff in Eh. destruct Eh as [[Er%bool_decide_eq_true _] _]. subst r2.
    assert (Hq : forallb quiet_byte name = true) by (eapply forallb_weaken; [apply header_quiet|done]).
    exists ($"GetHeaderValue(" ++ (dq :: spaces (length name) ++ [dq]) ++ $")"). split; [|done].
    replace (header_open ++ name ++ header_close) with ($"GetHeaderValue(" ++ quoted name ++ $")") by (unfold quoted, header_open, header_close; cbn [app]; by rewrite <- app_assoc).
    apply sound_before; [by vm_compute|]. apply sound_app; [|done|by apply sound_code; vm_compute].
    apply sound_literal; [by apply literal_quiet|by apply blank_quiet]. }
  destruct (ruleAttrFailCountRegex a) eqn:Ec; [|done]. intros _. unfold ruleAttrFailCountRegex in Ec. apply andb_true_iff in Ec as [[r ->]%has_prefix_split Ec]. rewrite drop_app_length in Ec.
  destruct (span is_digit r) as [ds r2] eqn:E. apply span_spec in E as (-> & Hn & _). rewrite !andb_true_iff in Ec. destruct Ec as [[Er%bool_decide_eq_true _] _]. subst r2.
  assert (Hd : forallb dull ds = true) by (eapply forallb_weaken; [apply digit_dull|done]). exists (count_open ++ ds ++ $")"). split; [|done].
  apply sound_before; [by vm_compute|].
  apply sound_app; [by apply sound_dull|done|by apply sound_code; vm_compute].
Qed.

Lemma value_sound ty v : bool_decide (ty ∈ ruleAttrTypeWhiteList) = true → ValidateRuleAttrVal ty v = Ok () →
  ∃ s, sound (if bool_decide (ty = $"string") then quoted (EscapeGrlString v) else trim_space v) s.
Proof.
  intros Ht%bool_decide_eq_true. unfold ValidateRuleAttrVal. destruct (bool_decide_reflect (ty = $"string")) as [_|Hs].
  { intros _. destruct (EscapeGrlString_ok v) as [Hl [n Hb]]. eexists. by eapply sound_literal. }
  unfold valid. destruct (_ || _) eqn:En.
  { destruct (ruleNumberRegex (trim_space v)) eqn:E; [|done]. intros _. eexists. by apply sound_dull, number_dull. }
  destruct (bool_decide_reflect (ty = $"bool")) as [_|Hb].
  { destruct (bool_decide (trim_space v = _) || _) eqn:E; [|done]. intros _. eexists. apply (sound_list _ [$"true"; $"false"]); [|by vm_compute].
    apply orb_true_iff in E as [->%bool_decide_eq_true | ->%bool_decide_eq_true]; [left|right; left]. }
  exfalso. apply orb_false_iff in En as [H1%bool_decide_eq_false H2%bool_decide_eq_false].
  unfold ruleAttrTypeWhiteList in Ht. rewrite !elem_of_cons, elem_of_nil in Ht. naive_solver.
Qed.

Lemma condition_sound c e : condition_expr c = Ok e → (∃ s, sound e s) ∧ opens_with_code e ∧ e ≠ [].
Proof.
  unfold condition_expr, ValidateRuleFactName, valid. destruct (bool_decide_reflect (FactName c = $"MF")) as [->|]; [|done].
  destruct (ValidateRuleAttr (Attr c)) as [[]|] eqn:Ea; [|done]. destruct (attr_sound _ Ea) as (sa & Ha & Hao & _).
  unfold ValidateRuleJudge, valid. destruct (bool_decide_reflect (AttrJudge c ∈ ruleJudgeWhiteList)) as [Hj|]; [|done].
  unfold ValidateRuleAttrType, valid. destruct (bool_decide (AttrType c ∈ ruleAttrTypeWhiteList)) eqn:Et; [|done].
  destruct (ValidateRuleAttrVal (AttrType c) (AttrVal c)) as [[]|] eqn:Ev; [|done]. destruct (value_sound _ _ Et Ev) as [sv Hv].
  set (v := if bool_decide (AttrType c = $"string") then _ else _) in *.
  destruct (has_prefix (AttrJudge c) $"system.") eqn:Es.
  - unfold ValidateRuleBoolVal, valid. destruct (_ || _) eqn:Eb; [|done]. intros [= <-]. split; [|done].
    assert (Hb : plain_code (AttrVal2 c) = true) by (apply orb_true_iff in Eb as [->%bool_decide_eq_true | ->%bool_decide_eq_true]; by vm_compute).
    assert (Hm : plain_code (trim_prefix (AttrJudge c) $"system.") = true).
    { assert (Hall : forallb (λ j, plain_code (trim_prefix j $"system.")) ruleJudgeWhiteList = true) by by vm_compute. rewrite forallb_elem_of in Hall. by apply Hall. }
    eexists. apply (sound_before $"MF."); [by vm_compute|]. apply sound_app; [exact Ha|by cbn|]. apply (sound_before $"."); [by vm_compute|]. apply sound_before; [exact Hm|].
    apply (sound_before $"("); [by vm_compute|]. apply sound_app; [exact Hv|by cbn|]. apply (sound_before $") == "); [by vm_compute|]. rewrite <- (app_nil_r (AttrVal2 c)). apply sound_before; [exact Hb|apply sound_nil].
  - intros [= <-]. split; [|done].
    assert (Hm : plain_code (AttrJudge c) = true).
    { assert (Hall : forallb plain_code ruleJudgeWhiteList = true) by by vm_compute. rewrite forallb_elem_of in Hall. by apply Hall. }
    eexists. apply (sound_before $"MF."); [by vm_compute|]. apply sound_app; [exact Ha|by cbn|]. apply (sound_before $" "); [by vm_compute|]. apply sound_before; [exact Hm|]. apply (sound_before $" "); [by vm_compute|exact Hv].
Qed.

Lemma conditions_sound symbol cs : ValidateRuleRelationSymbol symbol = Ok () → ∀ acc e, (∃ s, sound acc s) → conditions symbol cs acc = Ok e → ∃ s, sound e s.
Proof.
  intros Hsym. induction cs as [|c cs IH]; intros acc e Hacc; cbn [conditions]; [by intros [= <-]|]. destruct (condition_expr c) as [expr|] eqn:E; [|done].
  destruct (condition_sound _ _ E) as ([s Hs] & Ho & _). apply IH. case_bool_decide; [by exists s|]. destruct Hacc as [sa Ha].
  assert (Hp : plain_code symbol = true).
  { unfold ValidateRuleRelationSymbol, valid in Hsym. destruct (_ || _) eqn:Eb; [|done]. apply orb_true_iff in Eb as [->%bool_decide_eq_true|Eb%bool_decide_eq_true]; [done|].
    assert (Hall : forallb plain_code ruleRelationSymbolWhiteList = true) by by vm_compute. rewrite forallb_elem_of in Hall. by apply Hall. }
  eexists. apply sound_app; [exact Ha|by cbn|]. apply (sound_before $" "); [by vm_compute|]. apply sound_before; [exact Hp|]. apply (sound_before $" "); [by vm_compute|exact Hs].
Qed.

(** ** The statement *)

Definition hollow (m : gostr) : gostr := dq :: spaces (length m) ++ [dq].
Lemma module_ok m : m ∈ ruleSkipModuleWhiteList →
  forallb quiet_byte m = true ∧ ","%char ∉ quoted m ∧ argument (quoted m) = m ∧ argument (" "%char :: quoted m) = m ∧ m ∈ ruleSkipModules ∧ m ≠ [].
Proof.
  intros Hm. unfold ruleSkipModuleWhiteList in Hm.
  repeat (apply elem_of_cons in Hm as [->|Hm]; [split_and!; [by vm_compute|by refine (bool_decide_unpack _ _); vm_compute|by vm_compute|by vm_compute|by refine (bool_decide_unpack _ _); vm_compute|done]|]).
  by apply not_elem_of_nil in Hm.
Qed.
Lemma args_sound ms : Forall (λ m, m ∈ ruleSkipModuleWhiteList) ms → ∀ rest srest, (rest = [] → False) → opens_with_code rest → sound rest srest →
  sound (join (map quoted ms) $", " ++ rest) (join (map hollow ms) $", " ++ srest).
Proof.
  intros Hms rest srest _ Ho Hr. induction Hms as [|m ms Hm Hms IH]; [done|]. destruct (module_ok m Hm) as (Hq & _).
  assert (Hs : sound (quoted m) (hollow m)) by (apply sound_literal; [by apply literal_quiet|by apply blank_quiet]). destruct ms as [|m' ms].
  - cbn [map join]. by apply sound_app.
  - cbn [map]. change (join (quoted m :: quoted m' :: map quoted ms) $", ") with (quoted m ++ $", " ++ join (map quoted (m' :: ms)) $", ").
    change (join (hollow m :: hollow m' :: map hollow ms) $", ") with (hollow m ++ $", " ++ join (map hollow (m' :: ms)) $", ").
    rewrite <- !app_assoc. apply sound_app; [done|by cbn|]. apply (sound_before $", "); [by vm_compute|exact IH].
Qed.

Lemma chosen_ok ms acc l : Forall (λ m, m ∈ ruleSkipModuleWhiteList) acc → chosen_skips ms acc = Some l → Forall (λ m, m ∈ ruleSkipModuleWhiteList) l.
Proof.
  revert acc. induction ms as [|m ms IH]; intros acc Ha; cbn [chosen_skips]; [by intros [= <-]|]. case_bool_decide; [done|]. apply IH. case_bool_decide; [|done].
  apply Forall_app. split; [done|]. by constructor.
Qed.

Lemma split_args pre m ms : ","%char ∉ pre → Forall (λ m, m ∈ ruleSkipModuleWhiteList) (m :: ms) →
  split (pre ++ join (map quoted (m :: ms)) $", ") "," = (pre ++ quoted m) :: map (λ m, " "%char :: quoted m) ms.
Proof.
  revert pre m. induction ms as [|m' ms IH]; intros pre m Hp Hms; apply Forall_cons in Hms as [Hm Hms]; destruct (module_ok m Hm) as (_ & Hc & _).
  - cbn [map join]. apply split_free. rewrite elem_of_app. naive_solver.
  - change (join (map quoted (m :: m' :: ms)) $", ") with (quoted m ++ $", " ++ join (map quoted (m' :: ms)) $", "). rewrite app_assoc.
    change ($", " ++ join (map quoted (m' :: ms)) $", ") with (","%char :: ($" " ++ join (map quoted (m' :: ms)) $", ")). rewrite split_cons_sep by (rewrite elem_of_app; naive_solver).
    rewrite IH; [done|by refine (bool_decide_unpack _ _); vm_compute|done].
Qed.

Definition names (p m : gostr) : Prop := argument p = m ∧ m ∈ ruleSkipModules ∧ m ≠ [].
Lemma add_args ps ms acc : Forall2 names ps ms →
  let r := foldl add_argument acc ps in list_to_set (C := gset gostr) r.1 = list_to_set acc.1 ∪ list_to_set ms ∧ r.2 = acc.2.
Proof.
  intros Hms. revert acc. induction Hms as [|p m ps ms (Ha & Hm & Hne) Hms IH]; intros acc; cbn [foldl]; [split; [set_solver|done]|].
  specialize (IH (add_argument acc p)). cbn zeta in IH |- *. destruct IH as [-> ->].
  unfold add_argument. rewrite Ha. destruct m as [|c m]; [done|]. rewrite bool_decide_true by done. case_bool_decide as Hin; cbn [fst snd]; [split; [|done]; set_solver|].
  split; [|done]. rewrite list_to_set_app_L. set_solver.
Qed.
Lemma parse_args m ms : Forall (λ m, m ∈ ruleSkipModuleWhiteList) (m :: ms) →
  ∃ l, parseActionArgs (join (map quoted (m :: ms)) $", ") = (l, []) ∧ list_to_set (C := gset gostr) l = list_to_set (m :: ms).
Proof.
  intros Hms. unfold parseActionArgs. pose proof (split_args [] m ms ltac:(set_solver) Hms) as E. cbn [app] in E. rewrite E.
  assert (Hall : Forall2 names (quoted m :: map (λ m, " "%char :: quoted m) ms) (m :: ms)).
  { apply Forall_cons in Hms as [Hm Hms]. destruct (module_ok m Hm) as (_&_&?&_&?&?). constructor; [done|]. clear E. induction Hms as [|k ms Hk Hms IH]; [constructor|].
    destruct (module_ok k Hk) as (_&_&_&?&?&?). constructor; done. }
  destruct (add_args _ _ ([], []) Hall) as [E1 E2]. destruct (foldl _ _ _) as [mods bad]. cbn [fst snd] in E1, E2. subst bad. eexists. split; [done|].
  rewrite merge_sort_Permutation, E1. set_solver.
Qed.
End conditions_facts.

(** ** The skeleton of the whole text *)

Definition lead : gostr := nl ++ [chr 9; chr 9].
Definition trail : gostr := nl ++ $"} ".
Definition opening (name remark salience condition : gostr) : gostr :=
  name ++ $" " ++ quoted remark ++ $" salience " ++ salience ++ $" {" ++ nl ++ $"    when" ++ nl ++ $"        " ++ condition ++ nl ++ $"    ".
Lemma rule_text_eq name remark sal c stmt :
  rule_text name remark sal c stmt = nl ++ $"rule R" ++ opening name remark sal c ++ $"then" ++ lead ++ stmt ++ trail.
Proof. unfold rule_text, opening, lead, trail. by rewrite <- !app_assoc. Qed.

Lemma quoted_hollow m n : map blank m = spaces n → dq :: map blank m ++ [dq] = quoted (spaces n).
Proof. by intros ->. Qed.

Section scans.
Context `{UnicodeUpper} (name : gostr) (Hname : forallb is_alnum name = true).

Lemma name_word : forallb is_word name = true.
Proof. eapply forallb_weaken; [|exact Hname]. intros c Hc. unfold is_word. by rewrite Hc. Qed.
Lemma name_code : forallb code_byte name = true.
Proof. eapply forallb_weaken; [|exact Hname]. apply byte_table. by vm_compute. Qed.

Lemma skeleton_part remark n sal c cs : literal_body dq remark → map blank remark = spaces n → forallb dull sal = true → sound c cs →
  part (opening name remark sal c) (opening name (spaces n) sal cs).
Proof.
  intros Hr Hb Hs [Hc _ _]. unfold opening. apply part_code_app; [exact name_code|]. apply part_code_app; [by vm_compute|]. apply part_app; [by cbn| |].
  { pose proof (part_literal remark Hr) as Hp. rewrite (quoted_hollow _ _ Hb) in Hp. exact Hp. }
  apply part_code_app; [by vm_compute|]. apply part_code_app; [by apply dull_code|]. do 5 (apply part_code_app; [by vm_compute|]).
  apply part_app; [by vm_compute|exact Hc|]. apply part_code. by vm_compute.
Qed.
Lemma skeleton_eq remark n sal c cs stmt ss : literal_body dq remark → map blank remark = spaces n → forallb dull sal = true → sound c cs → part stmt ss →
  BuildGrlSkeleton (rule_text name remark sal c stmt) = rule_text name (spaces n) sal cs ss ∧ length (opening name remark sal c) = length (opening name (spaces n) sal cs).
Proof.
  intros Hr Hb Hs Hc Hst. pose proof (skeleton_part remark n sal c cs Hr Hb Hs Hc) as Ho. split; [|apply Ho]. rewrite !rule_text_eq.
  assert (Hp : part (nl ++ $"rule R" ++ opening name remark sal c ++ $"then" ++ lead ++ stmt ++ nl) (nl ++ $"rule R" ++ opening name (spaces n) sal cs ++ $"then" ++ lead ++ ss ++ nl)).
  { do 2 (apply part_code_app; [by vm_compute|]). apply part_app; [by vm_compute|exact Ho|]. do 2 (apply part_code_app; [by vm_compute|]). apply part_app; [by cbn|exact Hst|].
    apply part_code. by vm_compute. }
  destruct Hp as [_ Hp]. specialize (Hp "}"%char $" " ltac:(done)). unfold BuildGrlSkeleton, trail. revert Hp. rewrite <- !app_assoc. intros Hp. exact Hp.
Qed.

(** What follows the name. *)
Definition heading (n : nat) (sal cs : gostr) : gostr := $" " ++ quoted (spaces n) ++ $" salience " ++ sal ++ $" {" ++ nl ++ $"    when" ++ nl ++ $"        " ++ cs ++ nl ++ $"    ".
Lemma opening_eq n sal cs : opening name (spaces n) sal cs = name ++ heading n sal cs.
Proof. done. Qed.
Lemma free_quoted c w n : c ≠ " "%char → free (c :: w) [dq] = true → free (c :: w) (quoted (spaces n)) = true.
Proof. intros Hc Hd. change (quoted (spaces n)) with ([dq] ++ spaces n ++ [dq]). apply free_app; [exact Hd|]. apply free_app; [by apply free_spaces|exact Hd]. Qed.
Lemma heading_free c w n sal cs : c ≠ " "%char → free (c :: w) [dq] = true → free (c :: w) $" " = true → free (c :: w) $" salience " = true → free (c :: w) sal = true →
  free (c :: w) ($" {" ++ nl ++ $"    when" ++ nl ++ $"        ") = true → free (c :: w) cs = true → free (c :: w) (nl ++ $"    ") = true → free (c :: w) (heading n sal cs) = true.
Proof.
  intros Hc Hd H1 H2 H3 H4 H5 H6. unfold heading. apply free_app; [done|]. apply free_app; [by apply free_quoted|]. apply free_app; [done|]. apply free_app; [done|].
  rewrite !app_assoc. rewrite <- (app_assoc _ nl $"    "). apply free_app; [|done]. apply free_app; [|done]. by rewrite <- !app_assoc.
Qed.
Lemma dull_free sal : forallb dull sal = true → free $"rule" sal = true ∧ free $"then" sal = true.
Proof. by intros []%sound_dull. Qed.

(** ** One block *)

Lemma m_rule_needs : needs m_rule $"rule".
Proof. intros prev s Hs. unfold m_rule. by rewrite Hs, andb_false_r. Qed.
Lemma m_then_needs : needs m_then $"then".
Proof. intros prev s Hs. unfold m_then. by rewrite Hs, andb_false_r. Qed.
Lemma m_salience_needs : needs m_salience $"salience".
Proof. intros prev s Hs. unfold m_salience. by rewrite Hs, andb_false_r. Qed.
Lemma whole_then : whole_word m_then.
Proof. intros c s Hc. unfold m_then, boundary. by rewrite Hc. Qed.
Lemma whole_salience : whole_word m_salience.
Proof. intros c s Hc. unfold m_salience, boundary. by rewrite Hc. Qed.

Lemma span_app f (a b : gostr) : forallb f a = true → match b with c :: _ => f c = false | [] => True end → span f (a ++ b) = (a, b).
Proof.
  intros Ha Hb. induction a as [|c a IH]; cbn [app forallb] in *; [destruct b as [|c b]; [done|]; cbn [span]; by rewrite Hb|].
  apply andb_true_iff in Ha as [Hc Ha]. cbn [span]. by rewrite Hc, IH.
Qed.

Lemma one_block t : match t with c :: _ => is_word c = false | [] => False end → free $"rule" t = true →
  splitRuleBlocks (nl ++ $"rule R" ++ name ++ t) = [mkBlock ($"R" ++ name) 1 (length (nl ++ $"rule R" ++ name ++ t))].
Proof.
  intros Ht Hf. unfold splitRuleBlocks. assert (E : find_all m_rule (nl ++ $"rule R" ++ name ++ t) = [(1%nat, $"R" ++ name)]); [|by rewrite E].
  unfold find_all, nl. change ([chr 10] ++ $"rule R" ++ name ++ t) with (chr 10 :: "r"%char :: $"ule R" ++ name ++ t).
  assert (Em : m_rule (Some (chr 10)) ("r"%char :: $"ule R" ++ name ++ t) = Some ($"R" ++ name, length ($"rule R" ++ name))).
  { unfold m_rule. change (boundary _ && has_prefix _ _) with true. cbn match. change (drop 4 _) with ([" "%char] ++ (($"R" ++ name) ++ t)).
    rewrite span_app by done. rewrite (span_app is_word ($"R" ++ name) t); [|by rewrite forallb_app, name_word|by destruct t]. rewrite !bool_decide_false by done. cbn [orb].
    f_equal. f_equal. change ("r"%char :: $"ule R" ++ name ++ t) with (($"rule R" ++ name) ++ t). rewrite length_app. lia. }
  cbn [scan]. change (m_rule None _) with (@None (gostr * nat)). cbn match. rewrite Em. f_equal.
  change ($"ule R" ++ name ++ t) with (($"ule R" ++ name) ++ t). rewrite scan_skip by (change ($"rule R" ++ name) with ("r"%char :: $"ule R" ++ name); cbn [length]; lia). apply (scan_free_end m_rule $"rule"); [apply m_rule_needs|done].
Qed.

(** ** Its action *)

Lemma first_then n sal cs q : free $"then" sal = true → free $"then" cs = true → match q with c :: _ => is_word c = false | [] => True end →
  ∃ ms, find_all m_then ($"rule R" ++ name ++ heading n sal cs ++ $"then" ++ q) = (length ($"rule R" ++ name ++ heading n sal cs), ()) :: ms.
Proof.
  intros Hs Hc Hq. pose proof (heading_free "t" $"hen" n sal cs ltac:(done) eq_refl eq_refl eq_refl Hs eq_refl Hc eq_refl) as Hh.
  assert (El : last (heading n sal cs) = Some " "%char) by (unfold heading; rewrite !app_assoc, last_app; done).
  unfold find_all. change ($"rule R" ++ name ++ heading n sal cs ++ $"then" ++ q) with ($"rule R" ++ (name ++ heading n sal cs ++ $"then" ++ q)).
  rewrite (scan_before m_then $"then" _ "R"%char), (scan_word m_then name) by (apply m_then_needs || apply whole_then || apply name_word || done).
  rewrite (scan_before m_then $"then" _ " "%char) by (apply m_then_needs || done).
  change ($"then" ++ q) with ("t"%char :: "h"%char :: "e"%char :: "n"%char :: q). cbn [scan]. assert (Em : ∀ k, m_then (Some " "%char) ("t"%char :: "h"%char :: "e"%char :: "n"%char :: q) = Some ((), k) ↔ k = 4%nat).
  { intros k. unfold m_then. change (boundary (Some " "%char)) with true. rewrite (proj2 (has_prefix_split _ $"then")) by by exists q. cbn [andb]. change (drop 4 ("t"%char :: "h"%char :: "e"%char :: "n"%char :: q)) with q. destruct q as [|d q]; [naive_solver|]. rewrite Hq. naive_solver. }
  rewrite (proj2 (Em 4%nat) eq_refl). eexists. f_equal. f_equal. rewrite !length_app. cbn [length]. lia.
Qed.

(** What a statement reads as: one call, with nothing wrong. *)
Definition reads (stmt ss : gostr) (info : RuleActionInfo) : Prop :=
  part stmt ss ∧ free $"rule" ss = true ∧
  ∃ pc, find_all m_action (lead ++ ss ++ trail) = [pc] ∧ (arg_start pc.2 + pc.1 + arg_len pc.2 ≤ length (lead ++ stmt ++ trail))%nat ∧
        read_call (fnName pc.2) (raw_args (lead ++ stmt ++ trail) 0 pc) = (info, [], false).

Lemma raw_args_app pre t pc : (arg_start pc.2 + pc.1 + arg_len pc.2 ≤ length t)%nat → raw_args (pre ++ t) (length pre) pc = raw_args t 0 pc.
Proof.
  intros Hl. unfold raw_args. rewrite !(proj2 (Nat.leb_le _ _)) by (rewrite ?length_app; lia). unfold slice. f_equal; [lia|]. rewrite <- !Nat.add_assoc. by rewrite drop_app_add.
Qed.

Lemma block_reads pre stmt ss n sal cs info : free $"then" sal = true → free $"then" cs = true → reads stmt ss info →
  length pre = length ($"rule R" ++ name ++ heading n sal cs) →
  extractBlockAction ($"rule R" ++ name ++ heading n sal cs ++ $"then" ++ lead ++ ss ++ trail) (pre ++ $"then" ++ lead ++ stmt ++ trail) = (info, 1%nat, [], false).
Proof.
  intros Hs Hc (_ & _ & pc & Hf & Hle & Hr) Hl. unfold extractBlockAction, calls_of.
  destruct (first_then n sal cs (lead ++ ss ++ trail) Hs Hc) as [ms ->]; [by vm_compute|]. set (k := (length _ + 4)%nat).
  assert (Ek : drop k ($"rule R" ++ name ++ heading n sal cs ++ $"then" ++ lead ++ ss ++ trail) = lead ++ ss ++ trail).
  { unfold k. set (h := heading n sal cs). rewrite (app_assoc name h), (app_assoc $"rule R" (name ++ h)). by rewrite drop_app_add. }
  rewrite Ek, Hf. cbn [map length flat_map existsb]. assert (Ep : k = length (pre ++ $"then")) by (unfold k; by rewrite (length_app pre), Hl).
  rewrite (app_assoc pre), Ep, raw_args_app, Hr by exact Hle. done.
Qed.
End scans.

Section allow_facts.
Context `{UnicodeUpper}.

Lemma m_args_call name b args rest : ")"%char ∉ args → m_args name ("("%char :: args ++ ")"%char :: rest) b = Some (mkCall name (b + 1) (length args) (b + 1 + length args + 1)).
Proof.
  intros Ha. unfold m_args. change (skip_space ("("%char :: args ++ ")"%char :: rest)) with ("("%char :: args ++ ")"%char :: rest).
  change (Ascii.eqb "(" "(") with true. cbn match. rewrite index_byte_first by done. cbn [length]. rewrite Nat.sub_succ_l, Nat.sub_diag by done. done.
Qed.
Lemma allow_call args rest : ")"%char ∉ args →
  m_action (Some (chr 9)) ($"RF.Allow(" ++ args ++ ")"%char :: rest) = Some (mkCall $"Allow" 9 (length args) (length args + 10), (length args + 10)%nat).
Proof.
  intros Ha. unfold m_action. set (t := $"Allow(" ++ args ++ ")"%char :: rest). change ($"RF.Allow(" ++ args ++ ")"%char :: rest) with ($"RF." ++ t).
  change (has_prefix ($"RF." ++ t) $"RF") with true. change (skip_space (drop 2 ($"RF." ++ t))) with ("."%char :: t). change (Ascii.eqb "." ".") with true. cbn match.
  change (skip_space t) with t. rewrite length_app, Nat.add_sub. unfold functions. cbn [m_function]. change (has_prefix t $"AllowAll") with false. cbn match.
  change (has_prefix t $"Allow") with true. change (drop (length $"Allow") t) with ("("%char :: args ++ ")"%char :: rest). rewrite m_args_call by done. cbn [fmap option_fmap option_map whole].
  change (length $"RF." + length $"Allow")%nat with 8%nat. f_equal. f_equal; [f_equal|]; lia.
Qed.

Lemma hollow_free ms : ")"%char ∉ join (map hollow ms) $", ".
Proof.
  induction ms as [|m ms IH]; [apply not_elem_of_nil|].
  assert (Hm : ")"%char ∉ hollow m).
  { unfold hollow, spaces. rewrite elem_of_cons, elem_of_app, elem_of_cons, elem_of_nil. intros [E|[[E _]%elem_of_replicate|[E|[]]]]; discriminate E. }
  destruct ms as [|m' ms]; [exact Hm|].
  change (join (map hollow (m :: m' :: ms)) $", ") with (hollow m ++ $", " ++ join (map hollow (m' :: ms)) $", "). rewrite !elem_of_app.
  assert (Hsep : ")"%char ∉ $", ") by (by refine (bool_decide_unpack _ _); vm_compute). naive_solver.
Qed.
Lemma hollow_length ms : length (join (map hollow ms) $", ") = length (join (map quoted ms) $", ").
Proof.
  assert (Hm : ∀ m, length (hollow m) = length (quoted m)) by (intros m; unfold hollow, quoted, spaces; cbn [length]; by rewrite !length_app, length_replicate).
  induction ms as [|m ms IH]; [done|]. destruct ms as [|m' ms]; [apply Hm|].
  change (join (map hollow (m :: m' :: ms)) $", ") with (hollow m ++ $", " ++ join (map hollow (m' :: ms)) $", ").
  change (join (map quoted (m :: m' :: ms)) $", ") with (quoted m ++ $", " ++ join (map quoted (m' :: ms)) $", "). by rewrite !length_app, Hm, IH.
Qed.

Lemma allow_reads ms l : Forall (λ m, m ∈ ruleSkipModuleWhiteList) ms → parseActionArgs (join (map quoted ms) $", ") = (l, []) →
  reads ($"RF.Allow(" ++ join (map quoted ms) $", " ++ $");") ($"RF.Allow(" ++ join (map hollow ms) $", " ++ $");") (mkInfo RuleActionAllow l 0).
Proof.
  intros Hms Hl. set (args := join (map quoted ms) $", ") in *. set (gap := join (map hollow ms) $", ").
  assert (Hs : sound ($"RF.Allow(" ++ args ++ $");") ($"RF.Allow(" ++ gap ++ $");")).
  { apply sound_before; [by vm_compute|]. apply args_sound; [done|done|by cbn|]. by apply sound_code; vm_compute. }
  split; [apply Hs|]. split; [apply Hs|]. exists (3%nat, mkCall $"Allow" 9 (length gap) (length gap + 10)). split; [|split].
  - rewrite <- !app_assoc. change ($");" ++ trail) with (")"%char :: ($";" ++ trail)). set (rest := $";" ++ trail).
    pose proof (allow_call gap rest (hollow_free ms)) as Em. unfold find_all, lead, nl. change (([chr 10] ++ [chr 9; chr 9]) ++ ?x) with (chr 10 :: chr 9 :: chr 9 :: x).
    cbn [scan]. change (m_action None _) with (@None (call * nat)). cbn match. change (m_action (Some (chr 10)) _) with (@None (call * nat)). cbn match.
    change (m_action (Some (chr 9)) (chr 9 :: _)) with (@None (call * nat)). cbn match.
    change ($"RF.Allow(" ++ ?x) with ("R"%char :: ($"F.Allow(" ++ x)) in Em |- *. cbn [scan]. rewrite Em. f_equal. 
    change (")"%char :: rest) with ($")" ++ rest). rewrite (app_assoc gap), (app_assoc $"F.Allow(").
    rewrite scan_skip by (rewrite !length_app; change (length $"F.Allow(") with 8%nat; change (length $")") with 1%nat; lia). unfold rest, trail. cbn [nl app]. reflexivity.
  - cbn [fst snd arg_start arg_len]. unfold gap. rewrite hollow_length. fold args. rewrite !length_app. change (length lead) with 3%nat. change (length $"RF.Allow(") with 9%nat. lia.
  - cbn [fst snd fnName]. unfold raw_args. cbn [fst snd arg_start arg_len]. unfold gap. rewrite hollow_length. fold args.
    rewrite (proj2 (Nat.leb_le _ _)) by (rewrite !length_app; change (length lead) with 3%nat; change (length $"RF.Allow(") with 9%nat; lia). unfold slice.
    change (0 + 3 + 9)%nat with 12%nat. rewrite Nat.add_sub_swap, Nat.sub_diag by lia. rewrite <- !app_assoc. change (drop 12 _) with (args ++ ($");" ++ trail)). cbn [Nat.add]. rewrite take_app_length.
    unfold read_call. rewrite !bool_decide_false by done. rewrite bool_decide_true by done. by rewrite Hl.
Qed.
End allow_facts.

(** ** The salience *)

Lemma salience_digits k : 0 ≤ k ≤ 10000 → forallb is_digit (itoa k) = true ∧ itoa k ≠ [] ∧ parse_int (itoa k) = Some k.
Proof.
  intros Hk. assert (Hall : forallb (λ k, forallb is_digit (itoa k) && negb (bool_decide (itoa k = [])) && bool_decide (parse_int (itoa k) = Some k)) (seqZ 0 10001) = true) by by vm_compute.
  rewrite forallb_elem_of in Hall. specialize (Hall k ltac:(apply elem_of_seqZ; lia)). rewrite !andb_true_iff in Hall. destruct Hall as [[? H1%negb_true_iff%bool_decide_eq_false] H2%bool_decide_eq_true]. done.
Qed.
Lemma clamp_range s : 0 ≤ clamp s ≤ 10000.
Proof. unfold clamp. cbn zeta. destruct (Z.ltb_spec s 0); [by cbn|]. destruct (Z.ltb_spec 10000 s); lia. Qed.

Section form_facts.
Context `{UnicodeUpper}.

Lemma first_salience name n sal rest : forallb is_alnum name = true → forallb is_digit sal = true → sal ≠ [] →
  ∃ pos ms, find_all m_salience (nl ++ $"rule R" ++ name ++ $" " ++ quoted (spaces n) ++ $" salience " ++ sal ++ $" {" ++ rest) = (pos, sal) :: ms.
Proof.
  intros Hn Hd Hs. unfold find_all.
  change (nl ++ $"rule R" ++ ?x) with ((nl ++ $"rule R") ++ x). rewrite (scan_before m_salience $"salience" _ "R"%char) by (apply m_salience_needs || done).
  rewrite (scan_word m_salience name) by (apply whole_salience || done || by apply name_word).
  change ($" salience " ++ ?x) with ($" " ++ "s"%char :: $"alience " ++ x). rewrite (app_assoc (quoted (spaces n)) $" "), (app_assoc $" " (quoted (spaces n) ++ $" ")).
  assert (Hf : free $"salience" ($" " ++ quoted (spaces n) ++ $" ") = true).
  { apply free_app; [done|]. apply free_app; [|done]. by apply free_quoted. }
  rewrite (scan_before m_salience $"salience" _ " "%char) by (apply m_salience_needs || done || by rewrite !last_app). cbn [scan].
  assert (Em : ∃ k, m_salience (Some " "%char) ("s"%char :: $"alience " ++ sal ++ $" {" ++ rest) = Some (sal, k)).
  { unfold m_salience. change (boundary (Some " "%char)) with true. rewrite (proj2 (has_prefix_split _ $"salience")) by (by exists ($" " ++ sal ++ $" {" ++ rest)). cbn [andb].
    change (drop 8 ("s"%char :: $"alience " ++ sal ++ $" {" ++ rest)) with ([" "%char] ++ (sal ++ $" {" ++ rest)).
    rewrite (span_app re_space [" "%char]); [|done|]. 2: { destruct sal as [|c sal]; [done|]. cbn [forallb] in Hd. apply andb_true_iff in Hd as [Hc _].
      assert (Hall : ∀ c, is_digit c = true → negb (re_space c) = true) by (apply byte_table; by vm_compute). by apply negb_true_iff, Hall. }
    rewrite span_app by done. rewrite !bool_decide_false by done. by eexists. }
  destruct Em as [k ->]. by eexists _, _.
Qed.

(** ** The action asked for *)

(** The action of the form, and the modules to skip. *)
Definition asked (rule : RuleInfo) : gostr * gset gostr :=
  if bool_decide (RuleAction rule = $"log") then (RuleActionLog, ∅)
  else if bool_decide (RuleAction rule = $"allow") then
    (RuleActionAllow, match chosen_skips (RuleActionSkips rule) [] with None => {[RuleSkipAll]} | Some skips => list_to_set skips end)
  else (RuleActionDeny, ∅).

Ltac one_call := split; [apply part_code; by vm_compute|split; [by vm_compute|eexists; split; [by vm_compute|split; [vm_compute; lia|by vm_compute]]]].
Lemma stmt_reads rule : ∃ ss info, reads (genRuleActionStmt rule) ss info ∧ Action info = (asked rule).1 ∧ list_to_set (SkipModules info) = (asked rule).2 ∧
  Action info ≠ RuleActionBan ∧ Action info ≠ [].
Proof.
  unfold genRuleActionStmt, asked. case_bool_decide; [exists $"RF.Log();", (mkInfo RuleActionLog [] 0); split; [one_call|by split_and!]|].
  case_bool_decide; [|exists $"RF.Deny();", (mkInfo RuleActionDeny [] 0); split; [one_call|by split_and!]].
  destruct (chosen_skips _ _) as [[|m ms]|] eqn:E.
  - exists $"RF.Allow();", (mkInfo RuleActionAllow [] 0). split; [one_call|by split_and!].
  - apply chosen_ok in E; [|constructor]. destruct (parse_args m ms E) as (l & Hl & Hset). eexists _, _. split; [by apply allow_reads|]. by split_and!.
  - exists $"RF.AllowAll();", (mkInfo RuleActionAllow [RuleSkipAll] 0). split; [one_call|]. split_and!; [done|set_solver|done|done].
Qed.

(** ** The text the form gives *)

Lemma whole_block name n sal cs ss : forallb is_alnum name = true → free $"rule" sal = true → free $"rule" cs = true → free $"rule" ss = true →
  splitRuleBlocks (rule_text name (spaces n) sal cs ss) = [mkBlock ($"R" ++ name) 1 (length (rule_text name (spaces n) sal cs ss))].
Proof.
  intros Hn Hs Hc Hss. rewrite rule_text_eq. change (opening name (spaces n) sal cs) with (name ++ heading n sal cs). rewrite <- !app_assoc. apply one_block; [done|by unfold heading|].
  apply free_app; [by apply heading_free|]. do 2 (apply free_app; [by vm_compute|]). apply free_app; [done|by vm_compute].
Qed.

Lemma slice_rest s k : k = length s → slice s 1 k = drop 1 s.
Proof. intros ->. unfold slice. apply take_ge. by rewrite length_drop. Qed.

(** C9: a form makes the rule it shows.  Whatever the values, the remark and the words of a
    form are - they may be copied from an attack - a form that is accepted gives a text
    with one rule of the given name and salience, and its action, both as checked on
    saving and as taken at run time, is the one chosen, with the chosen modules. *)
Theorem form_rule_safe rule remark text : GenRuleInfo rule remark = Ok text →
  ExtractRuleNamesFromText text = [$"R" ++ RuleName rule] ∧ ExtractRuleSalience text = clamp (RSalience rule) ∧
  ∃ info, ExtractRuleActionForCheck text = Ok info ∧ GetRuleAction (ExtractRuleActions text) ($"R" ++ RuleName rule) = info ∧
          Action info = (asked rule).1 ∧ list_to_set (SkipModules info) = (asked rule).2.
Proof.
  unfold GenRuleInfo. unfold ValidateRuleName, valid. destruct (ruleNameRegex (RuleName rule)) eqn:En; [|done].
  destruct (ValidateRuleRelationSymbol (RelationSymbol rule)) as [[]|] eqn:Er; [|done].
  destruct (conditions (RelationSymbol rule) (Details rule) []) as [c|] eqn:Ec; [|done]. intros [= <-].
  set (name := RuleName rule) in *. assert (Hn : forallb is_alnum name = true) by (unfold ruleNameRegex in En; prop_of_bool; done). clear En.
  destruct (conditions_sound _ (Details rule) Er [] c) as [cs Hcs]; [exists []; apply sound_nil|exact Ec|].
  destruct (EscapeGrlString_ok remark) as (Hr & n & Hb). destruct (salience_digits (clamp (RSalience rule)) (clamp_range _)) as (Hd & Hd0 & Hp).
  set (sal := itoa (clamp (RSalience rule))) in *. assert (Hdull : forallb dull sal = true) by (eapply forallb_weaken; [apply digit_dull|done]).
  destruct (dull_free _ Hdull) as [Hs1 Hs2]. destruct (stmt_reads rule) as (ss & info & Hreads & Ha & Hm & Hban & Hne). set (stmt := genRuleActionStmt rule) in *.
  pose proof Hreads as (Hpart & Hfree & _). destruct (skeleton_eq name Hn _ _ _ _ _ _ _ Hr Hb Hdull Hcs Hpart) as [Esk Elen].
  set (text := rule_text name (EscapeGrlString remark) sal c stmt) in *. set (sk := rule_text name (spaces n) sal cs ss) in *.
  assert (Ebl : splitRuleBlocks sk = [mkBlock ($"R" ++ name) 1 (length sk)]) by (apply whole_block; [done|done|apply Hcs|done]).
  split; [unfold ExtractRuleNamesFromText; by rewrite Esk, Ebl|]. split.
  - unfold ExtractRuleSalience. rewrite Esk. unfold sk, rule_text.
    destruct (first_salience name n sal (nl ++ $"    when" ++ nl ++ $"        " ++ cs ++ nl ++ $"    then" ++ nl ++ [chr 9; chr 9] ++ ss ++ nl ++ $"} ") Hn Hd Hd0) as (pos & ms & ->).
    by rewrite Hp.
  - assert (Eact : block_action sk text (mkBlock ($"R" ++ name) 1 (length sk)) = (info, 1%nat, [], false)).
    { assert (Etl : length text = length sk) by (unfold text, sk; rewrite !rule_text_eq, !length_app; destruct Hpart as [-> _]; by rewrite Elen).
      unfold block_action. cbn [Start End_]. rewrite slice_rest by done. rewrite <- Etl, slice_rest by done. unfold text, sk. rewrite !rule_text_eq.
      change (drop 1 (nl ++ ?x)) with x. change (opening name (spaces n) sal cs) with (name ++ heading n sal cs). rewrite <- (app_assoc name), (app_assoc $"rule R" (opening _ _ _ _)).
      apply block_reads; [done|done|apply Hcs|exact Hreads|]. rewrite !length_app, Elen. change (opening name (spaces n) sal cs) with (name ++ heading n sal cs). by rewrite length_app. }
    exists info. unfold ExtractRuleActionForCheck, ExtractRuleActions. rewrite Esk, Ebl. cbn [check_blocks foldl]. rewrite Eact. cbn [lenient Name].
    rewrite !(bool_decide_false (Action info = RuleActionBan)) by done. split; [done|]. split; [|done]. unfold GetRuleAction. rewrite lookup_insert_eq. by rewrite bool_decide_false.
Qed.
End form_facts.

(** ** Witness *)

Section witness.
#[local] Instance form_upper : UnicodeUpper := {| unicode_to_upper s := s |}.
(** Values that try to close the literal, end the rule and start another. *)
Definition breakout : gostr := dq :: $" then RF.AllowAll(); } rule R2 " ++ [dq; dq] ++ $" salience 9 { when true then \" ++ [dq; chr 10].
Definition demo_form : RuleInfo :=
  mkRule $"allow" [$" cc "; $"no such"; $"AI"] 20000 $"42"
    [mkDetail $"MF" $"URL" $"string" $"system.Contains" breakout $"true"; mkDetail $"MF" ($"GetHeaderValue(" ++ quoted $"X-Then" ++ $")") $"string" $"==" breakout []] $"&&".
Definition demo_text : gostr := match GenRuleInfo demo_form breakout with Ok text => text | Err _ => [] end.
Lemma form_rule_safe_witness :
  ExtractRuleNamesFromText demo_text = [$"R42"] ∧ ExtractRuleSalience demo_text = 10000 ∧
  ∃ info, GetRuleAction (ExtractRuleActions demo_text) $"R42" = info ∧ Action info = RuleActionAllow ∧ list_to_set (SkipModules info) =@{gset gostr} {[$"CC"; $"AI"]}.
Proof.
  assert (Hg : GenRuleInfo demo_form breakout = Ok demo_text) by (vm_compute; reflexivity).
  destruct (form_rule_safe demo_form breakout demo_text Hg) as (Hn & Hs & info & _ & Hi & Ha & Hm). split; [exact Hn|]. split; [exact Hs|]. exists info.
  split; [exact Hi|]. split; [exact Ha|]. rewrite Hm. by vm_compute.
Defined.
End witness.
End RuleForm.
