(* ===== verification/RuleCheck.v ===== *)
(** * Custom rules at work (wafenginecore/checkrule.go, rule_ban.go; model/rule_ban.go;
    utils/rulehelper.go)

    The rules of a site and of the global site run in two rule engines; the decision is
    made from the rules that matched: the highest priority first, then the strongest
    action.  The rule engine (a library) is a parameter: it compiles texts into a
    knowledge base, and answers the rules that match a request.  A ban is a cache entry
    of the site and the client. *)
From S2P Require Import Prelude.
From S2P Require Import GoLib.
From S2P Require Import GoHttp.
From S2P Require Import GoUrl.
From S2P Require Import WafCache.
From S2P Require Import CCRule.
From S2P Require Import CCEngine.
From S2P Require Import RuleText.
Local Open Scope Z_scope.
Local Open Scope bool_scope.

Module RuleCheck.
Import RuleText.

(** [ast.RuleEntry]: a rule of the engine. *)
Record RuleEntry := mkEntry { RuleName : gostr; RuleDescription : gostr; Salience : Z; GrlText : gostr }.

(** The fields of the log record that are read, and what [IsSafeBot] and the certificate
    path say of it. *)
Record visit := mkVisit { SRC_IP : gostr; NetSrcIp : gostr; GeoUnresolved : bool; unfailing : bool }.

(** The rule engine: a library of compiled texts, the knowledge base made from it, and the
    rules of it that match; [None] is an error. *)
Class RuleEngine := {
  library : Type; knowledge : Type;
  empty_library : library;
  build_rule : library → gostr → library * bool;
  new_instance : library → option knowledge;
  fetch_matching : knowledge → visit → option (list RuleEntry) }.

Section rules.
Context `{UnicodeUpper, RuleEngine}.

Record RuleHelper := mkHelper { KnowledgeBase : option knowledge; ruleActions : gmap gostr RuleActionInfo }.
(** [model.Rules] *)
Record Rules := mkRules { RuleContent : gostr; RuleStatus : Z }.

(** [LoadRules]: each enabled text is compiled by itself, and one that fails is left out
    with the actions it declares. *)
Definition load_rule (st : library * gmap gostr RuleActionInfo * gostr) (v : Rules) : library * gmap gostr RuleActionInfo * gostr :=
  let '(lib, actions, rulestr) := st in
  if negb (RuleStatus v =? 1) then st
  else let '(lib', ok) := build_rule lib (RuleContent v) in
       if ok then (lib', mergeRuleActions actions (RuleContent v), rulestr ++ RuleContent v ++ $" " ++ [chr 10]) else (lib', actions, rulestr).
Definition LoadRules (ruleconfig : list Rules) : RuleHelper * gostr :=
  let '(lib, actions, rulestr) := foldl load_rule ((build_rule empty_library []).1, ∅, []) ruleconfig in
  (mkHelper (new_instance lib) actions, rulestr).

(** ** The action of the rules that matched *)

Definition rank (action : gostr) : Z :=
  if bool_decide (action = RuleActionDeny) then 3 else if bool_decide (action = RuleActionBan) then 3
  else if bool_decide (action = RuleActionAllow) then 2 else if bool_decide (action = RuleActionLog) then 1 else 0.

Definition stronger (final info : RuleActionInfo) : RuleActionInfo :=
  if bool_decide (Action final = []) || (rank (Action final) <? rank (Action info)) then info
  else if (rank (Action info) =? rank (Action final)) && bool_decide (Action info = RuleActionBan) then
    mkInfo RuleActionBan (SkipModules final) (if BanMinutes final <? BanMinutes info then BanMinutes info else BanMinutes final)
  else final.
(** The loop stops at the first rule of a lower priority. *)
Fixpoint pick_loop (actions : gmap gostr RuleActionInfo) (top : Z) (ruleMatchs : list RuleEntry) (final : RuleActionInfo) (skipSet : gset gostr) :
    RuleActionInfo * gset gostr :=
  match ruleMatchs with
  | [] => (final, skipSet)
  | v :: rest =>
      if negb (Salience v =? top) then (final, skipSet)
      else let info := GetRuleAction actions (RuleName v) in
           pick_loop actions top rest (stronger final info)
             (if bool_decide (Action info = RuleActionAllow) then list_to_set (SkipModules info) ∪ skipSet else skipSet)
  end.
Definition pickRuleAction (actions : gmap gostr RuleActionInfo) (ruleMatchs : list RuleEntry) : RuleActionInfo :=
  match ruleMatchs with
  | [] => deny
  | v :: _ =>
      let '(final, skipSet) := pick_loop actions (Salience v) ruleMatchs (mkInfo [] [] 0) ∅ in
      let final := if bool_decide (Action final = []) then mkInfo RuleActionDeny (SkipModules final) (BanMinutes final) else final in
      if bool_decide (Action final = RuleActionAllow) then mkInfo (Action final) (elements skipSet) (BanMinutes final) else final
  end.

(** ** Rules on the place of the visitor *)

(** [MF\s*\.\s*(COUNTRY|PROVINCE|CITY)\b] *)
Definition geo_fields : list gostr := [$"COUNTRY"; $"PROVINCE"; $"CITY"].
Definition m_geo (_ : option ascii) (s : gostr) : option (unit * nat) :=
  if has_prefix s $"MF" then
    match skip_space (drop 2 s) with
    | c :: r =>
        let r' := skip_space r in
        if Ascii.eqb c "." && existsb (λ f, has_prefix r' f && match drop (length f) r' with d :: _ => negb (is_word d) | [] => true end) geo_fields
        then Some ((), 1%nat) else None
    | [] => None
    end
  else None.
Definition isGeoRule (grlText : gostr) : bool := match find_all m_geo (BuildGrlSkeleton grlText) with [] => false | _ => true end.
Definition dropGeoRules (ruleMatchs : list RuleEntry) : list RuleEntry := List.filter (λ v, negb (isGeoRule (GrlText v))) ruleMatchs.

(** [GetIPFailureCount\s*\(\s*(\d+)\s*\)\s*[>=]+\s*(\d+)] *)
Definition number (s : gostr) : option (gostr * gostr) := match span is_digit s with ([], _) => None | (ds, r) => Some (ds, r) end.
Definition open_with (c : ascii) (s : gostr) : option gostr := match skip_space s with d :: r => if Ascii.eqb d c then Some r else None | [] => None end.
Definition m_failures (_ : option ascii) (s : gostr) : option ((gostr * gostr) * nat) :=
  if has_prefix s $"GetIPFailureCount" then
    r ← open_with "(" (drop 17 s);
    x ← number (skip_space r);
    r ← open_with ")" x.2;
    match span (λ c, one_of c $">=") (skip_space r) with
    | ([], _) => None
    | (_, r) => y ← number (skip_space r); Some ((x.1, y.1), (length s - length y.2)%nat)
    end
  else None.
Definition parseIPFailureThreshold (ruleText : gostr) : option (Z * Z) :=
  match find_all m_failures (BuildGrlSkeleton ruleText) with
  | (_, (m, c)) :: _ => match parse_int m, parse_int c with Some minutes, Some count => Some (minutes, count) | _, _ => None end
  | [] => None
  end.

(** ** One scope, and both *)

Record ruleMatchResult := mkMatch { Matched : bool; RAction : RuleActionInfo; Title : gostr; TopSalience : Z }.
Definition unmatched : ruleMatchResult := mkMatch false (mkInfo [] [] 0) [] 0.

(** The request state a rule check changes: the risk level, the thresholds noted for the
    failure counter, and the cache. *)
Record state := mkState { RISK_LEVEL : Z; noted : list (gostr * Z * Z); cache : gmap gostr (WafCache.WafCacheItem Z) }.
Definition with_risk (n : Z) (st : state) : state := mkState n (noted st) (cache st).
Definition with_cache (c : gmap gostr (WafCache.WafCacheItem Z)) (st : state) : state := mkState (RISK_LEVEL st) (noted st) c.
Definition RecordIPFailureThreshold (x : visit) (minutes count : Z) (st : state) : state :=
  if bool_decide (SRC_IP x = []) || unfailing x then st
  else mkState (RISK_LEVEL st) (noted st ++ [(SRC_IP x, minutes, count)]) (cache st).

Definition note_threshold (x : visit) (st : state) (v : RuleEntry) : state :=
  match parseIPFailureThreshold (GrlText v) with Some (minutes, count) => RecordIPFailureThreshold x minutes count st | None => st end.

(** The rules that count for a request. *)
Definition matching (ruleHelper : option RuleHelper) (x : visit) : list RuleEntry :=
  match (h ← ruleHelper; kb ← KnowledgeBase h; fetch_matching kb x) with
  | Some ms => if GeoUnresolved x then dropGeoRules ms else ms
  | None => []
  end.
Definition actions_of (ruleHelper : option RuleHelper) : gmap gostr RuleActionInfo := match ruleHelper with Some h => ruleActions h | None => ∅ end.
Definition matchRules (ruleHelper : option RuleHelper) (x : visit) (titlePrefix : gostr) (st : state) : state * ruleMatchResult :=
  match matching ruleHelper x with
  | [] => (st, unmatched)
  | (v :: _) as ruleMatchs =>
      (foldl (note_threshold x) st ruleMatchs,
       mkMatch true (pickRuleAction (actions_of ruleHelper) ruleMatchs) (titlePrefix ++ concat (map (λ v, RuleDescription v ++ $",") ruleMatchs)) (Salience v))
  end.

Definition arbitrate (local globalR : ruleMatchResult) : ruleMatchResult :=
  if negb (Matched local) then globalR
  else if negb (Matched globalR) then local
  else if TopSalience globalR <? TopSalience local then local
  else if TopSalience local <? TopSalience globalR then globalR
  else
    let la := RAction local in
    let ga := RAction globalR in
    if rank (Action ga) <? rank (Action la) then local
    else if rank (Action la) <? rank (Action ga) then globalR
    else
      let ban := bool_decide (Action la = RuleActionBan) || bool_decide (Action ga = RuleActionBan) in
      let action := if ban then RuleActionBan else Action la in
      let minutes := if ban then (if BanMinutes la <? BanMinutes ga then BanMinutes ga else BanMinutes la) else 0 in
      let skip := if bool_decide (action = RuleActionAllow)
                  then merge_sort name_le (elements (list_to_set (SkipModules la) ∪ list_to_set (SkipModules ga) : gset gostr)) else [] in
      mkMatch true (mkInfo action skip minutes) (Title local ++ Title globalR) (TopSalience local).

(** ** The check, and the ban *)

(** [detection.Result], with what a rule may answer. *)
Record Result := mkRes { JumpGuardResult : bool; IsBlock : bool; RTitle : gostr; Content : gostr; IsLogOnly : bool; IsRuleAllow : bool; RSkipModules : list gostr }.
Definition no_hit : Result := mkRes false false [] [] false false [].

Definition CACHE_RULE_BAN_PRE : gostr := $"CACHE_RULE_BAN_PRE_".
Definition BuildRuleBanKey (hostCode ip : gostr) : gostr := CACHE_RULE_BAN_PRE ++ hostCode ++ $"|" ++ ip.
Definition ParseRuleBanKey (key : gostr) : option (gostr * gostr) :=
  if negb (has_prefix key CACHE_RULE_BAN_PRE) then None
  else let rest := trim_prefix key CACHE_RULE_BAN_PRE in
       match last_index_byte rest "|" with
       | Some (S _ as idx) => Some (take idx rest, drop (S idx) rest)
       | _ => None
       end.

(** The site: the fields that are read, and its rules. *)
Record HostSafe := mkHost { Code : gostr; IPMode : gostr; LogOnlyMode : Z; GUARD_STATUS : Z; Rule : option RuleHelper }.

Definition banned_client (h : HostSafe) (x : visit) : gostr := CCEngine.GetClientIPByMode (IPMode h) (NetSrcIp x) (SRC_IP x).

(** A ban is written unless one is running; in log-only mode none is. *)
Definition write_ban (now : Z) (h : HostSafe) (x : visit) (minutes : Z) (st : state) : state :=
  if (LogOnlyMode h =? 1) then st
  else
    let banIP := banned_client h x in
    if bool_decide (banIP = []) || (minutes <=? 0) then st
    else
      let banKey := BuildRuleBanKey (Code h) banIP in
      let '(c, exists_) := WafCache.IsKeyExist (cache st) now banKey in
      if exists_ then with_cache c st
      else with_cache (WafCache.SetWithTTl c now banKey minutes (swrap 64 (minutes * minute))) st.

(** Both scopes are asked before the decision. *)
Definition both_scopes (hostTarget : HostSafe) (globalHost : option HostSafe) (x : visit) (st : state) : state * ruleMatchResult :=
  let '(st, localResult) := matchRules (Rule hostTarget) x [] st in
  let '(st, globalResult) :=
    match globalHost with
    | Some g => if GUARD_STATUS g =? 1 then matchRules (Rule g) x $"【全局】" st else (st, unmatched)
    | None => (st, unmatched)
    end in
  (st, arbitrate localResult globalResult).

Definition CheckRule (now : Z) (hostTarget : HostSafe) (globalHost : option HostSafe) (x : visit) (st : state) : state * Result :=
  let '(st, final) := both_scopes hostTarget globalHost x st in
  if negb (Matched final) then (st, no_hit)
  else
    let a := RAction final in
    if bool_decide (Action a = RuleActionDeny) || bool_decide (Action a = RuleActionBan) then
      let st := with_risk 1 st in
      (if bool_decide (Action a = RuleActionBan) then write_ban now hostTarget x (BanMinutes a) st else st,
       mkRes false true (Title final) $"您的访问被阻止触发规则" false false [])
    else if bool_decide (Action a = RuleActionAllow) then
      (st, if SkipAll a then mkRes true false (Title final) [] false true [RuleSkipAll]
           else mkRes false false (Title final) [] false true (SkipModules a))
    else if bool_decide (Action a = RuleActionLog) then (with_risk 1 st, mkRes false false (Title final) [] true false [])
    else (st, no_hit).

(** [matchRuleBan]: the key that hits, and the client. *)
Definition matchRuleBan (now : Z) (hostCode netSrcIP srcIP ipMode : gostr) (st : state) : state * (gostr * gostr) :=
  let clientIP := CCEngine.GetClientIPByMode ipMode netSrcIP srcIP in
  if bool_decide (clientIP = []) then (st, ([], []))
  else
    let key := BuildRuleBanKey hostCode clientIP in
    let '(c, exists_) := WafCache.IsKeyExist (cache st) now key in
    (with_cache c st, (if exists_ then key else [], clientIP)).
End rules.

(** ** What the rules say together

    The rules of the highest priority, and of those the strongest action: a ban before a
    refusal before a pass before a note; the longest ban; all the modules passed. *)

Definition top {A} (l : list (Z * A)) : list A := map snd (List.filter (λ p : Z * A, forallb (λ q : Z * A, q.1 <=? p.1) l) l).
Definition says (a : gostr) (i : RuleActionInfo) : bool := bool_decide (Action i = a).
Definition strongest (l : list RuleActionInfo) : gostr :=
  if existsb (says RuleActionBan) l then RuleActionBan else if existsb (says RuleActionDeny) l then RuleActionDeny
  else if existsb (says RuleActionAllow) l then RuleActionAllow else RuleActionLog.
Definition longest (l : list RuleActionInfo) : Z := foldr (λ i m, Z.max (BanMinutes i) m) 0 l.
Definition passes (l : list RuleActionInfo) : gset gostr := foldr (λ i m, list_to_set (SkipModules i) ∪ m) ∅ l.

(** An action as [ExtractRuleActions] finds it. *)
Record wf_info (i : RuleActionInfo) : Prop := {
  wf_action : Action i ∈ [RuleActionDeny; RuleActionAllow; RuleActionLog; RuleActionBan];
  wf_minutes : if says RuleActionBan i then 0 < BanMinutes i ≤ maxBanMinutes else BanMinutes i = 0;
  wf_modules : says RuleActionAllow i = false → SkipModules i = [] }.
(** [i] is what the rules [l] say together. *)
Record together (i : RuleActionInfo) (l : list RuleActionInfo) : Prop := {
  tg_action : Action i = strongest l;
  tg_minutes : BanMinutes i = longest l;
  tg_modules : list_to_set (SkipModules i) = (if says RuleActionAllow i then passes l else ∅ : gset gostr) }.

Section facts.

Lemma deny_wf : wf_info deny.
Proof. split; [set_solver|done|done]. Qed.

Lemma strongest_app a b :
  strongest (a ++ b) = if rank (strongest a) <? rank (strongest b) then strongest b
                       else if rank (strongest b) <? rank (strongest a) then strongest a
                       else if bool_decide (strongest a = RuleActionBan) || bool_decide (strongest b = RuleActionBan) then RuleActionBan else strongest a.
Proof.
  unfold strongest. rewrite !existsb_app.
  by destruct (existsb (says RuleActionBan) a), (existsb (says RuleActionBan) b), (existsb (says RuleActionDeny) a), (existsb (says RuleActionDeny) b),
    (existsb (says RuleActionAllow) a), (existsb (says RuleActionAllow) b).
Qed.

Lemma longest_cons i l : longest (i :: l) = Z.max (BanMinutes i) (longest l).
Proof. done. Qed.
Lemma longest_nonneg l : 0 ≤ longest l.
Proof. induction l as [|i l IH]; [done|]. rewrite longest_cons. lia. Qed.
Lemma longest_app a b : longest (a ++ b) = Z.max (longest a) (longest b).
Proof.
  pose proof (longest_nonneg b). induction a as [|i a IH]; [change (longest []) with 0; cbn [app]; lia|]. cbn [app]. rewrite !longest_cons, IH. lia.
Qed.
Lemma passes_cons i l : passes (i :: l) = list_to_set (SkipModules i) ∪ passes l.
Proof. done. Qed.
Lemma passes_app a b : passes (a ++ b) = passes a ∪ passes b.
Proof. induction a as [|i a IH]; [change (passes []) with (∅ : gset gostr); cbn [app]; set_solver|]. cbn [app]. rewrite !passes_cons, IH. set_solver. Qed.

Lemma known_cases (P : gostr → Prop) i :
  wf_info i → P RuleActionDeny → P RuleActionAllow → P RuleActionLog → P RuleActionBan → P (Action i).
Proof. intros [Ha _ _] ????. repeat (apply elem_of_cons in Ha as [->|Ha]; [done|]). by apply not_elem_of_nil in Ha. Qed.
Lemma strongest_cases (P : gostr → Prop) l : P RuleActionDeny → P RuleActionAllow → P RuleActionLog → P RuleActionBan → P (strongest l).
Proof. intros. unfold strongest. by repeat case_match. Qed.
Lemma strongest_one i : wf_info i → strongest [i] = Action i.
Proof. intros Hi. unfold strongest, says. cbn [existsb]. destruct Hi as [Ha _ _]. repeat (apply elem_of_cons in Ha as [->|Ha]; [done|]). by apply not_elem_of_nil in Ha. Qed.

(** No ban among them, no minutes; nothing passed, no modules. *)
Lemma longest_none l : Forall wf_info l → strongest l ≠ RuleActionBan → longest l = 0.
Proof.
  intros Hl Hs. assert (E : existsb (says RuleActionBan) l = false) by (unfold strongest in Hs; by destruct (existsb (says RuleActionBan) l)). clear Hs.
  induction Hl as [|i l Hi Hl IH]; [done|]. cbn [existsb] in E. apply orb_false_iff in E as [E1 E2]. pose proof (wf_minutes _ Hi) as Hm. rewrite E1 in Hm.
  by rewrite longest_cons, Hm, IH.
Qed.
Lemma passes_none l : Forall wf_info l → rank (strongest l) < rank RuleActionAllow → passes l = ∅.
Proof.
  intros Hl Hs. assert (E : existsb (says RuleActionAllow) l = false).
  { unfold strongest in Hs. by destruct (existsb (says RuleActionBan) l), (existsb (says RuleActionDeny) l), (existsb (says RuleActionAllow) l). }
  clear Hs. induction Hl as [|i l Hi Hl IH]; [done|]. cbn [existsb] in E. apply orb_false_iff in E as [E1 E2]. rewrite passes_cons, (wf_modules _ Hi E1), IH by done. set_solver.
Qed.
(** The stronger of two sides decides for both. *)
Lemma together_left i A B : Forall wf_info A → Forall wf_info B → together i A → rank (strongest B) < rank (strongest A) → together i (A ++ B).
Proof.
  intros HA HB [Ha Hm Hk] Hr. split.
  - rewrite strongest_app. rewrite (proj2 (Z.ltb_ge _ _)) by lia. by rewrite (proj2 (Z.ltb_lt _ _)).
  - rewrite longest_app, (longest_none B HB), <- Hm; [pose proof (longest_nonneg A); lia|]. intros E. rewrite E in Hr. change (rank RuleActionBan) with 3 in Hr.
    enough (rank (strongest A) ≤ 3) by lia. by apply (strongest_cases (λ a, rank a ≤ 3)).
  - rewrite Hk, passes_app. unfold says. case_bool_decide as E; [|done]. rewrite (passes_none B HB); [set_solver|]. by rewrite <- E, Ha.
Qed.
Lemma together_comm i A B : together i (A ++ B) → together i (B ++ A).
Proof.
  intros [Ha Hm Hk]. split; [rewrite Ha|by rewrite Hm, !longest_app, Z.max_comm|by rewrite Hk, !passes_app, (union_comm_L (passes A))].
  unfold strongest. by rewrite !existsb_app, !(orb_comm (existsb _ A)).
Qed.
Lemma minutes_none i : wf_info i → Action i ≠ RuleActionBan → BanMinutes i = 0.
Proof. intros Hi Hn. pose proof (wf_minutes _ Hi) as Hm. unfold says in Hm. by rewrite bool_decide_false in Hm. Qed.
Lemma longest_one i : wf_info i → longest [i] = BanMinutes i.
Proof. intros Hi. rewrite longest_cons. change (longest []) with 0. pose proof (wf_minutes _ Hi). destruct (says _ i); lia. Qed.

(** What the loop keeps after the rules [l]. *)
Record picked (final : RuleActionInfo) (skip : gset gostr) (l : list RuleActionInfo) : Prop := {
  pk_action : Action final = strongest l; pk_minutes : BanMinutes final = longest l; pk_skip : skip = passes l;
  pk_modules : says RuleActionAllow final = false → SkipModules final = [] }.

Lemma picked_one i skip : wf_info i → skip = passes [i] → picked i skip [i].
Proof. intros Hi ->. split; [by rewrite strongest_one|by rewrite longest_one|done|by apply wf_modules]. Qed.

Lemma stronger_step final skip l i skip' :
  Forall wf_info l → wf_info i → picked final skip l → skip' = passes (l ++ [i]) → picked (stronger final i) skip' (l ++ [i]).
Proof.
  intros Hl Hi [Ha Hm Hs Hk] ->. pose proof (longest_none l Hl) as Hln. pose proof (minutes_none i Hi) as Hmn.
  assert (Hne : Action final ≠ []) by (rewrite Ha; by apply strongest_cases).
  unfold stronger. rewrite (bool_decide_false (Action final = [])) by done. cbn [orb].
  assert (Hj := strongest_app l [i]). assert (Hlo := longest_app l [i]). rewrite strongest_one, longest_one in * by done. rewrite <- Ha, <- Hm in *.
  assert (Hr : rank (Action i) ≤ 3 ∧ rank (Action final) ≤ 3).
  { split; [by apply (known_cases (λ a, rank a ≤ 3))|rewrite Ha; by apply (strongest_cases (λ a, rank a ≤ 3))]. }
  destruct (Z.ltb_spec (rank (Action final)) (rank (Action i))) as [H1|H1].
  - split; [done| |done|by apply wf_modules]. rewrite Hlo, Hln; [|intros E; rewrite E in H1; change (rank RuleActionBan) with 3 in H1; lia].
    pose proof (longest_nonneg [i]) as Hn. rewrite longest_one in Hn by done. lia.
  - destruct (Z.ltb_spec (rank (Action i)) (rank (Action final))) as [H2|H2].
    + rewrite (proj2 (Z.eqb_neq _ _)) by lia. cbn [andb]. split; [done| |done|done].
      rewrite Hlo, Hmn; [|intros E; rewrite E in H2; change (rank RuleActionBan) with 3 in H2; lia]. pose proof (longest_nonneg l). lia.
    + rewrite (proj2 (Z.eqb_eq _ _)) by lia. cbn [andb]. destruct (bool_decide_reflect (Action i = RuleActionBan)) as [Eb|Eb].
      * split; cbn; [by rewrite Hj, orb_true_r|rewrite Hlo; destruct (Z.ltb_spec (BanMinutes final) (BanMinutes i)); lia|done|].
        intros _. apply Hk. unfold says. apply bool_decide_eq_false. intros E. rewrite E, Eb in H1. by vm_compute in H1.
      * rewrite orb_false_r in Hj. split; [|rewrite Hlo, Hmn by done; pose proof (longest_nonneg l); lia|done|done].
        rewrite Hj. by destruct (bool_decide_reflect (Action final = RuleActionBan)) as [->|].
Qed.

(** ** The first rules of a sorted list *)

Lemma top_is {A} (l : list (Z * A)) m : (∀ p, p ∈ l → p.1 ≤ m) → (∃ p, p ∈ l ∧ p.1 = m) → top l = map snd (List.filter (λ p : Z * A, p.1 =? m) l).
Proof.
  intros Hle (p & Hp & Hm). unfold top. f_equal. apply filter_ext_in. intros q Hq%list_elem_of_In. apply eq_iff_eq_true.
  rewrite Z.eqb_eq, forallb_elem_of. split.
  - intros Hall. apply Hall in Hp. apply Z.leb_le in Hp. specialize (Hle q Hq). lia.
  - intros Hq' r Hr. apply Z.leb_le. specialize (Hle r Hr). lia.
Qed.
Lemma filter_none {A} (f : A → bool) l : (∀ x, x ∈ l → f x = false) → List.filter f l = [].
Proof. induction l as [|x l IH]; [done|]. intros Hf. cbn. rewrite Hf by set_solver. apply IH. set_solver. Qed.
(** The first rules of two scopes. *)
Lemma top_app {A} (a b : list (Z * A)) m n :
  (∀ p, p ∈ a → p.1 ≤ m) → (∃ p, p ∈ a ∧ p.1 = m) → (∀ p, p ∈ b → p.1 ≤ n) → (∃ p, p ∈ b ∧ p.1 = n) →
  top (a ++ b) = if n <? m then top a else if m <? n then top b else top a ++ top b.
Proof.
  intros Ha Hea Hb Heb. rewrite (top_is a m), (top_is b n) by done. destruct Hea as (p & Hp & Hpm), Heb as (q & Hq & Hqn).
  rewrite (top_is (a ++ b) (Z.max m n)).
  - rewrite List.filter_app, map_app. destruct (Z.ltb_spec n m); [|destruct (Z.ltb_spec m n)].
    + rewrite Z.max_l by lia. rewrite (filter_none _ b), app_nil_r; [done|]. intros r Hr. specialize (Hb r Hr). lia.
    + rewrite Z.max_r by lia. rewrite (filter_none _ a); [done|]. intros r Hr. specialize (Ha r Hr). lia.
    + assert (m = n) as -> by lia. by rewrite Z.max_id.
  - intros r [Hr|Hr]%elem_of_app; [specialize (Ha r Hr)|specialize (Hb r Hr)]; lia.
  - destruct (Z.max_spec m n) as [[_ ->]|[_ ->]]; [exists q|exists p]; rewrite elem_of_app; auto.
Qed.
End facts.

(** ** Picking and arbitrating *)

Section picking.
Context `{UnicodeUpper, RuleEngine}.
Definition table_ok (actions : gmap gostr RuleActionInfo) : Prop := map_Forall (λ _ i, wf_info i) actions.
Definition resolve (actions : gmap gostr RuleActionInfo) (v : RuleEntry) : Z * RuleActionInfo := (Salience v, GetRuleAction actions (RuleName v)).
Definition by_priority (ms : list RuleEntry) : Prop := StronglySorted (λ a b, Salience b ≤ Salience a) ms.

Lemma GetRuleAction_wf actions name : table_ok actions → wf_info (GetRuleAction actions name).
Proof.
  intros Ht. unfold GetRuleAction. destruct (actions !! name) as [i|] eqn:E; [|apply deny_wf]. case_bool_decide; [apply deny_wf|by apply (Ht name)].
Qed.

Lemma pick_loop_picked actions m ms final skip l :
  table_ok actions → by_priority ms → (∀ v, v ∈ ms → Salience v ≤ m) → Forall wf_info l → picked final skip l →
  picked (pick_loop actions m ms final skip).1 (pick_loop actions m ms final skip).2
    (l ++ map snd (List.filter (λ p : Z * RuleActionInfo, p.1 =? m) (map (resolve actions) ms))).
Proof.
  intros Ht. revert final skip l. induction ms as [|v ms IH]; intros final skip l Hs Hm Hl Hp; cbn [pick_loop map List.filter].
  { by rewrite app_nil_r. }
  apply StronglySorted_cons in Hs as [Hv Hs]. cbn [resolve fst]. destruct (Z.eqb_spec (Salience v) m) as [E|E]; cbn [negb map snd].
  - set (info := GetRuleAction actions (RuleName v)). assert (Hi : wf_info info) by by apply GetRuleAction_wf.
    specialize (IH (stronger final info) (if bool_decide (Action info = RuleActionAllow) then list_to_set (SkipModules info) ∪ skip else skip) (l ++ [info])).
    rewrite <- app_assoc in IH. apply IH; [done|set_solver|by apply Forall_app; auto|]. apply (stronger_step _ skip); [done..|].
    rewrite passes_app, passes_cons, (pk_skip _ _ _ Hp). change (passes []) with (∅ : gset gostr).
    pose proof (wf_modules _ Hi) as Hk. unfold says in Hk. case_bool_decide; [set_solver|]. rewrite Hk by done. set_solver.
  - rewrite filter_none; [by rewrite app_nil_r|]. intros p (w & -> & Hw)%list_elem_of_fmap. apply Z.eqb_neq. cbn.
    rewrite Forall_forall in Hv. specialize (Hv w Hw). specialize (Hm v ltac:(set_solver)). lia.
Qed.

Lemma top_matches actions v ms : by_priority (v :: ms) →
  (∀ p, p ∈ map (resolve actions) (v :: ms) → p.1 ≤ Salience v) ∧ (∃ p, p ∈ map (resolve actions) (v :: ms) ∧ p.1 = Salience v).
Proof.
  intros [Hv Hs]%StronglySorted_cons. split; [|exists (resolve actions v); set_solver].
  intros p (w & -> & Hw)%list_elem_of_fmap. rewrite Forall_forall in Hv. apply elem_of_cons in Hw as [->|Hw]; [done|by apply Hv].
Qed.

Lemma top_wf actions ms : table_ok actions → Forall wf_info (top (map (resolve actions) ms)).
Proof.
  intros Ht. apply Forall_forall. intros i (p & -> & Hp)%list_elem_of_fmap. apply list_elem_of_In, filter_In in Hp as [Hp%list_elem_of_In _].
  apply list_elem_of_fmap in Hp as (v & -> & _). by apply GetRuleAction_wf.
Qed.

Lemma pickRuleAction_together actions v ms : table_ok actions → by_priority (v :: ms) →
  together (pickRuleAction actions (v :: ms)) (top (map (resolve actions) (v :: ms))).
Proof.
  intros Ht Hs. destruct (top_matches actions v ms Hs) as [Hle Hex]. rewrite (top_is _ _ Hle Hex).
  pose proof Hs as [Hv Hs']%StronglySorted_cons. rewrite Forall_forall in Hv.
  set (i := GetRuleAction actions (RuleName v)). assert (Hi : wf_info i) by by apply GetRuleAction_wf.
  assert (Hp : picked (pick_loop actions (Salience v) (v :: ms) (mkInfo [] [] 0) ∅).1 (pick_loop actions (Salience v) (v :: ms) (mkInfo [] [] 0) ∅).2
    (map snd (List.filter (λ p : Z * RuleActionInfo, p.1 =? Salience v) (map (resolve actions) (v :: ms))))).
  { cbn [pick_loop map List.filter resolve fst]. rewrite Z.eqb_refl. cbn [negb map snd]. fold i.
    apply (pick_loop_picked actions (Salience v) ms _ _ [i]); [done..|auto|].
    change (stronger (mkInfo [] [] 0) i) with i. apply picked_one; [done|]. rewrite passes_cons. change (passes []) with (∅ : gset gostr).
    pose proof (wf_modules _ Hi) as Hk. unfold says in Hk. case_bool_decide; [done|]. rewrite Hk by done. set_solver. }
  unfold pickRuleAction. destruct (pick_loop _ _ _ _ _) as [f s]. cbn [fst snd] in Hp. destruct Hp as [Ha Hm Hk Hmod].
  rewrite (bool_decide_false (Action f = [])) by (rewrite Ha; by apply strongest_cases).
  destruct (bool_decide_reflect (Action f = RuleActionAllow)) as [E|E]; split; cbn; [done|done| |done|done|].
  - unfold says. cbn. rewrite E, list_to_set_elements_L. done.
  - unfold says in *. rewrite bool_decide_false in * by done. by rewrite Hmod.
Qed.

Lemma arbitrate_together l g A B m n :
  Matched l = true → Matched g = true → TopSalience l = m → TopSalience g = n → Forall wf_info A → Forall wf_info B →
  together (RAction l) A → together (RAction g) B →
  Matched (arbitrate l g) = true ∧ together (RAction (arbitrate l g)) (if n <? m then A else if m <? n then B else A ++ B).
Proof.
  intros Hl Hg <- <- HA HB Ta Tb. unfold arbitrate. rewrite Hl, Hg. cbn [negb].
  destruct (TopSalience g <? TopSalience l); [done|]. destruct (TopSalience l <? TopSalience g); [done|].
  rewrite (tg_action _ _ Ta), (tg_action _ _ Tb). destruct (Z.ltb_spec (rank (strongest B)) (rank (strongest A))); [split; [done|by apply together_left]|].
  destruct (Z.ltb_spec (rank (strongest A)) (rank (strongest B))); [split; [done|by apply together_comm, together_left]|]. split; [done|].
  destruct Ta as [Aa Am Ak], Tb as [Ba Bm Bk]. pose proof (longest_none A HA) as LA. pose proof (longest_none B HB) as LB.
  assert (Hj := strongest_app A B). rewrite !(proj2 (Z.ltb_ge _ _)) in Hj by done.
  split; cbn [RAction Action BanMinutes SkipModules]; [by rewrite Hj|rewrite longest_app|rewrite passes_app; unfold says].
  - rewrite Am, Bm. assert (Hmax : (if longest A <? longest B then longest B else longest A) = longest A `max` longest B) by (destruct (Z.ltb_spec (longest A) (longest B)); lia).
    rewrite Hmax. destruct (bool_decide_reflect (strongest A = RuleActionBan)) as [Ea|Ea], (bool_decide_reflect (strongest B = RuleActionBan)) as [Eb|Eb]; [done..|].
    by rewrite (LA Ea), (LB Eb).
  - cbn [Action]. destruct (bool_decide_reflect ((if bool_decide (strongest A = RuleActionBan) || bool_decide (strongest B = RuleActionBan)
      then RuleActionBan else strongest A) = RuleActionAllow)) as [E|E]; [|done]. rewrite merge_sort_Permutation, list_to_set_elements_L, Ak, Bk. unfold says. rewrite Aa, Ba.
    assert (Ea : strongest A = RuleActionAllow) by (destruct (_ || _); [by vm_compute in E|done]).
    assert (Eb : strongest B = RuleActionAllow).
    { rewrite Ea in *. change (rank RuleActionAllow) with 2 in *. clear - H1 H2. revert H1 H2. by apply (strongest_cases (λ a, 2 ≤ rank a → rank a ≤ 2 → a = RuleActionAllow)). }
    by rewrite Ea, Eb.
Qed.

(** ** The actions the texts declare *)

Lemma read_call_wf fn args : (read_call fn args).2 = false → wf_info (read_call fn args).1.1.
Proof.
  unfold read_call. repeat case_bool_decide; cbn; try (intros _; split; [set_solver|done|done]).
  - destruct (parseActionArgs args) as [mods bad]. intros _. split; [set_solver|done|done].
  - destruct (parse_int (trim_space args)) as [n|]; [|done]. cbn. intros [Hb1 Hb2]%orb_false_iff. prop_of_bool.
    split; [set_solver| |done]. change (0 < n ≤ maxBanMinutes). lia.
Qed.

Lemma lenient_wf sk raw i : lenient (extractBlockAction sk raw) = Some i → wf_info i.
Proof.
  unfold extractBlockAction. destruct (calls_of sk) as [[offset calls]|]; [|done]. destruct calls as [|c cs]; [done|].
  cbn [map length lenient existsb]. set (x := read_call _ _). destruct x as [[j bad] e] eqn:Ex. cbn [fst snd].
  assert (Hj : e = false → wf_info j) by (intros ->; pose proof (read_call_wf (fnName c.2) (raw_args raw offset c)) as Hr; fold x in Hr; rewrite Ex in Hr; by apply Hr).
  assert (Hk : Action j ≠ RuleActionBan → e = false).
  { intros Hn. destruct e; [|done]. exfalso. apply Hn. unfold x, read_call in Ex. repeat case_bool_decide; try done.
    - by destruct (parseActionArgs _).
    - destruct (parse_int _); by apply (f_equal (λ y : RuleActionInfo * list gostr * bool, Action y.1.1)) in Ex. }
  case_bool_decide as Hb; cbn [andb]; [|intros [= <-]; auto].
  destruct e; cbn [orb]; [intros [= <-]; apply deny_wf|]. destruct (_ || _); intros [= <-]; [apply deny_wf|auto].
Qed.

Lemma ExtractRuleActions_wf ruleText : table_ok (ExtractRuleActions ruleText).
Proof.
  unfold ExtractRuleActions. assert (Hf : ∀ bs m, table_ok m → table_ok (foldl (λ m b, match lenient (block_action (BuildGrlSkeleton ruleText) ruleText b) with Some info => <[Name b := info]> m | None => m end) m bs)).
  { induction bs as [|b bs IH]; intros m Hm; [done|]. cbn [foldl]. apply IH. destruct (lenient _) as [i|] eqn:E; [|done].
    apply map_Forall_insert_2; [by eapply lenient_wf|done]. }
  apply Hf, map_Forall_empty.
Qed.

(** Whatever is loaded, every action is well formed. *)
Lemma LoadRules_ok ruleconfig : table_ok (ruleActions (LoadRules ruleconfig).1).
Proof.
  unfold LoadRules. assert (Hf : ∀ st, table_ok st.1.2 → table_ok (foldl load_rule st ruleconfig).1.2).
  { induction ruleconfig as [|v vs IH]; intros st Hst; [done|]. cbn [foldl]. apply IH. destruct st as [[lib m] s]. unfold load_rule.
    destruct (negb _); [done|]. destruct (build_rule lib (RuleContent v)) as [lib' []]; [|done]. cbn. unfold mergeRuleActions.
    apply map_Forall_union_2; [apply ExtractRuleActions_wf|done]. }
  specialize (Hf ((build_rule empty_library []).1, ∅, []) ltac:(apply map_Forall_empty)). by destruct (foldl load_rule _ ruleconfig) as [[lib m] s].
Qed.

(** ** The decision *)

(** The engine answers by falling priority, as its documentation says. *)
Hypothesis engine_sorted : ∀ kb x ms, fetch_matching kb x = Some ms → by_priority ms.
Definition site_ok (h : HostSafe) : Prop := table_ok (actions_of (Rule h)).
Definition matched (ruleHelper : option RuleHelper) (x : visit) : list (Z * RuleActionInfo) := map (resolve (actions_of ruleHelper)) (matching ruleHelper x).
(** The rules of both scopes that match, each with its priority and action. *)
Definition candidates (h : HostSafe) (g : option HostSafe) (x : visit) : list (Z * RuleActionInfo) :=
  matched (Rule h) x ++ match g with Some g => if GUARD_STATUS g =? 1 then matched (Rule g) x else [] | None => [] end.

Lemma matching_sorted r x : by_priority (matching r x).
Proof.
  unfold matching. destruct r as [h|]; [|constructor]. cbn. destruct (KnowledgeBase h) as [kb|]; [|constructor]. cbn.
  destruct (fetch_matching kb x) as [ms|] eqn:E; [|constructor]. apply engine_sorted in E. destruct (GeoUnresolved x); [|done].
  unfold dropGeoRules. clear -E. induction E as [|v ms Hs IH Hv]; [constructor|]. cbn. destruct (negb _); [|done]. constructor; [done|].
  rewrite Forall_forall in *. intros w Hw%list_elem_of_In%filter_In. apply Hv. apply list_elem_of_In, Hw.
Qed.

Lemma matchRules_spec r x title st : table_ok (actions_of r) →
  let '(st', res) := matchRules r x title st in
  RISK_LEVEL st' = RISK_LEVEL st ∧ cache st' = cache st ∧
  (matched r x = [] → res = unmatched) ∧
  (matched r x ≠ [] → Matched res = true ∧ together (RAction res) (top (matched r x)) ∧
     (∀ p, p ∈ matched r x → p.1 ≤ TopSalience res) ∧ (∃ p, p ∈ matched r x ∧ p.1 = TopSalience res)).
Proof.
  intros Ht. unfold matchRules, matched. pose proof (matching_sorted r x) as Hs. destruct (matching r x) as [|v ms]; [done|].
  assert (Hn : ∀ ms st, RISK_LEVEL (foldl (note_threshold x) st ms) = RISK_LEVEL st ∧ cache (foldl (note_threshold x) st ms) = cache st).
  { clear. induction ms as [|v ms IH]; intros st; [done|]. cbn [foldl]. destruct (IH (note_threshold x st v)) as [-> ->].
    unfold note_threshold, RecordIPFailureThreshold. by repeat case_match. }
  destruct (Hn (v :: ms) st) as [Hr Hc]. split; [done|]. split; [done|]. split; [done|]. intros _. cbn [Matched RAction TopSalience].
  split; [done|]. split; [by apply pickRuleAction_together|by apply top_matches].
Qed.

Lemma both_scopes_spec h g x st : site_ok h → (∀ g', g = Some g' → site_ok g') →
  let '(st', final) := both_scopes h g x st in
  RISK_LEVEL st' = RISK_LEVEL st ∧ cache st' = cache st ∧
  (candidates h g x = [] → Matched final = false) ∧
  (candidates h g x ≠ [] → Matched final = true ∧ together (RAction final) (top (candidates h g x))).
Proof.
  intros Hh Hg. unfold both_scopes, candidates. pose proof (matchRules_spec (Rule h) x [] st Hh) as Hl. destruct (matchRules _ x [] st) as [st1 l].
  destruct Hl as (R1 & C1 & N1 & S1).
  set (other := match g with Some g => if GUARD_STATUS g =? 1 then matched (Rule g) x else [] | None => [] end).
  assert (Hr : ∀ st', ∃ st2 r, match g with Some g => if GUARD_STATUS g =? 1 then matchRules (Rule g) x $"【全局】" st' else (st', unmatched) | None => (st', unmatched) end = (st2, r) ∧
    RISK_LEVEL st2 = RISK_LEVEL st' ∧ cache st2 = cache st' ∧ (other = [] → r = unmatched) ∧
    (other ≠ [] → Matched r = true ∧ together (RAction r) (top other) ∧ Forall wf_info (top other) ∧
       (∀ p, p ∈ other → p.1 ≤ TopSalience r) ∧ (∃ p, p ∈ other ∧ p.1 = TopSalience r))).
  { intros st'. unfold other. destruct g as [g|]; [|by eexists _, _]. destruct (GUARD_STATUS g =? 1); [|by eexists _, _].
    pose proof (matchRules_spec (Rule g) x $"【全局】" st' (Hg g eq_refl)) as Hm. destruct (matchRules _ _ _ _) as [st2 r]. exists st2, r.
    destruct Hm as (?&?&?&Hm). split_and!; [done..|]. intros Hne. destruct (Hm Hne) as (?&?&?&?). split_and!; [done..| |done|done]. by apply top_wf, Hg. }
  destruct (Hr st1) as (st2 & r & -> & R2 & C2 & N2 & S2). split; [congruence|]. split; [congruence|]. clear R1 R2 C1 C2 Hr.
  destruct (matched (Rule h) x) as [|p ps] eqn:El; [rewrite (N1 eq_refl); cbn [app]|clear N1].
  - split; [intros Ho; by rewrite (N2 Ho)|]. intros Ho. destruct (S2 Ho) as (?&?&_). unfold arbitrate. by split.
  - destruct (S1 ltac:(done)) as (M1 & T1 & B1 & E1). split; [done|]. intros _. destruct other as [|q qs] eqn:Eo.
    + rewrite (N2 eq_refl), app_nil_r. unfold arbitrate. rewrite M1. by split.
    + destruct (S2 ltac:(done)) as (M2 & T2 & W2 & B2 & E2). rewrite (top_app _ _ _ _ B1 E1 B2 E2).
      apply arbitrate_together; [done..| |done|done|done]. rewrite <- El. by apply top_wf.
Qed.

(** C4: custom rules decide together.  Of all the rules that match in the two scopes those
    of the highest priority count, and of them the strongest action: the request is
    blocked when one of them refuses or bans, else passed when one passes - with the
    modules of all of them, or everything when one says so - else only noted.  The order
    in which the engine returns rules of the same priority plays no part. *)
Theorem CheckRule_decides now h g x st : site_ok h → (∀ g', g = Some g' → site_ok g') →
  let l := top (candidates h g x) in
  let res := (CheckRule now h g x st).2 in
  (candidates h g x = [] → res = no_hit) ∧
  (candidates h g x ≠ [] →
     IsBlock res = bool_decide (strongest l = RuleActionBan ∨ strongest l = RuleActionDeny) ∧
     IsRuleAllow res = bool_decide (strongest l = RuleActionAllow) ∧
     IsLogOnly res = bool_decide (strongest l = RuleActionLog) ∧
     JumpGuardResult res = bool_decide (strongest l = RuleActionAllow ∧ RuleSkipAll ∈ passes l) ∧
     (strongest l = RuleActionAllow → list_to_set (RSkipModules res) = (if bool_decide (RuleSkipAll ∈ passes l) then {[ RuleSkipAll ]} else passes l : gset gostr))).
Proof.
  intros Hh Hg. pose proof (both_scopes_spec h g x st Hh Hg) as Hs. unfold CheckRule. destruct (both_scopes h g x st) as [st1 final].
  destruct Hs as (_ & _ & Hn & Hs). split; [intros Hc; by rewrite (Hn Hc)|]. intros Hc. destruct (Hs Hc) as [-> [Ha Hm Hk]]. cbn [negb]. clear Hn Hs Hc.
  set (l := top (candidates h g x)) in *. unfold says in Hk. unfold SkipAll. rewrite Ha in *.
  assert (Hall : strongest l = RuleActionAllow → RuleSkipAll ∈ SkipModules (RAction final) ↔ RuleSkipAll ∈ passes l).
  { intros E. rewrite E in Hk. rewrite <- (elem_of_list_to_set (C:=gset gostr)), Hk. done. }
  assert (Hcase : strongest l = RuleActionDeny ∨ strongest l = RuleActionAllow ∨ strongest l = RuleActionLog ∨ strongest l = RuleActionBan)
    by (apply (strongest_cases (λ a, a = _ ∨ a = _ ∨ a = _ ∨ a = _)); auto).
  destruct Hcase as [E|[E|[E|E]]]; rewrite E in *; [done| |done|done]. specialize (Hall eq_refl). change (bool_decide (RuleActionAllow = RuleActionAllow)) with true in Hk |- *.
  change (bool_decide (RuleActionAllow = RuleActionDeny)) with false. change (bool_decide (RuleActionAllow = RuleActionBan)) with false. cbn [orb snd].
  destruct (bool_decide_reflect (RuleSkipAll ∈ SkipModules (RAction final))) as [Es|Es].
  - split_and!; [done..|by symmetry; apply bool_decide_eq_true; split; [|apply Hall]|]. intros _. rewrite bool_decide_true by by apply Hall. set_solver.
  - split_and!; [done..|by symmetry; apply bool_decide_eq_false; intros [_ ?%Hall]|]. intros _. by rewrite bool_decide_false by by rewrite <- Hall.
Qed.

(** ** The ban *)

Abbreviation shows c t k := (is_Some (WafCache.view c t k)).

Lemma key_exists_spec (c : gmap gostr (WafCache.WafCacheItem Z)) now k :
  let '(c', b) := WafCache.IsKeyExist c now k in
  (b = true ↔ shows c now k) ∧ (b = false → c' !! k = None) ∧ (∀ t k', now ≤ t → WafCache.view c' t k' = WafCache.view c t k').
Proof.
  assert (Hno : false = true ↔ is_Some (None : option Z)) by (split; [done|by intros [? ?]]).
  unfold WafCache.IsKeyExist, WafCache.view at 1. destruct (c !! k) as [item|] eqn:E; [|done]. destruct (WafCache.live now item) eqn:El; [by split; [split; [eauto|]|]|].
  split; [done|]. split; [intros _; apply lookup_delete_eq|]. intros t k' Ht. by apply (WafCache.view_delete_stale c now k item).
Qed.

Lemma candidates_wf h g x : site_ok h → (∀ g', g = Some g' → site_ok g') → Forall wf_info (top (candidates h g x)).
Proof.
  intros Hh Hg. apply Forall_forall. intros i (p & -> & Hp)%list_elem_of_fmap. apply list_elem_of_In, filter_In in Hp as [Hp%list_elem_of_In _].
  assert (Hm : ∀ r, table_ok (actions_of r) → p ∈ matched r x → wf_info p.2) by (intros r Hr (v & -> & _)%list_elem_of_fmap; by apply GetRuleAction_wf).
  apply elem_of_app in Hp as [Hp|Hp]; [by eapply Hm|]. destruct g as [g|]; [|by apply not_elem_of_nil in Hp]. destruct (GUARD_STATUS g =? 1); [|by apply not_elem_of_nil in Hp].
  eapply Hm; [|done]. by apply Hg.
Qed.
Lemma longest_ban l : Forall wf_info l → strongest l = RuleActionBan → 0 < longest l ≤ maxBanMinutes.
Proof.
  intros Hl Hs. assert (E : existsb (says RuleActionBan) l = true).
  { unfold strongest in Hs. destruct (existsb (says RuleActionBan) l); [done|]. by repeat case_match. }
  clear Hs. assert (Hle : longest l ≤ maxBanMinutes).
  { clear E. induction Hl as [|i l Hi Hl IH]; [by vm_compute|]. rewrite longest_cons. pose proof (wf_minutes _ Hi). assert (0 ≤ maxBanMinutes) by by vm_compute. destruct (says _ i); lia. }
  split; [|done]. apply existsb_elem_of in E as (i & Hi & Ei). clear Hle. induction Hl as [|j l Hj Hl IH]; [by apply not_elem_of_nil in Hi|]. rewrite longest_cons.
  apply elem_of_cons in Hi as [<-|Hi]; [pose proof (wf_minutes _ Hj) as Hm; rewrite Ei in Hm; pose proof (longest_nonneg l); lia|]. specialize (IH Hi). lia.
Qed.

(** A request of a client to a site is stopped by a ban. *)
Definition stopped (t : Z) (code ip : gostr) (st : state) : Prop := shows (cache st) t (BuildRuleBanKey code ip).

Lemma matchRuleBan_spec now code net src mode st : let ip := CCEngine.GetClientIPByMode mode net src in
  ip ≠ [] → (matchRuleBan now code net src mode st).2.1 ≠ [] ↔ stopped now code ip st.
Proof.
  intros ip Hip. unfold matchRuleBan, stopped. fold ip. rewrite bool_decide_false by done. pose proof (key_exists_spec (cache st) now (BuildRuleBanKey code ip)) as Hk.
  destruct (WafCache.IsKeyExist _ _ _) as [c b]. destruct Hk as [<- _]. by destruct b.
Qed.

(** The key of a ban names its site and client: it is parsed back. *)
Lemma ParseRuleBanKey_Build code ip : code ≠ [] → "|"%char ∉ ip → ParseRuleBanKey (BuildRuleBanKey code ip) = Some (code, ip).
Proof.
  intros Hc Hip. unfold ParseRuleBanKey, BuildRuleBanKey, trim_prefix. assert (Hp : has_prefix (CACHE_RULE_BAN_PRE ++ code ++ $"|" ++ ip) CACHE_RULE_BAN_PRE = true) by (apply has_prefix_split; eauto).
  rewrite Hp. cbn [negb]. rewrite drop_app_length. change ($"|" ++ ip) with ("|"%char :: ip). rewrite last_index_byte_app by done.
  destruct code as [|c code]; [done|]. cbn [length]. change (S (length code)) with (length (c :: code)).
  rewrite take_app_length. change (c :: code ++ "|"%char :: ip) with ((c :: code) ++ "|"%char :: ip).
  f_equal. f_equal. by rewrite (drop_app_ge _ _ (S (length (c :: code)))), Nat.sub_succ_l, Nat.sub_diag by lia.
Qed.

Lemma BuildRuleBanKey_inj code ip code' ip' : code ≠ [] → code' ≠ [] → "|"%char ∉ ip → "|"%char ∉ ip' →
  BuildRuleBanKey code ip = BuildRuleBanKey code' ip' → code = code' ∧ ip = ip'.
Proof. intros ???? E. pose proof (ParseRuleBanKey_Build code ip) as P. rewrite E, ParseRuleBanKey_Build in P by done. specialize (P ltac:(done) ltac:(done)). by injection P as -> ->. Qed.

(** Two states that show the same entries stop the same requests. *)
Lemma write_ban_spec now h x minutes st t code' ip' : Code h ≠ [] → code' ≠ [] → "|"%char ∉ banned_client h x → "|"%char ∉ ip' →
  minutes ≤ maxBanMinutes → now ≤ t →
  stopped t code' ip' (write_ban now h x minutes st) ↔
  (LogOnlyMode h ≠ 1 ∧ banned_client h x ≠ [] ∧ 0 < minutes ∧ ¬ stopped now (Code h) (banned_client h x) st ∧
   code' = Code h ∧ ip' = banned_client h x ∧ t - now ≤ minutes * minute) ∨ stopped t code' ip' st.
Proof.
  intros Hc Hc' Hi Hi' Hmin Ht. unfold write_ban. destruct (Z.eqb_spec (LogOnlyMode h) 1); [naive_solver|].
  destruct (bool_decide_reflect (banned_client h x = [])); [naive_solver|]. destruct (Z.leb_spec minutes 0); cbn [orb]; [naive_solver lia|].
  unfold stopped. set (key := BuildRuleBanKey (Code h) (banned_client h x)). pose proof (key_exists_spec (cache st) now key) as Hk.
  destruct (WafCache.IsKeyExist (cache st) now key) as [c b]. destruct Hk as (Hb & Hdel & Hv). destruct b; cbn [cache with_cache].
  - rewrite Hv by done. pose proof (proj1 Hb eq_refl). naive_solver.
  - specialize (Hdel eq_refl). assert (Hns : ¬ shows (cache st) now key) by (rewrite <- Hb; done). unfold WafCache.SetWithTTl. rewrite Hdel, WafCache.view_put, Hv by done.
    assert (Hw : swrap 64 (minutes * minute) = minutes * minute).
    { apply swrap_id; [lia|]. unfold maxBanMinutes, minute, second in *. change (2 ^ 63 - 1) with 9223372036854775807 in Hmin. change (2 ^ (64 - 1)) with 9223372036854775808. 
      change (9223372036854775807 / (60 * 1000000000)) with 153722867 in Hmin. lia. }
    rewrite Hw. case_bool_decide as E.
    + apply BuildRuleBanKey_inj in E as [-> ->]; [|done..]. fold key. assert (Hnt : ¬ shows (cache st) t key).
      { intros [v Hs]. apply Hns. unfold WafCache.view in *. destruct (cache st !! key) as [item|]; [|done]. destruct (WafCache.live t item) eqn:El; [|done].
        unfold WafCache.live in *. rewrite (proj2 (Z.leb_le _ _)); [eauto|]. prop_of_bool. lia. }
      destruct (Z.leb_spec (t - now) (minutes * minute)); [split; [left; naive_solver|eauto]|]. split; [by intros [? ?]|]. intros [(?&?&?&?&?&?&?)|?]; [lia|done].
    + split; [by right|]. intros [(?&?&?&?&->&->&?)|?]; done.
Qed.

(** C18: what a ban of a rule stops.  The check writes a ban exactly when the rules together
    say so, the site is not in log-only mode and no ban of the client is running; then
    that client is stopped on that site for the longest time the rules name - to the
    minute, without overflow - and nobody else is.  A running ban is not prolonged. *)
Theorem ban_exact now h g x st t code' ip' : site_ok h → (∀ g', g = Some g' → site_ok g') →
  Code h ≠ [] → code' ≠ [] → "|"%char ∉ banned_client h x → "|"%char ∉ ip' → now ≤ t →
  let l := top (candidates h g x) in
  stopped t code' ip' (CheckRule now h g x st).1 ↔
  (candidates h g x ≠ [] ∧ strongest l = RuleActionBan ∧ LogOnlyMode h ≠ 1 ∧ banned_client h x ≠ [] ∧
   ¬ stopped now (Code h) (banned_client h x) st ∧ code' = Code h ∧ ip' = banned_client h x ∧ t - now ≤ longest l * minute)
  ∨ stopped t code' ip' st.
Proof.
  intros Hh Hg Hc Hc' Hi Hi' Ht l. pose proof (both_scopes_spec h g x st Hh Hg) as Hs. pose proof (candidates_wf h g x Hh Hg) as Hwf. fold l in Hwf.
  unfold CheckRule. destruct (both_scopes h g x st) as [st1 final]. destruct Hs as (_ & Hca & Hn & Hs).
  assert (Hst : ∀ st', cache st' = cache st → stopped t code' ip' st' ↔ stopped t code' ip' st) by (unfold stopped; by intros st' ->).
  destruct (decide (candidates h g x = [])) as [E|E]; [rewrite (Hn E); cbn [negb fst]; rewrite Hst by done; naive_solver|].
  destruct (Hs E) as [-> [Ha Hm _]]. cbn [negb]. fold l in Ha, Hm. rewrite Ha. clear Hn Hs.
  destruct (bool_decide_reflect (strongest l = RuleActionBan)) as [Eb|Eb].
  - rewrite orb_true_r. cbn [fst]. pose proof (longest_ban l Hwf Eb). rewrite write_ban_spec by (done || (rewrite Hm; lia)). rewrite Hm.
    assert (Hst' : ∀ t c i, stopped t c i (with_risk 1 st1) ↔ stopped t c i st) by (intros; unfold stopped; cbn; by rewrite Hca). rewrite !Hst'. naive_solver lia.
  - assert (Hd : stopped t code' ip' st ↔ (candidates h g x ≠ [] ∧ strongest l = RuleActionBan ∧ LogOnlyMode h ≠ 1 ∧ banned_client h x ≠ [] ∧
      ¬ stopped now (Code h) (banned_client h x) st ∧ code' = Code h ∧ ip' = banned_client h x ∧ t - now ≤ longest l * minute) ∨ stopped t code' ip' st) by naive_solver.
    rewrite <- Hd. apply Hst. by repeat case_match.
Qed.
End picking.

(** ** A site with three rules *)

Section witnesses.
#[local] Instance ascii_upper : UnicodeUpper := {| unicode_to_upper s := s |}.
Definition demo_entries : list RuleEntry :=
  [mkEntry $"R1" $"refuse" 10 $"MF.URL==1"; mkEntry $"R2" $"ban" 10 $"MF.GetIPFailureCount(5)>=10"; mkEntry $"R3" $"pass" 1 $"true"].
(** An engine that accepts every text and always finds the three rules. *)
#[local] Instance demo_engine : RuleEngine :=
  {| library := list gostr; knowledge := unit; empty_library := []; build_rule l t := (l ++ [t], true); new_instance _ := Some ();
     fetch_matching _ _ := Some demo_entries |}.
Lemma demo_sorted : ∀ (kb : knowledge) (x : visit) ms, fetch_matching kb x = Some ms → by_priority ms.
Proof. intros kb x ms [= <-]. repeat constructor; done. Qed.

Definition demo_texts : list Rules :=
  [mkRules $"rule R1 { when true then RF.Deny(); }" 1; mkRules $"rule R2 { when true then RF.Ban(30); }" 1; mkRules $"rule R3 { when true then RF.AllowAll(); }" 1].
Definition demo_site : HostSafe := mkHost $"site" [] 0 1 (Some (LoadRules demo_texts).1).
Definition demo_visit : visit := mkVisit $"1.2.3.4" $"5.6.7.8" false false.
Definition demo_state : state := mkState 0 [] ∅.
Lemma demo_ok : site_ok demo_site.
Proof. apply LoadRules_ok. Qed.

Lemma no_bar s : forallb (λ c, negb (Ascii.eqb "|" c)) s = true → "|"%char ∉ s.
Proof. rewrite forallb_elem_of. by intros Hs ?%Hs. Qed.

Lemma CheckRule_decides_witness : IsBlock (CheckRule 0 demo_site None demo_visit demo_state).2 = true.
Proof.
  destruct (CheckRule_decides demo_sorted 0 demo_site None demo_visit demo_state demo_ok ltac:(done)) as [_ Hd].
  destruct (Hd ltac:(by vm_compute)) as (-> & _). by vm_compute.
Defined.

Lemma ban_exact_witness :
  stopped (30 * minute) $"site" $"5.6.7.8" (CheckRule 0 demo_site None demo_visit demo_state).1 ∧
  ¬ stopped (30 * minute + 1) $"site" $"5.6.7.8" (CheckRule 0 demo_site None demo_visit demo_state).1.
Proof.
  assert (Hn : ∀ t code ip, ¬ stopped t code ip demo_state) by (intros t code ip [v Hv]; done).
  split.
  - apply (ban_exact demo_sorted 0 demo_site None demo_visit demo_state); [apply demo_ok|done|done|done|by apply no_bar; vm_compute|by apply no_bar; vm_compute|done|].
    left. split_and!; [by vm_compute|by vm_compute|done|done|apply Hn|done|done|by vm_compute].
  - intros Hs. apply (ban_exact demo_sorted 0 demo_site None demo_visit demo_state) in Hs; [|apply demo_ok|done|done|done|by apply no_bar; vm_compute|by apply no_bar; vm_compute|done].
    destruct Hs as [(_ & _ & _ & _ & _ & _ & _ & Ht)|Hs]; [|by apply Hn in Hs]. by vm_compute in Ht.
Defined.

Example thresholds : noted (CheckRule 0 demo_site None demo_visit demo_state).1 = [($"1.2.3.4", 5, 10)].
Proof. by vm_compute. Qed.
Example geo : isGeoRule $"ruleR1{whenMF.COUNTRY!='x'thenRF.Deny();}" = true ∧ isGeoRule $"ruleR1{whenMF.COUNTRYCODE!='MF.CITY'thenRF.Deny();}" = false.
Proof. by vm_compute. Qed.
End witnesses.
End RuleCheck.
