(* ===== verification/HostLists.v ===== *)
(** * The lists of a site (wafenginecore/checkallowip.go, checkdenyip.go, ipindex.go,
    checkallowurl.go, checkdenyurl.go, checkallowcallback.go; wafbot/callback_ip.go)

    Addresses and URLs a site lets through or refuses.  The address lists are compiled
    into a match set when the site is published, and the groups they name are read from
    the group snapshot; without an index the list is scanned, through the parse cache. *)
From S2P Require Import Prelude.
From S2P Require Import GoLib.
From S2P Require Import NetFacts.
From S2P Require Import Pattern.
From S2P Require Import MatchSet.
From S2P Require Import Groups.
From S2P Require Import CCEngine.
Local Open Scope Z_scope.
Local Open Scope bool_scope.

Module HostLists.
Import Pattern.Parse.
Abbreviation Result := CCEngine.Result.
Abbreviation passed := CCEngine.passed.

Definition IPEntryTypeGroup : gostr := $"group".
(** [model.IPAllowList], [model.IPBlockList]; [model.URLAllowList], [model.URLBlockList] *)
Record IPList := mkIPList { Ip : gostr; IpType : gostr; GroupCode : gostr }.
Record URLList := mkURLList { Url : gostr; CompareType : gostr }.
Definition is_group (e : IPList) : bool := bool_decide (IpType e = IPEntryTypeGroup).

(** ** The index *)

Definition single_ips (rows : list IPList) : list gostr := map Ip (List.filter (λ e, negb (is_group e)) rows).
Definition BuildIPBlockIndex (rows : list IPList) : option MatchSet := match rows with [] => None | _ => Some (BuildMatchSet (single_ips rows)) end.
Definition BuildIPAllowIndex (rows : list IPList) : option MatchSet := match rows with [] => None | _ => Some (BuildMatchSet (single_ips rows)) end.

Definition add_code (codes : list gostr) (e : IPList) : list gostr :=
  if negb (is_group e) || bool_decide (GroupCode e = []) || bool_decide (GroupCode e ∈ codes) then codes else codes ++ [GroupCode e].
Definition ExtractBlockGroupCodes (rows : list IPList) : list gostr := foldl add_code [] rows.
Definition ExtractAllowGroupCodes (rows : list IPList) : list gostr := foldl add_code [] rows.

(** ** The site and what its checks read *)

Record HostSafe := mkHost {
  IPMode : gostr; GUARD_STATUS : Z;
  IPWhiteLists : list IPList; IPWhiteIndex : option MatchSet; IPWhiteGroupCodes : list gostr;
  IPBlockLists : list IPList; IPBlockIndex : option MatchSet; IPBlockGroupCodes : list gostr;
  UrlWhiteLists : list URLList; UrlBlockLists : list URLList }.

(** The group snapshot with the sets behind its pointers, the threat set, and whether a
    proxy header is configured. *)
Record shared := mkShared { groups : Groups.state; heap : gmap Z MatchSet; threat : option MatchSet; proxied : bool }.
Record visit := mkVisit { URL : gostr; NetSrcIp : gostr; SRC_IP : gostr }.
(** What the checks change: the parse cache and two fields of the log record. *)
Record state := mkState { pcache : cache; RISK_LEVEL : Z; GUEST_IDENTIFICATION : gostr }.
Definition with_pcache (c : cache) (st : state) : state := mkState c (RISK_LEVEL st) (GUEST_IDENTIFICATION st).
Definition risky (st : state) : state := mkState (pcache st) 1 (GUEST_IDENTIFICATION st).

Definition group_set (env : shared) (code : gostr) : option MatchSet := Groups.GetGroupMatcher (groups env) code ≫= λ l, heap env !! l.
Definition matchIPGroups (env : shared) (groupCodes : list gostr) (parsedIp : option bytes) : bool :=
  existsb (λ code, Contains (group_set env code) parsedIp) groupCodes.

(** The scan of a list that has no index. *)
Fixpoint scan_list (c : cache) (clientIp : gostr) (rows : list IPList) : cache * bool :=
  match rows with
  | [] => (c, false)
  | e :: rows' =>
      if is_group e then scan_list c clientIp rows'
      else let '(c, hit) := MatchPatternStrCached c clientIp (Ip e) in if hit then (c, true) else scan_list c clientIp rows'
  end.
Definition match_list (env : shared) (c : cache) (clientIp : gostr) (parsedIp : option bytes) (index : option MatchSet) (groupCodes : list gostr) (rows : list IPList) :
    cache * bool :=
  let '(c, hit) := match index with Some _ => (c, Contains index parsedIp) | None => scan_list c clientIp rows end in
  (c, if hit then true else matchIPGroups env groupCodes parsedIp).
Definition matchAllowIP := match_list.
Definition matchDenyIP := match_list.

(** ** Addresses *)

Definition client_ip (h : HostSafe) (x : visit) : gostr := CCEngine.GetClientIPByMode (IPMode h) (NetSrcIp x) (SRC_IP x).
Definition guarding (g : option HostSafe) : option HostSafe := match g with Some h => if GUARD_STATUS h =? 1 then Some h else None | None => None end.
Definition jump : Result := CCEngine.mkRes true false [] [].
Definition refused (title content : gostr) : Result := CCEngine.mkRes false true title content.

Definition CheckAllowIP (env : shared) (hostTarget : HostSafe) (globalHost : option HostSafe) (x : visit) (st : state) : state * Result :=
  let clientIp := client_ip hostTarget x in
  let parsedIp := parse_ip clientIp in
  let '(c, hit) := matchAllowIP env (pcache st) clientIp parsedIp (IPWhiteIndex hostTarget) (IPWhiteGroupCodes hostTarget) (IPWhiteLists hostTarget) in
  if hit then (with_pcache c st, jump)
  else match guarding globalHost with
       | Some g => let '(c, hit) := matchAllowIP env c clientIp parsedIp (IPWhiteIndex g) (IPWhiteGroupCodes g) (IPWhiteLists g) in
                   (with_pcache c st, if hit then jump else passed)
       | None => (with_pcache c st, passed)
       end.

Definition ip_refused : gostr := $"您的访问被阻止了IP限制".
Definition CheckDenyIP (env : shared) (hostTarget : HostSafe) (globalHost : option HostSafe) (x : visit) (st : state) : state * Result :=
  let clientIp := client_ip hostTarget x in
  let parsedIp := parse_ip clientIp in
  let '(c, hit) := matchDenyIP env (pcache st) clientIp parsedIp (IPBlockIndex hostTarget) (IPBlockGroupCodes hostTarget) (IPBlockLists hostTarget) in
  if hit then (risky (with_pcache c st), refused $"IP黑名单" ip_refused)
  else
    let '(c, hit) := match guarding globalHost with
                     | Some g => matchDenyIP env c clientIp parsedIp (IPBlockIndex g) (IPBlockGroupCodes g) (IPBlockLists g)
                     | None => (c, false)
                     end in
    if hit then (risky (with_pcache c st), refused $"【全局】IP黑名单" ip_refused)
    else if Contains (threat env) parsedIp then (risky (with_pcache c st), refused $"威胁情报IP" $"您的访问被阻止了威胁情报IP限制")
    else (with_pcache c st, passed).

(** ** URLs *)

Section urls.
Context `{UnicodeCase}.

Definition url_hit (lowerURL : gostr) (e : URLList) : bool :=
  let lowerRuleURL := to_lower (Url e) in
  (bool_decide (CompareType e = $"等于") && bool_decide (lowerRuleURL = lowerURL))
  || (bool_decide (CompareType e = $"前缀匹配") && has_prefix lowerURL lowerRuleURL)
  || (bool_decide (CompareType e = $"后缀匹配") && has_suffix lowerURL lowerRuleURL)
  || (bool_decide (CompareType e = $"包含匹配") && contains lowerURL lowerRuleURL).

Definition CheckAllowURL (hostTarget : HostSafe) (globalHost : option HostSafe) (x : visit) : Result :=
  let lowerURL := to_lower (URL x) in
  if existsb (url_hit lowerURL) (UrlWhiteLists hostTarget)
     || match guarding globalHost with Some g => existsb (url_hit lowerURL) (UrlWhiteLists g) | None => false end
  then jump else passed.

Definition CheckDenyURL (hostTarget : HostSafe) (globalHost : option HostSafe) (x : visit) (st : state) : state * Result :=
  let lowerURL := to_lower (URL x) in
  if existsb (url_hit lowerURL) (UrlBlockLists hostTarget) then (risky st, refused $"URL黑名单" $"您的访问被阻止了URL限制")
  else if match guarding globalHost with Some g => existsb (url_hit lowerURL) (UrlBlockLists g) | None => false end
  then (risky st, refused $"【全局】URL黑名单" $"您的访问被阻止了URL限制")
  else (st, passed).
End urls.

(** ** Payment call-backs *)

(** [CheckIPInRanges]: a range that does not parse ends the search. *)
Fixpoint in_ranges (parsedIP : bytes) (ipRanges : list gostr) : bool :=
  match ipRanges with
  | [] => false
  | r :: rest => match parse_cidr r with None => false | Some ipNet => if ipnet_contains ipNet parsedIP then true else in_ranges parsedIP rest end
  end.
Definition CheckIPInRanges (ip : gostr) (ipRanges : list gostr) : bool :=
  match parse_ip ip with None => false | Some parsedIP => in_ranges parsedIP ipRanges end.

Definition weixin_ips : list gostr := [$"175.24.214.208"; $"175.24.211.24"; $"175.24.213.135"; $"109.244.180.23"; $"114.132.203.119"; $"43.139.43.69"].
Definition weixin_ranges : list gostr :=
  [$"101.226.103.0/25"; $"140.207.54.0/25"; $"121.51.58.128/25"; $"183.3.234.0/25"; $"58.251.80.0/25"; $"121.51.30.128/25"; $"203.205.219.128/25"].
Definition alipay_ranges : list gostr :=
  [$"103.47.4.0/22"; $"103.52.196.0/22"; $"110.75.128.0/19"; $"110.75.224.0/19"; $"110.76.0.0/19"; $"110.76.48.0/20"; $"119.42.224.0/19";
   $"203.209.224.0/19"; $"43.227.188.0/22"; $"45.113.40.0/22"; $"8.150.0.0/17"; $"2400:B200::/32"].
(** The name of the call-back, when the address is one of its senders. *)
Definition WeixinPayBackIP (ip : gostr) : option gostr :=
  if bool_decide (ip ∈ weixin_ips) then Some $"微信支付回调" else if CheckIPInRanges ip weixin_ranges then Some $"微信支付回调" else None.
Definition AlipayPayBackIP (ip : gostr) : option gostr := if CheckIPInRanges ip alipay_ranges then Some $"支付宝回调" else None.
Definition CheckCallBackIp (ip : gostr) : option gostr :=
  match WeixinPayBackIP ip with Some n => Some n | None => AlipayPayBackIP ip end.

Definition CheckAllowCallBackIP (env : shared) (x : visit) (st : state) : state * Result :=
  match CheckCallBackIp (if proxied env then SRC_IP x else NetSrcIp x) with
  | Some name => (mkState (pcache st) (RISK_LEVEL st) name, jump)
  | None => (st, passed)
  end.

(** ** What a list means *)

(** The address a client text stands for, and whether an entry names it. *)
Definition entry_hit (env : shared) (ip : bytes) (e : IPList) : bool :=
  if is_group e then negb (bool_decide (GroupCode e = [])) && Contains (group_set env (GroupCode e)) (Some ip)
  else match ParsePatternLenient (Ip e) with Ok p => Match p ip | Err _ => false end.
Definition listed (env : shared) (clientIp : gostr) (rows : list IPList) : bool :=
  match parse_ip clientIp with Some ip => existsb (entry_hit env ip) rows | None => false end.

Lemma lenient_trim raw : ParsePatternLenient (trim_space raw) = ParsePatternLenient raw.
Proof. unfold ParsePatternLenient, ParsePattern. by rewrite trim_space_idem. Qed.

Lemma cached_spec c clientIp raw : cache_ok c → trim_space clientIp = clientIp →
  cache_ok (MatchPatternStrCached c clientIp raw).1 ∧
  (MatchPatternStrCached c clientIp raw).2 =
    match parse_ip clientIp, ParsePatternLenient raw with Some ip, Ok p => Match p ip | _, _ => false end.
Proof.
  intros Hc Ht. unfold MatchPatternStrCached. rewrite Ht. destruct (parse_ip clientIp) as [ip|]; [|done].
  pose proof (lookupPattern_ok c (trim_space raw) Hc) as [Hok Hp]. rewrite lenient_trim in Hp. destruct (lookupPattern c (trim_space raw)) as [c' p]. cbn in *.
  split; [done|]. destruct (ParsePatternLenient raw) as [q|err]; [by rewrite Hp|]. unfold Match. by rewrite Hp.
Qed.

Definition single_hit (ip : bytes) (e : IPList) : bool :=
  negb (is_group e) && match ParsePatternLenient (Ip e) with Ok p => Match p ip | Err _ => false end.

Lemma scan_list_spec c clientIp rows : cache_ok c → trim_space clientIp = clientIp →
  cache_ok (scan_list c clientIp rows).1 ∧
  (scan_list c clientIp rows).2 = match parse_ip clientIp with Some ip => existsb (single_hit ip) rows | None => false end.
Proof.
  intros Hc Ht. revert c Hc. induction rows as [|e rows IH]; intros c Hc; cbn [scan_list existsb]; [by destruct (parse_ip clientIp)|].
  unfold single_hit at 1. destruct (is_group e); cbn [negb andb orb]; [by apply IH|].
  pose proof (cached_spec c clientIp (Ip e) Hc Ht) as [Hok Hr]. destruct (MatchPatternStrCached c clientIp (Ip e)) as [c' hit]. cbn in Hok, Hr.
  destruct hit; cbn [fst snd].
  - split; [done|]. by destruct (parse_ip clientIp); [rewrite <- Hr|].
  - destruct (IH c' Hok) as [H1 H2]. split; [done|]. rewrite H2. by destruct (parse_ip clientIp); [rewrite <- Hr|].
Qed.

Lemma index_spec index rows clientIp : (index = BuildIPBlockIndex rows ∨ index = BuildIPAllowIndex rows) → rows ≠ [] →
  Contains index (parse_ip clientIp) = match parse_ip clientIp with Some ip => existsb (single_hit ip) rows | None => false end.
Proof.
  intros Hi Hl. assert (index = Some (BuildMatchSet (single_ips rows))) as -> by (destruct rows; [done|]; by destruct Hi). clear Hi Hl.
  destruct (parse_ip clientIp) as [ip|] eqn:E; [|done]. apply parse_ip_wf in E as [Hwf Hl]. rewrite Contains_parsed by auto.
  unfold parsed, single_ips. induction rows as [|e rows IH]; [done|]. cbn [List.filter existsb]. unfold single_hit at 1.
  destruct (is_group e); cbn [negb map andb orb]; [done|]. rewrite <- IH. cbn. by destruct (ParsePatternLenient (Ip e)).
Qed.

Lemma codes_spec env ip rows :
  matchIPGroups env (foldl add_code [] rows) (Some ip)
  = existsb (λ e, is_group e && negb (bool_decide (GroupCode e = [])) && Contains (group_set env (GroupCode e)) (Some ip)) rows.
Proof.
  assert (Hf : ∀ codes, matchIPGroups env (foldl add_code codes rows) (Some ip) =
    matchIPGroups env codes (Some ip) || existsb (λ e, is_group e && negb (bool_decide (GroupCode e = [])) && Contains (group_set env (GroupCode e)) (Some ip)) rows).
  { induction rows as [|e rows IH]; intros codes; cbn [foldl existsb]; [by rewrite orb_false_r|]. rewrite IH, orb_assoc. f_equal. unfold add_code.
    destruct (is_group e); cbn [negb orb andb]; [|by rewrite orb_false_r]. destruct (bool_decide_reflect (GroupCode e = [])); cbn [negb orb andb]; [by rewrite orb_false_r|].
    destruct (bool_decide_reflect (GroupCode e ∈ codes)) as [Hin|Hin].
    - destruct (Contains _ _) eqn:Ec; [|by rewrite orb_false_r]. rewrite orb_true_r. apply existsb_elem_of. eauto.
    - unfold matchIPGroups. rewrite existsb_app. cbn. by rewrite orb_false_r. }
  apply Hf.
Qed.

Lemma no_groups env codes : matchIPGroups env codes None = false.
Proof. unfold matchIPGroups. induction codes as [|c codes IH]; [done|]. cbn [existsb]. rewrite IH. by destruct (group_set env c). Qed.

Lemma entries_split env ip rows :
  existsb (single_hit ip) rows || existsb (λ e, is_group e && negb (bool_decide (GroupCode e = [])) && Contains (group_set env (GroupCode e)) (Some ip)) rows
  = existsb (entry_hit env ip) rows.
Proof.
  induction rows as [|e rows IH]; [done|]. cbn [existsb]. rewrite <- IH. unfold entry_hit, single_hit. 
  destruct (is_group e); cbn [negb andb orb]; [|by rewrite orb_assoc]. 
  by destruct (negb _ && Contains _ _), (existsb _ rows).
Qed.

Lemma match_list_spec env c clientIp index rows :
  cache_ok c → trim_space clientIp = clientIp →
  index ∈ [None; BuildIPBlockIndex rows; BuildIPAllowIndex rows] →
  cache_ok (match_list env c clientIp (parse_ip clientIp) index (ExtractBlockGroupCodes rows) rows).1 ∧
  (match_list env c clientIp (parse_ip clientIp) index (ExtractBlockGroupCodes rows) rows).2 = listed env clientIp rows ∧
  ExtractAllowGroupCodes rows = ExtractBlockGroupCodes rows.
Proof.
  intros Hc Ht Hi.
  assert (Hh : cache_ok (match index with Some _ => (c, Contains index (parse_ip clientIp)) | None => scan_list c clientIp rows end).1 ∧
    (match index with Some _ => (c, Contains index (parse_ip clientIp)) | None => scan_list c clientIp rows end).2
    = match parse_ip clientIp with Some ip => existsb (single_hit ip) rows | None => false end).
  { destruct index as [m|] eqn:Ei; [|by apply scan_list_spec]. split; [done|]. cbn [snd]. apply index_spec.
    - apply elem_of_cons in Hi as [?|Hi]; [done|]. apply elem_of_cons in Hi as [->|Hi%list_elem_of_singleton]; auto.
    - intros ->. set_solver. }
  unfold match_list. destruct (match index with Some _ => _ | None => _ end) as [c' hit]. cbn [fst snd] in *. destruct Hh as [Hok ->]. split; [done|]. split; [|done].
  unfold listed. cbn [snd]. destruct (parse_ip clientIp) as [ip|]; [|apply no_groups]. unfold ExtractBlockGroupCodes. rewrite codes_spec, <- entries_split.
  by destruct (existsb (single_hit ip) rows).
Qed.


(** index and list agree.  For a published site the compiled index with the group
    snapshot answers what reading the list entry by entry would: an address entry by
    its pattern, a group entry by the group's present content; and so does the scan used
    when there is no index, whatever the parse cache holds.  An address that does not
    parse is on no list. *)
Theorem match_list_listed env c clientIp index rows :
  cache_ok c → trim_space clientIp = clientIp →
  index ∈ [None; BuildIPBlockIndex rows; BuildIPAllowIndex rows] →
  cache_ok (match_list env c clientIp (parse_ip clientIp) index (ExtractBlockGroupCodes rows) rows).1 ∧
  (match_list env c clientIp (parse_ip clientIp) index (ExtractBlockGroupCodes rows) rows).2 = listed env clientIp rows ∧
  ExtractAllowGroupCodes rows = ExtractBlockGroupCodes rows.
Proof. apply match_list_spec. Qed.

(** A site as it is published: the indexes and codes made from its lists (or no index). *)
Record published (h : HostSafe) : Prop := {
  pub_white : IPWhiteIndex h ∈ [None; BuildIPAllowIndex (IPWhiteLists h)]; pub_white_codes : IPWhiteGroupCodes h = ExtractAllowGroupCodes (IPWhiteLists h);
  pub_block : IPBlockIndex h ∈ [None; BuildIPBlockIndex (IPBlockLists h)]; pub_block_codes : IPBlockGroupCodes h = ExtractBlockGroupCodes (IPBlockLists h) }.

(** The entries of a list of the site and, while its protection is on, of the global one. *)
Definition all_entries {A} (f : HostSafe → list A) (h : HostSafe) (g : option HostSafe) : list A :=
  f h ++ match guarding g with Some g => f g | None => [] end.

Lemma listed_app env ip a b : listed env ip (a ++ b) = listed env ip a || listed env ip b.
Proof. unfold listed. destruct (parse_ip ip); [apply existsb_app|done]. Qed.

Lemma match_white env c ip h : cache_ok c → trim_space ip = ip → published h →
  cache_ok (matchAllowIP env c ip (parse_ip ip) (IPWhiteIndex h) (IPWhiteGroupCodes h) (IPWhiteLists h)).1 ∧
  (matchAllowIP env c ip (parse_ip ip) (IPWhiteIndex h) (IPWhiteGroupCodes h) (IPWhiteLists h)).2 = listed env ip (IPWhiteLists h).
Proof.
  intros Hc Ht [Hw -> _ _]. destruct (match_list_spec env c ip (IPWhiteIndex h) (IPWhiteLists h) Hc Ht) as (?&?&?); [|done].
  clear -Hw. set_solver.
Qed.
Lemma match_block env c ip h : cache_ok c → trim_space ip = ip → published h →
  cache_ok (matchDenyIP env c ip (parse_ip ip) (IPBlockIndex h) (IPBlockGroupCodes h) (IPBlockLists h)).1 ∧
  (matchDenyIP env c ip (parse_ip ip) (IPBlockIndex h) (IPBlockGroupCodes h) (IPBlockLists h)).2 = listed env ip (IPBlockLists h).
Proof.
  intros Hc Ht [_ _ Hb ->]. destruct (match_list_spec env c ip (IPBlockIndex h) (IPBlockLists h) Hc Ht) as (?&?&?); [|done].
  clear -Hb. set_solver.
Qed.

Lemma CheckAllowIP_spec env h g x st : cache_ok (pcache st) → trim_space (client_ip h x) = client_ip h x → published h → (∀ g', g = Some g' → published g') →
  cache_ok (pcache (CheckAllowIP env h g x st).1) ∧ RISK_LEVEL (CheckAllowIP env h g x st).1 = RISK_LEVEL st ∧
  (CheckAllowIP env h g x st).2 = if listed env (client_ip h x) (all_entries IPWhiteLists h g) then jump else passed.
Proof.
  intros Hc Ht Hp Hg. unfold CheckAllowIP, all_entries. rewrite listed_app. pose proof (match_white env (pcache st) _ h Hc Ht Hp) as [Hok Hr].
  destruct (matchAllowIP _ _ _ _ _ _ _) as [c hit]. cbn [fst snd] in *. rewrite <- Hr. destruct hit; [done|]. cbn [orb].
  unfold guarding. destruct g as [g|]; [|unfold listed; by destruct (parse_ip _)]. destruct (GUARD_STATUS g =? 1); [|unfold listed; by destruct (parse_ip _)].
  pose proof (match_white env c _ g Hok Ht (Hg g eq_refl)) as [Hok' Hr']. destruct (matchAllowIP _ _ _ _ _ _ _) as [c' hit]. cbn [fst snd] in *. rewrite <- Hr'. by destruct hit.
Qed.

Lemma CheckDenyIP_spec env h g x st : cache_ok (pcache st) → trim_space (client_ip h x) = client_ip h x → published h → (∀ g', g = Some g' → published g') →
  cache_ok (pcache (CheckDenyIP env h g x st).1) ∧
  CCEngine.IsBlock (CheckDenyIP env h g x st).2 = listed env (client_ip h x) (all_entries IPBlockLists h g) || Contains (threat env) (parse_ip (client_ip h x)) ∧
  CCEngine.JumpGuardResult (CheckDenyIP env h g x st).2 = false ∧
  RISK_LEVEL (CheckDenyIP env h g x st).1 = if CCEngine.IsBlock (CheckDenyIP env h g x st).2 then 1 else RISK_LEVEL st.
Proof.
  intros Hc Ht Hp Hg. unfold CheckDenyIP, all_entries. rewrite listed_app. pose proof (match_block env (pcache st) _ h Hc Ht Hp) as [Hok Hr].
  destruct (matchDenyIP _ _ _ _ _ _ _) as [c hit]. cbn [fst snd] in *. rewrite <- Hr. destruct hit; [done|]. cbn [orb].
  assert (Hn : listed env (client_ip h x) [] = false) by (unfold listed; by destruct (parse_ip _)).
  unfold guarding. destruct g as [g|]; [|rewrite Hn; by destruct (Contains _ _)]. destruct (GUARD_STATUS g =? 1); [|rewrite Hn; by destruct (Contains _ _)].
  pose proof (match_block env c _ g Hok Ht (Hg g eq_refl)) as [Hok' Hr']. destruct (matchDenyIP _ _ _ _ _ _ _) as [c' hit]. cbn [fst snd] in *. rewrite <- Hr'.
  destruct hit; [done|]. by destruct (Contains _ _).
Qed.

(** A URL against the lists of the site and the global one. *)
Lemma CheckAllowURL_spec `{UnicodeCase} h g x : CheckAllowURL h g x = if existsb (url_hit (to_lower (URL x))) (all_entries UrlWhiteLists h g) then jump else passed.
Proof. unfold CheckAllowURL, all_entries. rewrite existsb_app. by destruct (guarding g). Qed.
Lemma CheckDenyURL_spec `{UnicodeCase} h g x st :
  CCEngine.IsBlock (CheckDenyURL h g x st).2 = existsb (url_hit (to_lower (URL x))) (all_entries UrlBlockLists h g) ∧ CCEngine.JumpGuardResult (CheckDenyURL h g x st).2 = false.
Proof. unfold CheckDenyURL, all_entries. rewrite existsb_app. destruct (existsb _ (UrlBlockLists h)); [done|]. destruct (guarding g) as [g'|]; [|done]. by destruct (existsb _ _). Qed.

(** C7: who is on the lists.  Whatever the cache holds, a request skips every check exactly
    when its address is on the white list of the site or of the guarded global site, and
    is refused for its address exactly when it is on one of the two black lists or in
    the threat set; the risk level is raised exactly then. *)
Theorem ip_lists_exact env h g x st :
  cache_ok (pcache st) → trim_space (client_ip h x) = client_ip h x → published h → (∀ g', g = Some g' → published g') →
  let ip := client_ip h x in
  CCEngine.JumpGuardResult (CheckAllowIP env h g x st).2 = listed env ip (all_entries IPWhiteLists h g) ∧
  CCEngine.IsBlock (CheckAllowIP env h g x st).2 = false ∧
  CCEngine.IsBlock (CheckDenyIP env h g x st).2 = listed env ip (all_entries IPBlockLists h g) || Contains (threat env) (parse_ip ip) ∧
  RISK_LEVEL (CheckDenyIP env h g x st).1 = (if CCEngine.IsBlock (CheckDenyIP env h g x st).2 then 1 else RISK_LEVEL st).
Proof.
  intros Hc Ht Hp Hg ip. destruct (CheckAllowIP_spec env h g x st Hc Ht Hp Hg) as (_ & _ & ->).
  destruct (CheckDenyIP_spec env h g x st Hc Ht Hp Hg) as (_ & Hb & _ & Hr). fold ip in Hb |- *. by destruct (listed env ip (all_entries IPWhiteLists h g)).
Qed.

(** ** Witnesses *)

Definition demo_rows : list IPList := [mkIPList $"10.1.*.*" [] []; mkIPList [] IPEntryTypeGroup $"G"; mkIPList $"192.168.0.9-192.168.0.1" $"ip" []].
Definition demo_env : shared := mkShared (Some (Groups.mkSnapshot {[ $"G" := Some 1 ]} ∅)) {[ 1 := BuildMatchSet [$"172.16.0.0/12"] ]} None false.
Definition demo_host : HostSafe :=
  mkHost [] 1 [] None [] demo_rows (BuildIPBlockIndex demo_rows) (ExtractBlockGroupCodes demo_rows) [] [].
Definition demo_state : state := mkState (Pattern.mkCache ∅ 0) 0 [].
Lemma demo_cache_ok : cache_ok (pcache demo_state).
Proof. apply cache_reachable_ok. apply rtc_refl. Qed.

Lemma match_list_listed_witness :
  (match_list demo_env (pcache demo_state) $"172.20.1.1" (parse_ip $"172.20.1.1") None (ExtractBlockGroupCodes demo_rows) demo_rows).2 = true.
Proof.
  destruct (match_list_listed demo_env (pcache demo_state) $"172.20.1.1" None demo_rows) as (_ & -> & _);
    [apply demo_cache_ok|by vm_compute|set_solver|by vm_compute].
Defined.

Lemma ip_lists_exact_witness : CCEngine.IsBlock (CheckDenyIP demo_env demo_host (Some demo_host) (mkVisit [] $"192.168.0.5" []) demo_state).2 = true.
Proof.
  destruct (ip_lists_exact demo_env demo_host (Some demo_host) (mkVisit [] $"192.168.0.5" []) demo_state) as (_ & _ & -> & _).
  - apply demo_cache_ok.
  - by vm_compute.
  - split; set_solver.
  - intros g' [= <-]. split; set_solver.
  - by vm_compute.
Defined.

Example callback : CheckCallBackIp $"8.150.1.1" = Some $"支付宝回调" ∧ CheckCallBackIp $"8.150.128.1" = None ∧ CheckCallBackIp $"2400:b200::1" = Some $"支付宝回调".
Proof. by vm_compute. Qed.
End HostLists.
