(* ===== verification/Referers.v ===== *)
(** * Where a request comes from (wafenginecore/check_csrf.go, check_antileech.go)

    Requests that change something must come from a page of the site itself (cross-site
    request forgery), and some files may only be embedded by listed sites (anti-leech).
    Both read the Origin and Referer headers.  The regular-expression engine is a
    parameter; the JSON decoding of the two configurations is done before. *)
From S2P Require Import Prelude.
From S2P Require Import GoLib.
From S2P Require Import GoHttp.
From S2P Require Import GoUrl.
From S2P Require Import CCRule.
From S2P Require Import CCEngine.
From S2P Require Import AccessGate.
From S2P Require Import AccessConf.
From S2P Require Import RuleText.
Local Open Scope Z_scope.
Local Open Scope bool_scope.

(** [regexp.MatchString(pattern, s)]; [None] is an error in the pattern. *)
Class Regexp := { regexp_match : gostr → gostr → option bool }.

(** [URL.Hostname]: without the port, and without brackets. *)
Definition hostname (host : gostr) : gostr :=
  let h := match last_index_byte host ":" with Some i => if validOptionalPort (drop i host) then take i host else host | None => host end in
  if has_prefix h $"[" && has_suffix h $"]" then take (length h - 2) (drop 1 h) else h.
(** The text before the first byte of [chars]. *)
Definition before_any (s chars : gostr) : gostr := (RuleText.span (λ c, negb (one_of c chars)) s).1.

(** ** Cross-site requests *)

Module Csrf.

Record CsrfConfig := mkCsrf { IsEnable : Z; ProtectMethods : gostr; AllowedOrigins : gostr; AllowEmptyRef : Z; ExcludePaths : gostr }.
Definition default_methods : gostr := $"POST,PUT,DELETE,PATCH".
(** [ParseCsrfConfig]: [decoded] is what the JSON decoder makes of the text over the
    default values. *)
Definition ParseCsrfConfig (jsonStr : gostr) (decoded : option CsrfConfig) : CsrfConfig :=
  let c := mkCsrf 0 default_methods [] 1 [] in
  if bool_decide (jsonStr = []) then c
  else match decoded with
       | None => c
       | Some d => if bool_decide (ProtectMethods d = []) then mkCsrf (IsEnable d) default_methods (AllowedOrigins d) (AllowEmptyRef d) (ExcludePaths d) else d
       end.

Section csrf.
Context `{UnicodeCase, UnicodeUpper}.

Definition isCsrfProtectedMethod (method protectMethods : gostr) : bool :=
  let method := RuleText.to_upper (trim_space method) in
  negb (bool_decide (method = [])) && existsb (λ m, bool_decide (RuleText.to_upper (trim_space m) = method)) (split protectMethods ",").

Definition isCsrfExcludedPath (path excludePaths : gostr) : bool :=
  negb (bool_decide (excludePaths = []))
  && existsb (λ line, let prefix := trim_space line in negb (bool_decide (prefix = [])) && has_prefix path prefix) (split excludePaths (chr 10)).

(** What is left when the text does not parse as a URL. *)
Definition manual_host (s : gostr) : gostr :=
  let host := match index s $"://" with Some i => drop (i + 3) s | None => s end in
  before_any (before_any host $"/?#") $":".
Definition extractHostFromOrigin (s : gostr) : gostr :=
  let s := trim_space s in
  if bool_decide (s = []) then []
  else
    let host := match Parse s with
                | Some u => if bool_decide (UHost u = []) then manual_host s else hostname (UHost u)
                | None => manual_host s
                end in
    to_lower host.

Definition allows (allowed originHost : gostr) : bool :=
  if bool_decide (allowed = []) then false
  else if has_prefix allowed $"*." then
    bool_decide (originHost = trim_prefix allowed $"*.") || has_suffix originHost (trim_prefix allowed $"*")
  else bool_decide (originHost = allowed).
Definition isCsrfOriginAllowed (originHost : gostr) (allowedHosts : list gostr) : bool :=
  negb (bool_decide (originHost = [])) && existsb (λ allowed, allows allowed originHost) allowedHosts.

Definition some_host (h : gostr) : list gostr := if bool_decide (h = []) then [] else [h].
Definition self_host (reqHost : gostr) : gostr := to_lower (trim_space (before_any reqHost $":")).
Definition extra_host (line : gostr) : list gostr :=
  let line := trim_space line in
  if bool_decide (line = []) then []
  else if has_prefix line $"*." then [to_lower line]
  else some_host (extractHostFromOrigin line).
Definition buildCsrfAllowedHosts (reqHost bindMoreHost allowedOrigins : gostr) : list gostr :=
  some_host (self_host reqHost)
  ++ (if bool_decide (bindMoreHost = []) then [] else flat_map (λ line, some_host (to_lower (trim_space line))) (split bindMoreHost (chr 10)))
  ++ (if bool_decide (allowedOrigins = []) then [] else flat_map extra_host (split allowedOrigins (chr 10))).

Definition csrf_blocked : CCEngine.Result := CCEngine.mkRes false true $"CSRF跨站请求伪造防护" $"检测到跨站请求伪造(CSRF)，已被拦截".
(** The risk level the check sets, and its answer. *)
Definition csrfBlock : option Z * CCEngine.Result := (Some 2, csrf_blocked).
Definition csrf_passed : option Z * CCEngine.Result := (None, CCEngine.passed).

Definition CheckCsrf (cfg : CsrfConfig) (bindMoreHost : gostr) (r : request) : option Z * CCEngine.Result :=
  if IsEnable cfg =? 0 then csrf_passed
  else if negb (isCsrfProtectedMethod (r_method r) (ProtectMethods cfg)) then csrf_passed
  else if isCsrfExcludedPath (r_path r) (ExcludePaths cfg) then csrf_passed
  else
    let allowedHosts := buildCsrfAllowedHosts (r_host r) bindMoreHost (AllowedOrigins cfg) in
    let origin := trim_space (header_get r $"Origin") in
    if negb (bool_decide (origin = [])) && negb (equal_fold origin $"null") then
      if isCsrfOriginAllowed (extractHostFromOrigin origin) allowedHosts then csrf_passed else csrfBlock
    else
      let referer := trim_space (header_get r $"Referer") in
      if negb (bool_decide (referer = [])) then
        if isCsrfOriginAllowed (extractHostFromOrigin referer) allowedHosts then csrf_passed else csrfBlock
      else if AllowEmptyRef cfg =? 1 then csrf_passed else csrfBlock.
End csrf.

(** ** The host of a web address

    A browser sends the address of a page as scheme, host, port and path.  Whatever the
    path holds - even when it does not parse - the host found is the one of the page. *)

Import Hosts AccessConf BanKey.
Definition dns_name (h : gostr) : Prop := h ≠ [] ∧ forallb dns_byte h = true.
Definition port_ok (p : gostr) : Prop := p = [] ∨ ∃ ds, p = ":"%char :: ds ∧ forallb is_digit ds = true.
Definition tail_ok (t : gostr) : Prop := match t with [] => True | c :: _ => one_of c $"/?#" = true end.
Definition scheme_of (https : bool) : gostr := if https then $"https" else $"http".
Definition web_address (https : bool) (h port tail : gostr) : gostr := scheme_of https ++ $"://" ++ h ++ port ++ tail.

Lemma dns_plain h port : dns_name h → port_ok port → plain_host (h ++ port).
Proof.
  intros [Hne Hb] Hp. assert (Hc : ":"%char ∉ h) by (by eapply absent_byte; [apply Hb|]).
  assert (Hd : ∀ c, is_digit c = true → host_byte c = true ∧ c ≠ ":"%char) by (intros c; destruct c as [[] [] [] [] [] [] [] []]; by vm_compute).
  split.
  - rewrite forallb_app. apply andb_true_iff. split.
    + rewrite forallb_forall in Hb |- *. intros c Hin. unfold host_byte. by rewrite (Hb c Hin).
    + destruct Hp as [->|(ds & -> & Hds)]; [done|]. cbn [forallb]. apply andb_true_iff. split; [done|]. rewrite forallb_forall in Hds |- *. intros c Hin. by apply Hd, Hds.
  - by destruct h.
  - destruct Hp as [->|(ds & -> & Hds)].
    + by rewrite app_nil_r, last_index_none.
    + rewrite last_index_byte_app; [by rewrite drop_app_length|]. intros Hin. rewrite forallb_forall in Hds. apply list_elem_of_In, Hds, Hd in Hin. by destruct Hin.
Qed.

Lemma hostname_plain h port : dns_name h → port_ok port → hostname (h ++ port) = h.
Proof.
  intros [Hne Hb] Hp. assert (Hc : ":"%char ∉ h) by (by eapply absent_byte; [apply Hb|]). unfold hostname.
  assert (has_prefix h $"[" = false) as Hbr.
  { destruct h as [|c h]; [done|]. cbn [forallb] in Hb. apply andb_true_iff in Hb as [Hb _]. destruct c as [[] [] [] [] [] [] [] []]; by vm_compute. }
  destruct Hp as [->|(ds & -> & Hds)].
  - rewrite app_nil_r, last_index_none by done. by rewrite Hbr.
  - assert (Hn : ":"%char ∉ ds) by (by eapply absent_byte; [apply Hds|]).
    rewrite last_index_byte_app, drop_app_length, take_app_length by done. cbn [validOptionalPort]. rewrite Ascii.eqb_refl, Hds. cbn [andb]. by rewrite Hbr.
Qed.

Lemma cut_app s t c : c ∉ s → cut (s ++ t) c = (s ++ (cut t c).1, (cut t c).2).
Proof.
  intros Hs. unfold cut. destruct (index_byte t c) as [i|] eqn:E.
  - apply index_byte_split in E as (a & r & -> & <- & Ha). by rewrite app_assoc, !cut_at_app by set_solver.
  - apply index_byte_none in E. unfold cut_at. by rewrite !(proj2 (index_byte_none _ _)) by set_solver.
Qed.

Lemma split_query_path p t : "?"%char ∉ p → (split_query (p ++ t)).1.1 = p ++ (cut t "?").1.
Proof.
  intros Hp. unfold split_query. destruct (has_suffix (p ++ t) $"?" && (count_byte (p ++ t) "?" =? 1)%nat) eqn:E; [|by rewrite cut_app].
  apply andb_true_iff in E as [Es Ec%Nat.eqb_eq]. cbn [fst]. unfold has_suffix in Es. apply has_prefix_split in Es as (r & Er).
  apply (f_equal reverse) in Er. rewrite reverse_involutive, reverse_app in Er. change (reverse (reverse $"?")) with $"?" in Er.
  rewrite Er, count_byte_app in Ec. change (count_byte $"?" "?") with 1%nat in Ec. assert (Hr : "?"%char ∉ reverse r) by (apply count_byte_zero; lia).
  change (p ++ (cut t "?").1) with ((p ++ (cut t "?").1, (cut t "?").2).1). rewrite <- cut_app, Er by done. unfold cut.
  change $"?" with ["?"%char]. rewrite cut_at_app by done. cbn. rewrite length_app. cbn. by rewrite Nat.add_sub, take_app_length.
Qed.

(** A path, cut at a sign that ends it. *)
Lemma cut_tail t c : tail_ok t → one_of c $"?#" = true → tail_ok (cut t c).1 ∧ c ∉ (cut t c).1 ∧ ∀ d, d ∉ t → d ∉ (cut t c).1.
Proof.
  intros Ht Hc. unfold cut. destruct (index_byte t c) as [i|] eqn:E.
  - apply index_byte_split in E as (a & r & -> & <- & Ha). rewrite cut_at_app by done. cbn. split; [by destruct a|]. split; [done|]. set_solver.
  - unfold cut_at. rewrite E. apply index_byte_none in E. done.
Qed.
Lemma tail_path t : tail_ok t → "#"%char ∉ t → "?"%char ∉ t → t = [] ∨ ∃ r, t = "/"%char :: r.
Proof.
  destruct t as [|c t]; [by left|]. cbn [tail_ok]. intros Hc H1 H2. right. exists t. f_equal. unfold one_of in Hc. cbn in Hc. rewrite !orb_false_r in Hc.
  apply orb_true_iff in Hc as [?%Ascii.eqb_eq|Hc]; [done|]. apply orb_true_iff in Hc as [?%Ascii.eqb_eq|?%Ascii.eqb_eq]; subst c; set_solver.
Qed.

Lemma Parse_web https h port tail u : dns_name h → port_ok port → tail_ok tail → Parse (web_address https h port tail) = Some u → UHost u = h ++ port.
Proof.
  intros Hh Hp Ht. pose proof (dns_plain h port Hh Hp) as Hpl. unfold web_address. rewrite (app_assoc h port tail). set (hp := h ++ port) in *.
  assert (Hpre : ∀ c, one_of c $"#?" = true → c ∉ scheme_of https ++ $"://" ++ hp).
  { intros c Hc. rewrite !not_elem_of_app. split_and!.
    - destruct https, c as [[] [] [] [] [] [] [] []]; by vm_compute in Hc |- *; set_solver.
    - destruct c as [[] [] [] [] [] [] [] []]; by vm_compute in Hc |- *; set_solver.
    - apply (host_byte_absent hp); [done|]. destruct c as [[] [] [] [] [] [] [] []]; by vm_compute in Hc |- *. }
  assert (Hpre2 : "?"%char ∉ $"//" ++ hp) by (intros Hin; apply (Hpre "?"%char); [done|]; change ($"://") with ($":" ++ $"//"); set_solver).
  assert (scheme_of https ++ $"://" ++ hp ++ tail = (scheme_of https ++ $"://" ++ hp) ++ tail) as -> by by rewrite <- !app_assoc.
  unfold Parse. rewrite cut_app by (by apply Hpre). destruct (cut_tail tail "#" Ht eq_refl) as (Ht1 & Hn1 & _). set (tail1 := (cut tail "#").1) in *. set (frag := (cut tail "#").2).
  destruct (parse _) as [v|] eqn:Ev; [|done]. rewrite some_bind. intros Hu. assert (UHost u = UHost v) as ->.
  { destruct (bool_decide (frag = [])); [by injection Hu as ->|]. destruct (unescape frag encodeFragment); [|done]. rewrite some_bind in Hu. by injection Hu as <-. }
  clear Hu u. unfold parse in Ev. destruct (existsb is_control _); [done|]. rewrite bool_decide_false in Ev by (by destruct https).
  assert (getScheme ((scheme_of https ++ $"://" ++ hp) ++ tail1) = Some (scheme_of https, ($"//" ++ hp) ++ tail1)) as Eg by (by destruct https).
  rewrite Eg, some_bind in Ev. cbv beta iota zeta in Ev. clear Eg. pose proof (split_query_path ($"//" ++ hp) tail1 Hpre2) as Hs.
  destruct (split_query _) as [[rest force] query]. cbn [fst] in Hs. subst rest.
  destruct (cut_tail tail1 "?" Ht1 eq_refl) as (Ht2 & Hn2 & Hsub). specialize (Hsub "#"%char Hn1). set (tail2 := (cut tail1 "?").1) in *.
  assert (has_prefix (($"//" ++ hp) ++ tail2) $"/" = true) as Ep1 by done. rewrite Ep1 in Ev. 
  assert (has_prefix (($"//" ++ hp) ++ tail2) $"//" = true) as Ep2 by (apply has_prefix_split; exists (hp ++ tail2); by rewrite app_assoc). rewrite Ep2 in Ev. 
  assert (negb (bool_decide (map lower_byte (scheme_of https) = [])) = true) as Ep3 by (by destruct https). rewrite Ep3 in Ev. cbn [negb andb orb] in Ev.
  change (drop 2 (($"//" ++ hp) ++ tail2)) with (hp ++ tail2) in Ev.
  assert (Hsl : "/"%char ∉ hp) by (by apply host_byte_absent).
  assert (take (default (length (hp ++ tail2)) (index_byte (hp ++ tail2) "/")) (hp ++ tail2) = hp) as Et.
  { destruct (tail_path tail2 Ht2 Hsub Hn2) as [->|[r ->]].
    - rewrite app_nil_r, (proj2 (index_byte_none _ _)) by done. cbn. by rewrite take_ge.
    - rewrite index_byte_first by done. cbn. by rewrite take_app_length. }
  rewrite Et in Ev. unfold parseAuthority in Ev. rewrite (last_index_none hp "@") in Ev by (by apply host_byte_absent). rewrite parseHost_plain in Ev by done.
  rewrite some_bind in Ev. cbn [mret option_ret] in Ev. rewrite some_bind in Ev. cbv beta iota in Ev. destruct (setPath _) as [[path raw]|]; [|done].
  rewrite some_bind in Ev. by injection Ev as <-.
Qed.

Lemma before_any_app a t chars : forallb (λ c, negb (one_of c chars)) a = true → match t with [] => True | c :: _ => one_of c chars = true end →
  before_any (a ++ t) chars = a.
Proof.
  intros Ha Ht. unfold before_any. induction a as [|c a IH]; cbn [app RuleText.span].
  - destruct t as [|c t]; [done|]. cbn [RuleText.span]. by rewrite Ht.
  - cbn [forallb] in Ha. apply andb_true_iff in Ha as [-> Ha]. specialize (IH Ha). destruct (RuleText.span _ (a ++ t)). cbn in *. by rewrite IH.
Qed.

Lemma dns_no_colon c : dns_byte c = true → negb (one_of c $":") = true.
Proof. destruct c as [[] [] [] [] [] [] [] []]; by vm_compute. Qed.

Lemma manual_web https h port tail : dns_name h → port_ok port → tail_ok tail → manual_host (web_address https h port tail) = h.
Proof.
  intros Hh Hp Ht. pose proof (dns_plain h port Hh Hp) as Hpl. destruct Hh as [Hne Hb]. unfold manual_host.
  assert (index (web_address https h port tail) $"://" = Some (length (scheme_of https))) as -> by (unfold web_address; destruct h; [done|]; by destruct https).
  assert (drop (length (scheme_of https) + 3) (web_address https h port tail) = (h ++ port) ++ tail) as ->.
  { unfold web_address. rewrite app_assoc, (app_assoc h). apply drop_app_length'. rewrite length_app. done. }
  rewrite (before_any_app (h ++ port) tail); [|apply forallb_forall; intros c Hc; apply list_elem_of_In in Hc; apply negb_true_iff|done].
  - rewrite before_any_app; [done| |by destruct Hp as [->|(ds & -> & _)]]. apply forallb_forall. intros c Hc. rewrite forallb_forall in Hb.
    by apply dns_no_colon, Hb.
  - destruct (one_of c $"/?#") eqn:E; [|done]. exfalso. apply (host_byte_absent (h ++ port) c Hpl); [|done]. destruct c as [[] [] [] [] [] [] [] []]; by vm_compute in E |- *.
Qed.

Section facts.
Context `{UnicodeCase, UnicodeUpper}.

Lemma lower_dns h : dns_name h → to_lower h = h.
Proof.
  intros [_ Hb]. apply to_lower_fixed. intros c Hc. rewrite forallb_forall in Hb. apply list_elem_of_In in Hc. by destruct (dns_byte_facts c (Hb c Hc)) as (_ & ? & ? & _).
Qed.

Lemma extract_web s https h port tail : trim_space s = web_address https h port tail → dns_name h → port_ok port → tail_ok tail →
  extractHostFromOrigin s = h.
Proof.
  intros Hs Hh Hp Ht. unfold extractHostFromOrigin. rewrite Hs. rewrite (bool_decide_false (web_address _ _ _ _ = [])) by (by destruct https).
  rewrite manual_web by done. transitivity (to_lower h); [f_equal|by apply lower_dns]. destruct (Parse _) as [u|] eqn:E; [|done].
  apply Parse_web in E as ->; [|done..]. rewrite hostname_plain by done. by destruct (bool_decide _).
Qed.

(** ** Who is allowed *)

(** An entry of the list names a host: itself, or its domain and all below. *)
Definition covers (a h : gostr) : Prop := (∃ d, a = $"*." ++ d ∧ (h = d ∨ ∃ p, h = p ++ $"." ++ d)) ∨ (has_prefix a $"*." = false ∧ h = a).

Lemma allows_covers a h : h ≠ [] → allows a h = true ↔ covers a h.
Proof.
  intros Hne. unfold allows, covers. destruct (bool_decide_reflect (a = [])) as [->|Ha].
  { split; [done|]. intros [(d & Hd & _)|[_ ->]]; done. }
  destruct (has_prefix a $"*.") eqn:Ep.
  - apply has_prefix_split in Ep as [d ->]. unfold trim_prefix. rewrite (proj2 (has_prefix_split ($"*." ++ d) $"*.")) by eauto.
    rewrite (proj2 (has_prefix_split ($"*." ++ d) $"*")) by (by exists ($"." ++ d)). change (drop (length $"*.") ($"*." ++ d)) with d. change (drop (length $"*") ($"*." ++ d)) with ($"." ++ d).
    rewrite orb_true_iff, bool_decide_eq_true. assert (Hs : has_suffix h ($"." ++ d) = true ↔ ∃ p, h = p ++ $"." ++ d).
    { unfold has_suffix. rewrite has_prefix_split. split; intros (p & E).
      - exists (reverse p). rewrite <- (reverse_involutive h), E, reverse_app, !reverse_involutive. done.
      - exists (reverse p). by rewrite E, reverse_app. }
    rewrite Hs. split.
    + intros Hor. left. eauto.
    + intros [(d' & Ed & Hor)|[? _]]; [|done]. apply app_inv_head in Ed as <-. done.
  - rewrite bool_decide_eq_true. split; [by right|]. intros [(d & -> & _)|[_ ?]]; [|done]. by rewrite (proj2 (has_prefix_split _ _)) in Ep by eauto.
Qed.

(** The address a request claims to come from: Origin, or else Referer. *)
Definition claimed (r : request) : gostr :=
  let origin := trim_space (header_get r $"Origin") in
  if negb (bool_decide (origin = [])) && negb (equal_fold origin $"null") then origin else trim_space (header_get r $"Referer").

(** C24: cross-site requests.  When the protection covers a request that names the page it
    comes from - in Origin, or in Referer when Origin is missing or null - the request is
    refused exactly when the host of that page is neither the host of the request, nor a
    domain of the site, nor an allowed one (with their sub-domains when written with a
    star); the path of the page, however malformed, makes no difference.  A page of the
    site itself is never refused. *)
Theorem csrf_exact cfg bindMoreHost r https h port tail :
  Csrf.IsEnable cfg ≠ 0 → isCsrfProtectedMethod (r_method r) (ProtectMethods cfg) = true → isCsrfExcludedPath (r_path r) (Csrf.ExcludePaths cfg) = false →
  claimed r = web_address https h port tail → dns_name h → port_ok port → tail_ok tail →
  (CheckCsrf cfg bindMoreHost r = csrfBlock ↔ ∀ a, a ∈ buildCsrfAllowedHosts (r_host r) bindMoreHost (Csrf.AllowedOrigins cfg) → ¬ covers a h) ∧
  (∀ port', r_host r = h ++ port' → port_ok port' → CheckCsrf cfg bindMoreHost r = csrf_passed).
Proof.
  intros He Hm Hx Hc Hh Hp Ht.
  assert (Hex : extractHostFromOrigin (claimed r) = h).
  { eapply extract_web; [|done..]. rewrite <- Hc. unfold claimed. destruct (_ && _); by rewrite trim_space_idem. }
  assert (Hrun : CheckCsrf cfg bindMoreHost r = if isCsrfOriginAllowed h (buildCsrfAllowedHosts (r_host r) bindMoreHost (Csrf.AllowedOrigins cfg)) then csrf_passed else csrfBlock).
  { unfold CheckCsrf. rewrite (proj2 (Z.eqb_neq _ _) He), Hm, Hx. cbn [negb]. rewrite <- Hex. unfold claimed in Hc |- *.
    destruct (_ && _); [done|]. rewrite Hc, bool_decide_false by (by destruct https). done. }
  rewrite Hrun. unfold isCsrfOriginAllowed. destruct Hh as [Hne Hb]. rewrite bool_decide_false by done. cbn [negb andb]. split.
  - destruct (existsb _ _) eqn:E; split; try done.
    + intros Ha. apply existsb_elem_of in E as (a & Hin & Hal). apply allows_covers in Hal; [|done]. by destruct (Ha a Hin).
    + intros _ a Hin Hcov. apply allows_covers in Hcov; [|done]. enough (existsb (λ a, allows a h) (buildCsrfAllowedHosts (r_host r) bindMoreHost (Csrf.AllowedOrigins cfg)) = true) by congruence.
      apply existsb_elem_of. eauto.
  - intros port' Er Hp'. enough (existsb (λ a, allows a h) (buildCsrfAllowedHosts (r_host r) bindMoreHost (Csrf.AllowedOrigins cfg)) = true) as -> by done.
    apply existsb_elem_of. exists h. split; [|apply allows_covers; [done|]].
    + unfold buildCsrfAllowedHosts. apply elem_of_app. left. assert (self_host (r_host r) = h) as ->; [|unfold some_host; rewrite bool_decide_false by done; by apply list_elem_of_singleton].
      unfold self_host. rewrite Er, before_any_app; [|apply forallb_forall; intros c Hin; rewrite forallb_forall in Hb; by apply dns_no_colon, Hb|by destruct Hp' as [->|(ds & -> & _)]].
      rewrite trim_space_visible; [by apply lower_dns|]. apply forallb_forall. intros c Hin. rewrite forallb_forall in Hb. by destruct (dns_byte_facts c (Hb c Hin)).
    + right. split; [|done]. destruct h as [|c h]; [done|]. cbn [forallb] in Hb. apply andb_true_iff in Hb as [Hb _]. destruct c as [[] [] [] [] [] [] [] []]; by vm_compute.
Qed.
End facts.
End Csrf.

(** ** Anti-leech *)

Module AntiLeech.

Record AntiLeechConfig := mkLeech { IsEnableAntiLeech : Z; FileTypes : gostr; ValidReferers : gostr; Action : gostr; RedirectURL : gostr }.

Section leech.
Context `{UnicodeCase, Regexp}.

Definition isProtectedFileType (path fileTypes : gostr) : bool :=
  if bool_decide (fileTypes = []) then false
  else default false (regexp_match ($".*\.(" ++ fileTypes ++ $")$") (to_lower path)).

Definition special (v : gostr) : bool := bool_decide (v ∈ [$"none"; $"blocked"; $"server_names"]).
Definition names_host (refererHost v : gostr) : bool :=
  negb (special v) &&
  (if has_prefix v $"~" then default false (regexp_match (trim_prefix v $"~") refererHost)
   else if has_prefix v $"*." then has_suffix refererHost (trim_prefix v $"*")
   else bool_decide (refererHost = v)).
Definition isValidReferer (referer : gostr) (hosts validReferers : list gostr) : bool :=
  match validReferers with
  | [] => true
  | _ =>
      if bool_decide (referer = []) then bool_decide ($"none" ∈ validReferers)
      else match Parse referer with
           | None => bool_decide ($"blocked" ∈ validReferers)
           | Some u => (bool_decide ($"server_names" ∈ validReferers) && bool_decide (UHost u ∈ hosts)) || existsb (names_host (UHost u)) validReferers
           end
  end.

Definition server_names (reqHost bindMoreHost : gostr) : list gostr :=
  before_any reqHost $":" :: (if bool_decide (bindMoreHost = []) then [] else flat_map (λ line, match trim_space line with [] => [] | l => [l] end) (split bindMoreHost (chr 10))).

Definition leech_blocked (content : gostr) : CCEngine.Result := CCEngine.mkRes false true $"防盗链保护" content.
Definition quot : gostr := [chr 34].
Definition redirect_page (url : gostr) : gostr :=
  $"<!DOCTYPE html><html><head><meta http-equiv=" ++ quot ++ $"refresh" ++ quot ++ $" content=" ++ quot ++ $"0;url=" ++ url ++ quot ++ $"></head><body>Redirecting...</body></html>".
Definition CheckAntiLeech (cfg : AntiLeechConfig) (bindMoreHost : gostr) (r : request) : CCEngine.Result :=
  if IsEnableAntiLeech cfg =? 0 then CCEngine.passed
  else if negb (isProtectedFileType (r_path r) (FileTypes cfg)) then CCEngine.passed
  else if isValidReferer (header_get r $"Referer") (server_names (r_host r) bindMoreHost) (split (ValidReferers cfg) ";") then CCEngine.passed
  else if bool_decide (Action cfg = $"redirect") && negb (bool_decide (RedirectURL cfg = [])) then
    if match Parse (RedirectURL cfg) with
       | Some u => bool_decide (before_any (r_host r) $":" = before_any (UHost u) $":") && has_prefix (r_path r) (UPath u)
       | None => false
       end
    then leech_blocked $"检测到重定向循环，已阻断"
    else leech_blocked (redirect_page (RedirectURL cfg))
  else leech_blocked $"您没有权限访问此资源".
End leech.
End AntiLeech.

(** ** Witnesses *)

Module RefererWitnesses.
#[local] Instance ascii_lower : UnicodeCase := {| unicode_to_lower s := s |}.
#[local] Instance ascii_upper : UnicodeUpper := {| unicode_to_upper s := s |}.
#[local] Instance any_regexp : Regexp := {| regexp_match _ _ := Some true |}.

Definition post (host : gostr) (headers : list (gostr * gostr)) : request :=
  mkRequest $"/pay" [] $"post" host false (list_to_map (map (λ kv, (kv.1, [kv.2])) headers)) [] ∅.
Definition csrf_on : Csrf.CsrfConfig := Csrf.ParseCsrfConfig $"{}" (Some (Csrf.mkCsrf 1 [] $"*.partner.org" 1 [])).

Lemma csrf_exact_witness :
  Csrf.CheckCsrf csrf_on [] (post $"shop.com:8080" [($"Origin", $"null"); ($"Referer", $"https://evil.com/shop.com/%zz?x#y")]) = Csrf.csrfBlock.
Proof.
  apply (proj1 (Csrf.csrf_exact csrf_on [] (post $"shop.com:8080" [($"Origin", $"null"); ($"Referer", $"https://evil.com/shop.com/%zz?x#y")])
    true $"evil.com" [] $"/shop.com/%zz?x#y" ltac:(done) ltac:(by vm_compute) ltac:(by vm_compute) ltac:(by vm_compute) ltac:(by split) ltac:(by left) ltac:(done))).
  intros a Ha. assert (a = $"shop.com" ∨ a = $"*.partner.org") as Ha'.
  { assert (E : Csrf.buildCsrfAllowedHosts (r_host (post $"shop.com:8080" [($"Origin", $"null"); ($"Referer", $"https://evil.com/shop.com/%zz?x#y")])) [] (Csrf.AllowedOrigins csrf_on)
      = [$"shop.com"; $"*.partner.org"]) by (by vm_compute). rewrite E in Ha. apply elem_of_cons in Ha as [->|Ha]; [by left|]. apply list_elem_of_singleton in Ha as ->. by right. }
  rewrite <- (Csrf.allows_covers a $"evil.com") by done. destruct Ha' as [-> | ->]; by vm_compute.
Defined.

(** A site reached by an IPv6 address refuses its own pages: the host of the request is
    cut at the first colon. *)
Example ipv6_site_refused : Csrf.CheckCsrf csrf_on [] (post $"[::1]:8080" [($"Origin", $"http://[::1]:8080")]) = Csrf.csrfBlock.
Proof. by vm_compute. Qed.

Definition leech_on (referers : gostr) : AntiLeech.AntiLeechConfig := AntiLeech.mkLeech 1 $"png" referers [] [].
(** An empty list of referers is not empty for the code. *)
Example no_list_refuses : AntiLeech.CheckAntiLeech (leech_on []) [] (post $"shop.com" []) = AntiLeech.leech_blocked $"您没有权限访问此资源".
Proof. by vm_compute. Qed.
(** The name of the server is compared without its port, the referer with it. *)
Example own_page_refused :
  AntiLeech.CheckAntiLeech (leech_on $"server_names") [] (post $"shop.com:8080" [($"Referer", $"http://shop.com:8080/a.html")]) = AntiLeech.leech_blocked $"您没有权限访问此资源" ∧
  AntiLeech.CheckAntiLeech (leech_on $"server_names") [] (post $"shop.com" [($"Referer", $"http://shop.com/a.html")]) = CCEngine.passed.
Proof. by vm_compute. Qed.
End RefererWitnesses.
