(* ===== verification/Tamper.v ===== *)
(** * Protection against altered pages (wafenginecore/tamper.go, service/waf_service/waf_tamperrule_service.go)

    For a protected address the first good answer is learned as its baseline; a later
    answer with another hash is taken for an altered page, and the baseline is sent
    instead.  Learning runs beside the requests and the rules of the engine are a copy of
    the stored ones that is renewed by messages, so the module is a transition system.
    SHA-256 and the decoders of compressed bodies are parameters. *)
From S2P Require Import Prelude.
From S2P Require Import GoLib.
From S2P Require Import GoHttp.
From S2P Require Import GoUrl.
From S2P Require Import AccessGate.
Local Open Scope Z_scope.
Local Open Scope bool_scope.

Module Tamper.

(** ** Rules and decisions *)

Record TamperConfig := mkConfig { IsEnable : Z; Action : gostr; MaxSizeKB : Z }.
(** [ParseTamperConfig]: [decoded] is what the JSON decoder makes of the text over the
    default values. *)
Definition ParseTamperConfig (jsonStr : gostr) (decoded : option TamperConfig) : TamperConfig :=
  let c := mkConfig 0 $"replace" 1024 in
  if bool_decide (jsonStr = []) then c
  else match decoded with
       | None => c
       | Some d => mkConfig (IsEnable d) (if bool_decide (Action d = []) then $"replace" else Action d) (if MaxSizeKB d <=? 0 then 1024 else MaxSizeKB d)
       end.

Record TamperRule := mkRule {
  Id : gostr; HostCode : gostr; Url : gostr; Enabled : Z; IgnoreQuery : Z;
  BaselineHash : gostr; BaselineContent : gostr; ContentType : gostr; StatusCode : Z; ContentSize : Z; BaselineStatus : Z }.

Inductive tamperDecision := tamperPass | tamperCapture | tamperTampered | tamperSkip.
Definition matchTamperRule (rules : list TamperRule) (path : gostr) : option TamperRule :=
  List.find (λ r, (Enabled r =? 1) && bool_decide (Url r = path)) rules.
Definition isTamperCandidate (method rawQuery : gostr) (rule : TamperRule) : bool :=
  if negb (equal_fold method $"GET") then false
  else if negb (Enabled rule =? 1) then false
  else if (IgnoreQuery rule =? 0) && negb (bool_decide (rawQuery = [])) then false
  else true.
Definition overBaselineCap (size maxKB : Z) : bool := (if maxKB <=? 0 then 1024 else maxKB) * 1024 <? size.
Definition evaluateTamper (liveHash : gostr) (rule : TamperRule) : tamperDecision :=
  if BaselineStatus rule =? 0 then tamperCapture
  else if BaselineStatus rule =? 1 then (if bool_decide (liveHash = BaselineHash rule) then tamperPass else tamperTampered)
  else tamperSkip.
Definition validateTamperUrl (url : gostr) : bool :=
  let url := trim_space url in
  negb (bool_decide (url = [])) && has_prefix url $"/" && negb (contains url $"*") && negb (contains_any url $"?#").

(** ** Responses *)

Record response := mkResp { rs_code : Z; rs_header : gmap gostr (list gostr); rs_body : gostr }.
Definition rs_get (r : response) (key : gostr) : gostr := default [] (head (default [] (rs_header r !! canonical_key key))).
Definition hdr_set (h : gmap gostr (list gostr)) (key v : gostr) : gmap gostr (list gostr) := <[canonical_key key := [v]]> h.
Definition hdr_del (h : gmap gostr (list gostr)) (key : gostr) : gmap gostr (list gostr) := delete (canonical_key key) h.

(** What is left to do besides the answer. *)
Inductive effect := Learn (rule : TamperRule) (body contentType : gostr) (statusCode : Z) | Detected (rule : TamperRule) (replaced : bool) | Logged.

Section tamper.
Context `{UnicodeCase} (sha256 : gostr → gostr) (decode : gostr → gostr → option gostr).

Definition sha256Hex (b : gostr) : gostr := Hosts.EncodeToString (sha256 b).
Definition encodings : list gostr := [$"gzip"; $"deflate"; $"br"; $"zstd"].
Definition readDecompressedBody (r : response) : option gostr :=
  let enc := to_lower (rs_get r $"Content-Encoding") in
  if bool_decide (enc ∈ encodings) then decode enc (rs_body r) else Some (rs_body r).
Definition serveTamperBaseline (r : response) (rule : TamperRule) : response :=
  let content := BaselineContent rule in
  let h := hdr_del (rs_header r) $"Content-Encoding" in
  let h := if bool_decide (ContentType rule = []) then h else hdr_set h $"Content-Type" (ContentType rule) in
  mkResp 200 (hdr_set h $"Content-Length" (itoa (Z.of_nat (length content)))) content.

(** [site]: the configuration and the rules of the engine for the host, when it is known. *)
Definition checkAndHandleTamper (site : option (TamperConfig * list TamperRule)) (method path rawQuery : gostr) (r : response) : bool * response * list effect :=
  let pass := (false, r, []) in
  match site with
  | None => pass
  | Some (cfg, rules) =>
      if negb (IsEnable cfg =? 1) then pass
      else if negb (equal_fold method $"GET") then pass
      else if negb (rs_code r =? 200) then pass
      else match matchTamperRule rules path with
           | None => pass
           | Some rule =>
               if (IgnoreQuery rule =? 0) && negb (bool_decide (rawQuery = [])) then pass
               else match readDecompressedBody r with
                    | None | Some [] => pass
                    | Some body =>
                        match evaluateTamper (sha256Hex body) rule with
                        | tamperCapture => (false, r, [Learn rule body (rs_get r $"Content-Type") (rs_code r)])
                        | tamperPass | tamperSkip => pass
                        | tamperTampered =>
                            let replaced := negb (bool_decide (Action cfg = $"alert")) in
                            if replaced then (true, serveTamperBaseline r rule, [Detected rule replaced; Logged])
                            else (false, r, [Detected rule replaced])
                        end
                    end
           end
  end.

(** ** The stored rules *)

Definition update_where (p : TamperRule → bool) (f : TamperRule → TamperRule) (db : list TamperRule) : list TamperRule :=
  map (λ r, if p r then f r else r) db.
Definition has_id (id : gostr) (r : TamperRule) : bool := bool_decide (Id r = id).
Definition of_host (hostCode : gostr) (r : TamperRule) : bool := bool_decide (HostCode r = hostCode).
Definition exists_url (db : list TamperRule) (hostCode url : gostr) : bool := existsb (λ r, of_host hostCode r && bool_decide (Url r = url)) db.

Definition AddApi (db : list TamperRule) (id hostCode url : gostr) (enable ignoreQuery : Z) : option (list TamperRule) :=
  if validateTamperUrl url then Some (db ++ [mkRule id hostCode (trim_space url) enable ignoreQuery [] [] [] 0 0 0]) else None.
Definition cleared (r : TamperRule) : TamperRule := mkRule (Id r) (HostCode r) (Url r) (Enabled r) (IgnoreQuery r) [] [] (ContentType r) (StatusCode r) 0 0.
(** The row after a change; the baseline goes when the address changes. *)
Definition modified (hostCode url : gostr) (enable ignoreQuery : Z) (r : TamperRule) : TamperRule :=
  if bool_decide (Url r = url) then mkRule (Id r) hostCode url enable ignoreQuery (BaselineHash r) (BaselineContent r) (ContentType r) (StatusCode r) (ContentSize r) (BaselineStatus r)
  else mkRule (Id r) hostCode url enable ignoreQuery [] [] (ContentType r) (StatusCode r) (ContentSize r) 0.
Definition ModifyApi (db : list TamperRule) (id hostCode url : gostr) (enable ignoreQuery : Z) : option (list TamperRule) :=
  if negb (validateTamperUrl url) then None
  else if existsb (λ r, of_host hostCode r && bool_decide (Url r = trim_space url) && negb (has_id id r)) db then None
  else Some (update_where (has_id id) (modified hostCode (trim_space url) enable ignoreQuery) db).
Definition RelearnApi (db : list TamperRule) (id : gostr) : list TamperRule := update_where (has_id id) cleared db.
Definition RelearnBatchApi (db : list TamperRule) (hostCode : gostr) (ids : list gostr) : option (list TamperRule) :=
  if bool_decide (trim_space hostCode = []) then None
  else Some (update_where (λ r, of_host hostCode r && (bool_decide (ids = []) || bool_decide (Id r ∈ ids))) cleared db).
Definition DelApi (db : list TamperRule) (id : gostr) : list TamperRule := List.filter (λ r, negb (has_id id r)) db.
Definition DelBatchApi (db : list TamperRule) (hostCode : gostr) (ids : list gostr) : option (list TamperRule) :=
  if bool_decide (trim_space hostCode = []) then None else Some (List.filter (λ r, negb (of_host hostCode r && bool_decide (Id r ∈ ids))) db).
(** [uuids] are the fresh names; the rows added, and the counts. *)
Fixpoint AddBatchApi (db : list TamperRule) (uuids urls : list gostr) (hostCode : gostr) (enable ignoreQuery : Z) : list TamperRule * nat * nat :=
  match urls with
  | [] => (db, 0, 0)%nat
  | raw :: urls' =>
      let u := trim_space raw in
      if bool_decide (u = []) then AddBatchApi db uuids urls' hostCode enable ignoreQuery
      else if negb (validateTamperUrl u) || exists_url db hostCode u then
        let '(db', a, s) := AddBatchApi db uuids urls' hostCode enable ignoreQuery in (db', a, S s)
      else match uuids with
           | id :: uuids' =>
               let '(db', a, s) := AddBatchApi (db ++ [mkRule id hostCode u enable ignoreQuery [] [] [] 0 0 0]) uuids' urls' hostCode enable ignoreQuery in (db', S a, s)
           | [] => (db, 0, 0)%nat
           end
  end.

Definition learned (body contentType : gostr) (statusCode : Z) (r : TamperRule) : TamperRule :=
  mkRule (Id r) (HostCode r) (Url r) (Enabled r) (IgnoreQuery r) (sha256Hex body) body contentType statusCode (Z.of_nat (length body)) 1.
Definition failed (size : Z) (r : TamperRule) : TamperRule :=
  mkRule (Id r) (HostCode r) (Url r) (Enabled r) (IgnoreQuery r) (BaselineHash r) (BaselineContent r) (ContentType r) (StatusCode r) size 2.
Definition tamperExtractMaxBody : nat := 4 * 1024 * 1024.
(** [fetchAndCaptureBaseline]: [fetched] is the status, the type and the body the backend
    gave, if it did. *)
Definition fetchAndCaptureBaseline (db : list TamperRule) (id : gostr) (fetched : option (Z * gostr * gostr)) (cfg : TamperConfig) : list TamperRule :=
  let setFail := update_where (has_id id) (λ r, failed (ContentSize r) r) db in
  match fetched with
  | None => setFail
  | Some (statusCode, contentType, whole) =>
      let body := take tamperExtractMaxBody whole in
      if negb (statusCode =? 200) || bool_decide (body = []) then setFail
      else if overBaselineCap (Z.of_nat (length body)) (MaxSizeKB cfg) then setFail
      else update_where (has_id id) (learned body contentType statusCode) db
  end.

(** ** Learning beside the requests *)

Inductive stage := Storing | Notifying | Finishing.
Record job := mkJob { jRule : gostr; jHost : gostr; jBody : gostr; jType : gostr; jCode : Z; jMax : Z; jStage : stage }.
Record world := mkWorld {
  db : list TamperRule; engine : gmap gostr (list TamperRule); tamperLearning : gset gostr; jobs : list job; chan : list (gostr * list TamperRule) }.

Definition captureTamperBaseline (w : world) (rule : TamperRule) (body contentType : gostr) (statusCode maxKB : Z) : world :=
  if bool_decide (Id rule ∈ tamperLearning w) then w
  else mkWorld (db w) (engine w) ({[Id rule]} ∪ tamperLearning w) (mkJob (Id rule) (HostCode rule) body contentType statusCode maxKB Storing :: jobs w) (chan w).
Definition run_effect (cfg : TamperConfig) (w : world) (e : effect) : world :=
  match e with Learn rule body ct code => captureTamperBaseline w rule body ct code (MaxSizeKB cfg) | Detected _ _ | Logged => w end.
Definition store (j : job) : list TamperRule → list TamperRule :=
  update_where (has_id (jRule j))
    (if overBaselineCap (Z.of_nat (length (jBody j))) (jMax j) then failed (Z.of_nat (length (jBody j))) else learned (jBody j) (jType j) (jCode j)).
Definition with_db (w : world) (d : list TamperRule) : world := mkWorld d (engine w) (tamperLearning w) (jobs w) (chan w).
Definition at_stage (j : job) (s : stage) : job := mkJob (jRule j) (jHost j) (jBody j) (jType j) (jCode j) (jMax j) s.
Definition notifyTamperReload (w : world) (hostCode : gostr) : world :=
  mkWorld (db w) (engine w) (tamperLearning w) (jobs w) (chan w ++ [(hostCode, List.filter (of_host hostCode) (db w))]).

(** What happens on the way, for the history of a run: what the backend answered, what a
    learning job wrote, what the server fetched itself, and what the administrator asked. *)
Inductive event :=
| Answered (method path rawQuery : gostr) (r : response)
| Stored (id body contentType : gostr) (statusCode : Z)
| Fetched (id : gostr) (statusCode : Z) (contentType whole : gostr)
| Added (id url : gostr) | Renamed (id url : gostr) | Relearned (id : gostr).
Definition rows_added (d : list TamperRule) : list event := map (λ r, Added (Id r) (Url r)) d.

Inductive step : world → list event → world → Prop :=
| st_response w code cfg rules method path rawQuery r : engine w !! code = Some rules →
    step w [Answered method path rawQuery r] (foldl (run_effect cfg) w (checkAndHandleTamper (Some (cfg, rules)) method path rawQuery r).2)
| st_store w pre j post : jobs w = pre ++ j :: post → jStage j = Storing →
    step w [Stored (jRule j) (jBody j) (jType j) (jCode j)] (mkWorld (store j (db w)) (engine w) (tamperLearning w) (pre ++ at_stage j Notifying :: post) (chan w))
| st_notify w pre j post : jobs w = pre ++ j :: post → jStage j = Notifying →
    step w [] (notifyTamperReload (mkWorld (db w) (engine w) (tamperLearning w) (pre ++ at_stage j Finishing :: post) (chan w)) (jHost j))
| st_finish w pre j post : jobs w = pre ++ j :: post → jStage j = Finishing →
    step w [] (mkWorld (db w) (engine w) (tamperLearning w ∖ {[jRule j]}) (pre ++ post) (chan w))
| st_reload w code rules rest : chan w = (code, rules) :: rest →
    step w [] (mkWorld (db w) (match engine w !! code with Some _ => <[code := rules]> (engine w) | None => engine w end) (tamperLearning w) (jobs w) rest)
| st_reload_asked w code : step w [] (notifyTamperReload w code)
| st_add w id code url en iq d : AddApi (db w) id code url en iq = Some d → step w (rows_added d) (with_db w d)
| st_add_batch w uuids urls code en iq : step w (rows_added (AddBatchApi (db w) uuids urls code en iq).1.1) (with_db w (AddBatchApi (db w) uuids urls code en iq).1.1)
| st_modify w id code url en iq d : ModifyApi (db w) id code url en iq = Some d → step w [Renamed id (trim_space url)] (with_db w d)
| st_relearn w id : step w [Relearned id] (with_db w (RelearnApi (db w) id))
| st_relearn_batch w code ids d : RelearnBatchApi (db w) code ids = Some d → step w [] (with_db w d)
| st_fetch w id fetched cfg :
    step w (match fetched with Some (statusCode, contentType, whole) => [Fetched id statusCode contentType whole] | None => [] end) (with_db w (fetchAndCaptureBaseline (db w) id fetched cfg))
| st_delete w id : step w [] (with_db w (DelApi (db w) id))
| st_delete_batch w code ids d : DelBatchApi (db w) code ids = Some d → step w [] (with_db w d).
(** Runs, with their history: the latest event comes first. *)
Inductive runs (w0 : world) : list event → world → Prop :=
| runs_none : runs w0 [] w0
| runs_more h w l w' : runs w0 h w → step w l w' → runs w0 (l ++ h) w'.
End tamper.

(** ** The baselines stay whole *)

Section facts.
Context `{UnicodeCase} (sha256 : gostr → gostr) (decode : gostr → gostr → option gostr).

#[local] Opaque tamperExtractMaxBody.
(** *** Where a baseline comes from *)

(** The rules there were at the start, in the table or in the engine. *)
Definition old (w0 : world) (r : TamperRule) : Prop := r ∈ db w0 ∨ ∃ code rules, engine w0 !! code = Some rules ∧ r ∈ rules.
(** The rule has, or had, this address. *)
Definition on_record (w0 : world) (h : list event) (id url : gostr) : Prop :=
  (∃ r, old w0 r ∧ Id r = id ∧ Url r = url) ∨ Added id url ∈ h ∨ Renamed id url ∈ h.
(** The page a good answer of the backend at such an address carried. *)
Definition page (w0 : world) (h : list event) (id body contentType : gostr) (statusCode : Z) : Prop :=
  ∃ method path rawQuery r, Answered method path rawQuery r ∈ h ∧ on_record w0 h id path ∧ equal_fold method $"GET" = true ∧
    rs_code r = 200 ∧ statusCode = 200 ∧ readDecompressedBody decode r = Some body ∧ body ≠ [] ∧ contentType = rs_get r $"Content-Type".
(** The event that taught the rule its baseline. *)
Definition taught (w0 : world) (r : TamperRule) (e : event) (before : list event) : Prop :=
  match e with
  | Stored id body contentType statusCode => id = Id r ∧ BaselineContent r = body ∧ ContentType r = contentType ∧ page w0 before id body contentType statusCode
  | Fetched id statusCode contentType whole => id = Id r ∧ statusCode = 200 ∧ BaselineContent r = take tamperExtractMaxBody whole ∧ ContentType r = contentType
  | _ => False
  end.
(** The event neither moves the rule to another address nor asks to learn it again. *)
Definition leaves (r : TamperRule) (e : event) : Prop :=
  match e with Renamed id url => id = Id r → url = Url r | Relearned id => id ≠ Id r | _ => True end.
(** A learned rule carries the hash of its content, and the content is the one it was
    taught, or had at the start, and has not been told to forget since. *)
Definition sealed (w0 : world) (h : list event) (r : TamperRule) : Prop := BaselineStatus r = 1 →
  BaselineHash r = sha256Hex sha256 (BaselineContent r) ∧
  ((∃ r0, old w0 r0 ∧ Id r0 = Id r ∧ Url r0 = Url r ∧ BaselineStatus r0 = 1 ∧ BaselineContent r0 = BaselineContent r ∧ Forall (leaves r) h) ∨
   ∃ since e before, h = since ++ e :: before ∧ Forall (leaves r) since ∧ taught w0 r e before).
Definition row_ok (w0 : world) (h : list event) (r : TamperRule) : Prop := sealed w0 h r ∧ on_record w0 h (Id r) (Url r).
(** A copy made at some time before. *)
Definition copied (w0 : world) (h : list event) (r : TamperRule) : Prop := ∃ later h', h = later ++ h' ∧ row_ok w0 h' r.
Definition job_ok (w0 : world) (h : list event) (j : job) : Prop := page w0 h (jRule j) (jBody j) (jType j) (jCode j).

Record good (w0 : world) (h : list event) (w : world) : Prop := {
  gd_db : Forall (row_ok w0 h) (db w);
  gd_engine : map_Forall (λ _ rules, Forall (copied w0 h) rules) (engine w);
  gd_chan : Forall (λ m, Forall (copied w0 h) m.2) (chan w);
  gd_jobs : Forall (job_ok w0 h) (jobs w);
  gd_single : NoDup (map jRule (jobs w));
  gd_learning : list_to_set (map jRule (jobs w)) = tamperLearning w }.
(** The server has just been started: the stored baselines carry their hashes. *)
Definition started (w : world) : Prop :=
  (∀ r, old w r → BaselineStatus r = 1 → BaselineHash r = sha256Hex sha256 (BaselineContent r)) ∧ chan w = [] ∧ jobs w = [] ∧ tamperLearning w = ∅.

Section origins.
Variable w0 : world.
Implicit Types (h l : list event) (r : TamperRule).

Lemma known_more l h id url : on_record w0 h id url → on_record w0 (l ++ h) id url.
Proof. unfold on_record. rewrite !elem_of_app. tauto. Qed.
Lemma page_more l h id body ct code : page w0 h id body ct code → page w0 (l ++ h) id body ct code.
Proof. intros (m & p & q & r & Hin & Hk & Hr). exists m, p, q, r. split; [apply elem_of_app; by right|]. split; [by apply known_more|done]. Qed.
Lemma sealed_more l h r : Forall (leaves r) l → sealed w0 h r → sealed w0 (l ++ h) r.
Proof.
  intros Hl Hs H1. destruct (Hs H1) as [Hh [(r0 & ? & ? & ? & ? & ? & Hf)|(since & e & before & -> & Hf & Ht)]]; (split; [done|]).
  - left. exists r0. split_and!; [done..|]. by apply Forall_app.
  - right. exists (l ++ since), e, before. split; [by rewrite app_assoc|]. split; [by apply Forall_app|done].
Qed.
Lemma sealed_unlearned h r : BaselineStatus r ≠ 1 → sealed w0 h r.
Proof. by intros Hn H1. Qed.
Lemma sealed_same h r r' : Id r' = Id r → Url r' = Url r → BaselineStatus r' = BaselineStatus r → BaselineHash r' = BaselineHash r →
  BaselineContent r' = BaselineContent r → ContentType r' = ContentType r → sealed w0 h r → sealed w0 h r'.
Proof.
  intros E1 E2 E3 E4 E5 E6 Hs. assert (El : ∀ e, leaves r e → leaves r' e) by (intros []; cbn; rewrite ?E1, ?E2; done).
  unfold sealed. rewrite E1, E2, E3, E4, E5. intros H1. destruct (Hs H1) as [Hh [(r0 & ? & ? & ? & ? & ? & Hf)|(since & e & before & -> & Hf & Ht)]]; (split; [done|]).
  - left. exists r0. split_and!; [done..|]. eapply Forall_impl; [exact Hf|exact El].
  - right. exists since, e, before. split; [done|]. split; [eapply Forall_impl; [exact Hf|exact El]|]. destruct e; cbn in *; rewrite ?E1, ?E5, ?E6; done.
Qed.
Lemma row_more l h r : Forall (leaves r) l → row_ok w0 h r → row_ok w0 (l ++ h) r.
Proof. intros Hl [Hs Hk]. split; [by apply sealed_more|by apply known_more]. Qed.
Lemma copied_more l h r : copied w0 h r → copied w0 (l ++ h) r.
Proof. intros (later & h' & -> & Hr). exists (l ++ later), h'. by rewrite app_assoc. Qed.
Lemma copied_now h r : row_ok w0 h r → copied w0 h r.
Proof. intros Hr. by exists [], h. Qed.
Lemma copied_known h r : copied w0 h r → on_record w0 h (Id r) (Url r).
Proof. intros (later & h' & -> & _ & Hk). by apply known_more. Qed.

Lemma rows_update l h p f rows : (∀ r, p r = true → row_ok w0 h r → row_ok w0 (l ++ h) (f r)) → (∀ r, p r = false → Forall (leaves r) l) →
  Forall (row_ok w0 h) rows → Forall (row_ok w0 (l ++ h)) (update_where p f rows).
Proof.
  intros Hf Hl Hr. unfold update_where. apply Forall_map. eapply Forall_impl; [exact Hr|]. intros r Hs. cbn. destruct (p r) eqn:E; [by apply Hf|]. apply row_more; [by apply Hl|done].
Qed.
Lemma rows_filter h p rows : Forall (row_ok w0 h) rows → Forall (row_ok w0 h) (List.filter p rows).
Proof. rewrite !Forall_forall. intros Hr r Hin. apply list_elem_of_In, filter_In in Hin as [Hin _]. by apply Hr, list_elem_of_In. Qed.
Lemma rows_quiet l h rows : (∀ r, Forall (leaves r) l) → Forall (row_ok w0 h) rows → Forall (row_ok w0 (l ++ h)) rows.
Proof. intros Hl Hr. eapply Forall_impl; [exact Hr|]. intros r. by apply row_more. Qed.
(** Rows that are added are not learned yet. *)
Lemma add_batch_rows rows uuids urls code en iq r : r ∈ (AddBatchApi rows uuids urls code en iq).1.1 → r ∈ rows ∨ BaselineStatus r = 0.
Proof.
  revert rows uuids. induction urls as [|raw urls IH]; intros rows uuids; cbn [AddBatchApi]; [by left|]. case_bool_decide; [apply IH|]. destruct (negb _ || _).
  - specialize (IH rows uuids). by destruct (AddBatchApi _ _ _ _ _ _) as [[? ?] ?].
  - destruct uuids as [|id uuids]; [by left|]. specialize (IH (rows ++ [mkRule id code (trim_space raw) en iq [] [] [] 0 0 0]) uuids).
    destruct (AddBatchApi _ _ _ _ _ _) as [[? ?] ?]. cbn [fst] in *. intros Hr. destruct (IH Hr) as [[Hin|Hin%list_elem_of_singleton]%elem_of_app|]; [by left| |by right].
    right. by subst.
Qed.
Lemma rows_grown h rows d : Forall (row_ok w0 h) rows → (∀ r, r ∈ d → r ∈ rows ∨ BaselineStatus r = 0) → Forall (row_ok w0 (rows_added d ++ h)) d.
Proof.
  intros Hr Hd. apply Forall_forall. intros r Hin. split.
  - destruct (Hd r Hin) as [Hold|H0]; [|apply sealed_unlearned; by rewrite H0]. apply sealed_more; [|rewrite Forall_forall in Hr; by apply Hr].
    apply Forall_forall. by intros e (r' & -> & _)%list_elem_of_fmap.
  - right. left. apply elem_of_app. left. unfold rows_added. apply list_elem_of_fmap. by exists r.
Qed.

Lemma good_more l h w : (∀ r, Forall (leaves r) l) → good w0 h w → good w0 (l ++ h) w.
Proof.
  intros Hl [H1 H2 H3 H4 H5 H6]. split; [by apply rows_quiet| | | |done|done].
  - intros code rules Hc. eapply Forall_impl; [by apply (H2 code)|]. intros r. apply copied_more.
  - eapply Forall_impl; [exact H3|]. intros m Hm. eapply Forall_impl; [exact Hm|]. intros r. apply copied_more.
  - eapply Forall_impl; [exact H4|]. intros j. apply page_more.
Qed.
Lemma good_db l h w d : good w0 h w → Forall (row_ok w0 (l ++ h)) d → good w0 (l ++ h) (with_db w d).
Proof.
  intros [H1 H2 H3 H4 H5 H6] Hd. split; [done| | | |done|done].
  - intros code rules Hc. eapply Forall_impl; [by apply (H2 code)|]. intros r. apply copied_more.
  - eapply Forall_impl; [exact H3|]. intros m Hm. eapply Forall_impl; [exact Hm|]. intros r. apply copied_more.
  - eapply Forall_impl; [exact H4|]. intros j. apply page_more.
Qed.
Lemma good_notify h w code : good w0 h w → good w0 h (notifyTamperReload w code).
Proof.
  intros [H1 H2 H3 H4 H5 H6]. split; [done|done| |done|done|done]. apply Forall_app. split; [done|]. constructor; [|constructor].
  eapply Forall_impl; [apply rows_filter, H1|]. intros r. apply copied_now.
Qed.
Lemma good_capture h w rule body ct code maxKB : page w0 h (Id rule) body ct code → good w0 h w → good w0 h (captureTamperBaseline w rule body ct code maxKB).
Proof.
  intros Hp [H1 H2 H3 H4 H5 H6]. unfold captureTamperBaseline. case_bool_decide as Hin; [by split|]. split; cbn; [done|done|done|by constructor| |by rewrite H6].
  constructor; [|done]. intros Hj. apply Hin. rewrite <- H6. by apply elem_of_list_to_set.
Qed.
Lemma good_staged h w pre j s post : good w0 h w → jobs w = pre ++ j :: post → good w0 h (mkWorld (db w) (engine w) (tamperLearning w) (pre ++ at_stage j s :: post) (chan w)).
Proof.
  intros [H1 H2 H3 H4 H5 H6] Ej. assert (E : map jRule (pre ++ at_stage j s :: post) = map jRule (jobs w)) by (by rewrite Ej, !map_app).
  split; cbn [db engine chan jobs tamperLearning]; rewrite ?E; try done. rewrite Ej in H4. apply Forall_app in H4 as [Ha Hb]. apply Forall_app. split; [done|]. by inversion Hb; constructor.
Qed.

(** What an answer makes the server learn. *)
Lemma learns_page h w code cfg rules method path rawQuery (r : response) rule body ct c : good w0 h w → engine w !! code = Some rules →
  Learn rule body ct c ∈ (checkAndHandleTamper sha256 decode (Some (cfg, rules)) method path rawQuery r).2 →
  page w0 (Answered method path rawQuery r :: h) (Id rule) body ct c.
Proof.
  intros Hg He Hin. unfold checkAndHandleTamper in Hin. destruct (negb (IsEnable cfg =? 1)); [by apply not_elem_of_nil in Hin|]. destruct (equal_fold method $"GET") eqn:Eg; [|by apply not_elem_of_nil in Hin].
  destruct (Z.eqb_spec (rs_code r) 200) as [Ec|]; [|by apply not_elem_of_nil in Hin]. cbn [negb] in Hin. destruct (matchTamperRule rules path) as [rule'|] eqn:Em; [|by apply not_elem_of_nil in Hin].
  destruct (_ && _); [by apply not_elem_of_nil in Hin|]. destruct (readDecompressedBody decode r) as [[|b bs]|] eqn:Eb; [by apply not_elem_of_nil in Hin| |by apply not_elem_of_nil in Hin].
  destruct (evaluateTamper _ _); try by apply not_elem_of_nil in Hin.
  - apply list_elem_of_singleton in Hin. injection Hin as -> -> -> ->. exists method, path, rawQuery, r. split; [left|]. unfold matchTamperRule in Em. apply find_some in Em as [Hr Hu].
    apply andb_true_iff in Hu as [_ Hu]. apply bool_decide_eq_true in Hu. split; [|by split_and!]. rewrite <- Hu. apply (known_more [_]), copied_known.
    pose proof (gd_engine _ _ _ Hg code rules He) as Hf. cbn in Hf. rewrite Forall_forall in Hf. by apply Hf, list_elem_of_In.
  - destruct (negb _); cbn in Hin; set_solver.
Qed.

Lemma store_rows h w j pre post : good w0 h w → jobs w = pre ++ j :: post →
  Forall (row_ok w0 ([Stored (jRule j) (jBody j) (jType j) (jCode j)] ++ h)) (store sha256 j (db w)).
Proof.
  intros Hg Ej. unfold store. eapply (rows_update _ h); [| |apply Hg]; [|intros r _; by constructor]. intros r Hid [_ Hk]. unfold has_id in Hid. apply bool_decide_eq_true in Hid.
  destruct (overBaselineCap _ _); (split; [|by apply (known_more [_])]); [by apply sealed_unlearned|]. intros _. split; [done|]. right. exists [], (Stored (jRule j) (jBody j) (jType j) (jCode j)), h.
  split; [done|]. split; [constructor|]. cbn. split_and!; [done..|]. pose proof (gd_jobs _ _ _ Hg) as Hj. rewrite Ej in Hj. apply Forall_app in Hj as [_ Hj]. by inversion Hj.
Qed.
Lemma fetch_rows h rows id fetched cfg : Forall (row_ok w0 h) rows →
  Forall (row_ok w0 (match fetched with Some (code, ct, whole) => [Fetched id code ct whole] | None => [] end ++ h)) (fetchAndCaptureBaseline sha256 rows id fetched cfg).
Proof.
  intros Hr. set (l := match fetched with Some _ => _ | None => _ end). assert (Hl : ∀ r, Forall (leaves r) l) by (intros r; unfold l; destruct fetched as [[[? ?] ?]|]; by repeat constructor).
  assert (Hfail : ∀ f, (∀ r, Id (f r) = Id r ∧ Url (f r) = Url r ∧ BaselineStatus (f r) = 2) → Forall (row_ok w0 (l ++ h)) (update_where (has_id id) f rows)).
  { intros f Hf. apply rows_update; [|intros; apply Hl|done]. intros r _ [_ Hk]. destruct (Hf r) as (E1 & E2 & E3). split; [apply sealed_unlearned; by rewrite E3|]. rewrite E1, E2. by apply known_more. }
  unfold fetchAndCaptureBaseline. destruct fetched as [[[code ct] whole]|]; [|by apply Hfail]. destruct (Z.eqb_spec code 200) as [Ec|]; cbn [negb orb]; [|by apply Hfail].
  destruct (bool_decide _); [by apply Hfail|]. destruct (overBaselineCap _ _); [by apply Hfail|]. apply rows_update; [|intros; apply Hl|done].
  intros r Hid [_ Hk]. unfold has_id in Hid. apply bool_decide_eq_true in Hid. split; [|by apply known_more]. intros _. split; [done|]. right. exists [], (Fetched id code ct whole), h.
  split; [done|]. split; [constructor|]. cbn. by split_and!.
Qed.
Lemma modify_rows h rows id code url en iq d : ModifyApi rows id code url en iq = Some d → Forall (row_ok w0 h) rows → Forall (row_ok w0 ([Renamed id (trim_space url)] ++ h)) d.
Proof.
  unfold ModifyApi. destruct (negb _); [done|]. destruct (existsb _ _); [done|]. intros [= <-] Hr. apply rows_update; [| |done].
  - intros r Hid [Hs Hk]. unfold has_id in Hid. apply bool_decide_eq_true in Hid. unfold modified. case_bool_decide as Eu.
    + split; [|cbn; rewrite <- Eu; by apply (known_more [_])]. apply (sealed_same _ r); [done..|]. apply sealed_more; [|done]. constructor; [|constructor]. cbn. by intros _.
    + split; [by apply sealed_unlearned|]. right. right. cbn. rewrite Hid. left.
  - intros r Hid. unfold has_id in Hid. apply bool_decide_eq_false in Hid. constructor; [|constructor]. cbn. congruence.
Qed.

Lemma step_good h w l w' : good w0 h w → step sha256 decode w l w' → good w0 (l ++ h) w'.
Proof.
  intros Hg Hs. destruct Hs as [w code cfg rules method path rawQuery r Hrules|w pre j post Ej _|w pre j post Ej _|w pre j post Ej _|w code rules rest Ec|w code|w id code url en iq d Hd|w uuids urls code en iq|w id code url en iq d Hd|w id|w code ids d Hd|w id fetched cfg|w id|w code ids d Hd];
    pose proof (gd_db _ _ _ Hg) as Hrows.
  - pose proof (λ rule body ct c, learns_page h w code cfg rules method path rawQuery r rule body ct c Hg Hrules) as Hl.
    assert (Hg' : good w0 ([Answered method path rawQuery r] ++ h) w) by (apply good_more; [intros r0; by repeat constructor|done]). clear Hg Hrules Hrows.
    induction ((checkAndHandleTamper sha256 decode _ method path rawQuery r).2) as [|e es IH] in w, Hl, Hg' |- *; [done|]. cbn [foldl]. apply IH; [intros rule body ct c Hin; apply Hl; by right|].
    destruct e as [rule body ct c| |]; [|done..]. apply good_capture; [|done]. apply Hl. left.
  - assert (Hgl : good w0 ([Stored (jRule j) (jBody j) (jType j) (jCode j)] ++ h) (with_db w (store sha256 j (db w)))) by (apply good_db; [done|by eapply store_rows]).
    by apply (good_staged _ _ pre j Notifying post Hgl).
  - by apply good_notify, good_staged.
  - destruct Hg as [H1 H2 H3 H4 Hnd Hl]. rewrite Ej, map_app in Hnd, Hl. cbn [map] in Hnd, Hl. rewrite <- Permutation_middle in Hnd. apply NoDup_cons in Hnd as [Hj Hnd].
    split; cbn [db engine chan jobs tamperLearning app]; [done|done|done| |by rewrite map_app|].
    + rewrite Ej in H4. apply Forall_app in H4 as [Ha Hb]. apply Forall_app. split; [done|]. by inversion Hb.
    + rewrite map_app, <- Hl, !list_to_set_app_L. cbn [list_to_set]. rewrite elem_of_app in Hj. apply set_eq. intros x.
      rewrite elem_of_difference, !elem_of_union, elem_of_singleton, !elem_of_list_to_set. split; [|tauto]. intros Hx. split; [tauto|]. by intros ->.
  - destruct Hg as [H1 H2 H3 H4 H5 H6]. rewrite Ec in H3. apply Forall_cons in H3 as [Hm H3]. split; cbn [db engine chan jobs tamperLearning app]; [done| |done..].
    destruct (engine w !! code); [|done]. apply map_Forall_insert_2; [exact Hm|done].
  - by apply good_notify.
  - unfold AddApi in Hd. destruct (validateTamperUrl url); [|done]. injection Hd as <-. apply good_db; [done|]. apply (rows_grown _ (db w)); [done|].
    intros r [?|Hr%list_elem_of_singleton]%elem_of_app; [by left|right; by subst].
  - apply good_db; [done|]. apply (rows_grown _ (db w)); [done|]. intros r. apply add_batch_rows.
  - apply good_db; [done|]. by eapply modify_rows.
  - apply good_db; [done|]. apply rows_update; [| |done]; intros r Hid; unfold has_id in Hid.
    + intros [_ Hk]. split; [by apply sealed_unlearned|]. by apply (known_more [_]).
    + apply bool_decide_eq_false in Hid. constructor; [|constructor]. cbn. congruence.
  - unfold RelearnBatchApi in Hd. case_bool_decide; [done|]. injection Hd as <-. apply (good_db []); [done|]. apply (rows_update []); [|by intros; constructor|done].
    intros r _ [_ Hk]. split; [by apply sealed_unlearned|done].
  - apply good_db; [done|]. by apply fetch_rows.
  - apply (good_db []); [done|]. by apply rows_filter.
  - unfold DelBatchApi in Hd. case_bool_decide; [done|]. injection Hd as <-. apply (good_db []); [done|]. by apply rows_filter.
Qed.
Lemma started_good : started w0 → good w0 [] w0.
Proof.
  intros (H1 & H2 & H3 & H4). assert (Hrow : ∀ r, old w0 r → row_ok w0 [] r).
  { intros r Ho. split; [|left; by exists r]. intros Hr. split; [by apply H1|]. left. exists r. split_and!; done. }
  split; [apply Forall_forall; intros r Hr; apply Hrow; by left| |by rewrite H2|by rewrite H3|rewrite H3; constructor|by rewrite H3, H4].
  intros code rules Hc. apply Forall_forall. intros r Hr. apply copied_now, Hrow. right. by exists code, rules.
Qed.
Lemma reachable_good h w : started w0 → runs sha256 decode w0 h w → good w0 h w.
Proof. intros Hs Hr. induction Hr as [|h w l w' _ IH Hst]; [by apply started_good|]. by eapply step_good. Qed.
End origins.




(** One rule is learned by one job at a time. *)
Lemma one_learner w0 h w : started w0 → runs sha256 decode w0 h w → NoDup (map jRule (jobs w)).
Proof. intros H0 Hr. apply (gd_single _ _ _ (reachable_good w0 h w H0 Hr)). Qed.

#[local] Transparent tamperExtractMaxBody.
(** A body longer than the fetch limit is cut, and the piece becomes the baseline. *)
Lemma relearn_truncates rows id ct whole cfg r : r ∈ rows → Id r = id → (tamperExtractMaxBody < length whole)%nat → Z.of_nat tamperExtractMaxBody ≤ MaxSizeKB cfg * 1024 →
  ∃ r', r' ∈ fetchAndCaptureBaseline sha256 rows id (Some (200, ct, whole)) cfg ∧ Id r' = id ∧ BaselineStatus r' = 1 ∧ (length (BaselineContent r') < length whole)%nat.
Proof.
  intros Hin Hid Hlen Hmax. unfold fetchAndCaptureBaseline. set (body := take tamperExtractMaxBody whole). assert (Hl : length body = tamperExtractMaxBody) by (apply length_take_le; lia).
  assert (Hpos : (0 < tamperExtractMaxBody)%nat) by (by unfold tamperExtractMaxBody; apply Nat.mul_pos_pos; [apply Nat.mul_pos_pos|]; lia). rewrite bool_decide_false by (intros E; rewrite E in Hl; change (length []) with 0%nat in Hl; lia). cbn [Z.eqb Pos.eqb negb orb].
  unfold overBaselineCap. destruct (Z.leb_spec (MaxSizeKB cfg) 0); [lia|]. destruct (Z.ltb_spec (MaxSizeKB cfg * 1024) (Z.of_nat (length body))); [lia|].
  exists (learned sha256 body ct 200 r). split; [|split; [exact Hid|split; [done|change (BaselineContent (learned sha256 body ct 200 r)) with body; lia]]]. unfold update_where. apply list_elem_of_fmap. exists r. split; [|done]. unfold has_id. by rewrite bool_decide_true.
Qed.
End facts.

(** ** Examples and witnesses *)

Section examples.
#[local] Instance tamper_case : UnicodeCase := {| unicode_to_lower s := s |}.
Definition no_decoder (_ _ : gostr) : option gostr := None.
Definition same (s : gostr) : gostr := s.
Definition unlearned : TamperRule := mkRule $"r1" $"h1" $"/index.html" 1 1 [] [] [] 0 0 0.
Definition fresh : world := mkWorld [unlearned] {[ $"h1" := [unlearned] ]} ∅ [] [].
Definition replacing : TamperConfig := mkConfig 1 $"replace" 1024.
Definition answer (body : gostr) : response := mkResp 200 ∅ body.
Notation visit w body := (foldl (run_effect replacing) w (checkAndHandleTamper same no_decoder (Some (replacing, [unlearned])) $"GET" $"/index.html" [] (answer body)).2).
Definition learning_job (body : gostr) (s : stage) : job := mkJob $"r1" $"h1" body [] 200 1024 s.

Definition stored (body : gostr) : world :=
  mkWorld [learned same body [] 200 unlearned] {[ $"h1" := [unlearned] ]} {[ $"r1" ]} [learning_job body Notifying] [].
Definition told (body : gostr) : world :=
  mkWorld [learned same body [] 200 unlearned] {[ $"h1" := [unlearned] ]} ∅ [] [($"h1", [learned same body [] 200 unlearned])].
Definition seen (body : gostr) : event := Answered $"GET" $"/index.html" [] (answer body).
Definition kept (body : gostr) : event := Stored $"r1" body [] 200.
Definition learning (body : gostr) : world := mkWorld [unlearned] {[ $"h1" := [unlearned] ]} {[ $"r1" ]} [learning_job body Storing] [].

Lemma learning_runs body : body ≠ [] → runs same no_decoder fresh [seen body] (learning body).
Proof.
  intros Hne. destruct body as [|c body]; [done|]. set (b := c :: body) in *.
  assert (E1 : visit fresh b = learning b) by (unfold learning; rewrite <- (union_empty_r_L {[ $"r1" ]}); reflexivity).
  pose proof (runs_more same no_decoder fresh [] fresh _ _ (runs_none _ _ _) (st_response same no_decoder fresh $"h1" replacing [unlearned] $"GET" $"/index.html" [] (answer b) eq_refl)) as Hr.
  rewrite E1 in Hr. exact Hr.
Qed.
Lemma stored_runs body : body ≠ [] → (length body ≤ 10)%nat → runs same no_decoder fresh [kept body; seen body] (stored body).
Proof.
  intros Hne Hl. assert (Hcap : overBaselineCap (Z.of_nat (length body)) 1024 = false) by (unfold overBaselineCap; cbn [Z.leb Z.compare]; apply Z.ltb_ge; lia).
  assert (E2 : store same (learning_job body Storing) [unlearned] = [learned same body [] 200 unlearned]) by (unfold store; cbn [jBody jMax learning_job]; rewrite Hcap; reflexivity).
  pose proof (runs_more same no_decoder fresh _ _ _ _ (learning_runs body Hne) (st_store same no_decoder (learning body) [] (learning_job body Storing) [] eq_refl eq_refl)) as Hr.
  cbn [db engine tamperLearning chan app learning] in Hr. rewrite E2 in Hr. exact Hr.
Qed.
Lemma told_runs body : body ≠ [] → (length body ≤ 10)%nat → runs same no_decoder fresh [kept body; seen body] (told body).
Proof.
  intros Hne Hl. pose proof (runs_more same no_decoder fresh _ _ _ _ (stored_runs body Hne Hl) (st_notify same no_decoder (stored body) [] (learning_job body Notifying) [] eq_refl eq_refl)) as Hr.
  match type of Hr with runs _ _ _ _ ?w => pose proof (runs_more same no_decoder fresh _ _ _ _ Hr (st_finish same no_decoder w [] (learning_job body Finishing) [] eq_refl eq_refl)) as Hf end.
  cbn [notifyTamperReload db engine tamperLearning jobs chan app stored jRule learning_job] in Hf. unfold told. rewrite difference_diag_L in Hf. exact Hf.
Qed.

(** Between the end of a job and the arrival of the reload a second visit learns again:
    the baseline is replaced by what the backend sends then. *)
Lemma baseline_overwritten : ∃ h1 w1 h2 w2, runs same no_decoder fresh h1 w1 ∧ map BaselineContent (db w1) = [$"original"] ∧ map BaselineStatus (db w1) = [1] ∧
  runs same no_decoder w1 h2 w2 ∧ map BaselineContent (db w2) = [$"altered"].
Proof.
  exists [kept $"original"; seen $"original"], (told $"original"). do 2 eexists. split; [by apply told_runs; [|cbn; lia]|]. split; [done|]. split; [done|]. split.
  - eapply (runs_more _ _ _ [seen $"altered"]).
    + eapply (runs_more _ _ _ [] _ [seen $"altered"]); [apply runs_none|]. by apply (st_response same no_decoder _ $"h1" replacing [unlearned]).
    + by apply (st_store same no_decoder _ [] (learning_job $"altered" Storing) []).
  - by vm_compute.
Qed.

(** A job that is under way when its rule is moved writes the page of the old address as
    the baseline of the new one. *)
Lemma moved_while_learning : ∃ h w, runs same no_decoder fresh h w ∧ map Url (db w) = [$"/other.html"] ∧ map BaselineStatus (db w) = [1] ∧
  map BaselineContent (db w) = [$"index"] ∧ h = [kept $"index"; Renamed $"r1" $"/other.html"; seen $"index"].
Proof.
  do 2 eexists. split.
  - eapply (runs_more _ _ _ [Renamed $"r1" $"/other.html"; seen $"index"] _ [kept $"index"]).
    + eapply (runs_more _ _ _ [seen $"index"] _ [Renamed $"r1" $"/other.html"]); [by apply learning_runs|]. by apply (st_modify same no_decoder _ $"r1" $"h1" $"/other.html" 1 1).
    + by apply (st_store same no_decoder _ [] (learning_job $"index" Storing) []).
  - by vm_compute.
Qed.

End examples.
End Tamper.
