(* ===== verification/StaticSite.v ===== *)
(** * Files served by the server itself (wafenginecore/static_server.go, wafenginecore/wafcaptcha/service.go)

    A site may be a directory, and the challenge pages have files of their own.  Both
    turn the path of a request into the name of a file and must stay inside their
    directory.  Package filepath is modelled as it is on Unix (it is package path there);
    the file system is a parameter, links in it are not followed by the model, and what
    http.ServeFile does with the name it is given is left to package http. *)
From S2P Require Import Prelude.
From S2P Require Import GoLib.
From S2P Require Import GoHttp.
From S2P Require Import GoUrl.
From S2P Require Import Lines.
From S2P Require Import Referers.
From S2P Require Import Tamper.
Local Open Scope Z_scope.
Local Open Scope bool_scope.

(** ** Package filepath *)

(** [filepath.Join(a, b)] and [filepath.Base]. *)
Definition path_join (a b : gostr) : gostr :=
  match a with [] => match b with [] => [] | _ => path_clean b end | _ => path_clean (a ++ $"/" ++ b) end.
Definition path_base (p : gostr) : gostr :=
  match p with
  | [] => $"."
  | _ =>
      let p := trim_right p "/" in
      match p with [] => $"/" | _ => match last_index_byte p "/" with Some i => drop (S i) p | None => p end end
  end.
(** What [os.Stat] says: [os.IsNotExist], [os.IsPermission], another error. *)
Inductive stat := Missing | Denied | Broken | AFile | ADir.
Class Files := { Getwd : option gostr; Stat : gostr → stat; ReadFile : gostr → option gostr }.
Definition Abs `{Files} (p : gostr) : option gostr :=
  if has_prefix p $"/" then Some (path_clean p) else (λ wd, path_join wd p) <$> Getwd.

(** Patterns made of literal bytes and classes; [found p s] is an unanchored match. *)
Definition pattern : Type := list gostr.
Definition lit (s : gostr) : pattern := map (λ c, [c]) s.
Fixpoint matches_at (p : pattern) (s : gostr) : bool :=
  match p, s with
  | [], _ => true
  | set :: p', c :: s' => one_of c set && matches_at p' s'
  | _ :: _, [] => false
  end.
Fixpoint found (p : pattern) (s : gostr) : bool := matches_at p s || match s with [] => false | _ :: s' => found p s' end.

Module StaticSite.

Record SecurityHeader := mkSecHeader { HeaderName : gostr; HeaderValue : gostr }.
Record StaticSiteConfig := mkSite {
  StaticSitePath : gostr; StaticSitePrefix : gostr; SensitivePaths : gostr; SensitiveExtensions : gostr;
  AllowedExtensions : gostr; SensitivePatterns : gostr; SecurityHeaders : list SecurityHeader; SpaFallback : Z }.

(** ** The lists *)

Definition splitConfigString (configStr : gostr) : list gostr :=
  if bool_decide (configStr = []) then [] else List.filter (λ p, negb (bool_decide (p = []))) (map trim_space (split configStr ",")).
Definition getDefaultSensitivePathsString : gostr := $"/etc/passwd,/etc/shadow,/etc/group,/etc/gshadow,/etc/hosts,/etc/hostname,/etc/resolv.conf,/etc/ssh/,/var/log/,/.ssh/,/.bash_history,/.profile,/.bashrc,/etc/crontab,/var/spool/cron/,/etc/apache2/,/etc/nginx/,/etc/httpd/,/var/www/,/usr/share/,/var/tmp/,/var/run/,c:\windows\,c:\program files\,c:\program files (x86)\,c:\users\,c:\documents and settings\,c:\windows\system32\,c:\windows\syswow64\,c:\boot.ini,c:\autoexec.bat,c:\config.sys,\windows\,\program files\,\program files (x86)\,\users\,\documents and settings\,\windows\system32\,\windows\syswow64\,boot.ini,autoexec.bat,config.sys,ntuser.dat,pagefile.sys,hiberfil.sys,swapfile.sys".
Definition getDefaultSensitiveExtensionsString : gostr := $".key,.pem,.crt,.p12,.pfx,.jks,.bak,.backup,.old,.orig,.save,.sql,.db,.sqlite,.mdb,.env,.htaccess,.htpasswd,.git,.svn,.hg,.bzr,.DS_Store,Thumbs.db,desktop.ini,.tmp,.temp,.lock,.pid".
Definition getDefaultAllowedExtensionsString : gostr := $".html,.htm,.css,.js,.mjs,.cjs,.json,.map,.png,.jpg,.jpeg,.gif,.svg,.ico,.webp,.avif,.pdf,.txt,.md,.xml,.woff,.woff2,.ttf,.eot,.otf,.mp4,.webm,.ogg,.mp3,.wav,.zip,.tar,.gz,.rar".
Definition getDefaultSensitivePatternsString : gostr := $"(?i)\.git(/|\\),(?i)\.svn(/|\\),(?i)\.env,(?i)database\.(php|xml|json|yaml|yml),(?i)(backup|dump|export)\.(sql|db|tar|zip|gz),(?i)(id_rsa|id_dsa|id_ecdsa|id_ed25519),(?i)\.ssh(/|\\).*,(?i)(access|error|debug)\.log,(?i)web\.config,(?i)phpinfo\.php".
Definition configured (own default_ : gostr) : list gostr := splitConfigString (if bool_decide (own = []) then default_ else own).
Definition getSensitivePathsFromConfig (config : StaticSiteConfig) : list gostr := configured (SensitivePaths config) getDefaultSensitivePathsString.
Definition getSensitiveExtensionsFromConfig (config : StaticSiteConfig) : list gostr := configured (SensitiveExtensions config) getDefaultSensitiveExtensionsString.
Definition getAllowedExtensionsFromConfig (config : StaticSiteConfig) : list gostr := configured (AllowedExtensions config) getDefaultAllowedExtensionsString.
Definition getSensitivePatternsFromConfig (config : StaticSiteConfig) : list gostr := configured (SensitivePatterns config) getDefaultSensitivePatternsString.

(** ** The checks of a path *)

Definition slash : gostr := $"\/".
Definition pathTraversalPatterns : list pattern :=
  [lit $".." ++ [slash]; [slash] ++ lit $".." ++ [slash]; lit $"%2e%2e" ++ [slash]; lit $"%2e%2e%2f"; lit $"%2e%2e%5c"; lit $".." ++ [$"\/%"];
   lit $"%252e%252e"; lit $"%c0%ae%c0%ae"; lit $"%uff0e%uff0e"; [slash; slash]; lit $"\\"].
Definition suspiciousPatterns : list gostr :=
  [$"../"; $"..\"; $".../"; $"...\"; $"%2e%2e%2f"; $"%2e%2e/"; $"..%2f"; $"%2e%2e%5c"; $"..%5c"; $"\\"; $"//"; $"%252e"; $"%c0%ae"; $"%uff0e"].
Definition encodedThreats : list gostr :=
  [$"%252e"; $"%c0%ae"; $"%uff0e"; $"%2e%2e%2f"; $"%2e%2e%5c"; $"..%c0%af"; $"..%ef%bc%8f"; $"..%c1%9c"; $"..%c1%pc"].

Section static.
Context `{UnicodeCase} `{Regexp}.

Definition containsPathTraversal (filePath : gostr) : bool :=
  let lowerPath := to_lower filePath in
  existsb (λ p, found p lowerPath) pathTraversalPatterns || existsb (contains lowerPath) suspiciousPatterns.
Definition containsEncodedThreats (filePath : gostr) : bool := existsb (contains (to_lower filePath)) encodedThreats.
Definition isSensitivePath (filePath : gostr) (config : StaticSiteConfig) : bool :=
  existsb (λ p, contains (to_lower filePath) (to_lower p)) (getSensitivePathsFromConfig config).
Definition isSensitiveFile (filePath : gostr) (config : StaticSiteConfig) : bool :=
  let lowerPath := to_lower filePath in
  let fileName := path_base lowerPath in
  existsb (has_suffix fileName) (getSensitiveExtensionsFromConfig config)
  || existsb (λ p, bool_decide (regexp_match p lowerPath = Some true)) (getSensitivePatternsFromConfig config)
  || (has_prefix fileName $"." && negb (bool_decide (fileName = $".")) && negb (bool_decide (fileName = $".."))).
Definition isAllowedFileType (filePath : gostr) (config : StaticSiteConfig) : bool :=
  let ext := to_lower (path_ext filePath) in
  negb (bool_decide (ext = [])) && bool_decide (ext ∈ getAllowedExtensionsFromConfig config).

(** The built-in headers: none at present.  The last header of a name wins in the map;
    the headers that are not built in are set in order. *)
Definition defaultSecurityHeaders : list (gostr * gostr) := [].
Definition headers := gmap gostr (list gostr).
Definition userHeaders (config : StaticSiteConfig) : gmap gostr gostr :=
  foldl (λ m h, if bool_decide (HeaderName h = []) then m else <[to_lower (HeaderName h) := HeaderValue h]> m) ∅ (SecurityHeaders config).
Definition setSecurityHeaders (h : headers) (config : StaticSiteConfig) : headers :=
  let defaults (f : gostr → gostr → gostr) := foldl (λ h d, Tamper.hdr_set h d.1 (f d.1 d.2)) h defaultSecurityHeaders in
  if bool_decide (SecurityHeaders config = []) then defaults (λ _ v, v)
  else
    let user := userHeaders config in
    let h1 := defaults (λ n v, match user !! to_lower n with Some [] | None => v | Some u => u end) in
    let written n := existsb (λ d : gostr * gostr, bool_decide (to_lower d.1 = n) && bool_decide (is_Some (user !! to_lower d.1))) defaultSecurityHeaders in
    foldl (λ h x, if bool_decide (HeaderName x = []) || bool_decide (HeaderValue x = []) || written (to_lower (HeaderName x)) then h
                  else Tamper.hdr_set h (HeaderName x) (HeaderValue x)) h1 (SecurityHeaders config).

(** ** The answer *)

Inductive event := evMethod | evLength | evEncoded | evTraversal | evSensitivePath | evSensitiveFile | evCleaned | evOutside | evPermission | evDirectory | evType.
Inductive reply := Refused (status : Z) (why : option event) | Served (file : gostr) (compressed : bool) | Baseline (rule : Tamper.TamperRule).

Context `{Files} (sha256 : gostr → gostr).

(** [checkAndServeStaticTamper]: the rule whose baseline is sent, and what is left to do. *)
Definition checkAndServeStaticTamper (cfg : Tamper.TamperConfig) (rules : list Tamper.TamperRule) (method path rawQuery absFullPath contentType : gostr) : option Tamper.TamperRule * list Tamper.effect :=
  if negb (Tamper.IsEnable cfg =? 1) then (None, [])
  else if negb (equal_fold method $"GET") then (None, [])
  else match Tamper.matchTamperRule rules path with
       | None => (None, [])
       | Some rule =>
           if (Tamper.IgnoreQuery rule =? 0) && negb (bool_decide (rawQuery = [])) then (None, [])
           else match ReadFile absFullPath with
                | None | Some [] => (None, [])
                | Some content =>
                    match Tamper.evaluateTamper (Tamper.sha256Hex sha256 content) rule with
                    | Tamper.tamperCapture => (None, [Tamper.Learn rule content contentType 200])
                    | Tamper.tamperPass | Tamper.tamperSkip => (None, [])
                    | Tamper.tamperTampered =>
                        let replaced := negb (bool_decide (Tamper.Action cfg = $"alert")) in
                        if replaced then (Some rule, [Tamper.Detected rule replaced; Tamper.Logged]) else (None, [Tamper.Detected rule replaced])
                    end
                end
       end.

(** The page of a single-page application, when there is one. *)
Definition spaFallback (config : StaticSiteConfig) : option gostr :=
  if negb (SpaFallback config =? 1) then None
  else let indexPath := path_join (StaticSitePath config) $"index.html" in
       match Stat indexPath with AFile => Some indexPath | _ => None end.
Definition or_spa (config : StaticSiteConfig) (r : reply) : reply := match spaFallback config with Some f => Served f false | None => r end.

(** [content_type] is what package mime says of the file, [compress] whether the site
    compresses answers. *)
Definition serveStaticFile (config : StaticSiteConfig) (tamper : Tamper.TamperConfig) (rules : list Tamper.TamperRule) (compress : bool)
    (method path rawQuery content_type : gostr) : reply * list Tamper.effect :=
  let refuse s e := (Refused s (Some e), []) in
  if negb (bool_decide (method = $"GET")) && negb (bool_decide (method = $"HEAD")) then refuse 405 evMethod
  else if (1024 <? length path)%nat then refuse 414 evLength
  else
    let relativePath := match trim_prefix path (StaticSitePrefix config) with [] => $"index.html" | p => p end in
    if containsEncodedThreats relativePath then refuse 403 evEncoded
    else if containsPathTraversal relativePath then refuse 403 evTraversal
    else if isSensitivePath relativePath config then refuse 403 evSensitivePath
    else if isSensitiveFile relativePath config then refuse 403 evSensitiveFile
    else
      let cleanPath := path_clean relativePath in
      if containsPathTraversal cleanPath then refuse 403 evCleaned
      else
        match Abs (StaticSitePath config), Abs (path_join (StaticSitePath config) cleanPath) with
        | Some absBasePath, Some absFullPath =>
            if negb (has_prefix absFullPath absBasePath) then refuse 403 evOutside
            else match Stat absFullPath with
                 | Missing => (or_spa config (Refused 404 None), [])
                 | Denied => refuse 403 evPermission
                 | Broken => (Refused 500 None, [])
                 | ADir =>
                     let indexInDir := path_join absFullPath $"index.html" in
                     match Stat indexInDir with
                     | AFile => (Served indexInDir false, [])
                     | _ => (or_spa config (Refused 403 (Some evDirectory)), [])
                     end
                 | AFile =>
                     if negb (isAllowedFileType absFullPath config) then (or_spa config (Refused 403 (Some evType)), [])
                     else
                       let '(baseline, es) := checkAndServeStaticTamper tamper rules method path rawQuery absFullPath content_type in
                       match baseline with Some rule => (Baseline rule, es) | None => (Served absFullPath compress, es) end
                 end
        | _, _ => (Refused 500 None, [])
        end.
End static.

(** ** The files of the challenge pages *)

Section challenge.
Context `{Files} (currentDir : gostr).
Definition challenge_threats : list gostr := [$"../"; $"..\"; $"%2e%2e%2f"; $"%2e%2e/"; $"..%2f"; $"%2e%2e%5c"; $"..%5c"; $"\\"; $"//"].
Definition challengeTraversal (filePath : gostr) : bool := existsb (contains filePath) challenge_threats.
Definition content_types : list (gostr * gostr) :=
  [($".css", $"text/css"); ($".js", $"application/javascript"); ($".html", $"text/html"); ($".png", $"image/png"); ($".jpg", $"image/jpeg"); ($".jpeg", $"image/jpeg"); ($"wasm", $"application/wasm")].
(** The content type set before, and the file or the status. *)
Definition ServeStaticFile (filePath : gostr) (capJs : bool) : option gostr * reply :=
  if challengeTraversal filePath then (None, Refused 403 None)
  else
    let cleanPath := path_clean filePath in
    let cleanPath := match cleanPath with c :: r => if Ascii.eqb c "/" || Ascii.eqb c "\" then r else cleanPath | [] => [] end in
    let ct := snd <$> List.find (λ t, has_suffix cleanPath t.1) content_types in
    let basePath := currentDir ++ (if capJs then $"/data/capjs/" else $"/data/captcha/") in
    let fullPath := path_join basePath cleanPath in
    if negb (has_prefix (default [] (Abs fullPath)) (default [] (Abs basePath))) then (ct, Refused 403 None)
    else match Stat fullPath with Missing => (ct, Refused 404 None) | _ => (ct, Served fullPath false) end.
End challenge.

(** ** Cleaned paths *)

(** The elements of an absolute path. *)
Definition comps (p : gostr) : list gostr := reverse (foldl (clean_step true) [] (split p "/")).
Definition plain_elem (e : gostr) : Prop := e ≠ [] ∧ e ≠ $"." ∧ e ≠ $".." ∧ "/"%char ∉ e.
(** A stack of elements, the last first: those that go up are at the bottom. *)
Definition tidy (s : list gostr) : Prop := ∃ n, ∃ l, s = l ++ replicate n $".." ∧ Forall plain_elem l.

Lemma step_plain r acc e : plain_elem e → clean_step r acc e = e :: acc.
Proof. intros (H1 & H2 & H3 & _). unfold clean_step. by rewrite !bool_decide_false. Qed.
Lemma step_skip r acc e : e = [] ∨ e = $"." → clean_step r acc e = acc.
Proof. intros [-> | ->]; done. Qed.
Lemma step_rooted acc e : Forall plain_elem acc → "/"%char ∉ e → Forall plain_elem (clean_step true acc e).
Proof.
  intros Ha He. unfold clean_step. destruct (bool_decide_reflect (e = [])) as [|H1]; [done|]. cbn [orb]. destruct (bool_decide_reflect (e = $".")) as [|H2]; [done|].
  destruct (bool_decide_reflect (e = $"..")) as [|H3]; [|by constructor]. destruct Ha as [|x acc Hx Ha]; [done|]. destruct Hx as (_ & _ & Hx & _). by rewrite bool_decide_false.
Qed.
Lemma fold_rooted l acc : Forall plain_elem acc → Forall (λ e, "/"%char ∉ e) l → Forall plain_elem (foldl (clean_step true) acc l).
Proof. intros Ha Hl. revert acc Ha. induction Hl as [|e l He Hl IH]; intros acc Ha; [done|]. cbn [foldl]. by apply IH, step_rooted. Qed.
Lemma split_elems p : Forall (λ e, "/"%char ∉ e) (split p "/").
Proof. apply Forall_forall. intros e He. by eapply split_byte_free. Qed.
Lemma comps_plain p : Forall plain_elem (comps p).
Proof. unfold comps. apply Forall_reverse, fold_rooted; [constructor|apply split_elems]. Qed.
Lemma fold_plain r l acc : Forall plain_elem l → foldl (clean_step r) acc l = reverse l ++ acc.
Proof.
  intros Hl. revert acc. induction Hl as [|e l He Hl IH]; intros acc; [done|]. cbn [foldl]. rewrite step_plain by done. rewrite IH, reverse_cons, <- app_assoc. done.
Qed.

(** Cleaning the relative part first makes no difference. *)
Lemma step_up acc : Forall plain_elem acc → clean_step true acc $".." = tail acc.
Proof.
  intros Ha. unfold clean_step. rewrite (bool_decide_false ($".." = [])), (bool_decide_false ($".." = $".")), (bool_decide_true ($".." = $"..")) by done. cbn [orb].
  destruct Ha as [|x acc (_ & _ & Hx & _) Ha]; [done|]. by rewrite bool_decide_false.
Qed.
Lemma tidy_step s e : tidy s → "/"%char ∉ e → tidy (clean_step false s e).
Proof.
  intros (n & l & -> & Hl) He. unfold clean_step. destruct (bool_decide_reflect (e = [])) as [|H1]; [by exists n, l|]. cbn [orb]. destruct (bool_decide_reflect (e = $".")) as [|H2]; [by exists n, l|].
  destruct (bool_decide_reflect (e = $"..")) as [|H3].
  - destruct Hl as [|x l Hx Hl]; cbn [app].
    + exists (S n), []. split; [|constructor]. destruct n; [done|]. cbn [replicate]. by rewrite bool_decide_true.
    + destruct Hx as (_ & _ & Hx & _). rewrite bool_decide_false by done. by exists n, l.
  - exists n, (e :: l). split; [done|]. constructor; [by split_and!|done].
Qed.
Lemma rooted_ups n acc : Forall plain_elem acc → foldl (clean_step true) acc (replicate n $"..") = drop n acc.
Proof.
  revert acc. induction n as [|n IH]; intros acc Ha; [done|]. cbn [replicate foldl]. rewrite step_up by done. rewrite IH by (destruct Ha; [constructor|assumption]). destruct acc; [cbn [tail]; by rewrite !drop_nil|done].
Qed.
Lemma tidy_fold s acc : tidy s → Forall plain_elem acc → ∃ n l, s = l ++ replicate n $".." ∧ Forall plain_elem l ∧ foldl (clean_step true) acc (reverse s) = l ++ drop n acc.
Proof.
  intros (n & l & -> & Hl) Ha. exists n, l. split; [done|]. split; [done|]. rewrite reverse_app, foldl_app. assert (E : reverse (replicate n $"..") = replicate n $"..") by apply reverse_replicate.
  rewrite E, rooted_ups by done. rewrite fold_plain by by apply Forall_reverse. by rewrite reverse_involutive.
Qed.
Lemma fold_step s e acc : tidy s → "/"%char ∉ e → Forall plain_elem acc →
  foldl (clean_step true) acc (reverse (clean_step false s e)) = clean_step true (foldl (clean_step true) acc (reverse s)) e.
Proof.
  intros Hs He Ha. destruct (decide (e = [] ∨ e = $".")) as [E|E]; [by rewrite !step_skip|]. destruct (decide (e = $"..")) as [->|H3].
  - unfold clean_step at 2. rewrite (bool_decide_false ($".." = [])), (bool_decide_false ($".." = $".")), (bool_decide_true ($".." = $"..")) by done. cbn [orb].
    destruct Hs as (n & l & -> & Hl). destruct Hl as [|x l Hx Hl]; cbn [app].
    + assert (E' : match replicate n $".." with e :: acc' => if bool_decide (e = $"..") then $".." :: replicate n $".." else acc' | [] => [ $".." ] end = $".." :: replicate n $"..").
      { destruct n; [done|]. cbn [replicate]. by rewrite bool_decide_true. }
      rewrite E', reverse_cons, foldl_app. done.
    + destruct (bool_decide_reflect (x = $"..")) as [->|]; [by destruct Hx as (_ & _ & [] & _)|]. rewrite reverse_cons, foldl_app. cbn [foldl].
      rewrite (step_plain true _ x Hx). rewrite step_up; [done|]. constructor; [done|]. rewrite reverse_app, foldl_app. rewrite fold_plain by by apply Forall_reverse.
      apply Forall_app. split; [by apply Forall_reverse, Forall_reverse|]. rewrite reverse_replicate, rooted_ups by done. by apply Forall_drop.
  - rewrite (step_plain false s e) by (split_and!; tauto). rewrite reverse_cons, foldl_app. done.
Qed.
Lemma fold_relative l s acc : tidy s → Forall (λ e, "/"%char ∉ e) l → Forall plain_elem acc →
  foldl (clean_step true) acc (reverse (foldl (clean_step false) s l)) = foldl (clean_step true) (foldl (clean_step true) acc (reverse s)) l.
Proof.
  intros Hs Hl Ha. revert s Hs. induction Hl as [|e l He Hl IH]; intros s Hs; [done|]. cbn [foldl]. rewrite IH by by apply tidy_step. by rewrite fold_step.
Qed.

(** ** Absolute names *)

Lemma split_join l : l ≠ [] → Forall (λ e, "/"%char ∉ e) l → split (join l $"/") "/" = l.
Proof.
  intros Hne Hl. induction Hl as [|e l He Hl IH]; [done|]. destruct l as [|e' l]; [by apply split_free|].
  change (join (e :: e' :: l) $"/") with (e ++ "/"%char :: join (e' :: l) $"/"). rewrite split_cons_sep by done. by rewrite IH.
Qed.
Lemma plain_no_slash l : Forall plain_elem l → Forall (λ e, "/"%char ∉ e) l.
Proof. intros Hl. eapply Forall_impl; [exact Hl|]. intros e (_ & _ & _ & He). done. Qed.
Definition rooted (p : gostr) : bool := has_prefix p $"/".
Lemma rooted_cons c p : rooted (c :: p) = Ascii.eqb "/" c.
Proof. unfold rooted. change ($"/") with ["/"%char]. cbn [has_prefix]. destruct p; by rewrite andb_true_r. Qed.
Lemma fold_joined acc l : Forall plain_elem l → foldl (clean_step true) acc (split (join l $"/") "/") = reverse l ++ acc.
Proof.
  intros Hl. destruct l as [|e l]; [done|]. rewrite split_join by (done || by apply plain_no_slash). by apply fold_plain.
Qed.
Lemma rooted_name l : Forall plain_elem l → comps ($"/" ++ join l $"/") = l.
Proof.
  intros Hl. unfold comps. change ($"/" ++ join l $"/") with ([] ++ "/"%char :: join l $"/"). rewrite split_cons_sep by apply not_elem_of_nil. cbn [foldl].
  change (clean_step true [] []) with (@nil gostr). rewrite fold_joined by done. by rewrite app_nil_r, reverse_involutive.
Qed.
Lemma clean_rooted p : rooted p = true → path_clean p = $"/" ++ join (comps p) $"/".
Proof. unfold rooted. intros Hp. unfold path_clean, clean_elems, comps. rewrite Hp. destruct p; [done|]. by rewrite bool_decide_false. Qed.
Lemma clean_rooted_comps p : rooted p = true → comps (path_clean p) = comps p.
Proof. intros Hp. rewrite clean_rooted by done. apply rooted_name, comps_plain. Qed.
Lemma tidy_nil : tidy [].
Proof. exists 0%nat, []. split; [done|constructor]. Qed.
(** The elements of a relative path. *)
Lemma relative_elems q : Forall (λ e, "/"%char ∉ e ∧ e ≠ []) (reverse (foldl (clean_step false) [] (split q "/"))).
Proof.
  assert (Ht : tidy (foldl (clean_step false) [] (split q "/"))).
  { generalize (split_elems q). generalize (split q "/"). intros l Hl. generalize tidy_nil. generalize (@nil gostr).
    induction Hl as [|e l He Hl IH]; intros t Ht; [done|]. cbn [foldl]. by apply IH, tidy_step. }
  destruct Ht as (n & l & -> & Hl). apply Forall_reverse, Forall_app. split; [eapply Forall_impl; [exact Hl|]; by intros e (? & _ & _ & ?)|].
  apply Forall_replicate. split; [by refine (bool_decide_unpack _ _); vm_compute|done].
Qed.
(** A relative path, cleaned: nothing, or elements that are not empty. *)
Lemma clean_relative q : rooted q = false → path_clean q = $"." ∧ foldl (clean_step false) [] (split q "/") = [] ∨
  ∃ e l, reverse (foldl (clean_step false) [] (split q "/")) = e :: l ∧ path_clean q = join (e :: l) $"/" ∧ e ≠ [] ∧ "/"%char ∉ e.
Proof.
  unfold rooted. intros Hq. unfold path_clean. destruct (bool_decide_reflect (q = [])) as [->|Hne]; [by left|]. rewrite Hq. unfold clean_elems. rewrite Hq.
  pose proof (relative_elems q) as Hs. set (s := foldl (clean_step false) [] (split q "/")) in *. destruct (reverse s) as [|e l] eqn:Er.
  - left. split; [done|]. by rewrite <- (reverse_involutive s), Er.
  - right. exists e, l. apply Forall_cons in Hs as [[H1 H2] _]. assert (Hj : join (e :: l) $"/" ≠ []) by (destruct e; [done|by destruct l]).
    split; [done|]. split; [by destruct (join (e :: l) $"/")|done].
Qed.
Lemma fold_clean acc q : rooted q = false → Forall plain_elem acc → foldl (clean_step true) acc (split (path_clean q) "/") = foldl (clean_step true) acc (split q "/").
Proof.
  intros Hq Ha. pose proof (fold_relative (split q "/") [] acc tidy_nil (split_elems q) Ha) as E. change (foldl (clean_step true) acc (reverse [])) with acc in E. rewrite <- E. clear E.
  pose proof (relative_elems q) as Hs. destruct (clean_relative q Hq) as [[-> ->]|(e & l & Er & -> & _)]; [done|]. rewrite Er in *.
  rewrite split_join; [done|done|]. eapply Forall_impl; [exact Hs|]. by intros ? [? _].
Qed.
Lemma clean_unrooted q : rooted q = false → rooted (path_clean q) = false.
Proof.
  intros Hq. destruct (clean_relative q Hq) as [[-> _]|(e & l & _ & -> & He & Hs)]; [done|]. destruct e as [|c e]; [done|]. rewrite elem_of_cons in Hs.
  assert (E : ∃ r, join ((c :: e) :: l) $"/" = c :: r) by (destruct l; by eexists). destruct E as [r ->]. rewrite rooted_cons. apply Ascii.eqb_neq. intros E. naive_solver.
Qed.

Section paths.
Context `{Files} (Hwd : ∀ wd, Getwd = Some wd → rooted wd = true).

(** The stack from which the elements of [p] start. *)
Definition start (p : gostr) : list gostr := if rooted p then [] else match Getwd with Some wd => foldl (clean_step true) [] (split wd "/") | None => [] end.
Definition abs_stack (p : gostr) : list gostr := foldl (clean_step true) (start p) (split p "/").
Lemma start_plain p : Forall plain_elem (start p).
Proof. unfold start. destruct (rooted p); [constructor|]. destruct Getwd; [|constructor]. apply fold_rooted; [constructor|apply split_elems]. Qed.
Lemma abs_stack_plain p : Forall plain_elem (abs_stack p).
Proof. apply fold_rooted; [apply start_plain|apply split_elems]. Qed.

Lemma Abs_spec p f : Abs p = Some f → comps f = reverse (abs_stack p) ∧ f = $"/" ++ join (comps f) $"/".
Proof.
  unfold Abs, abs_stack, start. fold (rooted p). destruct (rooted p) eqn:Ep.
  - intros [= <-]. rewrite clean_rooted_comps by done. split; [done|]. by apply clean_rooted.
  - destruct Getwd as [wd|] eqn:Ew; [|done]. cbn [fmap option_fmap option_map]. intros [= <-]. specialize (Hwd wd eq_refl). unfold path_join. destruct wd as [|w wd]; [done|]. set (d := w :: wd) in *.
    assert (Hr : rooted (d ++ $"/" ++ p) = true) by (unfold rooted in *; apply has_prefix_split in Hwd as [r ->]; apply has_prefix_split; eexists; by rewrite <- app_assoc).
    rewrite clean_rooted_comps by done. split; [|by apply clean_rooted]. unfold comps. change (d ++ $"/" ++ p) with (d ++ "/"%char :: p). by rewrite split_app_sep, foldl_app.
Qed.
(** Joining adds the elements of the second path to those of the first. *)
Lemma abs_join a b : a ≠ [] → abs_stack (path_join a b) = foldl (clean_step true) (abs_stack a) (split b "/").
Proof.
  intros Ha. unfold path_join. destruct a as [|c a]; [done|]. set (d := c :: a) in *. unfold abs_stack.
  assert (Es : split (d ++ $"/" ++ b) "/" = split d "/" ++ split b "/") by (change (d ++ $"/" ++ b) with (d ++ "/"%char :: b); by rewrite split_app_sep).
  assert (Hr : rooted (d ++ $"/" ++ b) = rooted d) by (unfold d; cbn [app]; by rewrite !rooted_cons). destruct (rooted d) eqn:Ed.
  - assert (Hc : rooted (path_clean (d ++ $"/" ++ b)) = true) by (rewrite clean_rooted by exact Hr; by apply (rooted_cons "/"%char)). unfold start. rewrite Hc, Ed.
    pose proof (clean_rooted_comps _ Hr) as E. unfold comps in E. apply (f_equal reverse) in E. rewrite !reverse_involutive in E. by rewrite E, Es, foldl_app.
  - assert (Hc : rooted (path_clean (d ++ $"/" ++ b)) = false).
    { apply clean_unrooted. by rewrite Hr. }
    unfold start. rewrite Hc, Ed. set (acc := match Getwd with Some _ => _ | None => _ end). assert (Hacc : Forall plain_elem acc).
    { unfold acc. destruct Getwd; [|constructor]. apply fold_rooted; [constructor|apply split_elems]. }
    by rewrite fold_clean, Es, foldl_app.
Qed.

(** ** Staying inside *)

Lemma fold_down l acc : Forall (λ e, "/"%char ∉ e) l → (∀ e, e ∈ l → e ≠ $"..") → ∃ k, foldl (clean_step true) acc l = reverse k ++ acc.
Proof.
  intros Hl. revert acc. induction Hl as [|e l He Hl IH]; intros acc Hd; [by exists []|]. cbn [foldl].
  assert (Hd' : ∀ e, e ∈ l → e ≠ $"..") by (intros x Hx; apply Hd; by right).
  destruct (decide (e = [] ∨ e = $".")) as [E|E]; [rewrite step_skip by done; by apply IH|]. rewrite step_plain.
  - destruct (IH (e :: acc) Hd') as [k ->]. exists (e :: k). by rewrite reverse_cons, <- app_assoc.
  - split_and!; [tauto|tauto|apply Hd; left|done].
Qed.
Lemma contains_middle a s b : contains (a ++ s ++ b) s = true.
Proof.
  induction a as [|c a IH]; cbn [app].
  - assert (Hp : has_prefix (s ++ b) s = true) by (apply has_prefix_split; by exists b). destruct (s ++ b); cbn [contains]; by rewrite Hp.
  - cbn [contains]. by rewrite IH, orb_true_r.
Qed.
Lemma join_middle a x y b : ∃ r1 r2, join (a ++ x :: y :: b) $"/" = r1 ++ (x ++ $"/") ++ r2.
Proof.
  induction a as [|e a (r1 & r2 & IH)]; cbn [app].
  - exists [], (join (y :: b) $"/"). by rewrite <- app_assoc.
  - exists (e ++ $"/" ++ r1), r2. rewrite <- !app_assoc. assert (E : join (e :: a ++ x :: y :: b) $"/" = e ++ $"/" ++ join (a ++ x :: y :: b) $"/") by (by destruct a). by rewrite E, IH, <- !app_assoc.
Qed.
(** Going up is either followed by a slash, or the last element. *)
Lemma up_last p : contains p $"../" = false → (∀ e, e ∈ split p "/" → e ≠ $"..") ∨ ∃ pre, split p "/" = pre ++ [ $".." ] ∧ ∀ e, e ∈ pre → e ≠ $"..".
Proof.
  intros Hc. destruct (decide ($".." ∈ split p "/")) as [Hin|Hn]; [|left; intros e He ->; done]. right. apply list_elem_of_split in Hin as (pre & post & E).
  assert (Hp : ∀ a x b, split p "/" = a ++ $".." :: x :: b → False).
  { intros a x b E'. pose proof (join_split p "/") as Ej. rewrite E' in Ej. destruct (join_middle a $".." x b) as (r1 & r2 & Em). change [ "/"%char ] with $"/" in Ej. rewrite Em in Ej.
    pose proof (contains_middle r1 ($".." ++ $"/") r2) as Hcon. rewrite Ej in Hcon. change ($".." ++ $"/") with $"../" in Hcon. congruence. }
  destruct post as [|x post]; [|by destruct (Hp pre x post)]. exists pre. split; [done|]. intros e He ->. apply list_elem_of_split in He as (a & b & ->).
  destruct b as [|y b]; eapply (Hp a); rewrite E, <- app_assoc; done.
Qed.
Lemma join_longer l x : x ≠ [] → (length (join l $"/") < length (join (l ++ [x]) $"/"))%nat.
Proof.
  intros Hx. induction l as [|e l IH]; [destruct x; [done|cbn; lia]|]. destruct l as [|e' l]; cbn [app] in *.
  - change (join [e; x] $"/") with (e ++ $"/" ++ x). change (join [e] $"/") with e. rewrite !length_app. change (length $"/") with 1%nat. lia.
  - change (join (e :: e' :: l ++ [x]) $"/") with (e ++ $"/" ++ join (e' :: l ++ [x]) $"/"). change (join (e :: e' :: l) $"/") with (e ++ $"/" ++ join (e' :: l) $"/").
    rewrite !length_app. change (length $"/") with 1%nat. lia.
Qed.
Lemma prefix_length s p : has_prefix s p = true → (length p ≤ length s)%nat.
Proof. intros [r ->]%has_prefix_split. rewrite length_app. lia. Qed.

(** The check of the prefix is what keeps a path that goes up out. *)
Lemma inside dir cp base f : dir ≠ [] → contains cp $"../" = false → Abs dir = Some base → Abs (path_join dir cp) = Some f → has_prefix f base = true →
  ∃ k, comps f = comps base ++ k.
Proof.
  intros Hd Hc Hb Hf Hp. pose proof (abs_stack_plain dir) as Hpl. apply Abs_spec in Hb as [Hb Eb], Hf as [Hf Ef]. rewrite abs_join in Hf by done. rewrite Hb. revert Hf. destruct (up_last cp Hc) as [Hn|(pre & E & Hn)].
  - destruct (fold_down (split cp "/") (abs_stack dir) (split_elems cp) Hn) as [k ->]. intros ->. exists k. by rewrite reverse_app, reverse_involutive.
  - rewrite E, foldl_app. assert (Hpre : Forall (λ e, "/"%char ∉ e) pre) by (pose proof (split_elems cp) as Hs; rewrite E in Hs; by apply Forall_app in Hs as [? _]).
    destruct (fold_down pre (abs_stack dir) Hpre Hn) as [k Ek]. assert (Hk : Forall plain_elem (reverse k ++ abs_stack dir)) by (rewrite <- Ek; by apply fold_rooted).
    rewrite Ek. cbn [foldl]. rewrite step_up by done. destruct (reverse k) as [|x k'] eqn:Er; cbn [app tail].
    + destruct (abs_stack dir) as [|x s] eqn:Es; cbn [tail]; intros Hf; [exists []; by rewrite Hf|]. exfalso. apply prefix_length in Hp. rewrite Eb, Ef, Hb, Hf, reverse_cons, !length_app in Hp.
      pose proof (join_longer (reverse s) x) as Hj. apply Forall_cons in Hpl as [(Hx & _) _]. specialize (Hj Hx). lia.
    + intros ->. exists (reverse k'). by rewrite reverse_app.
Qed.
Lemma inside_more dir base name : dir ≠ [] → plain_elem name → Abs dir = Some base → ∃ f, Abs (path_join dir name) = Some f ∧ comps f = comps base ++ [name].
Proof.
  intros Hd Hn Hb. destruct (Abs (path_join dir name)) as [f|] eqn:Ef.
  - exists f. split; [done|]. apply Abs_spec in Hb as [Hb _], Ef as [Ef _]. rewrite Ef, abs_join, Hb by done. rewrite split_free by apply Hn. cbn [foldl]. rewrite step_plain by done. by rewrite reverse_cons.
  - exfalso. unfold Abs in *. destruct (has_prefix (path_join dir name) $"/") eqn:E; [done|]. destruct Getwd eqn:Ew; [done|]. fold (rooted dir) in Hb. fold (rooted (path_join dir name)) in E.
    destruct (rooted dir) eqn:Er; [|done]. unfold path_join in E. destruct dir as [|c d]; [done|]. rewrite clean_rooted in E; [by pose proof (rooted_cons "/"%char (join (comps ((c :: d) ++ $"/" ++ name)) $"/")) as E2; change ("/"%char :: ?x) with ($"/" ++ x) in E2; rewrite E2 in E|]. cbn [app]. rewrite rooted_cons in *. done.
Qed.
End paths.

Section serving.
Context `{UnicodeCase} `{Regexp} `{Files} (sha256 : gostr → gostr).
(** The working directory is an absolute path, and lower-casing keeps dots and slashes. *)
Context (Hwd : ∀ wd, Getwd = Some wd → rooted wd = true) (Hlow : ∀ s, contains s $"../" = true → contains (unicode_to_lower s) $"../" = true).

Lemma prefix_lower s t : has_prefix s t = true → has_prefix (map lower_byte s) (map lower_byte t) = true.
Proof. intros [r ->]%has_prefix_split. rewrite map_app. apply has_prefix_split. by eexists. Qed.
Lemma contains_lower s t : contains s t = true → contains (map lower_byte s) (map lower_byte t) = true.
Proof.
  induction s as [|c s IH]; cbn [contains map]; rewrite !orb_true_iff; (intros [Hp|Hc]; [left; by apply prefix_lower in Hp|]); [done|]. right. by apply IH.
Qed.
Lemma no_up p : containsPathTraversal p = false → contains p $"../" = false.
Proof.
  intros Hc. apply not_true_iff_false. intros Hp. assert (Hl : contains (to_lower p) $"../" = true).
  { unfold to_lower. destruct (forallb is_ascii_byte p); [|by apply Hlow]. by apply (contains_lower p $"../"). }
  unfold containsPathTraversal in Hc. apply orb_false_iff in Hc as [_ Hc]. unfold suspiciousPatterns in Hc. cbn [existsb] in Hc. by rewrite Hl in Hc.
Qed.
Lemma Abs_again f : rooted f = true → f = $"/" ++ join (comps f) $"/" → Abs f = Some f.
Proof. unfold Abs, rooted. intros -> E. f_equal. rewrite clean_rooted; [done|]. rewrite E. by apply (rooted_cons "/"%char). Qed.
Lemma index_plain : plain_elem $"index.html".
Proof. split_and!; [done..|by refine (bool_decide_unpack _ _); vm_compute]. Qed.

Definition stays (config : StaticSiteConfig) (file : gostr) : Prop :=
  ∃ base f k, Abs (StaticSitePath config) = Some base ∧ Abs file = Some f ∧ comps f = comps base ++ k ∧ f = $"/" ++ join (comps f) $"/" ∧
    (isAllowedFileType file config = true ∨ last k = Some $"index.html").
Lemma spa_stays config base file : StaticSitePath config ≠ [] → Abs (StaticSitePath config) = Some base → spaFallback config = Some file → stays config file.
Proof.
  intros Hd Hb. unfold spaFallback. destruct (negb _); [done|]. destruct (Stat _); intros [= <-]. destruct (inside_more Hwd _ _ _ Hd index_plain Hb) as (f & Hf & Ec).
  exists base, f, [ $"index.html" ]. split_and!; [done|done|done|by apply Abs_spec in Hf as [_ ?]|by right].
Qed.
Lemma or_spa_served config r file c : or_spa config r = Served file c → spaFallback config = Some file ∨ r = Served file c.
Proof. unfold or_spa. destruct (spaFallback config); [intros [= -> _]; by left|by right]. Qed.

(** C23: only files of the site are served.  Whatever the path of a request is, the file
    handed to the file server, as an absolute name without dots or repeated slashes, lies
    in the directory of the site or below it; the method only reads; and the file has an
    extension of the list or is an index page. *)
Theorem static_inside config tamper rules compress method path rawQuery ct file c : StaticSitePath config ≠ [] →
  (serveStaticFile sha256 config tamper rules compress method path rawQuery ct).1 = Served file c →
  (method = $"GET" ∨ method = $"HEAD") ∧ stays config file.
Proof.
  intros Hd. unfold serveStaticFile. destruct (negb (bool_decide (method = $"GET")) && negb (bool_decide (method = $"HEAD"))) eqn:Em; [done|].
  intros Hserved. split; [apply andb_false_iff in Em as [Em|Em]; apply negb_false_iff, bool_decide_eq_true in Em; auto|]. revert Hserved. clear Em.
  destruct (1024 <? length path)%nat; [done|]. set (rel := match trim_prefix path _ with [] => _ | _ => _ end). destruct (containsEncodedThreats rel); [done|]. destruct (containsPathTraversal rel); [done|].
  destruct (isSensitivePath rel config); [done|]. destruct (isSensitiveFile rel config); [done|]. destruct (containsPathTraversal (path_clean rel)) eqn:Ec; [done|]. apply no_up in Ec.
  destruct (Abs (StaticSitePath config)) as [base|] eqn:Eb; [|done]. destruct (Abs (path_join (StaticSitePath config) (path_clean rel))) as [full|] eqn:Ef; [|done].
  destruct (negb (has_prefix full base)) eqn:Ep; [done|]. apply negb_false_iff in Ep. destruct (inside Hwd _ _ _ _ Hd Ec Eb Ef Ep) as [k Ek]. pose proof (Abs_spec Hwd _ _ Ef) as [_ En].
  assert (Hr : rooted full = true) by (rewrite En; by apply (rooted_cons "/"%char)). pose proof (Abs_again full Hr En) as Ea.
  destruct (Stat full) eqn:Est; cbn [fst].
  - intros [Hs|?]%or_spa_served; [|done]. by eapply spa_stays.
  - done.
  - done.
  - destruct (negb (isAllowedFileType full config)) eqn:Et; [intros [Hs|?]%or_spa_served; [by eapply spa_stays|done]|]. apply negb_false_iff in Et.
    destruct (checkAndServeStaticTamper _ _ _ _ _ _ _ _) as [[rule|] es]; cbn [fst]; [done|]. intros [= <- _]. exists base, full, k. split_and!; [done|done|done|done|by left].
  - destruct (Stat (path_join full $"index.html")).
    all: cbn [fst]; try (intros [Hs|?]%or_spa_served; [by eapply spa_stays|done]).
    intros [= <- _]. assert (Hne : full ≠ []) by (rewrite En; done). destruct (inside_more Hwd full full _ Hne index_plain Ea) as (f & Hf & Ecf).
    exists base, f, (k ++ [ $"index.html" ]). split_and!; [done|done|by rewrite Ecf, Ek, app_assoc|by apply (Abs_spec Hwd) in Hf as [_ ?]|right; apply last_snoc].
Qed.

End serving.

(** ** Examples and witnesses *)

Section examples.
#[local] Instance static_case : UnicodeCase := {| unicode_to_lower s := s |}.
#[local] Instance static_regexp : Regexp := {| regexp_match _ _ := Some false |}.
Definition demo_stat (p : gostr) : stat :=
  if bool_decide (p ∈ [ $"/srv/www/a.html"; $"/srv/www/.secret.txt"; $"/srv/www/dump.zip"; $"/srv/www/docs/index.html"; $"/srv/app2/plan.html" ]) then AFile
  else if bool_decide (p = $"/srv/www/docs") then ADir else Missing.
#[local] Instance demo_files : Files := {| Getwd := Some $"/srv/app"; Stat := demo_stat; ReadFile _ := Some $"altered" |}.
Definition site_at (dir : gostr) : StaticSiteConfig := mkSite dir $"/" [] $".zip" [] [] [] 0.
Definition no_tamper : Tamper.TamperConfig := Tamper.mkConfig 0 [] 0.
Definition get (config : StaticSiteConfig) (path : gostr) : reply := (serveStaticFile (λ s, s) config no_tamper [] false $"GET" path [] []).1.

(** The checks of the name look at the path before it is cleaned: a dot at the end hides
    a hidden file or an extension from them. *)
Example dot_bypass : map (get (site_at $"/srv/www")) [ $"/.secret.txt"; $"/.secret.txt/."; $"/dump.zip"; $"/dump.zip/." ] =
  [Refused 403 (Some evSensitiveFile); Served $"/srv/www/.secret.txt" false; Refused 403 (Some evSensitiveFile); Served $"/srv/www/dump.zip" false].
Proof. by vm_compute. Qed.
Example refused_paths : map (get (site_at $"/srv/www")) [ $"/../app2/plan.html"; $"/.."; $"/%2e%2e%2fx"; $"/a.html" ] =
  [Refused 403 (Some evTraversal); Refused 403 (Some evOutside); Refused 403 (Some evEncoded); Served $"/srv/www/a.html" false].
Proof. by vm_compute. Qed.
(** Without a directory, the prefix of the name is compared without a separator. *)
Example no_directory : get (site_at []) $"//srv/app2/plan.html" = Served $"/srv/app2/plan.html" false.
Proof. by vm_compute. Qed.
(** Capital letters in the list of extensions are never met. *)
Example capital_extension : map (λ f, isAllowedFileType f (mkSite [] [] [] [] $".TXT" [] [] 0)) [ $"/a.txt"; $"/a.TXT" ] = [false; false].
Proof. by vm_compute. Qed.
(** The index page of a directory is sent without a look at its baseline. *)
Definition docs_rule : Tamper.TamperRule := Tamper.mkRule $"r" $"h" $"/docs/" 1 1 $"00" $"original" [] 200 8 1.
Definition docs_page_rule : Tamper.TamperRule := Tamper.mkRule $"r" $"h" $"/docs/index.html" 1 1 $"00" $"original" [] 200 8 1.
Example index_unprotected :
  serveStaticFile (λ s, s) (site_at $"/srv/www") (Tamper.mkConfig 1 $"replace" 1024) [docs_rule] false $"GET" $"/docs/" [] [] = (Served $"/srv/www/docs/index.html" false, []) ∧
  (serveStaticFile (λ s, s) (site_at $"/srv/www") (Tamper.mkConfig 1 $"replace" 1024) [docs_page_rule] false $"GET" $"/docs/index.html" [] []).1 = Baseline docs_page_rule.
Proof. by vm_compute. Qed.
Example challenge_paths : map (λ p, (ServeStaticFile $"/opt/waf" p false).2) [ $".."; $"a/../../x"; $"\.."; $"none.js" ] = [Refused 403 None; Refused 403 None; Refused 403 None; Refused 404 None].
Proof. by vm_compute. Qed.

Lemma static_inside_witness : stays (site_at $"/srv/www") $"/srv/www/docs/index.html".
Proof.
  assert (Hs : (serveStaticFile (λ s, s) (site_at $"/srv/www") no_tamper [] false $"GET" $"/docs/." [] []).1 = Served $"/srv/www/docs/index.html" false) by (by vm_compute).
  refine (proj2 (static_inside (λ s, s) _ _ (site_at $"/srv/www") no_tamper [] false $"GET" $"/docs/." [] [] _ false _ Hs)); [by intros wd [= <-]|done|done].
Defined.
End examples.
End StaticSite.
