(* ===== verification/ManageAuth.v ===== *)
(** * The administration side: who may call it (middleware, api/waf_login.go, api/waf_account.go)

    Every call of the administration API goes through a chain of middleware functions:
    authentication by a session token or an API key, replay protection, the lists of
    allowed addresses and domains, the role.  The state is the cache of [WafCache], the
    tables of session tokens, accounts, second factors and API keys, and the request
    counters of the keys.  Bcrypt, TOTP, MD5, the cipher of the local key, the parsing of
    dates and the decoder of a request body are parameters; the answers are the refusal
    given, without its text.  SecApi, which decrypts bodies, and the call log are not
    modelled. *)
From S2P Require Import Prelude.
From S2P Require Import GoLib.
From S2P Require Import GoHttp.
From S2P Require Import GoUrl.
From S2P Require Import NetFacts.
From S2P Require Import WafCache.
From S2P Require Import AccessGate.
From S2P Require Import AccessAccount.
From S2P Require Import ClientIP.
From S2P Require Import Outbound.
Local Open Scope Z_scope.
Local Open Scope bool_scope.

Module ManageAuth.

(** ** Roles (enums) *)

Definition ROLE_SUPER_ADMIN : gostr := $"superAdmin".
Definition ROLE_SYSTEM_ADMIN : gostr := $"systemAdmin".
Definition ROLE_SECURITY_ADMIN : gostr := $"securityAdmin".
Definition ROLE_AUDIT_ADMIN : gostr := $"auditAdmin".
Definition AllRoles : list gostr := [ROLE_SUPER_ADMIN; ROLE_SYSTEM_ADMIN; ROLE_SECURITY_ADMIN; ROLE_AUDIT_ADMIN].
Definition IsValidRole (role : gostr) : bool := bool_decide (role ∈ AllRoles).
Definition NormalizeRole (role : gostr) : gostr :=
  if bool_decide (role = []) then ROLE_SUPER_ADMIN else if IsValidRole role then role else ROLE_SUPER_ADMIN.
Definition IsSuperAdmin (role : gostr) : bool := bool_decide (NormalizeRole role = ROLE_SUPER_ADMIN).

(** ** The state *)

Record TokenInfo := mkToken {
  LoginAccount : gostr; LoginIp : gostr; AccessToken : gostr; DeviceFingerprint : gostr; LoginType : gostr; Role : gostr;
  NeedChangePassword : Z; UPDATE_TIME : Z }.
Record Account := mkAccount {
  a_Id : gostr; a_Login : gostr; a_Password : gostr; a_Role : gostr; a_Status : Z; a_NeedChange : Z; a_PwdUpdateTime : gostr }.
Record OPlatformKey := mkKey {
  k_Id : gostr; ApiKey : gostr; LocalOnly : Z; k_Status : Z; RateLimit : Z; IPWhitelist : gostr; k_ExpireTime : gostr }.

(** What the parts of the administration side keep in the cache. *)
Inductive cached := CInt (n : Z) | CMark | CToken (t : TokenInfo).
Abbreviation store := (gmap gostr (WafCache.WafCacheItem cached)).

(** [histories] holds account and hash, the newest first; [rates] the count and the end
    of the window of a key. *)
Record state := mkState {
  cache : store; tokens : list TokenInfo; accounts : list Account; otps : list (gostr * gostr); histories : list (gostr * gostr);
  keys : list OPlatformKey; rates : gmap gostr (Z * Z) }.
Definition with_cache (c : store) (s : state) : state := mkState c (tokens s) (accounts s) (otps s) (histories s) (keys s) (rates s).
Definition with_tokens (t : list TokenInfo) (s : state) : state := mkState (cache s) t (accounts s) (otps s) (histories s) (keys s) (rates s).
Definition with_accounts (a : list Account) (s : state) : state := mkState (cache s) (tokens s) a (otps s) (histories s) (keys s) (rates s).
Definition with_histories (h : list (gostr * gostr)) (s : state) : state := mkState (cache s) (tokens s) (accounts s) (otps s) h (keys s) (rates s).
Definition with_rates (r : gmap gostr (Z * Z)) (s : state) : state := mkState (cache s) (tokens s) (accounts s) (otps s) (histories s) (keys s) r.

Definition CACHE_LOGIN_ERROR : gostr := $"CACHE_LOGIN_ERROR".
Definition CACHE_OTP_ERROR : gostr := $"CACHE_OTP_ERROR".
Definition CACHE_TOKEN : gostr := $"CACHE_TOKEN".
Definition CACHE_TOKEN_BINDFAIL : gostr := $"CACHE_TOKEN_BINDFAIL_".
Definition CACHE_REPLAY_NONCE : gostr := $"CACHE_REPLAY_NONCE_".
Definition CACHE_HOST_GUARD_ADMIN_PRE : gostr := $"CACHE_HOST_GUARD_ADMIN_".

(** [WafCache.GetInt], with its error. *)
Definition GetInt (c : store) (now : Z) (key : gostr) : store * option Z :=
  let (c, v) := WafCache.Get c now key in (c, match v with Some (CInt n) => Some n | _ => None end).

(** ** Settings and outside code *)

Record config := mkConfig {
  RECORD_TOKEN_EXPIRE_MINTUTES : Z; ENABLE_STRICT_IP_BINDING : Z; ENABLE_DEVICE_FINGERPRINT : Z; RECORD_FORCE_BIND_2FA : Z;
  ENABLE_REPLAY_PROTECT : Z; OPEN_PLATFORM_ENABLED : Z; RECORD_LOGIN_MAX_ERROR_TIME : Z; RECORD_LOGIN_LIMIT_MINTUTES : Z;
  PWD_EXPIRE_DAYS : Z; PWD_HISTORY_COUNT : Z; PWD_FORCE_CHANGE_DEFAULT : Z; GWAF_IP_WHITELIST : gostr; GWAF_DOMAIN_WHITELIST : gostr;
  MANAGE : manage; PROVIDERS : ranges; POLICY : AccessAccount.PasswordComplexityPolicy }.

(** [parse_time] reads a date in UTC; [pwd_deadline] reads the time of a password and
    adds the days; [DataDecrypt] is [None] for what is no ciphertext or does not open. *)
Class World := {
  md5 : gostr → gostr; BcryptVerify : gostr → gostr → bool; BcryptHash : gostr → option gostr; salt : gostr;
  totp_valid : Z → gostr → gostr → bool; parse_time : gostr → option Z; pwd_deadline : gostr → Z → option Z; format_time : Z → gostr;
  IsDataKeyCiphertext : gostr → bool; DataDecrypt : gostr → option gostr }.

(** A request with the address of the connection. *)
Record incoming := mkIn { req : request; remoteIP : gostr }.
Definition header (r : incoming) (key : gostr) : gostr := header_get (req r) key.
Definition path (r : incoming) : gostr := r_path (req r).

(** What the middleware puts into the context, and the refusals. *)
Record context := mkCtx { is_openapi : bool; loginAccount : option gostr; loginIP : option gostr; userRole : option gostr; openapi_key : option gostr; local_only : bool }.
Definition no_context : context := mkCtx false None None None None false.
Inductive refusal :=
| NoToken | TokenExpired | TokenBroken | FingerprintMismatch (ended : bool) | IPMismatch (ended : bool) | NeedChangePwd | NeedBind2FA
| PlatformClosed | BadKey | KeyDisabled | KeyLocalOnly | KeyExpired | KeyAddress | KeyRate | KeyNotAllowed
| NoTime | BadTime | RequestExpired | BadNonce | Replayed | AddressDenied | DomainDenied | RoleDenied.

Definition middleware : Type := context → state → state * result refusal context.

(** The functions run one after the other until one aborts. *)
Fixpoint chain (ms : list middleware) : middleware := λ c s,
  match ms with
  | [] => (s, Ok c)
  | m :: ms' => let (s', o) := m c s in match o with Ok c' => chain ms' c' s' | Err e => (s', Err e) end
  end.

Section manage.
Context `{UnicodeCase} `{AccessAccount.UnicodeTables} `{World} (cfg : config).

(** [time.Duration(n) * time.Minute] *)
Definition minutes (n : Z) : Z := swrap 64 (n * minute).
Definition GetManageIP (r : incoming) : gostr := GetManageClientIP (PROVIDERS cfg) (MANAGE cfg) (req r) (remoteIP r).
Definition GenerateFingerprint (r : incoming) : gostr :=
  Hosts.EncodeToString (md5 (join [header r $"User-Agent"; header r $"Accept-Language"; header r $"Accept-Encoding"] $"|")).

(** ** Session tokens (middleware/auth_api_check.go) *)

Definition normalizeTokenStr (raw : gostr) : gostr :=
  let token := trim_space raw in if bool_decide (token = $"null") || bool_decide (token = $"undefined") then [] else token.
Definition extractTokenStr (r : incoming) : gostr :=
  if bool_decide (path r = $"/api/v1/ws") then normalizeTokenStr (header r $"Sec-WebSocket-Protocol")
  else if has_prefix (path r) $"/api/v1/waflog/attack/download" then normalizeTokenStr (query_get (req r) $"X-Token")
  else if bool_decide (header r $"X-Login-Type" = $"mobile") then normalizeTokenStr (header r $"X-Mobile-Token")
  else normalizeTokenStr (header r $"X-Token").
Definition isFingerprintExemptPath (r : incoming) : bool :=
  equal_fold (header r $"Upgrade") $"websocket" || contains (to_lower (header r $"Accept")) $"text/event-stream"
  || bool_decide (path r = $"/api/v1/ws") || has_prefix (path r) $"/api/v1/waflog/attack/download".

Definition bindFailThreshold : Z := 3.
Definition bindFailCounterMaxTTL : Z := 30 * minute.
Definition bindFailCounterTTL : Z :=
  let ttl := minutes (RECORD_TOKEN_EXPIRE_MINTUTES cfg) in
  if (ttl <=? 0) || (bindFailCounterMaxTTL <? ttl) then bindFailCounterMaxTTL else ttl.
Definition bumpTokenBindFailure (now : Z) (tokenStr : gostr) (c : store) : store * bool :=
  let key := CACHE_TOKEN_BINDFAIL ++ tokenStr in
  let (c, v) := GetInt c now key in
  let count := default 0 v + 1 in
  if bindFailThreshold <=? count then (WafCache.Remove c key, true)
  else (WafCache.SetWithTTlRenewTime c now key (CInt count) bindFailCounterTTL, false).
Definition clearTokenBindFailure (tokenStr : gostr) (c : store) : store :=
  if negb (ENABLE_STRICT_IP_BINDING cfg =? 1) && negb (ENABLE_DEVICE_FINGERPRINT cfg =? 1) then c
  else WafCache.Remove c (CACHE_TOKEN_BINDFAIL ++ tokenStr).

(** wafhostguard.TouchAdminIP: the address is kept out of the bans of the host guard. *)
Definition adminIPTTL : Z := 30 * minute.
Definition TouchAdminIP (now : Z) (ip : gostr) (c : store) : store :=
  let ip := trim_space ip in
  if bool_decide (ip = []) then c
  else match parse_ip ip with Some _ => WafCache.SetWithTTlRenewTime c now (CACHE_HOST_GUARD_ADMIN_PRE ++ ip) (CInt 1) adminIPTTL | None => c end.

Definition otp_of (s : state) (account : gostr) : option (gostr * gostr) := List.find (λ o, bool_decide (o.1 = account)) (otps s).
(** The session is dropped at the third mismatch in a row. *)
Definition bind_failure (now : Z) (tokenStr : gostr) (s : state) : state * bool :=
  let (c, ended) := bumpTokenBindFailure now tokenStr (cache s) in
  (with_cache (if ended then WafCache.Remove c (CACHE_TOKEN ++ tokenStr) else c) s, ended).
Definition after_password_change : list gostr := [$"/api/v1/account/changemypwd"; $"/api/v1/logout"; $"/api/v1/ws"].

(** The token read from the cache, checked. *)
Definition check_token (now : Z) (r : incoming) (tokenStr : gostr) (t : TokenInfo) : middleware := λ c s,
  let currentIP := GetManageIP r in
  let ipMatched := negb (ENABLE_STRICT_IP_BINDING cfg =? 1) || bool_decide (LoginIp t = currentIP) in
  let fingerprintMatched :=
    negb ((ENABLE_DEVICE_FINGERPRINT cfg =? 1) && negb (bool_decide (DeviceFingerprint t = [])) && negb (isFingerprintExemptPath r))
    || bool_decide (DeviceFingerprint t = GenerateFingerprint r) in
  if negb fingerprintMatched then let (s, ended) := bind_failure now tokenStr s in (s, Err (FingerprintMismatch ended))
  else if negb ipMatched then let (s, ended) := bind_failure now tokenStr s in (s, Err (IPMismatch ended))
  else
    let s := with_cache (TouchAdminIP now currentIP (clearTokenBindFailure tokenStr (cache s))) s in
    if (NeedChangePassword t =? 1) && negb (bool_decide (path r ∈ after_password_change)) then (s, Err NeedChangePwd)
    else if (RECORD_FORCE_BIND_2FA cfg =? 1) && negb (bool_decide (path r = $"/api/v1/ws")) && negb (bool_decide (path r = $"/api/v1/logout"))
            && match otp_of s (LoginAccount t) with Some o => bool_decide (o.1 = []) | None => true end
    then (s, Err NeedBind2FA)
    else (s, Ok (mkCtx (is_openapi c) (Some (LoginAccount t)) (Some currentIP) (Some (NormalizeRole (Role t))) (openapi_key c) (local_only c))).
Definition token_auth (now : Z) (r : incoming) : middleware := λ c s,
  let tokenStr := extractTokenStr r in
  if bool_decide (tokenStr = []) then (s, Err NoToken)
  else
    let (ca, v) := WafCache.GetAsEx (cache s) now (CACHE_TOKEN ++ tokenStr) (minutes (RECORD_TOKEN_EXPIRE_MINTUTES cfg)) in
    let s := with_cache ca s in
    match v with
    | None => (s, Err TokenExpired)
    | Some (CInt _ | CMark) => (s, Err TokenBroken)
    | Some (CToken t) => if bool_decide (LoginAccount t = []) then (s, Err TokenBroken) else check_token now r tokenStr t c s
    end.

(** ** API keys (middleware/openapi_auth.go, service/waf_service/waf_oplatform_key.go) *)

Definition GetByApiKey (s : state) (apiKey : gostr) : option OPlatformKey :=
  let sealed k := (LocalOnly k =? 1) && IsDataKeyCiphertext (ApiKey k) in
  match List.find (λ k, bool_decide (ApiKey k = apiKey)) (keys s) with
  | Some k => if sealed k then List.find (λ k, sealed k && bool_decide (DataDecrypt (ApiKey k) = Some apiKey)) (keys s) else Some k
  | None => List.find (λ k, sealed k && bool_decide (DataDecrypt (ApiKey k) = Some apiKey)) (keys s)
  end.
Definition forwarding_headers : list gostr := [$"X-Forwarded-For"; $"X-Real-IP"; $"Forwarded"; $"X-Forwarded-Host"].
Definition isDirectLoopbackRequest (r : incoming) : bool :=
  match parse_ip (remoteIP r) with
  | None => false
  | Some ip =>
      IsLoopback ip &&
      forallb (λ h, let h := trim_space h in
                    bool_decide (h = []) || forallb (λ name, negb (equal_fold name h)) (map fst (map_to_list (r_header (req r)))))
              (forwarding_headers ++ split (ProxyHeader (MANAGE cfg)) ",")
  end.
Definition key_address (list_ clientIP : gostr) : bool :=
  existsb (λ a, let a := trim_space a in
                negb (bool_decide (a = [])) &&
                if contains a $"/" then match parse_cidr a, parse_ip clientIP with Some net, Some ip => ipnet_contains net ip | _, _ => false end
                else bool_decide (a = clientIP)) (split list_ ",").
(** One more call in the running minute of the key. *)
Definition count_call (now : Z) (id : gostr) (s : state) : state * Z :=
  let '(n, windowEnd) := default (0, now + minute) (rates s !! id) in
  let '(n, windowEnd) := if windowEnd <? now then (0, now + minute) else (n, windowEnd) in
  (with_rates (<[id := (n + 1, windowEnd)]> (rates s)) s, n + 1).
Definition ValidateOpenApiKey (now : Z) (r : incoming) (apiKey : gostr) : middleware := λ c s,
  let found := GetByApiKey s apiKey in
  let localOnly := match found with Some k => LocalOnly k =? 1 | None => false end in
  if (OPEN_PLATFORM_ENABLED cfg =? 0) && negb localOnly then (s, Err PlatformClosed)
  else match found with
       | None => (s, Err BadKey)
       | Some k =>
           if negb (k_Status k =? 1) then (s, Err KeyDisabled)
           else if localOnly && negb (isDirectLoopbackRequest r) then (s, Err KeyLocalOnly)
           else if negb (bool_decide (k_ExpireTime k = [])) && match parse_time (k_ExpireTime k) with Some t => t <? now | None => false end
           then (s, Err KeyExpired)
           else if negb (bool_decide (IPWhitelist k = [])) && negb (key_address (IPWhitelist k) (GetManageIP r)) then (s, Err KeyAddress)
           else
             let (s, limited) := if 0 <? RateLimit k then let (s, n) := count_call now (k_Id k) s in (s, RateLimit k <? n) else (s, false) in
             if limited then (s, Err KeyRate)
             else (s, Ok (mkCtx true (loginAccount c) (loginIP c) (userRole c) (Some (k_Id k)) localOnly))
       end.

Definition Auth (now : Z) (r : incoming) : middleware :=
  match header r $"X-API-Key" with [] => token_auth now r | apiKey => ValidateOpenApiKey now r apiKey end.
Definition TokenOnlyAuth (now : Z) (r : incoming) : middleware := λ c s,
  match header r $"X-API-Key" with [] => Auth now r c s | _ => (s, Err KeyNotAllowed) end.

(** ** Roles, replays, addresses, domains *)

Definition RequireRole (allowedRoles : list gostr) : middleware := λ c s,
  if is_openapi c then (s, Ok c)
  else
    let role := NormalizeRole (default [] (userRole c)) in
    if bool_decide (role = ROLE_SUPER_ADMIN) || bool_decide (role ∈ allowedRoles) then (s, Ok c) else (s, Err RoleDenied).

Definition replayTimeWindow : Z := 5 * minute.
Definition replayNonceTTL : Z := 10 * minute.
Definition isLogExportDownloadPath (p : gostr) : bool :=
  match split (trim_prefix p $"/") "/" with
  | [a; b; c; d; id; f] => bool_decide (a = $"api") && bool_decide (b = $"v1") && bool_decide (c = $"waflog") && bool_decide (d = $"exports")
                           && negb (bool_decide (id = [])) && bool_decide (f = $"download")
  | _ => false
  end.
(** The time and the nonce of a request; the two downloads may carry them in the query. *)
Definition replay_fields (r : incoming) : gostr * gostr :=
  let tsStr := header r $"X-Request-Time" in
  let nonce := header r $"X-Request-Id" in
  if (bool_decide (tsStr = []) || bool_decide (nonce = [])) && (bool_decide (path r = $"/api/v1/waflog/attack/download") || isLogExportDownloadPath (path r))
  then (if bool_decide (tsStr = []) then query_get (req r) $"X-Request-Time" else tsStr, if bool_decide (nonce = []) then query_get (req r) $"X-Request-Id" else nonce)
  else (tsStr, nonce).
Definition ReplayProtect (now : Z) (r : incoming) : middleware := λ c s,
  if ENABLE_REPLAY_PROTECT cfg =? 0 then (s, Ok c)
  else if is_openapi c then (s, Ok c)
  else if bool_decide (header r $"Upgrade" = $"websocket") then (s, Ok c)
  else
    let '(tsStr, nonce) := replay_fields r in
    if bool_decide (tsStr = []) then (s, Err NoTime)
    else match parse_int tsStr with
         | None => (s, Err BadTime)
         | Some ts =>
             let diff := now - ts * second in
             if (diff <? - replayTimeWindow) || (replayTimeWindow <? diff) then (s, Err RequestExpired)
             else if (length nonce <? 16)%nat || (128 <? length nonce)%nat then (s, Err BadNonce)
             else
               let (ca, seen) := WafCache.IsKeyExist (cache s) now (CACHE_REPLAY_NONCE ++ nonce) in
               if seen then (with_cache ca s, Err Replayed)
               else (with_cache (WafCache.SetWithTTl ca now (CACHE_REPLAY_NONCE ++ nonce) CMark replayNonceTTL) s, Ok c)
         end.

Definition everyone : gostr := $"0.0.0.0/0,::/0".
Definition isIPMatch (clientIP allowed : gostr) : bool :=
  match parse_cidr allowed with
  | Some net => match parse_ip clientIP with Some ip => ipnet_contains net ip | None => false end
  | None => bool_decide (clientIP = allowed)
  end.
Definition address_allowed (clientIP : gostr) : bool :=
  bool_decide (GWAF_IP_WHITELIST cfg = everyone)
  || existsb (λ ip, bool_decide (ip = $"0.0.0.0/0") || bool_decide (ip = $"::/0") || isIPMatch clientIP ip) (split (GWAF_IP_WHITELIST cfg) ",").
Definition IPWhitelist_ (r : incoming) : middleware := λ c s,
  if address_allowed (GetManageIP r) then (s, Ok c) else (s, Err AddressDenied).
Definition domain_allowed (r : incoming) : bool :=
  let whitelist := trim_space (GWAF_DOMAIN_WHITELIST cfg) in
  bool_decide (whitelist = []) ||
  let hostname := match Net.SplitHostPort (r_host (req r)) with Some (h, _) => h | None => r_host (req r) end in
  existsb (λ d, bool_decide (trim_space d = hostname)) (split whitelist ",").
Definition DomainWhitelist (r : incoming) : middleware := λ c s, if domain_allowed r then (s, Ok c) else (s, Err DomainDenied).

(** ** The groups of routes (wafmangeweb/localserver.go) *)

Definition PublicRouterGroup (now : Z) (r : incoming) : middleware := chain [IPWhitelist_ r; DomainWhitelist r; ReplayProtect now r].
Definition RouterGroup (now : Z) (r : incoming) : middleware := chain [Auth now r; ReplayProtect now r; IPWhitelist_ r; DomainWhitelist r].
Definition role_group (role : gostr) (now : Z) (r : incoming) : middleware := chain [RouterGroup now r; RequireRole [role]].
Definition securityAdminGroup : Z → incoming → middleware := role_group ROLE_SECURITY_ADMIN.
Definition auditAdminGroup : Z → incoming → middleware := role_group ROLE_AUDIT_ADMIN.
Definition systemConfigGroup : Z → incoming → middleware := role_group ROLE_SYSTEM_ADMIN.
Definition exportDownloadGroup (now : Z) (r : incoming) : middleware := chain [ReplayProtect now r; IPWhitelist_ r; DomainWhitelist r].
Definition TokenOnlyRouterGroup (now : Z) (r : incoming) : middleware :=
  chain [TokenOnlyAuth now r; RequireRole [ROLE_SYSTEM_ADMIN]; ReplayProtect now r; IPWhitelist_ r; DomainWhitelist r].

(** ** Passwords (service/waf_service/waf_account.go) *)

Definition Md5String (s : gostr) : gostr := Hosts.EncodeToString (md5 s).
Definition IsBcryptHash (s : gostr) : bool := has_prefix s $"$2a$" || has_prefix s $"$2b$" || has_prefix s $"$2y$".
Definition VerifyPassword (stored plain : gostr) : bool :=
  if IsBcryptHash stored then BcryptVerify stored plain
  else negb (bool_decide (stored = [])) && bool_decide (stored = Md5String (plain ++ salt)).
Definition account_of (s : state) (name : gostr) : option Account := List.find (λ a, bool_decide (a_Login a = name)) (accounts s).
Definition account_by_id (s : state) (id : gostr) : option Account := List.find (λ a, bool_decide (a_Id a = id)) (accounts s).
Definition update_accounts (p : Account → bool) (f : Account → Account) (s : state) : state :=
  with_accounts (map (λ a, if p a then f a else a) (accounts s)) s.
Definition set_password (hash : gostr) (need : Z) (changed : gostr) (a : Account) : Account :=
  mkAccount (a_Id a) (a_Login a) hash (a_Role a) (a_Status a) need changed.
Definition UpgradePasswordHash (name plain : gostr) (s : state) : state :=
  match BcryptHash plain with
  | None | Some [] => s
  | Some hash => update_accounts (λ a, bool_decide (a_Login a = name)) (λ a, set_password hash (a_NeedChange a) (a_PwdUpdateTime a) a) s
  end.
Definition IsPasswordExpired (pwdUpdateTime : gostr) (expireDays now : Z) : bool :=
  if expireDays <=? 0 then false
  else match trim_space pwdUpdateTime with
       | [] => false
       | t => match pwd_deadline t expireDays with Some d => d <? now | None => false end
       end.

(** ** Signing in and out (api/waf_login.go, service/waf_service/waf_token_info.go) *)

Record login_req := mkLogin { l_Account : gostr; l_Password : gostr; l_Code : gostr }.
Inductive login_result :=
| LoginParse | NoAccount | UnknownAccount | LoginLocked | WrongPassword | CodeLocked | WrongCode
| SignedIn (t : TokenInfo).

(** [IsKeyExist] and then [GetInt]; an error counts as 0. *)
Definition counter (c : store) (now : Z) (key : gostr) : store * Z :=
  let (c, b) := WafCache.IsKeyExist c now key in
  if b then let (c, v) := GetInt c now key in (c, default 0 v) else (c, 0).
Definition login_type (r : incoming) : gostr := match header r $"X-Login-Type" with [] => $"web" | t => t end.
Definition same_login (name type_ : gostr) (t : TokenInfo) : bool := bool_decide (LoginAccount t = name) && bool_decide (LoginType t = type_).
Definition GetAllTokenInfoByLoginAccountAndType (s : state) (name type_ : gostr) : list TokenInfo := List.filter (same_login name type_) (tokens s).
Definition DelApiByAccountAndType (name type_ : gostr) (s : state) : state := with_tokens (List.filter (λ t, negb (same_login name type_ t)) (tokens s)) s.
Definition end_old_sessions (name type_ : gostr) (s : state) : state :=
  foldl (λ s t, with_cache (WafCache.Remove (cache s) (CACHE_TOKEN ++ AccessToken t)) (DelApiByAccountAndType (LoginAccount t) (LoginType t) s))
        s (GetAllTokenInfoByLoginAccountAndType s name type_).
Definition must_change (a : Account) (now : Z) : bool := (a_NeedChange a =? 1) || IsPasswordExpired (a_PwdUpdateTime a) (PWD_EXPIRE_DAYS cfg) now.
Definition new_token (now : Z) (r : incoming) (a : Account) (uuid : gostr) : TokenInfo :=
  mkToken (a_Login a) (GetManageIP r) (Md5String uuid) (if ENABLE_DEVICE_FINGERPRINT cfg =? 1 then GenerateFingerprint r else [])
          (login_type r) (NormalizeRole (a_Role a)) 0 now.
Definition demand_change (need : bool) (t : TokenInfo) : TokenInfo :=
  mkToken (LoginAccount t) (LoginIp t) (AccessToken t) (DeviceFingerprint t) (LoginType t) (Role t) (if need then 1 else NeedChangePassword t) (UPDATE_TIME t).

(** The second factor: the state, and the refusal if there is one. *)
Definition second_factor (now : Z) (b : login_req) (s : state) : state * option login_result :=
  match otp_of s (l_Account b) with
  | Some (c :: name, secret) =>
      let key := CACHE_OTP_ERROR ++ l_Account b in
      let (ca, n) := counter (cache s) now key in
      let s := with_cache ca s in
      if RECORD_LOGIN_MAX_ERROR_TIME cfg <=? n then (s, Some CodeLocked)
      else if totp_valid now (l_Code b) secret then (with_cache (WafCache.Remove (cache s) key) s, None)
      else (with_cache (WafCache.SetWithTTl (cache s) now key (CInt (n + 1)) (minutes (RECORD_LOGIN_LIMIT_MINTUTES cfg))) s, Some WrongCode)
  | _ => (s, None)
  end.
(** What follows when the password and the code are right. *)
Definition sign_in (now : Z) (r : incoming) (b : login_req) (a : Account) (uuid : gostr) (s : state) : state * login_result :=
  let s := with_cache (WafCache.Remove (cache s) (CACHE_LOGIN_ERROR ++ GetManageIP r)) s in
  let s := if IsBcryptHash (a_Password a) then s else UpgradePasswordHash (a_Login a) (l_Password b) s in
  let s := end_old_sessions (l_Account b) (login_type r) s in
  let row := new_token now r a uuid in
  let t := demand_change (must_change a now) row in
  let s := with_tokens (tokens s ++ [row]) s in
  (with_cache (WafCache.SetWithTTl (cache s) now (CACHE_TOKEN ++ AccessToken t) (CToken t) (minutes (RECORD_TOKEN_EXPIRE_MINTUTES cfg))) s, SignedIn t).
Definition LoginApi (now : Z) (r : incoming) (body : option login_req) (uuid : gostr) (s : state) : state * login_result :=
  match body with
  | None => (s, LoginParse)
  | Some b =>
      if bool_decide (l_Account b = []) then (s, NoAccount)
      else match account_of s (l_Account b) with
           | None => (s, UnknownAccount)
           | Some a =>
               let key := CACHE_LOGIN_ERROR ++ GetManageIP r in
               let (c, n) := counter (cache s) now key in
               let s := with_cache c s in
               if RECORD_LOGIN_MAX_ERROR_TIME cfg <=? n then (s, LoginLocked)
               else if negb (VerifyPassword (a_Password a) (l_Password b)) then
                 (with_cache (WafCache.SetWithTTl (cache s) now key (CInt (n + 1)) (minutes (RECORD_LOGIN_LIMIT_MINTUTES cfg))) s, WrongPassword)
               else
                 let (s, refused) := second_factor now b s in
                 match refused with Some e => (s, e) | None => sign_in now r b a uuid s end
           end
  end.

Definition request_token (r : incoming) : gostr :=
  if bool_decide (header r $"X-Login-Type" = $"mobile") then header r $"X-Mobile-Token" else header r $"X-Token".
Definition GetInfoByAccessToken (s : state) (token : gostr) : option TokenInfo := List.find (λ t, bool_decide (AccessToken t = token)) (tokens s).
Definition LoginOutApi (r : incoming) (s : state) : state * bool :=
  match GetInfoByAccessToken s (request_token r) with
  | Some t =>
      let s := with_tokens (List.filter (λ x, negb (bool_decide (LoginAccount x = LoginAccount t) && bool_decide (AccessToken x = AccessToken t))) (tokens s)) s in
      (with_cache (WafCache.Remove (cache s) (CACHE_TOKEN ++ AccessToken t)) s, true)
  | None => (s, false)
  end.

(** At the start of the program, and when the administration server is started again. *)
Definition ReloadAllValidTokensToCache (now : Z) (s : state) : state :=
  let ttl := minutes (RECORD_TOKEN_EXPIRE_MINTUTES cfg) in
  with_cache (foldl (λ c t, if now <? UPDATE_TIME t + ttl then WafCache.SetWithTTlRenewTime c now (CACHE_TOKEN ++ AccessToken t) (CToken t) ttl else c) (cache s) (tokens s)) s.
Definition ReloadSpecificTokenToCache (now : Z) (t : TokenInfo) (s : state) : state * bool :=
  let ttl := minutes (RECORD_TOKEN_EXPIRE_MINTUTES cfg) in
  if now <? UPDATE_TIME t + ttl then (with_cache (WafCache.SetWithTTlRenewTime (cache s) now (CACHE_TOKEN ++ AccessToken t) (CToken t) ttl) s, true) else (s, false).
(** A restart of the process: the memory is lost. *)
Definition restart (now : Z) (s : state) : state :=
  ReloadAllValidTokensToCache now (mkState ∅ (tokens s) (accounts s) (otps s) (histories s) (keys s) ∅).

(** ** Accounts (service/waf_service/waf_account.go, api/waf_account.go)

    The role checks of the handlers are part of the operations; [c] is the context the
    middleware left. *)

Inductive account_error :=
| NotSuper | Taken | BadRole | Weak (e : AccessAccount.password_error) | Reused | HashFailed | NoSuchAccount | SuperOnly | LastAccount
| OldPassword | SamePassword | NotAlike | NoLogin | SuperPassword | NoSession | Reserved.
Definition currentRole (c : context) : gostr := NormalizeRole (default ROLE_SUPER_ADMIN (userRole c)).
Definition is_super (c : context) : bool := bool_decide (currentRole c = ROLE_SUPER_ADMIN).

Definition of_account (name : gostr) (h : gostr * gostr) : bool := bool_decide (h.1 = name).
Definition ValidateNewPassword (name plain : gostr) (s : state) : result account_error () :=
  match AccessAccount.ValidatePasswordComplexity plain (POLICY cfg) with
  | Err e => Err (Weak e)
  | Ok _ =>
      if (0 <? PWD_HISTORY_COUNT cfg)
         && existsb (λ h, VerifyPassword h.2 plain) (take (Z.to_nat (PWD_HISTORY_COUNT cfg)) (List.filter (of_account name) (histories s)))
      then Err Reused else Ok ()
  end.
(** Rows of the account beyond the first [n]. *)
Fixpoint trim_history (name : gostr) (n : nat) (hs : list (gostr * gostr)) : list (gostr * gostr) :=
  match hs with
  | [] => []
  | h :: hs' => if of_account name h then match n with O => trim_history name O hs' | S n' => h :: trim_history name n' hs' end
                else h :: trim_history name n hs'
  end.
Definition recordPwdHistory (name hash : gostr) (s : state) : state :=
  if PWD_HISTORY_COUNT cfg <=? 0 then s else with_histories (trim_history name (Z.to_nat (PWD_HISTORY_COUNT cfg)) ((name, hash) :: histories s)) s.
Definition createAccount (now : Z) (id name role plain : gostr) (status : Z) (needChange : bool) (s : state) : result account_error state :=
  match BcryptHash plain with
  | None => Err HashFailed
  | Some hash => Ok (recordPwdHistory name hash (with_accounts (accounts s ++ [mkAccount id name hash role status (if needChange then 1 else 0) (format_time now)]) s))
  end.

Record add_req := mkAdd { d_Login : gostr; d_Password : gostr; d_Role : gostr; d_Status : Z }.
Definition AddApi (now : Z) (c : context) (q : add_req) (id : gostr) (s : state) : result account_error state :=
  if negb (is_super c) then Err NotSuper
  else match account_of s (d_Login q) with
       | Some _ => Err Taken
       | None =>
           if negb (IsValidRole (d_Role q)) then Err BadRole
           else match ValidateNewPassword (d_Login q) (d_Password q) s with
                | Err e => Err e
                | Ok _ => createAccount now id (d_Login q) (d_Role q) (d_Password q) (d_Status q) (PWD_FORCE_CHANGE_DEFAULT cfg =? 1) s
                end
       end.
Record edit_req := mkEdit { e_Id : gostr; e_Login : gostr; e_Role : gostr; e_Status : Z }.
Definition edited (q : edit_req) (a : Account) : Account :=
  mkAccount (a_Id a) (e_Login q) (a_Password a) (if bool_decide (e_Role q = []) then a_Role a else e_Role q) (e_Status q) (a_NeedChange a) (a_PwdUpdateTime a).
Definition ModifyApi (c : context) (q : edit_req) (s : state) : result account_error state :=
  match account_by_id s (e_Id q) with
  | None => Err NoSuchAccount
  | Some target =>
      if IsSuperAdmin (a_Role target) && negb (is_super c) then Err SuperOnly
      else if negb (bool_decide (e_Login q = a_Login target))
              && existsb (λ a, bool_decide (a_Login a = e_Login q) && negb (bool_decide (a_Id a = e_Id q))) (accounts s) then Err Taken
      else if negb (bool_decide (e_Role q = [])) && negb (IsValidRole (e_Role q)) then Err BadRole
      else if negb (bool_decide (e_Role q = [])) && negb (bool_decide (e_Role q = a_Role target)) && negb (is_super c) then Err SuperOnly
      else Ok (update_accounts (λ a, bool_decide (a_Id a = e_Id q)) (edited q) s)
  end.
Definition DelAccountApi (c : context) (id : gostr) (s : state) : result account_error state :=
  if negb (is_super c) then Err NotSuper
  else match account_by_id s id with
       | None => Err NoSuchAccount
       | Some _ => if (length (accounts s) <=? 1)%nat then Err LastAccount
                   else Ok (with_accounts (List.filter (λ a, negb (bool_decide (a_Id a = id))) (accounts s)) s)
       end.
(** A new hash for one account, after the checks of a new password. *)
Definition store_password (now : Z) (a : Account) (plain : gostr) (need : Z) (s : state) : result account_error state :=
  match ValidateNewPassword (a_Login a) plain s with
  | Err e => Err e
  | Ok _ =>
      match BcryptHash plain with
      | None => Err HashFailed
      | Some hash => Ok (recordPwdHistory (a_Login a) hash (update_accounts (λ x, bool_decide (a_Id x = a_Id a)) (set_password hash need (format_time now)) s))
      end
  end.
Definition clearTokenNeedChangePassword (now : Z) (r : incoming) (s : state) : state :=
  let tokenStr := header r $"X-Token" in
  let tokenStr := if bool_decide (tokenStr = []) && bool_decide (header r $"X-Login-Type" = $"mobile") then header r $"X-Mobile-Token" else tokenStr in
  if bool_decide (tokenStr = []) then s
  else
    let key := CACHE_TOKEN ++ tokenStr in
    let (c, v) := WafCache.Get (cache s) now key in
    match v with
    | Some (CToken t) =>
        let t := mkToken (LoginAccount t) (LoginIp t) (AccessToken t) (DeviceFingerprint t) (LoginType t) (Role t) 0 (UPDATE_TIME t) in
        let (c, expire) := WafCache.GetExpireTime c now key in
        let remain := match expire with Some e => e - now | None => 0 end in
        with_cache (WafCache.SetWithTTlRenewTime c now key (CToken t) (if 0 <? remain then remain else minutes (RECORD_TOKEN_EXPIRE_MINTUTES cfg))) s
    | _ => with_cache c s
    end.
Definition ChangeMyPasswordApi (now : Z) (r : incoming) (c : context) (old new new2 : gostr) (s : state) : result account_error state :=
  if negb (bool_decide (new = new2)) then Err NotAlike
  else match loginAccount c with
       | None | Some [] => Err NoLogin
       | Some name =>
           match account_of s name with
           | None => Err NoSuchAccount
           | Some a =>
               if negb (VerifyPassword (a_Password a) old) then Err OldPassword
               else if VerifyPassword (a_Password a) new then Err SamePassword
               else match store_password now a new 0 s with Err e => Err e | Ok s => Ok (clearTokenNeedChangePassword now r s) end
           end
       end.
Definition ResetAccountPwdApi (now : Z) (name super new new2 : gostr) (s : state) : result account_error state :=
  if negb (bool_decide (new = new2)) then Err NotAlike
  else match List.find (λ a, bool_decide (a_Role a = ROLE_SUPER_ADMIN)) (accounts s) with
       | None => Err SuperPassword
       | Some sa =>
           if negb (VerifyPassword (a_Password sa) super) then Err SuperPassword
           else match account_of s name with
                | None => Err NoSuchAccount
                | Some a => if VerifyPassword (a_Password a) new then Err SamePassword else store_password now a new 1 s
                end
       end.
Definition ResetAccountOTPApi (r : incoming) (c : context) (name : gostr) (s : state) : result account_error state :=
  match GetInfoByAccessToken s (header r $"X-Token") with
  | None => Err NoSession
  | Some t =>
      if bool_decide (LoginAccount t = []) then Err NoSession
      else if negb (is_super c) then Err NotSuper
      else if bool_decide (name = $"admin") then Err Reserved
      else Ok (mkState (cache s) (tokens s) (accounts s) (List.filter (λ o, negb (bool_decide (o.1 = name))) (otps s)) (histories s) (keys s) (rates s))
  end.
End manage.
End ManageAuth.
