(* ===== verification/ManageFacts.v ===== *)
(** * The administration side: nobody calls it without a reason

    The administration side of [ManageAuth] as a transition system: calls through the
    groups of routes, signing in and out, changes of accounts, restarts, other users of
    the cache.  What was signed in and ended is kept beside the state.  An accepted call
    is justified by a session that was signed in with the right password and not ended
    since, or by an API key; a request is accepted once. *)
From S2P Require Import Prelude.
From S2P Require Import GoLib.
From S2P Require Import GoHttp.
From S2P Require Import WafCache.
From S2P Require Import AccessAccount.
From S2P Require Import ClientIP.
From S2P Require Import Outbound.
From S2P Require Import ManageAuth.
Local Open Scope Z_scope.
Local Open Scope bool_scope.

Module ManageFacts.
Import ManageAuth.

(** ** The transition system *)

(** A successful login: the session, the row of the account, the password and the code
    that were given, the second factor, and the time. *)
Record entry := mkEntry { e_token : TokenInfo; e_account : Account; e_body : login_req; e_otp : option (gostr * gostr); e_time : Z }.
Record log := mkLog { entries : list entry; ended : list gostr }.
Record sys := mkSys { clock : Z; st : state; lg : log }.
Definition issued (l : log) : list gostr := map (λ e, AccessToken (e_token e)) (entries l).

Definition own_key (k : gostr) : bool :=
  existsb (has_prefix k) [CACHE_LOGIN_ERROR; CACHE_OTP_ERROR; CACHE_TOKEN; CACHE_REPLAY_NONCE].

Section steps.
Context `{UnicodeCase} `{AccessAccount.UnicodeTables} `{World} (cfg : config).

Definition log_login (now : Z) (s : state) (r : incoming) (body : option login_req) (res : login_result) (l : log) : log :=
  match res, body with
  | SignedIn t, Some b =>
      match account_of s (l_Account b) with
      | Some a => mkLog (entries l ++ [mkEntry t a b (otp_of s (l_Account b)) now])
                        (ended l ++ map AccessToken (GetAllTokenInfoByLoginAccountAndType s (l_Account b) (login_type r)))
      | None => l
      end
  | _, _ => l
  end.
Definition log_logout (s : state) (r : incoming) (l : log) : log :=
  match GetInfoByAccessToken s (request_token r) with Some t => mkLog (entries l) (ended l ++ [AccessToken t]) | None => l end.

Definition groups : list (Z → incoming → middleware) :=
  [PublicRouterGroup cfg; RouterGroup cfg; securityAdminGroup cfg; auditAdminGroup cfg; systemConfigGroup cfg; exportDownloadGroup cfg; TokenOnlyRouterGroup cfg].

(** An operation on accounts that succeeds. *)
Inductive account_step (now : Z) (s : state) : state → Prop :=
| ac_add c q id s' : AddApi cfg now c q id s = Ok s' → account_step now s s'
| ac_edit c q s' : ModifyApi c q s = Ok s' → account_step now s s'
| ac_delete c id s' : DelAccountApi c id s = Ok s' → account_step now s s'
| ac_change r c old new new2 s' : ChangeMyPasswordApi cfg now r c old new new2 s = Ok s' → account_step now s s'
| ac_reset name super new new2 s' : ResetAccountPwdApi cfg now name super new new2 s = Ok s' → account_step now s s'
| ac_reset_otp r c name s' : ResetAccountOTPApi r c name s = Ok s' → account_step now s s'
| ac_bind o : account_step now s (mkState (cache s) (tokens s) (accounts s) o (histories s) (keys s) (rates s)).

(** Everything but a restart. *)
Inductive step : sys → sys → Prop :=
| st_tick now s l t : now ≤ t → step (mkSys now s l) (mkSys t s l)
| st_call now s l g r : g ∈ groups → step (mkSys now s l) (mkSys now (g now r no_context s).1 l)
| st_login now s l r body uuid : Md5String uuid ∉ issued l →
    step (mkSys now s l) (mkSys now (LoginApi cfg now r body uuid s).1 (log_login now s r body (LoginApi cfg now r body uuid s).2 l))
| st_logout now s l r : step (mkSys now s l) (mkSys now (LoginOutApi r s).1 (log_logout s r l))
| st_account now s l s' : account_step now s s' → step (mkSys now s l) (mkSys now s' l)
| st_keys now s l ks : step (mkSys now s l) (mkSys now (mkState (cache s) (tokens s) (accounts s) (otps s) (histories s) ks (rates s)) l)
| st_reload now s l : step (mkSys now s l) (mkSys now (ReloadAllValidTokensToCache cfg now s) l)
| st_sweep now s l : step (mkSys now s l) (mkSys now (with_cache (WafCache.ClearExpirationCache (cache s) now) s) l)
| st_others now s l c : (∀ k, own_key k = true → c !! k = cache s !! k) → (∀ k i, c !! k = Some i → own_key k = false → ∀ t, WafCache.value i ≠ CToken t) →
    step (mkSys now s l) (mkSys now (with_cache c s) l).
Inductive step_or_restart : sys → sys → Prop :=
| sr_step x y : step x y → step_or_restart x y
| sr_restart now s l : step_or_restart (mkSys now s l) (mkSys now (restart cfg now s) l).

Definition started (x : sys) : Prop := tokens (st x) = [] ∧ cache (st x) = ∅ ∧ lg x = mkLog [] [].
Definition reachable (x : sys) : Prop := ∃ x0, started x0 ∧ rtc step_or_restart x0 x.

(** ** The invariant *)

(** Sessions are compared without the demand to change the password. *)
Definition settled_token (t : TokenInfo) : TokenInfo :=
  mkToken (LoginAccount t) (LoginIp t) (AccessToken t) (DeviceFingerprint t) (LoginType t) (Role t) 0 (UPDATE_TIME t).
Definition genuine (l : log) (t : TokenInfo) : Prop := AccessToken t ∉ ended l ∧ ∃ e, e ∈ entries l ∧ settled_token (e_token e) = settled_token t.
Definition entry_ok (e : entry) : Prop :=
  LoginAccount (e_token e) = a_Login (e_account e) ∧ Role (e_token e) = NormalizeRole (a_Role (e_account e)) ∧ a_Login (e_account e) = l_Account (e_body e) ∧
  VerifyPassword (a_Password (e_account e)) (l_Password (e_body e)) = true ∧
  (∀ c n secret, e_otp e = Some (c :: n, secret) → totp_valid (e_time e) (l_Code (e_body e)) secret = true).
Definition value_ok (l : log) (k : gostr) (i : WafCache.WafCacheItem cached) : Prop :=
  ∀ t, WafCache.value i = CToken t → k = CACHE_TOKEN ++ AccessToken t ∧ genuine l t.
Definition cache_ok (l : log) (c : store) : Prop := map_Forall (value_ok l) c.
Record good (x : sys) : Prop := {
  good_cache : cache_ok (lg x) (cache (st x));
  good_tokens : Forall (genuine (lg x)) (tokens (st x));
  good_entries : Forall entry_ok (entries (lg x));
  good_issued : NoDup (issued (lg x));
  good_ended : ∀ t, t ∈ ended (lg x) → t ∈ issued (lg x) }.

(** *** The operations of the cache *)

Lemma cache_ok_sub l c c' : c' ⊆ c → cache_ok l c → cache_ok l c'.
Proof. intros Hsub Hc k i Hk. apply Hc. by eapply lookup_weaken. Qed.
Lemma cache_ok_plain l c k i : (∀ t, WafCache.value i ≠ CToken t) → cache_ok l c → cache_ok l (<[k := i]> c).
Proof. intros Hv Hc. apply map_Forall_insert_2; [|done]. intros t E. by destruct (Hv t). Qed.
Lemma cache_ok_token l c t k i : WafCache.value i = CToken t → k = CACHE_TOKEN ++ AccessToken t → genuine l t → cache_ok l c → cache_ok l (<[k := i]> c).
Proof. intros Hv Hk Hg Hc. apply map_Forall_insert_2; [|done]. intros t'. rewrite Hv. by intros [= <-]. Qed.
Lemma remove_sub (c : store) k : WafCache.Remove c k ⊆ c.
Proof. unfold WafCache.Remove. destruct (c !! k); [apply delete_subseteq|done]. Qed.
Lemma get_sub (c : store) now k : (WafCache.Get c now k).1 ⊆ c.
Proof. unfold WafCache.Get. destruct (c !! k) as [i|]; [|done]. destruct (WafCache.live now i); [done|apply delete_subseteq]. Qed.
Lemma exists_sub (c : store) now k : (WafCache.IsKeyExist c now k).1 ⊆ c.
Proof. unfold WafCache.IsKeyExist. destruct (c !! k) as [i|]; [|done]. destruct (WafCache.live now i); [done|apply delete_subseteq]. Qed.
Lemma expire_sub (c : store) now k : (WafCache.GetExpireTime c now k).1 ⊆ c.
Proof. unfold WafCache.GetExpireTime. destruct (c !! k) as [i|]; [|done]. destruct (WafCache.live now i); [done|apply delete_subseteq]. Qed.
Lemma int_sub (c : store) now k : (GetInt c now k).1 ⊆ c.
Proof. unfold GetInt. pose proof (get_sub c now k). by destruct (WafCache.Get c now k). Qed.
Lemma counter_sub (c : store) now k : (counter c now k).1 ⊆ c.
Proof.
  unfold counter. pose proof (exists_sub c now k) as H1'. destruct (WafCache.IsKeyExist c now k) as [c1 b]. cbn [fst] in *. destruct b; [|done].
  pose proof (int_sub c1 now k) as H2'. destruct (GetInt c1 now k) as [c2 v]. cbn in *. by etrans.
Qed.
Lemma sweep_sub (c : store) now : WafCache.ClearExpirationCache c now ⊆ c.
Proof. apply map_filter_subseteq. Qed.
Lemma getasex_ok (l : log) (c : store) now k t : cache_ok l c → cache_ok l (WafCache.GetAsEx c now k t).1.
Proof.
  intros Hc. unfold WafCache.GetAsEx. destruct (c !! k) as [i|] eqn:Ek; [|done]. destruct (negb _); [by apply (cache_ok_sub _ c); [apply delete_subseteq|]|].
  cbn [fst]. destruct (0 <? t); [|done]. apply map_Forall_insert_2; [|done]. exact (Hc k i Ek).
Qed.
End steps.

#[export] Hint Resolve remove_sub get_sub exists_sub expire_sub int_sub counter_sub sweep_sub : samwaf.

(** *** The middleware keeps what is there *)

Section keeping.
Context `{UnicodeCase} `{AccessAccount.UnicodeTables} `{World} (cfg : config).

Record tame (s s' : state) : Prop := { tame_tokens : tokens s' = tokens s; tame_cache : ∀ l, cache_ok l (cache s) → cache_ok l (cache s') }.
Definition tames (m : middleware) : Prop := ∀ c s, tame s (m c s).1.
#[export] Instance tame_preorder : PreOrder tame.
Proof. split; [by split|]. intros a b c [Ht1 Hc1] [Ht2 Hc2]. split; [by rewrite Ht2|auto]. Qed.
Lemma tame_sub s c : c ⊆ cache s → tame s (with_cache c s).
Proof. intros Hc. split; [done|]. intros l. by apply cache_ok_sub. Qed.
Lemma tame_plain s k i : (∀ t, WafCache.value i ≠ CToken t) → tame s (with_cache (<[k := i]> (cache s)) s).
Proof. intros Hi. split; [done|]. intros l. by apply cache_ok_plain. Qed.
Lemma tame_set s now k v t : (∀ t, v ≠ CToken t) → tame s (with_cache (WafCache.SetWithTTl (cache s) now k v t) s).
Proof. intros Hv. by apply tame_plain. Qed.
Lemma tame_renew s now k v t : (∀ t, v ≠ CToken t) → tame s (with_cache (WafCache.SetWithTTlRenewTime (cache s) now k v t) s).
Proof. intros Hv. by apply tame_plain. Qed.
(** Two changes of the cache in a row. *)
Lemma tame_then s c c' : tame s (with_cache c s) → tame (with_cache c s) (with_cache c' (with_cache c s)) → tame s (with_cache c' s).
Proof. intros H1' H2'. by etrans; [exact H1'|]. Qed.

Lemma chain_tames ms : Forall tames ms → tames (chain ms).
Proof.
  induction 1 as [|m ms Hm _ IH]; intros c s; cbn [chain]; [done|]. specialize (Hm c s). destruct (m c s) as [s1 [c1|e]]; cbn [fst] in *; [|done].
  by etrans; [exact Hm|].
Qed.

Lemma bump_tame now tok s : tame s (with_cache (bumpTokenBindFailure cfg now tok (cache s)).1 s).
Proof.
  unfold bumpTokenBindFailure. pose proof (int_sub (cache s) now (CACHE_TOKEN_BINDFAIL ++ tok)) as Hi. destruct (GetInt _ _ _) as [c v]. cbn [fst] in Hi.
  eapply tame_then; [by apply tame_sub|]. destruct (_ <=? _); cbn [fst]; [apply tame_sub, remove_sub|by apply tame_renew].
Qed.
Lemma bind_failure_tame now tok s : tame s (bind_failure cfg now tok s).1.
Proof.
  unfold bind_failure. pose proof (bump_tame now tok s) as Hb. destruct (bumpTokenBindFailure _ _ _ _) as [c e]. cbn [fst] in *.
  destruct e; [|done]. eapply tame_then; [exact Hb|]. apply tame_sub, remove_sub.
Qed.
Lemma touch_tame now ip s c : tame s (with_cache c s) → tame s (with_cache (TouchAdminIP now ip c) s).
Proof.
  intros Hc. unfold TouchAdminIP. destruct (bool_decide _); [done|]. destruct (parse_ip _); [|done]. eapply tame_then; [exact Hc|]. by apply tame_renew.
Qed.
Lemma clear_tame tok s : tame s (with_cache (clearTokenBindFailure cfg tok (cache s)) s).
Proof. unfold clearTokenBindFailure. destruct (_ && _); apply tame_sub; [done|apply remove_sub]. Qed.
Lemma check_tames now r tok t : tames (check_token cfg now r tok t).
Proof.
  intros c s. unfold check_token. pose proof (bind_failure_tame now tok s) as Hb. pose proof (touch_tame now (GetManageIP cfg r) s _ (clear_tame tok s)) as Ht.
  destruct (negb (negb _ || _)); [by destruct (bind_failure _ _ _ _)|]. destruct (negb (negb _ || _)); [by destruct (bind_failure _ _ _ _)|].
  by repeat (destruct (_ && _); [exact Ht|]).
Qed.
Lemma token_auth_tames now r : tames (token_auth cfg now r).
Proof.
  intros c s. unfold token_auth. destruct (bool_decide _); [done|].
  assert (Hg : tame s (with_cache (WafCache.GetAsEx (cache s) now (CACHE_TOKEN ++ extractTokenStr r) (minutes (RECORD_TOKEN_EXPIRE_MINTUTES cfg))).1 s)).
  { split; [done|]. intros l. apply getasex_ok. }
  destruct (WafCache.GetAsEx _ _ _ _) as [ca v]. cbn [fst] in Hg. destruct v as [[n| |t]|]; try exact Hg. destruct (bool_decide _); [exact Hg|].
  etrans; [exact Hg|]. apply check_tames.
Qed.
Lemma key_tames now r k : tames (ValidateOpenApiKey cfg now r k).
Proof.
  intros c s. unfold ValidateOpenApiKey. destruct (_ && _); [done|]. destruct (GetByApiKey s k) as [key|]; [|done].
  repeat (destruct (_ && _); [done|]; try (destruct (negb (_ =? _)); [done|])). destruct (negb _); [done|]. repeat (destruct (_ && _); [done|]).
  destruct (0 <? RateLimit key); [|done]. unfold count_call. destruct (default _ _) as [n w]. by destruct (w <? now), (_ <? _); split.
Qed.
Lemma auth_tames now r : tames (Auth cfg now r).
Proof. unfold Auth. destruct (header _ _); [apply token_auth_tames|apply key_tames]. Qed.
Lemma token_only_tames now r : tames (TokenOnlyAuth cfg now r).
Proof. intros c s. unfold TokenOnlyAuth. destruct (header _ _); [apply auth_tames|done]. Qed.
Lemma role_tames roles : tames (RequireRole roles).
Proof. intros c s. unfold RequireRole. destruct (is_openapi c); [done|]. by destruct (_ || _). Qed.
Lemma replay_tames now r : tames (ReplayProtect cfg now r).
Proof.
  intros c s. unfold ReplayProtect. destruct (_ =? 0); [done|]. destruct (is_openapi c); [done|]. destruct (bool_decide _); [done|]. destruct (replay_fields r) as [ts nonce].
  destruct (bool_decide _); [done|]. destruct (parse_int ts); [|done]. destruct (_ || _); [done|]. destruct (_ || _); [done|].
  pose proof (exists_sub (cache s) now (CACHE_REPLAY_NONCE ++ nonce)) as He. destruct (WafCache.IsKeyExist _ _ _) as [c1 b]. cbn [fst] in He. destruct b; [by apply tame_sub|].
  eapply (tame_then s c1); [by apply tame_sub|]. by apply tame_set.
Qed.
Lemma address_tames r : tames (IPWhitelist_ cfg r).
Proof. intros c s. unfold IPWhitelist_. by destruct (address_allowed _ _). Qed.
Lemma domain_tames r : tames (DomainWhitelist cfg r).
Proof. intros c s. unfold DomainWhitelist. by destruct (domain_allowed _ _). Qed.
#[local] Hint Resolve auth_tames token_only_tames role_tames replay_tames address_tames domain_tames : samwaf.
Ltac tame_list := apply chain_tames; repeat (apply Forall_cons; split); auto with samwaf.
Lemma router_tames now r : tames (RouterGroup cfg now r).
Proof. tame_list. Qed.
#[local] Hint Resolve router_tames : samwaf.
Lemma groups_tame g now r : g ∈ groups cfg → tames (g now r).
Proof.
  unfold groups. rewrite !elem_of_cons. intros [->|[->|[->|[->|[->|[->|[->|Hn]]]]]]]; [..|by apply not_elem_of_nil in Hn]; auto with samwaf; tame_list.
Qed.
End keeping.

(** *** Signing in and out, accounts, reloading *)

Section handlers.
Context `{UnicodeCase} `{AccessAccount.UnicodeTables} `{World} (cfg : config).

Lemma second_factor_tame now b s : tame s (second_factor cfg now b s).1.
Proof.
  unfold second_factor. destruct (otp_of s (l_Account b)) as [[[|x name] secret]|]; [done| |done].
  pose proof (counter_sub (cache s) now (CACHE_OTP_ERROR ++ l_Account b)) as Hc. destruct (counter _ _ _) as [ca n]. cbn [fst] in Hc.
  destruct (_ <=? n); cbn [fst]; [by apply tame_sub|]. destruct (totp_valid _ _ _); (eapply (tame_then s ca); [by apply tame_sub|]); [apply tame_sub, remove_sub|by apply tame_set].
Qed.

(** What a successful login did. *)
Record signed (now : Z) (r : incoming) (b : login_req) (a : Account) (uuid : gostr) (s s' : state) (t : TokenInfo) : Prop := {
  sg_account : account_of s (l_Account b) = Some a;
  sg_password : VerifyPassword (a_Password a) (l_Password b) = true;
  sg_code : ∀ c n secret, otp_of s (l_Account b) = Some (c :: n, secret) → totp_valid now (l_Code b) secret = true;
  sg_token : t = demand_change (must_change cfg a now) (new_token cfg now r a uuid);
  sg_state : ∃ s1, tame s s1 ∧ otps s1 = otps s ∧ sign_in cfg now r b a uuid s1 = (s', SignedIn t) }.

Lemma sign_in_ok now r b a uuid s : ∃ s', sign_in cfg now r b a uuid s = (s', SignedIn (demand_change (must_change cfg a now) (new_token cfg now r a uuid))).
Proof. by eexists. Qed.
Lemma second_factor_otps now b s : otps (second_factor cfg now b s).1 = otps s.
Proof.
  unfold second_factor. destruct (otp_of s (l_Account b)) as [[[|x name] secret]|]; [done| |done]. destruct (counter _ _ _) as [ca n].
  destruct (_ <=? n); [done|]. by destruct (totp_valid _ _ _).
Qed.
Lemma second_factor_valid now b s x name secret : (second_factor cfg now b s).2 = None → otp_of s (l_Account b) = Some (x :: name, secret) → totp_valid now (l_Code b) secret = true.
Proof.
  intros Hn Eo. revert Hn. unfold second_factor. rewrite Eo. destruct (counter _ _ _) as [ca n]. destruct (_ <=? n); [done|]. by destruct (totp_valid _ _ _).
Qed.
Lemma second_factor_no_token now b s t : (second_factor cfg now b s).2 ≠ Some (SignedIn t).
Proof.
  unfold second_factor. destruct (otp_of s (l_Account b)) as [[[|x name] secret]|]; [done| |done]. destruct (counter _ _ _) as [ca n].
  destruct (_ <=? n); [done|]. by destruct (totp_valid _ _ _).
Qed.

Lemma login_cases now r body uuid s :
  (∃ b a t, body = Some b ∧ (LoginApi cfg now r body uuid s).2 = SignedIn t ∧ signed now r b a uuid s (LoginApi cfg now r body uuid s).1 t) ∨
  ((∀ t, (LoginApi cfg now r body uuid s).2 ≠ SignedIn t) ∧ tame s (LoginApi cfg now r body uuid s).1).
Proof.
  unfold LoginApi. destruct body as [b|]; [|by right]. destruct (bool_decide _); [by right|]. destruct (account_of s (l_Account b)) as [a|] eqn:Ea; [|by right].
  pose proof (counter_sub (cache s) now (CACHE_LOGIN_ERROR ++ GetManageIP cfg r)) as Hc. destruct (counter _ _ _) as [c n]. cbn [fst] in Hc.
  assert (H1' : tame s (with_cache c s)) by (by apply tame_sub).
  destruct (_ <=? n); [by right|]. destruct (VerifyPassword (a_Password a) (l_Password b)) eqn:Ev; cbn [negb].
  2: { right. split; [done|]. etrans; [exact H1'|]. by apply tame_set. }
  pose proof (second_factor_tame now b (with_cache c s)) as H2'. pose proof (second_factor_valid now b (with_cache c s)) as Hv.
  pose proof (second_factor_no_token now b (with_cache c s)) as Hno. pose proof (second_factor_otps now b (with_cache c s)) as Ho.
  destruct (second_factor cfg now b (with_cache c s)) as [s1 [e|]]; cbn [fst snd] in *.
  - right. split; [intros t ->; by destruct (Hno t)|]. by etrans.
  - left. exists b, a. destruct (sign_in_ok now r b a uuid s1) as [s' Es]. eexists. rewrite Es. split_and!; [done|done|].
    split; [done|done| |done|]. { intros x name secret Eo. by eapply Hv. } exists s1. split_and!; [by etrans|done|done].
Qed.

Lemma filter_twice {A} (f : A → bool) l : List.filter f (List.filter f l) = List.filter f l.
Proof. induction l as [|x l IH]; [done|]. cbn. destruct (f x) eqn:E; cbn; [by rewrite E, IH|done]. Qed.
Lemma filter_none_left {A} (f : A → bool) l : List.filter f l = [] → l = List.filter (λ x, negb (f x)) l.
Proof. induction l as [|x l IH]; [done|]. cbn. destruct (f x); [done|]. cbn. intros He. f_equal. auto. Qed.
Lemma removed (c : store) k : WafCache.Remove c k !! k = None.
Proof. unfold WafCache.Remove. destruct (c !! k) eqn:E; [apply lookup_delete_eq|done]. Qed.

(** Ending the old sessions of a login. *)
Lemma end_old_spec name type_ s :
  tokens (end_old_sessions name type_ s) = List.filter (λ t, negb (same_login name type_ t)) (tokens s) ∧
  cache (end_old_sessions name type_ s) ⊆ cache s ∧
  ∀ t, t ∈ GetAllTokenInfoByLoginAccountAndType s name type_ → cache (end_old_sessions name type_ s) !! (CACHE_TOKEN ++ AccessToken t) = None.
Proof.
  unfold end_old_sessions, GetAllTokenInfoByLoginAccountAndType. set (old := List.filter (same_login name type_) (tokens s)).
  assert (Hold : Forall (λ t, same_login name type_ t = true) old) by (apply Forall_forall; intros t Ht%list_elem_of_In%filter_In; by apply Ht).
  assert (Htok : old = [] → tokens s = List.filter (λ t, negb (same_login name type_ t)) (tokens s)).
  { unfold old. clear. apply filter_none_left. }
  assert (Hgen : ∀ l s0, Forall (λ t, same_login name type_ t = true) l →
    let s1 := foldl (λ s t, with_cache (WafCache.Remove (cache s) (CACHE_TOKEN ++ AccessToken t)) (DelApiByAccountAndType (LoginAccount t) (LoginType t) s)) s0 l in
    tokens s1 = match l with [] => tokens s0 | _ => List.filter (λ t, negb (same_login name type_ t)) (tokens s0) end ∧ cache s1 ⊆ cache s0 ∧
    ∀ t, t ∈ l → cache s1 !! (CACHE_TOKEN ++ AccessToken t) = None).
  { clear. intros l. induction l as [|x l IH]; intros s0 Hl; [split_and!; [done|done|by intros ? ?%not_elem_of_nil]|].
    apply Forall_cons in Hl as [Hx Hl]. cbn [foldl]. destruct (IH (with_cache (WafCache.Remove (cache s0) (CACHE_TOKEN ++ AccessToken x)) (DelApiByAccountAndType (LoginAccount x) (LoginType x) s0)) Hl) as (Ht & Hc & Hn).
    apply andb_true_iff in Hx as [Hx1%bool_decide_eq_true Hx2%bool_decide_eq_true]. split_and!.
    - rewrite Ht. cbn [with_cache tokens DelApiByAccountAndType with_tokens]. rewrite Hx1, Hx2. destruct l; [done|]. by rewrite filter_twice.
    - etrans; [exact Hc|]. apply remove_sub.
    - intros t [->|Hin]%elem_of_cons; [|by apply Hn]. apply (lookup_weaken_None _ _ _ (removed _ _) Hc). }
  destruct (Hgen old s Hold) as (Ht & Hc & Hn). split_and!; [|done|done]. rewrite Ht. destruct old eqn:E; [by apply Htok|done].
Qed.
End handlers.

(** *** The invariant is kept *)

Section invariant.
Context `{UnicodeCase} `{AccessAccount.UnicodeTables} `{World} (cfg : config).

Lemma genuine_more l es xs t : genuine l t → AccessToken t ∉ xs → genuine (mkLog (entries l ++ es) (ended l ++ xs)) t.
Proof. intros [Hn (e & He & Es)] Hx. split; [cbn; rewrite not_elem_of_app; done|]. exists e. split; [cbn; rewrite elem_of_app; by left|done]. Qed.
Lemma genuine_issued l t : genuine l t → AccessToken t ∈ issued l.
Proof. intros [_ (e & He & Es)]. apply (f_equal AccessToken) in Es. cbn in Es. rewrite <- Es. unfold issued. apply list_elem_of_fmap. by exists e. Qed.
Lemma same_entry l e f : NoDup (issued l) → e ∈ entries l → f ∈ entries l → AccessToken (e_token e) = AccessToken (e_token f) → e = f.
Proof.
  unfold issued. intros Hnd. induction (entries l) as [|x es IH]; [by intros ?%not_elem_of_nil|]. cbn in Hnd. apply NoDup_cons in Hnd as [Hx Hnd].
  intros [->|He]%elem_of_cons [->|Hf]%elem_of_cons E; [done| | |by apply IH];
    destruct Hx; [rewrite E|rewrite <- E]; apply list_elem_of_fmap; eauto.
Qed.
Lemma same_session l t u : NoDup (issued l) → genuine l t → genuine l u → AccessToken t = AccessToken u → settled_token t = settled_token u.
Proof.
  intros Hnd [_ (e & He & Ee)] [_ (f & Hf & Ef)] E. rewrite <- Ee, <- Ef. f_equal. f_equal. apply (same_entry l); [done..|].
  apply (f_equal AccessToken) in Ee, Ef. cbn in Ee, Ef. congruence.
Qed.

(** A log that has grown: what is not among the tokens that ended stays as it was. *)
Lemma cache_ok_more l es xs c : cache_ok l c → (∀ x, x ∈ xs → c !! (CACHE_TOKEN ++ x) = None) → cache_ok (mkLog (entries l ++ es) (ended l ++ xs)) c.
Proof.
  intros Hc Hx k i Hk t Hv. destruct (Hc k i Hk t Hv) as [-> Hg]. split; [done|]. apply genuine_more; [done|]. intros Hin. by rewrite (Hx _ Hin) in Hk.
Qed.

Definition state_ok (l : log) (s : state) : Prop := cache_ok l (cache s) ∧ Forall (genuine l) (tokens s).
Lemma tame_ok l s s' : tame s s' → state_ok l s → state_ok l s'.
Proof. intros [Ht Hc] [H1' H2']. split; [auto|by rewrite Ht]. Qed.

Lemma upgrade_same name plain s : tokens (UpgradePasswordHash name plain s) = tokens s ∧ cache (UpgradePasswordHash name plain s) = cache s.
Proof. unfold UpgradePasswordHash. by destruct (BcryptHash plain) as [[|? ?]|]. Qed.

Lemma sign_in_good now r b a uuid s s' t l e :
  state_ok l s → NoDup (issued l) → (∀ x, x ∈ ended l → x ∈ issued l) → Md5String uuid ∉ issued l →
  sign_in cfg now r b a uuid s = (s', SignedIn t) → e_token e = t →
  state_ok (mkLog (entries l ++ [e]) (ended l ++ map AccessToken (GetAllTokenInfoByLoginAccountAndType s (l_Account b) (login_type r)))) s'.
Proof.
  intros [Hc Hts] Hnd Hend Hnew Es He. unfold sign_in in Es.
  set (s1 := with_cache _ s) in Es. set (s2 := if IsBcryptHash _ then s1 else _) in Es.
  assert (E2 : tokens s2 = tokens s ∧ cache s2 ⊆ cache s).
  { unfold s2. destruct (IsBcryptHash _); [split; [done|apply remove_sub]|]. destruct (upgrade_same (a_Login a) (l_Password b) s1) as [-> ->]. split; [done|apply remove_sub]. }
  destruct E2 as [Et2 Ec2]. destruct (end_old_spec (l_Account b) (login_type r) s2) as (Et3 & Ec3 & Hgone).
  set (s3 := end_old_sessions _ _ s2) in *. injection Es as <- <-. unfold GetAllTokenInfoByLoginAccountAndType in *. rewrite Et2 in *.
  set (old := List.filter (same_login (l_Account b) (login_type r)) (tokens s)) in *. set (row := new_token cfg now r a uuid) in *.
  assert (Hold : ∀ x, x ∈ old → genuine l x ∧ same_login (l_Account b) (login_type r) x = true).
  { intros x Hx%list_elem_of_In%filter_In. destruct Hx as [Hx1%list_elem_of_In Hx2]. rewrite Forall_forall in Hts. auto. }
  assert (Hrow : genuine (mkLog (entries l ++ [e]) (ended l ++ map AccessToken old)) row).
  { split.
    - cbn. rewrite elem_of_app. intros [Hx|(x & Ex & Hx)%list_elem_of_fmap]; [by apply Hnew, Hend|]. apply Hnew. apply Hold in Hx as [Hx%genuine_issued _]. by rewrite <- Ex in Hx.
    - exists e. cbn [entries]. split; [rewrite elem_of_app; right; by left|]. rewrite He. by destruct (must_change cfg a now). }
  split; cbn [cache with_cache].
  - eapply (cache_ok_token _ _ (demand_change (must_change cfg a now) row)); [done|done| |].
    { split; [apply Hrow|]. destruct (proj2 Hrow) as (f & Hf & Ef). exists f. split; [done|]. rewrite Ef. by destruct (must_change cfg a now). }
    apply cache_ok_more; [eapply cache_ok_sub; [|exact Hc]; etrans; [exact Ec3|exact Ec2]|]. intros x (y & -> & Hy)%list_elem_of_fmap. by apply Hgone.
  - cbn [tokens with_tokens]. rewrite Et3. apply Forall_app. split; [|by constructor]. apply Forall_forall. intros x Hx%list_elem_of_In%filter_In.
    destruct Hx as [Hx1%list_elem_of_In Hx2]. rewrite Forall_forall in Hts. pose proof (Hts x Hx1) as Hg. apply genuine_more; [done|].
    intros (y & Ey & Hy)%list_elem_of_fmap. destruct (Hold y Hy) as [Hgy Hsy]. pose proof (same_session l x y Hnd Hg Hgy Ey) as E.
    apply (f_equal LoginAccount) in E as E1. apply (f_equal LoginType) in E as E3. cbn in E1, E3. unfold same_login in *. by rewrite E1, E3, Hsy in Hx2.
Qed.

Lemma log_login_ended l es xs : (∀ x, x ∈ ended l → x ∈ issued l) → (∀ x, x ∈ xs → x ∈ issued l) →
  ∀ x, x ∈ ended (mkLog (entries l ++ es) (ended l ++ xs)) → x ∈ issued (mkLog (entries l ++ es) (ended l ++ xs)).
Proof.
  intros H1' H2' x. cbn [ended]. unfold issued. cbn [entries]. rewrite elem_of_app, map_app, elem_of_app. intros [Hx|Hx]; left; [by apply H1'|by apply H2'].
Qed.

Lemma logout_good r s l t : state_ok l s → NoDup (issued l) → GetInfoByAccessToken s (request_token r) = Some t →
  genuine l t ∧ state_ok (mkLog (entries l ++ []) (ended l ++ [AccessToken t])) (LoginOutApi r s).1.
Proof.
  intros [Hc Hts] Hnd Hf. unfold LoginOutApi. rewrite Hf. unfold GetInfoByAccessToken in Hf. apply find_some in Hf as [Hin%list_elem_of_In _].
  rewrite Forall_forall in Hts. pose proof (Hts t Hin) as Hg. split; [done|]. split; cbn [fst with_cache with_tokens cache tokens].
  - apply cache_ok_more; [eapply cache_ok_sub; [apply remove_sub|done]|]. intros x ->%list_elem_of_singleton. apply removed.
  - apply Forall_forall. intros x Hx%list_elem_of_In%filter_In. destruct Hx as [Hx1%list_elem_of_In Hx2]. apply genuine_more; [by apply Hts|].
    intros E%list_elem_of_singleton. pose proof (same_session l x t Hnd (Hts x Hx1) Hg E) as Es. apply (f_equal LoginAccount) in Es. cbn in Es.
    by rewrite Es, E, !bool_decide_true in Hx2.
Qed.

Lemma reload_cache l ts : ∀ now c ttl, Forall (genuine l) ts → cache_ok l c →
  cache_ok l (foldl (λ c t, if now <? UPDATE_TIME t + ttl then WafCache.SetWithTTlRenewTime c now (CACHE_TOKEN ++ AccessToken t) (CToken t) ttl else c) c ts).
Proof.
  intros now c ttl Hts. revert c. induction Hts as [|t ts Ht _ IH]; intros c Hc; [done|]. cbn [foldl]. apply IH. destruct (_ <? _); [|done]. by eapply cache_ok_token.
Qed.
Lemma reload_ok now l s : state_ok l s → state_ok l (ReloadAllValidTokensToCache cfg now s).
Proof. intros [Hc Hts]. split; [by apply reload_cache|done]. Qed.

Lemma clear_need_ok now r l s : state_ok l s → state_ok l (clearTokenNeedChangePassword cfg now r s).
Proof.
  intros [Hc Hts]. unfold clearTokenNeedChangePassword. destruct (bool_decide (_ = [])); [done|]. set (tok := if _ && _ then _ else _).
  pose proof (get_sub (cache s) now (CACHE_TOKEN ++ tok)) as Hsub. destruct (WafCache.Get _ _ _) as [c v] eqn:Eg. cbn [fst] in Hsub.
  assert (H1' : cache_ok l c) by (by eapply cache_ok_sub). destruct v as [[n| |t]|]; [by split..| |by split].
  unfold WafCache.Get in Eg. destruct (cache s !! (CACHE_TOKEN ++ tok)) as [i|] eqn:Ei; [|done]. destruct (WafCache.live now i); [|done]. injection Eg as <- Ev.
  destruct (Hc _ _ Ei t Ev) as [Ek Hg]. pose proof (expire_sub (cache s) now (CACHE_TOKEN ++ tok)) as He. destruct (WafCache.GetExpireTime _ _ _) as [c' e]. cbn [fst] in He.
  split; [|done]. cbn [cache with_cache]. eapply cache_ok_token; [done|done|exact Hg|]. by eapply cache_ok_sub.
Qed.

(** The operations on accounts leave cache and sessions alone, but for the mark. *)
Lemma record_same name hash s : tokens (recordPwdHistory cfg name hash s) = tokens s ∧ cache (recordPwdHistory cfg name hash s) = cache s.
Proof. unfold recordPwdHistory. by destruct (_ <=? 0). Qed.
Lemma recorded_same s1 s2 s : tokens s1 = tokens s ∧ cache s1 = cache s → tokens s2 = tokens s1 ∧ cache s2 = cache s1 → tokens s2 = tokens s ∧ cache s2 = cache s.
Proof. by intros [<- <-] [-> ->]. Qed.
Lemma store_same now a plain need s s' : store_password cfg now a plain need s = Ok s' → tokens s' = tokens s ∧ cache s' = cache s.
Proof. unfold store_password. destruct (ValidateNewPassword _ _ _ _); [|done]. destruct (BcryptHash plain); [|done]. intros [= <-]. eapply (recorded_same (update_accounts _ _ _)); [done|apply record_same]. Qed.
Lemma account_cache now s s' : account_step cfg now s s' →
  (tokens s' = tokens s ∧ cache s' = cache s) ∨
  ∃ r s1, (tokens s1 = tokens s ∧ cache s1 = cache s) ∧ s' = clearTokenNeedChangePassword cfg now r s1.
Proof.
  intros [c q id z Hz|c q z Hz|c id z Hz|r c old new new2 z Hz|name super new new2 z Hz|r c name z Hz|o]; [left..|right|left|left|by left].
  - unfold AddApi in Hz. repeat step_if_in Hz; try done. unfold createAccount in Hz. destruct (BcryptHash _); [|done]. injection Hz as <-. eapply (recorded_same (with_accounts _ s)); [done|apply record_same].
  - unfold ModifyApi in Hz. repeat step_if_in Hz; try done. by injection Hz as <-.
  - unfold DelAccountApi in Hz. repeat step_if_in Hz; try done. by injection Hz as <-.
  - unfold ChangeMyPasswordApi in Hz. destruct (negb (bool_decide (new = new2))); [done|]. destruct (loginAccount c) as [[|? ?]|]; [done| |done].
    destruct (account_of s _) as [a0|]; [|done]. destruct (negb _); [done|]. destruct (VerifyPassword _ new); [done|]. destruct (store_password _ _ _ _ _ _) as [s1|] eqn:Es; [|done].
    injection Hz as <-. exists r, s1. split; [by eapply store_same|done].
  - unfold ResetAccountPwdApi in Hz. repeat step_if_in Hz; try done. by eapply store_same.
  - unfold ResetAccountOTPApi in Hz. repeat step_if_in Hz; try done. by injection Hz as <-.
Qed.
Lemma account_ok now l s s' : account_step cfg now s s' → state_ok l s → state_ok l s'.
Proof.
  intros [[E1 E2]|(r & s1 & [E1 E2] & ->)]%account_cache Hs; [|apply clear_need_ok]; unfold state_ok; by rewrite E1, E2.
Qed.
End invariant.

Section reach.
Context `{UnicodeCase} `{AccessAccount.UnicodeTables} `{World} (cfg : config).

Lemma good_state x s : good x → state_ok (lg x) s → ∀ t, good (mkSys t s (lg x)).
Proof. intros [Hc Ht He Hi Hen] [Hc' Ht'] t. by split. Qed.
Lemma good_ok x : good x → state_ok (lg x) (st x).
Proof. intros [Hc Ht _ _ _]. by split. Qed.

Lemma login_good now s l r body uuid : good (mkSys now s l) → Md5String uuid ∉ issued l →
  good (mkSys now (LoginApi cfg now r body uuid s).1 (log_login now s r body (LoginApi cfg now r body uuid s).2 l)).
Proof.
  intros Hg Hnew. pose proof (good_ok _ Hg) as Hs. cbn [st lg] in Hs. destruct Hg as [_ _ He Hi Hen]. cbn [lg st] in *.
  destruct (login_cases cfg now r body uuid s) as [(b & a & t & -> & Er & [Ha Hv Hc Ht (s1 & Hs1 & Ho & Esign)])|[Hno Ht]].
  - rewrite Er. cbn [log_login]. rewrite Ha. pose proof (tame_tokens _ _ Hs1) as Etok.
    assert (Esame : GetAllTokenInfoByLoginAccountAndType s1 (l_Account b) (login_type r) = GetAllTokenInfoByLoginAccountAndType s (l_Account b) (login_type r))
      by (unfold GetAllTokenInfoByLoginAccountAndType; by rewrite Etok).
    set (e := mkEntry t a b (otp_of s (l_Account b)) now).
    destruct (sign_in_good cfg now r b a uuid s1 _ t l e (tame_ok _ _ _ Hs1 Hs) Hi Hen Hnew Esign eq_refl) as [Hc' Ht']. rewrite Esame in Hc', Ht'.
    split; cbn [lg st]; [done|done| | |].
    + apply Forall_app. split; [done|]. constructor; [|constructor]. unfold account_of in Ha. apply find_some in Ha as [_ Ha%bool_decide_eq_true]. subst t e.
      split_and!; cbn [e_token e_account e_body e_otp e_time]; [by destruct (must_change cfg a now)|by destruct (must_change cfg a now)|done|done|done].
    + unfold issued. cbn [entries]. rewrite map_app. apply NoDup_app. split_and!; [done| |by apply NoDup_singleton]. intros x Hx ->%list_elem_of_singleton.
      apply Hnew. subst t. cbn in Hx. by destruct (must_change cfg a now).
    + apply log_login_ended; [done|]. intros x (y & -> & Hy)%list_elem_of_fmap. unfold GetAllTokenInfoByLoginAccountAndType in Hy.
      apply list_elem_of_In, filter_In in Hy as [Hy%list_elem_of_In _]. destruct Hs as [_ Hts]. rewrite Forall_forall in Hts. by apply genuine_issued, Hts.
  - assert (El : log_login now s r body (LoginApi cfg now r body uuid s).2 l = l).
    { unfold log_login. destruct (LoginApi cfg now r body uuid s).2 eqn:E; try done. by destruct (Hno t). }
    rewrite El. destruct (tame_ok _ _ _ Ht Hs) as [Hc' Ht']. by split.
Qed.

Lemma manage_step_good x y : step cfg x y → good x → good y.
Proof.
  intros Hstep Hg. pose proof (good_ok _ Hg) as Hs.
  destruct Hstep as [now s l t _|now s l g r Hin|now s l r body uuid Hnew|now s l r|now s l s' Ha|now s l ks|now s l|now s l|now s l c Hown Hoth]; cbn [st lg] in *.
  - by apply (good_state (mkSys now s l)).
  - apply (good_state (mkSys now s l)); [done|]. eapply tame_ok; [|done]. by eapply groups_tame.
  - by apply login_good.
  - unfold log_logout. destruct (GetInfoByAccessToken s (request_token r)) as [t|] eqn:Ef.
    + destruct Hg as [_ _ He Hi Hen]. cbn [lg st] in *. destruct (logout_good r s l t Hs Hi Ef) as [Hgen [Hc Ht]]. rewrite app_nil_r in Hc, Ht. split; cbn [lg st entries]; [done..|].
      intros x. cbn [ended issued entries]. rewrite elem_of_app. intros [Hx| ->%list_elem_of_singleton]; [by apply Hen|by apply genuine_issued in Hgen].
    + apply (good_state (mkSys now s l)); [done|]. unfold LoginOutApi. by rewrite Ef.
  - apply (good_state (mkSys now s l)); [done|]. by eapply account_ok.
  - by apply (good_state (mkSys now s l)).
  - apply (good_state (mkSys now s l)); [done|]. by apply reload_ok.
  - apply (good_state (mkSys now s l)); [done|]. destruct Hs as [Hc Ht]. split; [|done]. eapply cache_ok_sub; [|done]. apply sweep_sub.
  - apply (good_state (mkSys now s l)); [done|]. destruct Hs as [Hc Ht]. split; [|done]. intros k i Hk. cbn [cache with_cache] in Hk.
    destruct (own_key k) eqn:Eo; [rewrite Hown in Hk by done; by apply Hc|]. intros t Hv. by destruct (Hoth k i Hk Eo t).
Qed.
Lemma manage_good x : reachable cfg x → good x.
Proof.
  intros (x0 & (Ht & Hc & Hl) & Hr). assert (Hg : good x0).
  { destruct x0 as [now s l]. cbn in *. subst l. split; cbn [st lg]; [rewrite Hc; intros k i Hk; by rewrite lookup_empty in Hk|by rewrite Ht|constructor|constructor|by intros t ?%not_elem_of_nil]. }
  clear Ht Hc Hl. induction Hr as [x|x y z Hxy _ IH]; [done|]. apply IH. destruct Hxy as [x y Hxy|now s l]; [by eapply manage_step_good|].
  apply (good_state (mkSys now s l)); [done|]. unfold restart. apply reload_ok. destruct (good_ok _ Hg) as [_ Hts]. split; [|done]. intros k i Hk. cbn in Hk. by rewrite lookup_empty in Hk.
Qed.

(** ** Calls are justified *)

(** The session [e] carries the request [r], on its own conditions. *)
Definition carried (r : incoming) (e : entry) : Prop :=
  AccessToken (e_token e) = extractTokenStr r ∧
  (ENABLE_STRICT_IP_BINDING cfg = 1 → LoginIp (e_token e) = GetManageIP cfg r) ∧
  (ENABLE_DEVICE_FINGERPRINT cfg = 1 → isFingerprintExemptPath r = false → DeviceFingerprint (e_token e) = [] ∨ DeviceFingerprint (e_token e) = GenerateFingerprint r).
(** The API key [k] opens the request. *)
Definition opens (now : Z) (r : incoming) (k : OPlatformKey) : Prop :=
  (ApiKey k = header r $"X-API-Key" ∨ DataDecrypt (ApiKey k) = Some (header r $"X-API-Key")) ∧ k_Status k = 1 ∧
  (LocalOnly k = 1 ∧ isDirectLoopbackRequest cfg r = true ∨ LocalOnly k ≠ 1 ∧ OPEN_PLATFORM_ENABLED cfg ≠ 0) ∧
  (∀ t, k_ExpireTime k ≠ [] → parse_time (k_ExpireTime k) = Some t → now ≤ t) ∧
  (IPWhitelist k = [] ∨ key_address (IPWhitelist k) (GetManageIP cfg r) = true).

Lemma chain_ok ms c s s' c' : chain ms c s = (s', Ok c') →
  match ms with [] => c' = c | m :: ms' => ∃ s1 c1, m c s = (s1, Ok c1) ∧ chain ms' c1 s1 = (s', Ok c') end.
Proof. destruct ms as [|m ms]; cbn; [by intros [= _ <-]|]. destruct (m c s) as [s1 [c1|e]]; [|done]. intros Hc. by exists s1, c1. Qed.
Lemma key_ok now r k c s s' c' : ValidateOpenApiKey cfg now r k c s = (s', Ok c') → header r $"X-API-Key" = k →
  ∃ key, key ∈ keys s ∧ opens now r key ∧ is_openapi c' = true.
Proof.
  unfold ValidateOpenApiKey. intros Hk Hh. destruct (GetByApiKey s k) as [key|] eqn:Ef; [|by destruct (_ && _)]. exists key.
  assert (Hin : key ∈ keys s ∧ (ApiKey key = k ∨ DataDecrypt (ApiKey key) = Some k)).
  { unfold GetByApiKey in Ef. cbv zeta in Ef. assert (Hopen : ∀ q, List.find (λ x, q x && bool_decide (DataDecrypt (ApiKey x) = Some k)) (keys s) = Some key → key ∈ keys s ∧ (ApiKey key = k ∨ DataDecrypt (ApiKey key) = Some k)).
    { intros q [Hq1%list_elem_of_In Hq2]%find_some. prop_of_bool. auto. }
    destruct (List.find (λ x, bool_decide (ApiKey x = k)) (keys s)) as [k0|] eqn:Ek; [|eapply Hopen, Ef].
    destruct (_ && _); [eapply Hopen, Ef|]. injection Ef as ->. apply find_some in Ek as [Hq1%list_elem_of_In Hq2]. prop_of_bool. auto. }
  destruct Hin as [Hin Heq]. split; [done|]. unfold opens. rewrite Hh.
  destruct ((OPEN_PLATFORM_ENABLED cfg =? 0) && negb (LocalOnly key =? 1)) eqn:Eo; [done|]. destruct (negb (k_Status key =? 1)) eqn:Es; [done|].
  destruct ((LocalOnly key =? 1) && negb (isDirectLoopbackRequest cfg r)) eqn:El; [done|]. destruct (negb (bool_decide (k_ExpireTime key = [])) && _) eqn:Ee; [done|].
  destruct (negb (bool_decide (IPWhitelist key = [])) && _) eqn:Ew; [done|].
  assert (Hc : is_openapi c' = true).
  { destruct (if 0 <? RateLimit key then _ else _) as [s2 lim]. destruct lim; [done|]. by injection Hk as _ <-. }
  split; [|done]. apply andb_false_iff in Eo, El, Ee, Ew. apply negb_false_iff, Z.eqb_eq in Es. split_and!; [done|done| | |].
  - destruct (Z.eqb_spec (LocalOnly key) 1); [left; destruct El as [El|El%negb_false_iff]; [done|done]|right; split; [done|]]. destruct Eo as [Eo|Eo]; [by apply Z.eqb_neq|done].
  - intros t Hne Hp. rewrite bool_decide_false in Ee by done. destruct Ee as [Ee|Ee]; [done|]. rewrite Hp in Ee. by apply Z.ltb_ge.
  - destruct Ew as [Ew%negb_false_iff%bool_decide_eq_true|Ew%negb_false_iff]; auto.
Qed.
Lemma token_ok now r c s s' c' l : cache_ok l (cache s) → token_auth cfg now r c s = (s', Ok c') →
  ∃ e, e ∈ entries l ∧ AccessToken (e_token e) ∉ ended l ∧ carried r e ∧
    loginAccount c' = Some (LoginAccount (e_token e)) ∧ userRole c' = Some (NormalizeRole (Role (e_token e))) ∧ is_openapi c' = is_openapi c.
Proof.
  intros Hc. unfold token_auth. destruct (bool_decide (extractTokenStr r = [])); [done|]. destruct (WafCache.GetAsEx _ _ _ _) as [ca v] eqn:Eg.
  destruct v as [[n| |t]|]; [done|done| |done]. destruct (bool_decide (LoginAccount t = [])); [done|]. unfold WafCache.GetAsEx in Eg.
  destruct (cache s !! _) as [i|] eqn:Ei; [|done]. destruct (negb (WafCache.live now i)); [done|]. injection Eg as _ Ev. destruct (Hc _ _ Ei t Ev) as [Ek [Hn (e & He & Ee)]].
  apply app_inv_head in Ek. unfold check_token. cbv zeta.
  match goal with |- (if ?b then _ else _) = _ → _ => destruct b eqn:Ef end; [by destruct (bind_failure _ _ _ _)|].
  match goal with |- (if ?b then _ else _) = _ → _ => destruct b eqn:Em end; [by destruct (bind_failure _ _ _ _)|].
  do 2 (match goal with |- (if ?b then _ else _) = _ → _ => destruct b end; [done|]). intros [= _ <-]. cbn [loginAccount userRole is_openapi].
  pose proof (f_equal AccessToken Ee) as E1. pose proof (f_equal LoginAccount Ee) as E2. pose proof (f_equal Role Ee) as E3. pose proof (f_equal LoginIp Ee) as E4. pose proof (f_equal DeviceFingerprint Ee) as E5.
  cbn in E1, E2, E3, E4, E5. exists e. rewrite E1, E2, E3. split_and!; [done|done| |done..]. unfold carried. rewrite E1, E4, E5. split_and!; [done| |].
  - intros Hs. apply negb_false_iff, orb_true_iff in Em as [Em|Em]; [by rewrite Hs in Em|by apply bool_decide_eq_true in Em].
  - intros Hd Hx. rewrite Hd, Hx in Ef. apply negb_false_iff, orb_true_iff in Ef as [Ef|Ef]; [|by right; apply bool_decide_eq_true in Ef].
    left. cbn in Ef. rewrite andb_true_r, negb_involutive in Ef. by apply bool_decide_eq_true in Ef.
Qed.

(** C10: no call of the administration side without a reason.  In every state the program
    can reach - logins, calls, sign-outs, changes of accounts, restarts - a request that
    gets to a function of a role comes from an allowed address for an allowed domain, and
    either carries the token of a session that was signed in with the right password
    (and the right code, when a second factor was bound) by an account of that role or the
    super role, that was not signed out or replaced since, on the bindings that are
    switched on; or it carries an API key that is enabled, in time and used from its
    addresses. *)
Theorem call_justified x role r s' c : reachable cfg x → role_group cfg role (clock x) r no_context (st x) = (s', Ok c) →
  address_allowed cfg (GetManageIP cfg r) = true ∧ domain_allowed cfg r = true ∧
  ((∃ e, e ∈ entries (lg x) ∧ entry_ok e ∧ AccessToken (e_token e) ∉ ended (lg x) ∧ carried r e ∧ loginAccount c = Some (LoginAccount (e_token e)) ∧
         NormalizeRole (Role (e_token e)) ∈ [ROLE_SUPER_ADMIN; role]) ∨
   (∃ k, k ∈ keys (st x) ∧ opens (clock x) r k)).
Proof.
  intros Hreach%manage_good Hcall. unfold role_group in Hcall. apply chain_ok in Hcall as (s1 & c1 & Hrouter & Hrole). apply chain_ok in Hrole as (s2 & c2 & Hrole & <-%chain_ok).
  unfold RouterGroup in Hrouter. apply chain_ok in Hrouter as (s3 & c3 & Hauth & Hrouter). apply chain_ok in Hrouter as (s4 & c4 & Hreplay & Hrouter).
  apply chain_ok in Hrouter as (s5 & c5 & Hip & Hrouter). apply chain_ok in Hrouter as (s6 & c6 & Hdom & ->%chain_ok).
  unfold IPWhitelist_ in Hip. destruct (address_allowed cfg _) eqn:Ea; [|done]. injection Hip as _ <-. unfold DomainWhitelist in Hdom. destruct (domain_allowed cfg r) eqn:Ed; [|done]. injection Hdom as _ <-.
  assert (c4 = c3) as ->. { revert Hreplay. unfold ReplayProtect. repeat step_if; intros [=]; congruence. }
  split_and!; [done|done|]. unfold Auth in Hauth. destruct (header r $"X-API-Key") eqn:Eh.
  - left. destruct (token_ok _ _ _ _ _ _ (lg x) (good_cache _ Hreach) Hauth) as (e & He & Hn & Hcar & Hla & Hur & Hop). exists e.
    unfold RequireRole in Hrole. rewrite Hop in Hrole. cbn [is_openapi no_context] in Hrole. rewrite Hur in Hrole. cbn [default] in Hrole. unfold id in Hrole.
    assert (Hnn : ∀ x, NormalizeRole (NormalizeRole x) = NormalizeRole x).
    { intros y. unfold NormalizeRole at 2 3. repeat case_match; try done. unfold NormalizeRole. by repeat case_match. }
    rewrite Hnn in Hrole. destruct (bool_decide (_ = ROLE_SUPER_ADMIN) || bool_decide (_ ∈ [role])) eqn:Er; [|done]. injection Hrole as _ <-.
    pose proof (good_entries _ Hreach) as Hents. rewrite Forall_forall in Hents. split_and!; [done|by apply Hents|done|done|done|].
    apply orb_true_iff in Er as [Er%bool_decide_eq_true|Er%bool_decide_eq_true]; [rewrite Er; by left|by right].
  - right. destruct (key_ok _ _ _ _ _ _ _ Hauth Eh) as (k & Hk & Ho & _). by exists k.
Qed.
End reach.

(** ** A request is accepted once *)

(** A live item of [K] stays. *)
Definition spares (now : Z) (K : gostr) (c c' : store) : Prop := ∀ i, c !! K = Some i → WafCache.live now i = true → c' !! K = Some i.
#[export] Instance spares_preorder now K : PreOrder (spares now K).
Proof. split; [by intros c i|]. intros a b c H1' H2' i Hi Hl. apply H2'; [by apply H1'|done]. Qed.

Section spares.
Context (now : Z) (K : gostr).
Lemma spares_put c k i : K ≠ k → spares now K c (<[k := i]> c).
Proof. intros Hk j Hj _. by rewrite lookup_insert_ne. Qed.
Lemma spares_remove c k : K ≠ k → spares now K c (WafCache.Remove c k).
Proof. intros Hk j Hj _. unfold WafCache.Remove. destruct (c !! k); [by rewrite lookup_delete_ne|done]. Qed.
(** A dead item is dropped when it is read. *)
Lemma spares_drop c k i : c !! k = Some i → WafCache.live now i = false → spares now K c (delete k c).
Proof. intros Hi Hd j Hj Hl. rewrite lookup_delete_ne; [done|]. intros ->. rewrite Hi in Hj. injection Hj as <-. by rewrite Hd in Hl. Qed.
Lemma spares_get c k : spares now K c (WafCache.Get c now k).1.
Proof. unfold WafCache.Get. destruct (c !! k) as [i|] eqn:Ei; [|done]. destruct (WafCache.live now i) eqn:El; [done|]. by eapply spares_drop. Qed.
Lemma spares_exists c k : spares now K c (WafCache.IsKeyExist c now k).1.
Proof. unfold WafCache.IsKeyExist. destruct (c !! k) as [i|] eqn:Ei; [|done]. destruct (WafCache.live now i) eqn:El; [done|]. by eapply spares_drop. Qed.
Lemma spares_expire c k : spares now K c (WafCache.GetExpireTime c now k).1.
Proof. unfold WafCache.GetExpireTime. destruct (c !! k) as [i|] eqn:Ei; [|done]. destruct (WafCache.live now i) eqn:El; [done|]. by eapply spares_drop. Qed.
Lemma spares_getasex c k t : K ≠ k → spares now K c (WafCache.GetAsEx c now k t).1.
Proof.
  intros Hk. unfold WafCache.GetAsEx. destruct (c !! k) as [i|] eqn:Ei; [|done]. destruct (WafCache.live now i) eqn:El; cbn [negb]; [|by eapply spares_drop].
  cbn [fst]. destruct (0 <? t); [by apply spares_put|done].
Qed.
Lemma spares_int c k : spares now K c (GetInt c now k).1.
Proof. unfold GetInt. pose proof (spares_get c k). by destruct (WafCache.Get c now k). Qed.
Lemma spares_counter c k : spares now K c (counter c now k).1.
Proof.
  unfold counter. pose proof (spares_exists c k) as H1'. destruct (WafCache.IsKeyExist c now k) as [c1 b]. cbn [fst] in *. destruct b; [|done].
  pose proof (spares_int c1 k) as H2'. destruct (GetInt c1 now k) as [c2 v]. cbn in *. by etrans.
Qed.
Lemma spares_sweep c : spares now K c (WafCache.ClearExpirationCache c now).
Proof. intros i Hi Hl. unfold WafCache.ClearExpirationCache. by apply map_lookup_filter_Some. Qed.
End spares.
#[export] Hint Resolve spares_put spares_remove spares_get spares_exists spares_expire spares_getasex spares_int spares_counter spares_sweep : samwaf.

Section replay.
Context `{UnicodeCase} `{AccessAccount.UnicodeTables} `{World} (cfg : config).
Section one_key.
Context (now : Z) (nonce : gostr).
Let K : gostr := CACHE_REPLAY_NONCE ++ nonce.
(** The keys of the other parts are other keys. *)
Lemma other_key p x : p ∈ [CACHE_LOGIN_ERROR; CACHE_OTP_ERROR; CACHE_TOKEN; CACHE_TOKEN_BINDFAIL; CACHE_HOST_GUARD_ADMIN_PRE] → K ≠ p ++ x.
Proof. rewrite !elem_of_cons. by intros [->|[->|[->|[->|[->|Hn%not_elem_of_nil]]]]]. Qed.
Ltac other := apply other_key; rewrite !elem_of_cons; tauto.

Lemma bump_spares tok c : spares now K c (bumpTokenBindFailure cfg now tok c).1.
Proof.
  unfold bumpTokenBindFailure. pose proof (spares_int now K c (CACHE_TOKEN_BINDFAIL ++ tok)) as Hi. destruct (GetInt _ _ _) as [c1 v]. cbn [fst] in Hi.
  etrans; [exact Hi|]. destruct (_ <=? _); cbn [fst]; [apply spares_remove|apply spares_put]; other.
Qed.
Lemma bind_failure_spares tok s : spares now K (cache s) (cache (bind_failure cfg now tok s).1).
Proof.
  unfold bind_failure. pose proof (bump_spares tok (cache s)) as Hb. destruct (bumpTokenBindFailure _ _ _ _) as [c e]. cbn [fst] in *.
  destruct e; [|done]. etrans; [exact Hb|]. apply spares_remove. other.
Qed.
Lemma touch_spares ip tok c : spares now K c (TouchAdminIP now ip (clearTokenBindFailure cfg tok c)).
Proof.
  assert (Hc : spares now K c (clearTokenBindFailure cfg tok c)).
  { unfold clearTokenBindFailure. destruct (_ && _); [done|]. apply spares_remove. other. }
  etrans; [exact Hc|]. unfold TouchAdminIP. destruct (bool_decide _); [done|]. destruct (parse_ip _); [|done]. apply spares_put. other.
Qed.
Definition spare (m : middleware) : Prop := ∀ c s, spares now K (cache s) (cache (m c s).1).
Lemma chain_spare ms : Forall spare ms → spare (chain ms).
Proof.
  induction 1 as [|m ms Hm _ IH]; intros c s; cbn [chain]; [done|]. specialize (Hm c s). destruct (m c s) as [s1 [c1|e]]; cbn [fst] in *; [|done].
  by etrans; [exact Hm|].
Qed.
Lemma token_auth_spare r : spare (token_auth cfg now r).
Proof.
  intros c s. unfold token_auth. destruct (bool_decide _); [done|].
  assert (Hk : K ≠ CACHE_TOKEN ++ extractTokenStr r) by other.
  pose proof (spares_getasex now K (cache s) _ (minutes (RECORD_TOKEN_EXPIRE_MINTUTES cfg)) Hk) as Hg.
  destruct (WafCache.GetAsEx _ _ _ _) as [ca v]. cbn [fst] in Hg. destruct v as [[n| |t]|]; try exact Hg. destruct (bool_decide _); [exact Hg|].
  etrans; [exact Hg|]. change ca with (cache (with_cache ca s)) at 1. generalize (with_cache ca s) as s1. intros s1. unfold check_token.
  pose proof (bind_failure_spares (extractTokenStr r) s1) as Hb. pose proof (touch_spares (GetManageIP cfg r) (extractTokenStr r) (cache s1)) as Ht.
  destruct (negb (negb _ || _)); [by destruct (bind_failure _ _ _ _)|]. destruct (negb (negb _ || _)); [by destruct (bind_failure _ _ _ _)|].
  by repeat (destruct (_ && _); [exact Ht|]).
Qed.
Lemma key_spare r k : spare (ValidateOpenApiKey cfg now r k).
Proof.
  intros c s. unfold ValidateOpenApiKey. destruct (_ && _); [done|]. destruct (GetByApiKey s k) as [key|]; [|done].
  repeat (destruct (_ && _); [done|]; try (destruct (negb (_ =? _)); [done|])). destruct (negb _); [done|]. repeat (destruct (_ && _); [done|]).
  destruct (0 <? RateLimit key); [|done]. unfold count_call. destruct (default _ _) as [n w]. by destruct (w <? now), (_ <? _).
Qed.
Lemma auth_spare r : spare (Auth cfg now r).
Proof. unfold Auth. destruct (header _ _); [apply token_auth_spare|apply key_spare]. Qed.
Lemma token_only_spare r : spare (TokenOnlyAuth cfg now r).
Proof. intros c s. unfold TokenOnlyAuth. destruct (header _ _); [apply auth_spare|done]. Qed.
Lemma role_spare roles : spare (RequireRole roles).
Proof. intros c s. unfold RequireRole. destruct (is_openapi c); [done|]. by destruct (_ || _). Qed.
Lemma address_spare r : spare (IPWhitelist_ cfg r).
Proof. intros c s. unfold IPWhitelist_. by destruct (address_allowed _ _). Qed.
Lemma domain_spare r : spare (DomainWhitelist cfg r).
Proof. intros c s. unfold DomainWhitelist. by destruct (domain_allowed _ _). Qed.
(** The nonce of another request is another key, the same nonce is refused. *)
Lemma replay_spare r : spare (ReplayProtect cfg now r).
Proof.
  intros c s. unfold ReplayProtect. destruct (_ =? 0); [done|]. destruct (is_openapi c); [done|]. destruct (bool_decide _); [done|]. destruct (replay_fields r) as [ts n].
  destruct (bool_decide _); [done|]. destruct (parse_int ts); [|done]. destruct (_ || _); [done|]. destruct (_ || _); [done|].
  pose proof (spares_exists now K (cache s) (CACHE_REPLAY_NONCE ++ n)) as He. destruct (WafCache.IsKeyExist _ _ _) as [c1 b] eqn:Eb. cbn [fst] in He.
  destruct b; [done|]. intros i Hi Hl. cbn [fst cache with_cache]. unfold WafCache.SetWithTTl. destruct (decide (n = nonce)) as [->|Hne].
  - unfold WafCache.IsKeyExist in Eb. fold K in Eb. by rewrite Hi, Hl in Eb.
  - rewrite lookup_insert_ne; [by apply He|]. by intros ?%app_inv_head.
Qed.
#[local] Hint Resolve auth_spare token_only_spare role_spare replay_spare address_spare domain_spare : samwaf.
Ltac spare_list := apply chain_spare; repeat (apply Forall_cons; split); auto with samwaf.
Lemma router_spare r : spare (RouterGroup cfg now r).
Proof. spare_list. Qed.
#[local] Hint Resolve router_spare : samwaf.
Lemma groups_spare g r : g ∈ groups cfg → spare (g now r).
Proof.
  unfold groups. rewrite !elem_of_cons. intros [->|[->|[->|[->|[->|[->|[->|Hn]]]]]]]; [..|by apply not_elem_of_nil in Hn]; auto with samwaf; spare_list.
Qed.
End one_key.
End replay.

Section replay_run.
Context `{UnicodeCase} `{AccessAccount.UnicodeTables} `{World} (cfg : config).
Section one_nonce.
Context (nonce : gostr).
Let K : gostr := CACHE_REPLAY_NONCE ++ nonce.
Ltac other := first [apply spares_remove|apply spares_put]; apply other_key; rewrite !elem_of_cons; tauto.

Lemma second_factor_spares now b s : spares now K (cache s) (cache (second_factor cfg now b s).1).
Proof.
  unfold second_factor. destruct (otp_of s (l_Account b)) as [[[|x name] secret]|]; [done| |done].
  pose proof (spares_counter now K (cache s) (CACHE_OTP_ERROR ++ l_Account b)) as Hc. destruct (counter _ _ _) as [ca n]. cbn [fst] in Hc.
  destruct (_ <=? n); [done|]. destruct (totp_valid _ _ _); (etrans; [exact Hc|]); other.
Qed.
Lemma end_old_spares now name type_ s : spares now K (cache s) (cache (end_old_sessions name type_ s)).
Proof.
  unfold end_old_sessions. generalize (GetAllTokenInfoByLoginAccountAndType s name type_) as l. intros l. revert s. induction l as [|t l IH]; intros s; [done|].
  cbn [foldl]. etrans; [|apply IH]. cbn [cache with_cache]. other.
Qed.
Lemma sign_in_spares now r b a uuid s : spares now K (cache s) (cache (sign_in cfg now r b a uuid s).1).
Proof.
  unfold sign_in. set (s1 := with_cache _ s). set (s2 := if IsBcryptHash _ then s1 else _).
  assert (H1' : spares now K (cache s) (cache s1)) by other.
  assert (H2' : cache s2 = cache s1) by (unfold s2; destruct (IsBcryptHash _); [done|apply upgrade_same]). rewrite <- H2' in H1'.
  etrans; [exact H1'|]. etrans; [apply (end_old_spares now (l_Account b) (login_type r) s2)|]. other.
Qed.
Lemma login_spares now r body uuid s : spares now K (cache s) (cache (LoginApi cfg now r body uuid s).1).
Proof.
  unfold LoginApi. destruct body as [b|]; [|done]. destruct (bool_decide _); [done|]. destruct (account_of s _) as [a|]; [|done].
  pose proof (spares_counter now K (cache s) (CACHE_LOGIN_ERROR ++ GetManageIP cfg r)) as Hc. destruct (counter _ _ _) as [c n]. cbn [fst] in Hc.
  destruct (_ <=? n); [done|]. destruct (negb _); [etrans; [exact Hc|]; other|].
  pose proof (second_factor_spares now b (with_cache c s)) as H2'. destruct (second_factor cfg now b (with_cache c s)) as [s1 [e|]]; cbn [fst] in H2'; [by etrans|].
  etrans; [exact Hc|]. etrans; [exact H2'|]. apply sign_in_spares.
Qed.
Lemma logout_spares now r s : spares now K (cache s) (cache (LoginOutApi r s).1).
Proof. unfold LoginOutApi. destruct (GetInfoByAccessToken _ _); [|done]. cbn [fst cache with_cache]. other. Qed.
Lemma reload_spares now s : spares now K (cache s) (cache (ReloadAllValidTokensToCache cfg now s)).
Proof.
  unfold ReloadAllValidTokensToCache. cbn [cache with_cache]. generalize (cache s) as c. induction (tokens s) as [|t l IH]; intros c; [done|]. cbn [foldl].
  etrans; [|apply IH]. destruct (_ <? _); [other|done].
Qed.
Lemma clear_need_spares now r s : spares now K (cache s) (cache (clearTokenNeedChangePassword cfg now r s)).
Proof.
  unfold clearTokenNeedChangePassword. destruct (bool_decide (_ = [])); [done|]. set (tok := if _ && _ then _ else _).
  pose proof (spares_get now K (cache s) (CACHE_TOKEN ++ tok)) as Hc. destruct (WafCache.Get _ _ _) as [c v]. cbn [fst] in Hc. destruct v as [[n| |t]|]; [done..| |done].
  pose proof (spares_expire now K c (CACHE_TOKEN ++ tok)) as He. destruct (WafCache.GetExpireTime _ _ _) as [c' e]. cbn [fst] in He.
  cbn [cache with_cache]. etrans; [exact Hc|]. etrans; [exact He|]. other.
Qed.
Lemma account_spares now s s' : account_step cfg now s s' → spares now K (cache s) (cache s').
Proof.
  assert (Hsame : ∀ x y, tokens y = tokens x ∧ cache y = cache x → spares now K (cache x) (cache y)) by (intros x y [_ ->]; done).
  intros Hs. destruct (account_cache cfg now s s' Hs) as [E|(r & s1 & [_ E] & ->)]; [by apply Hsame|]. rewrite <- E. apply clear_need_spares.
Qed.

(** A run without restart keeps the nonce until the window of the request is over. *)
Definition spent (ts : Z) (x : sys) : Prop :=
  ts * second + replayTimeWindow < clock x ∨
  ∃ i, cache (st x) !! K = Some i ∧ WafCache.ttl i = replayNonceTTL ∧ ts * second - replayTimeWindow <= WafCache.createTime i.
Lemma spent_live ts x (i : WafCache.WafCacheItem cached) : clock x ≤ ts * second + replayTimeWindow → WafCache.ttl i = replayNonceTTL → ts * second - replayTimeWindow <= WafCache.createTime i → WafCache.live (clock x) i = true.
Proof. intros Hw Ht Hc. unfold WafCache.live. rewrite Ht. apply Z.leb_le. unfold replayTimeWindow, replayNonceTTL in *. lia. Qed.
Lemma spent_spares ts t s s' l l' : spares t K (cache s) (cache s') → spent ts (mkSys t s l) → spent ts (mkSys t s' l').
Proof.
  intros Hsp [Hw|(i & Hi & Ht & Hc)]; [by left|]. destruct (decide (ts * second + replayTimeWindow < t)); [by left|]. right. exists i. split_and!; [|done|done].
  apply Hsp; [done|]. eapply (spent_live ts (mkSys t s l)); [cbn; lia|done|done].
Qed.
Lemma step_spent ts x y : step cfg x y → spent ts x → spent ts y.
Proof.
  intros Hstep Hs. destruct Hstep as [now s l t Ht|now s l g r Hin|now s l r body uuid Hnew|now s l r|now s l s' Ha|now s l ks|now s l|now s l|now s l c Hown Hoth];
    [|eapply spent_spares; [|exact Hs]..].
  - destruct Hs as [Hw|Hi]; [left; cbn in *; lia|by right].
  - by eapply groups_spare.
  - apply login_spares.
  - apply logout_spares.
  - by apply account_spares.
  - done.
  - apply reload_spares.
  - cbn [cache with_cache]. apply spares_sweep.
  - intros i Hi _. cbn [cache with_cache]. rewrite Hown; [done|]. unfold own_key, K. apply existsb_exists. exists CACHE_REPLAY_NONCE. split; [cbn; tauto|apply has_prefix_split; by eexists].
Qed.
Lemma run_spent ts x y : rtc (step cfg) x y → spent ts x → spent ts y.
Proof. induction 1 as [|x y z Hxy _ IH]; [done|]. intros Hs. by eapply IH, step_spent. Qed.
End one_nonce.
End replay_run.

Section once.
Context `{UnicodeCase} `{AccessAccount.UnicodeTables} `{World} (cfg : config).

(** Every group of routes asks [ReplayProtect] about a call without an API key. *)
Section guarded.
Context (now : Z) (r : incoming) (no_key : header r $"X-API-Key" = []) (nonce : gostr).
Let K : gostr := CACHE_REPLAY_NONCE ++ nonce.
Definition same_kind (m : middleware) : Prop := ∀ c s s' c', m c s = (s', Ok c') → is_openapi c' = is_openapi c.
Definition guarded (m : middleware) : Prop := ∀ c s s' c', is_openapi c = false → m c s = (s', Ok c') →
  ∃ c1 s1 s2 c2, is_openapi c1 = false ∧ spares now K (cache s) (cache s1) ∧ ReplayProtect cfg now r c1 s1 = (s2, Ok c2) ∧ spares now K (cache s2) (cache s').
Lemma same_kind_auth : same_kind (Auth cfg now r).
Proof.
  intros c s s' c'. unfold Auth. rewrite no_key. unfold token_auth, check_token. cbv zeta. destruct (bool_decide _); [done|]. destruct (WafCache.GetAsEx _ _ _ _) as [ca v].
  destruct v as [[n| |t]|]; [done|done| |done]. destruct (bool_decide _); [done|].
  do 2 (match goal with |- (if ?b then _ else _) = _ → _ => destruct b end; [by destruct (bind_failure _ _ _ _)|]).
  do 2 (match goal with |- (if ?b then _ else _) = _ → _ => destruct b end; [done|]). by intros [= _ <-].
Qed.
Lemma same_kind_token_only : same_kind (TokenOnlyAuth cfg now r).
Proof. intros c s s' c'. unfold TokenOnlyAuth. rewrite no_key. apply same_kind_auth. Qed.
Lemma same_kind_role roles : same_kind (RequireRole roles).
Proof. intros c s s' c'. unfold RequireRole. destruct (is_openapi c) eqn:E; [by intros [= _ <-]|]. by destruct (_ || _); [intros [= _ <-]|]. Qed.
Lemma same_kind_address : same_kind (IPWhitelist_ cfg r).
Proof. intros c s s' c'. unfold IPWhitelist_. by destruct (address_allowed _ _); [intros [= _ <-]|]. Qed.
Lemma same_kind_domain : same_kind (DomainWhitelist cfg r).
Proof. intros c s s' c'. unfold DomainWhitelist. by destruct (domain_allowed _ _); [intros [= _ <-]|]. Qed.
Lemma guarded_replay : guarded (ReplayProtect cfg now r).
Proof. intros c s s' c' Hc Hr. by exists c, s, s', c'. Qed.

Lemma guarded_chain pre m post : Forall (λ f, spare now nonce f ∧ same_kind f) pre → guarded m → Forall (spare now nonce) post → guarded (chain (pre ++ m :: post)).
Proof.
  intros Hpre Hm Hpost. induction Hpre as [|f pre [Hf Hk] _ IH]; intros c s s' c' Hc; cbn [app]; intros (s1 & c1 & H1' & H2')%chain_ok.
  - destruct (Hm c s s1 c1 Hc H1') as (d1 & t1 & t2 & d2 & Hd & Hs1 & Hr & Hs2). exists d1, t1, t2, d2. split_and!; [done..|]. etrans; [exact Hs2|].
    pose proof (chain_spare now nonce post Hpost c1 s1) as Hp. by rewrite H2' in Hp.
  - assert (Hc1 : is_openapi c1 = false) by (by rewrite (Hk _ _ _ _ H1')). destruct (IH c1 s1 s' c' Hc1 H2') as (d1 & t1 & t2 & d2 & Hd & Hs1 & Hr & Hs2).
    exists d1, t1, t2, d2. split_and!; [done| |done|done]. etrans; [|exact Hs1]. specialize (Hf c s). by rewrite H1' in Hf.
Qed.
#[local] Hint Resolve auth_spare token_only_spare role_spare replay_spare address_spare domain_spare same_kind_auth same_kind_token_only same_kind_role same_kind_address same_kind_domain guarded_replay : samwaf.
Ltac guard_list := repeat (apply Forall_cons; split); auto with samwaf.
Lemma guarded_router : guarded (RouterGroup cfg now r).
Proof. apply (guarded_chain [Auth cfg now r] (ReplayProtect cfg now r) [_; _]); guard_list. Qed.
Lemma guarded_role role : guarded (role_group cfg role now r).
Proof. apply (guarded_chain [] (RouterGroup cfg now r) [_]); [guard_list|apply guarded_router|guard_list]. Qed.
Lemma guarded_group g : g ∈ groups cfg → guarded (g now r).
Proof.
  unfold groups. rewrite !elem_of_cons. intros [->|[->|[->|[->|[->|[->|[->|Hn]]]]]]]; [| |apply guarded_role..| | |by apply not_elem_of_nil in Hn].
  - apply (guarded_chain [_; _] (ReplayProtect cfg now r) []); guard_list.
  - apply guarded_router.
  - apply (guarded_chain [] (ReplayProtect cfg now r) [_; _]); guard_list.
  - apply (guarded_chain [_; _] (ReplayProtect cfg now r) [_; _]); guard_list.
Qed.
End guarded.

(** What it means that [ReplayProtect] let a request pass. *)
Lemma replay_passed now r c s s' c' : ENABLE_REPLAY_PROTECT cfg ≠ 0 → header r $"Upgrade" ≠ $"websocket" → is_openapi c = false → ReplayProtect cfg now r c s = (s', Ok c') →
  ∃ ts, parse_int (replay_fields r).1 = Some ts ∧ - replayTimeWindow ≤ now - ts * second ≤ replayTimeWindow ∧
    (∀ i, cache s !! (CACHE_REPLAY_NONCE ++ (replay_fields r).2) = Some i → WafCache.live now i = false) ∧
    cache s' !! (CACHE_REPLAY_NONCE ++ (replay_fields r).2) = Some (WafCache.put now replayNonceTTL CMark).
Proof.
  intros Hon Hws Hc. unfold ReplayProtect. rewrite (proj2 (Z.eqb_neq _ _) Hon), Hc, bool_decide_false by done. destruct (replay_fields r) as [t nonce]. cbn [fst snd].
  destruct (bool_decide (t = [])); [done|]. destruct (parse_int t) as [ts|]; [|done].
  destruct ((now - ts * second <? - replayTimeWindow) || (replayTimeWindow <? now - ts * second)) eqn:Ew; [done|].
  destruct ((length nonce <? 16)%nat || (128 <? length nonce)%nat); [done|].
  set (K := CACHE_REPLAY_NONCE ++ nonce). destruct (WafCache.IsKeyExist (cache s) now K) as [ca seen] eqn:Ek. destruct seen; [done|]. intros [= <- _]. exists ts.
  apply orb_false_iff in Ew as [Ew1%Z.ltb_ge Ew2%Z.ltb_ge].
  assert (Hk : ca !! K = None ∧ ∀ i, cache s !! K = Some i → WafCache.live now i = false).
  { unfold WafCache.IsKeyExist in Ek. destruct (cache s !! K) as [i|] eqn:Ei; [|by injection Ek as <-]. destruct (WafCache.live now i) eqn:El; [done|]. injection Ek as <-.
    split; [apply lookup_delete_eq|]. by intros j [= <-]. }
  destruct Hk as [Hk1 Hk2]. split_and!; [done|lia|lia|done|]. cbn [cache with_cache]. unfold WafCache.SetWithTTl. rewrite Hk1. apply lookup_insert_eq.
Qed.

(** C11: a request is accepted once.  With replay protection on, a call that a group of
    routes let through to a handler is not let through again by any group, with the same
    time and nonce, whatever happens in between - other calls, logins, sign-outs, changes
    of accounts, the sweep of the cache, any waiting - as long as the program is not
    restarted: the nonce is kept for twice the window of the time.  Calls with an API key
    and websockets are not protected. *)
Theorem replay_once g g' x y r r' s c : ENABLE_REPLAY_PROTECT cfg ≠ 0 → g ∈ groups cfg → g' ∈ groups cfg →
  header r $"X-API-Key" = [] → header r $"Upgrade" ≠ $"websocket" → header r' $"X-API-Key" = [] → header r' $"Upgrade" ≠ $"websocket" → replay_fields r' = replay_fields r →
  g (clock x) r no_context (st x) = (s, Ok c) → rtc (step cfg) (mkSys (clock x) s (lg x)) y →
  ∃ s' e, g' (clock y) r' no_context (st y) = (s', Err e).
Proof.
  intros Hon Hg Hg' Hk Hw Hk' Hw' Hf Hcall Hrun. destruct (g' (clock y) r' no_context (st y)) as [s' [c'|e]] eqn:Hcall'; [exfalso|by exists s', e].
  set (nonce := (replay_fields r).2) in *.
  destruct (guarded_group (clock x) r Hk nonce g Hg no_context (st x) s c eq_refl Hcall) as (c1 & s1 & s2 & c2 & Hc1 & _ & Hr & Hs2).
  destruct (replay_passed _ _ _ _ _ _ Hon Hw Hc1 Hr) as (ts & Ets & Hwin & _ & Hset).
  assert (Hsp : spent nonce ts (mkSys (clock x) s (lg x))).
  { right. eexists. split_and!; [apply Hs2; [exact Hset|]|done|cbn; lia]. unfold WafCache.live. cbn. unfold replayNonceTTL, minute, second. lia. }
  apply (run_spent cfg nonce ts _ y Hrun) in Hsp.
  destruct (guarded_group (clock y) r' Hk' nonce g' Hg' no_context (st y) s' c' eq_refl Hcall') as (d1 & t1 & t2 & d2 & Hd1 & Hs1 & Hr' & _).
  destruct (replay_passed _ _ _ _ _ _ Hon Hw' Hd1 Hr') as (ts' & Ets' & Hwin' & Hfree & _). rewrite Hf in Ets', Hfree. fold nonce in Hfree.
  assert (ts' = ts) as -> by congruence. destruct Hsp as [Hover|(i & Hi & Ht & Hct)]; [lia|].
  assert (Hl : WafCache.live (clock y) i = true) by (eapply (spent_live ts y); [lia|done|done]). rewrite (Hfree i (Hs1 i Hi Hl)) in Hl. done.
Qed.
End once.

(** ** Concrete runs *)

Module ManageWitnesses.
#[local] Instance manage_case : UnicodeCase := {| unicode_to_lower s := s |}.
#[local] Instance manage_tables : AccessAccount.UnicodeTables := {|
  AccessAccount.runes s := map code s; AccessAccount.IsUpper r := (65 <=? r) && (r <=? 90); AccessAccount.IsLower r := (97 <=? r) && (r <=? 122);
  AccessAccount.IsDigit r := (48 <=? r) && (r <=? 57); AccessAccount.IsLetter r := false; AccessAccount.IsSpace r := r =? 32;
  AccessAccount.IsPunct r := false; AccessAccount.IsSymbol r := false |}.
#[local] Instance manage_world : World := {|
  md5 s := s; BcryptVerify h p := bool_decide (h = $"$2a$" ++ p); BcryptHash p := Some ($"$2a$" ++ p); salt := $"salt";
  totp_valid now code secret := bool_decide (code = secret); parse_time _ := None; pwd_deadline _ _ := None; format_time _ := $"now";
  IsDataKeyCiphertext _ := false; DataDecrypt _ := None |}.
Definition demo_config (replay force_2fa : Z) : config :=
  mkConfig 5 1 0 force_2fa replay 0 3 5 0 0 0 everyone [] (mkManage [] [] []) ∅ (AccessAccount.mkPolicy 1 false false false false).
Definition demo_request (path_ : gostr) (headers : list (gostr * gostr)) : incoming :=
  mkIn (mkRequest path_ [] $"POST" $"manage.example" false (list_to_map (map (λ h, (canonical_key h.1, [h.2])) headers)) [] ∅) $"10.0.0.9".
Definition with_nonce (h : list (gostr * gostr)) : list (gostr * gostr) := [($"X-Request-Time", $"1000"); ($"X-Request-Id", $"0123456789abcdef")] ++ h.
Definition demo_now : Z := 1000 * second.
Definition demo_account : Account := mkAccount $"1" $"alice" $"$2a$pw" ROLE_SECURITY_ADMIN 0 0 [].
Definition demo_start : state := mkState ∅ [] [demo_account] [] [] [] ∅.
Definition demo_body : option login_req := Some (mkLogin $"alice" $"pw" []).
Definition demo_login : incoming := demo_request $"/api/v1/public/login" (with_nonce []).
Definition demo_token : gostr := Md5String $"uuid".
Definition demo_call : incoming := demo_request $"/api/v1/wafhost/host/list" (with_nonce [($"X-Token", demo_token)]).
Definition demo_signed (cfg : config) : sys :=
  let s := demo_start in
  mkSys demo_now (LoginApi cfg demo_now demo_login demo_body $"uuid" s).1
    (log_login demo_now s demo_login demo_body (LoginApi cfg demo_now demo_login demo_body $"uuid" s).2 (mkLog [] [])).
Lemma manage_reachable cfg : reachable cfg (demo_signed cfg).
Proof.
  exists (mkSys demo_now demo_start (mkLog [] [])). split; [done|]. apply rtc_once, sr_step. apply (st_login cfg demo_now demo_start (mkLog [] []) demo_login demo_body $"uuid"). by intros ?%not_elem_of_nil.
Qed.

Definition refused_as (o : state * result refusal context) : option refusal := match o.2 with Err e => Some e | Ok _ => None end.

Example demo_call_ok : refused_as (securityAdminGroup (demo_config 1 0) demo_now demo_call no_context (st (demo_signed (demo_config 1 0)))) = None.
Proof. vm_compute. reflexivity. Qed.
Example demo_call_other_role : refused_as (auditAdminGroup (demo_config 1 0) demo_now demo_call no_context (st (demo_signed (demo_config 1 0)))) = Some RoleDenied.
Proof. vm_compute. reflexivity. Qed.

Lemma call_justified_witness :
  match securityAdminGroup (demo_config 1 0) demo_now demo_call no_context (st (demo_signed (demo_config 1 0))) with
  | (_, Ok c) => (∃ e, e ∈ entries (lg (demo_signed (demo_config 1 0))) ∧ loginAccount c = Some (LoginAccount (e_token e)) ∧ a_Login (e_account e) = $"alice") ∨
                 ∃ k, k ∈ keys (st (demo_signed (demo_config 1 0)))
  | _ => False
  end.
Proof.
  destruct (securityAdminGroup _ _ _ _ _) as [s' [c|e]] eqn:E; [|vm_compute in E; discriminate].
  destruct (call_justified (demo_config 1 0) (demo_signed (demo_config 1 0)) ROLE_SECURITY_ADMIN demo_call s' c (manage_reachable _) E) as (_ & _ & [(e & He & Hok & _ & _ & Hl & _)|(k & Hk & _)]).
  - left. exists e. split_and!; [done|done|]. clear -He. apply list_elem_of_singleton in He as ->. reflexivity.
  - right. by exists k.
Defined.

Lemma replay_once_witness :
  ∃ s' e, securityAdminGroup (demo_config 1 0) (demo_now + 4 * minute) demo_call no_context
            (securityAdminGroup (demo_config 1 0) demo_now demo_call no_context (st (demo_signed (demo_config 1 0)))).1 = (s', Err e).
Proof.
  destruct (securityAdminGroup (demo_config 1 0) demo_now demo_call no_context (st (demo_signed (demo_config 1 0)))) as [s [c|e]] eqn:E; [|vm_compute in E; discriminate].
  apply (replay_once (demo_config 1 0) (securityAdminGroup (demo_config 1 0)) (securityAdminGroup (demo_config 1 0)) (demo_signed (demo_config 1 0))
    (mkSys (demo_now + 4 * minute) s (lg (demo_signed (demo_config 1 0)))) demo_call demo_call s c);
    [done|apply list_elem_of_In; cbn; tauto|apply list_elem_of_In; cbn; tauto|reflexivity|discriminate|reflexivity|discriminate|reflexivity|exact E|].
  apply rtc_once. apply st_tick. cbn. unfold demo_now, minute, second. lia.
Defined.

(** What the runs below show is also the case in the code. *)
Definition demo_on (cfg : config) (s : state) : state * option login_result :=
  let (s, o) := LoginApi cfg demo_now demo_login demo_body $"uuid" s in (s, Some o).
Definition call_to (path_ : gostr) : incoming := demo_request path_ [($"X-Token", demo_token)].
Definition answer (cfg : config) (r : incoming) (s : state) : option refusal := refused_as (securityAdminGroup cfg demo_now r no_context s).
Definition call_from (ip path_ : gostr) : incoming := mkIn (req (call_to path_)) ip.

(** The mark of a password that must be changed is not stored: a restart drops it. *)
Definition must_change_start : state := mkState ∅ [] [mkAccount $"1" $"alice" $"$2a$pw" ROLE_SECURITY_ADMIN 0 1 []] [] [] [] ∅.
Example need_change_lost :
  let cfg := demo_config 0 0 in let s := (demo_on cfg must_change_start).1 in let r := call_to $"/api/v1/wafhost/host/list" in
  answer cfg r s = Some NeedChangePwd ∧ answer cfg r (restart cfg demo_now s) = None.
Proof. vm_compute. done. Qed.

(** A second factor that everybody must bind cannot be bound: its handlers belong to the
    group of the system administrator, which asks [Auth] like the others. *)
Example bind_2fa_locked_out :
  let start role := mkState ∅ [] [mkAccount $"1" $"alice" $"$2a$pw" role 0 0 []] [] [] [] ∅ in
  let cfg n := demo_config 0 n in
  let bind n role := refused_as (TokenOnlyRouterGroup (cfg n) demo_now (call_to $"/api/v1/wafhost/otp/bind") no_context (demo_on (cfg n) (start role)).1) in
  bind 1 ROLE_SUPER_ADMIN = Some NeedBind2FA ∧ bind 0 ROLE_SUPER_ADMIN = None ∧ bind 0 ROLE_AUDIT_ADMIN = Some RoleDenied.
Proof. vm_compute. done. Qed.

(** A session that was dropped after three mismatches comes back with a restart. *)
Example dropped_session_revived :
  let cfg := demo_config 0 0 in let s0 := (demo_on cfg demo_start).1 in let r := call_to $"/api/v1/wafhost/host/list" in
  let strange := call_from $"10.0.0.66" $"/api/v1/wafhost/host/list" in
  let call s := (securityAdminGroup cfg demo_now strange no_context s).1 in
  let s := call (call (call s0)) in
  answer cfg r s = Some TokenExpired ∧ answer cfg r (restart cfg demo_now s) = None.
Proof. vm_compute. done. Qed.

(** Neither deleting an account nor resetting its password ends its sessions. *)
Definition two_start : state :=
  mkState ∅ [] [demo_account; mkAccount $"2" $"root" $"$2a$super" ROLE_SUPER_ADMIN 0 0 []] [] [] [] ∅.
Example deleted_account_keeps_access :
  let cfg := demo_config 0 0 in let s := (demo_on cfg two_start).1 in let r := call_to $"/api/v1/wafhost/host/list" in
  match DelAccountApi (mkCtx false None None (Some ROLE_SUPER_ADMIN) None false) $"1" s, ResetAccountPwdApi cfg demo_now $"alice" $"super" $"new" $"new" s with
  | Ok s1, Ok s2 => account_of s1 $"alice" = None ∧ answer cfg r s1 = None ∧ answer cfg r s2 = None
  | _, _ => False
  end.
Proof. vm_compute. done. Qed.

(** The status of an account is not looked at. *)
Example status_ignored (status : Z) :
  let s := mkState ∅ [] [mkAccount $"1" $"alice" $"$2a$pw" ROLE_SECURITY_ADMIN status 0 []] [] [] [] ∅ in
  match (demo_on (demo_config 0 0) s).2 with Some (SignedIn t) => LoginAccount t = $"alice" | _ => False end.
Proof. vm_compute. done. Qed.

(** The entries of the list of addresses are not trimmed, and the empty list refuses
    everybody. *)
Definition with_list (l : gostr) : config :=
  mkConfig 5 1 0 0 0 0 3 5 0 0 0 l [] (mkManage [] [] []) ∅ (AccessAccount.mkPolicy 1 false false false false).
Example spaced_whitelist :
  address_allowed (with_list $"10.0.0.1, 10.0.0.9") $"10.0.0.9" = false ∧ address_allowed (with_list $"10.0.0.1,10.0.0.9") $"10.0.0.9" = true ∧
  address_allowed (with_list []) $"10.0.0.9" = false.
Proof. vm_compute. done. Qed.

(** A restart forgets the nonces. *)
Example replay_after_restart :
  let cfg := demo_config 1 0 in let s := st (demo_signed cfg) in let s1 := (securityAdminGroup cfg demo_now demo_call no_context s).1 in
  refused_as (securityAdminGroup cfg demo_now demo_call no_context s1) = Some Replayed ∧
  refused_as (securityAdminGroup cfg demo_now demo_call no_context (restart cfg demo_now s1)) = None.
Proof. vm_compute. done. Qed.
End ManageWitnesses.
End ManageFacts.
