(* ===== verification/SshdLog.v ===== *)
(** * Login failures read from the log of sshd (wafhostguard/parser_sshd.go, event.go)

    The regular expressions of the parser, with a matcher for the part of Go's [regexp]
    they use (classes, literals, groups, options, greedy and lazy repetition of a class;
    leftmost match, first alternative), and the parser itself.  A line written by sshd
    for a name without blanks is read back exactly; whatever is read, the address is a
    valid one that stands in the line. *)
From S2P Require Import Prelude.
From S2P Require Import GoLib.
Local Open Scope Z_scope.
Local Open Scope bool_scope.

(** ** Regular expressions of Go *)

Module Regex.

Inductive re :=
| Lit (s : gostr) | Cls (p : ascii → bool) | Many (greedy : bool) (p : ascii → bool)
| Cat (r1 r2 : re) | Opt (r : re) | Alt (r1 r2 : re) | Grp (n : nat) (r : re).
Abbreviation caps := (list (nat * gostr)).

(** The rest of the text is tried first after as many (as few) bytes as possible. *)
Fixpoint many {A} (greedy : bool) (p : ascii → bool) (s : gostr) (k : gostr → option A) : option A :=
  match s with
  | c :: s' =>
      if p c then
        if greedy then match many greedy p s' k with Some x => Some x | None => k s end
        else match k s with Some x => Some x | None => many greedy p s' k end
      else k s
  | [] => k []
  end.
Fixpoint run {A} (r : re) (s : gostr) (cs : caps) (k : gostr → caps → option A) : option A :=
  match r with
  | Lit l => if has_prefix s l then k (drop (length l) s) cs else None
  | Cls p => match s with c :: s' => if p c then k s' cs else None | [] => None end
  | Many g p => many g p s (λ s', k s' cs)
  | Cat r1 r2 => run r1 s cs (λ s' cs', run r2 s' cs' k)
  | Opt r => match run r s cs k with Some x => Some x | None => k s cs end
  | Alt r1 r2 => match run r1 s cs k with Some x => Some x | None => run r2 s cs k end
  | Grp n r => run r s cs (λ s' cs', k s' ((n, take (length s - length s') s) :: cs'))
  end.
(** [FindStringSubmatch]: the groups of the leftmost match. *)
Fixpoint FindStringSubmatch (r : re) (s : gostr) : option caps :=
  match run r s [] (λ _ cs, Some cs) with
  | Some cs => Some cs
  | None => match s with [] => None | _ :: s' => FindStringSubmatch r s' end
  end.

Definition seq (rs : list re) : re := foldr Cat (Lit []) rs.
Definition Many1 (p : ascii → bool) : re := Cat (Cls p) (Many true p).

(** ** What a match says *)

Inductive lang : re → gostr → Prop :=
| la_lit l : lang (Lit l) l
| la_cls p c : p c = true → lang (Cls p) [c]
| la_many g p w : forallb p w = true → lang (Many g p) w
| la_cat r1 r2 w1 w2 : lang r1 w1 → lang r2 w2 → lang (Cat r1 r2) (w1 ++ w2)
| la_none r : lang (Opt r) []
| la_some r w : lang r w → lang (Opt r) w
| la_left r1 r2 w : lang r1 w → lang (Alt r1 r2) w
| la_right r1 r2 w : lang r2 w → lang (Alt r1 r2) w
| la_grp n r w : lang r w → lang (Grp n r) w.
(** The groups of an expression. *)
Fixpoint groups (r : re) : list (nat * re) :=
  match r with
  | Lit _ | Cls _ | Many _ _ => []
  | Cat r1 r2 | Alt r1 r2 => groups r1 ++ groups r2
  | Opt r => groups r
  | Grp n r => (n, r) :: groups r
  end.
Definition infix (u s : gostr) : Prop := ∃ a b, s = a ++ u ++ b.
Definition from_groups (r : re) (s : gostr) (c : nat * gostr) : Prop := ∃ r', (c.1, r') ∈ groups r ∧ lang r' c.2 ∧ infix c.2 s.

Lemma infix_app u a b s : infix u s → infix u (a ++ s ++ b).
Proof. intros (x & y & ->). exists (a ++ x), (y ++ b). by rewrite <- !app_assoc. Qed.
Lemma infix_whole s : infix s s.
Proof. exists [], []. by rewrite app_nil_r. Qed.

Lemma many_sound {A} g p s (k : gostr → option A) x : many g p s k = Some x → ∃ w s', s = w ++ s' ∧ forallb p w = true ∧ k s' = Some x.
Proof.
  induction s as [|c s IH]; cbn [many]; [intros Hk; by exists [], []|].
  assert (Hmore : ∀ w s', s = w ++ s' ∧ forallb p w = true ∧ k s' = Some x → p c = true → ∃ w s', c :: s = w ++ s' ∧ forallb p w = true ∧ k s' = Some x).
  { intros w s' (-> & Hw & Hk) Hc. exists (c :: w), s'. cbn. by rewrite Hc. }
  destruct (p c) eqn:Ec; [|intros Hk; by exists [], (c :: s)]. destruct g.
  - destruct (many true p s k) eqn:Em; [intros E; destruct (IH E) as (w & s' & Hs); by eapply Hmore|intros Hk; by exists [], (c :: s)].
  - destruct (k (c :: s)) eqn:Ek; [intros [= ->]; by exists [], (c :: s)|]. intros Hm. destruct (IH Hm) as (w & s' & Hs). by eapply Hmore.
Qed.
Lemma taken (w s : gostr) : take (length (w ++ s) - length s) (w ++ s) = w.
Proof. rewrite length_app, Nat.add_sub. apply take_app_length. Qed.
Lemma run_sound {A} r : ∀ s cs (k : gostr → caps → option A) x, run r s cs k = Some x →
  ∃ w s' new, s = w ++ s' ∧ lang r w ∧ Forall (from_groups r w) new ∧ k s' (new ++ cs) = Some x.
Proof.
  induction r as [l|p|g p|r1 IH1 r2 IH2|r IH|r1 IH1 r2 IH2|n r IH]; intros s cs k x; cbn [run].
  - destruct (has_prefix s l) eqn:El; [|done]. apply has_prefix_split in El as [s' ->]. rewrite drop_app_length. intros Hk. exists l, s', []. by repeat constructor.
  - destruct s as [|c s]; [done|]. destruct (p c) eqn:Ec; [|done]. intros Hk. exists [c], s, []. by repeat constructor.
  - intros (w & s' & -> & Hw & Hk)%many_sound. exists w, s', []. by repeat constructor.
  - intros (w1 & s1 & n1 & -> & H1' & F1 & Hk)%IH1. apply IH2 in Hk as (w2 & s2 & n2 & -> & H2' & F2 & Hk). exists (w1 ++ w2), s2, (n2 ++ n1).
    rewrite <- !app_assoc. split_and!; [done|by apply la_cat| |done]. apply Forall_app. split; [eapply Forall_impl; [exact F2|]|eapply Forall_impl; [exact F1|]].
    + intros c (r' & Hr & Hl & Hi). exists r'. split_and!; [cbn [groups]; apply elem_of_app; by right|done|]. apply (infix_app _ w1 []) in Hi. by rewrite app_nil_r in Hi.
    + intros c (r' & Hr & Hl & Hi). exists r'. split_and!; [cbn [groups]; apply elem_of_app; by left|done|]. by apply (infix_app _ [] w2) in Hi.
  - destruct (run r s cs k) eqn:Er; [|intros Hk; exists [], s, []; by repeat constructor]. intros [= ->]. destruct (IH _ _ _ _ Er) as (w & s' & new & -> & Hl & Hf & Hk).
    exists w, s', new. split_and!; [done|by apply la_some|done|done].
  - destruct (run r1 s cs k) eqn:Er.
    + intros [= ->]. destruct (IH1 _ _ _ _ Er) as (w & s' & new & -> & Hl & Hf & Hk). exists w, s', new. split_and!; [done|by apply la_left| |done].
      eapply Forall_impl; [exact Hf|]. intros c (r' & Hr & Hl' & Hi). exists r'. split_and!; [cbn [groups]; apply elem_of_app; by left|done|done].
    + intros (w & s' & new & -> & Hl & Hf & Hk)%IH2. exists w, s', new. split_and!; [done|by apply la_right| |done].
      eapply Forall_impl; [exact Hf|]. intros c (r' & Hr & Hl' & Hi). exists r'. split_and!; [cbn [groups]; apply elem_of_app; by right|done|done].
  - intros (w & s' & new & -> & Hl & Hf & Hk)%IH. rewrite taken in Hk. exists w, s', ((n, w) :: new). split_and!; [done|by apply la_grp| |done]. constructor.
    + exists r. split_and!; [by left|done|apply infix_whole].
    + eapply Forall_impl; [exact Hf|]. intros c (r' & Hr & Hl' & Hi). exists r'. split_and!; [by right|done|done].
Qed.
Lemma find_sound r s cs : FindStringSubmatch r s = Some cs → Forall (from_groups r s) cs.
Proof.
  induction s as [|c s IH]; cbn [FindStringSubmatch].
  - destruct (run _ _ _ _) eqn:Er; [|done]. intros [= ->]. destruct (run_sound _ _ _ _ _ Er) as (w & s' & new & -> & _ & Hf & [= <-]). rewrite app_nil_r.
    eapply Forall_impl; [exact Hf|]. intros d (r' & Hr & Hl & Hi). exists r'. split_and!; [done|done|by apply (infix_app _ [] s') in Hi].
  - destruct (run _ _ _ _) eqn:Er.
    + intros [= ->]. destruct (run_sound _ _ _ _ _ Er) as (w & s' & new & Es & _ & Hf & [= <-]). rewrite app_nil_r, Es.
      eapply Forall_impl; [exact Hf|]. intros d (r' & Hr & Hl & Hi). exists r'. split_and!; [done|done|by apply (infix_app _ [] s') in Hi].
    + intros Hs%IH. eapply Forall_impl; [exact Hs|]. intros d (r' & Hr & Hl & Hi). exists r'. split_and!; [done|done|]. apply (infix_app _ [c] []) in Hi. by rewrite app_nil_r in Hi.
Qed.

(** A greedy repetition that ends where its class ends. *)
Definition ends (p : ascii → bool) (s : gostr) : bool := match s with [] => true | c :: _ => negb (p c) end.
Lemma many_max {A} p w s (k : gostr → option A) x : forallb p w = true → ends p s = true → k s = Some x → many true p (w ++ s) k = Some x.
Proof.
  intros Hw He Hk. induction w as [|c w IH]; cbn.
  - destruct s as [|c s]; [done|]. cbn in *. by destruct (p c).
  - cbn in Hw. apply andb_true_iff in Hw as [-> Hw]. by rewrite IH.
Qed.
Lemma run_many1 {A} p w s cs (k : gostr → caps → option A) x : w ≠ [] → forallb p w = true → ends p s = true → k s cs = Some x → run (Many1 p) (w ++ s) cs k = Some x.
Proof. intros Hn Hw He Hk. destruct w as [|c w]; [done|]. cbn in *. apply andb_true_iff in Hw as [-> Hw]. by apply many_max. Qed.
Lemma run_lit {A} l s cs (k : gostr → caps → option A) : run (Lit l) (l ++ s) cs k = k s cs.
Proof. cbn [run]. rewrite (proj2 (has_prefix_split _ _)) by eauto. by rewrite drop_app_length. Qed.
Lemma run_grp {A} n r w s cs (k : gostr → caps → option A) x :
  (∀ k', k' s cs = Some x → run r (w ++ s) cs k' = Some x) → k s ((n, w) :: cs) = Some x → run (Grp n r) (w ++ s) cs k = Some x.
Proof. intros Hr Hk. cbn [run]. apply Hr. by rewrite taken. Qed.
Lemma find_here r s cs : run r s [] (λ _ cs, Some cs) = Some cs → FindStringSubmatch r s = Some cs.
Proof. intros Hr. destruct s; cbn [FindStringSubmatch]; by rewrite Hr. Qed.
End Regex.

(** ** The lines of sshd *)

Module SshdLog.
Import Regex.

Inductive FailKind :=
| FailPassword | FailPublicKey | FailInvalidUser | FailMaxAuthTries | FailNotAllowed | FailPamAuth | FailPreauthClose | FailScanProbe | FailRdpLogon.
Definition IsHard (k : FailKind) : bool :=
  match k with FailPreauthClose | FailInvalidUser | FailPamAuth | FailScanProbe => false | _ => true end.
Definition IsScanProbe (k : FailKind) : bool := match k with FailScanProbe => true | _ => false end.
Inductive Source := SourceSSH | SourceRDP.
Record LoginFailEvent := mkEvent { ev_Source : Source; ev_IP : gostr; ev_Port : Z; ev_User : gostr; ev_Kind : FailKind; ev_Raw : gostr; ev_At : Z }.
Definition RawLimit : nat := 500.
Definition TruncRaw (s : gostr) : gostr := take RawLimit s.

Definition is_space (c : ascii) : bool := (* \s *)
  let n := code c in (n =? 9) || (n =? 10) || (n =? 12) || (n =? 13) || (n =? 32).
Definition not_space (c : ascii) : bool := negb (is_space c).
Definition is_digit (c : ascii) : bool := (48 <=? code c) && (code c <=? 57).
Definition any (c : ascii) : bool := negb (code c =? 10).
Definition ip_char (c : ascii) : bool :=
  let n := code c in
  is_digit c || ((97 <=? n) && (n <=? 102)) || ((65 <=? n) && (n <=? 70)) || (n =? 58) || (n =? 46).
Definition ipPat (n : nat) : re := Grp n (Many1 ip_char).
Definition name (n : nat) : re := Grp n (Many1 not_space).
Definition port (n : nat) : re := Grp n (Many1 is_digit).

Record sshdRule := mkRule { kind : FailKind; hint : gostr; rx : re; methodIdx : nat; userIdx : nat; ipIdx : nat; portIdx : nat }.
Definition failed_rule : sshdRule :=
  mkRule FailPassword $"Failed "
    (seq [Lit $"Failed "; name 1; Lit $" for "; Opt (Grp 2 (Lit $"invalid user ")); name 3; Lit $" from "; ipPat 4; Lit $" port "; port 5]) 1 3 4 5.
Definition preauth_user : re := Opt (seq [Alt (Lit $"invalid") (Lit $"authenticating"); Lit $" user "; name 1; Lit $" "]).
Definition sshdRules : list sshdRule := [
  failed_rule;
  mkRule FailMaxAuthTries $"maximum authentication attempts exceeded"
    (seq [Lit $"maximum authentication attempts exceeded for "; Opt (Lit $"invalid user "); name 1; Lit $" from "; ipPat 2; Lit $" port "; port 3]) 0 1 2 3;
  mkRule FailNotAllowed $"not allowed because" (seq [Lit $"User "; name 1; Lit $" from "; ipPat 2; Lit $" not allowed because"]) 0 1 2 0;
  mkRule FailInvalidUser $"Invalid user"
    (seq [Lit $"Invalid user "; Grp 1 (Many true not_space); Lit $" from "; ipPat 2; Opt (seq [Lit $" port "; port 3])]) 0 1 2 3;
  mkRule FailPamAuth $"authentication failure"
    (seq [Lit $"authentication failure;"; Many false any; Lit $"rhost="; ipPat 1; Opt (seq [Many1 is_space; Lit $"user="; name 2])]) 0 2 1 0;
  mkRule FailPreauthClose $"[preauth]"
    (seq [Lit $"Connection "; Alt (Lit $"closed") (Lit $"reset"); Lit $" by "; preauth_user; ipPat 2; Lit $" port "; port 3]) 0 1 2 3;
  mkRule FailPreauthClose $"[preauth]" (seq [Lit $"Disconnected from "; preauth_user; ipPat 2; Lit $" port "; port 3]) 0 1 2 3;
  mkRule FailScanProbe $"Bad protocol version identification"
    (seq [Lit $"Bad protocol version identification "; Many true any; Lit $" from "; ipPat 1]) 0 0 1 0;
  mkRule FailScanProbe $"Did not receive identification string" (seq [Lit $"Did not receive identification string from "; ipPat 1]) 0 0 1 0 ].
Definition listenPortRe : re := seq [Lit $"Server listening on "; Many1 not_space; Lit $" port "; port 1].

(** A group that took no part in the match is the empty string. *)
Definition groupAt (m : caps) (idx : nat) : gostr :=
  match idx with O => [] | _ => match List.find (λ c, bool_decide (c.1 = idx)) m with Some c => c.2 | None => [] end end.
(** [n, _ = strconv.Atoi(p)]: a number that is too large gives the largest one. *)
Definition atoi (p : gostr) : Z :=
  match parse_int p with
  | Some n => n
  | None => match p with [] => 0 | _ => if forallb is_digit p then 2 ^ 63 - 1 else 0 end
  end.

Section parser.
Context `{UnicodeCase}.
Definition event_of (r : sshdRule) (line : gostr) (now : Z) (m : caps) : LoginFailEvent :=
  let p := groupAt m (portIdx r) in
  let k := match methodIdx r with O => kind r | i => if bool_decide (to_lower (groupAt m i) = $"publickey") then FailPublicKey else FailPassword end in
  mkEvent SourceSSH (groupAt m (ipIdx r)) (match p with [] => 0 | _ => atoi p end) (groupAt m (userIdx r)) k (TruncRaw line) now.
Fixpoint parse_rules (rs : list sshdRule) (line : gostr) (now : Z) : option LoginFailEvent :=
  match rs with
  | [] => None
  | r :: rs' =>
      if contains line (hint r) then
        match FindStringSubmatch (rx r) line with
        | Some m => match parse_ip (groupAt m (ipIdx r)) with Some _ => Some (event_of r line now m) | None => parse_rules rs' line now end
        | None => parse_rules rs' line now
        end
      else parse_rules rs' line now
  end.
Definition ParseSSHDLine (line : gostr) (now : Z) : option LoginFailEvent :=
  match line with [] => None | _ => parse_rules sshdRules line now end.
Definition ParseSSHDListenPort (line : gostr) : Z :=
  if contains line $"Server listening on" then match FindStringSubmatch listenPortRe line with Some m => atoi (groupAt m 1) | None => 0 end else 0.
Fixpoint trim_end (rs : gostr) : gostr := match rs with c :: rs' => if (code c =? 10) || (code c =? 13) then trim_end rs' else rs | [] => [] end.
Definition trimNewline (s : gostr) : gostr := rev (trim_end (rev s)).
End parser.

(** ** What is read *)

Section reading.
Context `{UnicodeCase}.

(** A word of the line, a number. *)
Definition word (w : gostr) : Prop := w ≠ [] ∧ forallb not_space w = true.
Definition digits (w : gostr) : Prop := w ≠ [] ∧ forallb is_digit w = true.
(** The line sshd writes for a wrong password. *)
Definition failed_line (pre method : gostr) (invalid : bool) (user ip p rest : gostr) : gostr :=
  pre ++ $"Failed " ++ method ++ $" for " ++ (if invalid then $"invalid user " else []) ++ user ++ $" from " ++ ip ++ $" port " ++ p ++ rest.

Lemma failed_overlap q s : has_prefix (q ++ $"Failed " ++ s) $"Failed " = true → q = [] ∨ has_prefix q $"Failed " = true.
Proof.
  destruct q as [|a q]; [by left|]. intros Hp. right. cbn [app] in Hp.
  do 6 (destruct q as [|? q]; [exfalso; clear -Hp; cbn in Hp; by rewrite ?andb_false_r in Hp|]).
  cbn in Hp |- *. by destruct q.
Qed.
Lemma failed_starts {A} s cs (k : gostr → caps → option A) : has_prefix s $"Failed " = false → run (rx failed_rule) s cs k = None.
Proof. intros Hp. cbn [failed_rule rx seq foldr run]. by rewrite Hp. Qed.
Lemma failed_skip pre s : contains pre $"Failed " = false → FindStringSubmatch (rx failed_rule) (pre ++ $"Failed " ++ s) = FindStringSubmatch (rx failed_rule) ($"Failed " ++ s).
Proof.
  induction pre as [|c pre IH]; [done|]. intros Hc. cbn [contains] in Hc. apply orb_false_iff in Hc as [Hp Hc]. rewrite <- IH by done. cbn [app FindStringSubmatch].
  rewrite failed_starts; [done|]. destruct (has_prefix (c :: pre ++ _) _) eqn:E; [|done]. by destruct (failed_overlap (c :: pre) s E) as [|E']; [|rewrite E' in Hp].
Qed.
Lemma contains_mid pre l s : contains (pre ++ l ++ s) l = true.
Proof.
  induction pre as [|c pre IH]; cbn [app].
  - assert (Hp : has_prefix (l ++ s) l = true) by (apply has_prefix_split; eauto). destruct (l ++ s); cbn [contains]; by rewrite Hp.
  - cbn [contains]. by rewrite IH, orb_true_r.
Qed.

Lemma run_cat {A} r1 r2 s cs (k : gostr → caps → option A) : run (Cat r1 r2) s cs k = run r1 s cs (λ s' cs', run r2 s' cs' k).
Proof. done. Qed.
Lemma run_opt {A} r s cs (k : gostr → caps → option A) : run (Opt r) s cs k = match run r s cs k with Some x => Some x | None => k s cs end.
Proof. done. Qed.
Lemma run_grp_lit {A} n l s cs (k : gostr → caps → option A) : run (Grp n (Lit l)) s cs k = if has_prefix s l then k (drop (length l) s) ((n, l) :: cs) else None.
Proof. cbn [run]. destruct (has_prefix s l) eqn:E; [|done]. apply has_prefix_split in E as [s' ->]. by rewrite drop_app_length, taken. Qed.
Lemma run_word {A} n w s cs (k : gostr → caps → option A) x : word w → ends not_space s = true → k s ((n, w) :: cs) = Some x → run (name n) (w ++ s) cs k = Some x.
Proof. intros [Hn Hw] He Hk. apply run_grp; [|done]. intros k'. by apply run_many1. Qed.
Lemma run_digits {A} n w s cs (k : gostr → caps → option A) x : digits w → ends is_digit s = true → k s ((n, w) :: cs) = Some x → run (port n) (w ++ s) cs k = Some x.
Proof. intros [Hn Hw] He Hk. apply run_grp; [|done]. intros k'. by apply run_many1. Qed.
Lemma run_ip {A} n w s cs (k : gostr → caps → option A) x : w ≠ [] → forallb ip_char w = true → ends ip_char s = true → k s ((n, w) :: cs) = Some x → run (ipPat n) (w ++ s) cs k = Some x.
Proof. intros Hn Hw He Hk. apply run_grp; [|done]. intros k'. by apply run_many1. Qed.

Lemma failed_match method (invalid : bool) user ip p rest : word method → word user → ip ≠ [] → forallb ip_char ip = true → digits p → ends is_digit rest = true →
  FindStringSubmatch (rx failed_rule) ($"Failed " ++ method ++ $" for " ++ (if invalid then $"invalid user " else []) ++ user ++ $" from " ++ ip ++ $" port " ++ p ++ rest)
  = Some ([(5%nat, p); (4%nat, ip); (3%nat, user)] ++ (if invalid then [(2%nat, $"invalid user ")] else []) ++ [(1%nat, method)]).
Proof.
  intros Hm Hu Hn Hi Hp Hr. apply find_here. cbn [failed_rule rx seq foldr]. rewrite run_cat, run_lit, run_cat. apply run_word; [done|done|]. rewrite run_cat, run_lit, run_cat.
  assert (Htail : ∀ cs, run (Cat (name 3) (Cat (Lit $" from ") (Cat (ipPat 4) (Cat (Lit $" port ") (Cat (port 5) (Lit []))))))
    (user ++ $" from " ++ ip ++ $" port " ++ p ++ rest) cs (λ _ cs, Some cs) = Some ([(5%nat, p); (4%nat, ip); (3%nat, user)] ++ cs)).
  { intros cs. rewrite run_cat. apply run_word; [done|done|]. rewrite run_cat, run_lit, run_cat. apply run_ip; [done|done|done|]. rewrite run_cat, run_lit, run_cat.
    apply run_digits; [done|done|]. cbn [run]. by destruct rest. }
  rewrite run_opt, run_grp_lit. destruct invalid.
  - rewrite (proj2 (has_prefix_split _ _)) by eauto. rewrite drop_app_length. by rewrite Htail.
  - cbn [app]. destruct (has_prefix _ _) eqn:Ep; [|by rewrite Htail]. exfalso. destruct Hu as [_ Hu]. clear -Hu Ep.
    do 7 (destruct user as [|? user]; [cbn in Ep; by rewrite ?andb_false_r in Ep|]). destruct user as [|b user]; [cbn in Ep; by rewrite ?andb_false_r in Ep|].
    apply has_prefix_split in Ep as [t Et]. cbn [app] in Et. injection Et as -> -> -> -> -> -> -> -> _. done.
Qed.

Lemma failed_find pre method (invalid : bool) user ip p rest : contains pre $"Failed " = false → word method → word user → ip ≠ [] → forallb ip_char ip = true → digits p → ends is_digit rest = true →
  FindStringSubmatch (rx failed_rule) (failed_line pre method invalid user ip p rest)
  = Some ([(5%nat, p); (4%nat, ip); (3%nat, user)] ++ (if invalid then [(2%nat, $"invalid user ")] else []) ++ [(1%nat, method)]).
Proof. intros Hpre Hm Hu Hn Hi Hp Hr. unfold failed_line. etrans; [apply failed_skip, Hpre|]. by apply failed_match. Qed.
Lemma failed_hint pre method (invalid : bool) user ip p rest : contains (failed_line pre method invalid user ip p rest) (hint failed_rule) = true.
Proof. apply contains_mid. Qed.

Lemma parse_rules_hit r rs line now m a : contains line (hint r) = true → FindStringSubmatch (rx r) line = Some m → parse_ip (groupAt m (ipIdx r)) = Some a →
  parse_rules (r :: rs) line now = Some (event_of r line now m).
Proof. intros Hh Hf Ha. cbn [parse_rules]. by rewrite Hh, Hf, Ha. Qed.

(** The line that sshd writes for a failed login of a name without blanks is read back
    exactly: the address, the port, the name and the kind, whatever stands in front of it
    that is no such line itself and whatever follows.  (What follows is not looked at, and
    the name is chosen by the client: see [log_injection].) *)
Theorem parse_reads_back pre method (invalid : bool) user ip a p rest now :
  contains pre $"Failed " = false → word method → word user → forallb ip_char ip = true → parse_ip ip = Some a → digits p → ends is_digit rest = true →
  ParseSSHDLine (failed_line pre method invalid user ip p rest) now =
  Some (mkEvent SourceSSH ip (atoi p) user (if bool_decide (to_lower method = $"publickey") then FailPublicKey else FailPassword)
                (TruncRaw (failed_line pre method invalid user ip p rest)) now).
Proof.
  intros Hpre Hm Hu Hi Ha Hp Hr. assert (Hn : ip ≠ []) by (by intros ->).
  pose proof (failed_find pre method invalid user ip p rest Hpre Hm Hu Hn Hi Hp Hr) as Hf. pose proof (failed_hint pre method invalid user ip p rest) as Hh.
  revert Hf Hh. generalize (failed_line pre method invalid user ip p rest) as line. intros line Hf Hh. unfold ParseSSHDLine. destruct line as [|c l]; [done|].
  cbv beta iota. generalize dependent (c :: l). clear c l. intros line Hf Hh.
  set (m := _ ++ _ ++ _) in Hf. assert (E4 : groupAt m (ipIdx failed_rule) = ip) by done.
  unfold sshdRules. rewrite (parse_rules_hit failed_rule _ line now m a Hh Hf) by (by rewrite E4). unfold event_of.
  assert (E5 : groupAt m (portIdx failed_rule) = p) by done. assert (E3 : groupAt m (userIdx failed_rule) = user) by done. assert (E1 : groupAt m 1 = method) by (by destruct invalid).
  rewrite E4, E5, E3. cbn [methodIdx failed_rule]. rewrite E1. destruct p; [by destruct Hp|done].
Qed.
End reading.

Section sound.
Context `{UnicodeCase}.
Lemma ip_groups r r' : r ∈ sshdRules → (ipIdx r, r') ∈ Regex.groups (rx r) → r' = Many1 ip_char.
Proof.
  unfold sshdRules. rewrite !elem_of_cons. intros Hr. repeat (destruct Hr as [->|Hr]); [..|by apply not_elem_of_nil in Hr];
    cbn; rewrite !elem_of_cons; intros Hg; repeat (destruct Hg as [Hg|Hg]; [by simplify_eq|]); by apply not_elem_of_nil in Hg.
Qed.
Lemma lang_many1 p w : lang (Many1 p) w → w ≠ [] ∧ forallb p w = true.
Proof.
  intros Hl. inversion Hl as [| | |? ? w1 w2 H1' H2'| | | | |]; subst. inversion H1'; subst. inversion H2'; subst. split; [done|]. cbn. by apply andb_true_iff.
Qed.
Lemma groupAt_in m n : groupAt m n ≠ [] → (n, groupAt m n) ∈ m.
Proof.
  unfold groupAt. destruct n; [done|]. destruct (List.find _ _) as [[i w]|] eqn:Ef; [|done]. intros _. apply find_some in Ef as [Hin E%bool_decide_eq_true]. cbn in *. subst. by apply list_elem_of_In.
Qed.

(** Only an address that stands in the line is read, and the line is cut. *)
Theorem parsed_address line now ev : ParseSSHDLine line now = Some ev →
  is_Some (parse_ip (ev_IP ev)) ∧ infix (ev_IP ev) line ∧ forallb ip_char (ev_IP ev) = true ∧ (length (ev_Raw ev) <= 500)%nat ∧ ev_At ev = now.
Proof.
  unfold ParseSSHDLine. destruct line as [|c l]; [done|]. generalize (c :: l) as line. clear c l. intros line.
  assert (Hsub : ∀ r, r ∈ sshdRules → r ∈ sshdRules) by done. revert Hsub. generalize sshdRules at 1 3 as rs. intros rs. induction rs as [|r rs IH]; [done|]. intros Hsub. cbn [parse_rules].
  assert (Hrest : ∀ x, x ∈ rs → x ∈ sshdRules) by (intros x Hx; apply Hsub; by right).
  destruct (contains line (hint r)); [|by apply IH]. destruct (FindStringSubmatch (rx r) line) as [m|] eqn:Em; [|by apply IH].
  destruct (parse_ip (groupAt m (ipIdx r))) as [a|] eqn:Ea; [|by apply IH]. intros [= <-]. cbn [event_of ev_IP ev_Raw ev_At].
  assert (Hn : groupAt m (ipIdx r) ≠ []) by (intros E; by rewrite E in Ea). apply find_sound in Em. rewrite Forall_forall in Em. destruct (Em _ (groupAt_in _ _ Hn)) as (r' & Hg & Hl & Hi). cbn [fst snd] in *.
  apply ip_groups in Hg as ->; [|apply Hsub; by left]. apply lang_many1 in Hl as [_ Hl]. split_and!; [by rewrite Ea|done|done| |done]. unfold TruncRaw. rewrite length_take. unfold RawLimit. lia.
Qed.
End sound.

Module SshdWitnesses.
#[local] Instance log_case : UnicodeCase := {| unicode_to_lower s := s |}.
Lemma parse_reads_back_witness : ∃ ev, ParseSSHDLine (failed_line $"Aug  6 14:55:01 host sshd[123]: " $"password" true $"mallory" $"203.0.113.9" $"50022" $" ssh2") 5 = Some ev ∧ ev_IP ev = $"203.0.113.9" ∧ ev_Port ev = 50022.
Proof.
  eexists. split; [eapply (parse_reads_back $"Aug  6 14:55:01 host sshd[123]: " $"password" true $"mallory" $"203.0.113.9" _ $"50022" $" ssh2" 5)|split; [reflexivity|vm_compute; reflexivity]];
    [vm_compute; reflexivity|split; [discriminate|vm_compute; reflexivity]|split; [discriminate|vm_compute; reflexivity]|vm_compute; reflexivity|vm_compute; reflexivity|split; [discriminate|vm_compute; reflexivity]|vm_compute; reflexivity].
Defined.

(** The name is written into the line as the client gave it: with a name that holds blanks
    the failure is put down to whatever address the client likes. *)
Example log_injection :
  match ParseSSHDLine ($"Aug  6 14:55:01 host sshd[1]: Failed password for invalid user x from 198.51.100.7 port 1 from 203.0.113.9 port 50022 ssh2") 0 with
  | Some ev => ev_IP ev = $"198.51.100.7" ∧ ev_User ev = $"x" ∧ IsHard (ev_Kind ev) = true
  | None => False
  end.
Proof. vm_compute. done. Qed.
End SshdWitnesses.
End SshdLog.
