(* ===== verification/HostGuard.v ===== *)
(** * The guard of the host's remote logins (wafhostguard, waf_host_guard_service.go)

    Failures read from the logs ([SshdLog]) are counted per client ([IPBan.HostLogin]); a
    client over the threshold is banned for the time of its step of the ladder.  The state
    is the ledger of bans, the profiles of the clients, the ladder, the mirror of the
    blocked addresses in memory, the marks in the cache, and the copies of the white list
    and the ladder.  The firewall of the operating system, reached by running its
    commands, the network interfaces and the text of the minute are parameters; the
    texts of reasons, the notifications and the scope of ports are not modelled.
    Statements on the tables do not fail; equal keys are sorted as insertion sort leaves
    them. *)
From S2P Require Import Prelude.
From S2P Require Import GoLib.
From S2P Require Import NetFacts.
From S2P Require Import MatchSet.
From S2P Require Import WafCache.
From S2P Require Import IPBan.
From S2P Require Import ClientIP.
From S2P Require Import ManageAuth.
From S2P Require Import SshdLog.
Local Open Scope Z_scope.
Local Open Scope bool_scope.
#[local] Existing Instance WafCache.wafcache_store.

Module HostGuard.
Import SshdLog.

(** ** Data *)

Inductive ban_status := Active | Expired | Released.
#[export] Instance ban_status_dec : EqDecision ban_status.
Proof. solve_decision. Defined.
Record HostGuardBan := mkBan {
  b_Id : gostr; b_IP : gostr; b_Source : gostr; b_Level : Z; BanMinutes : Z; StartTime : Z; ExpireTime : Z; Status : ban_status; IsSubnet : bool; b_HitCount : Z }.
Record HostGuardOffender := mkOffender {
  o_Id : gostr; o_IP : gostr; o_Source : gostr; BanCount : Z; CurrentLevel : Z; FirstBanTime : Z; LastBanTime : Z; TotalFailCount : Z }.
Record HostGuardBanLadder := mkLadder { Level : Z; l_BanMinutes : Z; Enable : Z }.
Definition DefaultBanLadders : list HostGuardBanLadder := [mkLadder 1 5 1; mkLadder 2 15 1; mkLadder 3 60 1; mkLadder 4 1440 1; mkLadder 5 0 1].

Record config := mkConfig {
  FORCE_DISABLE : bool; COUNT_SOFT_FAIL : Z; FIND_TIME : Z; MAX_RETRY : Z; MODE : gostr; AUTO_LAN : Z; GWAF_IP_WHITELIST : gostr;
  BAN_RATE_LIMIT : Z; MAX_BAN_ENTRIES : Z; SUBNET_AGGREGATE : Z; SUBNET_THRESHOLD : Z; OFFENDER_RESET_DAY : Z; EXEC_MODE : gostr }.

(** The firewall of the operating system; the second result is false for an error. *)
Class FireWall := {
  rules : Type; SupportsIncrementalIPSet : bool; SupportsIPSet : bool;
  BlockIP : gostr → rules → rules * bool; UnblockIP : gostr → rules → rules * bool; BlockIPList : list gostr → rules → rules * bool;
  AddToIPSet : list gostr → rules → rules * bool; DelFromIPSet : list gostr → rules → rules * bool; RestoreIPSet : list gostr → rules → rules * bool;
  Interfaces : Z → list gostr; minute_text : Z → gostr }.

Definition ssh_source : gostr := $"ssh".
Definition source_text (s : Source) : gostr := match s with SourceSSH => ssh_source | SourceRDP => $"rdp" end.
Definition CACHE_HOST_GUARD_BANNED_PRE : gostr := $"CACHE_HOST_GUARD_BANNED_".
Definition CACHE_HOST_GUARD_RATE : gostr := $"CACHE_HOST_GUARD_RATE".
Definition unix (now : Z) : Z := now / second.

(** [sort.Slice] by a number. *)
Fixpoint insert_by {A} (f : A → Z) (x : A) (l : list A) : list A :=
  match l with [] => [x] | y :: l' => if f y <=? f x then y :: insert_by f x l' else x :: l end.
Definition sort_by {A} (f : A → Z) (l : list A) : list A := foldl (λ acc x, insert_by f x acc) [] l.

(** ** The white list (whitelist.go, localaddr.go) *)

Definition lanCIDRs : list gostr := [$"10.0.0.0/8"; $"172.16.0.0/12"; $"192.168.0.0/16"; $"169.254.0.0/16"; $"100.64.0.0/10"; $"fc00::/7"; $"fe80::/10"].
Definition loopbackCIDRs : list gostr := [$"127.0.0.0/8"; $"::1/128"].
Inductive white_reason := BadIP | Loopback | Local_ | LAN | Configured | Manage | AdminIP.
Record whitelistSnapshot := mkSnap {
  loopback : MatchSet; local : MatchSet; lan : MatchSet; configured : MatchSet; managed : MatchSet; builtAt : Z }.
Definition whitelistTTL : Z := 5 * minute.
Definition localAddrCacheGC : Z := 5 * minute.
Definition splitList (s : gostr) : list gostr :=
  if bool_decide (trim_space s = []) then [] else List.filter (λ p, negb (bool_decide (p = []))) (map trim_space (split s ",")).
Definition dropCatchAll (items : list gostr) : list gostr :=
  List.filter (λ item, match parse_cidr item with Some net => negb ((mask_size net.2).1 =? 0)%nat | None => true end) items.

Section host.
Context `{FireWall} (cfg : config).

Record BanExecutor := mkExec { current : gset gostr; dirty : bool; fw : rules }.
Abbreviation record := HostLogin.HostLoginFailureRecord.
Abbreviation fail_store := (gmap gostr (WafCache.WafCacheItem record)).
Abbreviation mark_store := (gmap gostr (WafCache.WafCacheItem Z)).
(** The copies of slow data: the ladder, the white list, the own addresses. *)
Record copies := mkCopies { ladderCache : option (list HostGuardBanLadder * Z); whitelistCur : option whitelistSnapshot; localAddrCache : option (list gostr * Z) }.
(** [fails] and [marks] are the cache: the keys have different prefixes. *)
Record state := mkState {
  fails : fail_store; marks : mark_store; exec : BanExecutor; ladders : list HostGuardBanLadder; offenders : list HostGuardOffender; bans : list HostGuardBan;
  copied : copies; WHITELIST : gostr }.
Definition with_fails x (s : state) : state := mkState x (marks s) (exec s) (ladders s) (offenders s) (bans s) (copied s) (WHITELIST s).
Definition with_marks x (s : state) : state := mkState (fails s) x (exec s) (ladders s) (offenders s) (bans s) (copied s) (WHITELIST s).
Definition with_exec x (s : state) : state := mkState (fails s) (marks s) x (ladders s) (offenders s) (bans s) (copied s) (WHITELIST s).
Definition with_ladders x (s : state) : state := mkState (fails s) (marks s) (exec s) x (offenders s) (bans s) (copied s) (WHITELIST s).
Definition with_offenders x (s : state) : state := mkState (fails s) (marks s) (exec s) (ladders s) x (bans s) (copied s) (WHITELIST s).
Definition with_bans x (s : state) : state := mkState (fails s) (marks s) (exec s) (ladders s) (offenders s) x (copied s) (WHITELIST s).
Definition with_copied x (s : state) : state := mkState (fails s) (marks s) (exec s) (ladders s) (offenders s) (bans s) x (WHITELIST s).
Definition with_WHITELIST x (s : state) : state := mkState (fails s) (marks s) (exec s) (ladders s) (offenders s) (bans s) (copied s) x.

Definition LocalAddrs (now : Z) (c : copies) : copies * list gostr :=
  match localAddrCache c with
  | Some (addrs, at_) => if now - at_ <? localAddrCacheGC then (c, addrs) else (mkCopies (ladderCache c) (whitelistCur c) (Some (Interfaces now, now)), Interfaces now)
  | None => (mkCopies (ladderCache c) (whitelistCur c) (Some (Interfaces now, now)), Interfaces now)
  end.
Definition build_snapshot (now : Z) (s : state) : state * whitelistSnapshot :=
  let (c, addrs) := LocalAddrs now (copied s) in
  let snap := mkSnap (BuildMatchSet loopbackCIDRs) (BuildMatchSet addrs) (BuildMatchSet lanCIDRs) (BuildMatchSet (splitList (WHITELIST s)))
                     (BuildMatchSet (dropCatchAll (splitList (GWAF_IP_WHITELIST cfg)))) now in
  (with_copied (mkCopies (ladderCache c) (Some snap) (localAddrCache c)) s, snap).
Definition getWhitelist (now : Z) (s : state) : state * whitelistSnapshot :=
  match whitelistCur (copied s) with
  | Some snap => if now - builtAt snap <? whitelistTTL then (s, snap) else build_snapshot now s
  | None => build_snapshot now s
  end.
Definition InvalidateWhitelist (s : state) : state := with_copied (mkCopies (ladderCache (copied s)) None None) s.
Definition isActiveAdminIP (now : Z) (ip : gostr) (s : state) : state * bool :=
  let (m, b) := WafCache.IsKeyExist (marks s) now (ManageAuth.CACHE_HOST_GUARD_ADMIN_PRE ++ ip) in (with_marks m s, b).
Definition TouchAdminIP (now : Z) (ip : gostr) (s : state) : state :=
  let ip := trim_space ip in
  if bool_decide (ip = []) then s
  else match parse_ip ip with
       | Some _ => with_marks (WafCache.SetWithTTlRenewTime (marks s) now (ManageAuth.CACHE_HOST_GUARD_ADMIN_PRE ++ ip) 1 ManageAuth.adminIPTTL) s
       | None => s
       end.
Definition IsWhitelisted (now : Z) (ip : gostr) (s : state) : state * option white_reason :=
  match parse_ip ip with
  | None => (s, Some BadIP)
  | Some a =>
      let (s, snap) := getWhitelist now s in
      let inside m := Contains (Some m) (Some a) in
      if inside (loopback snap) then (s, Some Loopback)
      else if inside (local snap) then (s, Some Local_)
      else if (AUTO_LAN cfg =? 1) && inside (lan snap) then (s, Some LAN)
      else if inside (configured snap) then (s, Some Configured)
      else if inside (managed snap) then (s, Some Manage)
      else let (s, admin) := isActiveAdminIP now ip s in (s, if admin then Some AdminIP else None)
  end.

(** ** The executor (executor.go) *)

Definition useIncremental : bool := if bool_decide (EXEC_MODE cfg = $"rule") then true else SupportsIncrementalIPSet.
Definition useRuleMode : bool :=
  if bool_decide (EXEC_MODE cfg = $"rule") then true else if bool_decide (EXEC_MODE cfg = $"ipset") then false else negb SupportsIPSet.
Definition each (f : gostr → rules → rules * bool) (ips : list gostr) (r : rules) : rules * bool :=
  foldl (λ '(r, ok) ip, let (r, b) := f ip r in (r, ok && b)) (r, true) ips.
Definition applyByRules (add del : list gostr) (r : rules) : rules * bool :=
  let (r, ok1) := each BlockIP add r in let (r, ok2) := each UnblockIP del r in (r, ok1 && ok2).
Definition applyIncremental (add del : list gostr) (r : rules) : rules * bool :=
  let (r, ok1) := match add with [] => (r, true) | _ => AddToIPSet add r end in
  let (r, ok2) := match del with [] => (r, true) | _ => DelFromIPSet del r end in (r, ok1 && ok2).
Definition Apply (add del : list gostr) (e : BanExecutor) : BanExecutor * bool :=
  let added := list_to_set add ∪ current e in
  let cur := added ∖ list_to_set del in
  let changed := existsb (λ ip, bool_decide (ip ∉ current e)) add || existsb (λ ip, bool_decide (ip ∈ added)) del in
  if negb changed then (e, true)
  else if useRuleMode then let (r, ok) := applyByRules add del (fw e) in (mkExec cur (dirty e) r, ok)
  else if useIncremental then let (r, ok) := applyIncremental add del (fw e) in (mkExec cur (dirty e) r, ok)
  else (mkExec cur true (fw e), true).
Definition FlushPending (e : BanExecutor) : BanExecutor * bool :=
  if dirty e then let (r, ok) := RestoreIPSet (elements (current e)) (fw e) in (mkExec (current e) false r, ok) else (e, true).
Definition in_force (now : Z) (b : HostGuardBan) : bool := bool_decide (Status b = Active) && ((ExpireTime b =? 0) || (unix now <? ExpireTime b)).
Definition ReplayOnStart (now : Z) (table : list HostGuardBan) (e : BanExecutor) : BanExecutor * bool :=
  match List.filter (in_force now) table with
  | [] => (e, true)
  | rows =>
      let ips := List.filter (λ ip, negb (bool_decide (ip = []))) (map b_IP rows) in
      let (r, ok) := if useRuleMode then BlockIPList ips (fw e) else RestoreIPSet ips (fw e) in (mkExec (list_to_set ips) (dirty e) r, ok)
  end.

(** ** The ladder (ladder.go) *)

Definition ladderCacheTTL : Z := minute.
Definition InvalidateLadder (s : state) : state := with_copied (mkCopies None (whitelistCur (copied s)) (localAddrCache (copied s))) s.
Definition read_ladders (s : state) : list HostGuardBanLadder :=
  let l := List.filter (λ l, Enable l =? 1) (ladders s) in sort_by Level (match l with [] => DefaultBanLadders | _ => l end).
Definition loadLadders (now : Z) (s : state) : state * list HostGuardBanLadder :=
  let load := (with_copied (mkCopies (Some (read_ladders s, now)) (whitelistCur (copied s)) (localAddrCache (copied s))) s, read_ladders s) in
  match ladderCache (copied s) with Some (l, at_) => if now - at_ <? ladderCacheTTL then (s, l) else load | None => load end.
Record LadderDecision := mkDecision { d_Level : Z; d_BanMinutes : Z; d_BanCount : Z; d_Reset : bool }.
Definition forgotten (o : HostGuardOffender) (now : Z) : bool :=
  (0 <? OFFENDER_RESET_DAY cfg) && (0 <? LastBanTime o) && (OFFENDER_RESET_DAY cfg * (24 * hour) <? now - LastBanTime o * second).
Definition ban_number (offender : option HostGuardOffender) (now : Z) : Z :=
  match offender with Some o => if (0 <? BanCount o) && negb (forgotten o now) then BanCount o + 1 else 1 | None => 1 end.
Definition step_at (l : list HostGuardBanLadder) (n : Z) : HostGuardBanLadder :=
  let i := n - 1 in
  let i := if Z.of_nat (length l) <=? i then Z.of_nat (length l) - 1 else i in
  let i := if i <? 0 then 0 else i in
  default (mkLadder 0 0 0) (l !! Z.to_nat i).
Definition DecideLadder (offender : option HostGuardOffender) (now : Z) (s : state) : state * LadderDecision :=
  let (s, l) := loadLadders now s in
  let n := ban_number offender now in
  let chosen := step_at l n in
  (s, mkDecision (Level chosen) (l_BanMinutes chosen) n (match offender with Some o => (0 <? BanCount o) && forgotten o now | None => false end)).

(** ** Whole networks (subnet.go) *)

Definition subnetOf (ip : gostr) : option gostr :=
  match parse_ip ip with
  | None => None
  | Some a => match ip_to4 a with Some v4 => Some (Net.dotted (bytes_and v4 (cidr_mask 24 32)) ++ $"/24") | None => None end
  end.
Definition ShouldAggregateSubnet (ip : gostr) (s : state) : option gostr :=
  if negb (SUBNET_AGGREGATE cfg =? 1) then None
  else match subnetOf ip with
       | None => None
       | Some cidr =>
           let threshold := if SUBNET_THRESHOLD cfg <=? 0 then 10 else SUBNET_THRESHOLD cfg in
           if existsb (λ b, bool_decide (b_IP b = cidr) && bool_decide (Status b = Active)) (bans s) then None
           else
             let prefix := take (length cidr - 4) cidr in
             let cnt := Z.of_nat (count_if (λ b, bool_decide (Status b = Active) && negb (IsSubnet b) && has_prefix (b_IP b) prefix) (bans s)) in
             if threshold <=? cnt + 1 then Some cidr else None
       end.

(** ** Bans (action.go) *)

Record BanRequest := mkRequest { q_IP : gostr; q_Source : gostr; q_HitCount : Z; Manual : bool; ManualMin : Z }.
Inductive skip_reason := ForceDisabled | White (r : white_reason) | AlreadyBanned | RateLimited | Full | FirewallFailed.
Record BanResult := mkResult { Banned : bool; Observed : bool; Skipped : option skip_reason; r_Level : Z; r_BanMinutes : Z; r_ExpireTime : Z; r_IsSubnet : bool; TargetIP : gostr }.
Definition skipped (ip : gostr) (r : skip_reason) : BanResult := mkResult false false (Some r) 0 0 0 false ip.

Definition loadOffender (ip : gostr) (s : state) : option HostGuardOffender := List.find (λ o, bool_decide (o_IP o = ip)) (offenders s).
Definition upsertOffender (q : BanRequest) (id : gostr) (level banCount now : Z) (s : state) : state :=
  match loadOffender (q_IP q) s with
  | None => with_offenders (offenders s ++ [mkOffender id (q_IP q) (q_Source q) banCount level (unix now) (unix now) (q_HitCount q)]) s
  | Some existing =>
      with_offenders (map (λ o, if bool_decide (o_Id o = o_Id existing)
                                then mkOffender (o_Id o) (o_IP o) (q_Source q) banCount level (FirstBanTime o) (unix now) (TotalFailCount existing + q_HitCount q)
                                else o) (offenders s)) s
  end.
Definition markBanned (now : Z) (ip : gostr) (banMinutes : Z) (s : state) : state :=
  with_marks (WafCache.SetWithTTl (marks s) now (CACHE_HOST_GUARD_BANNED_PRE ++ ip) 1 (if 0 <? banMinutes then swrap 64 (banMinutes * minute) else 24 * hour)) s.
(** [GetInt] gives -1 with its error when the key is missing. *)
Definition allowBanRate (now : Z) (s : state) : state * bool :=
  let limit := BAN_RATE_LIMIT cfg in
  if limit <=? 0 then (s, true)
  else
    let key := CACHE_HOST_GUARD_RATE ++ $":" ++ minute_text now in
    let (m, v) := WafCache.Get (marks s) now key in
    let cur := default (-1) v in
    if limit <=? cur then (with_marks m s, false)
    else (with_marks (WafCache.SetWithTTl m now key (cur + 1) (2 * minute)) s, true).
Definition set_status (st : ban_status) (b : HostGuardBan) : HostGuardBan :=
  mkBan (b_Id b) (b_IP b) (b_Source b) (b_Level b) (BanMinutes b) (StartTime b) (ExpireTime b) st (IsSubnet b) (b_HitCount b).
Definition set_where (p : HostGuardBan → bool) (st : ban_status) (s : state) : state := with_bans (map (λ b, if p b then set_status st b else b) (bans s)) s.
Definition by_ids (ids : list gostr) (b : HostGuardBan) : bool := bool_decide (b_Id b ∈ ids).
Definition evictBatch : nat := 16.
Definition ensureCapacity (s : state) : state * bool :=
  let limit := MAX_BAN_ENTRIES cfg in
  if limit <=? 0 then (s, true)
  else if Z.of_nat (size (current (exec s))) <? limit then (s, true)
  else match take evictBatch (sort_by ExpireTime (List.filter (λ b, bool_decide (Status b = Active) && (0 <? ExpireTime b)) (bans s))) with
       | [] => (s, false)
       | victims =>
           let (e, _) := Apply [] (map b_IP victims) (exec s) in
           (set_where (by_ids (map b_Id victims)) Released (with_exec e s), true)
       end.

(** The row is written, the firewall is told, and a row whose ban failed is released
    again; then the profile is kept and the mark set. *)
Definition issue (q : BanRequest) (id target : gostr) (sub : bool) (level banMinutes banCount expire now : Z) (s : state) : state * BanResult :=
  let res := mkResult false false None level banMinutes expire sub target in
  let s := with_bans (bans s ++ [mkBan id target (q_Source q) level banMinutes (unix now) expire Active sub (q_HitCount q)]) s in
  let (e, ok) := Apply [target] [] (exec s) in
  let s := with_exec e s in
  if negb ok then (set_where (by_ids [id]) Released s, mkResult false false (Some FirewallFailed) level banMinutes expire sub target)
  else (markBanned now target banMinutes (upsertOffender q id level banCount now s), mkResult true false None level banMinutes expire sub target).
(** What follows the gates. *)
Definition decide_ban (q : BanRequest) (now : Z) (id : gostr) (s : state) : state * BanResult :=
  let offender := loadOffender (q_IP q) s in
  let '(s, (level, banMinutes, banCount)) :=
    if Manual q then (s, (0, ManualMin q, match offender with Some o => BanCount o + 1 | None => 1 end))
    else let (s, d) := DecideLadder offender now s in (s, (d_Level d, d_BanMinutes d, d_BanCount d)) in
  let agg := if Manual q then None else ShouldAggregateSubnet (q_IP q) s in
  let target := default (q_IP q) agg in
  let sub := bool_decide (is_Some agg) in
  let expire := if 0 <? banMinutes then unix (now + swrap 64 (banMinutes * minute)) else 0 in
  if negb (Manual q) && negb (bool_decide (MODE cfg = $"block")) then (s, mkResult false true None level banMinutes expire sub target)
  else issue q id target sub level banMinutes banCount expire now s.
Definition ApplyBan (q : BanRequest) (now : Z) (id : gostr) (s : state) : state * BanResult :=
  if FORCE_DISABLE cfg then (s, skipped (q_IP q) ForceDisabled)
  else
    let (s, white) := if Manual q then (s, None) else IsWhitelisted now (q_IP q) s in
    match white with
    | Some r => (s, skipped (q_IP q) (White r))
    | None =>
        if bool_decide (q_IP q ∈ current (exec s)) then (s, skipped (q_IP q) AlreadyBanned)
        else
          let (s, allowed) := if Manual q then (s, true) else allowBanRate now s in
          if negb allowed then (s, skipped (q_IP q) RateLimited)
          else
            let (s, room) := if Manual q then (s, true) else ensureCapacity s in
            if negb room then (s, skipped (q_IP q) Full) else decide_ban q now id s
    end.

(** ** One failure (decide.go)

    The second result is what is recorded about the event: its treatment and the count. *)

Inductive treatment := Counted | SkippedEvent | BannedEvent | ObservedEvent.
Definition window_minutes : Z := if FIND_TIME cfg <=? 0 then 10 else FIND_TIME cfg.
Definition max_retry : Z := if MAX_RETRY cfg <=? 0 then 8 else MAX_RETRY cfg.
Definition countable (ev : LoginFailEvent) : bool := IsHard (ev_Kind ev) || (COUNT_SOFT_FAIL cfg =? 1).
Definition nothing (ip : gostr) : BanResult := mkResult false false None 0 0 0 false ip.
Definition Decide (ev : LoginFailEvent) (id : gostr) (s : state) : state * BanResult * option (treatment * Z) :=
  let now := ev_At ev in
  let ip := ev_IP ev in
  let source := source_text (ev_Source ev) in
  if FORCE_DISABLE cfg then (s, skipped ip ForceDisabled, None)
  else
    let (s, white) := IsWhitelisted now ip s in
    let count := countable ev && bool_decide (white = None) in
    let '(s, hits) :=
      if count then let (f, n) := HostLogin.Record_ (fails s) now source ip window_minutes (window_minutes * 3) in (with_fails f s, n) else (s, 0) in
    if count && (max_retry <=? hits) then
      let (s, res) := ApplyBan (mkRequest ip source hits false 0) now id s in
      if Banned res then (with_fails (HostLogin.Clear (fails s) source ip) s, res, Some (BannedEvent, hits))
      else (s, res, Some (if Observed res then ObservedEvent else SkippedEvent, hits))
    else (s, nothing ip, Some (if count then Counted else SkippedEvent, hits)).

(** ** The administrator and the clock (waf_host_guard_service.go, engine.go) *)

Inductive guard_error := NoRow | NotActive | Failed | NoAddress | Refused (r : option skip_reason) | Present | NoLadder | NegativeTime | NoneEnabled.
Definition ban_by_id (id : gostr) (s : state) : option HostGuardBan := List.find (λ b, bool_decide (b_Id b = id)) (bans s).
Definition flush (s : state) : state := with_exec (FlushPending (exec s)).1 s.
Definition ReleaseBan (id : gostr) (s : state) : state * result guard_error () :=
  match ban_by_id id s with
  | None => (s, Err NoRow)
  | Some b =>
      if negb (bool_decide (Status b = Active)) then (s, Err NotActive)
      else
        let (e, ok) := Apply [] [b_IP b] (exec s) in
        if ok then (set_where (by_ids [id]) Released (flush (with_exec e s)), Ok ()) else (with_exec e s, Err Failed)
  end.
Definition make_permanent (b : HostGuardBan) : HostGuardBan :=
  mkBan (b_Id b) (b_IP b) (b_Source b) (b_Level b) 0 (StartTime b) 0 (Status b) (IsSubnet b) (b_HitCount b).
Definition PromoteToPermanent (id : gostr) (s : state) : state * result guard_error () :=
  match ban_by_id id s with
  | None => (s, Err NoRow)
  | Some b => if negb (bool_decide (Status b = Active)) then (s, Err NotActive)
              else (with_bans (map (λ b, if by_ids [id] b then make_permanent b else b) (bans s)) s, Ok ())
  end.
Definition ManualBan (ip source : gostr) (minutes now : Z) (id : gostr) (s : state) : state * result guard_error () :=
  let ip := trim_space ip in
  if bool_decide (ip = []) then (s, Err NoAddress)
  else
    let (s, res) := ApplyBan (mkRequest ip (if bool_decide (source = []) then ssh_source else source) 0 true minutes) now id s in
    if Banned res then (flush s, Ok ()) else (s, Err (Refused (Skipped res))).
Definition ResetOffender (id : gostr) (s : state) : state :=
  with_offenders (map (λ o, if bool_decide (o_Id o = id) then mkOffender (o_Id o) (o_IP o) (o_Source o) 0 0 (FirstBanTime o) (LastBanTime o) (TotalFailCount o) else o) (offenders s)) s.
Definition DeleteOffender (id : gostr) (s : state) : state := with_offenders (List.filter (λ o, negb (bool_decide (o_Id o = id))) (offenders s)) s.
Fixpoint number_from (i : Z) (l : list HostGuardBanLadder) : list HostGuardBanLadder :=
  match l with [] => [] | x :: l' => mkLadder (if Level x <=? 0 then i else Level x) (l_BanMinutes x) (Enable x) :: number_from (i + 1) l' end.
Definition SaveLadders (l : list HostGuardBanLadder) (s : state) : state * result guard_error () :=
  match l with
  | [] => (s, Err NoLadder)
  | _ => if existsb (λ x, l_BanMinutes x <? 0) l then (s, Err NegativeTime)
         else if negb (existsb (λ x, Enable x =? 1) l) then (s, Err NoneEnabled)
         else (InvalidateLadder (with_ladders (number_from 1 l) s), Ok ())
  end.
Definition expired_rows (now : Z) (s : state) : list HostGuardBan :=
  List.filter (λ b, bool_decide (Status b = Active) && (0 <? ExpireTime b) && (ExpireTime b <=? unix now)) (bans s).
Definition CleanExpiredBans (now : Z) (s : state) : state * nat :=
  match expired_rows now s with
  | [] => (s, 0%nat)
  | rows =>
      let (e, ok) := Apply [] (map b_IP rows) (exec s) in
      if ok then (set_where (by_ids (map b_Id rows)) Expired (flush (with_exec e s)), length rows) else (with_exec e s, 0%nat)
  end.
(** The setting is stored, and the running bans of the address end. *)
Definition AddToWhitelist (ip : gostr) (s : state) : state * result guard_error () :=
  let ip := trim_space ip in
  if bool_decide (ip = []) then (s, Err NoAddress)
  else
    let current := trim_space (WHITELIST s) in
    if existsb (λ item, bool_decide (trim_space item = ip)) (split current ",") then (s, Err Present)
    else
      let s := InvalidateWhitelist (with_WHITELIST (if bool_decide (current = []) then ip else current ++ $"," ++ ip) s) in
      let rows := List.filter (λ b, bool_decide (b_IP b = ip) && bool_decide (Status b = Active)) (bans s) in
      (foldl (λ s b, (ReleaseBan (b_Id b) s).1) s rows, Ok ()).
(** The process starts with empty memory; [r] is what the firewall holds by then. *)
Definition start (now : Z) (r : rules) (s : state) : state :=
  let s := mkState ∅ ∅ (mkExec ∅ false r) (ladders s) (offenders s) (bans s) (mkCopies None None None) (WHITELIST s) in
  with_exec (ReplayOnStart now (bans s) (exec s)).1 s.
End host.
End HostGuard.
