(* ===== verification/HostGuardFacts.v ===== *)
(** * Facts about the guard of remote logins

    With a working firewall the ledger of bans, the mirror in memory and the firewall agree:
    lemmas on the executor, one preservation lemma per operation, and the guard as a
    transition system. *)
From S2P Require Import Prelude.
From S2P Require Import GoLib.
From S2P Require Import WafCache.
From S2P Require Import IPBan.
From S2P Require Import ManageAuth.
From S2P Require Import SshdLog.
From S2P Require Import HostGuard.
Local Open Scope Z_scope.
Local Open Scope bool_scope.
#[local] Existing Instance WafCache.wafcache_store.

Module HostGuardFacts.
Import SshdLog HostGuard.

(** A firewall whose commands do what they are told. *)
Class WorkingFireWall `{FireWall} := {
  blocked : rules → gset gostr;
  block_works ip r : ∃ r', BlockIP ip r = (r', true) ∧ blocked r' = {[ip]} ∪ blocked r;
  unblock_works ip r : ∃ r', UnblockIP ip r = (r', true) ∧ blocked r' = blocked r ∖ {[ip]};
  list_works l r : ∃ r', BlockIPList l r = (r', true) ∧ blocked r' = list_to_set l ∪ blocked r;
  add_works l r : ∃ r', AddToIPSet l r = (r', true) ∧ blocked r' = list_to_set l ∪ blocked r;
  del_works l r : ∃ r', DelFromIPSet l r = (r', true) ∧ blocked r' = blocked r ∖ list_to_set l;
  restore_works l r : ∃ r', RestoreIPSet l r = (r', true) ∧ blocked r' = list_to_set l }.

(** ** The executor *)

Section executor.
Context `{Hfw : FireWall} `{Hw : !WorkingFireWall} (cfg : config).

Lemma each_block ips r : ∃ r', each BlockIP ips r = (r', true) ∧ blocked r' = list_to_set ips ∪ blocked r.
Proof.
  unfold each. revert r. induction ips as [|ip ips IH]; intros r; [exists r; cbn; split; [done|set_solver]|]. cbn [foldl].
  destruct (block_works ip r) as (r1 & E & Hb). rewrite E. destruct (IH r1) as (r2 & E2 & Hb2). exists r2. split; [done|]. rewrite Hb2, Hb. cbn. set_solver.
Qed.
Lemma each_unblock ips r : ∃ r', each UnblockIP ips r = (r', true) ∧ blocked r' = blocked r ∖ list_to_set ips.
Proof.
  unfold each. revert r. induction ips as [|ip ips IH]; intros r; [exists r; cbn; split; [done|set_solver]|]. cbn [foldl].
  destruct (unblock_works ip r) as (r1 & E & Hb). rewrite E. destruct (IH r1) as (r2 & E2 & Hb2). exists r2. split; [done|]. rewrite Hb2, Hb. cbn. set_solver.
Qed.
Lemma rules_work add del r : ∃ r', applyByRules add del r = (r', true) ∧ blocked r' = (list_to_set add ∪ blocked r) ∖ list_to_set del.
Proof.
  unfold applyByRules. destruct (each_block add r) as (r1 & -> & H1'). destruct (each_unblock del r1) as (r2 & -> & H2'). exists r2. split; [done|]. by rewrite H2', H1'.
Qed.
Lemma sets_work add del r : ∃ r', applyIncremental add del r = (r', true) ∧ blocked r' = (list_to_set add ∪ blocked r) ∖ list_to_set del.
Proof.
  unfold applyIncremental. assert (H1' : ∃ r1, match add with [] => (r, true) | _ => AddToIPSet add r end = (r1, true) ∧ blocked r1 = list_to_set add ∪ blocked r).
  { destruct add as [|a l]; [exists r; split; [done|cbn; set_solver]|apply add_works]. }
  destruct H1' as (r1 & -> & H1'). assert (H2' : ∃ r2, match del with [] => (r1, true) | _ => DelFromIPSet del r1 end = (r2, true) ∧ blocked r2 = blocked r1 ∖ list_to_set del).
  { destruct del as [|a l]; [exists r1; split; [done|cbn; set_solver]|apply del_works]. }
  destruct H2' as (r2 & -> & H2'). exists r2. split; [done|]. by rewrite H2', H1'.
Qed.

(** The firewall blocks the mirror, unless a change is pending. *)
Definition in_sync (e : BanExecutor) : Prop := dirty e = false → blocked (fw e) = current e.
Lemma Apply_works add del e : in_sync e →
  (Apply cfg add del e).2 = true ∧ current (Apply cfg add del e).1 = (list_to_set add ∪ current e) ∖ list_to_set del ∧ in_sync (Apply cfg add del e).1.
Proof.
  intros Hs. unfold Apply. destruct (existsb _ add || existsb _ del) eqn:Ec; cbn [negb].
  - destruct (useRuleMode cfg); [destruct (rules_work add del (fw e)) as (r & -> & Hr)|destruct (useIncremental cfg); [destruct (sets_work add del (fw e)) as (r & -> & Hr)|done]].
    all: split_and!; [done|done|]; intros Hd; cbn in *; by rewrite Hr, Hs.
  - split_and!; [done| |done]. apply orb_false_iff in Ec as [Ha Hd]. cbn [fst]. apply set_eq. intros ip. rewrite elem_of_difference, elem_of_union, !elem_of_list_to_set. split.
    + intros Hin. split; [by right|]. intros Hdel. assert (E : existsb (λ ip, bool_decide (ip ∈ list_to_set (C := gset gostr) add ∪ current e)) del = true); [|by rewrite E in Hd].
      apply existsb_exists. exists ip. split; [by apply list_elem_of_In|]. apply bool_decide_eq_true. set_solver.
    + intros [[Hin|Hin] _]; [|done]. destruct (decide (ip ∈ current e)); [done|]. assert (E : existsb (λ ip, bool_decide (ip ∉ current e)) add = true); [|by rewrite E in Ha].
      apply existsb_exists. exists ip. split; [by apply list_elem_of_In|by apply bool_decide_eq_true].
Qed.
Lemma Flush_works e : in_sync e → (FlushPending e).2 = true ∧ current (FlushPending e).1 = current e ∧ in_sync (FlushPending e).1 ∧ dirty (FlushPending e).1 = false.
Proof.
  intros Hs. unfold FlushPending. destruct (dirty e) eqn:Ed; [|done]. destruct (restore_works (elements (current e)) (fw e)) as (r & -> & Hr). split_and!; [done|done| |done].
  intros _. cbn. by rewrite Hr, list_to_set_elements_L.
Qed.
End executor.

#[local] Existing Instance WafCache.wafcache_store.

(** ** Ledger, mirror and firewall agree *)

Definition active (b : HostGuardBan) : bool := bool_decide (Status b = Active).
Definition active_ips (l : list HostGuardBan) : list gostr := map b_IP (List.filter active l).

Lemma nodup_map_inj {A B} (f : A → B) l x y : NoDup (map f l) → x ∈ l → y ∈ l → f x = f y → x = y.
Proof.
  induction l as [|z l IH]; [by intros _ ?%not_elem_of_nil|]. cbn. rewrite NoDup_cons, !elem_of_cons. intros [Hz Hnd] [->|Hx] [->|Hy] E; [done| | |auto];
    destruct Hz; apply list_elem_of_fmap; eauto.
Qed.
Lemma elem_of_active x l : x ∈ active_ips l ↔ ∃ b, b ∈ l ∧ Status b = Active ∧ b_IP b = x.
Proof.
  unfold active_ips. rewrite list_elem_of_fmap. split.
  - intros (b & -> & Hb%list_elem_of_In%filter_In). destruct Hb as [Hb%list_elem_of_In Ha%bool_decide_eq_true]. eauto.
  - intros (b & Hb & Ha & <-). exists b. split; [done|]. apply list_elem_of_In, filter_In. split; [by apply list_elem_of_In|by apply bool_decide_eq_true].
Qed.
Lemma same_row (l : list HostGuardBan) b c : NoDup (map b_Id l) → b ∈ l → c ∈ l → b_Id b = b_Id c → b = c.
Proof. apply nodup_map_inj. Qed.
Lemma same_ban (l : list HostGuardBan) b c : NoDup (active_ips l) → b ∈ l → c ∈ l → Status b = Active → Status c = Active → b_IP b = b_IP c → b = c.
Proof.
  intros Hnd Hb Hc Ab Ac. apply (nodup_map_inj b_IP (List.filter active l)); [done|..]; apply list_elem_of_In, filter_In; (split; [by apply list_elem_of_In|by apply bool_decide_eq_true]).
Qed.

Section ledger.
Context `{Hfw : FireWall} `{Hw : !WorkingFireWall} (cfg : config).

Record agreed (l : list HostGuardBan) (e : @BanExecutor Hfw) : Prop := {
  ag_ids : NoDup (map b_Id l); ag_ips : NoDup (active_ips l); ag_mirror : current e = list_to_set (active_ips l); ag_sync : in_sync e }.
Definition agree (s : state) : Prop := agreed (bans s) (exec s).

Lemma ids_kept (p : HostGuardBan → bool) st l : map b_Id (map (λ b, if p b then set_status st b else b) l) = map b_Id l.
Proof. rewrite map_map. apply map_ext. intros b. by destruct (p b). Qed.
Lemma active_after (p : HostGuardBan → bool) st l : st ≠ Active → active_ips (map (λ b, if p b then set_status st b else b) l) = map b_IP (List.filter (λ b, active b && negb (p b)) l).
Proof.
  intros Hst. unfold active_ips. induction l as [|b l IH]; [done|]. cbn [map List.filter]. destruct (p b) eqn:Ep.
  - assert (E : active (set_status st b) = false) by (by apply bool_decide_eq_false). rewrite E, andb_false_r. done.
  - rewrite andb_true_r. destruct (active b); [cbn; by f_equal|done].
Qed.
Lemma active_filter (p : HostGuardBan → bool) l : map b_IP (List.filter (λ b, active b && negb (p b)) l) `sublist_of` active_ips l.
Proof.
  unfold active_ips. induction l as [|b l IH]; [done|]. cbn [List.filter]. destruct (active b); cbn [andb]; [|done]. destruct (p b); cbn; by constructor.
Qed.
(** Rows are closed and their addresses taken out of the firewall. *)
Lemma close_rows V st l e : agreed l e → st ≠ Active → (∀ v, v ∈ V → v ∈ l ∧ Status v = Active) →
  agreed (map (λ b, if by_ids (map b_Id V) b then set_status st b else b) l) (Apply cfg [] (map b_IP V) e).1.
Proof.
  intros [Hid Hip Hm Hs] Hst HV. destruct (Apply_works cfg [] (map b_IP V) e Hs) as (_ & Hc & Hs'). split; [by rewrite ids_kept| | |done].
  - rewrite active_after by done. eapply sublist_NoDup; [exact Hip|apply active_filter].
  - rewrite Hc, Hm, active_after by done. apply set_eq. intros x. rewrite elem_of_difference, elem_of_union, !elem_of_list_to_set. split.
    + intros [[?%not_elem_of_nil|(b & Hb & Ab & <-)%elem_of_active] Hx]; [done|]. apply list_elem_of_fmap. exists b. split; [done|]. apply list_elem_of_In, filter_In. split; [by apply list_elem_of_In|].
      apply andb_true_iff. split; [by apply bool_decide_eq_true|]. apply negb_true_iff, bool_decide_eq_false. intros (v & Ev & Hv)%list_elem_of_fmap. apply Hx. apply list_elem_of_fmap.
      exists v. split; [|done]. f_equal. apply (same_row l); [done|done|by apply HV|done].
    + intros (b & -> & Hb%list_elem_of_In%filter_In)%list_elem_of_fmap. destruct Hb as [Hb%list_elem_of_In [Ab%bool_decide_eq_true Hn%negb_true_iff%bool_decide_eq_false]%andb_true_iff]. split; [right; apply elem_of_active; eauto|].
      intros (v & Ev & Hv)%list_elem_of_fmap. apply Hn, list_elem_of_fmap. exists v. split; [|done]. destruct (HV v Hv) as [Hvl Va]. f_equal. by apply (same_ban l).
Qed.
(** A row is opened for an address that is not blocked. *)
Lemma open_row b l e : agreed l e → b_Id b ∉ map b_Id l → Status b = Active → b_IP b ∉ current e →
  (Apply cfg [b_IP b] [] e).2 = true ∧ agreed (l ++ [b]) (Apply cfg [b_IP b] [] e).1.
Proof.
  intros [Hid Hip Hm Hs] Hnew Ab Hfree. destruct (Apply_works cfg [b_IP b] [] e Hs) as (Hok & Hc & Hs'). split; [done|].
  assert (Ea : active_ips (l ++ [b]) = active_ips l ++ [b_IP b]).
  { unfold active_ips. rewrite List.filter_app, map_app. cbn. by rewrite (proj2 (bool_decide_eq_true _) Ab : active b = true). }
  split; [| | |done].
  - rewrite map_app. apply NoDup_app. split_and!; [done| |by apply NoDup_singleton]. intros i Hi ->%list_elem_of_singleton. done.
  - rewrite Ea. apply NoDup_app. split_and!; [done| |by apply NoDup_singleton]. intros x Hx ->%list_elem_of_singleton. apply Hfree. rewrite Hm. by apply elem_of_list_to_set.
  - rewrite Hc, Hm, Ea, list_to_set_app_L. cbn. set_solver.
Qed.
Lemma flush_agreed l e : agreed l e → agreed l (FlushPending e).1.
Proof. intros [Hid Hip Hm Hs]. destruct (Flush_works e Hs) as (_ & Hc & Hs' & _). split; [done|done|by rewrite Hc|done]. Qed.

(** *** What the parts leave alone *)

Definition same_ledger (s s' : state) : Prop := bans s' = bans s ∧ exec s' = exec s.
#[export] Instance same_ledger_preorder : PreOrder same_ledger.
Proof. split; [done|]. intros a b c [E1 E2] [E3 E4]. split; congruence. Qed.
Lemma agree_same s s' : same_ledger s s' → agree s → agree s'.
Proof. intros [E1 E2]. unfold agree. by rewrite E1, E2. Qed.
Lemma getWhitelist_same now s : same_ledger s (getWhitelist cfg now s).1.
Proof. unfold getWhitelist, build_snapshot. destruct (whitelistCur _) as [snap|]; [destruct (_ <? _); [done|]|]; by destruct (LocalAddrs now _). Qed.
Lemma white_same now ip s : same_ledger s (IsWhitelisted cfg now ip s).1.
Proof.
  unfold IsWhitelisted. destruct (parse_ip ip); [|done]. pose proof (getWhitelist_same now s) as Hs. destruct (getWhitelist cfg now s) as [s1 snap]. cbn [fst] in Hs.
  repeat (match goal with |- context [if ?b then _ else _] => destruct b; [exact Hs|] end). unfold isActiveAdminIP. by destruct (WafCache.IsKeyExist _ _ _).
Qed.
Lemma rate_same now s : same_ledger s (allowBanRate cfg now s).1.
Proof. unfold allowBanRate. destruct (_ <=? 0); [done|]. destruct (WafCache.Get _ _ _). by destruct (_ <=? _). Qed.
Lemma loadLadders_same now s : same_ledger s (loadLadders now s).1.
Proof. unfold loadLadders. destruct (ladderCache _) as [[l t]|]; [|done]. by destruct (_ <? _). Qed.
End ledger.

#[local] Existing Instance WafCache.wafcache_store.

Lemma insert_by_perm {A} (f : A → Z) x l : insert_by f x l ≡ₚ x :: l.
Proof. induction l as [|y l IH]; [done|]. cbn. destruct (f y <=? f x); [|done]. rewrite IH. constructor. Qed.
Lemma sort_by_perm {A} (f : A → Z) l : sort_by f l ≡ₚ l.
Proof.
  unfold sort_by. assert (Hacc : ∀ acc, foldl (λ acc x, insert_by f x acc) acc l ≡ₚ l ++ acc); [|by rewrite Hacc, app_nil_r].
  induction l as [|x l IH]; intros acc; [done|]. cbn [foldl app]. rewrite IH, insert_by_perm. by rewrite Permutation_middle.
Qed.

Section bans_agree.
Context `{Hfw : FireWall} `{Hw : !WorkingFireWall} (cfg : config).

(** Rows are closed, but none is opened and no identifier changes. *)
Record shrinks (s s' : state) : Prop := { sh_agree : agree s → agree s'; sh_ids : map b_Id (bans s') = map b_Id (bans s) }.
#[export] Instance shrinks_preorder : PreOrder shrinks.
Proof. split; [by split|]. intros a b c [H1' H2'] [H3' H4']. split; [auto|congruence]. Qed.
Lemma shrinks_same s s' : same_ledger s s' → shrinks s s'.
Proof. intros Hs. split; [by apply agree_same|by rewrite (proj1 Hs)]. Qed.

Lemma find_ban id s b : ban_by_id id s = Some b → b ∈ bans s ∧ b_Id b = id.
Proof. unfold ban_by_id. intros [Hb%list_elem_of_In Hi%bool_decide_eq_true]%find_some. done. Qed.

Lemma capacity_shrinks s : shrinks s (ensureCapacity cfg s).1.
Proof.
  unfold ensureCapacity. destruct (_ <=? 0); [done|]. destruct (_ <? _); [done|]. set (V := take _ _).
  assert (HV : ∀ v, v ∈ V → v ∈ bans s ∧ Status v = Active).
  { intros v Hv. apply elem_of_take in Hv as (i & Hi & _). apply list_elem_of_lookup_2 in Hi. rewrite sort_by_perm in Hi. apply list_elem_of_In, filter_In in Hi as [Hi [Ha%bool_decide_eq_true _]%andb_true_iff].
    split; [by apply list_elem_of_In|done]. }
  clearbody V. destruct V as [|v0 V0] eqn:EV; [done|]. rewrite <- EV in *. clear v0 V0 EV. pose proof (λ Ha, close_rows cfg V Released (bans s) (exec s) Ha ltac:(done) HV) as Hclose.
  destruct (Apply cfg [] (map b_IP V) (exec s)) as [e ok]. cbn [fst] in *. split; [exact Hclose|apply ids_kept].
Qed.

Lemma issue_agree q id target sub level m n expire now s : agree s → id ∉ map b_Id (bans s) → target ∉ current (exec s) → agree (issue cfg q id target sub level m n expire now s).1.
Proof.
  intros Ha Hid Ht. unfold issue. set (b := mkBan _ _ _ _ _ _ _ _ _ _). cbn [with_bans exec].
  destruct (open_row cfg b (bans s) (exec s) Ha Hid eq_refl Ht) as [Hok Hag]. change (b_IP b) with target in *. destruct (Apply cfg [target] [] (exec s)) as [e ok]. cbn [fst snd] in *. subst ok. cbn [negb].
  unfold agree. cbn [fst markBanned with_marks bans exec]. unfold upsertOffender. by destruct (loadOffender _ _).
Qed.
Lemma decide_ban_agree q now id s : agree s → id ∉ map b_Id (bans s) → q_IP q ∉ current (exec s) → agree (decide_ban cfg q now id s).1.
Proof.
  intros Ha Hid Hq. unfold decide_ban. set (o := loadOffender (q_IP q) s). cbv zeta.
  assert (Hs : ∀ x y, (if Manual q then (s, (0, ManualMin q, match o with Some o => BanCount o + 1 | None => 1 end)) else let (s, d) := DecideLadder cfg o now s in (s, (d_Level d, d_BanMinutes d, d_BanCount d))) = (x, y) → same_ledger s x).
  { intros x y. destruct (Manual q); [by intros [= <- _]|]. unfold DecideLadder. pose proof (loadLadders_same now s) as Hl. destruct (loadLadders now s) as [s1 l]. by intros [= <- _]. }
  destruct (if Manual q then _ else _) as [s1 [[level m] n]]. specialize (Hs _ _ eq_refl). pose proof (agree_same _ _ Hs Ha) as Ha1. destruct Hs as [Hb He].
  destruct (_ && _); [exact Ha1|]. apply issue_agree; [done|by rewrite Hb|]. destruct (Manual q); [cbn; by rewrite He|].
  unfold ShouldAggregateSubnet. destruct (negb _); [cbn; by rewrite He|]. destruct (subnetOf _) as [cidr|]; [|cbn; by rewrite He]. destruct (existsb _ _) eqn:Ex; [cbn; by rewrite He|].
  destruct (_ <=? _); [|cbn; by rewrite He]. change (default _ (Some cidr)) with cidr. rewrite (ag_mirror _ _ Ha1), elem_of_list_to_set. intros (b & Hbl & Hba & E)%elem_of_active.
  assert (E' : existsb (λ b, bool_decide (b_IP b = cidr) && bool_decide (Status b = Active)) (bans s1) = true); [|by rewrite E' in Ex].
  apply existsb_exists. exists b. split; [by apply list_elem_of_In|]. by rewrite !bool_decide_true.
Qed.
Lemma ApplyBan_agree q now id s : agree s → id ∉ map b_Id (bans s) → agree (ApplyBan cfg q now id s).1.
Proof.
  intros Ha Hid. unfold ApplyBan. destruct (FORCE_DISABLE cfg); [done|].
  assert (Hs1 : shrinks s (if Manual q then (s, None) else IsWhitelisted cfg now (q_IP q) s).1) by (destruct (Manual q); [done|apply shrinks_same, white_same]).
  destruct (if Manual q then (s, None) else _) as [s1 white]. cbn [fst] in Hs1. destruct white; [by apply Hs1|]. case_bool_decide as Hc; [by apply Hs1|].
  assert (Hs2 : same_ledger s1 (if Manual q then (s1, true) else allowBanRate cfg now s1).1) by (destruct (Manual q); [done|apply rate_same]).
  destruct (if Manual q then (s1, true) else _) as [s2 allowed]. cbn [fst] in Hs2. destruct allowed; cbn [negb]; [|by apply (agree_same _ _ Hs2), Hs1].
  assert (Hs3 : shrinks s2 (if Manual q then (s2, true) else ensureCapacity cfg s2).1) by (destruct (Manual q); [done|apply capacity_shrinks]).
  assert (Hc3 : q_IP q ∉ current (exec (if Manual q then (s2, true) else ensureCapacity cfg s2).1)).
  { destruct (Manual q); [cbn; by rewrite (proj2 Hs2)|]. assert (Ha2 : agree s2) by (apply (agree_same _ _ Hs2), Hs1, Ha). pose proof (ag_sync _ _ Ha2) as Hsync. rewrite <- (proj2 Hs2) in Hc. clear -Hc Hsync.
    unfold ensureCapacity. destruct (_ <=? 0); [done|]. destruct (_ <? _); [done|]. destruct (take _ _) as [|v V]; [done|]. destruct (Apply_works cfg [] (map b_IP (v :: V)) (exec s2) Hsync) as (_ & E & _).
    destruct (Apply cfg [] (map b_IP (v :: V)) (exec s2)) as [e ok]. cbn [fst] in *. cbn [set_where with_bans with_exec exec]. rewrite E. set_solver. }
  destruct (if Manual q then (s2, true) else _) as [s3 room]. cbn [fst] in *. assert (Ha3 : agree s3) by (apply Hs3, (agree_same _ _ Hs2), Hs1, Ha).
  destruct room; cbn [negb]; [|done]. apply decide_ban_agree; [done| |done]. by rewrite (sh_ids _ _ Hs3), (proj1 Hs2), (sh_ids _ _ Hs1).
Qed.
Lemma Decide_agree ev id s : agree s → id ∉ map b_Id (bans s) → agree (Decide cfg ev id s).1.1.
Proof.
  intros Ha Hid. unfold Decide. destruct (FORCE_DISABLE cfg); [done|]. pose proof (white_same cfg (ev_At ev) (ev_IP ev) s) as Hs. destruct (IsWhitelisted cfg _ _ s) as [s1 white]. cbn [fst] in Hs.
  set (count := _ && _). clearbody count. cbv zeta.
  assert (Hs2 : ∀ x n, (if count then let (f, n) := HostLogin.Record_ (fails s1) (ev_At ev) (source_text (ev_Source ev)) (ev_IP ev) (window_minutes cfg) (window_minutes cfg * 3) in (with_fails f s1, n) else (s1, 0)) = (x, n) → same_ledger s1 x).
  { intros x n. destruct count; [|by intros [= <- _]]. destruct (HostLogin.Record_ _ _ _ _ _ _). by intros [= <- _]. }
  destruct (if count then _ else _) as [s2 n]. specialize (Hs2 _ _ eq_refl). pose proof (agree_same _ _ Hs2 (agree_same _ _ Hs Ha)) as Ha2.
  destruct (count && (max_retry cfg <=? n)); [|exact Ha2]. assert (Hid2 : id ∉ map b_Id (bans s2)) by (by rewrite (proj1 Hs2), (proj1 Hs)).
  pose proof (ApplyBan_agree (mkRequest (ev_IP ev) (source_text (ev_Source ev)) n false 0) (ev_At ev) id s2 Ha2 Hid2) as Ha3. destruct (ApplyBan _ _ _ _ _) as [s3 res]. cbn [fst] in Ha3. destruct (Banned res); exact Ha3.
Qed.

(** *** The administrator *)

Lemma flush_agree s : agree s → agree (flush s).
Proof. apply flush_agreed. Qed.
Lemma ReleaseBan_agree id s : agree s → agree (ReleaseBan cfg id s).1.
Proof.
  intros Ha. unfold ReleaseBan. destruct (ban_by_id id s) as [b|] eqn:Ef; [|done]. apply find_ban in Ef as [Hb Hi]. case_bool_decide as Hact; cbn [negb]; [|done].
  assert (HV : ∀ v, v ∈ [b] → v ∈ bans s ∧ Status v = Active) by (by intros v ->%list_elem_of_singleton).
  pose proof (close_rows cfg [b] Released (bans s) (exec s) Ha ltac:(done) HV) as Hc. destruct (Apply_works cfg [] [b_IP b] (exec s) (ag_sync _ _ Ha)) as (Hok & _ & _).
  cbn [map] in Hc. rewrite Hi in Hc. destruct (Apply cfg [] [b_IP b] (exec s)) as [e ok]. cbn [fst snd] in *. subst ok. by apply flush_agreed.
Qed.
Lemma Promote_agree id s : agree s → agree (PromoteToPermanent id s).1.
Proof.
  intros Ha. unfold PromoteToPermanent. destruct (ban_by_id id s); [|done]. destruct (negb _); [done|]. destruct Ha as [Hid Hip Hm Hs]. unfold agree. cbn [fst with_bans bans exec].
  set (f := λ b, if by_ids [id] b then make_permanent b else b).
  assert (E1 : map b_Id (map f (bans s)) = map b_Id (bans s)) by (rewrite map_map; apply map_ext; intros b; unfold f; by destruct (by_ids [id] b)).
  assert (E2 : active_ips (map f (bans s)) = active_ips (bans s)).
  { unfold active_ips. clear. induction (bans s) as [|b l IH]; [done|]. cbn [map List.filter]. assert (E : active (f b) = active b ∧ b_IP (f b) = b_IP b) by (unfold f; by destruct (by_ids [id] b)).
    destruct E as [-> E]. destruct (active b); cbn; [by rewrite E, IH|done]. }
  split; [by rewrite E1|by rewrite E2|by rewrite E2|done].
Qed.
Lemma Manual_agree ip src minutes now id s : agree s → id ∉ map b_Id (bans s) → agree (ManualBan cfg ip src minutes now id s).1.
Proof.
  intros Ha Hid. unfold ManualBan. case_bool_decide; [done|]. pose proof (ApplyBan_agree (mkRequest (trim_space ip) (if bool_decide (src = []) then ssh_source else src) 0 true minutes) now id s Ha Hid) as Hb.
  destruct (ApplyBan _ _ _ _ _) as [s1 res]. destruct (Banned res); [by apply flush_agree|done].
Qed.
Lemma Clean_agree now s : agree s → agree (CleanExpiredBans cfg now s).1.
Proof.
  intros Ha. unfold CleanExpiredBans. set (V := expired_rows now s).
  assert (HV : ∀ v, v ∈ V → v ∈ bans s ∧ Status v = Active).
  { intros v Hv%list_elem_of_In%filter_In. destruct Hv as [Hv%list_elem_of_In [[E%bool_decide_eq_true _]%andb_true_iff _]%andb_true_iff]. done. }
  clearbody V. destruct V as [|v0 V0] eqn:EV; [done|]. rewrite <- EV in *. clear v0 V0 EV. pose proof (close_rows cfg V Expired (bans s) (exec s) Ha ltac:(done) HV) as Hc.
  destruct (Apply_works cfg [] (map b_IP V) (exec s) (ag_sync _ _ Ha)) as (Hok & _ & _). destruct (Apply cfg [] (map b_IP V) (exec s)) as [e ok]. cbn [fst snd] in *. subst ok. by apply flush_agreed.
Qed.
Lemma AddToWhitelist_agree ip s : agree s → agree (AddToWhitelist cfg ip s).1.
Proof.
  intros Ha. unfold AddToWhitelist. case_bool_decide; [done|]. destruct (existsb _ _); [done|]. cbn [fst]. set (s1 := InvalidateWhitelist _). assert (Ha1 : agree s1) by exact Ha.
  generalize (List.filter (λ b, bool_decide (b_IP b = trim_space ip) && bool_decide (Status b = Active)) (bans s1)) as rows. revert Ha1. generalize s1 as s2. clear.
  intros s2 Ha2 rows. revert s2 Ha2. induction rows as [|b rows IH]; intros s2 Ha2; [done|]. cbn [foldl]. by apply IH, ReleaseBan_agree.
Qed.
End bans_agree.

#[local] Existing Instance WafCache.wafcache_store.

(** ** The guard as a transition system *)

Section system.
Context `{Hfw : FireWall} `{Hw : !WorkingFireWall} (cfg : config).

(** Everything but a restart; a new row gets a new identifier. *)
Inductive step : state → state → Prop :=
| st_event ev id s : id ∉ map b_Id (bans s) → step s (Decide cfg ev id s).1.1
| st_touch now ip s : step s (TouchAdminIP now ip s)
| st_manual ip src m now id s : id ∉ map b_Id (bans s) → step s (ManualBan cfg ip src m now id s).1
| st_release id s : step s (ReleaseBan cfg id s).1
| st_promote id s : step s (PromoteToPermanent id s).1
| st_reset id s : step s (ResetOffender id s)
| st_delete id s : step s (DeleteOffender id s)
| st_ladders l s : step s (SaveLadders l s).1
| st_clean now s : step s (CleanExpiredBans cfg now s).1
| st_white ip s : step s (AddToWhitelist cfg ip s).1
| st_flush s : step s (flush s)
| st_sweep now s : step s (with_fails (WafCache.ClearExpirationCache (fails s) now) (with_marks (WafCache.ClearExpirationCache (marks s) now) s)).

Lemma touch_same now ip s : same_ledger s (TouchAdminIP now ip s).
Proof. unfold TouchAdminIP. case_bool_decide; [done|]. by destruct (parse_ip _). Qed.
Lemma ladders_same l s : same_ledger s (SaveLadders l s).1.
Proof. unfold SaveLadders. destruct l; [done|]. destruct (existsb _ _); [done|]. by destruct (negb _). Qed.
Lemma step_agree s s' : step s s' → agree s → agree s'.
Proof.
  intros Hs Ha. destruct Hs; [by apply Decide_agree|by apply (agree_same _ _ (touch_same _ _ _))|by apply Manual_agree|by apply ReleaseBan_agree|by apply Promote_agree
    |done|done|by apply (agree_same _ _ (ladders_same _ _))|by apply Clean_agree|by apply AddToWhitelist_agree|by apply flush_agree|done].
Qed.

(** A start with a clean firewall blocks what the ledger holds, when no row has run out
    meanwhile (such a row is closed by the next [CleanExpiredBans]). *)
Lemma start_agree now r s : blocked r = ∅ → NoDup (map b_Id (bans s)) → NoDup (active_ips (bans s)) →
  (∀ b, b ∈ bans s → Status b = Active → b_IP b ≠ [] ∧ in_force now b = true) → agree (start cfg now r s).
Proof.
  intros Hr Hid Hip Hforce. assert (Hf : List.filter (in_force now) (bans s) = List.filter active (bans s)).
  { apply filter_ext_in. intros b Hb%list_elem_of_In. unfold active. case_bool_decide as Ha; [by apply Hforce|]. unfold in_force. by rewrite bool_decide_false. }
  assert (Hne : List.filter (λ ip, negb (bool_decide (ip = []))) (active_ips (bans s)) = active_ips (bans s)).
  { apply forallb_filter_id, forallb_forall. intros x (b & Hb & Ha & <-)%list_elem_of_In%elem_of_active. apply negb_true_iff, bool_decide_eq_false. by apply Hforce. }
  unfold agree, start. set (s0 := mkState _ _ _ _ _ _ _ _). change (bans (with_exec _ s0)) with (bans s). change (exec (with_exec ?e s0)) with e. change (exec s0) with (mkExec ∅ false r). change (bans s0) with (bans s).
  unfold ReplayOnStart. rewrite Hf. destruct (List.filter active (bans s)) as [|b0 l] eqn:E.
  - split; [done|done|unfold active_ips; by rewrite E|by intros _].
  - rewrite <- E. change (map b_IP (List.filter active (bans s))) with (active_ips (bans s)). rewrite Hne. clear E.
    assert (Hblock : ∃ r', (if useRuleMode cfg then BlockIPList (active_ips (bans s)) r else RestoreIPSet (active_ips (bans s)) r) = (r', true) ∧ blocked r' = list_to_set (active_ips (bans s))).
    { destruct (useRuleMode cfg); [|apply restore_works]. destruct (list_works (active_ips (bans s)) r) as (r' & E & Hb). exists r'. split; [done|]. rewrite Hb, Hr. set_solver. }
    destruct Hblock as (r' & E & Hb). cbn [fw]. rewrite E. split; [done|done|done|by intros _].
Qed.

(** With a working firewall the ledger, the mirror in memory and - unless a flush is due -
    the firewall name the same addresses, in every state reached by failures, bans,
    releases, evictions and clean-ups. *)
Theorem ledger_agrees now r s0 s : blocked r = ∅ → NoDup (map b_Id (bans s0)) → NoDup (active_ips (bans s0)) →
  (∀ b, b ∈ bans s0 → Status b = Active → b_IP b ≠ [] ∧ in_force now b = true) → rtc step (start cfg now r s0) s →
  current (exec s) = list_to_set (active_ips (bans s)) ∧ (dirty (exec s) = false → blocked (fw (exec s)) = list_to_set (active_ips (bans s))).
Proof.
  intros Hr Hid Hip Hf Hrun. assert (Ha : agree s).
  { pose proof (start_agree now r s0 Hr Hid Hip Hf) as H0. induction Hrun; [done|]. eauto using step_agree. }
  destruct Ha as [_ _ Hm Hs]. split; [done|]. intros Hd. by rewrite (Hs Hd).
Qed.
End system.

Module HostGuardWitnesses.
#[local] Instance demo_fw : FireWall := {|
  rules := gset gostr; SupportsIncrementalIPSet := false; SupportsIPSet := true;
  BlockIP ip r := ({[ip]} ∪ r, true); UnblockIP ip r := (r ∖ {[ip]}, true); BlockIPList l r := (list_to_set l ∪ r, true);
  AddToIPSet l r := (list_to_set l ∪ r, true); DelFromIPSet l r := (r ∖ list_to_set l, true); RestoreIPSet l r := (list_to_set l, true);
  Interfaces _ := [$"192.0.2.1"]; minute_text _ := $"202608061455" |}.
#[local] Instance demo_works : WorkingFireWall.
Proof. refine {| blocked := (λ r, r) : @rules demo_fw → gset gostr |}; intros; eexists; split; reflexivity. Defined.
Definition demo_cfg : config := mkConfig false 0 10 2 $"block" 1 [] 1 0 0 0 7 $"auto".
Definition demo_empty : @state demo_fw := mkState ∅ ∅ (mkExec ∅ false ∅) [] [] [] (mkCopies None None None) [].
Definition failure (at_ : Z) (ip : gostr) : LoginFailEvent := mkEvent SourceSSH ip 50022 $"root" FailPassword [] at_.
Definition demo0 : @state demo_fw := start demo_cfg 0 ∅ demo_empty.
Definition demo1 := (Decide demo_cfg (failure second $"203.0.113.9") $"a" demo0).1.1.
Definition demo2 := (Decide demo_cfg (failure (2 * second) $"203.0.113.9") $"a" demo1).1.1.

Lemma ledger_agrees_witness : rtc (step demo_cfg) demo0 (flush demo2) ∧ current (exec (flush demo2)) = {[$"203.0.113.9"]} ∧
  current (exec (flush demo2)) = list_to_set (active_ips (bans (flush demo2))).
Proof.
  assert (Hrun : rtc (step demo_cfg) demo0 (flush demo2)).
  { eapply rtc_l; [apply (st_event _ (failure second $"203.0.113.9") $"a"); vm_compute; apply not_elem_of_nil|].
    eapply rtc_l; [apply (st_event _ (failure (2 * second) $"203.0.113.9") $"a"); vm_compute; apply not_elem_of_nil|]. eapply rtc_l; [apply st_flush|apply rtc_refl]. }
  split; [exact Hrun|split; [vm_compute; reflexivity|]].
  refine (proj1 (ledger_agrees demo_cfg 0 ∅ demo_empty (flush demo2) _ _ _ _ Hrun)); [reflexivity|apply NoDup_nil_2|apply NoDup_nil_2|intros b Hb; by apply not_elem_of_nil in Hb].
Defined.

(** [GetInt] answers -1 for a missing key, where the comment takes it for 0: in a minute
    one ban more than the limit is let through. *)
Example one_more_ban : let r1 := allowBanRate demo_cfg 0 demo0 in let r2 := allowBanRate demo_cfg second r1.1 in let r3 := allowBanRate demo_cfg (2 * second) r2.1 in
  BAN_RATE_LIMIT demo_cfg = 1 ∧ r1.2 = true ∧ r2.2 = true ∧ r3.2 = false.
Proof. vm_compute. done. Qed.
End HostGuardWitnesses.
End HostGuardFacts.
