(* ===== verification/Hardening.v ===== *)
(** * Path rules, the jump to HTTPS, and cookie attributes (wafenginecore/pathrule.go,
    wafengine.go, cookie_security.go)

    Three small decisions around a proxied request: which path rule of the site serves
    it, whether it is first sent to HTTPS, and which attributes the cookies of the answer
    lack.  The regular-expression engine is a parameter. *)
From S2P Require Import Prelude.
From S2P Require Import GoLib.
From S2P Require Import GoHttp.
From S2P Require Import GoUrl.
From S2P Require Import Routing.
From S2P Require Import AccessGate.
From S2P Require Import Lines.
From S2P Require Import ClientIP.
From S2P Require Import Referers.
Local Open Scope Z_scope.
Local Open Scope bool_scope.

(** ** A stable sort

    [sort.SliceStable] with a strict weak order has one result: each element after the
    earlier ones it is not less than. *)
Section sorting.
Context {A : Type} (less : A → A → bool).
Fixpoint insert_stable (x : A) (l : list A) : list A :=
  match l with [] => [x] | y :: l' => if less x y then x :: y :: l' else y :: insert_stable x l' end.
Definition sort_stable (l : list A) : list A := foldl (λ acc x, insert_stable x acc) [] l.

Hypothesis neg_trans : ∀ x y z, less x z = true → less y z = false → less x y = true.
Hypothesis asym : ∀ x y, less x y = true → less y x = false.

Definition in_order (l : list A) : Prop := StronglySorted (λ a b, less b a = false) l.
Lemma insert_in_order x l : in_order l → in_order (insert_stable x l).
Proof.
  assert (Hall : ∀ P : A → Prop, P x → ∀ l, Forall P l → Forall P (insert_stable x l)).
  { intros P Hx l'. induction 1 as [|y l' Hy Hl IH]; cbn; [by repeat constructor|]. destruct (less x y); by repeat constructor. }
  unfold in_order. induction 1 as [|y l Hl IH Hy]; cbn; [repeat constructor|]. destruct (less x y) eqn:E.
  - constructor; [by constructor|]. constructor; [by apply asym|]. rewrite Forall_forall in *. intros z Hz. specialize (Hy z Hz).
    apply asym. by apply (neg_trans x z y).
  - constructor; [done|]. apply Hall; [done|]. done.
Qed.
Lemma sort_in_order l : in_order (sort_stable l).
Proof.
  unfold sort_stable. assert (Hf : ∀ l acc, in_order acc → in_order (foldl (λ acc x, insert_stable x acc) acc l)).
  { clear l. induction l as [|x l IH]; intros acc Ha; [done|]. by apply IH, insert_in_order. }
  apply Hf. constructor.
Qed.

(** The first element with a property, in a list sorted step by step. *)
Definition better (f : A → bool) (acc : option A) (x : A) : option A :=
  if f x then Some (match acc with Some y => if less x y then x else y | None => x end) else acc.

Lemma find_insert f x l : in_order l → List.find f (insert_stable x l) = better f (List.find f l) x.
Proof.
  unfold better. induction 1 as [|y l Hl IH Hy]; [done|]. cbn [insert_stable]. destruct (less x y) eqn:E.
  - cbn [List.find]. destruct (f x); [|done]. destruct (f y); [by rewrite E|]. destruct (List.find f l) as [z|] eqn:Ez; [|done].
    apply find_some in Ez as [Hz%list_elem_of_In _]. rewrite Forall_forall in Hy. specialize (Hy z Hz). by rewrite (neg_trans x z y).
  - cbn [List.find]. destruct (f y); [destruct (f x); by rewrite ?E|]. by rewrite IH.
Qed.
Lemma find_sort f l : List.find f (sort_stable l) = foldl (better f) None l.
Proof.
  unfold sort_stable. assert (Hf : ∀ l acc, in_order acc → List.find f (foldl (λ acc x, insert_stable x acc) acc l) = foldl (better f) (List.find f acc) l).
  { clear l. induction l as [|x l IH]; intros acc Ha; [done|]. cbn [foldl]. rewrite IH by by apply insert_in_order. by rewrite find_insert. }
  apply Hf. constructor.
Qed.

(** The element chosen: the first of the least ones that have the property. *)
Lemma better_spec f l :
  match foldl (better f) None l with
  | Some r => ∃ l1 l2, l = l1 ++ r :: l2 ∧ f r = true ∧ (∀ x, x ∈ l1 → f x = true → less r x = true) ∧ (∀ x, x ∈ l2 → f x = true → less x r = false)
  | None => ∀ x, x ∈ l → f x = false
  end.
Proof.
  induction l as [|x l IH] using rev_ind; [intros x Hx; by apply not_elem_of_nil in Hx|]. rewrite foldl_app. cbn [foldl]. unfold better at 1.
  destruct (f x) eqn:Ef.
  - destruct (foldl (better f) None l) as [r|].
    + destruct IH as (l1 & l2 & -> & Hr & H1 & H2). destruct (less x r) eqn:E.
      * exists (l1 ++ r :: l2), []. split; [done|]. split; [done|]. split; [|intros y Hy; by apply not_elem_of_nil in Hy].
        intros y Hy Hfy. apply elem_of_app in Hy as [Hy|Hy].
        -- specialize (H1 y Hy Hfy). apply asym in H1. by apply (neg_trans x y r).
        -- apply elem_of_cons in Hy as [->|Hy]; [done|]. by apply (neg_trans x y r); auto.
      * exists l1, (l2 ++ [x]). split; [by rewrite <- app_assoc|]. split; [done|]. split; [done|].
        intros y Hy Hfy. apply elem_of_app in Hy as [Hy|Hy%list_elem_of_singleton]; [auto|by subst].
    + exists l, []. split; [done|]. split; [done|]. split; [intros y Hy Hfy; by rewrite (IH y Hy) in Hfy|intros y Hy; by apply not_elem_of_nil in Hy].
  - destruct (foldl (better f) None l) as [r|].
    + destruct IH as (l1 & l2 & -> & Hr & H1 & H2). exists l1, (l2 ++ [x]). split; [by rewrite <- app_assoc|]. split; [done|]. split; [done|].
      intros y Hy Hfy. apply elem_of_app in Hy as [Hy|Hy%list_elem_of_singleton]; [auto|by subst; congruence].
    + intros y Hy. apply elem_of_app in Hy as [Hy|Hy%list_elem_of_singleton]; [auto|by subst].
Qed.
End sorting.

Module PathRule.

Record HostPathRule := mkRule { Path : gostr; MatchType : Z; Priority : Z }.
Definition matchTypeOrder (t : Z) : Z := if t =? 2 then 0 else if t =? 1 then 1 else if t =? 3 then 2 else 3.

Definition rule_less (ri rj : HostPathRule) : bool :=
  if negb (Priority ri =? Priority rj) then Priority ri <? Priority rj
  else
    let oi := matchTypeOrder (MatchType ri) in
    let oj := matchTypeOrder (MatchType rj) in
    if negb (oi =? oj) then oi <? oj else (length (Path rj) <? length (Path ri))%nat.

Section rules.
Context `{Regexp}.
Definition pathRuleMatches (rule : HostPathRule) (urlPath : gostr) : bool :=
  if MatchType rule =? 1 then has_prefix urlPath (Path rule)
  else if MatchType rule =? 2 then bool_decide (urlPath = Path rule)
  else if MatchType rule =? 3 then default false (regexp_match (Path rule) urlPath)
  else false.
Definition MatchPathRule (rules : list HostPathRule) (urlPath : gostr) : option HostPathRule :=
  List.find (λ r, pathRuleMatches r urlPath) (sort_stable rule_less rules).

Ltac rule_cases := unfold rule_less in *; repeat match goal with
  | H : context [Z.eqb ?a ?b] |- _ => destruct (Z.eqb_spec a b)
  | |- context [Z.eqb ?a ?b] => destruct (Z.eqb_spec a b) end; cbn [negb] in *;
  rewrite ?Z.ltb_lt, ?Z.ltb_ge, ?Nat.ltb_lt, ?Nat.ltb_ge in *; try lia.
Lemma rule_less_neg_trans x y z : rule_less x z = true → rule_less y z = false → rule_less x y = true.
Proof. intros. rule_cases. Qed.
Lemma rule_less_asym x y : rule_less x y = true → rule_less y x = false.
Proof. intros. rule_cases. Qed.

(** which path rule serves a request.  Of the rules that match, the one of the least
    priority number, then an exact path before a prefix before an expression, then the
    longest path, then the first in the list; none when none matches. *)
Theorem MatchPathRule_best rules urlPath :
  match MatchPathRule rules urlPath with
  | Some r => ∃ l1 l2, rules = l1 ++ r :: l2 ∧ pathRuleMatches r urlPath = true ∧
      (∀ x, x ∈ l1 → pathRuleMatches x urlPath = true → rule_less r x = true) ∧
      (∀ x, x ∈ l2 → pathRuleMatches x urlPath = true → rule_less x r = false)
  | None => ∀ x, x ∈ rules → pathRuleMatches x urlPath = false
  end.
Proof.
  unfold MatchPathRule. rewrite (find_sort rule_less rule_less_neg_trans rule_less_asym).
  exact (better_spec rule_less rule_less_neg_trans rule_less_asym _ rules).
Qed.
End rules.
End PathRule.

(** ** The jump to HTTPS *)

Module Https.

Definition under (base d : gostr) : bool := has_suffix d base && negb (bool_decide (d = base)) && has_suffix d ($"." ++ base).

(** The domain and the port of the request host; both empty when it has several colons. *)
Definition split_request (requestHost : gostr) : gostr * gostr :=
  if contains requestHost $":" then match split requestHost ":" with [d; p] => (d, p) | _ => ([], []) end else (requestHost, []).

(** The second way of the star domains: the host with its first label masked. *)
Definition masked_under (base requestHost : gostr) : bool :=
  let maskedHost := Routing.MaskSubdomain requestHost in
  if bool_decide (maskedHost = requestHost) then false
  else
    let maskedDomain := if contains maskedHost $":" then nth 0 (split maskedHost ":") [] else maskedHost in
    has_prefix maskedDomain $"*." && under base (drop 2 maskedDomain).

(** The domain to jump to. *)
Definition shouldAutoJumpHTTPS (challengePath requestHost configHost requestURL : gostr) (autoJumpHTTPS ssl : Z) : option gostr :=
  if negb (autoJumpHTTPS =? 1) || negb (ssl =? 1) then None
  else if has_prefix requestURL challengePath then None
  else
    let '(requestDomain, requestPort) := split_request requestHost in
    if bool_decide (requestPort = []) || bool_decide (requestPort = $"443") then None
    else if bool_decide (requestDomain = configHost)
            || (contains configHost $":" && bool_decide (requestHost = configHost))
            || (has_prefix configHost $"*." && (under (drop 2 configHost) requestDomain || masked_under (drop 2 configHost) requestHost))
    then Some requestDomain else None.

Lemma has_suffix_split (s t : gostr) : has_suffix s t = true ↔ ∃ p, s = p ++ t.
Proof.
  unfold has_suffix. rewrite has_prefix_split. split; intros (p & E).
  - exists (reverse p). by rewrite <- (reverse_involutive s), E, reverse_app, !reverse_involutive.
  - exists (reverse p). by rewrite E, reverse_app.
Qed.
Lemma under_spec base d : under base d = true ↔ ∃ sub, d = sub ++ $"." ++ base.
Proof.
  unfold under. rewrite !andb_true_iff, !has_suffix_split. split; [by intros [_ ?]|]. intros (sub & ->). split; [split; [exists (sub ++ $"."); by rewrite <- app_assoc|]|by exists sub].
  apply negb_true_iff, bool_decide_eq_false. intros E. apply (f_equal length) in E. rewrite !length_app in E. cbn in E. lia.
Qed.

Lemma contains_colon (s : gostr) : contains s $":" = true ↔ ":"%char ∈ s.
Proof. apply (Routing.contains_byte s ":"). Qed.

Lemma split_request_spec requestHost d p : split_request requestHost = (d, p) → p ≠ [] →
  requestHost = d ++ $":" ++ p ∧ ":"%char ∉ d ∧ ":"%char ∉ p.
Proof.
  unfold split_request. destruct (contains requestHost $":"); [|by intros [= _ <-]]. destruct (split requestHost ":") as [|a [|b [|]]] eqn:E; try by intros [= _ <-].
  intros [= <- <-] Hp. pose proof (split_byte_free requestHost ":") as Hf. rewrite E in Hf. split; [|split; apply Hf; set_solver].
  rewrite <- (join_split requestHost ":"), E. done.
Qed.
Lemma split_request_two d p : ":"%char ∉ d → ":"%char ∉ p → split_request (d ++ $":" ++ p) = (d, p).
Proof.
  intros Hd Hp. unfold split_request. rewrite (proj2 (contains_colon (d ++ $":" ++ p))) by set_solver. change ($":" ++ p) with (":"%char :: p).
  by rewrite split_cons_sep, split_free.
Qed.

(** The second way finds nothing the first one does not. *)
Lemma masked_under_under base d p : ":"%char ∉ d → ":"%char ∉ p → masked_under base (d ++ $":" ++ p) = true → under base d = true.
Proof.
  intros Hd Hp. unfold masked_under, Routing.MaskSubdomain. change ($":" ++ p) with (":"%char :: p). rewrite split_cons_sep, (split_free p) by done. cbn [nth].
  destruct (split d ".") as [|a [|b [|c rest]]] eqn:E; try by rewrite bool_decide_true. cbn [tl].
  destruct (bool_decide _); [done|]. set (tail := join (b :: c :: rest) $".").
  assert (Et : join ($"*" :: b :: c :: rest) $"." = $"*." ++ tail) by done. rewrite Et.
  assert (Ed : d = a ++ $"." ++ tail) by (by rewrite <- (join_split d "."), E).
  assert (Hc : ":"%char ∉ $"*." ++ tail) by (rewrite Ed in Hd; clear -Hd; set_solver).
  rewrite (proj2 (contains_colon (($"*." ++ tail) ++ $":" ++ p))) by set_solver. change ($":" ++ p) with (":"%char :: p). rewrite split_cons_sep by done. cbn [nth].
  change (drop 2 ($"*." ++ tail)) with tail. intros [_ H]%andb_true_iff. apply under_spec in H as (sub & Es). apply under_spec. exists (a ++ $"." ++ sub).
  by rewrite Ed, Es, <- !app_assoc.
Qed.

(** the jump to HTTPS goes nowhere else.  A request is sent to HTTPS exactly when the
    site asks for it, the path is not the one of certificate challenges, and the host has
    a port other than 443; and the domain it is sent to is the host of the request, which
    is the configured name or a proper sub-domain of a configured star domain. *)
Theorem https_jump_exact challengePath requestHost configHost requestURL autoJumpHTTPS ssl d :
  shouldAutoJumpHTTPS challengePath requestHost configHost requestURL autoJumpHTTPS ssl = Some d ↔
  autoJumpHTTPS = 1 ∧ ssl = 1 ∧ has_prefix requestURL challengePath = false ∧
  (∃ port, requestHost = d ++ $":" ++ port ∧ ":"%char ∉ d ∧ ":"%char ∉ port ∧ port ≠ [] ∧ port ≠ $"443") ∧
  (configHost = d ∨ configHost = requestHost ∨ ∃ base sub, configHost = $"*." ++ base ∧ d = sub ++ $"." ++ base).
Proof.
  unfold shouldAutoJumpHTTPS. destruct (Z.eqb_spec autoJumpHTTPS 1); cbn [negb orb]; [|naive_solver]. destruct (Z.eqb_spec ssl 1); cbn [negb orb]; [|naive_solver].
  destruct (has_prefix requestURL challengePath); [naive_solver|].
  destruct (split_request requestHost) as [dom port] eqn:Es. split.
  - destruct (bool_decide_reflect (port = [])) as [|Hne]; [done|]. destruct (bool_decide_reflect (port = $"443")) as [|H443]; [done|]. cbn [orb].
    destruct (split_request_spec _ _ _ Es Hne) as (-> & Hd & Hp). destruct (_ || _) eqn:Em; [|done]. intros [= <-].
    split_and!; [done..|exists port; done|]. apply orb_true_iff in Em as [Em|Em]; [apply orb_true_iff in Em as [Em|Em]|].
    + apply bool_decide_eq_true in Em. auto.
    + apply andb_true_iff in Em as [_ Em%bool_decide_eq_true]. auto.
    + apply andb_true_iff in Em as [(base & ->)%has_prefix_split Em]. change (drop 2 ($"*." ++ base)) with base in Em.
      assert (Hu : under base dom = true) by (apply orb_true_iff in Em as [|]; [done|by eapply masked_under_under]). apply under_spec in Hu as (sub & ->). eauto 7.
  - intros (_ & _ & _ & (port' & -> & Hd & Hp & Hne & H443) & Hm). rewrite split_request_two in Es by done. injection Es as <- <-.
    rewrite !bool_decide_false by done. cbn [orb]. destruct Hm as [->|[->|(base & sub & -> & ->)]].
    + by rewrite bool_decide_true.
    + rewrite (proj2 (contains_colon (d ++ $":" ++ port'))) by set_solver. rewrite (bool_decide_true (d ++ $":" ++ port' = _)) by done. cbn [andb]. by rewrite orb_true_r.
    + rewrite (proj2 (has_prefix_split ($"*." ++ base) $"*.")) by eauto. change (drop 2 ($"*." ++ base)) with base.
      rewrite (proj2 (under_spec base (sub ++ $"." ++ base))) by eauto. by rewrite !orb_true_r.
Qed.
End Https.

(** ** Cookie attributes *)

Module CookieSecurity.

Record CookieSecurityConfig := mkCookie { IsEnable : Z; HttpOnly : Z; Secure : Z; SameSite : gostr; ExcludeCookies : gostr }.

(** [ParseCookieSecurityConfig]: [decoded] is what the JSON decoder makes of the text over
    the default values. *)
Definition ParseCookieSecurityConfig (jsonStr : gostr) (decoded : option CookieSecurityConfig) : CookieSecurityConfig :=
  let c := mkCookie 0 1 2 $"Lax" [] in
  if bool_decide (jsonStr = []) then c else default c decoded.

Definition isExcludedCookie (name excludeCookies : gostr) : bool :=
  negb (bool_decide (excludeCookies = []))
  && existsb (λ ex, let ex := trim_space ex in negb (bool_decide (ex = [])) && equal_fold ex name) (split excludeCookies ",").

Section cookies.
Context `{UnicodeCase}.

Definition cookie_name (raw : gostr) : gostr := trim_space (match index_byte raw "=" with Some i => take i raw | None => raw end).
Definition with_attribute (needed : bool) (word text raw : gostr) : gostr :=
  if needed && negb (contains (to_lower raw) word) then raw ++ text else raw.
Definition need_secure (isHTTPS : bool) (cfg : CookieSecurityConfig) : bool :=
  (Secure cfg =? 1) || ((Secure cfg =? 2) && isHTTPS) || bool_decide (SameSite cfg = $"None").
Definition secureSetCookie (raw : gostr) (isHTTPS : bool) (cfg : CookieSecurityConfig) : gostr :=
  if bool_decide (trim_space raw = []) then raw
  else if isExcludedCookie (cookie_name raw) (ExcludeCookies cfg) then raw
  else
    let raw := with_attribute (HttpOnly cfg =? 1) $"httponly" $"; HttpOnly" raw in
    let raw := with_attribute (need_secure isHTTPS cfg) $"secure" $"; Secure" raw in
    with_attribute (negb (bool_decide (SameSite cfg = []))) $"samesite" ($"; SameSite=" ++ SameSite cfg) raw.

Lemma contains_spec (s sub : gostr) : contains s sub = true ↔ ∃ a b, s = a ++ sub ++ b.
Proof.
  induction s as [|c s IH]; cbn [contains].
  - rewrite orb_true_iff, has_prefix_split. split.
    + intros [[r Hr]|]; [exists [], r; done|done].
    + intros (a & b & E). left. exists []. destruct a; [|done]. destruct sub; [done|done].
  - rewrite orb_true_iff, IH, has_prefix_split. split.
    + intros [[r ->]|(a & b & ->)]; [by exists [], r|by exists (c :: a), b].
    + intros ([|d a] & b & E); [left; by exists b|right]. injection E as -> ->. by exists a, b.
Qed.
Lemma contains_app (s t sub : gostr) : contains s sub = true ∨ contains t sub = true → contains (s ++ t) sub = true.
Proof.
  rewrite !contains_spec. intros [(a & b & ->)|(a & b & ->)]; [exists a, (b ++ t)|exists (s ++ a), b]; by rewrite <- ?app_assoc.
Qed.
Lemma lower_ascii (s : gostr) : forallb is_ascii_byte s = true → to_lower s = map lower_byte s.
Proof. intros Hs. unfold to_lower. by rewrite Hs. Qed.

(** An attribute that is needed is there afterwards, and adding it again does nothing. *)
Record added (needed : bool) (word text raw out : gostr) : Prop := {
  ad_kept : ∃ t, out = raw ++ t; ad_ascii : forallb is_ascii_byte out = true;
  ad_there : needed = true → contains (to_lower out) word = true }.
Lemma with_attribute_added needed word text raw : forallb is_ascii_byte raw = true → forallb is_ascii_byte text = true → contains (map lower_byte text) word = true →
  added needed word text raw (with_attribute needed word text raw).
Proof.
  intros Hr Ht Hw. unfold with_attribute. destruct needed; cbn [andb]; [|split; [exists []; by rewrite app_nil_r|done|done]].
  destruct (contains (to_lower raw) word) eqn:E; cbn [negb]; [split; [exists []; by rewrite app_nil_r|done|done]|].
  assert (Ha : forallb is_ascii_byte (raw ++ text) = true) by (by rewrite forallb_app, Hr). split; [by exists text|done|].
  intros _. rewrite lower_ascii, map_app by done. apply contains_app. by right.
Qed.
Lemma there_stays word raw t : forallb is_ascii_byte (raw ++ t) = true → contains (to_lower raw) word = true → contains (to_lower (raw ++ t)) word = true.
Proof.
  intros Ha Hc. pose proof Ha as Ha'. rewrite forallb_app in Ha'. apply andb_true_iff in Ha' as [Hr _]. rewrite lower_ascii in Hc |- * by done.
  rewrite map_app. apply contains_app. by left.
Qed.
Lemma attribute_idle needed word text raw : (needed = true → contains (to_lower raw) word = true) → with_attribute needed word text raw = raw.
Proof. intros Hc. unfold with_attribute. destruct needed; [|done]. by rewrite Hc. Qed.

(** The name of a cookie is not changed by what is appended. *)
Lemma cookie_name_app raw t : "="%char ∈ raw → cookie_name (raw ++ t) = cookie_name raw.
Proof.
  intros Hin. unfold cookie_name. destruct (index_byte raw "=") as [i|] eqn:E; [|by apply index_byte_none in E].
  apply index_byte_split in E as (a & r & -> & <- & Ha). rewrite <- app_assoc. cbn [app]. rewrite index_byte_first by done. by rewrite !take_app_length.
Qed.
(** Trimming loses no visible byte. *)
Lemma trim_keeps c s : visible c = true → c ∈ s → c ∈ trim_space s.
Proof.
  intros Hv Hc. assert (Hb : forallb (λ e, forallb (λ d, negb (visible d)) e) space_encodings = true) by (vm_compute; reflexivity).
  assert (Hno : ∀ e, e ∈ space_encodings → c ∉ e).
  { intros e He Hin. rewrite forallb_elem_of in Hb. specialize (Hb e He). rewrite forallb_elem_of in Hb. specialize (Hb c Hin). by rewrite Hv in Hb. }
  destruct encodings_ok as [[Hf _]%prefix_free_ok [Hk _]%prefix_free_ok]. rewrite trim_space_alt, elem_of_reverse.
  apply (trim_ind back_encodings Hk (λ s, c ∈ s)).
  - intros e r He Hin. apply elem_of_app in Hin as [Hin|]; [|done]. unfold back_encodings in He. apply list_elem_of_fmap in He as (e' & -> & He').
    rewrite elem_of_reverse in Hin. by destruct (Hno e' He' Hin).
  - rewrite elem_of_reverse. apply (trim_ind space_encodings Hf (λ s, c ∈ s)); [|done]. intros e r He Hin. apply elem_of_app in Hin as [Hin|]; [|done]. by destruct (Hno e He Hin).
Qed.
Lemma trim_not_blank s : "="%char ∈ s → trim_space s ≠ [].
Proof. intros Hin E. assert (Hk : "="%char ∈ trim_space s) by by apply trim_keeps. rewrite E in Hk. by apply not_elem_of_nil in Hk. Qed.

(** hardened cookies.  Of a cookie that is not excluded everything sent is kept, each
    attribute the site asks for is there afterwards (in the text), and hardening twice is
    hardening once. *)
Theorem secureSetCookie_exact raw isHTTPS cfg :
  "="%char ∈ raw → forallb is_ascii_byte raw = true → forallb is_ascii_byte (SameSite cfg) = true →
  isExcludedCookie (cookie_name raw) (ExcludeCookies cfg) = false →
  let out := secureSetCookie raw isHTTPS cfg in
  (∃ t, out = raw ++ t) ∧
  (HttpOnly cfg = 1 → contains (to_lower out) $"httponly" = true) ∧
  (need_secure isHTTPS cfg = true → contains (to_lower out) $"secure" = true) ∧
  (SameSite cfg ≠ [] → contains (to_lower out) $"samesite" = true) ∧
  secureSetCookie out isHTTPS cfg = out.
Proof.
  intros Heq Ha Has Hx out.
  set (r1 := with_attribute (HttpOnly cfg =? 1) $"httponly" $"; HttpOnly" raw).
  set (r2 := with_attribute (need_secure isHTTPS cfg) $"secure" $"; Secure" r1).
  assert (Hout : out = with_attribute (negb (bool_decide (SameSite cfg = []))) $"samesite" ($"; SameSite=" ++ SameSite cfg) r2).
  { unfold out, secureSetCookie. rewrite bool_decide_false by by apply trim_not_blank. by rewrite Hx. }
  destruct (with_attribute_added (HttpOnly cfg =? 1) $"httponly" $"; HttpOnly" raw Ha eq_refl eq_refl) as [(t1 & E1) A1 T1]. fold r1 in E1, A1, T1.
  destruct (with_attribute_added (need_secure isHTTPS cfg) $"secure" $"; Secure" r1 A1 eq_refl eq_refl) as [(t2 & E2) A2 T2]. fold r2 in E2, A2, T2.
  destruct (with_attribute_added (negb (bool_decide (SameSite cfg = []))) $"samesite" ($"; SameSite=" ++ SameSite cfg) r2 A2) as [(t3 & E3) A3 T3];
    [by rewrite forallb_app, Has|rewrite map_app; apply contains_app; by left|]. rewrite <- Hout in E3, A3, T3.
  assert (Hk : out = raw ++ t1 ++ t2 ++ t3) by (by rewrite E3, E2, E1, <- !app_assoc).
  assert (H1 : HttpOnly cfg =? 1 = true → contains (to_lower out) $"httponly" = true).
  { intros Hh. rewrite E3 in A3 |- *. apply there_stays; [done|]. rewrite E2 in A2 |- *. apply there_stays; auto. }
  assert (H2 : need_secure isHTTPS cfg = true → contains (to_lower out) $"secure" = true) by (intros Hs; rewrite E3 in A3 |- *; apply there_stays; auto).
  split; [eauto|]. split; [by intros ->%Z.eqb_eq%H1|]. split; [done|]. split; [intros Hs; apply T3; by rewrite bool_decide_false|].
  unfold secureSetCookie. rewrite bool_decide_false by (apply trim_not_blank; rewrite Hk; set_solver).
  replace (cookie_name out) with (cookie_name raw) by (rewrite Hk; by rewrite cookie_name_app). rewrite Hx.
  rewrite (attribute_idle (HttpOnly cfg =? 1) _ _ out) by done. rewrite (attribute_idle (need_secure isHTTPS cfg) _ _ out) by done.
  by apply attribute_idle.
Qed.
End cookies.
End CookieSecurity.

(** ** Witnesses *)

Module HardeningWitnesses.
#[local] Instance ascii_lower : UnicodeCase := {| unicode_to_lower s := s |}.

Lemma secureSetCookie_exact_witness :
  CookieSecurity.secureSetCookie $"sid=1; Path=/" true (CookieSecurity.ParseCookieSecurityConfig [] None) = $"sid=1; Path=/; HttpOnly; Secure; SameSite=Lax" ∧
  CookieSecurity.secureSetCookie $"sid=1; Path=/; HttpOnly; Secure; SameSite=Lax" true (CookieSecurity.ParseCookieSecurityConfig [] None) = $"sid=1; Path=/; HttpOnly; Secure; SameSite=Lax".
Proof.
  assert (E : CookieSecurity.secureSetCookie $"sid=1; Path=/" true (CookieSecurity.ParseCookieSecurityConfig [] None) = $"sid=1; Path=/; HttpOnly; Secure; SameSite=Lax") by (by vm_compute).
  split; [done|].
  destruct (CookieSecurity.secureSetCookie_exact $"sid=1; Path=/" true (CookieSecurity.ParseCookieSecurityConfig [] None)) as (_ & _ & _ & _ & Hi).
  - do 3 right. left.
  - by vm_compute.
  - by vm_compute.
  - by vm_compute.
  - by rewrite E in Hi.
Defined.

(** The attribute is looked for anywhere in the text: a cookie whose name or value holds
    the word goes without it. *)
Example secure_in_the_name :
  CookieSecurity.secureSetCookie $"secure_id=1" true (CookieSecurity.mkCookie 1 0 1 [] []) = $"secure_id=1".
Proof. by vm_compute. Qed.

Example jump_example :
  Https.shouldAutoJumpHTTPS $"/.well-known" $"a.oa.x:80" $"*.oa.x" $"/" 1 1 = Some $"a.oa.x" ∧ Https.shouldAutoJumpHTTPS $"/.well-known" $"evilfoo.x:80" $"*.foo.x" $"/" 1 1 = None ∧
  Https.shouldAutoJumpHTTPS $"/.well-known" $"oa.x" $"oa.x" $"/" 1 1 = None.
Proof. by vm_compute. Qed.
End HardeningWitnesses.
