(* ===== verification/Pipeline.v ===== *)
(** * The chain of checks of a request (wafengine.go ServeHTTP; check_captcha.go)

    A request of a protected site goes through the plugins, the white lists, the bans, the
    black lists and the detections, in a fixed order; a custom rule that passes the
    request can skip later detections, a site in log-only mode is never blocked by one.
    At the end a challenge may be asked, and the access gate - outside all of this - has
    the last word.  The single checks are the operations of a class over a state of their
    own; [StandardChecks] puts the modelled ones together. *)
From S2P Require Import Prelude.
From S2P Require Import GoLib.
From S2P Require Import GoHttp.
From S2P Require Import WafCache.
From S2P Require Import CCRule.
From S2P Require Import CCEngine.
From S2P Require Import RuleText.
From S2P Require Import RuleCheck.
Local Open Scope Z_scope.
Local Open Scope bool_scope.

Module Pipeline.
Abbreviation Result := RuleCheck.Result.

(** The checks, by the function they call. *)
Inductive module :=
| checkWithPlugins | CheckAllowIP | CheckAllowURL | CheckAllowCallBackIP | CheckDenyIP | CheckDenyURL | CheckRule
| CheckBot | CheckSql | CheckXss | CheckSan | CheckRce | CheckDirTraversal | CheckCC | CheckAI | CheckSensitive | CheckOwasp
| CheckAntiLeech | CheckCsrf | CheckUpload.
#[global] Instance module_eq_dec : EqDecision module.
Proof. solve_decision. Defined.

(** [matchCCBan], [matchRuleBan], [IsCCCaptchaRequired], [hasCaptchaPass],
    [GrantCCCaptchaGrace], [checkCaptchaToken] and [DoAccessGate] besides the checks, and
    the text the chain itself leaves in the log record. *)
Class Checks (W : Type) := {
  check : module → W → W * Result;
  cc_banned : W → W * bool;
  rule_banned : W → W * bool;
  captcha_required : W → W * bool;
  has_pass : W → W * bool;
  grant_grace : W → W;
  token_ok : W → W * bool;
  note : gostr → W → W;             (* weblogbean.RULE is set *)
  access_gate : W → W * bool }.

(** The settings that are read: of the site, and the global ones. *)
Record site := mkSite {
  GUARD_STATUS : Z; LogOnlyMode : Z;
  DEFENSE_BOT : Z; DEFENSE_SQLI : Z; DEFENSE_XSS : Z; DEFENSE_SCAN : Z; DEFENSE_RCE : Z; DEFENSE_DIR_TRAVERSAL : Z;
  DEFENSE_SENSITIVE : Z; DEFENSE_AI : Z; DEFENSE_OWASP_SET : Z;
  IsEnableCaptcha : Z; PathPrefix : gostr; ExcludeURLs : gostr;
  RULE_CHAIN_MODE : Z; AI_ENABLE : Z; ENABLE_OWASP : Z }.

(** How the chain answers a request itself. *)
Inductive answer := Blocked (m : module) (title : gostr) | CCBanned | RuleBanned | Challenge | AccessPage.

(** The state of one request: the skips a rule granted, the mark for log-only mode, and
    the checks run so far, each with what it answered.  (What the challenge step appends to the text RULE is left
    out.) *)
Record st (W : Type) := mkSt { world : W; ruleSkipAll : bool; ruleSkipModules : gset gostr; logged_only : bool; ran : list (module * Result) }.
Arguments mkSt {W} _ _ _ _ _. Arguments world {W} _. Arguments ruleSkipAll {W} _. Arguments ruleSkipModules {W} _.
Arguments logged_only {W} _. Arguments ran {W} _.

Section chain.
Context `{UnicodeCase} {W : Type} `{Checks W}.
Abbreviation st := (st W).
Implicit Types s : st.

Definition with_world (w : W) s : st := mkSt w (ruleSkipAll s) (ruleSkipModules s) (logged_only s) (ran s).
Definition with_RULE (r : gostr) s : st := with_world (note r (world s)) s.
Definition only_log (r : gostr) s : st := mkSt (note r (world s)) (ruleSkipAll s) (ruleSkipModules s) true (ran s).
Definition ask {A} (f : W → W * A) s : st * A := let '(w, a) := f (world s) in (with_world w s, a).

Definition ruleSkip (m : gostr) s : bool := ruleSkipAll s || bool_decide (m ∈ ruleSkipModules s).
Definition grant (r : Result) s : st :=
  let mods : gset gostr := list_to_set (RuleCheck.RSkipModules r) in
  mkSt (note ($"自定义规则放行:" ++ RuleCheck.RTitle r) (world s)) (ruleSkipAll s || RuleCheck.JumpGuardResult r || bool_decide (RuleText.RuleSkipAll ∈ mods)) (ruleSkipModules s ∪ (mods ∖ {[ RuleText.RuleSkipAll ]}))
    (logged_only s) (ran s).

Definition run_check (m : module) s : st * Result :=
  let '(w, r) := check m (world s) in (mkSt w (ruleSkipAll s) (ruleSkipModules s) (logged_only s) (ran s ++ [(m, r)]), r).

Definition step := st → st * option answer.
Definition handleBlock (h : site) (m : module) : step := λ s,
  let '(s, r) := run_check m s in
  if RuleCheck.IsRuleAllow r then (grant r s, None)
  else if RuleCheck.IsLogOnly r then (with_RULE ($"自定义规则记录:" ++ RuleCheck.RTitle r) s, None)
  else if RuleCheck.IsBlock r then
    if LogOnlyMode h =? 1 then (only_log (RuleCheck.RTitle r) s, None) else (s, Some (Blocked m (RuleCheck.RTitle r)))
  else (s, None).

(** A step taken on a condition, and steps one after the other up to an answer. *)
Definition when (b : st → bool) (f : step) : step := λ s, if b s then f s else (s, None).
Fixpoint steps (l : list step) : step := λ s,
  match l with
  | [] => (s, None)
  | f :: l' => let '(s, a) := f s in match a with Some _ => (s, a) | None => steps l' s end
  end.

(** The white lists: the first that lets the request through ends the loop. *)
Fixpoint white_listed (l : list module) s : st * bool :=
  match l with
  | [] => (s, false)
  | m :: l' => let '(s, r) := run_check m s in if RuleCheck.JumpGuardResult r then (s, true) else white_listed l' s
  end.

Definition cc_ban_step (h : site) : step := λ s,
  let '(s, hit) := ask cc_banned s in
  if (hit : bool) then if LogOnlyMode h =? 1 then (only_log $"CC封禁" s, None) else (s, Some CCBanned) else (s, None).
Definition rule_ban_step (h : site) : step := λ s,
  let '(s, hit) := ask rule_banned s in
  if (hit : bool) then if LogOnlyMode h =? 1 then (only_log $"规则封禁" s, None) else (s, Some RuleBanned) else (s, None).

Definition defense (h : site) (on : bool) (name : gostr) (m : module) : step := when (λ s, on && negb (ruleSkip name s)) (handleBlock h m).
Definition detections (h : site) : list step :=
  [ cc_ban_step h; rule_ban_step h;
    handleBlock h CheckDenyIP; handleBlock h CheckDenyURL;
    when (λ _, RULE_CHAIN_MODE h =? 1) (handleBlock h CheckRule);
    defense h (DEFENSE_BOT h =? 1) $"BOT" CheckBot;
    defense h (DEFENSE_SQLI h =? 1) $"SQLI" CheckSql;
    defense h (DEFENSE_XSS h =? 1) $"XSS" CheckXss;
    defense h (DEFENSE_SCAN h =? 1) $"SCAN" CheckSan;
    defense h (DEFENSE_RCE h =? 1) $"RCE" CheckRce;
    defense h (DEFENSE_DIR_TRAVERSAL h =? 1) $"DIR" CheckDirTraversal;
    defense h true $"CC" CheckCC;
    when (λ _, negb (RULE_CHAIN_MODE h =? 1)) (handleBlock h CheckRule);
    defense h ((AI_ENABLE h =? 1) && (DEFENSE_AI h =? 1)) $"AI" CheckAI;
    defense h (DEFENSE_SENSITIVE h =? 1) $"SENSITIVE" CheckSensitive;
    defense h ((ENABLE_OWASP h =? 1) || (DEFENSE_OWASP_SET h =? 1)) $"OWASP" CheckOwasp;
    defense h true $"ANTILEECH" CheckAntiLeech;
    defense h true $"CSRF" CheckCsrf;
    defense h true $"UPLOAD" CheckUpload ].

(** The defenses: whether each is on, the name rules skip it by, and its check. *)
Definition defenses (h : site) : list (bool * gostr * module) :=
  [ (DEFENSE_BOT h =? 1, $"BOT", CheckBot); (DEFENSE_SQLI h =? 1, $"SQLI", CheckSql); (DEFENSE_XSS h =? 1, $"XSS", CheckXss);
    (DEFENSE_SCAN h =? 1, $"SCAN", CheckSan); (DEFENSE_RCE h =? 1, $"RCE", CheckRce); (DEFENSE_DIR_TRAVERSAL h =? 1, $"DIR", CheckDirTraversal);
    (true, $"CC", CheckCC); ((AI_ENABLE h =? 1) && (DEFENSE_AI h =? 1), $"AI", CheckAI); (DEFENSE_SENSITIVE h =? 1, $"SENSITIVE", CheckSensitive);
    ((ENABLE_OWASP h =? 1) || (DEFENSE_OWASP_SET h =? 1), $"OWASP", CheckOwasp); (true, $"ANTILEECH", CheckAntiLeech); (true, $"CSRF", CheckCsrf); (true, $"UPLOAD", CheckUpload) ].

(** ** The challenge *)

Definition captcha_prefix (h : site) : gostr := if bool_decide (PathPrefix h = []) then $"/samwaf_captcha" else PathPrefix h.
Definition captcha_page (h : site) (currentURL : gostr) : bool :=
  has_prefix currentURL (captcha_prefix h ++ $"/") || bool_decide (currentURL = captcha_prefix h).
Definition captcha_excluded (h : site) (currentURL : gostr) : bool :=
  existsb (λ u, let u := trim_space (to_lower u) in negb (bool_decide (u = [])) && has_prefix currentURL u)
    (match ExcludeURLs h with [] => [] | l => split l (chr 10) end).
Definition captcha_step (h : site) (urlPath : gostr) : step := λ s,
  let '(s, ccNeedCaptcha) := ask captcha_required s in
  if ((IsEnableCaptcha h =? 1) || ccNeedCaptcha) && negb (ruleSkip $"CAPTCHA" s) then
    let s := if (ccNeedCaptcha : bool) then let '(s, pass) := ask has_pass s in if (pass : bool) then with_world (grant_grace (world s)) s else s else s in
    let '(s, ok) := ask token_ok s in
    if (ok : bool) then (s, None)
    else
      let currentURL := to_lower urlPath in
      if captcha_page h currentURL then (s, Some Challenge)
      else if captcha_excluded h currentURL then (s, None)
      else (s, Some Challenge)
  else (s, None).

(** ** The whole *)

Definition white_lists : list module := [CheckAllowIP; CheckAllowURL; CheckAllowCallBackIP].
(** Under the protection of the site. *)
Definition protect (h : site) (urlPath : gostr) : step := λ s,
  let '(s, a) := handleBlock h checkWithPlugins s in
  match a with
  | Some _ => (s, a)
  | None => let '(s, listed) := white_listed white_lists s in
            if (listed : bool) then (s, None) else steps (detections h ++ [captcha_step h urlPath]) s
  end.
Definition gate_step : step := λ s, let '(s, pass) := ask access_gate s in (s, if (pass : bool) then None else Some AccessPage).
(** The answer of the chain; without one the request goes on to the cache, the static
    files and the backend. *)
Definition serve (h : site) (urlPath : gostr) : step := steps [when (λ _, GUARD_STATUS h =? 1) (protect h urlPath); gate_step].

Definition fresh_request (w : W) : st := mkSt w false ∅ false [].

(** ** Facts about steps *)

Lemma steps_app l k s : steps (l ++ k) s = match (steps l s).2 with Some _ => steps l s | None => steps k (steps l s).1 end.
Proof.
  revert s. induction l as [|f l IH]; intros s; [done|]. cbn [app steps]. destruct (f s) as [s' [a|]]; [done|]. apply IH.
Qed.

(** An invariant of every step, and a property of every answer. *)
Definition step_ok (I : st → Prop) (P : st → option answer → Prop) (f : step) : Prop := ∀ s, I s → P (f s).1 (f s).2 ∧ ((f s).2 = None → I (f s).1).
Lemma steps_ok I P l : (∀ s, I s → P s None) → Forall (step_ok I P) l → step_ok I P (steps l).
Proof.
  intros HN. induction 1 as [|f l Hf Hl IH]; intros s Hs; [split; [by apply HN|done]|]. cbn [steps]. destruct (Hf s Hs) as [H1 H2].
  destruct (f s) as [s' [a|]]; cbn [fst snd] in *; [done|]. by apply IH, H2.
Qed.
Lemma when_ok I P b f : (∀ s, I s → P s None) → step_ok I P f → step_ok I P (when b f).
Proof. intros HN Hf s Hs. unfold when. destruct (b s); [by apply Hf|]. split; [by apply HN|done]. Qed.

Ltac solve_in := repeat first [apply list_elem_of_here | apply list_elem_of_further].
(** The obligations of an invariant and of a property of the answers of the chain. *)
Record chain_ok (I : st → Prop) (P : st → option answer → Prop) (h : site) (urlPath : gostr) : Prop := {
  ok_none : ∀ s, I s → P s None;
  ok_white : ∀ s m, m ∈ white_lists → I s → I (run_check m s).1;
  ok_cc : step_ok I P (cc_ban_step h); ok_rule : step_ok I P (rule_ban_step h);
  ok_block : ∀ m, m ∈ [checkWithPlugins; CheckDenyIP; CheckDenyURL; CheckRule] → step_ok I P (handleBlock h m);
  ok_defense : ∀ on name m, (on, name, m) ∈ defenses h → step_ok I P (defense h on name m);
  ok_captcha : step_ok I P (captcha_step h urlPath); ok_gate : step_ok I P gate_step }.

Lemma white_ok I l s : (∀ s m, m ∈ l → I s → I (run_check m s).1) → I s → I (white_listed l s).1.
Proof.
  revert s. induction l as [|m l IH]; intros s Hm Hs; [done|]. cbn [white_listed]. pose proof (Hm s m ltac:(left) Hs) as Hr.
  destruct (run_check m s) as [s' r]. destruct (RuleCheck.JumpGuardResult r); [done|]. apply IH; [|done]. intros s2 m2 Hin. apply Hm. by right.
Qed.

Lemma serve_ok I P h urlPath : chain_ok I P h urlPath → step_ok I P (serve h urlPath).
Proof.
  intros [HN HW Hc Hr Hb Hd Hk Hg]. apply steps_ok; [done|]. apply Forall_cons. split; [apply when_ok; [done|]|apply Forall_cons; split; [done|constructor]].
  intros s Hs. unfold protect. destruct (Hb checkWithPlugins ltac:(left) s Hs) as [H1 H2]. destruct (handleBlock h checkWithPlugins s) as [s2 [a|]]; [done|]. cbn [fst snd] in *.
  pose proof (white_ok I white_lists s2 HW (H2 eq_refl)) as Hw. destruct (white_listed white_lists s2) as [s3 []]; [split; [by apply HN|done]|].
  apply (steps_ok I P); [done| |done]. apply Forall_app. split; [|by apply Forall_cons].
  assert (Hin : ∀ m, m ∈ [CheckDenyIP; CheckDenyURL; CheckRule] → step_ok I P (handleBlock h m)) by (intros m Hm; apply Hb; by right).
  unfold detections. repeat (apply Forall_cons; split; [first [done | apply Hin; solve_in | apply Hd; solve_in | apply when_ok; [done|apply Hin; solve_in]]|]). constructor.
Qed.

Lemma run_check_same m s : (run_check m s).2 = (check m (world s)).2 ∧ ran (run_check m s).1 = ran s ++ [(m, (run_check m s).2)].
Proof. unfold run_check. by destruct (check m (world s)). Qed.

Lemma handleBlock_answer h m s a : (handleBlock h m s).2 = Some a → ∃ title, a = Blocked m title.
Proof. unfold handleBlock. destruct (run_check m s) as [s1 r]. repeat case_match; try done. intros [= <-]. eauto. Qed.
(** A check that finds the request to be blocked refuses it, unless the site only logs. *)
Lemma handleBlock_refuses h m s : LogOnlyMode h ≠ 1 → let r := (check m (world s)).2 in
  RuleCheck.IsRuleAllow r = false → RuleCheck.IsLogOnly r = false →
  (handleBlock h m s).2 = if RuleCheck.IsBlock r then Some (Blocked m (RuleCheck.RTitle r)) else None.
Proof.
  intros Hl r Ha Ho. unfold handleBlock. pose proof (run_check_same m s) as [Er _]. destruct (run_check m s) as [s1 r1]. cbn [snd] in Er. subst r1. fold r. rewrite Ha, Ho.
  rewrite (proj2 (Z.eqb_neq _ _) Hl). by destruct (RuleCheck.IsBlock r).
Qed.

(** ** Log-only mode *)

(** log-only mode never blocks.  Whatever the checks find, a site in log-only mode
    refuses no request: what is left are a challenge and the access gate. *)
Theorem log_only_never_blocks h urlPath s : LogOnlyMode h = 1 → (serve h urlPath s).2 ∈ [None; Some Challenge; Some AccessPage].
Proof.
  intros Hl. apply (serve_ok (λ _, True) (λ _ a, a ∈ [None; Some Challenge; Some AccessPage]) h urlPath); [|done].
  assert (Hb : ∀ m, step_ok (λ _, True) (λ _ a, a ∈ [None; Some Challenge; Some AccessPage]) (handleBlock h m)).
  { intros m s' _. unfold handleBlock. rewrite Hl. destruct (run_check m s') as [s2 r]. cbn. split; [|done]. repeat case_match; set_solver. }
  split; [set_solver|done| | |done|intros; apply when_ok; [set_solver|done]| |]; intros s' _; (split; [|done]).
  - unfold cc_ban_step. rewrite Hl. destruct (ask cc_banned s') as [s2 []]; set_solver.
  - unfold rule_ban_step. rewrite Hl. destruct (ask rule_banned s') as [s2 []]; set_solver.
  - unfold captcha_step. repeat case_match; cbn; set_solver.
  - unfold gate_step. destruct (ask access_gate s') as [s2 []]; set_solver.
Qed.

(** ** What was found, and what was let off *)

(** The check found the request to be refused. *)
Definition finding (r : Result) : bool := RuleCheck.IsBlock r && negb (RuleCheck.IsRuleAllow r) && negb (RuleCheck.IsLogOnly r).
(** A check other than a white list passed the request and lets it off the defense [name],
    by that name or with all the others. *)
Definition lets_off (name : gostr) (p : module * Result) : bool :=
  negb (bool_decide (p.1 ∈ white_lists)) && RuleCheck.IsRuleAllow p.2 &&
  (RuleCheck.JumpGuardResult p.2 || bool_decide (RuleText.RuleSkipAll ∈ RuleCheck.RSkipModules p.2) || bool_decide (name ∈ RuleCheck.RSkipModules p.2)).
Definition let_off (tr : list (module * Result)) (name : gostr) : bool := existsb (lets_off name) tr.

(** The skips are those the checks run so far grant, and none of them refuses the request
    unless the site only logs. *)
Record in_step (h : site) (s : st) : Prop := {
  is_skip : ∀ name, ruleSkip name s = let_off (ran s) name;
  is_quiet : ∀ m r, (m, r) ∈ ran s → m ∉ white_lists → finding r = true → LogOnlyMode h = 1 }.

Lemma let_off_snoc tr p name : let_off (tr ++ [p]) name = let_off tr name || lets_off name p.
Proof. unfold let_off. rewrite existsb_app. cbn. by rewrite orb_false_r. Qed.
Lemma in_step_same h s s' : ran s' = ran s → ruleSkipAll s' = ruleSkipAll s → ruleSkipModules s' = ruleSkipModules s → in_step h s → in_step h s'.
Proof. intros E1 E2 E3 [H1 H2]. split; [|by rewrite E1]. intros name. rewrite E1, <- H1. unfold ruleSkip. by rewrite E2, E3. Qed.
Lemma in_step_world h w s : in_step h s → in_step h (with_world w s).
Proof. by apply in_step_same. Qed.
Lemma in_step_ask h {A} (f : W → W * A) s : in_step h s → in_step h (ask f s).1.
Proof. unfold ask. destruct (f (world s)). apply in_step_world. Qed.
Lemma in_step_white h m s : m ∈ white_lists → in_step h s → in_step h (run_check m s).1.
Proof.
  intros Hm [H1 H2]. unfold run_check. destruct (check m (world s)) as [w r]. split; cbn [fst ran].
  - intros name. change (ruleSkip name s = let_off (ran s ++ [(m, r)]) name). rewrite let_off_snoc, <- H1. unfold lets_off. cbn. rewrite (bool_decide_true _ Hm). cbn. by rewrite orb_false_r.
  - intros m' r' [Hin|[= -> ->]%list_elem_of_singleton]%elem_of_app; [by apply (H2 m')|done].
Qed.

(** The check [m] runs for the site: it is always on, or a defense that is on and that the
    checks before it do not let the request off. *)
Definition enabled (h : site) (m : module) (before : list (module * Result)) : Prop :=
  m ∈ [checkWithPlugins; CheckDenyIP; CheckDenyURL; CheckRule] ∨ ∃ name, (true, name, m) ∈ defenses h ∧ let_off before name = false.

(** A refusal for a check: by the last check run, which was to run and found the request to
    be refused, while none before it did. *)
Definition blocks (h : site) (s : st) (a : option answer) : Prop := ∀ m title, a = Some (Blocked m title) →
  LogOnlyMode h ≠ 1 ∧ ∃ before r w, ran s = before ++ [(m, r)] ∧ check m w = (world s, r) ∧ enabled h m before ∧
    finding r = true ∧ RuleCheck.RTitle r = title ∧ (∀ m' r', (m', r') ∈ before → m' ∉ white_lists → finding r' = false).

Lemma not_white m : m ∈ [checkWithPlugins; CheckDenyIP; CheckDenyURL; CheckRule] → m ∉ white_lists.
Proof. intros Hm. repeat (apply elem_of_cons in Hm as [->|Hm]; [by refine (bool_decide_unpack _ _); vm_compute|]). by apply not_elem_of_nil in Hm. Qed.
Lemma defense_not_white h on name m : (on, name, m) ∈ defenses h → m ∉ white_lists.
Proof.
  intros Hm. unfold defenses in Hm. repeat (apply elem_of_cons in Hm as [[= -> -> ->]|Hm]; [by refine (bool_decide_unpack _ _); vm_compute|]). by apply not_elem_of_nil in Hm.
Qed.

Lemma handleBlock_in_step h m s : m ∉ white_lists → in_step h s → (handleBlock h m s).2 = None → in_step h (handleBlock h m s).1.
Proof.
  intros Hw [H1 H2]. unfold handleBlock, run_check. destruct (check m (world s)) as [w r].
  assert (Hl : ∀ name, lets_off name (m, r) = RuleCheck.IsRuleAllow r && (RuleCheck.JumpGuardResult r || bool_decide (RuleText.RuleSkipAll ∈ RuleCheck.RSkipModules r) || bool_decide (name ∈ RuleCheck.RSkipModules r))).
  { intros name. unfold lets_off. cbn. by rewrite bool_decide_false. }
  assert (Hq : (finding r = true → LogOnlyMode h = 1) → ∀ m' r', (m', r') ∈ ran s ++ [(m, r)] → m' ∉ white_lists → finding r' = true → LogOnlyMode h = 1).
  { intros Hf m' r' [Hin|[= -> ->]%list_elem_of_singleton]%elem_of_app; [by apply H2|auto]. }
  destruct (RuleCheck.IsRuleAllow r) eqn:Ea; cbn [fst snd].
  { intros _. split; [|apply Hq; unfold finding; rewrite Ea; by destruct (RuleCheck.IsBlock r)]. intros name. cbn [ran grant]. rewrite let_off_snoc, <- H1, Hl. unfold ruleSkip, grant. cbn.
    apply eq_iff_eq_true. rewrite !orb_true_iff, !bool_decide_eq_true, elem_of_union, elem_of_difference, elem_of_list_to_set, elem_of_singleton.
    destruct (decide (name = RuleText.RuleSkipAll)) as [->|]; rewrite ?elem_of_list_to_set; tauto. }
  assert (Hs : ∀ s', ran s' = ran s ++ [(m, r)] → ruleSkipAll s' = ruleSkipAll s → ruleSkipModules s' = ruleSkipModules s → (finding r = true → LogOnlyMode h = 1) → in_step h s').
  { intros s' E1 E2 E3 Hf. split; [|rewrite E1; by apply Hq]. intros name. rewrite E1, let_off_snoc, <- H1, Hl. unfold ruleSkip. rewrite E2, E3. cbn. by rewrite orb_false_r. }
  destruct (RuleCheck.IsLogOnly r) eqn:El; cbn [fst snd].
  { intros _. apply Hs; [done..|]. unfold finding. rewrite El. by destruct (RuleCheck.IsBlock r), (RuleCheck.IsRuleAllow r). }
  destruct (RuleCheck.IsBlock r) eqn:Eb; cbn [fst snd].
  - destruct (Z.eqb_spec (LogOnlyMode h) 1) as [E|]; [|done]. intros _. by apply Hs.
  - intros _. apply Hs; [done..|]. unfold finding. by rewrite Eb.
Qed.
Lemma handleBlock_blocks h m s : in_step h s → enabled h m (ran s) → blocks h (handleBlock h m s).1 (handleBlock h m s).2.
Proof.
  intros [_ Hq] He m' title. unfold handleBlock, run_check. destruct (check m (world s)) as [w r] eqn:E. destruct (RuleCheck.IsRuleAllow r) eqn:E1; [done|].
  destruct (RuleCheck.IsLogOnly r) eqn:E2; [done|]. destruct (RuleCheck.IsBlock r) eqn:E3; [|done]. destruct (Z.eqb_spec (LogOnlyMode h) 1) as [|Hl]; [done|].
  intros [= <- <-]. split; [done|]. exists (ran s), r, (world s). cbn. split_and!; [done..| |done|].
  - unfold finding. by rewrite E1, E2, E3.
  - intros m1 r1 Hin Hm1. destruct (finding r1) eqn:Ef; [|done]. by destruct (Hl (Hq m1 r1 Hin Hm1 Ef)).
Qed.

Lemma chain_in_step h urlPath : step_ok (in_step h) (blocks h) (serve h urlPath).
Proof.
  apply serve_ok. assert (HN : ∀ s : st, in_step h s → blocks h s None) by done.
  split; [done|intros s m; apply in_step_white| | |intros m Hm s Hs|intros on name m Hm s Hs| |].
  - intros s Hs. unfold cc_ban_step. pose proof (in_step_ask h cc_banned s Hs) as Ha. destruct (ask cc_banned s) as [s1 []]; [|done]. destruct (_ =? _); [|done]. split; [done|intros _]. by eapply in_step_same, Ha.
  - intros s Hs. unfold rule_ban_step. pose proof (in_step_ask h rule_banned s Hs) as Ha. destruct (ask rule_banned s) as [s1 []]; [|done]. destruct (_ =? _); [|done]. split; [done|intros _]. by eapply in_step_same, Ha.
  - split; [apply handleBlock_blocks; [done|by left]|by apply handleBlock_in_step, Hs; apply not_white].
  - unfold defense, when. destruct (on && negb (ruleSkip name s)) eqn:Eon; [|done]. apply andb_true_iff in Eon as [-> Er%negb_true_iff]. split.
    + apply handleBlock_blocks; [done|]. right. exists name. split; [done|]. by rewrite <- (is_skip _ _ Hs).
    + apply handleBlock_in_step; [by eapply defense_not_white|done].
  - intros s Hs. split; [unfold captcha_step; by repeat case_match|intros _]. unfold captcha_step. pose proof (in_step_ask h captcha_required s Hs) as H1. destruct (ask captcha_required s) as [s1 need].
    match goal with |- in_step _ (if ?b then _ else _).1 => destruct b; [|done] end.
    assert (H2 : in_step h (if need then let '(s, pass) := ask has_pass s1 in if (pass : bool) then with_world (grant_grace (world s)) s else s else s1)).
    { destruct need; [|done]. pose proof (in_step_ask h has_pass s1 H1) as H2. destruct (ask has_pass s1) as [s2 []]; [by apply in_step_world|done]. }
    set (s2 := if need then _ else _) in *. pose proof (in_step_ask h token_ok s2 H2) as H3. destruct (ask token_ok s2) as [s3 []]; [done|]. by repeat case_match.
  - intros s Hs. unfold gate_step. pose proof (in_step_ask h access_gate s Hs) as Ha. destruct (ask access_gate s) as [s1 []]; done.
Qed.
Lemma in_step_fresh h w : in_step h (fresh_request w).
Proof. split; [|by intros m r Hm%not_elem_of_nil]. intros name. unfold ruleSkip. cbn. by rewrite bool_decide_false by set_solver. Qed.

(** C5: a block is justified.  When the chain refuses a request for a check, the site is
    protected and not in log-only mode, and that check was the last one run: it is one of
    those that always run, or a defense that is on and off which no check before it lets
    the request; it found the request to be refused, under the title shown, and no check
    before it did. *)
Theorem block_by_a_check h urlPath w s' m title : serve h urlPath (fresh_request w) = (s', Some (Blocked m title)) →
  GUARD_STATUS h = 1 ∧ LogOnlyMode h ≠ 1 ∧ ∃ before r w', ran s' = before ++ [(m, r)] ∧ check m w' = (world s', r) ∧ enabled h m before ∧
    finding r = true ∧ RuleCheck.RTitle r = title ∧ (∀ m' r', (m', r') ∈ before → m' ∉ white_lists → finding r' = false).
Proof.
  intros E. split.
  - unfold serve in E. cbn [steps] in E. unfold when in E at 1. destruct (Z.eqb_spec (GUARD_STATUS h) 1); [done|]. exfalso. revert E.
    unfold gate_step. destruct (ask access_gate _) as [s2 []]; done.
  - destruct (chain_in_step h urlPath (fresh_request w) (in_step_fresh h w)) as [Hb _]. rewrite E in Hb. by apply (Hb m title).
Qed.

(** ** The access gate *)

(** nothing passes the access gate.  A request that goes on to the cache, the static
    files or the backend has been let through by the gate - on the white lists or not,
    with the protection of the site on or off, log-only or not. *)
Theorem gate_has_the_last_word h urlPath s s' : serve h urlPath s = (s', None) → ∃ s0, ask access_gate s0 = (s', true).
Proof.
  unfold serve. cbn [steps]. destruct (when _ _ s) as [s1 [a|]]; [done|]. unfold gate_step. destruct (ask access_gate s1) as [s2 []] eqn:E; [|done].
  intros [= <-]. by exists s1.
Qed.

(** ** Nothing is missed *)

(** What only grows: the checks run and the skips granted. *)
Record grows (s s' : st) : Prop := {
  gr_ran : ran s ⊆ ran s'; gr_all : ruleSkipAll s = true → ruleSkipAll s' = true; gr_modules : ruleSkipModules s ⊆ ruleSkipModules s' }.
#[local] Instance grows_preorder : PreOrder grows.
Proof.
  split; [by intros s; split|]. intros s1 s2 s3 [A1 A2 A3] [B1 B2 B3]. split; [by etrans|auto|by etrans].
Qed.
Lemma grows_skip name s s' : grows s s' → ruleSkip name s = true → ruleSkip name s' = true.
Proof.
  intros [_ Ha Hm]. unfold ruleSkip. rewrite !orb_true_iff, !bool_decide_eq_true. intros [?|?]; [auto|right]. set_solver.
Qed.
Lemma grows_world w s : grows s (with_world w s).
Proof. by split. Qed.
Lemma grows_ask {A} (f : W → W * A) s : grows s (ask f s).1.
Proof. unfold ask. destruct (f (world s)). apply grows_world. Qed.
Lemma grows_run m s : grows s (run_check m s).1.
Proof. unfold run_check. destruct (check m (world s)). split; [apply subseteq_app_r || set_solver|done|done]. Qed.
Lemma grows_block h m s : grows s (handleBlock h m s).1.
Proof.
  unfold handleBlock. pose proof (grows_run m s) as Hr. destruct (run_check m s) as [s1 r]. cbn [fst] in Hr. etrans; [exact Hr|]. 
  destruct (RuleCheck.IsRuleAllow r); [|repeat case_match; by split]. split; [done| |]; cbn; [by intros ->|set_solver].
Qed.
Lemma grows_when b f s : grows s (f s).1 → grows s (when b f s).1.
Proof. intros Hf. unfold when. by destruct (b s). Qed.
Lemma grows_steps l s : (∀ f s, f ∈ l → grows s (f s).1) → grows s (steps l s).1.
Proof.
  revert s. induction l as [|f l IH]; intros s Hl; [done|]. cbn [steps]. pose proof (Hl f s ltac:(left)) as Hf. destruct (f s) as [s1 [a|]]; [done|].
  etrans; [exact Hf|]. apply IH. intros g s2 Hg. apply Hl. by right.
Qed.
(** When no step answers, every step was taken. *)
Lemma steps_all l s s' f : (∀ f s, f ∈ l → grows s (f s).1) → steps l s = (s', None) → f ∈ l → ∃ s1, (f s1).2 = None ∧ grows (f s1).1 s'.
Proof.
  revert s. induction l as [|g l IH]; intros s Hl E Hf; [by apply not_elem_of_nil in Hf|]. cbn [steps] in E.
  destruct (g s) as [s1 [a|]] eqn:Eg; [done|]. apply elem_of_cons in Hf as [->|Hf].
  - exists s. rewrite Eg. split; [done|]. pose proof (grows_steps l s1) as Hs. rewrite E in Hs. apply Hs. intros f' s2 Hin. apply Hl. by right.
  - eapply IH; [|done|done]. intros f' s2 Hin. apply Hl. by right.
Qed.

Lemma detections_cases (Q : step → Prop) h : Q (cc_ban_step h) → Q (rule_ban_step h) →
  (∀ m, m ∈ [CheckDenyIP; CheckDenyURL] → Q (handleBlock h m)) → (∀ b, Q (when b (handleBlock h CheckRule))) →
  (∀ on name m, (on, name, m) ∈ defenses h → Q (defense h on name m)) → ∀ f, f ∈ detections h → Q f.
Proof.
  intros H1 H2 H3 H4 H5 f Hf. unfold detections in Hf. repeat (apply elem_of_cons in Hf as [->|Hf]; [first [done|apply H3; solve_in|apply H5; solve_in|apply H4]|]).
  by apply not_elem_of_nil in Hf.
Qed.
Lemma detections_grow h f s : f ∈ detections h → grows s (f s).1.
Proof.
  intros Hf. revert f Hf s. apply (detections_cases (λ f, ∀ s, grows s (f s).1)).
  - intros s. unfold cc_ban_step. pose proof (grows_ask cc_banned s) as Ha. destruct (ask cc_banned s) as [s1 []]; [|done]. etrans; [exact Ha|]. by destruct (_ =? _).
  - intros s. unfold rule_ban_step. pose proof (grows_ask rule_banned s) as Ha. destruct (ask rule_banned s) as [s1 []]; [|done]. etrans; [exact Ha|]. by destruct (_ =? _).
  - intros m _ s. apply grows_block.
  - intros b s. apply grows_when, grows_block.
  - intros on name m _ s. apply grows_when, grows_block.
Qed.

Lemma white_listed_spec l s : let '(s', b) := white_listed l s in
  grows s s' ∧ (b = true → ∃ m r, m ∈ l ∧ (m, r) ∈ ran s' ∧ RuleCheck.JumpGuardResult r = true).
Proof.
  revert s. induction l as [|m l IH]; intros s; [done|]. cbn [white_listed]. pose proof (grows_run m s) as Hg. pose proof (run_check_same m s) as [_ Hr].
  destruct (run_check m s) as [s1 r]. cbn [fst snd] in *. destruct (RuleCheck.JumpGuardResult r) eqn:Ej.
  - split; [done|]. intros _. exists m, r. rewrite Hr. split; [left|]. split; [set_solver|done].
  - specialize (IH s1). destruct (white_listed l s1) as [s2 b]. destruct IH as [Hg2 Hb]. split; [by etrans|]. intros E. destruct (Hb E) as (m' & r' & Hm & ? & ?).
    exists m', r'. split; [by right|done].
Qed.

Lemma captcha_grows h urlPath s : grows s (captcha_step h urlPath s).1.
Proof.
  unfold captcha_step. pose proof (grows_ask captcha_required s) as H1. destruct (ask captcha_required s) as [s1 need]. cbn [fst] in H1. destruct (_ && _); [|done].
  etrans; [exact H1|]. assert (H2 : grows s1 (if need then let '(s, pass) := ask has_pass s1 in if (pass : bool) then with_world (grant_grace (world s)) s else s else s1)).
  { destruct need; [|done]. pose proof (grows_ask has_pass s1) as H2. destruct (ask has_pass s1) as [s2 []]; [|done]. etrans; [exact H2|]. apply grows_world. }
  set (s2 := if need then _ else _) in *. etrans; [exact H2|]. pose proof (grows_ask token_ok s2) as H3. destruct (ask token_ok s2) as [s3 []]; [done|]. cbn [fst] in H3.
  by repeat case_match.
Qed.

Lemma detections_run h urlPath s s' : steps (detections h ++ [captcha_step h urlPath]) s = (s', None) → ∀ f, f ∈ detections h → ∃ s1, grows (f s1).1 s'.
Proof.
  intros E f Hf. destruct (steps_all (detections h ++ [captcha_step h urlPath]) s s' f) as (s1 & _ & Hs); [|done|by apply elem_of_app; left|by exists s1].
  intros g s1 [Hg|Hg%list_elem_of_singleton]%elem_of_app; [by apply (detections_grow h)|subst; apply captcha_grows].
Qed.
(** A check of the trace. *)
Definition met (m : module) s : Prop := ∃ r, (m, r) ∈ ran s.
Lemma met_grows m s s' : grows s s' → met m s → met m s'.
Proof. intros [Hr _ _] [r Hm]. exists r. by apply Hr. Qed.
Lemma met_block h m s : met m (handleBlock h m s).1.
Proof.
  unfold handleBlock. pose proof (run_check_same m s) as [_ Hr]. destruct (run_check m s) as [s5 r]. cbn [fst snd] in Hr.
  exists r. assert (Hm : (m, r) ∈ ran s5) by (rewrite Hr; set_solver). by repeat case_match.
Qed.
Lemma lists_and_rules_met h s' : (∀ f, f ∈ detections h → ∃ s1, grows (f s1).1 s') → ∀ m, m ∈ [CheckDenyIP; CheckDenyURL; CheckRule] → met m s'.
Proof.
  intros Hall m Hm. assert (Hthere : handleBlock h m ∈ detections h → met m s') by (intros Hin; destruct (Hall _ Hin) as (s5 & Hs); apply (met_grows _ _ _ Hs), met_block).
  apply elem_of_cons in Hm as [->|Hm]; [apply Hthere; unfold detections; solve_in|]. apply elem_of_cons in Hm as [->|Hm]; [apply Hthere; unfold detections; solve_in|].
  apply list_elem_of_singleton in Hm as ->. destruct (RULE_CHAIN_MODE h =? 1) eqn:Ec.
  - destruct (Hall (when (λ _, RULE_CHAIN_MODE h =? 1) (handleBlock h CheckRule))) as (s5 & Hs); [unfold detections; solve_in|].
    unfold when in Hs. rewrite Ec in Hs. apply (met_grows _ _ _ Hs), met_block.
  - destruct (Hall (when (λ _, negb (RULE_CHAIN_MODE h =? 1)) (handleBlock h CheckRule))) as (s5 & Hs); [unfold detections; solve_in|].
    unfold when in Hs. rewrite Ec in Hs. apply (met_grows _ _ _ Hs), met_block.
Qed.
Lemma defense_met h s' name m : (∀ f, f ∈ detections h → ∃ s1, grows (f s1).1 s') → (true, name, m) ∈ defenses h → met m s' ∨ ruleSkip name s' = true.
Proof.
  intros Hall Hm. destruct (Hall (defense h true name m)) as (s5 & Hs).
  { unfold defenses in Hm. unfold detections. repeat (apply elem_of_cons in Hm as [Hm|Hm]; [apply pair_eq in Hm as [[E1 ->]%pair_eq ->]; try rewrite E1; solve_in|]). by apply not_elem_of_nil in Hm. }
  unfold defense, when in Hs. cbn [andb] in Hs. destruct (ruleSkip name s5) eqn:Er; cbn [negb] in Hs.
  - right. by eapply grows_skip.
  - left. apply (met_grows _ _ _ Hs), met_block.
Qed.

(** C1: no detection is missed.  When a protected site lets a request go on, either a white
    list was run and answered that it passes, or the black lists and the custom rules were
    run and so was every detection that is on, except those that a check that passed the
    request lets it off; and whatever was run, no check but the white lists found the
    request to be refused, unless the site only logs. *)
Theorem no_detection_missed h urlPath w s' : GUARD_STATUS h = 1 → serve h urlPath (fresh_request w) = (s', None) →
  ((∃ m r, m ∈ white_lists ∧ (m, r) ∈ ran s' ∧ RuleCheck.JumpGuardResult r = true) ∨
   ((∀ m, m ∈ [CheckDenyIP; CheckDenyURL; CheckRule] → met m s') ∧
    (∀ name m, (true, name, m) ∈ defenses h → met m s' ∨ let_off (ran s') name = true))) ∧
  (∀ m r, (m, r) ∈ ran s' → m ∉ white_lists → finding r = true → LogOnlyMode h = 1).
Proof.
  intros Hg E. assert (Hin : in_step h s').
  { destruct (chain_in_step h urlPath (fresh_request w) (in_step_fresh h w)) as [_ Hs]. rewrite E in Hs. by apply Hs. }
  split; [|apply (is_quiet _ _ Hin)].
  unfold serve in E. cbn [steps] in E. unfold when in E at 1. rewrite Hg in E. cbn [Z.eqb Pos.eqb] in E.
  destruct (protect h urlPath (fresh_request w)) as [s4 [a|]] eqn:Ep; [done|].
  assert (H4 : grows s4 s').
  { unfold gate_step in E. pose proof (grows_ask access_gate s4) as Ha. destruct (ask access_gate s4) as [s5 []]; [|done]. injection E as <-. done. }
  clear E. unfold protect in Ep. destruct (handleBlock h checkWithPlugins (fresh_request w)) as [s1 [a|]]; [done|].
  pose proof (white_listed_spec white_lists s1) as Hw. destruct (white_listed white_lists s1) as [s2 b]. destruct Hw as [_ Hb]. destruct b.
  - injection Ep as <-. left. destruct (Hb eq_refl) as (m & r & Hm & Hr & Hj). exists m, r. split; [done|]. split; [by apply (gr_ran _ _ H4)|done].
  - right. assert (Hall : ∀ f, f ∈ detections h → ∃ s5, grows (f s5).1 s').
    { intros f Hf. destruct (detections_run h urlPath s2 s4 Ep f Hf) as [s5 Hs]. exists s5. by etrans. }
    split; [by apply (lists_and_rules_met h)|]. intros name m Hm. rewrite <- (is_skip _ _ Hin). by apply (defense_met h).
Qed.

(** ** In order, and once *)

(** A step runs some of the checks [ms], in their order. *)
Definition adds (f : step) (ms : list module) : Prop := ∀ s, ∃ k, ran (f s).1 = ran s ++ k ∧ map fst k `sublist_of` ms.
Lemma adds_nothing s' s ms : ran s' = ran s → ∃ k, ran s' = ran s ++ k ∧ map fst k `sublist_of` ms.
Proof. intros ->. exists []. rewrite app_nil_r. split; [done|apply sublist_nil_l]. Qed.
Lemma adds_block h m : adds (handleBlock h m) [m].
Proof.
  intros s. exists [(m, (run_check m s).2)]. split; [|done]. unfold handleBlock. pose proof (run_check_same m s) as [_ <-]. destruct (run_check m s) as [s1 r]. by repeat case_match.
Qed.
Lemma adds_when b f ms : adds f ms → adds (when b f) ms.
Proof. intros Hf s. unfold when. destruct (b s); [apply Hf|by apply adds_nothing]. Qed.
Lemma adds_steps fs : Forall (λ p, adds p.1 p.2) fs → adds (steps (map fst fs)) (concat (map snd fs)).
Proof.
  induction 1 as [|[f ms] fs Hf Hfs IH]; intros s; [by apply adds_nothing|]. cbn [map fst snd steps concat] in *.
  destruct (Hf s) as (k & Hk & Hs). destruct (f s) as [s1 [a|]]; cbn [fst snd] in *.
  - exists k. split; [done|]. rewrite <- (app_nil_r (map fst k)). apply sublist_app; [done|apply sublist_nil_l].
  - destruct (IH s1) as (k' & Hk' & Hs'). exists (k ++ k'). split; [by rewrite Hk', Hk, app_assoc|rewrite map_app; by apply sublist_app].
Qed.
Lemma adds_ban (f : W → W * bool) (g : bool → st → st * option answer) : (∀ b s, ran (g b s).1 = ran s) → adds (λ s, let '(s, hit) := ask f s in g hit s) [].
Proof. intros Hg s. unfold ask. destruct (f (world s)) as [w b]. apply adds_nothing. by rewrite Hg. Qed.

(** The order of the checks of a site. *)
Definition order (h : site) : list module :=
  checkWithPlugins :: white_lists ++ [CheckDenyIP; CheckDenyURL] ++ (if RULE_CHAIN_MODE h =? 1 then [CheckRule] else [])
  ++ [CheckBot; CheckSql; CheckXss; CheckSan; CheckRce; CheckDirTraversal; CheckCC] ++ (if RULE_CHAIN_MODE h =? 1 then [] else [CheckRule])
  ++ [CheckAI; CheckSensitive; CheckOwasp; CheckAntiLeech; CheckCsrf; CheckUpload].

Lemma adds_rule h on : adds (when (λ _ : st, on) (handleBlock h CheckRule)) (if on then [CheckRule] else []).
Proof. destruct on; [apply adds_when, adds_block|]. intros s. by apply adds_nothing. Qed.

Lemma adds_detections h urlPath : adds (steps (detections h ++ [captcha_step h urlPath])) (drop 4 (order h)).
Proof.
  set (fs := [ (cc_ban_step h, []); (rule_ban_step h, []); (handleBlock h CheckDenyIP, [CheckDenyIP]); (handleBlock h CheckDenyURL, [CheckDenyURL]);
    (when (λ _, RULE_CHAIN_MODE h =? 1) (handleBlock h CheckRule), if RULE_CHAIN_MODE h =? 1 then [CheckRule] else []);
    (defense h (DEFENSE_BOT h =? 1) $"BOT" CheckBot, [CheckBot]); (defense h (DEFENSE_SQLI h =? 1) $"SQLI" CheckSql, [CheckSql]);
    (defense h (DEFENSE_XSS h =? 1) $"XSS" CheckXss, [CheckXss]); (defense h (DEFENSE_SCAN h =? 1) $"SCAN" CheckSan, [CheckSan]);
    (defense h (DEFENSE_RCE h =? 1) $"RCE" CheckRce, [CheckRce]); (defense h (DEFENSE_DIR_TRAVERSAL h =? 1) $"DIR" CheckDirTraversal, [CheckDirTraversal]);
    (defense h true $"CC" CheckCC, [CheckCC]);
    (when (λ _, negb (RULE_CHAIN_MODE h =? 1)) (handleBlock h CheckRule), if negb (RULE_CHAIN_MODE h =? 1) then [CheckRule] else []);
    (defense h ((AI_ENABLE h =? 1) && (DEFENSE_AI h =? 1)) $"AI" CheckAI, [CheckAI]); (defense h (DEFENSE_SENSITIVE h =? 1) $"SENSITIVE" CheckSensitive, [CheckSensitive]);
    (defense h ((ENABLE_OWASP h =? 1) || (DEFENSE_OWASP_SET h =? 1)) $"OWASP" CheckOwasp, [CheckOwasp]); (defense h true $"ANTILEECH" CheckAntiLeech, [CheckAntiLeech]);
    (defense h true $"CSRF" CheckCsrf, [CheckCsrf]); (defense h true $"UPLOAD" CheckUpload, [CheckUpload]); (captcha_step h urlPath, []) ] : list (step * list module)).
  assert (Ef : detections h ++ [captcha_step h urlPath] = map fst fs) by done.
  assert (Em : drop 4 (order h) = concat (map snd fs)) by (unfold order, fs; by destruct (RULE_CHAIN_MODE h =? 1)).
  rewrite Ef, Em. apply adds_steps. unfold fs. repeat (apply Forall_cons; split; [cbn [fst snd]; first [apply adds_block | apply adds_rule | apply adds_when, adds_block | idtac]|]); [| | |constructor].
  - apply adds_ban. intros b s. by repeat case_match.
  - apply adds_ban. intros b s. by repeat case_match.
  - intros s. apply adds_nothing. unfold captcha_step, ask. by repeat case_match; simplify_eq.
Qed.

Lemma adds_white l s : ∃ k, ran (white_listed l s).1 = ran s ++ k ∧ map fst k `sublist_of` l.
Proof.
  revert s. induction l as [|m l IH]; intros s; [by apply adds_nothing|]. cbn [white_listed]. pose proof (run_check_same m s) as [_ Hr].
  destruct (run_check m s) as [s1 r]. cbn [fst snd] in Hr. destruct (RuleCheck.JumpGuardResult r).
  - exists [(m, r)]. split; [done|]. apply sublist_skip, sublist_nil_l.
  - destruct (IH s1) as (k & Hk & Hs). exists ((m, r) :: k). split; [rewrite Hk, Hr, <- app_assoc; done|by apply sublist_skip].
Qed.

(** in order, and once.  The checks a request meets are among those of the site's order
    - the plugins, the white lists, the black lists, the detections with the custom rules
    first or after the request counter - each at most once. *)
Theorem checks_in_order h urlPath w :
  map fst (ran (serve h urlPath (fresh_request w)).1) `sublist_of` order h ∧ NoDup (order h).
Proof.
  split.
  - assert (Hp : adds (protect h urlPath) (order h)).
    { intros s. unfold protect. destruct (adds_block h checkWithPlugins s) as (k1 & Hk1 & Hs1). destruct (handleBlock h checkWithPlugins s) as [s1 [a|]]; cbn [fst] in *.
      { exists k1. split; [done|]. etrans; [exact Hs1|]. apply sublist_skip, sublist_nil_l. }
      destruct (adds_white white_lists s1) as (k2 & Hk2 & Hs2). destruct (white_listed white_lists s1) as [s2 b]. cbn [fst] in *.
      assert (Ho : order h = [checkWithPlugins] ++ white_lists ++ drop 4 (order h)) by done. rewrite Ho. destruct b; cbv beta iota; cbn [fst].
      - exists (k1 ++ k2). split; [by rewrite Hk2, Hk1, app_assoc|]. rewrite map_app. apply sublist_app; [done|]. rewrite <- (app_nil_r (map fst k2)). apply sublist_app; [done|apply sublist_nil_l].
      - destruct (adds_detections h urlPath s2) as (k3 & Hk3 & Hs3). exists (k1 ++ k2 ++ k3). split; [by rewrite Hk3, Hk2, Hk1, <- !app_assoc|].
        rewrite !map_app. by repeat apply sublist_app. }
    destruct (adds_steps [(when (λ _, GUARD_STATUS h =? 1) (protect h urlPath), order h); (gate_step, [])]) with (fresh_request w) as (k & Hk & Hs).
    { repeat (apply Forall_cons; split; [|]); [by apply adds_when| |constructor]. apply adds_ban. intros b s. by destruct b. }
    cbn [map fst snd concat] in Hk, Hs. rewrite !app_nil_r in Hs. unfold serve. by rewrite Hk.
  - unfold order. destruct (RULE_CHAIN_MODE h =? 1); by refine (bool_decide_unpack _ _); vm_compute.
Qed.
End chain.
End Pipeline.
