(* ===== verification/Serve.v ===== *)
(** * A request through the checks (wafengine.go ServeHTTP; check_captcha.go)

    The chain of [Pipeline.v] over the checks that are modelled: address and URL lists,
    payment call-backs, CC bans and rules, custom rules and their bans, path traversal,
    referer and origin checks, the captcha token.  The other checks and the access gate are
    arguments, over a state of their own.  The theorems follow a visitor from the lists to
    the answer. *)
From S2P Require Import Prelude.
From S2P Require Import GoLib.
From S2P Require Import GoHttp.
From S2P Require Import IpBits.
From S2P Require Import Pattern.
From S2P Require Import MatchSet.
From S2P Require Import Groups.
From S2P Require Import WafCache.
From S2P Require Import CCCounter.
From S2P Require Import CCStats.
From S2P Require Import CCRule.
From S2P Require Import RateLimiter.
From S2P Require Import CCEngine.
From S2P Require Import CCEngineFacts.
From S2P Require Import CCBans.
From S2P Require Import Traversal.
From S2P Require Import RuleText.
From S2P Require Import RuleCheck.
From S2P Require Import HostLists.
From S2P Require Import Referers.
From S2P Require Import Pipeline.
Local Open Scope Z_scope.
Local Open Scope bool_scope.

Module Serve.
Import CCRule.Matcher.
Section standard.
Context `{UnicodeCase, UnicodeUpper, TokenBucket, RuleCheck.RuleEngine, Regexp} {R : Type}.
Abbreviation Result := RuleCheck.Result.

(** ** The site, the request and the state *)

(** The site by the part that reads it; what several parts read is taken from [cc]. *)
Record Site := mkSite {
  cc : CCEngine.HostSafe; lists : HostLists.HostSafe; rule : option RuleCheck.RuleHelper;
  leech : AntiLeech.AntiLeechConfig; csrf : Csrf.CsrfConfig; BindMoreHost : gostr; settings : Pipeline.site }.
Definition lists_of (h : Site) : HostLists.HostSafe :=
  let l := lists h in
  HostLists.mkHost (CCEngine.IPMode (cc h)) (CCEngine.GUARD_STATUS (cc h)) (HostLists.IPWhiteLists l) (HostLists.IPWhiteIndex l) (HostLists.IPWhiteGroupCodes l)
    (HostLists.IPBlockLists l) (HostLists.IPBlockIndex l) (HostLists.IPBlockGroupCodes l) (HostLists.UrlWhiteLists l) (HostLists.UrlBlockLists l).
Definition rules_of (h : Site) : RuleCheck.HostSafe :=
  RuleCheck.mkHost (CCEngine.Code (cc h)) (CCEngine.IPMode (cc h)) (CCEngine.LogOnlyMode (cc h)) (CCEngine.GUARD_STATUS (cc h)) (rule h).
Definition chain_of (h : Site) : Pipeline.site :=
  let s := settings h in
  Pipeline.mkSite (CCEngine.GUARD_STATUS (cc h)) (CCEngine.LogOnlyMode (cc h)) (Pipeline.DEFENSE_BOT s) (Pipeline.DEFENSE_SQLI s) (Pipeline.DEFENSE_XSS s)
    (Pipeline.DEFENSE_SCAN s) (Pipeline.DEFENSE_RCE s) (Pipeline.DEFENSE_DIR_TRAVERSAL s) (Pipeline.DEFENSE_SENSITIVE s) (Pipeline.DEFENSE_AI s)
    (Pipeline.DEFENSE_OWASP_SET s) (Pipeline.IsEnableCaptcha s) (Pipeline.PathPrefix s) (Pipeline.ExcludeURLs s) (Pipeline.RULE_CHAIN_MODE s)
    (Pipeline.AI_ENABLE s) (Pipeline.ENABLE_OWASP s).

(** The request: the HTTP request, the URL of its record, whether its place is unknown,
    whether its failures are not counted, and what the body checks read. *)
Record visit := mkVisit { rq : request; URL : gostr; geo_unknown : bool; unfailing : bool; inspect : Traversal.inspected }.

(** The state: the one of the CC engine, with the log record of the request; the parse
    cache, the guest mark of the record, the noted thresholds, the bans of rules (their
    keys start with a prefix of their own), and the state of the other checks. *)
Record world := mkWorld {
  engine : CCEngine.world; patterns : Pattern.cache; guest : gostr; noted : list (gostr * Z * Z);
  rule_bans : gmap gostr (WafCache.WafCacheItem Z); rest : R }.

Definition risk (w : world) : Z := RISK_LEVEL (CCEngine.weblog (engine w)).
Definition log_risk (n : Z) (l : WebLog) : WebLog :=
  mkWebLog (SRC_IP l) (NetSrcIp l) (COUNTRY l) (PROVINCE l) (CITY l) (IsBot l) n (BotVerifyStrong l)
    (CONTENT_LENGTH l) (ResHeader l) (STATUS_CODE l) (RES_CONTENT_LENGTH l) (TimeSpent l) (BodyFields l) (BodyValues l).
Definition set_risk (n : Z) (e : CCEngine.world) : CCEngine.world :=
  CCEngine.mkWorld (CCEngine.counter e) (CCEngine.tracker e) (CCEngine.cache e) (CCEngine.limiters e) (CCEngine.messages e)
    (log_risk n (CCEngine.weblog e)) (CCEngine.RULE e).
Definition with_engine (e : CCEngine.world) (w : world) : world := mkWorld e (patterns w) (guest w) (noted w) (rule_bans w) (rest w).
Definition with_rest (r : R) (w : world) : world := mkWorld (engine w) (patterns w) (guest w) (noted w) (rule_bans w) r.
Definition risky (n : Z) (w : world) : world := with_engine (set_risk n (engine w)) w.

(** The state as the lists and as the custom rules see it. *)
Definition on_lists (f : HostLists.state → HostLists.state * CCEngine.Result) (w : world) : world * CCEngine.Result :=
  let '(st, r) := f (HostLists.mkState (patterns w) (risk w) (guest w)) in
  (mkWorld (set_risk (HostLists.RISK_LEVEL st) (engine w)) (HostLists.pcache st) (HostLists.GUEST_IDENTIFICATION st) (noted w) (rule_bans w) (rest w), r).
Definition on_rules {A} (f : RuleCheck.state → RuleCheck.state * A) (w : world) : world * A :=
  let '(st, r) := f (RuleCheck.mkState (risk w) (noted w) (rule_bans w)) in
  (mkWorld (set_risk (RuleCheck.RISK_LEVEL st) (engine w)) (patterns w) (guest w) (RuleCheck.noted st) (RuleCheck.cache st) (rest w), r).
Definition in_engine {A} (m : CCEngine.M A) (w : world) : world * A := let '(e, r) := m (engine w) in (with_engine e w, r).

(** A result of a check that is no rule. *)
Definition plain (r : CCEngine.Result) : Result :=
  RuleCheck.mkRes (CCEngine.JumpGuardResult r) (CCEngine.IsBlock r) (CCEngine.Title r) (CCEngine.Content r) false false [].
Definition plainly (p : world * CCEngine.Result) : world * Result := (p.1, plain p.2).

Section request.
(** The time, the shared address sets, the site, the global site, and the request; the
    body mode with its excluded fields, and whether impostor bots must solve a captcha. *)
Context (now : Z) (env : HostLists.shared) (h : Site) (g : option Site) (x : visit).
Context (body_mode : gostr) (body_excluded : Traversal.excludes) (FAKE_SPIDER_CAPTCHA : Z).
(** The checks that are not modelled, and the access gate. *)
Context (other : Pipeline.module → R → R * Result) (gate : R → R * bool).

Definition log (w : world) : WebLog := CCEngine.weblog (engine w).
Definition list_visit (w : world) : HostLists.visit := HostLists.mkVisit (URL x) (NetSrcIp (log w)) (SRC_IP (log w)).
Definition rule_visit (w : world) : RuleCheck.visit := RuleCheck.mkVisit (SRC_IP (log w)) (NetSrcIp (log w)) (geo_unknown x) (unfailing x).
Definition client (w : world) : gostr := CCEngine.GetClientIPByMode (CCEngine.IPMode (cc h)) (NetSrcIp (log w)) (SRC_IP (log w)).

(** [CheckDirTraversal], with what it leaves in the record. *)
Definition traversal_found : Result := RuleCheck.mkRes false true $"目录穿越漏洞" $"请正确访问" false false [].
Definition CheckDirTraversal (w : world) : world * Result :=
  match Traversal.CheckDirTraversal body_mode body_excluded (inspect x) with
  | Traversal.Clean => (w, RuleCheck.no_hit)
  | Traversal.Observed => (with_engine (CCEngine.with_RULE $"观察模式:疑似目录穿越/LFI" (engine w)) w, RuleCheck.no_hit)
  | Traversal.Blocked => (risky 2 w, traversal_found)
  end.
Definition CheckCsrf (w : world) : world * Result :=
  let '(level, r) := Csrf.CheckCsrf (csrf h) (BindMoreHost h) (rq x) in
  (match level with Some n => risky n w | None => w end, plain r).

Definition check (m : Pipeline.module) (w : world) : world * Result :=
  match m with
  | Pipeline.CheckAllowIP => plainly (on_lists (HostLists.CheckAllowIP env (lists_of h) (lists_of <$> g) (list_visit w)) w)
  | Pipeline.CheckAllowURL => (w, plain (HostLists.CheckAllowURL (lists_of h) (lists_of <$> g) (list_visit w)))
  | Pipeline.CheckAllowCallBackIP => plainly (on_lists (HostLists.CheckAllowCallBackIP env (list_visit w)) w)
  | Pipeline.CheckDenyIP => plainly (on_lists (HostLists.CheckDenyIP env (lists_of h) (lists_of <$> g) (list_visit w)) w)
  | Pipeline.CheckDenyURL => plainly (on_lists (HostLists.CheckDenyURL (lists_of h) (lists_of <$> g) (list_visit w)) w)
  | Pipeline.CheckRule => on_rules (RuleCheck.CheckRule now (rules_of h) (rules_of <$> g) (rule_visit w)) w
  | Pipeline.CheckDirTraversal => CheckDirTraversal w
  | Pipeline.CheckCC => plainly (in_engine (CCEngine.CheckCC now (rq x) (cc h) (cc <$> g)) w)
  | Pipeline.CheckAntiLeech => (w, plain (AntiLeech.CheckAntiLeech (leech h) (BindMoreHost h) (rq x)))
  | Pipeline.CheckCsrf => CheckCsrf w
  | m => let '(r, res) := other m (rest w) in (with_rest r w, res)
  end.

(** A ban that refuses the request is also announced. *)
Definition cc_banned (w : world) : world * bool :=
  let '(w, (hitKey, banIP)) := in_engine (CCEngine.matchCCBan now (CCEngine.Code (cc h)) (NetSrcIp (log w)) (SRC_IP (log w)) (CCEngine.IPMode (cc h))) w in
  if bool_decide (hitKey = []) then (w, false)
  else (if CCEngine.LogOnlyMode (cc h) =? 1 then w else (in_engine (CCEngine.notifyCCBanOnce now hitKey banIP) w).1, true).
Definition rule_banned (w : world) : world * bool :=
  let '(w, (hitKey, _)) := on_rules (RuleCheck.matchRuleBan now (CCEngine.Code (cc h)) (NetSrcIp (log w)) (SRC_IP (log w)) (CCEngine.IPMode (cc h))) w in
  (w, negb (bool_decide (hitKey = []))).

(** [checkCaptchaToken]: a pass, a bot that need not solve a captcha, or the path of the
    certificate challenge. *)
Definition acme_path : gostr := $"/.well-known/acme-challenge/".
Definition bot_exempt (w : world) : bool :=
  (IsBot (log w) =? 1) &&
  ((risk w =? 0) || bool_decide (guest w ∈ [$"查询超时"; $"查询失败"]) || (FAKE_SPIDER_CAPTCHA =? 0)).
Definition checkCaptchaToken (w : world) : world * bool :=
  let '(w, pass) := in_engine (CCEngine.any_pass now (CCEngine.pass_tokens (rq x)) (client w)) w in
  (w, (pass : bool) || bot_exempt w || has_prefix (URL x) acme_path).

#[global] Instance StandardChecks : Pipeline.Checks world := {|
  Pipeline.check := check;
  Pipeline.cc_banned := cc_banned;
  Pipeline.rule_banned := rule_banned;
  Pipeline.captcha_required := λ w, in_engine (CCEngine.IsCCCaptchaRequired now (CCEngine.Code (cc h)) (client w)) w;
  Pipeline.has_pass := λ w, in_engine (CCEngine.hasCaptchaPass now (rq x) (client w)) w;
  Pipeline.grant_grace := λ w, (in_engine (CCEngine.GrantCCCaptchaGrace now (CCEngine.Code (cc h)) (client w)) w).1;
  Pipeline.token_ok := checkCaptchaToken;
  Pipeline.note := λ t w, with_engine (CCEngine.with_RULE t (engine w)) w;
  Pipeline.access_gate := λ w, let '(r, pass) := gate (rest w) in (with_rest r w, pass) |}.

(** The answer to the request. *)
Definition ServeHTTP (w : world) : Pipeline.st world * option Pipeline.answer :=
  Pipeline.serve (chain_of h) (r_path (rq x)) (Pipeline.fresh_request w).
(** ** The visitor stays the same

    Until the detections that read more than the address, a request keeps its addresses,
    its bans, and a sound parse cache. *)
(** What the steps up to the black lists leave alone. *)
Record steady (w w' : world) : Prop := {
  st_src : SRC_IP (log w') = SRC_IP (log w); st_net : NetSrcIp (log w') = NetSrcIp (log w);
  st_cache : CCEngine.cache (engine w') = CCEngine.cache (engine w);
  st_bans : rule_bans w' = rule_bans w; st_patterns : Pattern.cache_ok (patterns w) → Pattern.cache_ok (patterns w') }.
#[local] Instance steady_preorder : PreOrder steady.
Proof. split; [by intros w; split|]. intros w1 w2 w3 [] []. split; [congruence..|auto]. Qed.
Lemma steady_client w w' : steady w w' → client w' = client w ∧ list_visit w' = list_visit w.
Proof. intros [Hs Hn _ _ _]. unfold client, list_visit. by rewrite Hs, Hn. Qed.

Lemma steady_rest r w : steady w (with_rest r w).
Proof. by split. Qed.
Lemma steady_note t w : steady w (with_engine (CCEngine.with_RULE t (engine w)) w).
Proof. by split. Qed.
Lemma steady_lists f w : (Pattern.cache_ok (patterns w) → Pattern.cache_ok (HostLists.pcache (f (HostLists.mkState (patterns w) (risk w) (guest w))).1)) → steady w (on_lists f w).1.
Proof. unfold on_lists. destruct (f _) as [st r]. by split. Qed.

(** ** The lists decide first *)

Definition white (w : world) : bool :=
  HostLists.listed env (client w) (HostLists.all_entries HostLists.IPWhiteLists (lists_of h) (lists_of <$> g))
  || existsb (HostLists.url_hit (to_lower (URL x))) (HostLists.all_entries HostLists.UrlWhiteLists (lists_of h) (lists_of <$> g))
  || bool_decide (is_Some (HostLists.CheckCallBackIp (if HostLists.proxied env then SRC_IP (log w) else NetSrcIp (log w)))).
Definition black (w : world) : bool :=
  HostLists.listed env (client w) (HostLists.all_entries HostLists.IPBlockLists (lists_of h) (lists_of <$> g))
  || Contains (HostLists.threat env) (parse_ip (client w))
  || existsb (HostLists.url_hit (to_lower (URL x))) (HostLists.all_entries HostLists.UrlBlockLists (lists_of h) (lists_of <$> g)).

Context (Hh : HostLists.published (lists_of h)) (Hg : ∀ g', g = Some g' → HostLists.published (lists_of g')).
Lemma published_global : ∀ g', lists_of <$> g = Some g' → HostLists.published g'.
Proof using Hg. destruct g as [g0|]; [|done]. intros g' [= <-]. by apply Hg. Qed.

Lemma plainly_2 p : (plainly p).2 = plain p.2.
Proof. done. Qed.
Lemma on_lists_2 f w : (on_lists f w).2 = (f (HostLists.mkState (patterns w) (risk w) (guest w))).2.
Proof. unfold on_lists. by destruct (f _). Qed.

(** A sound cache, and a client address as the server writes it. *)
Definition ready (w : world) : Prop := Pattern.cache_ok (patterns w) ∧ trim_space (client w) = client w.
Lemma ready_steady w w' : steady w w' → ready w → ready w'.
Proof. intros Hs [Hc Ht]. destruct (steady_client w w' Hs) as [E _]. split; [by apply (st_patterns _ _ Hs)|by rewrite E]. Qed.

Lemma allow_ip w : ready w → steady w (check Pipeline.CheckAllowIP w).1 ∧
  RuleCheck.JumpGuardResult (check Pipeline.CheckAllowIP w).2 = HostLists.listed env (client w) (HostLists.all_entries HostLists.IPWhiteLists (lists_of h) (lists_of <$> g)).
Proof using Hh Hg.
  intros [Hc Ht]. pose proof (HostLists.CheckAllowIP_spec env (lists_of h) (lists_of <$> g) (list_visit w) (HostLists.mkState (patterns w) (risk w) (guest w)) Hc Ht Hh published_global) as (Hok & _ & Hr).
  split; [by apply steady_lists|]. cbn [check]. rewrite plainly_2, on_lists_2, Hr. by destruct (HostLists.listed _ _ _).
Qed.
Lemma allow_url w : (check Pipeline.CheckAllowURL w).1 = w ∧
  RuleCheck.JumpGuardResult (check Pipeline.CheckAllowURL w).2 = existsb (HostLists.url_hit (to_lower (URL x))) (HostLists.all_entries HostLists.UrlWhiteLists (lists_of h) (lists_of <$> g)).
Proof. split; [done|]. cbn [check snd]. rewrite HostLists.CheckAllowURL_spec. cbn [list_visit HostLists.URL]. by destruct (existsb _ _). Qed.
Lemma allow_callback w : steady w (check Pipeline.CheckAllowCallBackIP w).1 ∧
  RuleCheck.JumpGuardResult (check Pipeline.CheckAllowCallBackIP w).2 =
    bool_decide (is_Some (HostLists.CheckCallBackIp (if HostLists.proxied env then SRC_IP (log w) else NetSrcIp (log w)))).
Proof.
  cbn [check]. rewrite plainly_2, on_lists_2. unfold HostLists.CheckAllowCallBackIP at 2. cbn [list_visit HostLists.SRC_IP HostLists.NetSrcIp].
  split; [apply steady_lists; unfold HostLists.CheckAllowCallBackIP; by destruct (HostLists.CheckCallBackIp _)|].
  destruct (HostLists.CheckCallBackIp _) as [n|]; cbn [snd]; symmetry; [by apply bool_decide_eq_true; eauto|apply bool_decide_eq_false; by intros [? ?]].
Qed.
Lemma deny_ip w : ready w →
  RuleCheck.IsBlock (check Pipeline.CheckDenyIP w).2 = HostLists.listed env (client w) (HostLists.all_entries HostLists.IPBlockLists (lists_of h) (lists_of <$> g)) || Contains (HostLists.threat env) (parse_ip (client w))
  ∧ steady w (check Pipeline.CheckDenyIP w).1 ∧ RuleCheck.IsRuleAllow (check Pipeline.CheckDenyIP w).2 = false ∧ RuleCheck.IsLogOnly (check Pipeline.CheckDenyIP w).2 = false.
Proof using Hh Hg.
  intros [Hc Ht]. pose proof (HostLists.CheckDenyIP_spec env (lists_of h) (lists_of <$> g) (list_visit w) (HostLists.mkState (patterns w) (risk w) (guest w)) Hc Ht Hh published_global) as (Hok & Hr & _ & _).
  cbn [check]. rewrite plainly_2, on_lists_2. split; [exact Hr|]. split; [by apply steady_lists|done].
Qed.
Lemma deny_url w :
  RuleCheck.IsBlock (check Pipeline.CheckDenyURL w).2 = existsb (HostLists.url_hit (to_lower (URL x))) (HostLists.all_entries HostLists.UrlBlockLists (lists_of h) (lists_of <$> g))
  ∧ RuleCheck.IsRuleAllow (check Pipeline.CheckDenyURL w).2 = false ∧ RuleCheck.IsLogOnly (check Pipeline.CheckDenyURL w).2 = false.
Proof. cbn [check]. rewrite plainly_2, on_lists_2. split; [|done]. apply HostLists.CheckDenyURL_spec. Qed.

Abbreviation st := (Pipeline.st world).
Implicit Types s : st.
Lemma run_world m s : Pipeline.world (Pipeline.run_check m s).1 = (check m (Pipeline.world s)).1 ∧ (Pipeline.run_check m s).2 = (check m (Pipeline.world s)).2.
Proof. unfold Pipeline.run_check. cbn [Pipeline.check StandardChecks]. by destruct (check m (Pipeline.world s)). Qed.

Lemma whites s : ready (Pipeline.world s) →
  steady (Pipeline.world s) (Pipeline.world (Pipeline.white_listed Pipeline.white_lists s).1) ∧ (Pipeline.white_listed Pipeline.white_lists s).2 = white (Pipeline.world s).
Proof using Hh Hg.
  intros Hr. unfold Pipeline.white_lists. cbn [Pipeline.white_listed]. unfold white.
  destruct (allow_ip _ Hr) as [K1 E1]. destruct (run_world Pipeline.CheckAllowIP s) as [W1 R1]. destruct (Pipeline.run_check _ s) as [s1 r1]. cbn [fst snd] in W1, R1.
  rewrite <- R1 in E1. rewrite <- W1 in K1. rewrite E1. clear R1 W1 E1. destruct (HostLists.listed _ _ _); [done|]. cbn [orb].
  destruct (steady_client _ _ K1) as [_ Ev]. destruct (allow_url (Pipeline.world s1)) as [K2 E2]. destruct (run_world Pipeline.CheckAllowURL s1) as [W2 R2].
  destruct (Pipeline.run_check _ s1) as [s2 r2]. cbn [fst snd] in W2, R2. rewrite <- R2 in E2. rewrite K2 in W2. rewrite E2. clear R2 E2. destruct (existsb _ _); cbn [orb fst snd]; [by rewrite W2|].
  destruct (allow_callback (Pipeline.world s2)) as [K3 E3]. destruct (run_world Pipeline.CheckAllowCallBackIP s2) as [W3 R3]. destruct (Pipeline.run_check _ s2) as [s3 r3]. cbn [fst snd] in W3, R3.
  rewrite <- R3 in E3. rewrite <- W3, W2 in K3. rewrite E3, W2. assert (Hs : steady (Pipeline.world s) (Pipeline.world s3)) by (etrans; [exact K1|exact K3]).
  destruct K1 as [Es En _ _ _]. rewrite Es, En. by destruct (HostLists.CheckCallBackIp (if HostLists.proxied env then SRC_IP (log (Pipeline.world s)) else NetSrcIp (log (Pipeline.world s)))).
Qed.

Lemma plugin_steady m s : m ∉ [Pipeline.CheckAllowIP; Pipeline.CheckAllowURL; Pipeline.CheckAllowCallBackIP; Pipeline.CheckDenyIP; Pipeline.CheckDenyURL; Pipeline.CheckRule; Pipeline.CheckDirTraversal; Pipeline.CheckCC; Pipeline.CheckAntiLeech; Pipeline.CheckCsrf] →
  steady (Pipeline.world s) (Pipeline.world (Pipeline.handleBlock (chain_of h) m s).1).
Proof.
  intros Hm. assert (Hc : ∀ w, steady w (check m w).1).
  { intros w. destruct m; try (exfalso; apply Hm; repeat first [left | right]; fail); cbn [check]; destruct (other _ (rest w)) as [r res]; apply steady_rest. }
  unfold Pipeline.handleBlock. destruct (run_world m s) as [W1 _]. destruct (Pipeline.run_check m s) as [s1 r]. cbn [fst] in W1. pose proof (Hc (Pipeline.world s)) as Hs. rewrite <- W1 in Hs.
  repeat case_match; try done; (etrans; [exact Hs|]); by split.
Qed.

(** ** The bans *)

Definition cc_stopped (w : world) : Prop :=
  ∃ k, k ∈ CCBans.lookup_keys (CCEngine.Code (cc h)) (client w) ∧ CCEngineFacts.has (CCEngine.cache (engine w)) now k = true.
Definition rule_stopped (w : world) : Prop :=
  is_Some (WafCache.view (rule_bans w) now (RuleCheck.BuildRuleBanKey (CCEngine.Code (cc h)) (client w))).

(** The same visitor, whatever the caches of the CC engine. *)
Record same_visitor (w w' : world) : Prop := {
  sv_src : SRC_IP (log w') = SRC_IP (log w); sv_net : NetSrcIp (log w') = NetSrcIp (log w); sv_patterns : patterns w' = patterns w }.
Lemma same_client w w' : same_visitor w w' → client w' = client w ∧ list_visit w' = list_visit w ∧ (ready w → ready w').
Proof.
  intros [Hs Hn Hp]. assert (E : client w' = client w) by (unfold client; by rewrite Hs, Hn). split; [done|]. split; [unfold list_visit; by rewrite Hs, Hn|].
  intros [Hc Ht]. split; [by rewrite Hp|by rewrite E].
Qed.

Lemma cc_ban_spec w : client w ≠ [] → let '(w', b) := cc_banned w in
  (cc_stopped w → b = true) ∧ (b = false → same_visitor w w' ∧ rule_bans w' = rule_bans w).
Proof.
  intros Hc. unfold cc_banned, in_engine, CCEngine.matchCCBan. fold (client w). rewrite bool_decide_false by done. unfold mbind, CCEngine.M_bind.
  fold (CCBans.lookup_keys (CCEngine.Code (cc h)) (client w)).
  destruct (CCBans.first_key_run now (CCBans.lookup_keys (CCEngine.Code (cc h)) (client w)) (engine w)) as (c & -> & _). unfold mret, CCEngine.M_ret. cbv beta iota zeta.
  set (l := CCBans.lookup_keys _ _). destruct (find _ l) as [k|] eqn:E; cbn [default from_option id]; unfold id.
  - apply find_some in E as [Hk _]. apply list_elem_of_In in Hk. rewrite bool_decide_false; [|intros ->; by eapply CCBans.lookup_keys_not_nil]. by split.
  - rewrite bool_decide_true by done. split; [|by split; [split|]]. intros (k & Hk & Hs). apply list_elem_of_In in Hk. apply (find_none _ _ E) in Hk. congruence.
Qed.
Lemma rule_ban_spec w : client w ≠ [] → let '(w', b) := rule_banned w in (rule_stopped w → b = true) ∧ same_visitor w w'.
Proof.
  intros Hc. unfold rule_banned, on_rules. pose proof (RuleCheck.matchRuleBan_spec now (CCEngine.Code (cc h)) (NetSrcIp (log w)) (SRC_IP (log w)) (CCEngine.IPMode (cc h))
    (RuleCheck.mkState (risk w) (noted w) (rule_bans w)) Hc) as Hm.
  destruct (RuleCheck.matchRuleBan _ _ _ _ _ _) as [s' [k ip]]. cbn [fst snd] in Hm. split; [|done]. intros Hs. apply Hm in Hs. by rewrite bool_decide_false.
Qed.

Lemma white_steady w w' : steady w w' → white w' = white w ∧ black w' = black w.
Proof. intros Hs. destruct (steady_client w w' Hs) as [E _]. unfold white, black. rewrite E. destruct Hs as [Es En _ _ _]. by rewrite Es, En. Qed.

(** The first steps under the protection of a site. *)
Lemma protect_unlisted s : ready (Pipeline.world s) → white (Pipeline.world s) = false →
  (∃ t, (Pipeline.protect (chain_of h) (r_path (rq x)) s).2 = Some (Pipeline.Blocked Pipeline.checkWithPlugins t)) ∨
  ∃ s', steady (Pipeline.world s) (Pipeline.world s') ∧
    Pipeline.protect (chain_of h) (r_path (rq x)) s = Pipeline.steps (Pipeline.detections (chain_of h) ++ [Pipeline.captcha_step (chain_of h) (r_path (rq x))]) s'.
Proof using Hh Hg.
  intros Hr Hw. unfold Pipeline.protect. pose proof (plugin_steady Pipeline.checkWithPlugins s ltac:(by refine (bool_decide_unpack _ _); vm_compute)) as Hs.
  pose proof (Pipeline.handleBlock_answer (chain_of h) Pipeline.checkWithPlugins s) as Ha.
  destruct (Pipeline.handleBlock _ _ s) as [s1 [a|]]; cbn [fst snd] in *; [left; destruct (Ha a eq_refl) as [t ->]; by exists t|right].
  pose proof (whites s1 (ready_steady _ _ Hs Hr)) as [Hs2 Hb]. destruct (Pipeline.white_listed _ s1) as [s2 b]. cbn [fst snd] in *. rewrite (proj1 (white_steady _ _ Hs)), Hw in Hb. subst b.
  exists s2. split; [by etrans|done].
Qed.

(** An answer that shows nothing: no page of the site, no challenge, no sign-in page. *)
Definition refusal (a : Pipeline.answer) : bool := match a with Pipeline.Challenge | Pipeline.AccessPage => false | _ => true end.

(** The bans and the black lists, in front of any other steps. *)
Lemma bans_and_lists s later : CCEngine.LogOnlyMode (cc h) ≠ 1 → ready (Pipeline.world s) → client (Pipeline.world s) ≠ [] →
  (black (Pipeline.world s) = true ∨ cc_stopped (Pipeline.world s) ∨ rule_stopped (Pipeline.world s)) →
  ∃ a, (Pipeline.steps (Pipeline.cc_ban_step (chain_of h) :: Pipeline.rule_ban_step (chain_of h) :: Pipeline.handleBlock (chain_of h) Pipeline.CheckDenyIP
          :: Pipeline.handleBlock (chain_of h) Pipeline.CheckDenyURL :: later) s).2 = Some a ∧ refusal a = true.
Proof using Hh Hg.
  intros Hlog Hr1 Hc Hbar. cbn [Pipeline.steps].
  assert (Hlog' : Pipeline.LogOnlyMode (chain_of h) ≠ 1) by done.
  pose proof (cc_ban_spec (Pipeline.world s) Hc) as Hcc. unfold Pipeline.cc_ban_step, Pipeline.ask. cbn [Pipeline.cc_banned StandardChecks].
  destruct (cc_banned (Pipeline.world s)) as [w1 b1]. destruct Hcc as [Hcc Hcc'].
  destruct b1.
  { rewrite (proj2 (Z.eqb_neq _ _) Hlog'). by eexists. }
  destruct (Hcc' eq_refl) as [Hv Hb]. destruct (same_client _ _ Hv) as (Ec1 & El1 & Hr2). specialize (Hr2 Hr1).
  cbv beta iota. clear Hcc'.
  pose proof (rule_ban_spec w1 ltac:(by rewrite Ec1)) as Hrb. unfold Pipeline.rule_ban_step, Pipeline.ask. cbn [Pipeline.rule_banned StandardChecks Pipeline.with_world Pipeline.world].
  destruct (rule_banned w1) as [w2 b2].
  destruct Hrb as [Hrb Hv2]. destruct b2; [rewrite (proj2 (Z.eqb_neq _ _) Hlog'); by eexists|]. cbv beta iota.
  set (s3 := Pipeline.with_world w2 _). destruct (same_client _ _ Hv2) as (Ec2 & El2 & Hr3). specialize (Hr3 Hr2).
  destruct (deny_ip (Pipeline.world s3) Hr3) as (Di & _ & Da & Dl). pose proof (Pipeline.handleBlock_refuses (chain_of h) Pipeline.CheckDenyIP s3 Hlog' Da Dl) as Hi.
  change (Pipeline.check Pipeline.CheckDenyIP (Pipeline.world s3)) with (check Pipeline.CheckDenyIP (Pipeline.world s3)) in Hi. rewrite Di in Hi.
  destruct (Pipeline.handleBlock _ Pipeline.CheckDenyIP s3) as [s4 [a|]]; [destruct (_ || _); [injection Hi as ->; by eexists|done]|]. cbn [snd] in Hi.
  destruct (deny_url (Pipeline.world s4)) as (Du & Ua & Ul). pose proof (Pipeline.handleBlock_refuses (chain_of h) Pipeline.CheckDenyURL s4 Hlog' Ua Ul) as Hu.
  change (Pipeline.check Pipeline.CheckDenyURL (Pipeline.world s4)) with (check Pipeline.CheckDenyURL (Pipeline.world s4)) in Hu. rewrite Du in Hu.
  destruct (Pipeline.handleBlock _ Pipeline.CheckDenyURL s4) as [s5 [a|]]; [destruct (existsb _ _); [injection Hu as ->; by eexists|done]|]. cbn [snd] in Hu.
  exfalso. assert (Ecl : client (Pipeline.world s3) = client (Pipeline.world s)) by (cbn; by rewrite Ec2, Ec1). rewrite Ecl in Hi.
  destruct Hbar as [Hbl|[(k & Hk & Hh')|Hrs]].
  - unfold black in Hbl. destruct (_ || Contains _ _); [done|]. cbn [orb] in Hbl. by rewrite Hbl in Hu.
  - enough (cc_stopped (Pipeline.world s)) by (by discriminate Hcc). by exists k.
  - enough (rule_stopped w1) by (by discriminate Hrb). unfold rule_stopped. by rewrite Ec1, Hb.
Qed.

(** C3: a barred visitor gets nothing.  On a protected site that blocks, a visitor that is
    on no white list and whose address or URL is on a black list or in the threat set, or
    who is under a running ban, of the request rules or of a custom rule, is refused: no
    page, no challenge, no sign-in page, nothing of the backend. *)
Theorem barred_refused w : CCEngine.GUARD_STATUS (cc h) = 1 → CCEngine.LogOnlyMode (cc h) ≠ 1 → ready w → client w ≠ [] →
  white w = false → (black w = true ∨ cc_stopped w ∨ rule_stopped w) →
  ∃ a, (ServeHTTP w).2 = Some a ∧ refusal a = true.
Proof using Hh Hg.
  intros Hguard Hlog Hr Hc Hw Hbar. unfold ServeHTTP, Pipeline.serve. cbn [Pipeline.steps]. unfold Pipeline.when. cbn [chain_of Pipeline.GUARD_STATUS]. rewrite Hguard. cbn [Z.eqb Pos.eqb].
  enough (Hp : ∃ a, (Pipeline.protect (chain_of h) (r_path (rq x)) (Pipeline.fresh_request w)).2 = Some a ∧ refusal a = true).
  { destruct Hp as (a & Hp & Ha). exists a. destruct (Pipeline.protect _ _ _) as [s' o]. cbn [snd] in Hp. subst o. done. }
  destruct (protect_unlisted (Pipeline.fresh_request w) Hr Hw) as [[t ->]|(s & Hs & ->)]; [by eexists|].
  cbn [Pipeline.fresh_request Pipeline.world] in Hs. destruct (steady_client _ _ Hs) as [Ec _]. apply bans_and_lists; [done|by apply (ready_steady w)|by rewrite Ec|].
  unfold cc_stopped, rule_stopped. rewrite (proj2 (white_steady _ _ Hs)), (st_cache _ _ Hs), (st_bans _ _ Hs), Ec. done.
Qed.


(** C15: a white list passes.  A visitor on a white list - by address, by URL, or as a payment
    call-back - is refused by no detection and challenged by none, and no ban is written
    for it: only a plugin, which comes first, or the access gate, which comes last, can
    stop it. *)
Theorem white_passes w : ready w → white w = true →
  ((ServeHTTP w).2 = None ∨ (ServeHTTP w).2 = Some Pipeline.AccessPage ∨ ∃ t, (ServeHTTP w).2 = Some (Pipeline.Blocked Pipeline.checkWithPlugins t))
  ∧ steady w (Pipeline.world (ServeHTTP w).1).
Proof using Hh Hg.
  intros Hr Hw. unfold ServeHTTP, Pipeline.serve. cbn [Pipeline.steps]. unfold Pipeline.when. set (s := Pipeline.fresh_request w).
  assert (Hgate : ∀ s', steady w (Pipeline.world s') → ((Pipeline.gate_step s').2 = None ∨ (Pipeline.gate_step s').2 = Some Pipeline.AccessPage) ∧ steady w (Pipeline.world (Pipeline.gate_step s').1)).
  { intros s' Hs. unfold Pipeline.gate_step, Pipeline.ask. cbn [Pipeline.access_gate StandardChecks]. destruct (gate (rest (Pipeline.world s'))) as [r p].
    cbn. split; [destruct p; auto|]. etrans; [exact Hs|apply steady_rest]. }
  assert (Hend : ∀ s', steady w (Pipeline.world s') → let r := let '(s, a) := Pipeline.gate_step s' in match a with Some _ => (s, a) | None => (s, None) end in
    (r.2 = None ∨ r.2 = Some Pipeline.AccessPage) ∧ steady w (Pipeline.world r.1)).
  { intros s' Hs. specialize (Hgate s' Hs). destruct (Pipeline.gate_step s') as [s2 [a|]]; done. }
  clear Hgate. destruct (Pipeline.GUARD_STATUS (chain_of h) =? 1); [|specialize (Hend s ltac:(done)); destruct Hend as [[E|E] Hs]; split; auto].
  unfold Pipeline.protect. pose proof (plugin_steady Pipeline.checkWithPlugins s ltac:(by refine (bool_decide_unpack _ _); vm_compute)) as Hs.
  pose proof (Pipeline.handleBlock_answer (chain_of h) Pipeline.checkWithPlugins s) as Ha. destruct (Pipeline.handleBlock _ _ s) as [s1 [a|]]; cbn [fst snd] in *.
  { destruct (Ha a eq_refl) as [t ->]. split; [right; right; by exists t|done]. }
  pose proof (whites s1 (ready_steady _ _ Hs Hr)) as [Hs2 Hb]. destruct (Pipeline.white_listed _ s1) as [s2 b]. cbn [fst snd] in *.
  rewrite (proj1 (white_steady _ _ Hs)) in Hb. change (Pipeline.world s) with w in Hb. rewrite Hw in Hb. subst b.
  destruct (Hend s2 ltac:(by etrans)) as [[E|E] Hs3]; split; auto.
Qed.

End request.
End standard.
End Serve.

(** ** Visitors of a concrete site *)
Module ServeWitnesses.
Import CCRule.Matcher Serve.
#[local] Instance ascii_lower : UnicodeCase := {| unicode_to_lower s := s |}.
#[local] Existing Instance RuleCheck.ascii_upper.
#[local] Existing Instance RateLimiter.demo_tokens.
#[local] Existing Instance RuleCheck.demo_engine.
#[local] Instance any_regexp : Regexp := {| regexp_match _ _ := Some true |}.

(** A site that blocks two networks and one address group, with or without rules. *)
Definition demo_settings (chain : Z) : Pipeline.site := Pipeline.mkSite 1 0 1 1 1 1 1 1 1 1 1 0 [] [] chain 1 1.
Definition demo_site (log_only : Z) (rule : option RuleCheck.RuleHelper) : Site :=
  mkSite (CCBans.demo_site $"site" log_only []) HostLists.demo_host rule (AntiLeech.mkLeech 0 [] [] [] []) (Csrf.mkCsrf 0 [] [] 0 []) [] (demo_settings 1).
Definition with_rules : option RuleCheck.RuleHelper := RuleCheck.Rule RuleCheck.demo_site.
Definition demo_visit : visit := mkVisit (CCBans.demo_req []) $"/" false false (Traversal.mkInspected $"/" [] [] [] [] []).
Definition visitor (ip : gostr) : WebLog := mkWebLog [] ip [] [] [] 0 0 0 0 [] 0 0 0 [] [].
Definition demo_world (ip : gostr) : world :=
  mkWorld (CCEngine.mkWorld (CCCounter.New 100 10) (CCStats.New 0) ∅ ∅ [] (visitor ip) []) (Pattern.mkCache ∅ 0) [] [] ∅ ().
(** The other checks find nothing, and the gate is open. *)
Definition quiet (m : Pipeline.module) (r : unit) : unit * RuleCheck.Result := (r, RuleCheck.no_hit).
Definition open (r : unit) : unit * bool := (r, true).
Abbreviation answers h ip := (ServeHTTP 0 HostLists.demo_env h None demo_visit $"block" None 0 quiet open (demo_world ip)).
Abbreviation checks h := (StandardChecks 0 HostLists.demo_env h None demo_visit $"block" None 0 quiet open).

Lemma demo_published log_only rule : HostLists.published (lists_of (demo_site log_only rule)).
Proof. split; [by left|done|by right; left|done]. Qed.
Lemma demo_ready h ip : CCEngine.IPMode (cc h) = $"nic" → trim_space ip = ip → ready h (demo_world ip).
Proof. intros Hm Ht. split; [apply HostLists.demo_cache_ok|]. unfold client. by rewrite Hm. Qed.

Lemma barred_refused_witness : ∃ a, (answers (demo_site 0 None) $"172.20.1.1").2 = Some a ∧ refusal a = true.
Proof.
  apply barred_refused; [apply demo_published|done|done|done|by apply demo_ready; vm_compute|done|by vm_compute|left; by vm_compute].
Defined.

(** A site whose white list has the same entries. *)
Definition trusting : Site :=
  mkSite (CCBans.demo_site $"site" 0 []) (HostLists.mkHost [] 1 HostLists.demo_rows (HostLists.BuildIPAllowIndex HostLists.demo_rows) (HostLists.ExtractAllowGroupCodes HostLists.demo_rows) [] None [] [] [])
    with_rules (AntiLeech.mkLeech 0 [] [] [] []) (Csrf.mkCsrf 0 [] [] 0 []) [] (demo_settings 1).
Lemma white_passes_witness :
  (answers trusting $"10.1.7.8").2 = None ∨ (answers trusting $"10.1.7.8").2 = Some Pipeline.AccessPage ∨ ∃ t, (answers trusting $"10.1.7.8").2 = Some (Pipeline.Blocked Pipeline.checkWithPlugins t).
Proof.
  apply white_passes; [split; [by right; left|done|by left|done]|done|by apply demo_ready; vm_compute|by vm_compute].
Defined.

Lemma log_only_never_blocks_witness : (answers (demo_site 1 with_rules) $"172.20.1.1").2 ∈ [None; Some Pipeline.Challenge; Some Pipeline.AccessPage].
Proof. apply (Pipeline.log_only_never_blocks (H0 := checks (demo_site 1 with_rules))). reflexivity. Defined.

Lemma block_by_a_check_witness : ∃ before r, Pipeline.ran (answers (demo_site 0 with_rules) $"9.9.9.9").1 = before ++ [(Pipeline.CheckRule, r)] ∧
  Pipeline.finding r = true ∧ RuleCheck.RTitle r = $"refuse,ban,pass," ∧ (∀ m' r', (m', r') ∈ before → m' ∉ Pipeline.white_lists → Pipeline.finding r' = false).
Proof.
  assert (E : answers (demo_site 0 with_rules) $"9.9.9.9" = ((answers (demo_site 0 with_rules) $"9.9.9.9").1, Some (Pipeline.Blocked Pipeline.CheckRule $"refuse,ban,pass,"))).
  { rewrite (surjective_pairing (ServeHTTP _ _ _ _ _ _ _ _ _ _ _)) at 1. apply pair_equal_spec. split; [reflexivity|by vm_compute]. }
  pose proof (Pipeline.block_by_a_check (H0 := checks (demo_site 0 with_rules)) _ _ _ _ _ _ E) as Hb.
  destruct Hb as (_ & _ & before & r & w & Hr & _ & _ & Hf & Ht & Hb). exists before, r. exact (conj Hr (conj Hf (conj Ht Hb))).
Defined.

Lemma gate_has_the_last_word_witness : ∃ s0, Pipeline.ask (Pipeline.access_gate (Checks := checks (demo_site 0 None))) s0 = ((answers (demo_site 0 None) $"9.9.9.9").1, true).
Proof.
  apply (Pipeline.gate_has_the_last_word (H0 := checks (demo_site 0 None)) (chain_of (demo_site 0 None)) $"/" (Pipeline.fresh_request (demo_world $"9.9.9.9"))).
  rewrite (surjective_pairing (Pipeline.serve _ _ _)). apply pair_equal_spec. split; [reflexivity|by vm_compute].
Defined.

Lemma no_detection_missed_witness : (∀ m, m ∈ [Pipeline.CheckDenyIP; Pipeline.CheckDenyURL; Pipeline.CheckRule] → Pipeline.met m (answers (demo_site 0 None) $"9.9.9.9").1) ∧
  (∀ m r, (m, r) ∈ Pipeline.ran (answers (demo_site 0 None) $"9.9.9.9").1 → m ∉ Pipeline.white_lists → Pipeline.finding r = true → false = true).
Proof.
  destruct (Pipeline.no_detection_missed (H0 := checks (demo_site 0 None)) (chain_of (demo_site 0 None)) $"/" (demo_world $"9.9.9.9") (answers (demo_site 0 None) $"9.9.9.9").1) as [[Hw|[Hd _]] Hf].
  - reflexivity.
  - rewrite (surjective_pairing (Pipeline.serve _ _ _)). apply pair_equal_spec. split; [reflexivity|by vm_compute].
  - exfalso. destruct Hw as (m & r & Hm & Hr & Hj).
    assert (Ha : forallb (λ p, negb (bool_decide (p.1 ∈ Pipeline.white_lists) && RuleCheck.JumpGuardResult p.2)) (Pipeline.ran (answers (demo_site 0 None) $"9.9.9.9").1) = true) by (vm_compute; reflexivity).
    pose proof (proj1 (forallb_forall _ _) Ha (m, r) (proj1 (list_elem_of_In _ _) Hr)) as Hx. clear Ha Hr. cbn [fst snd] in Hx. rewrite (bool_decide_true _ Hm), Hj in Hx. discriminate Hx.
  - split; [exact Hd|]. intros m r Hr Hm Hfd. specialize (Hf m r Hr Hm Hfd). discriminate Hf.
Defined.

(** The checks such a request meets, in order. *)
Example checks_met : map fst (Pipeline.ran (answers (demo_site 0 None) $"9.9.9.9").1) = Pipeline.order (chain_of (demo_site 0 None)).
Proof. by vm_compute. Qed.
End ServeWitnesses.
